(* ===== verification/_CoqProject ===== *)
-Q . S2P
Prelude.v
GoStrings.v
GoFloat.v
GoHeap.v
Types.v
Lrs.v
LrsSpec.v
LrsClient.v
CmsTypes.v
LocalAccount.v
Metrics.v
Filters.v
Selectors.v
Predictor.v
PrefixCache.v
CmsReadClient.v
Dispatch.v
Registry.v
DispatchSpec.v
DispatchTotal.v
Rescheduling.v
LlumletClients.v
ReschedulingSpec.v
SchedulerService.v
Programs.v
Effects.v
RedisSem.v
BatchStore.v
BatchOss.v
BatchReactor.v
BatchHandlers.v
BatchSpec.v
BatchLife.v
BatchRun.v
BatchFiles.v
BatchView.v
BatchOps.v
BatchLive.v
BatchRecord.v
BatchLock.v
GatewayErrors.v
Queue.v
WorkerPool.v
Router.v
Reasoning.v
Protocol.v
Processor.v
GatewayEffects.v
Balancer.v
Forwarder.v
Handler.v
Gateway.v
ProcessorSpec.v
GatewaySpec.v
GatewayLife.v
GatewayRelease.v
Resolver.v
Watcher.v
ResolverSpec.v
Discovery.v
DiscoverySpec.v
DiscoveryExamples.v
EtcdBackend.v
Sha256.v
Hasher.v
HasherSpec.v
KvClients.v
Keepalive.v
MigrationFrontend.v
KvtFrontend.v
MooncakeFrontend.v
EngineStatus.v
StatusUpdater.v
Llumlet.v
RpcServer.v
Outputs.v
Mirror.v
