(* ===== verification/Prelude.v ===== *)
(** * Llumnix: a verification development

    Llumnix schedules the requests of large language models over a cluster of inference engines.
    This library models its parts as definitions that can be evaluated and proves what makes each
    of them correct. Names are those of the sources; paths below are relative to [src].

    ** The program and its parts

    - A _gateway_ ([pkg/gateway]) receives the requests of clients. It queues them, routes each to
      the cluster or to an external service, asks the scheduler for instances, forwards the
      request to their engines, and turns the stream that comes back into the client's response.
      It also runs batches of requests that are stored in Redis and an object store.
    - The _scheduler_ ([pkg/scheduler], [pkg/lrs], [pkg/cms]) chooses instances. In lite mode it
      counts the requests on each instance itself; in full mode it reads the status of the
      instances from the cluster metadata store (CMS, in Redis) and corrects it by what it has
      dispatched since. It also plans migrations of requests between instances.
    - _Discovery_ ([pkg/resolver], [python/discovery]): beside each engine a registrar probes it
      and registers it in Redis or etcd, where gateway and scheduler look for instances.
    - The _agent_ of an instance, Llumlet ([python/llumnix]), reports the engine's status to the
      CMS and passes migrations and aborts on; inside the engine, hooks collect the status,
      choose the requests of a migration, and send outputs to the API servers.

    ** Which file models what

    Shared: [Prelude] (tactics, hints, lemmas on lists, maps and machine integers, orders of map
    iteration), [GoStrings], [GoFloat] and [GoHeap] (what the sources use of Go's library),
    [Types] ([pkg/consts], [pkg/types]), [Programs] (programs that call other parts: trees of
    calls whose answers are left open, with traces, monitors and a weakest-precondition calculus).

    Lite scheduling: [Lrs] and [LrsClient] ([pkg/lrs]: the tables of requests, linked by
    pointers in a heap), [LrsSpec] (the abstract store they implement).

    Full scheduling: [CmsTypes], [LocalAccount] and [CmsReadClient] ([pkg/cms]), [Metrics],
    [Filters], [Selectors], [Registry] and [Dispatch] ([pkg/scheduler/policy]), [Predictor]
    ([pkg/scheduler/predictor]), [PrefixCache], [KvClients] ([pkg/scheduler/kvs]), [Sha256] and
    [Hasher] ([pkg/scheduler/hasher]), with [DispatchSpec], [DispatchTotal] and [HasherSpec].
    Migration planning: [Rescheduling], [LlumletClients], [ReschedulingSpec]. The HTTP service
    over all of it: [SchedulerService]; the connection to the gateways: [Keepalive].

    Batches ([pkg/gateway/batch]): [Effects] and [RedisSem] (the calls, and what Redis documents
    about them), [BatchStore], [BatchOss], [BatchReactor], [BatchHandlers]; [BatchSpec] and
    [BatchLife] (all interleavings, with crashes and failing answers), [BatchRun], [BatchFiles],
    [BatchView], [BatchOps] and [BatchLive] (a run that gets through), [BatchRecord], [BatchLock].

    Requests in the gateway: [GatewayErrors], [Queue] and [WorkerPool] ([queue]), [Router]
    ([router]), [Reasoning], [Protocol] and [Processor] ([processor], [protocol]), [Balancer]
    ([load-balancer]), [Forwarder], [Handler], [Gateway] ([service]), [Mirror] ([mirror],
    [property]); [GatewayEffects] are their calls, [ProcessorSpec], [GatewaySpec], [GatewayLife]
    and [GatewayRelease] what holds of every run.

    Discovery: [Resolver], [Watcher], [ResolverSpec], [Discovery], [EtcdBackend], and
    [DiscoverySpec] with [DiscoveryExamples] for the whole.

    Instances ([python/llumnix]): [MigrationFrontend], [KvtFrontend] and [MooncakeFrontend]
    ([migration_frontend]), [EngineStatus] and [StatusUpdater] ([status_collector], [metrics.py]),
    [Llumlet] ([llumlet.py], [converters.py], the CMS writer), [RpcServer] ([rpc_server.py]),
    [Outputs] ([outputs], [entrypoints], [connection_pool.py]).

    ** How code becomes definitions

    A struct or class is a [Record], an enumeration an [Inductive] or, where any text can arrive,
    a string with the constants of the source. A method is a function from the state to the state
    and the result. Code that calls services is a [Prog]: any answer is possible, and theorems
    quantify over all traces. Concurrency is a step relation or an interleaving of programs, whose
    steps are what the source does under one lock, in one script or between two awaits. Pointers
    that are shared and written are locations in a heap. Integers wrap where the source's do
    ([int32], [int64]), floats are IEEE numbers with Go's rounding. Panics and exceptions are
    values ([None], [Panic], an error). The iteration order of Go's maps, clocks and random
    numbers are arguments. Third-party code is an argument or a class ([ProtoCodec], [PodCodec],
    [Sglang], [LeastSquares] and others) whose documented behaviour, where a theorem needs it, is
    a named hypothesis that an example instantiates.

    ** What the theorems show

    - The stores do what their interface says: the linked tables of the lite scheduler and the
      priority queue refine an abstract store ([lrs_refines], [queue_refines]), as long as releases
      name the instance of their request; the counters that scheduling reads are exact sums
      ([lrs_counters], [inflight_counters_exact]); the CMS
      client's tables stay consistent ([cms_invariant]); the instances a gateway is given are
      released ([instances_released], [schedule_release_restores]).
    - Decisions are right: no request goes to an unschedulable or stale instance or its failover
      domain ([dispatch_safe], [filter_exact]), the selectors choose among the best, dispatch
      answers in the configurations that it names ([dispatch_total]), migrations go between allowed instances
      ([migrations_safe]), prefix hits are the common prefixes ([prefix_cache_exact]), and what an
      instance collects covers what the metrics read ([mask_covers_metrics]).
    - Requests are handled once and in order: one status line per client ([one_status_line]), the
      response channel is closed once and engines are called a bounded number of times
      ([request_channel_protocol]), an engine's stream reaches the client's handler in order up to
      the error, the oversized event or the interruption that ends it ([stream_delivered]), the
      outputs of a request that arrive in order are passed on in order and once, and without gaps
      otherwise ([outputs_end_to_end], [outputs_never_skip]), and streaming and buffering clients
      get the same text and tool calls, these unless a delta brings a name and arguments at once
      ([stream_matches_buffered]).
    - Batches follow their life cycle under every interleaving and crash ([batch_lifecycle]),
      locks exclude ([lock_exclusive]), and a batch gets through when its services answer
      ([batch_completes]).
    - Discovery, with pods and resolvers interleaved at each call of Redis, lists what the pods
      last registered as healthy, up to its time to live ([discovery_end_to_end]); watching equals
      reading while no entry expires ([watch_equals_refresh]), a balancer that keeps up follows
      ([balancer_follows_resolver]), a key is stored under the lease that is kept alive, until the
      leases are replaced ([registration_stays_leased]), and gateways are registered exactly while
      connected ([keepalive_balanced]).
    - Instances report truthfully: the status is that of the engine ([update_exact]), the agent's
      loop, RPC calls and shutdown, interleaved, write only its own keys and fresh statuses
      ([agent_reports_safely]), a failed engine becomes unschedulable at the scheduler
      ([engine_failure_reaches_scheduler]), and migrations are chosen, started and limited as
      configured ([selection_by_number_exact], [kvt_migration_safe], [migrate_in_within_limits]).
    - Theorems that are named for what goes wrong ([held_back_for_ever], [early_migration_wedges],
      [late_answer_migrates_twice], [renewed_registration_deleted], [recovery_leaves_keys],
      [hung_engine_lapses_registration], [merged_arguments_twice] and others) show behaviour the code does not intend.

    ** Bounds and fuel

    Loops that are not structural carry a fuel. Where a loop ends by itself the fuel is a bound
    that is proved to be enough (heap operations: the length of the slice; retry loops: the
    configured number of attempts; the predictor's loops: a measure). Where the source loops for
    ever or waits for a service (the agent's and the keepalive loops, listing pages, waiting for
    the scheduler), the program ends in [Hang] when the fuel is used up, and theorems hold for
    every fuel. Counters are treated with their wrap-around; where a theorem needs that one does
    not overflow it says so.

    ** Not modelled

    - Configuration flags and [main] functions ([cmd]), logging, metrics export ([pkg/metrics])
      and the texts of log and error messages, which decide nothing that is modelled.
    - The client libraries for Redis, etcd, gRPC, HTTP, ZeroMQ and their wrappers and mocks, the
      tokenizers and the chat templates (sglang), vLLM and SGLang themselves: their answers are
      arguments.
    - The vLLM patches ([patches]; of the Mooncake connector only the clearing of the requests
      that came in), which only make sense inside vLLM's own code, and the SGLang variants of the
      engine client and the proxy, which pass calls on to SGLang; the start of the agent's process
      and of its SGLang client, and the threads inside the engine.
    - The windows in which the source gives a lock up in the middle of an operation (the KV-store
      query of [schedule]), reverted dispatches in the runs of [inflight_counters_exact], and
      calls of the etcd backend on several keys at once or beside its start and close.
    - Benchmarks, deployment files, scripts and documentation. *)

From stdpp Require Import base gmap sets list strings sorting numbers.

(** ** Scopes, hint databases and tactics *)

Declare Scope go_scope.
Delimit Scope go_scope with go.

Create HintDb go discriminated.

(** [inv_some] turns equations between options and pairs into substitutions. *)
Ltac inv_some :=
  repeat match goal with
  | H : Some _ = Some _ |- _ => injection H as H; try subst
  | H : None = Some _ |- _ => discriminate H
  | H : Some _ = None |- _ => discriminate H
  | H : (_, _) = (_, _) |- _ => injection H as H; try subst
  end.

(** [split_match] destructs the scrutinee of the first [match] (or [if]) of the
    goal and keeps the equation. *)
Ltac split_match :=
  match goal with
  | |- context [match ?x with _ => _ end] => destruct x eqn:?
  end.

Ltac split_match_in H :=
  match type of H with
  | context [match ?x with _ => _ end] => destruct x eqn:?
  end.

(** ** Go's fixed-width integers

    A signed [w]-bit integer is a [Z] in [[-2^(w-1), 2^(w-1))]; arithmetic of the
    language is arithmetic on [Z] followed by [wrap]. *)

Section ints.
Local Open Scope Z_scope.

Definition wrap (w z : Z) : Z := (z + 2 ^ (w - 1)) mod 2 ^ w - 2 ^ (w - 1).

Definition int32 (z : Z) : Z := wrap 32 z.
Definition int64 (z : Z) : Z := wrap 64 z.
Definition uint64 (z : Z) : Z := z mod 2 ^ 64.

Definition MaxInt32 : Z := 2 ^ 31 - 1.
Definition MinInt32 : Z := - 2 ^ 31.
Definition MaxInt64 : Z := 2 ^ 63 - 1.
Definition MinInt64 : Z := - 2 ^ 63.

Lemma wrap_small w z : 0 < w -> - 2 ^ (w - 1) <= z < 2 ^ (w - 1) -> wrap w z = z.
Proof.
  intros Hw Hz. unfold wrap.
  assert (2 ^ w = 2 * 2 ^ (w - 1)) by (rewrite <- Z.pow_succ_r by lia; f_equal; lia).
  rewrite Z.mod_small; lia.
Qed.

Lemma wrap_range w z : 0 < w -> - 2 ^ (w - 1) <= wrap w z < 2 ^ (w - 1).
Proof.
  intros Hw. unfold wrap.
  assert (2 ^ w = 2 * 2 ^ (w - 1)) by (rewrite <- Z.pow_succ_r by lia; f_equal; lia).
  pose proof (Z.mod_pos_bound (z + 2 ^ (w - 1)) (2 ^ w)). lia.
Qed.

Lemma wrap_add_l w a b : wrap w (wrap w a + b) = wrap w (a + b).
Proof.
  unfold wrap.
  replace ((a + 2 ^ (w - 1)) mod 2 ^ w - 2 ^ (w - 1) + b + 2 ^ (w - 1))
    with ((a + 2 ^ (w - 1)) mod 2 ^ w + b) by lia.
  rewrite Zplus_mod_idemp_l. do 2 f_equal. lia.
Qed.

Lemma wrap_add_r w a b : wrap w (a + wrap w b) = wrap w (a + b).
Proof. rewrite Z.add_comm, wrap_add_l. f_equal. lia. Qed.

Lemma wrap_sub_l w a b : wrap w (wrap w a - b) = wrap w (a - b).
Proof. exact (wrap_add_l w a (- b)). Qed.

Lemma wrap_idem w z : wrap w (wrap w z) = wrap w z.
Proof.
  transitivity (wrap w (wrap w z + 0)); [f_equal; lia|]. rewrite wrap_add_l. f_equal. lia.
Qed.

Lemma int32_small z : MinInt32 <= z <= MaxInt32 -> int32 z = z.
Proof. unfold MinInt32, MaxInt32. intros. apply wrap_small; lia. Qed.

Lemma int64_small z : MinInt64 <= z <= MaxInt64 -> int64 z = z.
Proof. unfold MinInt64, MaxInt64. intros. apply wrap_small; lia. Qed.

Lemma int32_add_l a b : int32 (int32 a + b) = int32 (a + b).
Proof. apply wrap_add_l. Qed.
Lemma int32_add_r a b : int32 (a + int32 b) = int32 (a + b).
Proof. apply wrap_add_r. Qed.
Lemma int32_sub_l a b : int32 (int32 a - b) = int32 (a - b).
Proof. apply wrap_sub_l. Qed.
Lemma int32_idem a : int32 (int32 a) = int32 a.
Proof. apply wrap_idem. Qed.
Lemma int64_add_l a b : int64 (int64 a + b) = int64 (a + b).
Proof. apply wrap_add_l. Qed.
Lemma int64_sub_l a b : int64 (int64 a - b) = int64 (a - b).
Proof. apply wrap_sub_l. Qed.

End ints.

Create Rewrite HintDb go_int.
#[export] Hint Rewrite int32_add_l int32_add_r int32_sub_l int32_idem int64_add_l int64_sub_l : go_int.

(** ** Sums over the values of a finite map *)

Section map_sum.
Local Open Scope Z_scope.
Context {K : Type} `{Countable K} {V : Type}.
Implicit Types (f g : V -> Z) (m : gmap K V).

Definition map_sum f m : Z := map_fold (fun _ v acc => f v + acc) 0 m.

Lemma map_sum_empty f : map_sum f (∅ : gmap K V) = 0.
Proof. apply map_fold_empty. Qed.

Lemma map_sum_insert f m k v : m !! k = None -> map_sum f (<[k:=v]> m) = f v + map_sum f m.
Proof.
  intros Hk. unfold map_sum. rewrite (map_fold_insert_L _ _ k v m); auto. intros. lia.
Qed.

Lemma map_sum_delete f m k v : m !! k = Some v -> map_sum f (delete k m) = map_sum f m - f v.
Proof.
  intros Hk. rewrite <- (insert_delete_id m k v Hk) at 2.
  rewrite map_sum_insert by apply lookup_delete_eq. lia.
Qed.

Lemma map_sum_update f m k v w :
  m !! k = Some v -> map_sum f (<[k:=w]> m) = map_sum f m - f v + f w.
Proof.
  intros Hk. rewrite <- insert_delete_eq.
  rewrite map_sum_insert by apply lookup_delete_eq. rewrite (map_sum_delete f m k v Hk). lia.
Qed.

Lemma map_sum_ext f g m :
  (forall k v, m !! k = Some v -> f v = g v) -> map_sum f m = map_sum g m.
Proof.
  induction m as [|k v m Hk IH] using map_ind; intros Hfg; [by rewrite !map_sum_empty|].
  rewrite !map_sum_insert by done. f_equal.
  - apply (Hfg k). apply lookup_insert_eq.
  - apply IH. intros k' v' Hk'. apply (Hfg k'). rewrite lookup_insert_ne; [done | congruence].
Qed.

(** Changing the weight of one entry. *)
Lemma map_sum_change f g m k v :
  m !! k = Some v -> (forall k' v', k' <> k -> m !! k' = Some v' -> f v' = g v') ->
  map_sum g m = map_sum f m - f v + g v.
Proof.
  intros Hk Hfg. pose proof (map_sum_delete f m k v Hk). pose proof (map_sum_delete g m k v Hk).
  assert (map_sum f (delete k m) = map_sum g (delete k m)); [|lia].
  apply map_sum_ext. intros k' v' [Hne Hk']%lookup_delete_Some. eauto.
Qed.

Lemma map_sum_nonneg f m : (forall k v, m !! k = Some v -> 0 <= f v) -> 0 <= map_sum f m.
Proof.
  induction m as [|k v m Hk IH] using map_ind; intros Hf; [by rewrite map_sum_empty|].
  rewrite map_sum_insert by done.
  assert (0 <= f v) by (apply (Hf k), lookup_insert_eq).
  assert (0 <= map_sum f m); [|lia].
  apply IH. intros k' v' Hk'. apply (Hf k'). rewrite lookup_insert_ne; [done | congruence].
Qed.

Lemma map_sum_lookup_le f m k v :
  (forall k v, m !! k = Some v -> 0 <= f v) -> m !! k = Some v -> f v <= map_sum f m.
Proof.
  intros Hf Hk. pose proof (map_sum_delete f m k v Hk).
  assert (0 <= map_sum f (delete k m)); [|lia].
  apply map_sum_nonneg. intros k' v' [_ Hk']%lookup_delete_Some. eauto.
Qed.

(** A Go loop that accumulates into an [int64] computes the sum modulo 2^64. *)
Lemma map_fold_int64 (b : V -> bool) f m :
  map_fold (fun _ v cnt => if b v then int64 (cnt + f v) else cnt) 0 m
  = int64 (map_sum (fun v => if b v then f v else 0) m).
Proof.
  induction m as [|k v m Hk IH] using map_ind; [by rewrite map_fold_empty, map_sum_empty|].
  rewrite map_sum_insert by done. rewrite (map_fold_insert_L _ _ k v m); [|intros; repeat case_match|done].
  - rewrite IH. destruct (b v); [|by rewrite Z.add_0_l]. by rewrite int64_add_l, Z.add_comm.
  - rewrite !int64_add_l. f_equal. lia.
  - done.
  - done.
  - done.
Qed.

Lemma map_sum_const_size m : map_sum (fun _ => 1) m = Z.of_nat (size m).
Proof.
  induction m as [|k v m Hk IH] using map_ind; [by rewrite map_sum_empty, map_size_empty|].
  rewrite map_sum_insert, map_size_insert_None by done. lia.
Qed.

End map_sum.

Lemma map_sum_fmap `{Countable K} {V W} (g : V -> W) (f : W -> Z) (m : gmap K V) :
  map_sum f (g <$> m) = map_sum (fun v => f (g v)) m.
Proof.
  induction m as [|k v m Hk IH] using map_ind; [by rewrite fmap_empty, !map_sum_empty|].
  rewrite fmap_insert, !map_sum_insert; [by rewrite IH|done|by rewrite lookup_fmap, Hk].
Qed.

Lemma map_sum_le `{Countable K} {V} (f g : V -> Z) (m : gmap K V) :
  (forall k v, m !! k = Some v -> f v <= g v)%Z -> (map_sum f m <= map_sum g m)%Z.
Proof.
  induction m as [|k v m Hk IH] using map_ind; intros Hfg; [by rewrite !map_sum_empty|].
  rewrite !map_sum_insert by done. apply Z.add_le_mono.
  - apply (Hfg k). apply lookup_insert_eq.
  - apply IH. intros k' v' Hk'. apply (Hfg k'). rewrite lookup_insert_ne; [done | congruence].
Qed.

(** ** Ranging over a Go map

    The order in which [range] visits the keys of a map is unspecified; what the
    language promises is that every key is visited once. A loop whose result may
    depend on the order takes the order as an argument. *)

Abbreviation key_order := (gset string -> list string) (only parsing).

Definition visits_once (order : key_order) : Prop := forall s, order s ≡ₚ elements s.

Lemma elem_of_order (order : key_order) s k : visits_once order -> k ∈ order s <-> k ∈ s.
Proof. intros Ho. rewrite (Ho s). apply elem_of_elements. Qed.

Lemma NoDup_order (order : key_order) s : visits_once order -> NoDup (order s).
Proof. intros Ho. rewrite (Ho s). apply NoDup_elements. Qed.

(** ** A loop over a map whose body may fail

    The body works on one entry; the whole loop fails when one iteration does. The
    order of the iterations does not matter. *)

Section map_traverse.
Context {A B : Type}.
Implicit Types (f : string -> A -> option B) (m : gmap string A).

Definition map_traverse f m : option (gmap string B) :=
  map_fold (fun k a acc => acc ← acc; b ← f k a; Some (<[k := b]> acc)) (Some ∅) m.

Lemma map_traverse_empty f : map_traverse f ∅ = Some ∅.
Proof. apply map_fold_empty. Qed.

Lemma map_traverse_insert f m k a :
  m !! k = None ->
  map_traverse f (<[k := a]> m) = (acc ← map_traverse f m; b ← f k a; Some (<[k := b]> acc)).
Proof.
  intros Hk. unfold map_traverse. rewrite (map_fold_insert_L _ _ k a m); [done| |done].
  intros j1 j2 a1 a2 acc Hne _ _. destruct acc as [acc|]; [|done]. cbn.
  destruct (f j1 a1) as [b1|] eqn:E1, (f j2 a2) as [b2|] eqn:E2; cbn; rewrite ?E1, ?E2; try done.
  cbn. f_equal. by apply insert_insert_ne.
Qed.

Lemma map_traverse_lookup f m (m' : gmap string B) :
  map_traverse f m = Some m' ->
  forall k, match m !! k, m' !! k with
            | Some a, Some b => f k a = Some b
            | None, None => True
            | _, _ => False
            end.
Proof.
  revert m'. induction m as [|k a m Hk IH] using map_ind; intros m'.
  - rewrite map_traverse_empty. intros [= <-] j. by rewrite !lookup_empty.
  - rewrite map_traverse_insert by done. destruct (map_traverse f m) as [acc|] eqn:E; [|done]. cbn.
    destruct (f k a) as [b|] eqn:Hf; [|done]. intros [= <-] j. specialize (IH _ eq_refl j).
    rewrite !lookup_insert. case_decide; [by subst|done].
Qed.

Lemma map_traverse_dom f m (m' : gmap string B) : map_traverse f m = Some m' -> dom m' = dom m.
Proof.
  intros H. apply set_eq. intros k. rewrite !elem_of_dom. pose proof (map_traverse_lookup f m m' H k) as Hk.
  destruct (m !! k), (m' !! k); try done; split; eauto.
Qed.

Lemma map_traverse_total f m :
  (forall k a, m !! k = Some a -> is_Some (f k a)) -> is_Some (map_traverse f m).
Proof.
  induction m as [|k a m Hk IH] using map_ind; intros Hf; [by rewrite map_traverse_empty|].
  rewrite map_traverse_insert by done. destruct IH as [acc ->].
  - intros j b Hj. apply Hf. rewrite lookup_insert_ne; [done|congruence].
  - destruct (Hf k a (lookup_insert_eq m k a)) as [b Hb]. cbn. by rewrite Hb.
Qed.

End map_traverse.

(** ** Lists

    Loops that append what each element contributes. *)

Lemma zip_map {A B} (f : A -> B) l : zip l (map f l) = map (fun a => (a, f a)) l.
Proof. induction l as [|a l IH]; cbn; [done|]. by rewrite <- IH. Qed.

Lemma flat_map_map {A B C} (f : A -> B) (g : B -> list C) l : flat_map g (map f l) = flat_map (fun a => g (f a)) l.
Proof. induction l as [|a l IH]; cbn; [done|]. by rewrite IH. Qed.

Lemma flat_map_ext_elem {A B} (f g : A -> list B) l : (forall a, a ∈ l -> f a = g a) -> flat_map f l = flat_map g l.
Proof. induction l as [|a l IH]; intros Hf; cbn; [done|]. rewrite Hf, IH; [done| |left]. intros b Hb. apply Hf. by right. Qed.

Lemma flat_map_filter {A B} (f : A -> list B) (P : A -> Prop) `{!forall a, Decision (P a)} l :
  (forall a, ~ P a -> f a = []) -> flat_map f (filter P l) = flat_map f l.
Proof. intros Hf. induction l as [|a l IH]; [done|]. rewrite filter_cons. cbn. case_decide; cbn; rewrite IH; [done|]. by rewrite Hf. Qed.

Lemma flat_map_perm {A B} (f : A -> list B) l1 l2 : l1 ≡ₚ l2 -> flat_map f l1 ≡ₚ flat_map f l2.
Proof.
  induction 1; cbn; [done|by f_equiv| |by etrans]. rewrite !app_assoc. f_equiv. apply Permutation_app_comm.
Qed.

Lemma forallb_filter {A} (f g : A -> bool) l : forallb f l = true -> forallb f (List.filter g l) = true.
Proof. rewrite !forallb_forall. intros Hf x [Hx _]%filter_In. eauto. Qed.

Lemma nodup_map_filter {A B} (f : A -> B) (g : A -> bool) l : NoDup (map f l) -> NoDup (map f (List.filter g l)).
Proof.
  induction l as [|a l IH]; [done|]. cbn. intros [Ha Hl]%list.NoDup_cons. destruct (g a); [|by apply IH]. cbn.
  apply list.NoDup_cons. split; [|by apply IH]. contradict Ha. apply list_elem_of_In. apply list_elem_of_In, in_map_iff in Ha as (b & <- & [Hb _]%filter_In).
  by apply in_map.
Qed.
