(* ===== verification/GoStrings.v ===== *)
(** * Go's [strings] and [strconv] functions used by the sources

    A Go string is a sequence of bytes, here stdpp's [string]. The definitions
    below give the documented behaviour of the standard-library functions that
    the modelled components call: [strings.HasPrefix], [HasSuffix], [TrimPrefix],
    [TrimSuffix], [Index], [LastIndex], [Contains], [Split], [SplitN], [ReplaceAll],
    [TrimSpace], [Join], and [strconv.Itoa] / [Atoi]. *)

From Stdlib Require Import Ascii.
From stdpp Require Import base list strings pretty numbers.
From S2P Require Import Prelude.

Local Open Scope nat_scope.

(** ** Slicing *)

Fixpoint sdrop (n : nat) (s : string) : string :=
  match n, s with
  | 0, _ => s
  | S n, String _ s' => sdrop n s'
  | S _, EmptyString => ""
  end.

Fixpoint stake (n : nat) (s : string) : string :=
  match n, s with
  | 0, _ => ""
  | S n, String c s' => String c (stake n s')
  | S _, EmptyString => ""
  end.

(** ** Searching *)

Definition HasPrefix (s p : string) : bool := String.prefix p s.

Definition HasSuffix (s p : string) : bool :=
  bool_decide (String.length p <= String.length s) &&
  bool_decide (sdrop (String.length s - String.length p) s = p).

Definition TrimPrefix (s p : string) : string :=
  if HasPrefix s p then sdrop (String.length p) s else s.

Definition TrimSuffix (s p : string) : string :=
  if HasSuffix s p then stake (String.length s - String.length p) s else s.

Fixpoint Index (s sep : string) : option nat :=
  if String.prefix sep s then Some 0
  else match s with
       | EmptyString => None
       | String _ s' => S <$> Index s' sep
       end.

Definition Contains (s sep : string) : bool :=
  match Index s sep with Some _ => true | None => false end.

Fixpoint LastIndex (s sep : string) : option nat :=
  match s with
  | EmptyString => if String.prefix sep "" then Some 0 else None
  | String _ s' =>
      match LastIndex s' sep with
      | Some i => Some (S i)
      | None => if String.prefix sep s then Some 0 else None
      end
  end.

(** ** Splitting, replacing, joining

    [sep] is never empty in the sources; each step consumes at least one byte of
    [s], so [String.length s] steps are enough. *)

Fixpoint split_fuel (fuel : nat) (s sep : string) : list string :=
  match fuel with
  | 0 => [s]
  | S fuel =>
      match Index s sep with
      | None => [s]
      | Some i => stake i s :: split_fuel fuel (sdrop (i + String.length sep) s) sep
      end
  end.

Definition Split (s sep : string) : list string := split_fuel (String.length s) s sep.

(** [strings.SplitN(s, sep, 2)]. *)
Definition SplitN2 (s sep : string) : list string :=
  match Index s sep with
  | None => [s]
  | Some i => [stake i s; sdrop (i + String.length sep) s]
  end.

Fixpoint Join (parts : list string) (sep : string) : string :=
  match parts with
  | [] => ""
  | [p] => p
  | p :: parts => p +:+ sep +:+ Join parts sep
  end.

(** [strings.ReplaceAll(s, old, new)] for a non-empty [old]. *)
Definition ReplaceAll (s old new : string) : string := Join (Split s old) new.

(** [strings.TrimSpace] on the ASCII white space bytes. *)
Definition is_space (c : ascii) : bool :=
  match c with
  | "009" | "010" | "011" | "012" | "013" | " " => true
  | _ => false
  end%char.

Fixpoint TrimLeft (s : string) : string :=
  match s with
  | EmptyString => ""
  | String c s' => if is_space c then TrimLeft s' else s
  end.

Fixpoint TrimRight (s : string) : string :=
  match s with
  | EmptyString => ""
  | String c s' =>
      match TrimRight s' with
      | EmptyString => if is_space c then "" else String c ""
      | t => String c t
      end
  end.

Definition TrimSpace (s : string) : string := TrimRight (TrimLeft s).

(** ** Numbers *)

Definition Itoa (z : Z) : string := pretty z.

Definition digit_of (c : ascii) : option Z :=
  let n := Z.of_nat (nat_of_ascii c) in
  if bool_decide (48 <= n <= 57)%Z then Some (n - 48)%Z else None.

Fixpoint digits_value (acc : Z) (s : string) : option Z :=
  match s with
  | EmptyString => Some acc
  | String c s' => d ← digit_of c; digits_value (acc * 10 + d)%Z s'
  end.

(** [strconv.Atoi]: an optional sign, at least one digit, nothing else, and a
    value that fits a 64-bit [int]. *)
Definition Atoi (s : string) : option Z :=
  let '(neg, body) :=
    match s with
    | String c s' =>
        if bool_decide (c = "-"%char) then (true, s')
        else if bool_decide (c = "+"%char) then (false, s') else (false, s)
    | EmptyString => (false, s)
    end in
  match body with
  | EmptyString => None
  | _ => v ← digits_value 0 body;
         let v := (if neg then - v else v)%Z in
         if bool_decide (MinInt64 <= v <= MaxInt64)%Z then Some v else None
  end.

(** ** Lemmas *)

Lemma sapp_nil_l s : "" +:+ s = s.
Proof. done. Qed.

Lemma sapp_cons c s t : String c s +:+ t = String c (s +:+ t).
Proof. done. Qed.

Lemma sapp_nil_r s : s +:+ "" = s.
Proof. induction s as [|c s IH]; [done|]. change (String c (s +:+ "") = String c s). by rewrite IH. Qed.

Lemma sapp_assoc s1 s2 s3 : s1 +:+ s2 +:+ s3 = (s1 +:+ s2) +:+ s3.
Proof.
  induction s1 as [|c s1 IH]; [done|].
  change (String c (s1 +:+ s2 +:+ s3) = String c ((s1 +:+ s2) +:+ s3)). by rewrite IH.
Qed.

Lemma slength_app s1 s2 : String.length (s1 +:+ s2) = String.length s1 + String.length s2.
Proof. induction s1 as [|c s1 IH]; [done|]. change (S (String.length (s1 +:+ s2)) = S (String.length s1 + String.length s2)). by rewrite IH. Qed.

Lemma stake_sdrop n s : stake n s +:+ sdrop n s = s.
Proof.
  revert s; induction n as [|n IH]; intros [|c s]; try done.
  change (String c (stake n s +:+ sdrop n s) = String c s). by rewrite IH.
Qed.

Lemma sdrop_app s1 s2 : sdrop (String.length s1) (s1 +:+ s2) = s2.
Proof. induction s1 as [|c s1 IH]; done. Qed.

Lemma stake_app s1 s2 : stake (String.length s1) (s1 +:+ s2) = s1.
Proof.
  induction s1 as [|c s1 IH]; [by destruct s2|].
  change (String c (stake (String.length s1) (s1 +:+ s2)) = String c s1). by rewrite IH.
Qed.

Lemma sdrop_add n m s : sdrop (n + m) s = sdrop m (sdrop n s).
Proof. revert s; induction n as [|n IH]; intros [|c s]; try done; [by destruct m|]. simpl. apply IH. Qed.

Lemma slength_sdrop n s : String.length (sdrop n s) = String.length s - n.
Proof. revert s; induction n as [|n IH]; intros [|c s]; try done. simpl. apply IH. Qed.

Lemma prefix_true p s : String.prefix p s = true -> s = p +:+ sdrop (String.length p) s.
Proof.
  revert s; induction p as [|c p IH]; intros s; [done|].
  destruct s as [|d s]; [done|]. simpl. destruct (Ascii.ascii_dec c d) as [->|]; [|done].
  intros Hp. change (String d s = String d (p +:+ sdrop (String.length p) s)). by rewrite <- IH.
Qed.

Lemma prefix_app p s : String.prefix p (p +:+ s) = true.
Proof.
  induction p as [|c p IH]; [by destruct s|]. simpl.
  by destruct (Ascii.ascii_dec c c).
Qed.

Lemma Index_Some s sep i :
  Index s sep = Some i -> s = stake i s +:+ sep +:+ sdrop (i + String.length sep) s.
Proof.
  revert i; induction s as [|c s IH]; intros i; cbn [Index];
    destruct (String.prefix _ _) eqn:Hp; intros Hi; simplify_eq.
  - by apply prefix_true in Hp.
  - cbn [stake Nat.add]. by apply prefix_true in Hp.
  - destruct (Index s sep) as [j|] eqn:Hj; [|done]. injection Hi as <-.
    change (String c s = String c (stake j s +:+ sep +:+ sdrop (j + String.length sep) s)).
    by rewrite <- IH.
Qed.

Lemma Index_le s sep i : Index s sep = Some i -> i + String.length sep <= String.length s.
Proof.
  revert i; induction s as [|c s IH]; intros i; cbn [Index];
    destruct (String.prefix _ _) eqn:Hp; intros Hi; simplify_eq.
  - apply prefix_true in Hp. rewrite Hp, slength_app. simpl. lia.
  - apply prefix_true in Hp. rewrite Hp at 1. rewrite slength_app. simpl. lia.
  - destruct (Index s sep) as [j|] eqn:Hj; [|done]. injection Hi as <-.
    specialize (IH _ eq_refl). simpl. lia.
Qed.

Lemma Contains_false_Index s sep : Contains s sep = false <-> Index s sep = None.
Proof. unfold Contains. destruct (Index s sep); naive_solver. Qed.

(** *** Decimal numbers round-trip *)

Lemma digit_of_pretty_N_char n :
  (n < 10)%N -> digit_of (pretty_N_char n) = Some (Z.of_N n).
Proof.
  intros Hn. assert (n = 0 ∨ n = 1 ∨ n = 2 ∨ n = 3 ∨ n = 4 ∨ n = 5 ∨ n = 6 ∨ n = 7
    ∨ n = 8 ∨ n = 9)%N as Hcases by lia.
  by destruct_or! Hcases; subst.
Qed.

Lemma digits_value_pretty_N_go x s :
  digits_value 0 (pretty_N_go x s) = digits_value (Z.of_N x) s.
Proof.
  revert s. induction (N.lt_wf_0 x) as [x _ IH]; intros s.
  destruct (decide (0 < x)%N) as [Hx|Hx]; last first.
  { assert (x = 0)%N as -> by lia. by rewrite pretty_N_go_0. }
  rewrite pretty_N_go_step by done.
  rewrite IH by (apply N.div_lt; lia). cbn [digits_value].
  rewrite digit_of_pretty_N_char by (apply N.mod_lt; lia). cbn.
  f_equal. rewrite N2Z.inj_div, N2Z.inj_mod.
  rewrite (Z.div_mod (Z.of_N x) 10) at 3 by lia. cbn. lia.
Qed.

Lemma digits_value_pretty_N (x : N) : digits_value 0 (pretty x) = Some (Z.of_N x).
Proof.
  unfold pretty, pretty_N. case_decide; [by subst|]. apply digits_value_pretty_N_go.
Qed.

Lemma pretty_N_head (x : N) : ∃ c s d, pretty x = String c s ∧ digit_of c = Some d.
Proof.
  pose proof (digits_value_pretty_N x) as Hv.
  destruct (pretty x) as [|c s] eqn:E.
  - exfalso. unfold pretty, pretty_N in E. case_decide; [done|].
    assert (∀ y t, t ≠ "" -> pretty_N_go y t ≠ "") as Hne.
    { intros y. induction (N.lt_wf_0 y) as [y _ IH]; intros t Ht.
      destruct (decide (0 < y)%N) as [Hy|Hy].
      - rewrite pretty_N_go_step by done. apply IH; [apply N.div_lt; lia | done].
      - assert (y = 0)%N as -> by lia. by rewrite pretty_N_go_0. }
    rewrite pretty_N_go_step in E by lia. by eapply Hne in E.
  - cbn in Hv. destruct (digit_of c) eqn:Hd; [|done]. eauto.
Qed.

Lemma Atoi_Itoa z : (MinInt64 <= z <= MaxInt64)%Z -> Atoi (Itoa z) = Some z.
Proof.
  intros Hz. unfold Itoa, Atoi.
  assert (∀ x : N, pretty x <> "" ∧ ∀ c s, pretty x = String c s ->
            c <> "-"%char ∧ c <> "+"%char) as Hhead.
  { intros x. destruct (pretty_N_head x) as (c & s & d & -> & Hd). split; [done|].
    intros c' s' Heq. injection Heq as <- <-. split; intros ->; done. }
  destruct z as [|p|p]; [done| |].
  - change (pretty (Z.pos p)) with (pretty (N.pos p)).
    destruct (Hhead (N.pos p)) as [Hne Hc]. pose proof (digits_value_pretty_N (N.pos p)) as Hv.
    destruct (pretty (N.pos p)) as [|c s]; [done|]. destruct (Hc c s) as [H1 H2]; [done|].
    rewrite (bool_decide_eq_false_2 _ H1), (bool_decide_eq_false_2 _ H2), Hv. cbn.
    by rewrite bool_decide_eq_true_2.
  - change (pretty (Z.neg p)) with (String "-" (pretty (N.pos p))).
    cbn [decide]. rewrite bool_decide_eq_true_2 by done.
    destruct (Hhead (N.pos p)) as [Hne _]. pose proof (digits_value_pretty_N (N.pos p)) as Hv.
    destruct (pretty (N.pos p)) as [|c s]; [done|]. rewrite Hv. cbn.
    by rewrite bool_decide_eq_true_2.
Qed.

(** *** A string without the separator splits into itself *)

Fixpoint sNotIn (c : ascii) (s : string) : Prop :=
  match s with
  | EmptyString => True
  | String d s' => d <> c ∧ sNotIn c s'
  end.

Lemma Index_char_None c s : sNotIn c s -> Index s (String c "") = None.
Proof.
  induction s as [|d s IH]; [done|]. intros [Hd Hs]. cbn.
  destruct (Ascii.ascii_dec c d); [congruence|]. by rewrite IH.
Qed.

Lemma Index_char_app c s t : sNotIn c s -> Index (s +:+ String c t) (String c "") = Some (String.length s).
Proof.
  induction s as [|d s IH].
  - intros _. rewrite sapp_nil_l. cbn. destruct (Ascii.ascii_dec c c) as [_|[]]; [by destruct t|done].
  - intros [Hd Hs]. rewrite sapp_cons. cbn. destruct (Ascii.ascii_dec c d); [congruence|].
    by rewrite IH.
Qed.

Lemma Split_char_pair c s t :
  sNotIn c s -> sNotIn c t -> Split (s +:+ String c t) (String c "") = [s; t].
Proof.
  intros Hs Ht. unfold Split. rewrite slength_app. cbn [String.length].
  rewrite Nat.add_succ_r. cbn [split_fuel]. rewrite Index_char_app by done.
  rewrite stake_app. cbn [String.length]. rewrite sdrop_add, sdrop_app. cbn [sdrop].
  f_equal. destruct (String.length s + String.length t)%nat; [done|].
  cbn [split_fuel]. by rewrite Index_char_None.
Qed.

(** *** A printed integer holds digits and at most a minus sign *)

Lemma pretty_N_sNotIn c (x : N) : digit_of c = None -> sNotIn c (pretty x).
Proof.
  intros Hc. unfold pretty, pretty_N. case_decide; [split; [by intros <-|done]|].
  assert (∀ y s, sNotIn c s -> sNotIn c (pretty_N_go y s)) as Hgo; [|by apply Hgo].
  intros y. induction (N.lt_wf_0 y) as [y _ IH]; intros s Hs.
  destruct (decide (0 < y)%N) as [Hy|Hy].
  - rewrite pretty_N_go_step by done. apply IH; [apply N.div_lt; lia|]. split; [|done].
    intros <-. rewrite digit_of_pretty_N_char in Hc by (apply N.mod_lt; lia). done.
  - assert (y = 0)%N as -> by lia. by rewrite pretty_N_go_0.
Qed.

Lemma Itoa_sNotIn c z : digit_of c = None -> c <> "-"%char -> sNotIn c (Itoa z).
Proof.
  intros Hd Hc. destruct z as [|p|p].
  - exact (pretty_N_sNotIn c 0 Hd).
  - exact (pretty_N_sNotIn c (N.pos p) Hd).
  - split; [congruence|exact (pretty_N_sNotIn c (N.pos p) Hd)].
Qed.

(** *** The last occurrence of a character *)

Lemma LastIndex_char_None c s : sNotIn c s -> LastIndex s (String c "") = None.
Proof.
  induction s as [|d s IH]; [done|]. intros [Hd Hs]. cbn. rewrite IH by done.
  by destruct (Ascii.ascii_dec c d); [congruence|].
Qed.

Lemma LastIndex_char_app c s t :
  sNotIn c t -> LastIndex (s +:+ String c t) (String c "") = Some (String.length s).
Proof.
  intros Ht. induction s as [|d s IH].
  - rewrite sapp_nil_l. cbn. rewrite LastIndex_char_None by done.
    destruct (Ascii.ascii_dec c c) as [_|[]]; [by destruct t|done].
  - rewrite sapp_cons. cbn. by rewrite IH.
Qed.

Lemma sNotIn_app c s t : sNotIn c (s +:+ t) <-> sNotIn c s /\ sNotIn c t.
Proof.
  induction s as [|d s IH]; [rewrite sapp_nil_l; cbn; tauto|]. rewrite sapp_cons. cbn. rewrite IH. tauto.
Qed.

Lemma TrimPrefix_app p s : TrimPrefix (p +:+ s) p = s.
Proof. unfold TrimPrefix, HasPrefix. rewrite prefix_app. apply sdrop_app. Qed.

Lemma HasPrefix_app p s : HasPrefix (p +:+ s) p = true.
Proof. apply prefix_app. Qed.

(** *** Joining and splitting at one character *)

Lemma Join_cons e es sep : es <> [] -> Join (e :: es) sep = e +:+ sep +:+ Join es sep.
Proof. by destruct es. Qed.

Lemma Join_app es es' sep : es <> [] -> es' <> [] -> Join (es ++ es') sep = Join es sep +:+ sep +:+ Join es' sep.
Proof.
  intros Hes Hes'. induction es as [|e es IH]; [done|]. destruct es as [|e2 es].
  - cbn [app]. by rewrite Join_cons.
  - cbn [app]. rewrite (Join_cons e (e2 :: es)), (Join_cons e (e2 :: es ++ es')) by done.
    change (e2 :: es ++ es') with ((e2 :: es) ++ es'). rewrite IH by done. by rewrite !sapp_assoc.
Qed.

Lemma split_fuel_Join c es fuel :
  es <> [] -> Forall (sNotIn c) es -> (String.length (Join es (String c "")) <= fuel)%nat ->
  split_fuel fuel (Join es (String c "")) (String c "") = es.
Proof.
  revert fuel. induction es as [|e es IH]; intros fuel Hne Hes Hf; [done|]. apply list.Forall_cons in Hes as [He Hes].
  destruct es as [|e2 es].
  - destruct fuel as [|fuel]; [done|]. cbn [split_fuel Join]. by rewrite Index_char_None.
  - rewrite Join_cons in * by done. rewrite sapp_cons, sapp_nil_l in *. rewrite slength_app in Hf. cbn [String.length] in Hf.
    destruct fuel as [|fuel]; [lia|]. cbn [split_fuel]. rewrite Index_char_app by done.
    rewrite stake_app, sdrop_add, sdrop_app. cbn [String.length sdrop]. f_equal. apply IH; [done..|lia].
Qed.

Lemma Split_Join c es : es <> [] -> Forall (sNotIn c) es -> Split (Join es (String c "")) (String c "") = es.
Proof. intros. by apply split_fuel_Join. Qed.
