(* ===== verification/GoFloat.v ===== *)
(** * Go's [float32] and [float64]

    IEEE 754 numbers as the [spec_float] of Rocq's library, which implements the
    rounded operations on [binary32] (24 bits, emax 128) and [binary64] (53 bits,
    emax 1024). Comparisons follow Go: any comparison with a NaN is false. *)

From Stdlib Require Import SpecFloat.
From stdpp Require Import base numbers.
From S2P Require Import Prelude.

Local Open Scope Z_scope.

Abbreviation float := spec_float (only parsing).

(** ** Operations *)

Definition f32_of_Z (z : Z) : float := binary_normalize 24 128 z 0 false.
Definition f64_of_Z (z : Z) : float := binary_normalize 53 1024 z 0 false.

Definition f32_add : float -> float -> float := SFadd 24 128.
Definition f32_sub : float -> float -> float := SFsub 24 128.
Definition f32_mul : float -> float -> float := SFmul 24 128.
Definition f32_div : float -> float -> float := SFdiv 24 128.
Definition f64_add : float -> float -> float := SFadd 53 1024.
Definition f64_sub : float -> float -> float := SFsub 53 1024.
Definition f64_mul : float -> float -> float := SFmul 53 1024.
Definition f64_div : float -> float -> float := SFdiv 53 1024.

Definition flt (x y : float) : bool := SFltb x y.
Definition fgt (x y : float) : bool := SFltb y x.
Definition fle (x y : float) : bool := SFleb x y.
Definition fge (x y : float) : bool := SFleb y x.
Definition feq (x y : float) : bool := SFeqb x y.

Definition f_zero : float := S754_zero false.
Definition f_one32 : float := f32_of_Z 1.
Definition f_PosInf : float := S754_infinity false.

(** [math.MaxFloat32]. *)
Definition MaxFloat32 : float := f32_of_Z ((2 ^ 24 - 1) * 2 ^ 104).

(** [float32(x)] for a [float64]. *)
Definition f64_to_f32 (x : float) : float :=
  match x with
  | S754_finite s m e => binary_normalize 24 128 (if s then Zneg m else Zpos m) e s
  | _ => x
  end.

(** [float64(x)] for a [float32]: exact. *)
Definition f32_to_f64 (x : float) : float :=
  match x with
  | S754_finite s m e => binary_normalize 53 1024 (if s then Zneg m else Zpos m) e s
  | _ => x
  end.

(** The integer part of a finite number, truncated towards zero. *)
Definition ftrunc (x : float) : option Z :=
  match x with
  | S754_zero _ => Some 0
  | S754_finite s m e =>
      let a := if decide (0 <= e) then Zpos m * 2 ^ e else Zpos m / 2 ^ (- e) in
      Some (if s then - a else a)
  | _ => None
  end.

(** ** The order

    [fkey] maps the numbers that are not NaN to triples compared lexicographically. *)

Definition is_nan (x : float) : bool := match x with S754_nan => true | _ => false end.

Definition fkey (x : float) : Z * Z * Z :=
  match x with
  | S754_infinity true => (-2, 0, 0)
  | S754_finite true m e => (-1, - e, - Zpos m)
  | S754_zero _ => (0, 0, 0)
  | S754_finite false m e => (1, e, Zpos m)
  | S754_infinity false => (2, 0, 0)
  | S754_nan => (0, 0, 0)
  end.

Definition lt3 (a b : Z * Z * Z) : Prop :=
  let '(a1, a2, a3) := a in let '(b1, b2, b3) := b in
  a1 < b1 \/ a1 = b1 /\ (a2 < b2 \/ a2 = b2 /\ a3 < b3).

Lemma lt3_trans a b c : lt3 a b -> lt3 b c -> lt3 a c.
Proof. destruct a as [[??]?], b as [[??]?], c as [[??]?]. unfold lt3. lia. Qed.

Lemma lt3_irrefl a : ~ lt3 a a.
Proof. destruct a as [[??]?]. unfold lt3. lia. Qed.

Lemma lt3_total a b : lt3 a b \/ a = b \/ lt3 b a.
Proof. destruct a as [[a1 a2] a3], b as [[b1 b2] b3]. unfold lt3.
  destruct (Z.lt_total a1 b1) as [|[->|]]; [lia| |lia].
  destruct (Z.lt_total a2 b2) as [|[->|]]; [lia| |lia].
  destruct (Z.lt_total a3 b3) as [|[->|]]; [lia| |lia]. auto.
Qed.

Lemma SFcompare_key x y :
  is_nan x = false -> is_nan y = false ->
  exists c, SFcompare x y = Some c /\
    match c with Lt => lt3 (fkey x) (fkey y) | Eq => fkey x = fkey y | Gt => lt3 (fkey y) (fkey x) end.
Proof.
  destruct x as [sx|sx| |sx mx ex], y as [sy|sy| |sy my ey]; try done; intros _ _;
    try destruct sx; try destruct sy; cbn; try (eexists; split; [reflexivity|]; cbn; lia || done).
  - change (Pos.compare_cont Eq mx my) with (Pos.compare mx my).
    destruct (Z.compare_spec ex ey) as [->|H|H]; cbn [CompOpp];
      [destruct (Pos.compare_spec mx my) as [->|H|H]|..]; eexists; (split; [reflexivity|]); cbn; try done; lia.
  - change (Pos.compare_cont Eq mx my) with (Pos.compare mx my).
    destruct (Z.compare_spec ex ey) as [->|H|H]; cbn [CompOpp];
      [destruct (Pos.compare_spec mx my) as [->|H|H]|..]; eexists; (split; [reflexivity|]); cbn; try done; lia.
Qed.

Lemma flt_key x y : is_nan x = false -> is_nan y = false -> flt x y = true <-> lt3 (fkey x) (fkey y).
Proof.
  intros Hx Hy. unfold flt, SFltb. destruct (SFcompare_key x y Hx Hy) as (c & -> & Hc).
  destruct c; split; intros H; try done.
  - rewrite Hc in H. by apply lt3_irrefl in H.
  - destruct (lt3_irrefl (fkey x)). by eapply lt3_trans.
Qed.

Lemma fle_key x y : is_nan x = false -> is_nan y = false -> fle x y = true <-> ~ lt3 (fkey y) (fkey x).
Proof.
  intros Hx Hy. unfold fle, SFleb. destruct (SFcompare_key x y Hx Hy) as (c & -> & Hc).
  destruct c; split; intros H; try done.
  - rewrite Hc. apply lt3_irrefl.
  - intros H'. destruct (lt3_irrefl (fkey x)). by eapply lt3_trans.
Qed.

Lemma feq_key x y : is_nan x = false -> is_nan y = false -> feq x y = true <-> fkey x = fkey y.
Proof.
  intros Hx Hy. unfold feq, SFeqb. destruct (SFcompare_key x y Hx Hy) as (c & -> & Hc).
  destruct c; split; intros H; try done; rewrite H in Hc; by apply lt3_irrefl in Hc.
Qed.

Lemma flt_nan_l y : flt S754_nan y = false.
Proof. by destruct y. Qed.
Lemma flt_nan_r x : flt x S754_nan = false.
Proof. by destruct x as [[]|[]| |[]]. Qed.

Lemma flt_irrefl x : flt x x = false.
Proof.
  destruct (is_nan x) eqn:Hx; [by destruct x|]. apply not_true_iff_false.
  rewrite flt_key by done. apply lt3_irrefl.
Qed.

Lemma flt_nan x y : flt x y = true -> is_nan x = false /\ is_nan y = false.
Proof. destruct x as [[]|[]| |[]], y as [[]|[]| |[]]; done. Qed.

Lemma flt_trans x y z : flt x y = true -> flt y z = true -> flt x z = true.
Proof.
  intros H1 H2. destruct (flt_nan _ _ H1) as [Hx Hy], (flt_nan _ _ H2) as [_ Hz].
  rewrite flt_key in * by done. by eapply lt3_trans.
Qed.

Lemma flt_asym x y : flt x y = true -> flt y x = false.
Proof.
  intros H. apply not_true_iff_false. intros H'.
  pose proof (flt_trans _ _ _ H H') as E. by rewrite flt_irrefl in E.
Qed.

(** Off NaN, [<=] is the negation of [>]. *)
Lemma fle_flt x y : is_nan x = false -> is_nan y = false -> fle x y = negb (flt y x).
Proof.
  intros Hx Hy. destruct (flt y x) eqn:E; cbn.
  - apply not_true_iff_false. rewrite fle_key by done. intros H. apply H. by apply flt_key.
  - apply fle_key; [done..|]. intros H. apply (flt_key y x) in H; [|done..]. congruence.
Qed.

Lemma flt_false_trans x y z :
  is_nan y = false -> is_nan x = false -> is_nan z = false ->
  flt y x = false -> flt z y = false -> flt z x = false.
Proof.
  intros Hy Hx Hz. rewrite <- !not_true_iff_false, !flt_key by done.
  intros H1 H2 H3. destruct (lt3_total (fkey y) (fkey x)) as [|[E|]]; [done|congruence|].
  apply H2. by eapply lt3_trans.
Qed.
