(* ===== verification/GoHeap.v ===== *)
(** * container/heap

    The binary heap of the Go standard library on a slice, with its [Push] and [Pop],
    over any order. [up] and [down] are the library's loops; a child index is always
    larger than its parent's, so the length of the slice bounds their iterations. *)

From stdpp Require Import base list numbers.
From S2P Require Import Prelude.

Section heap.
Context {A : Type} (less : A -> A -> bool).

(** ** Definitions *)

Definition parent (j : nat) : nat := (j - 1) / 2.

(** [h.Swap(i, j)] *)
Definition swap (i j : nat) (h : list A) : list A :=
  match h !! i, h !! j with Some x, Some y => <[i := y]> (<[j := x]> h) | _, _ => h end.

(** [h.Less(i, j)] *)
Definition less_at (h : list A) (i j : nat) : bool :=
  match h !! i, h !! j with Some x, Some y => less x y | _, _ => false end.

Fixpoint up (fuel : nat) (h : list A) (j : nat) : list A :=
  match fuel with
  | O => h
  | S fuel =>
      let i := parent j in
      if bool_decide (i = j) || negb (less_at h j i) then h else up fuel (swap i j h) i
  end.

Definition smaller_child (h : list A) (i n : nat) : nat :=
  let j1 := 2 * i + 1 in
  let j2 := j1 + 1 in
  if bool_decide (j2 < n) && less_at h j2 j1 then j2 else j1.

Fixpoint down (fuel : nat) (h : list A) (i n : nat) : list A :=
  match fuel with
  | O => h
  | S fuel =>
      if bool_decide (n <= 2 * i + 1) then h
      else
        let j := smaller_child h i n in
        if negb (less_at h j i) then h else down fuel (swap i j h) j n
  end.

Definition heap_Push (x : A) (h : list A) : list A := up (S (length h)) (h ++ [x]) (length h).

(** [None]: the slice is empty, an index is out of range. *)
Definition heap_Pop (h : list A) : option (A * list A) :=
  let n := length h - 1 in
  let h := down (S n) (swap 0 n h) 0 n in
  x ← list.last h; Some (x, take n h).

(** ** Exchanging two cells *)

Lemma swap_length i j h : length (swap i j h) = length h.
Proof. unfold swap. destruct (h !! i); [|done]. destruct (h !! j); [|done]. by rewrite !length_insert. Qed.

Lemma swap_perm i j h : swap i j h ≡ₚ h.
Proof.
  unfold swap. destruct (h !! i) as [x|] eqn:Hi; [|done]. destruct (h !! j) as [y|] eqn:Hj; [|done]. destruct (decide (i = j)) as [->|Hne].
  - rewrite list_insert_insert_eq. assert (x = y) as -> by congruence. by rewrite list_insert_id.
  - by apply Permutation_insert_swap.
Qed.

Lemma swap_ne i j k h : k <> i -> k <> j -> swap i j h !! k = h !! k.
Proof. intros Hi Hj. unfold swap. destruct (h !! i); [|done]. destruct (h !! j); [|done]. by rewrite !list_lookup_insert_ne. Qed.

Lemma swap_l i j h : i < length h -> j < length h -> swap i j h !! i = h !! j.
Proof.
  intros Hi Hj. unfold swap. destruct (lookup_lt_is_Some_2 h i Hi) as [x Hx]. destruct (lookup_lt_is_Some_2 h j Hj) as [y Hy].
  rewrite Hx, Hy. apply list_lookup_insert_eq. by rewrite length_insert.
Qed.

Lemma swap_r i j h : i < length h -> j < length h -> swap i j h !! j = h !! i.
Proof.
  intros Hi Hj. destruct (decide (i = j)) as [->|Hne]; [by apply swap_l|]. unfold swap.
  destruct (lookup_lt_is_Some_2 h i Hi) as [x Hx]. destruct (lookup_lt_is_Some_2 h j Hj) as [y Hy].
  rewrite Hx, Hy, list_lookup_insert_ne by done. by rewrite list_lookup_insert_eq.
Qed.

Lemma parent_lt j : 0 < j -> parent j < j.
Proof. intros Hj. unfold parent. apply Nat.Div0.div_lt_upper_bound. lia. Qed.

Lemma child_of k i : 0 < k -> parent k = i <-> k = 2 * i + 1 \/ k = 2 * i + 2.
Proof.
  intros Hk. unfold parent. pose proof (Nat.div_mod_eq (k - 1) 2) as E. pose proof (Nat.mod_upper_bound (k - 1) 2 ltac:(done)). lia.
Qed.

(** ** Order *)

Hypothesis less_asym : forall x y, less x y = true -> less y x = false.
Hypothesis less_neg_trans : forall x y z, less y x = false -> less z y = false -> less z x = false.

Definition le (x y : A) : Prop := less y x = false.

(** The cell [i] is not above the cell [j]. *)
Definition below (h : list A) (i j : nat) : Prop := forall x y, h !! i = Some x -> h !! j = Some y -> le x y.

(** The first [n] cells are in heap order. *)
Definition ordered (n : nat) (h : list A) : Prop := forall k, 0 < k < n -> below h (parent k) k.

Lemma below_trans h i j k : j < length h -> below h i j -> below h j k -> below h i k.
Proof.
  intros Hj H1 H2 x z Hx Hz. destruct (lookup_lt_is_Some_2 h j Hj) as [y Hy]. by apply (less_neg_trans x y z); [apply H1|apply H2].
Qed.

Lemma less_at_true h i j : less_at h i j = true -> below h i j /\ i < length h /\ j < length h.
Proof.
  unfold less_at. destruct (h !! i) as [x|] eqn:Hi; [|done]. destruct (h !! j) as [y|] eqn:Hj; [|done]. intros H.
  split; [|by split; apply lookup_lt_is_Some; eexists]. intros x' y' ??; simplify_eq. by apply less_asym.
Qed.

Lemma less_at_false h i j : less_at h i j = false -> below h j i.
Proof. unfold less_at. intros H x y Hx Hy. by rewrite Hx, Hy in H. Qed.

Lemma below_same h h' i j : h' !! i = h !! i -> h' !! j = h !! j -> below h i j -> below h' i j.
Proof. unfold below. by intros -> ->. Qed.

(** A cell of [h'] that holds what another cell of [h] holds. *)
Lemma below_moved h h' i i' j j' : h' !! i' = h !! i -> h' !! j' = h !! j -> below h i j -> below h' i' j'.
Proof. unfold below. by intros -> ->. Qed.

(** ** Sifting up *)

Lemma up_perm fuel h j : up fuel h j ≡ₚ h.
Proof.
  revert h j. induction fuel as [|fuel IH]; intros h j; cbn; [done|]. destruct (_ || _); [done|]. by rewrite IH, swap_perm.
Qed.

Record almost_up (h : list A) (n j : nat) : Prop := mkAlmostUp {
  au_others k : 0 < k < n -> k <> j -> below h (parent k) k;
  au_skip k : 0 < k < n -> 0 < j -> parent k = j -> below h (parent j) k
}.

Lemma up_step h n j :
  0 < j < n -> n <= length h -> almost_up h n j -> less_at h j (parent j) = true -> almost_up (swap (parent j) j h) n (parent j).
Proof.
  intros Hj Hn [H1 H2] Hl. pose proof (parent_lt j ltac:(lia)) as Hp. set (i := parent j) in *.
  destruct (less_at_true _ _ _ Hl) as (Hb & _ & _). assert (swap i j h !! i = h !! j) as Si by (apply swap_l; lia).
  assert (swap i j h !! j = h !! i) as Sj by (apply swap_r; lia).
  split.
  - intros k Hk Hki. destruct (decide (k = j)) as [->|Hkj]; [by apply (below_moved h _ j i i j)|].
    assert (swap i j h !! k = h !! k) as Sk by by apply swap_ne. pose proof (H1 k Hk Hkj) as Hbk.
    destruct (decide (parent k = j)) as [E|Nj]; [rewrite E in *; apply (below_moved h _ i j k k); [done..|]; apply H2; (done || lia)|].
    destruct (decide (parent k = i)) as [E|Ni].
    + rewrite E in *. apply (below_moved h _ j i k k); [done..|]. apply (below_trans h j i k); [lia|done|done].
    + apply (below_same h); [by apply swap_ne|done|done].
  - intros k Hk Hi Hki. pose proof (parent_lt i Hi) as Hpi. assert (swap i j h !! parent i = h !! parent i) as Sp by (apply swap_ne; lia).
    pose proof (H1 i ltac:(lia) ltac:(lia)) as Hbi.
    destruct (decide (k = j)) as [->|Hkj]; [by apply (below_moved h _ (parent i) (parent i) i j)|].
    assert (swap i j h !! k = h !! k) as Sk by (apply swap_ne; [apply child_of in Hki; lia|done]).
    apply (below_same h); [done..|]. apply (below_trans h _ i); [lia|done|]. rewrite <- Hki. by apply H1.
Qed.

Lemma up_ordered fuel h n j : j < fuel -> j < n <= length h -> almost_up h n j -> ordered n (up fuel h j).
Proof.
  revert h j. induction fuel as [|fuel IH]; intros h j Hf Hn Ha; [lia|]. cbn [up].
  assert ((0 < j -> below h (parent j) j) -> ordered n h) as Hend.
  { intros Hj k Hk. destruct (decide (k = j)) as [->|Hkj]; [apply Hj; lia|by apply (au_others _ _ _ Ha)]. }
  case_bool_decide as Hij; cbn [orb].
  - apply Hend. intros Hj. pose proof (parent_lt j Hj). lia.
  - destruct (less_at h j (parent j)) eqn:Hl; cbn [negb]; [|apply Hend; intros _; by apply less_at_false].
    assert (0 < j) as Hj by (destruct j; [done|lia]). pose proof (parent_lt j Hj) as Hp.
    apply IH; [lia|rewrite swap_length; lia|]. apply up_step; [lia|lia|done|done].
Qed.

(** ** Sifting down *)

Lemma down_perm fuel h i n : down fuel h i n ≡ₚ h.
Proof.
  revert h i. induction fuel as [|fuel IH]; intros h i; cbn [down]; [done|]. case_bool_decide; [done|].
  destruct (negb _); [done|]. by rewrite IH, swap_perm.
Qed.

Record almost_down (h : list A) (n i : nat) : Prop := mkAlmostDown {
  ad_others k : 0 < k < n -> parent k <> i -> below h (parent k) k;
  ad_skip k : 0 < k < n -> 0 < i -> parent k = i -> below h (parent i) k
}.

Lemma smaller_child_spec h i n :
  2 * i + 1 < n -> let j := smaller_child h i n in
  (j = 2 * i + 1 \/ j = 2 * i + 2) /\ j < n /\ forall k, k < n -> k = 2 * i + 1 \/ k = 2 * i + 2 -> below h j k.
Proof.
  intros Hn j. assert (forall k, below h k k) as Hrefl.
  { intros k x y Hx Hy. assert (y = x) as -> by congruence. unfold le. destruct (less x x) eqn:E; [|done]. by rewrite (less_asym x x E) in E. }
  subst j. unfold smaller_child. case_bool_decide as Hj; cbn [andb].
  - destruct (less_at h (2 * i + 1 + 1) (2 * i + 1)) eqn:Hl.
    + split; [lia|]. split; [lia|]. intros k Hk [-> | ->]; [by destruct (less_at_true _ _ _ Hl)|]. replace (2 * i + 2) with (2 * i + 1 + 1) by lia. apply Hrefl.
    + split; [lia|]. split; [lia|]. intros k Hk [-> | ->]; [apply Hrefl|]. replace (2 * i + 2) with (2 * i + 1 + 1) by lia. by apply less_at_false.
  - split; [lia|]. split; [lia|]. intros k Hk [-> | ->]; [apply Hrefl|lia].
Qed.

Lemma down_step h n i :
  2 * i + 1 < n -> n <= length h -> almost_down h n i -> let j := smaller_child h i n in
  less_at h j i = true -> almost_down (swap i j h) n j.
Proof.
  intros Hi Hn [H1 H2] j Hl. destruct (smaller_child_spec h i n Hi) as (Hj & Hjn & Hmin). fold j in Hj, Hjn, Hmin.
  assert (parent j = i) as Hpj by (apply child_of; lia). destruct (less_at_true _ _ _ Hl) as (Hb & _ & _).
  assert (swap i j h !! i = h !! j) as Si by (apply swap_l; lia). assert (swap i j h !! j = h !! i) as Sj by (apply swap_r; lia).
  split.
  - intros k Hk Hkj. pose proof (parent_lt k ltac:(lia)) as Hpk. destruct (decide (parent k = i)) as [E|Ni].
    + rewrite E in *. destruct (decide (k = j)) as [->|Nk]; [by apply (below_moved h _ j i i j)|].
      apply (below_moved h _ j i k k); [done|apply swap_ne; lia|]. apply Hmin; [lia|]. apply child_of; [lia|done].
    + destruct (decide (k = i)) as [->|Nk].
      * apply (below_moved h _ (parent i) (parent i) j i); [apply swap_ne; lia|done|]. apply H2; (done || lia).
      * destruct (decide (k = j)) as [->|Nk']; [congruence|]. apply (below_same h); [by apply swap_ne|by apply swap_ne|by apply H1].
  - intros k Hk _ Hkj. rewrite Hpj. pose proof (child_of k j ltac:(lia)) as Hc. apply Hc in Hkj as Hk'.
    apply (below_moved h _ j i k k); [done|apply swap_ne; lia|]. rewrite <- Hkj. apply H1; [done|lia].
Qed.

Lemma down_ordered fuel h i n : n - i < fuel -> n <= length h -> almost_down h n i -> ordered n (down fuel h i n).
Proof.
  revert h i. induction fuel as [|fuel IH]; intros h i Hf Hn Ha; [lia|]. cbn [down].
  assert ((forall k, 0 < k < n -> parent k = i -> below h i k) -> ordered n h) as Hend.
  { intros Hc k Hk. destruct (decide (parent k = i)) as [E|E]; [rewrite E; by apply Hc|by apply (ad_others _ _ _ Ha)]. }
  case_bool_decide as Hi; [apply Hend; intros k Hk E; apply child_of in E; lia|].
  destruct (smaller_child_spec h i n ltac:(lia)) as (Hj & Hjn & Hmin). set (j := smaller_child h i n) in *.
  destruct (less_at h j i) eqn:Hl; cbn [negb].
  - apply IH; [lia|by rewrite swap_length|]. apply down_step; [lia|done..].
  - apply Hend. intros k Hk E. apply (below_trans h i j k); [lia|by apply less_at_false|]. apply Hmin; [lia|]. apply child_of; [lia|done].
Qed.

Lemma down_beyond fuel h i n k : n <= k -> down fuel h i n !! k = h !! k.
Proof.
  intros Hk. revert h i. induction fuel as [|fuel IH]; intros h i; cbn [down]; [done|]. case_bool_decide as Hi; [done|].
  destruct (less_at h (smaller_child h i n) i); cbn [negb]; [|done]. rewrite IH. destruct (smaller_child_spec h i n ltac:(lia)) as (? & ? & _).
  apply swap_ne; lia.
Qed.

(** ** The two operations *)

Definition is_heap (h : list A) : Prop := ordered (length h) h.

Theorem Push_heap x h : is_heap h -> is_heap (heap_Push x h) /\ heap_Push x h ≡ₚ x :: h.
Proof.
  intros Hh. assert (heap_Push x h ≡ₚ x :: h) as Hp by (unfold heap_Push; rewrite up_perm; by rewrite Permutation_app_comm). split; [|done].
  unfold is_heap. rewrite (Permutation_length Hp). cbn [length]. unfold heap_Push. assert (length (h ++ [x]) = S (length h)) as Hl by (rewrite length_app; cbn; lia).
  apply up_ordered; [lia|lia|]. split.
  - intros k Hk Nk. pose proof (parent_lt k ltac:(lia)). apply (below_same h); [apply lookup_app_l; lia..|]. apply Hh. lia.
  - intros k Hk _ E. apply child_of in E; lia.
Qed.

Lemma heap_root h x y : is_heap h -> h !! 0 = Some x -> y ∈ h -> le x y.
Proof.
  intros Hh Hx [k Hk]%list_elem_of_lookup. revert y Hk. induction k as [k IH] using lt_wf_ind. intros y Hk.
  destruct (decide (k = 0)) as [->|Nk].
  - assert (y = x) as -> by congruence. unfold le. destruct (less x x) eqn:E; [|done]. by rewrite (less_asym _ _ E) in E.
  - pose proof (parent_lt k ltac:(lia)) as Hp. apply lookup_lt_Some in Hk as Hlt. destruct (lookup_lt_is_Some_2 h (parent k) ltac:(lia)) as [z Hz].
    apply (less_neg_trans x z y); [by apply (IH (parent k))|]. by apply (Hh k ltac:(lia)).
Qed.

Theorem Pop_heap h : is_heap h -> h <> [] -> exists x h', heap_Pop h = Some (x, h') /\ is_heap h' /\ h ≡ₚ x :: h' /\ forall y, y ∈ h -> le x y.
Proof.
  intros Hh Hne. destruct (h !! 0) as [x|] eqn:Hx; [|by destruct h]. unfold heap_Pop. set (n := length h - 1).
  assert (S n = length h) as Hn by (destruct h; [done|cbn in *; lia]). set (h1 := swap 0 n h). set (h2 := down (S n) h1 0 n).
  assert (h2 ≡ₚ h) as Hp by (unfold h2, h1; rewrite down_perm; apply swap_perm). assert (length h2 = S n) as Hl by (rewrite (Permutation_length Hp); lia).
  assert (h2 !! n = Some x) as Hlast by (unfold h2; rewrite down_beyond by done; unfold h1; rewrite swap_r by lia; done).
  assert (h2 = take n h2 ++ [x]) as Hsplit by (rewrite <- (take_S_r _ _ _ Hlast); rewrite take_ge by lia; done).
  exists x, (take n h2). split_and!.
  - rewrite last_lookup, Hl. change (Nat.pred (S n)) with n. by rewrite Hlast.
  - unfold is_heap. rewrite length_take, Hl, Nat.min_l by lia. assert (ordered n h2) as Ho.
    { apply down_ordered; [lia|unfold h1; rewrite swap_length; lia|]. split; [|lia]. intros k Hk Np. pose proof (parent_lt k ltac:(lia)).
      apply (below_same h); [apply swap_ne; lia..|]. apply Hh. lia. }
    intros k Hk. pose proof (parent_lt k ltac:(lia)). apply (below_same h2); [apply lookup_take_lt; lia..|]. by apply Ho.
  - rewrite <- Hp. rewrite Hsplit at 1. by rewrite Permutation_app_comm.
  - intros y Hy. by apply (heap_root h).
Qed.
End heap.
