(* ===== verification/Types.v ===== *)
(** * Shared types of the scheduler and the gateway

    [pkg/consts] (infer types, stages, policy and metric names, the error values)
    and [pkg/types] (endpoints, instances, scheduling requests and results). The
    string types of the source stay strings: values arrive from JSON and from
    Redis, so any string can occur. *)

From Stdlib Require Import Ascii.
From stdpp Require Import base list strings pretty numbers.
From S2P Require Import Prelude GoStrings.

Local Open Scope Z_scope.

(** ** pkg/consts/consts.go *)

Abbreviation InferType := string (only parsing).

Definition InferTypeNeutral : InferType := "neutral".
Definition InferTypePrefill : InferType := "prefill".
Definition InferTypeDecode : InferType := "decode".

Abbreviation SchedulingStage := string (only parsing).
Definition SchedulingStagePrefill : SchedulingStage := "prefill".
Definition SchedulingStageDecode : SchedulingStage := "decode".

Abbreviation SchedulingMode := string (only parsing).
Definition SchedulingModeNeutral : SchedulingMode := "neutral".
Definition SchedulingModePDBatch : SchedulingMode := "pd_batch".
Definition SchedulingModePDStaged : SchedulingMode := "pd_staged".

(** ** pkg/consts/error.go: the sentinel errors the modelled code returns *)

Inductive error :=
  | ErrorNoAvailableEndpoint
  | ErrorEndpointNotFound
  | ErrorSchedulerNotReady
  | ErrorMayNetworkBroken
  | ErrorAllEndpointBusy
  | ErrorNoMatchInferType
  | ErrorGatewayNotFound
  | ErrorRequestExits
  | ErrorRequestNotExits
  | ErrorRequestGatewayChanged
  | ErrorCmsNotAvailable
  | ErrorRateLimitExceeded
  | ErrorOther (msg : string).

#[export] Instance error_eq_dec : EqDecision error.
Proof. solve_decision. Defined.

(** A Go [(T, error)] pair of which one half is meaningful. *)
Inductive result (A : Type) :=
  | Ok (a : A)
  | Err (e : error).
Arguments Ok {A} a.
Arguments Err {A} e.

#[export] Instance result_bind : MBind result := fun A B f r =>
  match r with Ok a => f a | Err e => Err e end.
#[export] Instance result_ret : MRet result := fun A a => Ok a.

(** ** pkg/types/endpoint.go *)

Record Endpoint := mkEndpoint { Host : string; Port : Z }.

#[export] Instance Endpoint_eq_dec : EqDecision Endpoint.
Proof. solve_decision. Defined.

(** [NewEndpoint]. The endpoint that Go returns beside a non-nil error is read by no
    caller and is left out. *)
Definition NewEndpoint (str : string) : result Endpoint :=
  match Split str ":" with
  | [host; port] =>
      match Atoi port with
      | Some p => Ok (mkEndpoint host p)
      | None => Err (ErrorOther "invalid port")
      end
  | _ => Err (ErrorOther "invalid endpoint format")
  end.

Definition Endpoint_String (ep : Endpoint) : string := Host ep +:+ ":" +:+ Itoa (Port ep).

(** ** pkg/types/llm_instance.go *)

Record LLMInstance := mkLLMInstance {
  Version : Z;
  ID : string;
  Model : string;
  InstInferType : InferType;
  InstEndpoint : Endpoint;
  AuxIp : string;
  AuxPort : Z;
  DPRank : Z;
  DPSize : Z
}.

#[export] Instance LLMInstance_eq_dec : EqDecision LLMInstance.
Proof. solve_decision. Defined.

Definition LLMInstance_String (w : LLMInstance) : string :=
  let prefix :=
    if bool_decide (Model w <> "") && bool_decide (InstInferType w <> "")
    then [Model w +:+ "|" +:+ InstInferType w]
    else if bool_decide (Model w <> "") then [Model w]
    else if bool_decide (InstInferType w <> "") then [InstInferType w]
    else [] in
  let endpointStr := Endpoint_String (InstEndpoint w) in
  let parts :=
    prefix
    ++ (if bool_decide (endpointStr <> "") then [endpointStr] else [])
    ++ (if bool_decide (AuxIp w <> "") then [AuxIp w] else [])
    ++ (if bool_decide (AuxPort w > 0) then [Itoa (AuxPort w)] else [])
    ++ (if bool_decide (DPSize w > 0) then [Itoa (DPRank w) +:+ "/" +:+ Itoa (DPSize w)] else []) in
  let result := Join parts "-" in
  if bool_decide (result = "") && bool_decide (endpointStr <> "") then endpointStr else result.

(** [Id] caches the string representation in the receiver on first use. *)
Definition with_ID (w : LLMInstance) (id : string) : LLMInstance :=
  mkLLMInstance (Version w) id (Model w) (InstInferType w) (InstEndpoint w)
    (AuxIp w) (AuxPort w) (DPRank w) (DPSize w).

Definition LLMInstance_Id (w : LLMInstance) : string * LLMInstance :=
  if bool_decide (ID w = "")
  then let w' := with_ID w (LLMInstance_String w) in (ID w', w')
  else (ID w, w).

(** ** pkg/types/scheduling_request.go *)

Abbreviation SchedulingResult := (list LLMInstance) (only parsing).

Definition GetInstanceByInferType (sr : SchedulingResult) (inferType : InferType) : option LLMInstance :=
  List.find (fun instance => bool_decide (InstInferType instance = inferType)) sr.

Record SchedulingRequest := mkSchedulingRequest {
  sr_Id : string;
  sr_Model : string;
  sr_GatewayId : string;
  sr_SchedulingMode : SchedulingMode;
  sr_SchedulingStage : SchedulingStage;
  sr_PromptNumTokens : Z;
  sr_PromptTokenIds : list Z;
  sr_SchedulingResult : SchedulingResult
}.

(** ** Lemmas *)

Lemma Id_stable w : LLMInstance_Id (LLMInstance_Id w).2 = LLMInstance_Id w.
Proof.
  unfold LLMInstance_Id at 2. case_bool_decide as Hid; cbn [snd].
  - unfold LLMInstance_Id. rewrite (bool_decide_eq_true_2 (ID w = "")) by done.
    cbn [ID with_ID]. case_bool_decide as Hs; [|done].
    assert (LLMInstance_String (with_ID w (LLMInstance_String w)) = LLMInstance_String w) as -> by done.
    done.
  - done.
Qed.

(** Parsing the printed form of an endpoint gives it back, for every host that
    holds no colon and every port of a 64-bit [int]. *)
Theorem NewEndpoint_String ep :
  sNotIn ":"%char (Host ep) -> MinInt64 <= Port ep <= MaxInt64 ->
  NewEndpoint (Endpoint_String ep) = Ok ep.
Proof.
  intros Hh Hp. unfold NewEndpoint, Endpoint_String.
  change (":" +:+ Itoa (Port ep)) with (String ":" (Itoa (Port ep))).
  rewrite Split_char_pair by (done || (apply Itoa_sNotIn; done)).
  rewrite Atoi_Itoa by done. by destruct ep.
Qed.

Lemma NewEndpoint_String_witness :
  NewEndpoint (Endpoint_String (mkEndpoint "10.0.0.7" 8080)) = Ok (mkEndpoint "10.0.0.7" 8080).
Proof. apply NewEndpoint_String; vm_compute; intuition congruence. Defined.
