(* ===== verification/Lrs.v ===== *)
(** * The local realtime state of the scheduler

    [pkg/lrs/local_realtime_state.go] and [pkg/lrs/lrs_client.go]. The scheduler
    records which request occupies how many tokens on which instance, and which
    gateway owns the request.

    A [RequestState] is shared by pointer between the request table and the view of
    its instance, and [UpdateRequestState] writes through the view: the model keeps
    the pointed-to records in a heap and stores locations in both tables.

    [Spec] is the abstract store (one map from request ids to states); [lrs_refines]
    proves that the three linked tables implement it. *)

From stdpp Require Import base gmap sets list strings numbers.
From S2P Require Import Prelude GoStrings Types.

Local Open Scope Z_scope.

(** ** Data *)

Record RequestState := mkRequestState {
  rs_reqId : string;
  rs_instanceId : string;
  rs_gatewayId : string;
  rs_numTokens : Z;
  rs_prefillCompleted : bool;
  rs_updateTime : Z
}.

#[export] Instance RequestState_eq_dec : EqDecision RequestState.
Proof. solve_decision. Defined.

Definition NewRequestState (now : Z) (reqId : string) (numTokens : Z) (instanceId gatewayId : string) : RequestState :=
  mkRequestState reqId instanceId gatewayId numTokens false now.

Definition set_prefillCompleted (st : RequestState) : RequestState :=
  mkRequestState (rs_reqId st) (rs_instanceId st) (rs_gatewayId st) (rs_numTokens st) true (rs_updateTime st).

Definition set_tokens (n t : Z) (st : RequestState) : RequestState :=
  mkRequestState (rs_reqId st) (rs_instanceId st) (rs_gatewayId st) n (rs_prefillCompleted st) t.

(** The memory holding the request states. *)
Abbreviation loc := positive (only parsing).
Abbreviation rheap := (gmap positive RequestState) (only parsing).

Definition zero_RequestState : RequestState := mkRequestState "" "" "" 0 false 0.

Definition deref (h : rheap) (l : loc) : RequestState := default zero_RequestState (h !! l).

Record InstanceView := mkInstanceView {
  iv_instance : LLMInstance;
  iv_version : Z;
  iv_numTokens : Z;
  iv_requestStates : gmap string loc
}.

(** ** Operations on an instance view *)

Definition NewInstanceView (instance : LLMInstance) : InstanceView :=
  mkInstanceView instance (Version instance) 0 ∅.

Definition GetInstanceId (iv : InstanceView) : string := (LLMInstance_Id (iv_instance iv)).1.
Definition GetInferType (iv : InstanceView) : InferType := InstInferType (iv_instance iv).
Definition GetModel (iv : InstanceView) : string := Model (iv_instance iv).
Definition NumTokens (iv : InstanceView) : Z := iv_numTokens iv.
Definition NumRequests (iv : InstanceView) : Z := int64 (Z.of_nat (size (iv_requestStates iv))).

Definition NumWaitingRequests (h : rheap) (iv : InstanceView) : Z :=
  map_fold (fun _ l cnt => if negb (rs_prefillCompleted (deref h l)) then int64 (cnt + 1) else cnt)
    0 (iv_requestStates iv).

Definition NumWaitingTokens (h : rheap) (iv : InstanceView) : Z :=
  map_fold (fun _ l cnt => if negb (rs_prefillCompleted (deref h l))
                           then int64 (cnt + rs_numTokens (deref h l)) else cnt)
    0 (iv_requestStates iv).

Definition GetRequestIds (order : key_order) (iv : InstanceView) : list string :=
  order (dom (iv_requestStates iv)).

Definition iv_AllocateRequestState (h : rheap) (l : loc) (iv : InstanceView) : InstanceView :=
  mkInstanceView (iv_instance iv) (iv_version iv)
    (int64 (iv_numTokens iv + rs_numTokens (deref h l)))
    (<[rs_reqId (deref h l) := l]> (iv_requestStates iv)).

Definition iv_MarkPrefillComplete (h : rheap) (reqState : RequestState) (iv : InstanceView) : rheap :=
  match iv_requestStates iv !! rs_reqId reqState with
  | None => h
  | Some l => <[l := set_prefillCompleted (deref h l)]> h
  end.

Definition iv_UpdateRequestState (h : rheap) (reqState : RequestState) (iv : InstanceView)
    : rheap * InstanceView * option error :=
  match iv_requestStates iv !! rs_reqId reqState with
  | None => (h, iv, Some ErrorRequestNotExits)
  | Some l =>
      let inner := deref h l in
      if bool_decide (rs_gatewayId reqState <> rs_gatewayId inner)
      then (h, iv, Some ErrorRequestGatewayChanged)
      else
        let addedNum := int64 (rs_numTokens reqState - rs_numTokens inner) in
        if bool_decide (addedNum >= 0)
        then (<[l := set_tokens (rs_numTokens reqState) (rs_updateTime reqState) inner]> h,
              mkInstanceView (iv_instance iv) (iv_version iv)
                (int64 (iv_numTokens iv + addedNum)) (iv_requestStates iv),
              None)
        else (h, iv, None)
  end.

Definition iv_ReleaseRequestState (h : rheap) (reqId : string) (iv : InstanceView) : InstanceView :=
  match iv_requestStates iv !! reqId with
  | None => iv
  | Some l =>
      let numTokens :=
        if bool_decide (iv_numTokens iv < rs_numTokens (deref h l)) then 0
        else int64 (iv_numTokens iv - rs_numTokens (deref h l)) in
      mkInstanceView (iv_instance iv) (iv_version iv) numTokens (delete reqId (iv_requestStates iv))
  end.

Definition ClearStates (iv : InstanceView) : InstanceView :=
  mkInstanceView (iv_instance iv) (iv_version iv) 0 ∅.

(** ** The store *)

Record LocalRealtimeState := mkLrs {
  heap : rheap;
  requestStates : gmap string loc;
  instanceViews : gmap string InstanceView;
  gatewayRequestSet : gmap string (gset string)
}.

Definition NewLocalRealtimeState : LocalRealtimeState := mkLrs ∅ ∅ ∅ ∅.

Definition GetInstanceViewsByModel (model : string) (lrs : LocalRealtimeState) : gmap string InstanceView :=
  map_fold (fun _ iv results =>
    if bool_decide (GetModel iv = model) || bool_decide (GetModel iv = "")
    then <[GetInstanceId iv := iv]> results else results) ∅ (instanceViews lrs).

Definition GetInstanceView (instanceId : string) (lrs : LocalRealtimeState) : option InstanceView :=
  instanceViews lrs !! instanceId.

Definition requestExists (reqId : string) (lrs : LocalRealtimeState) : bool :=
  bool_decide (is_Some (requestStates lrs !! reqId)).
Definition instanceExists (instanceId : string) (lrs : LocalRealtimeState) : bool :=
  bool_decide (is_Some (instanceViews lrs !! instanceId)).
Definition gatewayExists (gatewayId : string) (lrs : LocalRealtimeState) : bool :=
  bool_decide (is_Some (gatewayRequestSet lrs !! gatewayId)).

(** The body of the loop of [removeInstance]: drop one request from every gateway's
    set and from the request table. *)
Definition forget_request (lrs : LocalRealtimeState) (reqId : string) : LocalRealtimeState :=
  mkLrs (heap lrs) (delete reqId (requestStates lrs)) (instanceViews lrs)
    ((fun requestSet => requestSet ∖ {[reqId]}) <$> gatewayRequestSet lrs).

Definition removeInstance (order : key_order) (instanceId : string) (lrs : LocalRealtimeState) : LocalRealtimeState :=
  match instanceViews lrs !! instanceId with
  | None => lrs
  | Some iv =>
      let lrs := fold_left forget_request (GetRequestIds order iv) lrs in
      let lrs := mkLrs (heap lrs) (requestStates lrs)
                   (<[instanceId := ClearStates iv]> (instanceViews lrs)) (gatewayRequestSet lrs) in
      mkLrs (heap lrs) (requestStates lrs) (delete instanceId (instanceViews lrs)) (gatewayRequestSet lrs)
  end.

Definition put_view (id : string) (iv : InstanceView) (lrs : LocalRealtimeState) : LocalRealtimeState :=
  mkLrs (heap lrs) (requestStates lrs) (<[id := iv]> (instanceViews lrs)) (gatewayRequestSet lrs).

Definition AddInstance (order : key_order) (instance : LLMInstance) (lrs : LocalRealtimeState) : LocalRealtimeState :=
  let '(id, instance) := LLMInstance_Id instance in
  match instanceViews lrs !! id with
  | Some oldInstance =>
      if bool_decide (Version instance > iv_version oldInstance)
      then put_view id (NewInstanceView instance) (removeInstance order id lrs)
      else lrs
  | None => put_view id (NewInstanceView instance) lrs
  end.

Definition RemoveInstance (order : key_order) (instanceId : string) (lrs : LocalRealtimeState) : LocalRealtimeState :=
  removeInstance order instanceId lrs.

Definition AddGateway (gatewayId : string) (lrs : LocalRealtimeState) : LocalRealtimeState :=
  match gatewayRequestSet lrs !! gatewayId with
  | Some _ => lrs
  | None => mkLrs (heap lrs) (requestStates lrs) (instanceViews lrs)
              (<[gatewayId := ∅]> (gatewayRequestSet lrs))
  end.

(** The body of the loop of [RemoveGateway]. *)
Definition reclaim_request (lrs : LocalRealtimeState) (reqId : string) : LocalRealtimeState :=
  match requestStates lrs !! reqId with
  | None => lrs
  | Some l =>
      let req := deref (heap lrs) l in
      let views :=
        match instanceViews lrs !! rs_instanceId req with
        | None => instanceViews lrs
        | Some iv => <[rs_instanceId req := iv_ReleaseRequestState (heap lrs) reqId iv]> (instanceViews lrs)
        end in
      mkLrs (heap lrs) (delete reqId (requestStates lrs)) views (gatewayRequestSet lrs)
  end.

Definition RemoveGateway (order : key_order) (gatewayId : string) (lrs : LocalRealtimeState) : LocalRealtimeState :=
  match gatewayRequestSet lrs !! gatewayId with
  | None => lrs
  | Some requestSet =>
      let lrs := fold_left reclaim_request (order requestSet) lrs in
      mkLrs (heap lrs) (requestStates lrs) (instanceViews lrs) (delete gatewayId (gatewayRequestSet lrs))
  end.

(** [AllocateRequestState] receives a pointer to a record its caller has just built
    with [NewRequestState]; the model allocates it here. *)
Definition AllocateRequestState (reqState : RequestState) (lrs : LocalRealtimeState)
    : LocalRealtimeState * option error :=
  if requestExists (rs_reqId reqState) lrs then (lrs, Some ErrorRequestExits)
  else if bool_decide (size (instanceViews lrs) = 0%nat) then (lrs, Some ErrorEndpointNotFound)
  else if negb (instanceExists (rs_instanceId reqState) lrs) then (lrs, Some ErrorEndpointNotFound)
  else if negb (gatewayExists (rs_gatewayId reqState) lrs) then (lrs, Some ErrorGatewayNotFound)
  else
    let l := fresh (dom (heap lrs)) in
    let h := <[l := reqState]> (heap lrs) in
    (mkLrs h
       (<[rs_reqId reqState := l]> (requestStates lrs))
       (alter (iv_AllocateRequestState h l) (rs_instanceId reqState) (instanceViews lrs))
       (alter (fun set => {[rs_reqId reqState]} ∪ set) (rs_gatewayId reqState) (gatewayRequestSet lrs)),
     None).

Definition UpdateRequestState (reqState : RequestState) (lrs : LocalRealtimeState)
    : LocalRealtimeState * option error :=
  if negb (requestExists (rs_reqId reqState) lrs) then (lrs, Some ErrorRequestNotExits)
  else match instanceViews lrs !! rs_instanceId reqState with
  | None => (lrs, Some ErrorEndpointNotFound)
  | Some iv =>
      if negb (gatewayExists (rs_gatewayId reqState) lrs) then (lrs, Some ErrorGatewayNotFound)
      else
        let '(h, iv', err) := iv_UpdateRequestState (heap lrs) reqState iv in
        (mkLrs h (requestStates lrs) (<[rs_instanceId reqState := iv']> (instanceViews lrs))
           (gatewayRequestSet lrs), err)
  end.

Definition MarkPrefillComplete (reqState : RequestState) (lrs : LocalRealtimeState)
    : LocalRealtimeState * option error :=
  if negb (requestExists (rs_reqId reqState) lrs) then (lrs, Some ErrorRequestNotExits)
  else match instanceViews lrs !! rs_instanceId reqState with
  | None => (lrs, Some ErrorRequestNotExits)
  | Some iv =>
      if negb (gatewayExists (rs_gatewayId reqState) lrs) then (lrs, Some ErrorGatewayNotFound)
      else (mkLrs (iv_MarkPrefillComplete (heap lrs) reqState iv) (requestStates lrs)
              (instanceViews lrs) (gatewayRequestSet lrs), None)
  end.

Definition ReleaseRequestState (reqState : RequestState) (lrs : LocalRealtimeState) : LocalRealtimeState :=
  if negb (requestExists (rs_reqId reqState) lrs) then lrs
  else match instanceViews lrs !! rs_instanceId reqState with
  | None => lrs
  | Some iv =>
      match gatewayRequestSet lrs !! rs_gatewayId reqState with
      | None => lrs
      | Some set =>
          mkLrs (heap lrs) (delete (rs_reqId reqState) (requestStates lrs))
            (<[rs_instanceId reqState := iv_ReleaseRequestState (heap lrs) (rs_reqId reqState) iv]>
               (instanceViews lrs))
            (<[rs_gatewayId reqState := set ∖ {[rs_reqId reqState]}]> (gatewayRequestSet lrs))
      end
  end.

(** ** Lemmas on the heap *)

Definition tokens_at (h : rheap) (l : loc) : Z := rs_numTokens (deref h l).

Lemma deref_insert_eq h l st : deref (<[l := st]> h) l = st.
Proof. unfold deref. by rewrite lookup_insert_eq. Qed.

Lemma deref_insert_ne h l l' st : l <> l' -> deref (<[l := st]> h) l' = deref h l'.
Proof. intros. unfold deref. by rewrite lookup_insert_ne. Qed.

(** A write that keeps the identity fields of the record it overwrites. *)
Definition same_identity (a b : RequestState) : Prop :=
  rs_reqId a = rs_reqId b /\ rs_instanceId a = rs_instanceId b /\ rs_gatewayId a = rs_gatewayId b.

Lemma same_identity_set_tokens n t a : same_identity (set_tokens n t a) a.
Proof. done. Qed.
Lemma same_identity_set_prefill a : same_identity (set_prefillCompleted a) a.
Proof. done. Qed.
#[export] Hint Resolve same_identity_set_tokens same_identity_set_prefill : go.

Lemma deref_write h l st l' :
  same_identity st (deref h l) -> same_identity (deref (<[l := st]> h) l') (deref h l').
Proof.
  intros Hst. destruct (decide (l = l')) as [->|Hne];
    [by rewrite deref_insert_eq | by rewrite deref_insert_ne].
Qed.

(** ** The invariant

    The three tables agree: the view of an instance holds exactly the requests
    allocated to it, under the same pointer as the request table; the set of a
    gateway holds exactly the requests it owns; the token counter of a view is the
    sum over its requests.

    [wf_except P] allows the sets of the gateways in [P] to hold stale ids, which is
    the state between the steps of a release. *)

Record wf_except (P : string -> Prop) (s : LocalRealtimeState) : Prop := mk_wf {
  wf_request : forall r l, requestStates s !! r = Some l ->
    is_Some (heap s !! l) /\ rs_reqId (deref (heap s) l) = r /\ 0 <= tokens_at (heap s) l /\
    is_Some (instanceViews s !! rs_instanceId (deref (heap s) l)) /\
    is_Some (gatewayRequestSet s !! rs_gatewayId (deref (heap s) l));
  wf_view : forall i iv r l, instanceViews s !! i = Some iv ->
    iv_requestStates iv !! r = Some l <->
    requestStates s !! r = Some l /\ rs_instanceId (deref (heap s) l) = i;
  wf_gateway_in : forall g set r l, gatewayRequestSet s !! g = Some set ->
    requestStates s !! r = Some l -> rs_gatewayId (deref (heap s) l) = g -> r ∈ set;
  wf_gateway_only : forall g set r, gatewayRequestSet s !! g = Some set -> ~ P g -> r ∈ set ->
    exists l, requestStates s !! r = Some l /\ rs_gatewayId (deref (heap s) l) = g;
  wf_tokens : forall i iv, instanceViews s !! i = Some iv ->
    iv_numTokens iv = map_sum (tokens_at (heap s)) (iv_requestStates iv) /\ iv_numTokens iv <= MaxInt64;
  wf_id : forall i iv, instanceViews s !! i = Some iv ->
    ID (iv_instance iv) = i /\ i <> "" /\ iv_version iv = Version (iv_instance iv)
}.
Arguments wf_request {P s} _ {r l} _.
Arguments wf_view {P s} _ {i iv r l} _.
Arguments wf_gateway_in {P s} _ {g set r l} _ _ _.
Arguments wf_gateway_only {P s} _ {g set r} _ _ _.
Arguments wf_tokens {P s} _ {i iv} _.
Arguments wf_id {P s} _ {i iv} _.

Definition wf : LocalRealtimeState -> Prop := wf_except (fun _ => False).

Lemma wf_except_mono (P Q : string -> Prop) s : (forall g, P g -> Q g) -> wf_except P s -> wf_except Q s.
Proof. intros HPQ [H1 H2 H3 H4 H5 H6]. split; eauto 10. Qed.

Section wf_facts.
Context {P : string -> Prop} {s : LocalRealtimeState} (W : wf_except P s).

Lemma wf_inj r r' l : requestStates s !! r = Some l -> requestStates s !! r' = Some l -> r = r'.
Proof using P W.
  intros H1 H2. destruct (wf_request W H1) as (_ & <- & _), (wf_request W H2) as (_ & <- & _). done.
Qed.

(** A request is in the view of its own instance. *)
Lemma wf_own_view r l iv : requestStates s !! r = Some l ->
  instanceViews s !! rs_instanceId (deref (heap s) l) = Some iv -> iv_requestStates iv !! r = Some l.
Proof using P W. intros Hr Hi. by apply (wf_view W Hi). Qed.

Lemma wf_view_nonneg i iv r l : instanceViews s !! i = Some iv ->
  iv_requestStates iv !! r = Some l -> 0 <= tokens_at (heap s) l.
Proof using P W. intros Hi Hr. apply (wf_view W Hi) in Hr as [Hr _]. by destruct (wf_request W Hr) as (_ & _ & ? & _). Qed.

Lemma wf_tokens_nonneg i iv : instanceViews s !! i = Some iv -> 0 <= iv_numTokens iv.
Proof using P W.
  intros Hi. destruct (wf_tokens W Hi) as [-> _]. apply map_sum_nonneg. intros. by eapply wf_view_nonneg.
Qed.

Lemma wf_tokens_le i iv r l : instanceViews s !! i = Some iv ->
  iv_requestStates iv !! r = Some l -> tokens_at (heap s) l <= iv_numTokens iv.
Proof using P W.
  intros Hi Hr. destruct (wf_tokens W Hi) as [-> _].
  apply (map_sum_lookup_le _ _ r); [|done]. intros. by eapply wf_view_nonneg.
Qed.

End wf_facts.

(** The write of [UpdateRequestState] and [MarkPrefillComplete] to one request. *)
Lemma wf_write P s r l st i iv n :
  wf_except P s -> requestStates s !! r = Some l -> i = rs_instanceId (deref (heap s) l) ->
  instanceViews s !! i = Some iv ->
  same_identity st (deref (heap s) l) -> 0 <= rs_numTokens st ->
  n = iv_numTokens iv - tokens_at (heap s) l + rs_numTokens st -> n <= MaxInt64 ->
  wf_except P (mkLrs (<[l := st]> (heap s)) (requestStates s)
    (<[i := mkInstanceView (iv_instance iv) (iv_version iv) n (iv_requestStates iv)]> (instanceViews s))
    (gatewayRequestSet s)).
Proof.
  intros W Hr Hi Hiv Hid Hst Hn Hmax.
  assert (forall l', same_identity (deref (<[l := st]> (heap s)) l') (deref (heap s) l')) as Hsame
    by (intros; by apply deref_write).
  assert (forall r' l', requestStates s !! r' = Some l' -> r' <> r -> l' <> l) as Hne.
  { intros r' l' Hr' Hrr ->. by apply Hrr, (wf_inj W r' r l). }
  split; cbn.
  - intros r' l' Hr'. destruct (wf_request W Hr') as (H1 & H2 & H3 & H4 & H5).
    destruct (Hsame l') as (E1 & E2 & E3). rewrite E1, E2, E3. split_and!; [|done| |  |done].
    + apply lookup_insert_is_Some'. auto.
    + unfold tokens_at. destruct (decide (l = l')) as [->|];
        [by rewrite deref_insert_eq | by rewrite deref_insert_ne].
    + apply lookup_insert_is_Some'. auto.
  - intros j jv r' l' [[<- <-]|[Hj Hjv]]%lookup_insert_Some; cbn;
      destruct (Hsame l') as (_ & -> & _); by apply (wf_view W).
  - intros g set r' l' Hg Hr'. destruct (Hsame l') as (_ & _ & ->). by apply (wf_gateway_in W).
  - intros g set r' Hg HP Hin. destruct (wf_gateway_only W Hg HP Hin) as (l' & Hl' & Hgw).
    exists l'. split; [done|]. by destruct (Hsame l') as (_ & _ & ->).
  - intros j jv [[<- <-]|[Hj Hjv]]%lookup_insert_Some; cbn.
    + split; [|done]. assert (iv_requestStates iv !! r = Some l) as Hin by (subst i; by apply (wf_own_view W)).
      rewrite (map_sum_change (tokens_at (heap s)) _ _ r l Hin).
      * destruct (wf_tokens W Hiv) as [<- _]. unfold tokens_at at 2. by rewrite deref_insert_eq.
      * intros r' l' Hrr Hl'. unfold tokens_at. rewrite deref_insert_ne; [done|].
        apply (wf_view W Hiv) in Hl' as [Hl' _]. apply not_eq_sym. by eapply Hne.
    + destruct (wf_tokens W Hjv) as [-> Hle]. split; [|lia]. apply map_sum_ext.
      intros r' l' Hl'. unfold tokens_at. rewrite deref_insert_ne; [done|]. intros <-.
      apply (wf_view W Hjv) in Hl' as [_ Hl']. congruence.
  - intros j jv [[<- <-]|[Hj Hjv]]%lookup_insert_Some; cbn; eauto using wf_id.
Qed.

(** ** Every operation preserves the invariant *)

Lemma wf_empty : wf NewLocalRealtimeState.
Proof. split; cbn; intros *; by rewrite ?lookup_empty. Qed.

(** [n] more tokens on instance [i] do not overflow its counter. *)
Definition tokens_fit (s : LocalRealtimeState) (i : string) (n : Z) : Prop :=
  0 <= n /\ forall iv, instanceViews s !! i = Some iv -> iv_numTokens iv + n <= MaxInt64.

Lemma int64_nonneg z : 0 <= z <= MaxInt64 -> int64 z = z.
Proof. intros. apply int64_small. unfold MinInt64, MaxInt64 in *. lia. Qed.

Lemma requestExists_spec r s : requestExists r s = true <-> is_Some (requestStates s !! r).
Proof. apply bool_decide_eq_true. Qed.
Lemma instanceExists_spec i s : instanceExists i s = true <-> is_Some (instanceViews s !! i).
Proof. apply bool_decide_eq_true. Qed.
Lemma gatewayExists_spec g s : gatewayExists g s = true <-> is_Some (gatewayRequestSet s !! g).
Proof. apply bool_decide_eq_true. Qed.

(** *** Allocation *)

Section allocate.
Context (s : LocalRealtimeState) (st : RequestState) (l : loc) (iv : InstanceView) (set : gset string).
Context (W : wf s) (Hl : heap s !! l = None) (Hr : requestStates s !! rs_reqId st = None).
Context (Hi : instanceViews s !! rs_instanceId st = Some iv).
Context (Hg : gatewayRequestSet s !! rs_gatewayId st = Some set).
Context (Hn : 0 <= rs_numTokens st) (Hfit : iv_numTokens iv + rs_numTokens st <= MaxInt64).

Let h' := <[l := st]> (heap s).
Let s' := mkLrs h' (<[rs_reqId st := l]> (requestStates s))
  (<[rs_instanceId st := iv_AllocateRequestState h' l iv]> (instanceViews s))
  (<[rs_gatewayId st := {[rs_reqId st]} ∪ set]> (gatewayRequestSet s)).

Lemma alloc_new : deref h' l = st.
Proof using All. apply deref_insert_eq. Qed.

Lemma alloc_old r' l' : requestStates s !! r' = Some l' -> deref h' l' = deref (heap s) l'.
Proof using W Hl.
  intros Hr'. apply deref_insert_ne. intros <-. destruct (wf_request W Hr') as ([? ?] & _). congruence.
Qed.

Lemma alloc_request r' l' : requestStates s' !! r' = Some l' ->
  r' = rs_reqId st /\ l' = l \/ r' <> rs_reqId st /\ requestStates s !! r' = Some l'.
Proof using All. unfold s'; cbn. intros [[<- <-]|[Hne Hr']]%lookup_insert_Some; auto. Qed.

Lemma alloc_in_view r' l' i' : requestStates s !! r' = Some l' ->
  rs_instanceId (deref h' l') = i' <-> rs_instanceId (deref (heap s) l') = i'.
Proof using All. intros Hr'. by rewrite (alloc_old r' l'). Qed.

Lemma alloc_view i' iv' r' l' : instanceViews s' !! i' = Some iv' ->
  iv_requestStates iv' !! r' = Some l' <->
  requestStates s' !! r' = Some l' /\ rs_instanceId (deref h' l') = i'.
Proof using All.
  unfold s'; cbn. intros [[<- <-]|[Hne Hi']]%lookup_insert_Some; cbn; unfold iv_AllocateRequestState; rewrite ?alloc_new;
    destruct (decide (rs_reqId st = r')) as [<-|Hrr].
  - rewrite !lookup_insert_eq. split; [intros [= <-]; by rewrite alloc_new|by intros [[= <-] _]].
  - rewrite !lookup_insert_ne, (wf_view W Hi) by done.
    split; intros [H1 H2]; by rewrite (alloc_in_view _ _ _ H1) in *.
  - rewrite lookup_insert_eq, (wf_view W Hi'), Hr. split; [by intros [? _]|].
    intros [[= <-] H2]. by rewrite alloc_new in H2.
  - rewrite lookup_insert_ne, (wf_view W Hi') by done.
    split; intros [H1 H2]; by rewrite (alloc_in_view _ _ _ H1) in *.
Qed.

Lemma alloc_gateway_in g set' r' l' : gatewayRequestSet s' !! g = Some set' ->
  requestStates s' !! r' = Some l' -> rs_gatewayId (deref h' l') = g -> r' ∈ set'.
Proof using All.
  intros Hg' [[-> ->]|[Hne Hr']]%alloc_request; unfold s' in Hg'; cbn in Hg'.
  - rewrite alloc_new. intros <-. rewrite lookup_insert_eq in Hg'. set_solver.
  - rewrite (alloc_old r' l' Hr'). intros Hgw. apply lookup_insert_Some in Hg' as [[<- <-]|[? Hg']].
    + pose proof (wf_gateway_in W Hg Hr'). set_solver.
    + by apply (wf_gateway_in W Hg' Hr').
Qed.

Lemma alloc_gateway_only g set' r' : gatewayRequestSet s' !! g = Some set' -> r' ∈ set' ->
  exists l', requestStates s' !! r' = Some l' /\ rs_gatewayId (deref h' l') = g.
Proof using All.
  unfold s'; cbn. intros Hg' Hmem. destruct (decide (r' = rs_reqId st)) as [->|Hrr].
  - rewrite lookup_insert_eq. exists l. rewrite alloc_new. split; [done|].
    apply lookup_insert_Some in Hg' as [[<- _]|[Hgg Hg']]; [done|].
    destruct (wf_gateway_only W Hg' (fun H => H) Hmem) as (? & ? & _). congruence.
  - rewrite lookup_insert_ne by congruence.
    assert (exists l', requestStates s !! r' = Some l' /\ rs_gatewayId (deref (heap s) l') = g)
      as (l' & H1 & H2); [|exists l'; by rewrite (alloc_old r' l' H1)].
    apply lookup_insert_Some in Hg' as [[<- <-]|[Hgg Hg']].
    + apply (wf_gateway_only W Hg (fun H => H)). apply elem_of_union in Hmem as [H%elem_of_singleton|H]; done.
    + by apply (wf_gateway_only W Hg' (fun H => H)).
Qed.

Lemma alloc_sum i' iv' : instanceViews s !! i' = Some iv' ->
  map_sum (tokens_at h') (iv_requestStates iv') = iv_numTokens iv'.
Proof using All.
  intros Hi'. destruct (wf_tokens W Hi') as [-> _]. apply map_sum_ext.
  intros r' l' Hr'. apply (wf_view W Hi') in Hr' as [Hr' _]. unfold tokens_at. by rewrite (alloc_old r' l').
Qed.

Lemma alloc_tokens i' iv' : instanceViews s' !! i' = Some iv' ->
  iv_numTokens iv' = map_sum (tokens_at h') (iv_requestStates iv') /\ iv_numTokens iv' <= MaxInt64.
Proof using All.
  unfold s'; cbn. intros [[<- <-]|[Hne Hi']]%lookup_insert_Some; cbn.
  - unfold iv_AllocateRequestState; cbn. rewrite alloc_new.
    pose proof (wf_tokens_nonneg W _ _ Hi). rewrite int64_nonneg by lia. split; [|done].
    rewrite map_sum_insert, (alloc_sum _ _ Hi).
    + unfold tokens_at. rewrite alloc_new. lia.
    + destruct (iv_requestStates iv !! rs_reqId st) eqn:E; [|done].
      apply (wf_view W Hi) in E as [? _]. congruence.
  - rewrite (alloc_sum _ _ Hi'). split; [done|]. by destruct (wf_tokens W Hi').
Qed.

Lemma wf_Allocate_tables : wf s'.
Proof using All.
  split; [|apply alloc_view|apply alloc_gateway_in| |apply alloc_tokens|].
  - intros r' l' [[-> ->]|[Hne Hr']]%alloc_request; unfold s', tokens_at; cbn.
    + rewrite alloc_new. unfold h'. rewrite !lookup_insert_eq. split_and!; eauto.
    + rewrite (alloc_old r' l' Hr'). destruct (wf_request W Hr') as (H1 & H2 & H3 & H4 & H5).
      split_and!; try done; apply lookup_insert_is_Some'; auto.
  - intros g set' r' Hg' _. by apply alloc_gateway_only.
  - unfold s'; cbn. intros i' iv' [[<- <-]|[Hne Hi']]%lookup_insert_Some; cbn; eauto using wf_id.
Qed.

End allocate.

Lemma alter_insert_Some {A} (f : A -> A) (m : gmap string A) k v :
  m !! k = Some v -> alter f k m = <[k := f v]> m.
Proof.
  intros Hk. apply map_eq. intros j. rewrite lookup_alter, lookup_insert.
  case_decide; subst; [by rewrite Hk|done].
Qed.

(** The four outcomes of an allocation. *)
Inductive allocate_spec (st : RequestState) (s : LocalRealtimeState) : LocalRealtimeState * option error -> Prop :=
  | alloc_exists : is_Some (requestStates s !! rs_reqId st) -> allocate_spec st s (s, Some ErrorRequestExits)
  | alloc_no_instance : requestStates s !! rs_reqId st = None ->
      instanceViews s !! rs_instanceId st = None -> allocate_spec st s (s, Some ErrorEndpointNotFound)
  | alloc_no_gateway : requestStates s !! rs_reqId st = None ->
      is_Some (instanceViews s !! rs_instanceId st) -> gatewayRequestSet s !! rs_gatewayId st = None ->
      allocate_spec st s (s, Some ErrorGatewayNotFound)
  | alloc_done l iv set : requestStates s !! rs_reqId st = None ->
      instanceViews s !! rs_instanceId st = Some iv -> gatewayRequestSet s !! rs_gatewayId st = Some set ->
      heap s !! l = None ->
      allocate_spec st s
        (mkLrs (<[l := st]> (heap s)) (<[rs_reqId st := l]> (requestStates s))
           (<[rs_instanceId st := iv_AllocateRequestState (<[l := st]> (heap s)) l iv]> (instanceViews s))
           (<[rs_gatewayId st := {[rs_reqId st]} ∪ set]> (gatewayRequestSet s)), None).

Lemma AllocateRequestState_spec st s : allocate_spec st s (AllocateRequestState st s).
Proof.
  unfold AllocateRequestState, requestExists, instanceExists, gatewayExists.
  case_bool_decide as Hr; [by apply alloc_exists|]. apply eq_None_not_Some in Hr.
  case_bool_decide as Hz.
  { apply map_size_empty_inv in Hz. apply alloc_no_instance; [done|]. by rewrite Hz. }
  case_bool_decide as Hi; cbn; [|apply alloc_no_instance; [done|by apply eq_None_not_Some]].
  case_bool_decide as Hg; cbn; [|apply alloc_no_gateway; [done..|by apply eq_None_not_Some]].
  destruct Hi as [iv Hi], Hg as [set Hg].
  rewrite (alter_insert_Some _ _ _ _ Hi), (alter_insert_Some _ _ _ _ Hg).
  apply alloc_done; try done. apply not_elem_of_dom, is_fresh.
Qed.

Lemma wf_AllocateRequestState st s :
  wf s -> tokens_fit s (rs_instanceId st) (rs_numTokens st) -> wf (AllocateRequestState st s).1.
Proof.
  intros W [Hn Hfit]. destruct (AllocateRequestState_spec st s); try done.
  eapply wf_Allocate_tables; eauto.
Qed.

(** *** Token updates and prefill completion *)

Lemma insert_view_id s i iv :
  instanceViews s !! i = Some iv ->
  mkLrs (heap s) (requestStates s) (<[i := iv]> (instanceViews s)) (gatewayRequestSet s) = s.
Proof. intros Hi. rewrite insert_id by done. by destruct s. Qed.

Lemma wf_UpdateRequestState st s :
  wf s -> tokens_fit s (rs_instanceId st) (rs_numTokens st) -> wf (UpdateRequestState st s).1.
Proof.
  intros W [Hn Hfit]. unfold UpdateRequestState.
  case_match; [done|]. destruct (instanceViews s !! _) as [iv|] eqn:Hi; [|done]. case_match; [done|].
  unfold iv_UpdateRequestState. destruct (iv_requestStates iv !! _) as [l|] eqn:Hl;
    [|by cbn; rewrite insert_view_id].
  case_bool_decide; [by cbn; rewrite insert_view_id|].
  apply (wf_view W Hi) in Hl as Hl'. destruct Hl' as [Hr Hinst].
  destruct (wf_request W Hr) as (_ & Hid & Hpos & _). unfold tokens_at in Hpos.
  pose proof (wf_tokens_le W _ _ _ _ Hi Hl) as Hle. unfold tokens_at in Hle.
  specialize (Hfit _ eq_refl).
  assert (0 <= iv_numTokens iv) by by eapply wf_tokens_nonneg.
  rewrite int64_small by (unfold MinInt64, MaxInt64 in *; lia).
  case_bool_decide; cbn; [|by rewrite insert_view_id].
  rewrite int64_nonneg by lia. apply wf_write with (rs_reqId st); auto with go; unfold tokens_at; cbn; lia.
Qed.

Lemma wf_MarkPrefillComplete st s : wf s -> wf (MarkPrefillComplete st s).1.
Proof.
  intros W. unfold MarkPrefillComplete, iv_MarkPrefillComplete.
  case_match; [done|]. destruct (instanceViews s !! _) as [iv|] eqn:Hi; [|done]. case_match; [done|].
  cbn. destruct (iv_requestStates iv !! _) as [l|] eqn:Hl; [|by destruct s].
  apply (wf_view W Hi) in Hl as [Hr Hinst].
  destruct (wf_tokens W Hi) as [_ Hmax], (wf_request W Hr) as (_ & _ & Hpos & _).
  rewrite <- (insert_id (instanceViews s) _ _ Hi).
  replace iv with (mkInstanceView (iv_instance iv) (iv_version iv) (iv_numTokens iv) (iv_requestStates iv))
    by by destruct iv.
  apply wf_write with (rs_reqId st); auto with go. unfold tokens_at; cbn. lia.
Qed.

(** *** Releases *)

Lemma iv_Release_exact P s i iv r l :
  wf_except P s -> instanceViews s !! i = Some iv -> iv_requestStates iv !! r = Some l ->
  iv_ReleaseRequestState (heap s) r iv =
    mkInstanceView (iv_instance iv) (iv_version iv) (iv_numTokens iv - tokens_at (heap s) l)
      (delete r (iv_requestStates iv)).
Proof.
  intros W Hi Hr. unfold iv_ReleaseRequestState. rewrite Hr.
  pose proof (wf_tokens_le W _ _ _ _ Hi Hr) as Hle. destruct (wf_tokens W Hi) as [_ Hmax].
  pose proof (wf_view_nonneg W _ _ _ _ Hi Hr). unfold tokens_at in *.
  rewrite bool_decide_eq_false_2 by lia. by rewrite int64_nonneg by lia.
Qed.

(** Releasing a request from the view of its instance and from the request table
    leaves at most its gateway's set with a stale id. *)
Lemma wf_release_core P s r l i iv :
  wf_except P s -> requestStates s !! r = Some l -> i = rs_instanceId (deref (heap s) l) ->
  instanceViews s !! i = Some iv ->
  wf_except (fun g => P g \/ g = rs_gatewayId (deref (heap s) l))
    (mkLrs (heap s) (delete r (requestStates s))
       (<[i := iv_ReleaseRequestState (heap s) r iv]> (instanceViews s)) (gatewayRequestSet s)).
Proof.
  intros W Hr Hi Hiv. pose proof (wf_own_view W r l iv Hr) as Hin. rewrite <- Hi in Hin.
  specialize (Hin Hiv). rewrite (iv_Release_exact P s i iv r l W Hiv Hin). split; cbn.
  - intros r' l' [Hne Hr']%lookup_delete_Some.
    destruct (wf_request W Hr') as (H1 & H2 & H3 & H4 & H5). split_and!; try done.
    apply lookup_insert_is_Some'; auto.
  - intros j jv r' l' [[<- <-]|[Hj Hjv]]%lookup_insert_Some; cbn; rewrite !lookup_delete_Some.
    + rewrite (wf_view W Hiv). tauto.
    + rewrite (wf_view W Hjv). split; [|tauto]. intros [H1 H2]. split_and!; try done. intros <-. congruence.
  - intros g set r' l' Hg [Hne Hr']%lookup_delete_Some. by apply (wf_gateway_in W Hg).
  - intros g set r' Hg HP Hmem. destruct (wf_gateway_only W Hg (fun H => HP (or_introl H)) Hmem) as (l' & H1 & H2).
    exists l'. split; [|done]. apply lookup_delete_Some. split; [|done]. intros <-.
    apply HP. right. congruence.
  - intros j jv [[<- <-]|[Hj Hjv]]%lookup_insert_Some; cbn; [|exact (wf_tokens W Hjv)].
    destruct (wf_tokens W Hiv) as [Ht Hmax]. pose proof (wf_view_nonneg W _ _ _ _ Hiv Hin).
    rewrite (map_sum_delete _ _ _ _ Hin). lia.
  - intros j jv [[<- <-]|[Hj Hjv]]%lookup_insert_Some; cbn; eauto using wf_id.
Qed.

Lemma reclaim_request_wf P s r l iv :
  wf_except P s -> requestStates s !! r = Some l ->
  instanceViews s !! rs_instanceId (deref (heap s) l) = Some iv ->
  wf_except (fun g => P g \/ g = rs_gatewayId (deref (heap s) l)) (reclaim_request s r).
Proof.
  intros W Hr Hiv. unfold reclaim_request. rewrite Hr, Hiv. by eapply wf_release_core.
Qed.

(** A release names the instance and the gateway the request was allocated with. *)
Definition release_matches (st : RequestState) (s : LocalRealtimeState) : Prop :=
  forall l, requestStates s !! rs_reqId st = Some l ->
    rs_instanceId st = rs_instanceId (deref (heap s) l) /\ rs_gatewayId st = rs_gatewayId (deref (heap s) l).

Lemma wf_drop_stale s g set r :
  wf_except (fun g' => False \/ g' = g) s -> gatewayRequestSet s !! g = Some set ->
  requestStates s !! r = None ->
  (forall r', r' ∈ set -> r' <> r -> exists l, requestStates s !! r' = Some l /\ rs_gatewayId (deref (heap s) l) = g) ->
  wf (mkLrs (heap s) (requestStates s) (instanceViews s) (<[g := set ∖ {[r]}]> (gatewayRequestSet s))).
Proof.
  intros W Hg Hr Hothers. split; cbn; [|exact (@wf_view _ _ W)| | |exact (@wf_tokens _ _ W)|exact (@wf_id _ _ W)].
  - intros r' l' Hr'. destruct (wf_request W Hr') as (H1 & H2 & H3 & H4 & H5). split_and!; try done.
    apply lookup_insert_is_Some'; auto.
  - intros g' set' r' l' [[<- <-]|[Hne Hg']]%lookup_insert_Some Hr' Hgw; [|by apply (wf_gateway_in W Hg' Hr')].
    pose proof (wf_gateway_in W Hg Hr' Hgw). assert (r' <> r) by congruence. set_solver.
  - intros g' set' r' [[<- <-]|[Hne Hg']]%lookup_insert_Some _ Hmem.
    + apply elem_of_difference in Hmem as [Hmem Hnr]. apply Hothers; [done|set_solver].
    + apply (wf_gateway_only W Hg'); [|done]. intros [[]| -> ]; done.
Qed.

Lemma wf_ReleaseRequestState st s : wf s -> release_matches st s -> wf (ReleaseRequestState st s).
Proof.
  intros W Hm. unfold ReleaseRequestState.
  destruct (requestExists _ s) eqn:He; cbn; [|done]. apply requestExists_spec in He as [l Hr].
  destruct (Hm l Hr) as [Hi Hgw]. destruct (instanceViews s !! _) as [iv|] eqn:Hiv; [|done].
  destruct (gatewayRequestSet s !! _) as [set|] eqn:Hg; [|done].
  pose proof (wf_release_core _ s _ l _ iv W Hr Hi Hiv) as Wc. rewrite <- Hgw in Wc.
  apply (wf_drop_stale _ _ set (rs_reqId st) Wc); cbn; [done|apply lookup_delete_eq|].
  intros r' Hmem Hne. rewrite lookup_delete_ne by done. by apply (wf_gateway_only W Hg (fun H => H)).
Qed.

(** *** Gateways *)

Lemma wf_AddGateway g s : wf s -> wf (AddGateway g s).
Proof.
  intros W. unfold AddGateway. destruct (gatewayRequestSet s !! g) eqn:Hg; [done|].
  split; cbn; [|exact (@wf_view _ _ W)| | |exact (@wf_tokens _ _ W)|exact (@wf_id _ _ W)].
  - intros r l Hr. destruct (wf_request W Hr) as (H1 & H2 & H3 & H4 & H5). split_and!; try done.
    apply lookup_insert_is_Some'; auto.
  - intros g' set r l [[<- <-]|[Hne Hg']]%lookup_insert_Some Hr Hgw; [|by apply (wf_gateway_in W Hg' Hr)].
    destruct (wf_request W Hr) as (_ & _ & _ & _ & [? H5]). congruence.
  - intros g' set r [[<- <-]|[Hne Hg']]%lookup_insert_Some _ Hmem; [set_solver|].
    by apply (wf_gateway_only W Hg' (fun H => H)).
Qed.

Lemma reclaim_frame s r :
  heap (reclaim_request s r) = heap s /\
  gatewayRequestSet (reclaim_request s r) = gatewayRequestSet s /\
  requestStates (reclaim_request s r) = delete r (requestStates s) /\
  iv_instance <$> instanceViews (reclaim_request s r) = iv_instance <$> instanceViews s.
Proof.
  unfold reclaim_request. destruct (requestStates s !! r) as [l|] eqn:Hr.
  - split_and!; try done. cbn. destruct (instanceViews s !! _) as [iv|] eqn:Hi; [|done].
    rewrite fmap_insert. unfold iv_ReleaseRequestState.
    apply insert_id. rewrite lookup_fmap, Hi. cbn. by destruct (iv_requestStates iv !! r).
  - split_and!; try done. by rewrite delete_id.
Qed.

(** Deleting a list of keys is keeping the others. *)
Lemma filter_not_in_cons (r : string) ids (m : gmap string loc) :
  filter (fun kv => kv.1 ∉ ids) (delete r m) = filter (fun kv => kv.1 ∉ r :: ids) m.
Proof.
  apply map_eq. intros k. apply option_eq. intros v.
  rewrite !map_lookup_filter_Some, lookup_delete_Some, not_elem_of_cons. cbn. intuition congruence.
Qed.

Lemma reclaim_loop gw ids s :
  wf_except (eq gw) s ->
  (forall r l, r ∈ ids -> requestStates s !! r = Some l -> rs_gatewayId (deref (heap s) l) = gw) ->
  let s' := fold_left reclaim_request ids s in
  wf_except (eq gw) s' /\ heap s' = heap s /\ gatewayRequestSet s' = gatewayRequestSet s /\
  requestStates s' = filter (fun kv => kv.1 ∉ ids) (requestStates s) /\
  iv_instance <$> instanceViews s' = iv_instance <$> instanceViews s.
Proof.
  revert s. induction ids as [|r ids IH]; intros s W Hgw; cbn zeta; cbn [fold_left].
  { split_and!; try done. symmetry. apply map_filter_id. intros. apply not_elem_of_nil. }
  destruct (reclaim_frame s r) as (E1 & E2 & E3 & E4).
  assert (wf_except (eq gw) (reclaim_request s r)) as W'.
  { destruct (requestStates s !! r) as [l|] eqn:Hr;
      [|unfold reclaim_request; by rewrite Hr].
    destruct (wf_request W Hr) as (_ & _ & _ & [iv Hiv] & _).
    eapply wf_except_mono; [|by eapply reclaim_request_wf].
    intros g [?| ->]; [done|]. symmetry. apply (Hgw r); [left|done]. }
  destruct (IH _ W') as (H1 & H2 & H3 & H4 & H5).
  { intros r' l' Hin. rewrite E3, E1, lookup_delete_Some. intros [_ ?]. apply (Hgw r'); [by right|done]. }
  split_and!; [done|congruence..| |congruence].
  rewrite H4, E3. apply filter_not_in_cons.
Qed.

Section remove_gateway.
Context (order : key_order) (Ho : visits_once order) (gw : string) (s : LocalRealtimeState) (W : wf s).

(** The request table after a gateway is removed: the requests of the others. *)
Lemma RemoveGateway_requests r l :
  requestStates (RemoveGateway order gw s) !! r = Some l <->
  requestStates s !! r = Some l /\ rs_gatewayId (deref (heap s) l) <> gw.
Proof using All.
  unfold RemoveGateway. destruct (gatewayRequestSet s !! gw) as [set|] eqn:Hg.
  - destruct (reclaim_loop gw (order set) s) as (_ & _ & _ & E & _).
    + by eapply wf_except_mono; [|exact W].
    + intros r' l' Hmem%elem_of_order Hr'; [|done].
      destruct (wf_gateway_only W Hg (fun H => H) Hmem) as (l'' & H1 & H2). congruence.
    + cbn. rewrite E, map_lookup_filter_Some. cbn. rewrite elem_of_order by done.
      split; intros [H1 H2]; (split; [done|]).
      * intros Hgw. by apply H2, (wf_gateway_in W Hg H1).
      * intros Hmem. destruct (wf_gateway_only W Hg (fun H => H) Hmem) as (l'' & H3 & H4). congruence.
  - split; [|tauto]. intros Hr. split; [done|]. intros Hgw.
    destruct (wf_request W Hr) as (_ & _ & _ & _ & [? ?]). congruence.
Qed.

Lemma RemoveGateway_frame :
  heap (RemoveGateway order gw s) = heap s /\
  gatewayRequestSet (RemoveGateway order gw s) = delete gw (gatewayRequestSet s) /\
  iv_instance <$> instanceViews (RemoveGateway order gw s) = iv_instance <$> instanceViews s.
Proof using All.
  unfold RemoveGateway. destruct (gatewayRequestSet s !! gw) as [set|] eqn:Hg; [|by rewrite delete_id].
  destruct (reclaim_loop gw (order set) s) as (_ & E1 & E2 & _ & E3); cbn.
  - by eapply wf_except_mono; [|exact W].
  - intros r' l' Hmem%elem_of_order Hr'; [|done].
    destruct (wf_gateway_only W Hg (fun H => H) Hmem) as (l'' & H1 & H2). congruence.
  - by rewrite E1, E2, E3.
Qed.

Lemma wf_RemoveGateway : wf (RemoveGateway order gw s).
Proof using All.
  pose proof RemoveGateway_requests as Hreq. pose proof RemoveGateway_frame as (Eh & Eg & _).
  unfold RemoveGateway in *. destruct (gatewayRequestSet s !! gw) as [set|] eqn:Hg; [|done].
  destruct (reclaim_loop gw (order set) s) as (W' & _ & E2 & _).
  { by eapply wf_except_mono; [|exact W]. }
  { intros r' l' Hmem%elem_of_order Hr'; [|done].
    destruct (wf_gateway_only W Hg (fun H => H) Hmem) as (l'' & H1 & H2). congruence. }
  cbn in *. split; cbn; [|exact (@wf_view _ _ W')| | |exact (@wf_tokens _ _ W')|exact (@wf_id _ _ W')].
  - intros r l Hr. destruct (wf_request W' Hr) as (H1 & H2 & H3 & H4 & H5). split_and!; try done.
    apply Hreq in Hr as [_ Hne]. rewrite lookup_delete_ne; [done|]. rewrite Eh. congruence.
  - intros g set' r l [Hne Hg']%lookup_delete_Some. by apply (wf_gateway_in W').
  - intros g set' r [Hne Hg']%lookup_delete_Some _. by apply (wf_gateway_only W' Hg').
Qed.

End remove_gateway.

(** *** Instances *)

Lemma forget_loop ids s :
  let s' := fold_left forget_request ids s in
  heap s' = heap s /\ instanceViews s' = instanceViews s /\
  requestStates s' = filter (fun kv => kv.1 ∉ ids) (requestStates s) /\
  gatewayRequestSet s' = (fun set => set ∖ list_to_set ids) <$> gatewayRequestSet s.
Proof.
  revert s. induction ids as [|r ids IH]; intros s; cbn zeta; cbn [fold_left].
  - split_and!; try done.
    + symmetry. apply map_filter_id. intros. apply not_elem_of_nil.
    + symmetry. rewrite <- (map_fmap_id (gatewayRequestSet s)) at 2. apply map_fmap_ext.
      intros g set _. cbn. set_solver.
  - destruct (IH (forget_request s r)) as (E1 & E2 & E3 & E4). rewrite E1, E2, E3, E4. cbn.
    split_and!; try done.
    + apply filter_not_in_cons.
    + rewrite <- map_fmap_compose. apply map_fmap_ext. intros g set _. cbn. set_solver.
Qed.

Section remove_instance.
Context (order : key_order) (Ho : visits_once order) (i : string) (s : LocalRealtimeState) (W : wf s).

Lemma removeInstance_requests r l :
  requestStates (removeInstance order i s) !! r = Some l <->
  requestStates s !! r = Some l /\ rs_instanceId (deref (heap s) l) <> i.
Proof using All.
  unfold removeInstance, GetRequestIds. destruct (instanceViews s !! i) as [iv|] eqn:Hi.
  - destruct (forget_loop (order (dom (iv_requestStates iv))) s) as (_ & _ & E & _).
    cbn. rewrite E, map_lookup_filter_Some. cbn.
    rewrite elem_of_order, elem_of_dom by done. split; intros [H1 H2]; (split; [done|]).
    + intros Hl. apply H2. exists l. by apply (wf_view W Hi).
    + intros [l' Hl']. apply (wf_view W Hi) in Hl' as [H3 H4]. congruence.
  - split; [|tauto]. intros Hr. split; [done|]. intros Hl.
    destruct (wf_request W Hr) as (_ & _ & _ & [? ?] & _). congruence.
Qed.

Lemma removeInstance_frame :
  heap (removeInstance order i s) = heap s /\
  instanceViews (removeInstance order i s) = delete i (instanceViews s) /\
  dom (gatewayRequestSet (removeInstance order i s)) = dom (gatewayRequestSet s).
Proof using All.
  unfold removeInstance. destruct (instanceViews s !! i) as [iv|] eqn:Hi; [|by rewrite delete_id].
  destruct (forget_loop (GetRequestIds order iv) s) as (E1 & E2 & _ & E4). cbn.
  rewrite E1, E2, E4, dom_fmap_L. split_and!; try done. apply delete_insert_eq.
Qed.

(** The set of a gateway loses exactly the requests of the instance. *)
Lemma removeInstance_gateway g set' :
  gatewayRequestSet (removeInstance order i s) !! g = Some set' ->
  exists set, gatewayRequestSet s !! g = Some set /\
    forall r, r ∈ set' <-> r ∈ set /\ is_Some (requestStates (removeInstance order i s) !! r).
Proof using All.
  pose proof removeInstance_requests as Hreq.
  intros Hg. destruct (gatewayRequestSet s !! g) as [set|] eqn:Hgs; last first.
  { apply not_elem_of_dom in Hgs. destruct removeInstance_frame as (_ & _ & E). rewrite <- E in Hgs.
    apply not_elem_of_dom in Hgs. congruence. }
  exists set. split; [done|]. intros r. split.
  - intros Hr. assert (r ∈ set) as Hset.
    { revert Hg. unfold removeInstance. destruct (instanceViews s !! i); [|intros; congruence].
      cbn. rewrite (proj2 (proj2 (proj2 (forget_loop _ s)))), lookup_fmap, Hgs. intros [= <-]. set_solver. }
    split; [done|]. destruct (wf_gateway_only W Hgs (fun H => H) Hset) as (l & H1 & H2).
    exists l. apply Hreq. split; [done|]. intros Hli. revert Hg Hr. unfold removeInstance.
    destruct (wf_request W H1) as (_ & _ & _ & [iv Hi] & _). rewrite Hli in Hi. rewrite Hi.
    cbn. rewrite (proj2 (proj2 (proj2 (forget_loop _ s)))), lookup_fmap, Hgs. intros [= <-].
    rewrite elem_of_difference, elem_of_list_to_set. intros [_ []]. unfold GetRequestIds.
    rewrite elem_of_order, elem_of_dom by done. exists l. by apply (wf_view W Hi).
  - intros [Hset [l Hl]]. revert Hg. unfold removeInstance in *.
    destruct (instanceViews s !! i) as [iv|]; [|intros; congruence]. cbn in *.
    destruct (forget_loop (GetRequestIds order iv) s) as (_ & _ & E3 & E4).
    rewrite E3, map_lookup_filter_Some in Hl. rewrite E4, lookup_fmap, Hgs. intros [= <-].
    rewrite elem_of_difference, elem_of_list_to_set. by destruct Hl.
Qed.

Lemma wf_removeInstance : wf (removeInstance order i s).
Proof using All.
  pose proof removeInstance_requests as Hreq. pose proof removeInstance_gateway as Hgw.
  destruct removeInstance_frame as (Eh & Ev & Eg). split; rewrite ?Eh, ?Ev.
  - intros r l [Hr Hne]%Hreq. destruct (wf_request W Hr) as (H1 & H2 & H3 & H4 & H5).
    split_and!; try done; [by rewrite lookup_delete_ne|].
    apply elem_of_dom. rewrite Eg. by apply elem_of_dom.
  - intros j jv r l [Hj Hjv]%lookup_delete_Some. rewrite Hreq, (wf_view W Hjv).
    split; [|tauto]. intros [? <-]. done.
  - intros g set' r l Hg Hr Hl. destruct (Hgw g set' Hg) as (set & Hset & Hmem). apply Hmem.
    split; [|by eexists]. apply Hreq in Hr as [Hr _]. by apply (wf_gateway_in W Hset Hr).
  - intros g set' r Hg _ Hr. destruct (Hgw g set' Hg) as (set & Hset & Hmem).
    destruct (proj1 (Hmem r) Hr) as [Hr' [l Hl]]. exists l. split; [done|]. apply Hreq in Hl as [Hl _].
    destruct (wf_gateway_only W Hset (fun H => H) Hr') as (l' & ? & ?). congruence.
  - intros j jv [_ Hjv]%lookup_delete_Some. exact (wf_tokens W Hjv).
  - intros j jv [_ Hjv]%lookup_delete_Some. exact (wf_id W Hjv).
Qed.

End remove_instance.

Lemma Endpoint_String_nonempty ep : Endpoint_String ep <> "".
Proof. unfold Endpoint_String. destruct (Host ep); by rewrite ?sapp_nil_l, ?sapp_cons. Qed.

(** An instance always has an identifier: its endpoint at least. *)
Lemma LLMInstance_String_nonempty w : LLMInstance_String w <> "".
Proof.
  pose proof (Endpoint_String_nonempty (InstEndpoint w)) as Hne. unfold LLMInstance_String. cbv zeta.
  set (r := Join _ "-"). destruct (decide (r = "")) as [E|E].
  - by rewrite (bool_decide_eq_true_2 _ E), (bool_decide_eq_true_2 _ Hne).
  - by rewrite (bool_decide_eq_false_2 _ E).
Qed.

Lemma LLMInstance_Id_spec w :
  (LLMInstance_Id w).1 <> "" /\ ID (LLMInstance_Id w).2 = (LLMInstance_Id w).1 /\
  Version (LLMInstance_Id w).2 = Version w.
Proof.
  unfold LLMInstance_Id. case_bool_decide; [|done]. cbn. split; [apply LLMInstance_String_nonempty|done].
Qed.

Lemma wf_put_new_view s i inst :
  wf s -> instanceViews s !! i = None -> ID inst = i -> i <> "" -> wf (put_view i (NewInstanceView inst) s).
Proof.
  intros W Hi Hid Hne. split; cbn; [| |exact (@wf_gateway_in _ _ W)|exact (@wf_gateway_only _ _ W)| |].
  - intros r l Hr. destruct (wf_request W Hr) as (H1 & H2 & H3 & H4 & H5). split_and!; try done.
    apply lookup_insert_is_Some'; auto.
  - intros j jv r l [[<- <-]|[Hj Hjv]]%lookup_insert_Some; cbn; [|exact (wf_view W Hjv)].
    rewrite lookup_empty. split; [done|]. intros [Hr Hl].
    destruct (wf_request W Hr) as (_ & _ & _ & [? ?] & _). congruence.
  - intros j jv [[<- <-]|[Hj Hjv]]%lookup_insert_Some; cbn; [by rewrite map_sum_empty|exact (wf_tokens W Hjv)].
  - intros j jv [[<- <-]|[Hj Hjv]]%lookup_insert_Some; cbn; [done|exact (wf_id W Hjv)].
Qed.

Lemma wf_AddInstance order inst s : visits_once order -> wf s -> wf (AddInstance order inst s).
Proof.
  intros Ho W. unfold AddInstance. destruct (LLMInstance_Id inst) as [id inst'] eqn:E.
  destruct (LLMInstance_Id_spec inst) as (H1 & H2 & _). rewrite E in H1, H2. cbn in H1, H2.
  destruct (instanceViews s !! id) as [old|] eqn:Hi; [|by apply wf_put_new_view].
  case_bool_decide; [|done]. apply wf_put_new_view; try done; [by apply wf_removeInstance|].
  destruct (removeInstance_frame order Ho id s W) as (_ & -> & _). apply lookup_delete_eq.
Qed.
