(* ===== verification/LrsSpec.v ===== *)
(** * What the local realtime state promises

    The abstract store of the scheduler is one map from request ids to request
    states, beside the known instances and gateways. [LrsSpec] gives its operations,
    proves that the linked tables of [Lrs] implement them for every sequence of
    operations ([lrs_refines]), and that the counters the metrics read are the sums
    over the abstract store. *)

From stdpp Require Import base gmap sets list strings numbers.
From S2P Require Import Prelude GoStrings Types Lrs.

Local Open Scope Z_scope.

(** ** The abstract store *)

Record Spec := mkSpec {
  sp_instances : gmap string LLMInstance;
  sp_gateways : gset string;
  sp_requests : gmap string RequestState
}.

Definition sp_empty : Spec := mkSpec ∅ ∅ ∅.

Definition on_instance (i : string) (sp : Spec) : gmap string RequestState :=
  filter (fun kv => rs_instanceId kv.2 = i) (sp_requests sp).

Definition sp_tokens (i : string) (sp : Spec) : Z := map_sum rs_numTokens (on_instance i sp).

Definition sp_RemoveInstance (i : string) (sp : Spec) : Spec :=
  mkSpec (delete i (sp_instances sp)) (sp_gateways sp)
    (filter (fun kv => rs_instanceId kv.2 <> i) (sp_requests sp)).

Definition sp_AddInstance (inst : LLMInstance) (sp : Spec) : Spec :=
  let '(id, inst) := LLMInstance_Id inst in
  match sp_instances sp !! id with
  | Some old =>
      if bool_decide (Version inst > Version old)
      then mkSpec (<[id := inst]> (sp_instances sp)) (sp_gateways sp)
             (filter (fun kv => rs_instanceId kv.2 <> id) (sp_requests sp))
      else sp
  | None => mkSpec (<[id := inst]> (sp_instances sp)) (sp_gateways sp) (sp_requests sp)
  end.

Definition sp_AddGateway (g : string) (sp : Spec) : Spec :=
  mkSpec (sp_instances sp) ({[g]} ∪ sp_gateways sp) (sp_requests sp).

Definition sp_RemoveGateway (g : string) (sp : Spec) : Spec :=
  mkSpec (sp_instances sp) (sp_gateways sp ∖ {[g]})
    (filter (fun kv => rs_gatewayId kv.2 <> g) (sp_requests sp)).

Definition sp_put (r : string) (st : RequestState) (sp : Spec) : Spec :=
  mkSpec (sp_instances sp) (sp_gateways sp) (<[r := st]> (sp_requests sp)).

Definition sp_Allocate (st : RequestState) (sp : Spec) : Spec * option error :=
  if decide (is_Some (sp_requests sp !! rs_reqId st)) then (sp, Some ErrorRequestExits)
  else if decide (sp_instances sp !! rs_instanceId st = None) then (sp, Some ErrorEndpointNotFound)
  else if decide (rs_gatewayId st ∉ sp_gateways sp) then (sp, Some ErrorGatewayNotFound)
  else (sp_put (rs_reqId st) st sp, None).

Definition sp_Update (st : RequestState) (sp : Spec) : Spec * option error :=
  match sp_requests sp !! rs_reqId st with
  | None => (sp, Some ErrorRequestNotExits)
  | Some cur =>
      if decide (sp_instances sp !! rs_instanceId st = None) then (sp, Some ErrorEndpointNotFound)
      else if decide (rs_gatewayId st ∉ sp_gateways sp) then (sp, Some ErrorGatewayNotFound)
      else if decide (rs_instanceId st <> rs_instanceId cur) then (sp, Some ErrorRequestNotExits)
      else if decide (rs_gatewayId st <> rs_gatewayId cur) then (sp, Some ErrorRequestGatewayChanged)
      else if decide (rs_numTokens cur <= rs_numTokens st)
      then (sp_put (rs_reqId st) (set_tokens (rs_numTokens st) (rs_updateTime st) cur) sp, None)
      else (sp, None)
  end.

Definition sp_Mark (st : RequestState) (sp : Spec) : Spec * option error :=
  match sp_requests sp !! rs_reqId st with
  | None => (sp, Some ErrorRequestNotExits)
  | Some cur =>
      if decide (sp_instances sp !! rs_instanceId st = None) then (sp, Some ErrorRequestNotExits)
      else if decide (rs_gatewayId st ∉ sp_gateways sp) then (sp, Some ErrorGatewayNotFound)
      else if decide (rs_instanceId st = rs_instanceId cur)
      then (sp_put (rs_reqId st) (set_prefillCompleted cur) sp, None)
      else (sp, None)
  end.

(** A release that names the instance and the gateway of its request removes it. *)
Definition sp_Release (st : RequestState) (sp : Spec) : Spec :=
  mkSpec (sp_instances sp) (sp_gateways sp) (delete (rs_reqId st) (sp_requests sp)).

(** ** The abstraction function *)

Definition abs (s : LocalRealtimeState) : Spec :=
  mkSpec (iv_instance <$> instanceViews s) (dom (gatewayRequestSet s)) (deref (heap s) <$> requestStates s).

Lemma abs_empty : abs NewLocalRealtimeState = sp_empty.
Proof. unfold abs, sp_empty. cbn. by rewrite !fmap_empty, dom_empty_L. Qed.

Lemma abs_request_None s r : sp_requests (abs s) !! r = None <-> requestStates s !! r = None.
Proof. cbn. by rewrite lookup_fmap, fmap_None. Qed.

Lemma abs_instance_None s i : sp_instances (abs s) !! i = None <-> instanceViews s !! i = None.
Proof. cbn. by rewrite lookup_fmap, fmap_None. Qed.

Lemma abs_gateway s g : g ∈ sp_gateways (abs s) <-> is_Some (gatewayRequestSet s !! g).
Proof. cbn. apply elem_of_dom. Qed.

(** The requests in the view of an instance are the abstract requests on it. *)
Lemma view_on_instance P s i iv :
  wf_except P s -> instanceViews s !! i = Some iv ->
  deref (heap s) <$> iv_requestStates iv = on_instance i (abs s).
Proof.
  intros W Hi. apply map_eq. intros r. apply option_eq. intros st. unfold on_instance. cbn.
  rewrite map_lookup_filter_Some, !lookup_fmap_Some. cbn. split.
  - intros (l & <- & Hl). apply (wf_view W Hi) in Hl as [Hr Hl]. eauto.
  - intros [(l & <- & Hr) Hl]. exists l. split; [done|]. by apply (wf_view W Hi).
Qed.

Lemma view_tokens P s i iv :
  wf_except P s -> instanceViews s !! i = Some iv -> iv_numTokens iv = sp_tokens i (abs s).
Proof.
  intros W Hi. unfold sp_tokens. rewrite <- (view_on_instance P s i iv W Hi), map_sum_fmap.
  by destruct (wf_tokens W Hi) as [-> _].
Qed.

(** ** Operations and their sequences *)

Inductive op :=
  | OAddInstance (inst : LLMInstance)
  | ORemoveInstance (i : string)
  | OAddGateway (g : string)
  | ORemoveGateway (g : string)
  | OAllocate (st : RequestState)
  | OUpdate (st : RequestState)
  | OMark (st : RequestState)
  | ORelease (st : RequestState).

Definition run (order : key_order) (o : op) (s : LocalRealtimeState) : LocalRealtimeState * option error :=
  match o with
  | OAddInstance inst => (AddInstance order inst s, None)
  | ORemoveInstance i => (RemoveInstance order i s, None)
  | OAddGateway g => (AddGateway g s, None)
  | ORemoveGateway g => (RemoveGateway order g s, None)
  | OAllocate st => AllocateRequestState st s
  | OUpdate st => UpdateRequestState st s
  | OMark st => MarkPrefillComplete st s
  | ORelease st => (ReleaseRequestState st s, None)
  end.

Definition sp_run (o : op) (sp : Spec) : Spec * option error :=
  match o with
  | OAddInstance inst => (sp_AddInstance inst sp, None)
  | ORemoveInstance i => (sp_RemoveInstance i sp, None)
  | OAddGateway g => (sp_AddGateway g sp, None)
  | ORemoveGateway g => (sp_RemoveGateway g sp, None)
  | OAllocate st => sp_Allocate st sp
  | OUpdate st => sp_Update st sp
  | OMark st => sp_Mark st sp
  | ORelease st => (sp_Release st sp, None)
  end.

(** What the callers guarantee: token counts that do not overflow the counter of the
    instance, and releases that name the instance and gateway of their request. *)
Definition admissible (o : op) (sp : Spec) : Prop :=
  match o with
  | OAllocate st | OUpdate st =>
      0 <= rs_numTokens st /\ sp_tokens (rs_instanceId st) sp + rs_numTokens st <= MaxInt64
  | ORelease st => forall cur, sp_requests sp !! rs_reqId st = Some cur ->
      rs_instanceId st = rs_instanceId cur /\ rs_gatewayId st = rs_gatewayId cur
  | _ => True
  end.

Fixpoint exec (order : key_order) (os : list op) (s : LocalRealtimeState) : LocalRealtimeState * list (option error) :=
  match os with
  | [] => (s, [])
  | o :: os => let '(s, e) := run order o s in let '(s, es) := exec order os s in (s, e :: es)
  end.

Fixpoint sp_exec (os : list op) (sp : Spec) : Spec * list (option error) :=
  match os with
  | [] => (sp, [])
  | o :: os => let '(sp, e) := sp_run o sp in let '(sp, es) := sp_exec os sp in (sp, e :: es)
  end.

Fixpoint admissible_trace (os : list op) (sp : Spec) : Prop :=
  match os with
  | [] => True
  | o :: os => admissible o sp /\ admissible_trace os (sp_run o sp).1
  end.

(** ** Each operation implements its abstract counterpart *)

Lemma mkSpec_eq i i' g g' r r' : i = i' -> g = g' -> r = r' -> mkSpec i g r = mkSpec i' g' r'.
Proof. congruence. Qed.

Lemma fmap_view_same (m : gmap string InstanceView) i iv iv' :
  m !! i = Some iv -> iv_instance iv' = iv_instance iv -> iv_instance <$> <[i := iv']> m = iv_instance <$> m.
Proof. intros Hi E. rewrite fmap_insert, E. apply insert_id. by rewrite lookup_fmap, Hi. Qed.

Lemma dom_insert_same {A} (m : gmap string A) k v v' : m !! k = Some v -> dom (<[k := v']> m) = dom m.
Proof. intros Hk. rewrite dom_insert_L. assert (k ∈ dom m) by (by apply elem_of_dom). set_solver. Qed.

Lemma deref_fmap_write s r l st :
  wf s -> requestStates s !! r = Some l ->
  deref (<[l := st]> (heap s)) <$> requestStates s = <[r := st]> (deref (heap s) <$> requestStates s).
Proof.
  intros W Hr. apply map_eq. intros r'. rewrite lookup_fmap, lookup_insert, lookup_fmap. case_decide as E.
  - subst r'. rewrite Hr. cbn. by rewrite deref_insert_eq.
  - destruct (requestStates s !! r') as [l'|] eqn:Hr'; [|done]. cbn. f_equal. apply deref_insert_ne.
    intros <-. apply E. by eapply (wf_inj W).
Qed.

Lemma sim_Allocate st s : wf s ->
  let '(s', e) := AllocateRequestState st s in (abs s', e) = sp_Allocate st (abs s).
Proof.
  intros W. unfold sp_Allocate. destruct (AllocateRequestState_spec st s) as [[l Hr]|Hr Hi|Hr Hi Hg|l iv set Hr Hi Hg Hl].
  - rewrite decide_True; [done|]. cbn. by rewrite lookup_fmap, Hr.
  - rewrite decide_False by (rewrite <- eq_None_not_Some; by apply abs_request_None).
    rewrite decide_True; [done|]. by apply abs_instance_None.
  - rewrite decide_False by (rewrite <- eq_None_not_Some; by apply abs_request_None).
    rewrite decide_False by (rewrite abs_instance_None; by apply not_eq_None_Some).
    rewrite decide_True; [done|]. rewrite abs_gateway. by apply eq_None_not_Some.
  - rewrite decide_False by (rewrite <- eq_None_not_Some; by apply abs_request_None).
    rewrite decide_False by (rewrite abs_instance_None; by rewrite Hi).
    rewrite decide_False by (rewrite abs_gateway, Hg; auto).
    f_equal. apply mkSpec_eq; cbn; [by eapply fmap_view_same|by eapply dom_insert_same|].
    rewrite fmap_insert, deref_insert_eq. f_equal. apply map_fmap_ext. intros r' l' Hr'.
    by eapply alloc_old.
Qed.

Lemma sim_Update st s : wf s -> tokens_fit s (rs_instanceId st) (rs_numTokens st) ->
  let '(s', e) := UpdateRequestState st s in (abs s', e) = sp_Update st (abs s).
Proof.
  intros W [Hn Hfit]. unfold UpdateRequestState, sp_Update, requestExists, gatewayExists. cbn [abs sp_requests].
  rewrite lookup_fmap. destruct (requestStates s !! rs_reqId st) as [l|] eqn:Hr; cbn; [|done].
  destruct (instanceViews s !! rs_instanceId st) as [iv|] eqn:Hi; cbn.
  2: { by rewrite decide_True by (by rewrite lookup_fmap, Hi). }
  rewrite decide_False by (rewrite lookup_fmap, Hi; done).
  case_bool_decide as Hg; cbn.
  2: { by rewrite decide_True by (by rewrite elem_of_dom). }
  rewrite decide_False by (rewrite elem_of_dom; auto).
  unfold iv_UpdateRequestState. destruct (iv_requestStates iv !! rs_reqId st) as [l'|] eqn:Hl.
  - apply (wf_view W Hi) in Hl as Hl'. destruct Hl' as [Hr' Hinst]. assert (l' = l) as -> by congruence.
    rewrite decide_False by congruence.
    case_bool_decide as Hgw; [rewrite decide_True, insert_view_id by done; done|].
    rewrite decide_False by tauto. destruct (wf_request W Hr) as (_ & _ & Hpos & _).
    pose proof (wf_tokens_le W _ _ _ _ Hi Hl). specialize (Hfit iv eq_refl). unfold tokens_at in *.
    rewrite int64_small by (unfold MinInt64, MaxInt64 in *; lia).
    case_bool_decide; [rewrite decide_True by lia | rewrite decide_False, insert_view_id by (done || lia); done].
    unfold abs. cbn. f_equal. apply mkSpec_eq; cbn; [by eapply fmap_view_same|done|by apply deref_fmap_write].
  - rewrite decide_True, insert_view_id; [done|done|]. intros Hinst.
    assert (iv_requestStates iv !! rs_reqId st = Some l); [by apply (wf_view W Hi)|congruence].
Qed.

Lemma sim_Mark st s : wf s ->
  let '(s', e) := MarkPrefillComplete st s in (abs s', e) = sp_Mark st (abs s).
Proof.
  intros W. unfold MarkPrefillComplete, sp_Mark, requestExists, gatewayExists. cbn [abs sp_requests].
  rewrite lookup_fmap. destruct (requestStates s !! rs_reqId st) as [l|] eqn:Hr; cbn; [|done].
  destruct (instanceViews s !! rs_instanceId st) as [iv|] eqn:Hi; cbn.
  2: { by rewrite decide_True by (by rewrite lookup_fmap, Hi). }
  rewrite decide_False by (rewrite lookup_fmap, Hi; done).
  case_bool_decide as Hg; cbn.
  2: { by rewrite decide_True by (by rewrite elem_of_dom). }
  rewrite decide_False by (rewrite elem_of_dom; auto).
  unfold iv_MarkPrefillComplete. destruct (iv_requestStates iv !! rs_reqId st) as [l'|] eqn:Hl.
  - apply (wf_view W Hi) in Hl as [Hr' Hinst]. assert (l' = l) as -> by congruence.
    rewrite decide_True by done. unfold abs. cbn. f_equal. apply mkSpec_eq; [done..|]. by apply deref_fmap_write.
  - rewrite decide_False; [done|]. intros Hinst.
    assert (iv_requestStates iv !! rs_reqId st = Some l); [by apply (wf_view W Hi)|congruence].
Qed.

Lemma sim_Release st s : wf s -> release_matches st s -> abs (ReleaseRequestState st s) = sp_Release st (abs s).
Proof.
  intros W Hm. unfold ReleaseRequestState, sp_Release, requestExists.
  destruct (requestStates s !! rs_reqId st) as [l|] eqn:Hr; cbn.
  - destruct (Hm l Hr) as [Hi Hg], (wf_request W Hr) as (_ & _ & _ & [iv Hiv] & [set Hset]).
    rewrite Hi, Hiv, Hg, Hset. apply mkSpec_eq; cbn.
    + eapply fmap_view_same; [done|]. unfold iv_ReleaseRequestState. by case_match.
    + by eapply dom_insert_same.
    + by rewrite fmap_delete.
  - rewrite delete_id; [done|]. by rewrite lookup_fmap, Hr.
Qed.

Lemma deref_filter (h : gmap positive RequestState) (m m' : gmap string positive) 
    (Q : string * RequestState -> Prop) `{!forall kv, Decision (Q kv)} :
  (forall r l, m' !! r = Some l <-> m !! r = Some l /\ Q (r, deref h l)) ->
  deref h <$> m' = filter Q (deref h <$> m).
Proof.
  intros Hm. apply map_eq. intros r. apply option_eq. intros st.
  rewrite map_lookup_filter_Some, !lookup_fmap_Some. cbn. split.
  - intros (l & <- & [H1 H2]%Hm). eauto.
  - intros [(l & <- & H1) H2]. exists l. split; [done|]. by apply Hm.
Qed.

Section orders.
Context (order : key_order) (Ho : visits_once order).

Lemma sim_RemoveGateway g s : wf s -> abs (RemoveGateway order g s) = sp_RemoveGateway g (abs s).
Proof using All.
  intros W. destruct (RemoveGateway_frame order Ho g s W) as (Eh & Eg & Ev).
  unfold abs, sp_RemoveGateway. rewrite Eh, Eg, Ev. apply mkSpec_eq; [done|apply dom_delete_L|].
  cbn [sp_requests]. apply deref_filter. by apply RemoveGateway_requests.
Qed.

Lemma sim_RemoveInstance i s : wf s -> abs (RemoveInstance order i s) = sp_RemoveInstance i (abs s).
Proof using All.
  intros W. unfold RemoveInstance. destruct (removeInstance_frame order Ho i s W) as (Eh & Ev & Eg).
  unfold abs, sp_RemoveInstance. rewrite Eh, Eg, Ev. apply mkSpec_eq; [apply fmap_delete|done|].
  cbn [sp_requests]. apply deref_filter. by apply removeInstance_requests.
Qed.

Lemma sim_AddInstance inst s : wf s -> abs (AddInstance order inst s) = sp_AddInstance inst (abs s).
Proof using All.
  intros W. unfold AddInstance, sp_AddInstance. destruct (LLMInstance_Id inst) as [id inst'].
  cbn [abs sp_instances]. rewrite lookup_fmap. destruct (instanceViews s !! id) as [old|] eqn:Hi; cbn.
  - destruct (wf_id W Hi) as (_ & _ & ->). case_bool_decide; [|done].
    pose proof (sim_RemoveInstance id s W) as E. unfold RemoveInstance, sp_RemoveInstance, abs in E.
    injection E as E1 E2 E3. unfold abs, put_view. cbn. rewrite E2, E3. apply mkSpec_eq; [|done..].
    rewrite fmap_insert, E1. apply insert_delete_eq.
  - unfold abs, put_view. cbn. by rewrite fmap_insert.
Qed.

Lemma sim_AddGateway g s : abs (AddGateway g s) = sp_AddGateway g (abs s).
Proof using All.
  unfold AddGateway, sp_AddGateway. destruct (gatewayRequestSet s !! g) eqn:Hg; apply mkSpec_eq; try done; cbn.
  - assert (g ∈ dom (gatewayRequestSet s)) by (by apply elem_of_dom). set_solver.
  - apply dom_insert_L.
Qed.

Lemma fit_admissible st s : wf s ->
  0 <= rs_numTokens st /\ sp_tokens (rs_instanceId st) (abs s) + rs_numTokens st <= MaxInt64 ->
  tokens_fit s (rs_instanceId st) (rs_numTokens st).
Proof using All.
  intros W [H1 H2]. split; [done|]. intros iv Hi. by rewrite (view_tokens _ _ _ _ W Hi).
Qed.

Lemma release_admissible st s :
  admissible (ORelease st) (abs s) -> release_matches st s.
Proof using All. intros Ha l Hr. apply Ha. cbn. by rewrite lookup_fmap, Hr. Qed.

Lemma run_wf o s : wf s -> admissible o (abs s) -> wf (run order o s).1.
Proof using All.
  intros W Ha. destruct o; cbn -[admissible].
  - by apply wf_AddInstance.
  - by apply wf_removeInstance.
  - by apply wf_AddGateway.
  - by apply wf_RemoveGateway.
  - by apply wf_AllocateRequestState, fit_admissible.
  - by apply wf_UpdateRequestState, fit_admissible.
  - by apply wf_MarkPrefillComplete.
  - by apply wf_ReleaseRequestState, release_admissible.
Qed.

Lemma run_sim o s : wf s -> admissible o (abs s) ->
  sp_run o (abs s) = (abs (run order o s).1, (run order o s).2).
Proof using All.
  intros W Ha. destruct o; cbn -[admissible].
  - by rewrite sim_AddInstance.
  - by rewrite sim_RemoveInstance.
  - by rewrite sim_AddGateway.
  - by rewrite sim_RemoveGateway.
  - pose proof (sim_Allocate st s W). by destruct (AllocateRequestState st s).
  - pose proof (sim_Update st s W (fit_admissible st s W Ha)). by destruct (UpdateRequestState st s).
  - pose proof (sim_Mark st s W). by destruct (MarkPrefillComplete st s).
  - by rewrite sim_Release by auto using release_admissible.
Qed.

Lemma exec_sim os s : wf s -> admissible_trace os (abs s) ->
  wf (exec order os s).1 /\ sp_exec os (abs s) = (abs (exec order os s).1, (exec order os s).2).
Proof using All.
  revert s. induction os as [|o os IH]; intros s W; [done|]. intros [Ha Hos].
  pose proof (run_wf o s W Ha) as W'. pose proof (run_sim o s W Ha) as E.
  cbn. rewrite E in Hos |- *. destruct (run order o s) as [s' e]. cbn in *.
  destruct (IH s' W' Hos) as [W'' E']. rewrite E'. by destruct (exec order os s').
Qed.

End orders.

(** ** Theorems *)

(** A small run used by the witnesses: one neutral instance, one gateway, two
    requests of which one is updated and completes its prefill. *)
Definition demo_instance (id : string) (version : Z) : LLMInstance :=
  mkLLMInstance version id "m" InferTypeNeutral (mkEndpoint "10.0.0.1" 8000) "" 0 0 0.

Definition demo_request (r i : string) (n : Z) : RequestState := NewRequestState 0 r n i "gw".

Definition demo_trace : list op :=
  [ OAddInstance (demo_instance "a" 1); OAddInstance (demo_instance "b" 1); OAddGateway "gw";
    OAllocate (demo_request "r1" "a" 10); OAllocate (demo_request "r2" "a" 7);
    OAllocate (demo_request "r1" "b" 3); OUpdate (demo_request "r1" "a" 25);
    OMark (demo_request "r2" "a" 0); ORelease (demo_request "r2" "a" 0) ].

Lemma elements_visits_once : visits_once elements.
Proof. intros s. reflexivity. Qed.

Ltac solve_admissible :=
  repeat match goal with
  | |- admissible_trace _ _ => split
  | |- admissible (OAllocate _) _ => split; vm_compute; discriminate
  | |- admissible (OUpdate _) _ => split; vm_compute; discriminate
  | |- admissible (ORelease _) _ => let H := fresh in
      intros ? H; vm_compute in H; inv_some; vm_compute; split; reflexivity
  | |- admissible _ _ => exact I
  end.

(** C1. For every sequence of scheduler operations (registering and removing
    instances and gateways, allocating, updating, completing and releasing requests)
    in which token counts do not overflow and releases name the instance and gateway
    of their request, and whatever order Go visits its maps in, the linked tables
    stay consistent and behave exactly as one map from request ids to states: same
    contents and same error for every call. *)
Theorem lrs_refines (order : key_order) (os : list op) :
  visits_once order -> admissible_trace os sp_empty ->
  wf (exec order os NewLocalRealtimeState).1 /\
  sp_exec os sp_empty = (abs (exec order os NewLocalRealtimeState).1, (exec order os NewLocalRealtimeState).2).
Proof. intros Ho Ha. rewrite <- abs_empty in *. apply exec_sim; [done|apply wf_empty|done]. Qed.

Lemma lrs_refines_witness :
  admissible_trace demo_trace sp_empty /\
  (exec elements demo_trace NewLocalRealtimeState).2
    = [None; None; None; None; None; Some ErrorRequestExits; None; None; None] /\
  sp_exec demo_trace sp_empty =
    (abs (exec elements demo_trace NewLocalRealtimeState).1, (exec elements demo_trace NewLocalRealtimeState).2).
Proof.
  assert (admissible_trace demo_trace sp_empty) as Ha by solve_admissible.
  split; [exact Ha|]. split; [vm_compute; reflexivity|].
  apply (lrs_refines elements demo_trace); [exact elements_visits_once|exact Ha].
Defined.

Definition waiting (m : gmap string RequestState) : gmap string RequestState :=
  filter (fun kv => rs_prefillCompleted kv.2 = false) m.

Lemma map_sum_waiting (f : RequestState -> Z) (m : gmap string RequestState) :
  map_sum (fun st => if negb (rs_prefillCompleted st) then f st else 0) m = map_sum f (waiting m).
Proof.
  unfold waiting. induction m as [|k st m Hk IH] using map_ind; [done|].
  rewrite map_sum_insert, IH by done. destruct (rs_prefillCompleted st) eqn:E; cbn.
  - rewrite map_filter_insert_False by (cbn; congruence).
    by rewrite delete_id by done.
  - rewrite map_filter_insert_True by done. rewrite map_sum_insert; [done|].
    apply map_lookup_filter_None. by left.
Qed.

(** C3. After every sequence of scheduler operations in which token counts are not negative and do
    not overflow and each release names the instance and gateway of its request, the token, request,
    waiting-request and waiting-token counters of an instance's view are the sums and counts over
    the requests allocated to it; the request counts are taken as 64-bit integers. *)
Theorem lrs_counters (order : key_order) (os : list op) i iv :
  visits_once order -> admissible_trace os sp_empty ->
  let s := (exec order os NewLocalRealtimeState).1 in
  let reqs := on_instance i (sp_exec os sp_empty).1 in
  GetInstanceView i s = Some iv ->
  NumTokens iv = map_sum rs_numTokens reqs /\
  NumRequests iv = int64 (Z.of_nat (size reqs)) /\
  NumWaitingRequests (heap s) iv = int64 (Z.of_nat (size (waiting reqs))) /\
  NumWaitingTokens (heap s) iv = map_sum rs_numTokens (waiting reqs).
Proof.
  intros Ho Ha s reqs Hi. rewrite <- abs_empty in Ha.
  destruct (exec_sim order Ho os _ wf_empty Ha) as [W E]. fold s in W, E.
  unfold reqs. rewrite <- abs_empty, E. cbn [fst]. clear reqs.
  pose proof (view_tokens _ _ _ _ W Hi) as Ht. pose proof (view_on_instance _ _ _ _ W Hi) as Em.
  unfold NumTokens, NumRequests, NumWaitingRequests, NumWaitingTokens, sp_tokens in *.
  rewrite !(map_fold_int64 (fun l => negb (rs_prefillCompleted (deref (heap s) l)))).
  rewrite <- !map_sum_const_size, <- !map_sum_waiting, <- Em, !map_sum_fmap.
  split_and!; [by rewrite Ht, <- Em, map_sum_fmap|done|done|].
  destruct (wf_tokens W Hi) as [Hs Hmax]. apply int64_nonneg. split.
  - apply map_sum_nonneg. intros r l Hl. pose proof (wf_view_nonneg W _ _ _ _ Hi Hl).
    unfold tokens_at in *. case_match; lia.
  - etrans; [|exact Hmax]. rewrite Hs. apply map_sum_le. intros r l Hl.
    pose proof (wf_view_nonneg W _ _ _ _ Hi Hl). unfold tokens_at in *. case_match; lia.
Qed.

Lemma lrs_counters_witness :
  exists iv, GetInstanceView "a" (exec elements demo_trace NewLocalRealtimeState).1 = Some iv /\
    NumTokens iv = map_sum rs_numTokens (on_instance "a" (sp_exec demo_trace sp_empty).1) /\ NumTokens iv = 25.
Proof.
  eexists. split; [vm_compute; reflexivity|]. split; [|vm_compute; reflexivity].
  apply (lrs_counters elements demo_trace "a"); [exact elements_visits_once|solve_admissible|vm_compute; reflexivity].
Defined.

(** A gateway's late release of a request whose instance has been removed is
    ignored: it changes no table and no counter. *)
Theorem stale_release_ignored (order : key_order) (os : list op) i st l :
  visits_once order -> admissible_trace os sp_empty ->
  let s := (exec order os NewLocalRealtimeState).1 in
  requestStates s !! rs_reqId st = Some l -> rs_instanceId (deref (heap s) l) = i ->
  ReleaseRequestState st (RemoveInstance order i s) = RemoveInstance order i s.
Proof.
  intros Ho Ha s Hr Hi. rewrite <- abs_empty in Ha.
  destruct (exec_sim order Ho os _ wf_empty Ha) as [W _]. fold s in W.
  unfold ReleaseRequestState, RemoveInstance, requestExists.
  rewrite bool_decide_eq_false_2; [done|]. intros [l' Hl'].
  apply removeInstance_requests in Hl' as [H1 H2]; [|done..]. congruence.
Qed.

Lemma stale_release_ignored_witness :
  let s := (exec elements demo_trace NewLocalRealtimeState).1 in
  ReleaseRequestState (demo_request "r1" "a" 0) (RemoveInstance elements "a" s) = RemoveInstance elements "a" s.
Proof.
  eapply (stale_release_ignored elements demo_trace "a" (demo_request "r1" "a" 0));
    [exact elements_visits_once|solve_admissible|vm_compute; reflexivity..].
Defined.

(** The release does not check that it names the instance its request was
    allocated to: a release of [r1] (allocated to [a]) that names the live instance
    [b] deletes the request everywhere but in the view of [a], whose 10 tokens stay
    counted although the store has no request left, and no later release of [r1]
    can return them. *)
Theorem mismatched_release_leaks :
  let os := [ OAddInstance (demo_instance "a" 1); OAddInstance (demo_instance "b" 1); OAddGateway "gw";
              OAllocate (demo_request "r1" "a" 10); ORelease (demo_request "r1" "b" 10);
              ORelease (demo_request "r1" "a" 10) ] in
  let s := (exec elements os NewLocalRealtimeState).1 in
  requestStates s = ∅ /\ (NumTokens <$> GetInstanceView "a" s) = Some 10.
Proof. vm_compute. split; reflexivity. Qed.
