(* ===== verification/LrsClient.v ===== *)
(** * The per-role stores of the scheduler and the gateway's token tracker

    [pkg/lrs/lrs_client.go] keeps one [LocalRealtimeState] per infer type and sends
    each operation to the store of its type. Every write runs under the client's
    mutex, so operations are atomic steps; the model is one function per operation.

    [pkg/lrs/request_state_tracker.go] is the gateway's side: the per-request token
    counts that it reports to the scheduler. The tokenizer is a parameter. *)

From stdpp Require Import base gmap sets list strings numbers.
From S2P Require Import Prelude GoStrings Types Lrs LrsSpec.

Local Open Scope Z_scope.

(** ** The client *)

Record LocalRealtimeStateClient := mkClient {
  neutralState : LocalRealtimeState;
  prefillState : LocalRealtimeState;
  decodeState : LocalRealtimeState;
  multiModelSupport : bool
}.

Definition NewLocalRealtimeStateClient (multiModel : bool) : LocalRealtimeStateClient :=
  mkClient NewLocalRealtimeState NewLocalRealtimeState NewLocalRealtimeState multiModel.

Definition getLocalRealtimeState (inferType : InferType) (c : LocalRealtimeStateClient) : option LocalRealtimeState :=
  if decide (inferType = InferTypePrefill) then Some (prefillState c)
  else if decide (inferType = InferTypeDecode) then Some (decodeState c)
  else if decide (inferType = InferTypeNeutral) then Some (neutralState c)
  else None.

(** Writing back the store that [getLocalRealtimeState] returned a pointer to. *)
Definition setLocalRealtimeState (inferType : InferType) (s : LocalRealtimeState) (c : LocalRealtimeStateClient)
    : LocalRealtimeStateClient :=
  if decide (inferType = InferTypePrefill) then mkClient (neutralState c) s (decodeState c) (multiModelSupport c)
  else if decide (inferType = InferTypeDecode) then mkClient (neutralState c) (prefillState c) s (multiModelSupport c)
  else if decide (inferType = InferTypeNeutral) then mkClient s (prefillState c) (decodeState c) (multiModelSupport c)
  else c.

Definition client_AddInstance (order : key_order) (instance : LLMInstance) (c : LocalRealtimeStateClient)
    : LocalRealtimeStateClient :=
  if decide (InstInferType instance = InferTypeDecode)
  then mkClient (neutralState c) (prefillState c) (AddInstance order instance (decodeState c)) (multiModelSupport c)
  else if decide (InstInferType instance = InferTypePrefill)
  then mkClient (neutralState c) (AddInstance order instance (prefillState c)) (decodeState c) (multiModelSupport c)
  else mkClient (AddInstance order instance (neutralState c)) (prefillState c) (decodeState c) (multiModelSupport c).

Definition client_RemoveInstance (order : key_order) (inferType : InferType) (instanceId : string)
    (c : LocalRealtimeStateClient) : LocalRealtimeStateClient :=
  if decide (inferType = InferTypeDecode)
  then mkClient (neutralState c) (prefillState c) (RemoveInstance order instanceId (decodeState c)) (multiModelSupport c)
  else if decide (inferType = InferTypePrefill)
  then mkClient (neutralState c) (RemoveInstance order instanceId (prefillState c)) (decodeState c) (multiModelSupport c)
  else mkClient (RemoveInstance order instanceId (neutralState c)) (prefillState c) (decodeState c) (multiModelSupport c).

Definition client_AddGateway (gatewayId : string) (c : LocalRealtimeStateClient) : LocalRealtimeStateClient :=
  mkClient (AddGateway gatewayId (neutralState c)) (AddGateway gatewayId (prefillState c))
    (AddGateway gatewayId (decodeState c)) (multiModelSupport c).

Definition client_RemoveGateway (order : key_order) (gatewayId : string) (c : LocalRealtimeStateClient)
    : LocalRealtimeStateClient :=
  mkClient (RemoveGateway order gatewayId (neutralState c)) (RemoveGateway order gatewayId (prefillState c))
    (RemoveGateway order gatewayId (decodeState c)) (multiModelSupport c).

Definition client_AllocateRequestState (inferType : InferType) (request : RequestState) (c : LocalRealtimeStateClient)
    : LocalRealtimeStateClient * option error :=
  let inferType := if decide (inferType = "") then InferTypeNeutral else inferType in
  match getLocalRealtimeState inferType c with
  | None => (c, Some ErrorNoMatchInferType)
  | Some s => let '(s, err) := AllocateRequestState request s in (setLocalRealtimeState inferType s c, err)
  end.

Definition client_UpdateRequestState (inferType : InferType) (request : RequestState) (c : LocalRealtimeStateClient)
    : LocalRealtimeStateClient * option error :=
  match getLocalRealtimeState inferType c with
  | None => (c, Some ErrorNoMatchInferType)
  | Some s => let '(s, err) := UpdateRequestState request s in (setLocalRealtimeState inferType s c, err)
  end.

Definition client_MarkPrefillComplete (inferType : InferType) (request : RequestState) (c : LocalRealtimeStateClient)
    : LocalRealtimeStateClient * option error :=
  match getLocalRealtimeState inferType c with
  | None => (c, Some ErrorNoMatchInferType)
  | Some s => let '(s, err) := MarkPrefillComplete request s in (setLocalRealtimeState inferType s c, err)
  end.

Definition client_ReleaseRequestState (inferType : InferType) (request : RequestState) (c : LocalRealtimeStateClient)
    : LocalRealtimeStateClient :=
  match getLocalRealtimeState inferType c with
  | None => c
  | Some s => setLocalRealtimeState inferType (ReleaseRequestState request s) c
  end.

Definition GetGroupedInstanceViews (c : LocalRealtimeStateClient) : gmap string (gmap string InstanceView) :=
  fold_left (fun grouped inferType =>
    match getLocalRealtimeState inferType c with
    | Some s => if decide (size (instanceViews s) = 0%nat) then grouped
                else <[inferType := instanceViews s]> grouped
    | None => grouped
    end) [InferTypeNeutral; InferTypePrefill; InferTypeDecode] ∅.

Definition client_GetInstanceViews (inferType : InferType) (c : LocalRealtimeStateClient) : gmap string InstanceView :=
  match getLocalRealtimeState inferType c with
  | None => ∅
  | Some s => instanceViews s
  end.

Definition client_GetInstanceViewsByModel (model : string) (inferType : InferType) (c : LocalRealtimeStateClient)
    : gmap string InstanceView :=
  match getLocalRealtimeState inferType c with
  | None => ∅
  | Some s => if multiModelSupport c then GetInstanceViewsByModel model s else instanceViews s
  end.

Definition client_GetInstanceView (inferType : InferType) (instanceId : string) (c : LocalRealtimeStateClient)
    : option InstanceView :=
  s ← getLocalRealtimeState inferType c; GetInstanceView instanceId s.

(** ** The gateway's tracker *)

Record RequestTokenState := mkTokenState {
  ts_req : string;         (* rs.req.Id *)
  ts_reqModel : string;    (* rs.req.LLMRequest.Model *)
  ts_Model : string;
  ts_InferType : InferType;
  ts_InstanceId : string;
  ts_GatewayId : string;
  ts_numTokens : Z;
  ts_lastNumTokens : Z;
  ts_ResponseText : string
}.

Definition ts_with (n last : Z) (text : string) (rs : RequestTokenState) : RequestTokenState :=
  mkTokenState (ts_req rs) (ts_reqModel rs) (ts_Model rs) (ts_InferType rs) (ts_InstanceId rs) (ts_GatewayId rs) n last text.

(** [promptTokens] is [None] when the prompt holds no token ids. *)
Definition NewRequestTokenState (reqId reqModel : string) (promptTokens : option (list Z))
    (model : string) (inferType : InferType) (instanceId gatewayId : string) : option RequestTokenState :=
  match promptTokens with
  | None => None
  | Some toks => Some (mkTokenState reqId reqModel model inferType instanceId gatewayId 0 (uint64 (Z.of_nat (length toks))) "")
  end.

Definition UpdateNumTokens (num : Z) (rs : RequestTokenState) : RequestTokenState :=
  ts_with num (ts_lastNumTokens rs) (ts_ResponseText rs) rs.

Definition AppendResponseText (text : string) (rs : RequestTokenState) : RequestTokenState :=
  ts_with (ts_numTokens rs) (ts_lastNumTokens rs) (ts_ResponseText rs +:+ text) rs.

(** [tk] is [tokenizer.GetTokenizer]: [None] when no tokenizer is loaded, else the
    number of tokens that [Encode] returns for a text (zero when it fails). *)
Definition GetNumTokens (tk : option (string -> nat)) (rs : RequestTokenState) : Z * RequestTokenState :=
  let count := ts_numTokens rs in
  if bool_decide (count <> 0) then (count, rs)
  else
    let count :=
      match tk with
      | None => uint64 (Z.of_nat (String.length (ts_ResponseText rs)))
      | Some encode => uint64 (Z.of_nat (encode (ts_ResponseText rs)))
      end in
    let last := uint64 (ts_lastNumTokens rs + count) in
    (last, ts_with (ts_numTokens rs) last "" rs).

Abbreviation RequestStateTracker := (gmap string RequestTokenState) (only parsing).

Definition AddRequestState (rs : RequestTokenState) (r : RequestStateTracker) : RequestStateTracker :=
  match r !! ts_req rs with
  | Some _ => r
  | None => <[ts_req rs := rs]> r
  end.

Definition DeleteRequestState (id : string) (r : RequestStateTracker) : RequestStateTracker := delete id r.

Inductive Kind := KindStateUpdate | KindPrefillDone.

Record RequestReportData := mkReport {
  rd_Kind : Kind;
  rd_Id : string;
  rd_Model : string;
  rd_InferType : InferType;
  rd_InstanceId : string;
  rd_GatewayId : string;
  rd_NumTokens : Z
}.

(** [report] collects one update per tracked request, in the order [order] visits
    them, and leaves their counters advanced. *)
Definition report (order : key_order) (tk : option (string -> nat)) (r : RequestStateTracker)
    : list RequestReportData * RequestStateTracker :=
  fold_left (fun acc id =>
    let '(datas, r) := acc in
    match r !! id with
    | None => (datas, r)
    | Some rs =>
        let '(n, rs') := GetNumTokens tk rs in
        (datas ++ [mkReport KindStateUpdate (ts_req rs) (ts_reqModel rs) (ts_InferType rs) (ts_InstanceId rs) (ts_GatewayId rs) n],
         <[id := rs']> r)
    end) (order (dom r)) ([], r).

(** [ReportPrefillComplete] reports for neutral instances only. *)
Definition ReportPrefillComplete (reqId model gatewayId : string) (results : list LLMInstance) : list RequestReportData :=
  match GetInstanceByInferType results InferTypeNeutral with
  | None => []
  | Some instance => [mkReport KindPrefillDone reqId model InferTypeNeutral (LLMInstance_Id instance).1 gatewayId 0]
  end.

(** ** Lemmas *)

Definition client_wf (c : LocalRealtimeStateClient) : Prop :=
  wf (neutralState c) /\ wf (prefillState c) /\ wf (decodeState c).

Lemma get_set_same t s s' c :
  getLocalRealtimeState t c = Some s -> getLocalRealtimeState t (setLocalRealtimeState t s' c) = Some s'.
Proof. unfold getLocalRealtimeState, setLocalRealtimeState. by repeat case_decide. Qed.

Lemma get_set_other t t' s c :
  t <> t' -> getLocalRealtimeState t' (setLocalRealtimeState t s c) = getLocalRealtimeState t' c.
Proof. unfold getLocalRealtimeState, setLocalRealtimeState. intros. by repeat (case_decide; subst; try done). Qed.

Lemma client_wf_get t c s : client_wf c -> getLocalRealtimeState t c = Some s -> wf s.
Proof. unfold getLocalRealtimeState. intros (? & ? & ?) ?. repeat case_decide; by inv_some. Qed.

Lemma client_wf_set t c s : client_wf c -> wf s -> client_wf (setLocalRealtimeState t s c).
Proof. unfold setLocalRealtimeState. intros (? & ? & ?) ?. repeat case_decide; by split_and!. Qed.
#[export] Hint Resolve client_wf_get client_wf_set : go.

(** ** Theorems *)

(** The four request operations of the client as one function of the operation. *)
Inductive client_op := CAllocate | CUpdate | CMark | CRelease.

Definition client_run (k : client_op) (t : InferType) (st : RequestState) (c : LocalRealtimeStateClient)
    : LocalRealtimeStateClient * option error :=
  match k with
  | CAllocate => client_AllocateRequestState t st c
  | CUpdate => client_UpdateRequestState t st c
  | CMark => client_MarkPrefillComplete t st c
  | CRelease => (client_ReleaseRequestState t st c, None)
  end.

Definition store_op (k : client_op) (st : RequestState) : op :=
  match k with CAllocate => OAllocate st | CUpdate => OUpdate st | CMark => OMark st | CRelease => ORelease st end.

Definition role (k : client_op) (t : InferType) : InferType :=
  match k with CAllocate => if decide (t = "") then InferTypeNeutral else t | _ => t end.

Lemma client_run_spec k t st c :
  client_run k t st c =
  match getLocalRealtimeState (role k t) c with
  | None => (c, match k with CRelease => None | _ => Some ErrorNoMatchInferType end)
  | Some s => (setLocalRealtimeState (role k t) (run elements (store_op k st) s).1 c, (run elements (store_op k st) s).2)
  end.
Proof.
  destruct k; cbn; unfold client_AllocateRequestState, client_UpdateRequestState,
    client_MarkPrefillComplete, client_ReleaseRequestState; repeat case_match; done.
Qed.

(** A request operation of the client acts on the store of its infer type exactly
    as the store operation does (an empty type means neutral for an allocation),
    leaves the stores of the other types untouched, and rejects every other type
    without changing anything. *)
Theorem client_dispatch k t st c :
  match getLocalRealtimeState (role k t) c with
  | Some s =>
      getLocalRealtimeState (role k t) (client_run k t st c).1 = Some (run elements (store_op k st) s).1 /\
      (client_run k t st c).2 = (run elements (store_op k st) s).2 /\
      forall t', t' <> role k t -> getLocalRealtimeState t' (client_run k t st c).1 = getLocalRealtimeState t' c
  | None => (client_run k t st c).1 = c /\
            (k <> CRelease -> (client_run k t st c).2 = Some ErrorNoMatchInferType)
  end.
Proof.
  rewrite client_run_spec. destruct (getLocalRealtimeState (role k t) c) as [s|] eqn:E; cbn.
  - split; [by eapply get_set_same|]. split; [done|]. intros t' Ht. by apply get_set_other.
  - split; [done|]. by destruct k.
Qed.

(** Gateway-side events of one request whose engine reports no usage. *)
Inductive event := EText (text : string) | EReport.

Definition step_event (rs : RequestTokenState) (e : event) : RequestTokenState :=
  match e with
  | EText text => AppendResponseText text rs
  | EReport => (GetNumTokens None rs).2
  end.

Definition event_bytes (e : event) : Z := match e with EText text => Z.of_nat (String.length text) | EReport => 0 end.

Definition pending (rs : RequestTokenState) : Z :=
  ts_lastNumTokens rs + Z.of_nat (String.length (ts_ResponseText rs)).

Lemma uint64_mod z : uint64 (uint64 z) = uint64 z.
Proof. unfold uint64. apply Z.mod_mod. lia. Qed.

Lemma uint64_add a b : uint64 (a + uint64 b) = uint64 (a + b).
Proof. unfold uint64. apply Zplus_mod_idemp_r. Qed.

Lemma uint64_add_l a b : uint64 (uint64 a + b) = uint64 (a + b).
Proof. unfold uint64. apply Zplus_mod_idemp_l. Qed.

Lemma GetNumTokens_bytes rs : ts_numTokens rs = 0 -> (GetNumTokens None rs).1 = uint64 (pending rs).
Proof. intros H0. unfold GetNumTokens. rewrite H0. cbn. by rewrite uint64_add. Qed.

Lemma step_event_pending rs e : ts_numTokens rs = 0 ->
  ts_numTokens (step_event rs e) = 0 /\ uint64 (pending (step_event rs e)) = uint64 (pending rs + event_bytes e).
Proof.
  intros H0. destruct e as [text|]; cbn [step_event event_bytes].
  - split; [done|]. unfold pending. cbn. rewrite slength_app. f_equal. lia.
  - unfold GetNumTokens. rewrite H0, bool_decide_eq_false_2 by lia. cbn. split; [done|]. unfold pending. cbn.
    by rewrite !Z.add_0_r, uint64_add, uint64_mod.
Qed.

Definition total_bytes (es : list event) : Z := foldr (fun e n => event_bytes e + n) 0 es.

Lemma events_pending es rs : ts_numTokens rs = 0 ->
  ts_numTokens (fold_left step_event es rs) = 0 /\
  uint64 (pending (fold_left step_event es rs)) = uint64 (pending rs + total_bytes es).
Proof.
  revert rs. induction es as [|e es IH]; intros rs H0; cbn; [by rewrite Z.add_0_r|].
  destruct (step_event_pending rs e H0) as [H1 H2]. destruct (IH _ H1) as [H3 H4]. split; [done|].
  rewrite H4, <- uint64_add_l, H2, uint64_add_l. fold (total_bytes es). f_equal. lia.
Qed.

(** Without a tokenizer, and however the appended response texts and the periodic
    reports of a request interleave, the next report carries the number of prompt
    tokens plus the bytes of all the text received so far: no text is counted twice
    and none is lost, although each report empties the text buffer. *)
Theorem tracker_reports_total reqId reqModel toks model t i g rs es :
  NewRequestTokenState reqId reqModel (Some toks) model t i g = Some rs ->
  (GetNumTokens None (fold_left step_event es rs)).1 = uint64 (Z.of_nat (length toks) + total_bytes es).
Proof.
  intros [= <-]. set (rs := mkTokenState _ _ _ _ _ _ _ _ _).
  destruct (events_pending es rs eq_refl) as [H0 H1]. rewrite GetNumTokens_bytes, H1 by done.
  unfold pending. cbn. by rewrite Z.add_0_r, uint64_add_l.
Qed.

Lemma tracker_reports_total_witness :
  exists rs, NewRequestTokenState "r" "m" (Some [1; 2; 3]) "m" "neutral" "i" "g" = Some rs /\
    (GetNumTokens None (fold_left step_event [EText "ab"; EReport; EReport; EText "cde"] rs)).1
      = uint64 (3 + total_bytes [EText "ab"; EReport; EReport; EText "cde"]) /\
    uint64 (3 + total_bytes [EText "ab"; EReport; EReport; EText "cde"]) = 8.
Proof.
  eexists. split; [reflexivity|]. split; [|reflexivity].
  apply (tracker_reports_total "r" "m" [1; 2; 3] "m" "neutral" "i" "g"). reflexivity.
Defined.
