(* ===== verification/CmsTypes.v ===== *)
(** * The data of the cluster metadata store

    The protobuf messages of [pkg/cms/proto/cms.proto] and the [InstanceView] of
    [pkg/cms/cms_read_client.go]: what the scheduler knows about an instance, its
    last reported status and the local account of the requests dispatched to it since. *)

From stdpp Require Import base gmap strings numbers.
From S2P Require Import Prelude GoFloat Types.

Record InstanceMetadata := mkMetadata {
  md_InstanceId : string;
  md_InstanceType : string;
  md_BackendType : string;
  md_Ip : string;
  md_IpKvs : string;
  md_ApiServerPort : Z;
  md_LlumletPort : Z;
  md_KvtPort : Z;
  md_NodeId : string;
  md_DataParallelSize : Z;
  md_TensorParallelSize : Z;
  md_UnitId : string;
  md_DpRank : Z;
  md_EpRank : Z;
  md_DpLocalRank : Z;
  md_UtcCreate : float;
  md_UtcUpdate : float;
  md_IpKvt : string;
  md_BlockSize : Z;
  md_MaxNumBatchedTokens : Z
}.

Record InstanceStatus := mkStatus {
  InstanceId : string;
  Schedulable : bool;
  TimestampMs : Z;
  StepId : Z;
  UpdateId : Z;
  RecentWaitingRequests : list string;
  WaitingRequests : list string;
  HybridSchedulerWaitingToDecodeRequestsNum : Z;
  SchedulerWaitingToDecodeRequestsNum : Z;
  NumWaitingRequestsStatus : Z;
  SchedulerRunningToDecodeRequestsNum : Z;
  NumRunningRequests : Z;
  NumLoadingRequests : Z;
  NumTotalGpuTokens : Z;
  NumUsedGpuTokens : Z;
  NumUncomputedTokensHybridSchedulerWaitingPrefills : Z;
  NumUnallocatedTokensHybridSchedulerWaitingDecodes : Z;
  HybridSchedulerWaitingToDecodeTokensNum : Z;
  NumUncomputedTokensSchedulerWaitingPrefills : Z;
  SchedulerWaitingToDecodeTokensNum : Z;
  NumUncomputedTokensSchedulerRunningPrefills : Z;
  NumUnallocatedTokensSchedulerRunningPrefills : Z;
  SchedulerRunningToDecodeTokensNum : Z;
  NumTokensLoadingRequests : Z;
  NumUncomputedTokensAllWaitingPrefills : Z;
  NumMigrateInReqs : Z;
  NumMigrateOutReqs : Z;
  NumAvailableMigrateInSlots : Z;
  NumAvailableMigrateOutSlots : Z;
  NumMigrateInTokens : Z;
  NumMigrateOutTokens : Z;
  NumAvailableMigrateInTokens : Z;
  NumAvailableMigrateOutTokens : Z;
  KvCacheUsageRatioMigrateIn : float;
  KvCacheUsageRatioMigrateOut : float;
  AvailableKvCacheUsageRatioMigrateIn : float;
  AvailableKvCacheUsageRatioMigrateOut : float;
  ProfilingId : Z;
  StepDuration : float;
  NumScheduledPrefillTokens : Z
}.

(** ** pkg/cms/instance_status_local_account.go: the data *)

Record RequestLocalAccount := mkAccount {
  ra_ScheduleTimestampMs : Z;
  ra_InferType : InferType;
  ra_NumTokens : Z;
  ra_NumUncomputedTokens : Z;
  ra_FoundInCMS : bool
}.

Record InstanceStatusLocalAccount := mkLocalAccount {
  la_RequestLocalAccount : gmap string RequestLocalAccount;
  NumInflightDispatchPrefillRequests : Z;
  NumInflightDispatchDecodeRequests : Z;
  NumInflightDispatchRequests : Z;
  NumUncomputedTokensInflightDispatchPrefillRequests : Z;
  NumTokensInflightDispatchDecodeRequests : Z
}.

(** ** pkg/cms/cms_read_client.go: the view of an instance *)

Record CmsInstanceView := mkCmsView {
  cv_Instance : LLMInstance;
  cv_Status : InstanceStatus;
  cv_Metadata : InstanceMetadata;
  cv_LocalAccount : InstanceStatusLocalAccount;
  cv_ReservedInferType : InferType
}.

Definition cv_GetInstanceId (iv : CmsInstanceView) : string := md_InstanceId (cv_Metadata iv).
Definition cv_GetInferType (iv : CmsInstanceView) : InferType := InstInferType (cv_Instance iv).

Definition with_account (la : InstanceStatusLocalAccount) (iv : CmsInstanceView) : CmsInstanceView :=
  mkCmsView (cv_Instance iv) (cv_Status iv) (cv_Metadata iv) la (cv_ReservedInferType iv).

Definition with_status (st : InstanceStatus) (iv : CmsInstanceView) : CmsInstanceView :=
  mkCmsView (cv_Instance iv) st (cv_Metadata iv) (cv_LocalAccount iv) (cv_ReservedInferType iv).

Definition with_reserved (t : InferType) (iv : CmsInstanceView) : CmsInstanceView :=
  mkCmsView (cv_Instance iv) (cv_Status iv) (cv_Metadata iv) (cv_LocalAccount iv) t.

(** The zero values of the messages. *)
Definition zero_Metadata : InstanceMetadata :=
  mkMetadata "" "" "" "" "" 0 0 0 "" 0 0 "" 0 0 0 f_zero f_zero "" 0 0.

Definition zero_Status : InstanceStatus :=
  mkStatus "" false 0 0 0 [] [] 0 0 0 0 0 0 0 0 0 0 0 0 0 0 0 0 0 0 0 0 0 0 0 0 0 0
    f_zero f_zero f_zero f_zero 0 f_zero 0.

Definition zero_LocalAccount : InstanceStatusLocalAccount := mkLocalAccount ∅ 0 0 0 0 0.

(** Field updates of the status message that the scheduler performs. *)
Definition status_set_waiting_prefills (n : Z) (s : InstanceStatus) : InstanceStatus :=
  mkStatus (InstanceId s) (Schedulable s) (TimestampMs s) (StepId s) (UpdateId s)
    (RecentWaitingRequests s) (WaitingRequests s) (HybridSchedulerWaitingToDecodeRequestsNum s)
    (SchedulerWaitingToDecodeRequestsNum s) (NumWaitingRequestsStatus s) (SchedulerRunningToDecodeRequestsNum s)
    (NumRunningRequests s) (NumLoadingRequests s) (NumTotalGpuTokens s) (NumUsedGpuTokens s)
    (NumUncomputedTokensHybridSchedulerWaitingPrefills s) (NumUnallocatedTokensHybridSchedulerWaitingDecodes s)
    (HybridSchedulerWaitingToDecodeTokensNum s) (NumUncomputedTokensSchedulerWaitingPrefills s)
    (SchedulerWaitingToDecodeTokensNum s) (NumUncomputedTokensSchedulerRunningPrefills s)
    (NumUnallocatedTokensSchedulerRunningPrefills s) (SchedulerRunningToDecodeTokensNum s)
    (NumTokensLoadingRequests s) n (NumMigrateInReqs s) (NumMigrateOutReqs s)
    (NumAvailableMigrateInSlots s) (NumAvailableMigrateOutSlots s) (NumMigrateInTokens s)
    (NumMigrateOutTokens s) (NumAvailableMigrateInTokens s) (NumAvailableMigrateOutTokens s)
    (KvCacheUsageRatioMigrateIn s) (KvCacheUsageRatioMigrateOut s) (AvailableKvCacheUsageRatioMigrateIn s)
    (AvailableKvCacheUsageRatioMigrateOut s) (ProfilingId s) (StepDuration s) (NumScheduledPrefillTokens s).

Definition status_set_liveness (sched : bool) (ts : Z) (s : InstanceStatus) : InstanceStatus :=
  mkStatus (InstanceId s) sched ts (StepId s) (UpdateId s)
    (RecentWaitingRequests s) (WaitingRequests s) (HybridSchedulerWaitingToDecodeRequestsNum s)
    (SchedulerWaitingToDecodeRequestsNum s) (NumWaitingRequestsStatus s) (SchedulerRunningToDecodeRequestsNum s)
    (NumRunningRequests s) (NumLoadingRequests s) (NumTotalGpuTokens s) (NumUsedGpuTokens s)
    (NumUncomputedTokensHybridSchedulerWaitingPrefills s) (NumUnallocatedTokensHybridSchedulerWaitingDecodes s)
    (HybridSchedulerWaitingToDecodeTokensNum s) (NumUncomputedTokensSchedulerWaitingPrefills s)
    (SchedulerWaitingToDecodeTokensNum s) (NumUncomputedTokensSchedulerRunningPrefills s)
    (NumUnallocatedTokensSchedulerRunningPrefills s) (SchedulerRunningToDecodeTokensNum s)
    (NumTokensLoadingRequests s) (NumUncomputedTokensAllWaitingPrefills s) (NumMigrateInReqs s) (NumMigrateOutReqs s)
    (NumAvailableMigrateInSlots s) (NumAvailableMigrateOutSlots s) (NumMigrateInTokens s)
    (NumMigrateOutTokens s) (NumAvailableMigrateInTokens s) (NumAvailableMigrateOutTokens s)
    (KvCacheUsageRatioMigrateIn s) (KvCacheUsageRatioMigrateOut s) (AvailableKvCacheUsageRatioMigrateIn s)
    (AvailableKvCacheUsageRatioMigrateOut s) (ProfilingId s) (StepDuration s) (NumScheduledPrefillTokens s).
