(* ===== verification/LocalAccount.v ===== *)
(** * The local account of dispatched requests

    [pkg/cms/instance_status_local_account.go]. Between two status reports of an
    instance the scheduler counts the requests that it has dispatched and that the
    instance has not reported yet. The editor adds an account per dispatched
    request, takes its counts back when the request shows up in a report, when it is
    stale, or when the gateway releases it, and keeps an index from requests to
    instances. Counters are [int32] and wrap. *)

From Stdlib Require Import Ascii.
From stdpp Require Import base gmap sets list strings numbers.
From S2P Require Import Prelude GoStrings Types CmsTypes.

Local Open Scope Z_scope.

(** ** Request ids as the engines report them *)

Definition trimSuffix (requestID : string) : string :=
  if Contains requestID "+"
  then match Split requestID "+" with p :: _ => p | [] => "" end
  else match LastIndex requestID "-" with
       | Some idx => stake idx requestID
       | None => requestID
       end.

Definition trimRequestID (requestID : string) : string :=
  if HasPrefix requestID "cmpl-" then trimSuffix (TrimPrefix requestID "cmpl-")
  else if HasPrefix requestID "chatcmpl-" then trimSuffix (TrimPrefix requestID "chatcmpl-")
  else trimSuffix requestID.

Definition trimRequestIDsToSets (rawRequestIDs : list string) : gset string :=
  fold_left (fun result reqID => {[trimRequestID reqID]} ∪ result) rawRequestIDs ∅.

Definition trimRequestIDsToList (rawRequestIDs : list string) : list string :=
  fold_left (fun result reqID => result ++ [trimRequestID reqID]) rawRequestIDs [].

(** ** The editor *)

Record InstanceStatusLocalAccountEditor := mkEditor {
  stalenessSeconds : Z;
  enableCacheAwareScheduling : bool;
  requestToInstanceIds : gmap string (list string)
}.

Definition newInstanceStatusLocalAccountEditor (staleness : Z) (cacheAware : bool) : InstanceStatusLocalAccountEditor :=
  mkEditor staleness cacheAware ∅.

Definition with_index (m : gmap string (list string)) (e : InstanceStatusLocalAccountEditor) :=
  mkEditor (stalenessSeconds e) (enableCacheAwareScheduling e) m.

(** Go's [append(ids[:i], ids[i+1:]...)] for the first [i] that holds [id]. *)
Fixpoint remove_first (id : string) (ids : list string) : list string :=
  match ids with
  | [] => []
  | x :: ids => if decide (x = id) then ids else x :: remove_first id ids
  end.

Definition removeInstanceFromRequestIndex (reqID instanceID : string) (e : InstanceStatusLocalAccountEditor)
    : InstanceStatusLocalAccountEditor :=
  let ids := default [] (requestToInstanceIds e !! reqID) in
  let ids' := remove_first instanceID ids in
  if decide (ids' = []) then with_index (delete reqID (requestToInstanceIds e)) e
  else with_index (<[reqID := ids']> (requestToInstanceIds e)) e.

Definition is_prefill (t : InferType) : bool := bool_decide (t = InferTypePrefill) || bool_decide (t = InferTypeNeutral).
Definition is_decode (t : InferType) : bool := bool_decide (t = InferTypeDecode) || bool_decide (t = InferTypeNeutral).

(** The counter updates of [deleteRequestLocalAccount]. *)
Definition uncount (a : RequestLocalAccount) (la : InstanceStatusLocalAccount) : InstanceStatusLocalAccount :=
  let la := if is_prefill (ra_InferType a)
    then mkLocalAccount (la_RequestLocalAccount la)
           (int32 (NumInflightDispatchPrefillRequests la - 1))
           (NumInflightDispatchDecodeRequests la) (NumInflightDispatchRequests la)
           (int32 (NumUncomputedTokensInflightDispatchPrefillRequests la - ra_NumUncomputedTokens a))
           (NumTokensInflightDispatchDecodeRequests la)
    else la in
  let la := if is_decode (ra_InferType a)
    then mkLocalAccount (la_RequestLocalAccount la)
           (NumInflightDispatchPrefillRequests la)
           (int32 (NumInflightDispatchDecodeRequests la - 1)) (NumInflightDispatchRequests la)
           (NumUncomputedTokensInflightDispatchPrefillRequests la)
           (int32 (NumTokensInflightDispatchDecodeRequests la - ra_NumTokens a))
    else la in
  mkLocalAccount (la_RequestLocalAccount la)
    (NumInflightDispatchPrefillRequests la) (NumInflightDispatchDecodeRequests la)
    (int32 (NumInflightDispatchRequests la - 1))
    (NumUncomputedTokensInflightDispatchPrefillRequests la) (NumTokensInflightDispatchDecodeRequests la).

Definition with_accounts (m : gmap string RequestLocalAccount) (la : InstanceStatusLocalAccount) : InstanceStatusLocalAccount :=
  mkLocalAccount m (NumInflightDispatchPrefillRequests la) (NumInflightDispatchDecodeRequests la)
    (NumInflightDispatchRequests la) (NumUncomputedTokensInflightDispatchPrefillRequests la)
    (NumTokensInflightDispatchDecodeRequests la).

(** The part of [deleteRequestLocalAccount] that works on one instance's account. *)
Definition deleteRequestLocalAccount (instanceID reqID : string) (deleteRequest : bool)
    (la : InstanceStatusLocalAccount) (e : InstanceStatusLocalAccountEditor)
    : InstanceStatusLocalAccount * InstanceStatusLocalAccountEditor :=
  match la_RequestLocalAccount la !! reqID with
  | None => (la, e)
  | Some a =>
      let la := uncount a la in
      if deleteRequest
      then (with_accounts (delete reqID (la_RequestLocalAccount la)) la,
            removeInstanceFromRequestIndex reqID instanceID e)
      else (la, e)
  end.

(** The body of the loop of [updateInstanceStatusLocalAccount] for one request;
    [now] is the clock read for that request, in milliseconds. *)
Definition set_found (a : RequestLocalAccount) : RequestLocalAccount :=
  mkAccount (ra_ScheduleTimestampMs a) (ra_InferType a) (ra_NumTokens a) (ra_NumUncomputedTokens a) true.

Definition settle_request (now : Z) (recentWaiting waiting : gset string) (instanceID reqID : string)
    (la : InstanceStatusLocalAccount) (e : InstanceStatusLocalAccountEditor)
    : InstanceStatusLocalAccount * InstanceStatusLocalAccountEditor :=
  match la_RequestLocalAccount la !! reqID with
  | None => (la, e)
  | Some a =>
      let '(a, la, e) :=
        if negb (ra_FoundInCMS a) && bool_decide (reqID ∈ recentWaiting)
        then let a := set_found a in
             let la := with_accounts (<[reqID := a]> (la_RequestLocalAccount la)) la in
             let '(la, e) := deleteRequestLocalAccount instanceID reqID false la e in (a, la, e)
        else (a, la, e) in
      let '(la, e) :=
        if ra_FoundInCMS a && bool_decide (reqID ∉ waiting)
        then (with_accounts (delete reqID (la_RequestLocalAccount la)) la,
              removeInstanceFromRequestIndex reqID instanceID e)
        else (la, e) in
      if negb (ra_FoundInCMS a) && bool_decide (reqID ∉ waiting) &&
         bool_decide (int64 (now - ra_ScheduleTimestampMs a) ÷ 1000 >= stalenessSeconds e)
      then deleteRequestLocalAccount instanceID reqID true la e
      else (la, e)
  end.

Definition updateInstanceStatusLocalAccount (order : key_order) (now : string -> Z) (instanceID : string)
    (iv : CmsInstanceView) (e : InstanceStatusLocalAccountEditor)
    : CmsInstanceView * InstanceStatusLocalAccountEditor :=
  let recentWaitingReqs := trimRequestIDsToSets (RecentWaitingRequests (cv_Status iv)) in
  let waitingReqs := trimRequestIDsToSets (WaitingRequests (cv_Status iv)) in
  let '(la, e) :=
    fold_left (fun acc reqID =>
      settle_request (now reqID) recentWaitingReqs waitingReqs instanceID reqID acc.1 acc.2)
      (order (dom (la_RequestLocalAccount (cv_LocalAccount iv)))) (cv_LocalAccount iv, e) in
  let iv := with_account la iv in
  let waitingReqList := trimRequestIDsToList (WaitingRequests (cv_Status iv)) in
  if enableCacheAwareScheduling e && bool_decide (waitingReqList <> [])
  then
    let n := fold_left (fun n reqID =>
      match la_RequestLocalAccount la !! reqID with
      | Some a => int32 (n + ra_NumUncomputedTokens a)
      | None => n
      end) waitingReqList 0 in
    (with_status (status_set_waiting_prefills n (cv_Status iv)) iv, e)
  else (iv, e).

(** The counter updates of [addRequestLocalAccount] for one stage or both. *)
Definition count (inferType : InferType) (numTokens numUncomputedTokens : Z) (la : InstanceStatusLocalAccount)
    : InstanceStatusLocalAccount :=
  let la := if is_prefill inferType
    then mkLocalAccount (la_RequestLocalAccount la)
           (int32 (NumInflightDispatchPrefillRequests la + 1))
           (NumInflightDispatchDecodeRequests la) (NumInflightDispatchRequests la)
           (int32 (NumUncomputedTokensInflightDispatchPrefillRequests la + numUncomputedTokens))
           (NumTokensInflightDispatchDecodeRequests la)
    else la in
  if is_decode inferType
  then mkLocalAccount (la_RequestLocalAccount la)
         (NumInflightDispatchPrefillRequests la)
         (int32 (NumInflightDispatchDecodeRequests la + 1)) (NumInflightDispatchRequests la)
         (NumUncomputedTokensInflightDispatchPrefillRequests la)
         (int32 (NumTokensInflightDispatchDecodeRequests la + numTokens))
  else la.

Definition count_request (la : InstanceStatusLocalAccount) : InstanceStatusLocalAccount :=
  mkLocalAccount (la_RequestLocalAccount la)
    (NumInflightDispatchPrefillRequests la) (NumInflightDispatchDecodeRequests la)
    (int32 (NumInflightDispatchRequests la + 1))
    (NumUncomputedTokensInflightDispatchPrefillRequests la) (NumTokensInflightDispatchDecodeRequests la).

Definition set_neutral (a : RequestLocalAccount) : RequestLocalAccount :=
  mkAccount (ra_ScheduleTimestampMs a) InferTypeNeutral (ra_NumTokens a) (ra_NumUncomputedTokens a) (ra_FoundInCMS a).

Definition addRequestLocalAccount (now : Z) (inferType : InferType) (numTokens prefixHitNumTokens : Z)
    (requestId : string) (iv : CmsInstanceView) (e : InstanceStatusLocalAccountEditor)
    : CmsInstanceView * InstanceStatusLocalAccountEditor :=
  let numUncomputedTokens :=
    if enableCacheAwareScheduling e then int32 (numTokens - prefixHitNumTokens) else numTokens in
  let la := cv_LocalAccount iv in
  match la_RequestLocalAccount la !! requestId with
  | Some existing =>
      if bool_decide (ra_InferType existing = inferType) || bool_decide (ra_InferType existing = InferTypeNeutral)
      then (iv, e)
      else
        let la := count inferType numTokens numUncomputedTokens la in
        (with_account (with_accounts (<[requestId := set_neutral existing]> (la_RequestLocalAccount la)) la) iv, e)
  | None =>
      let la := count_request la in
      let a := mkAccount now inferType numTokens numUncomputedTokens false in
      let la := with_accounts (<[requestId := a]> (la_RequestLocalAccount la)) la in
      let e := with_index (<[requestId := default [] (requestToInstanceIds e !! requestId) ++ [cv_GetInstanceId iv]]>
                             (requestToInstanceIds e)) e in
      (with_account (count inferType numTokens numUncomputedTokens la) iv, e)
  end.

Definition revertRequestPrefillLocalAccount (numTokens prefixHitNumTokens : Z) (requestId : string)
    (iv : CmsInstanceView) (e : InstanceStatusLocalAccountEditor)
    : CmsInstanceView * InstanceStatusLocalAccountEditor :=
  let numTokens := if enableCacheAwareScheduling e then int32 (numTokens - prefixHitNumTokens) else numTokens in
  let la := cv_LocalAccount iv in
  let la := mkLocalAccount (delete requestId (la_RequestLocalAccount la))
    (int32 (NumInflightDispatchPrefillRequests la - 1)) (NumInflightDispatchDecodeRequests la)
    (NumInflightDispatchRequests la)
    (int32 (NumUncomputedTokensInflightDispatchPrefillRequests la - numTokens))
    (NumTokensInflightDispatchDecodeRequests la) in
  (with_account la iv, with_index (delete requestId (requestToInstanceIds e)) e).

(** [removeRequestLocalAccount] ranges over the slice it read from the index while
    [removeInstanceFromRequestIndex] shifts the same backing array in place: the loop
    reads position [j] of the array as it is at that time. [arr] is the array, [k]
    the length of the slice in the index. *)
Definition shift_out (id : string) (arr : list string) (k : nat) : list string * nat :=
  if decide (id ∈ take k arr)
  then let short := remove_first id (take k arr) in
       (short ++ drop (length short) arr, (k - 1)%nat)
  else (arr, k).

Fixpoint remove_loop (requestId : string) (j n : nat) (arr : list string) (k : nat)
    (views : gmap string CmsInstanceView) (e : InstanceStatusLocalAccountEditor)
    : gmap string CmsInstanceView * InstanceStatusLocalAccountEditor :=
  match n with
  | O => (views, e)
  | S n =>
      let instanceId := default "" (arr !! j) in
      match views !! instanceId with
      | None =>
          let '(arr, k) := shift_out instanceId arr k in
          remove_loop requestId (S j) n arr k views (removeInstanceFromRequestIndex requestId instanceId e)
      | Some iv =>
          match la_RequestLocalAccount (cv_LocalAccount iv) !! requestId with
          | None => remove_loop requestId (S j) n arr k views e
          | Some _ =>
              let '(la, e) := deleteRequestLocalAccount instanceId requestId true (cv_LocalAccount iv) e in
              let '(arr, k) := shift_out instanceId arr k in
              remove_loop requestId (S j) n arr k (<[instanceId := with_account la iv]> views) e
          end
      end
  end.

Definition removeRequestLocalAccount (requestId : string) (views : gmap string CmsInstanceView)
    (e : InstanceStatusLocalAccountEditor) : gmap string CmsInstanceView * InstanceStatusLocalAccountEditor :=
  match requestToInstanceIds e !! requestId with
  | None => (views, e)
  | Some instanceIds => remove_loop requestId 0 (length instanceIds) instanceIds (length instanceIds) views e
  end.

Lemma is_prefill_prefill : is_prefill InferTypePrefill = true.
Proof. reflexivity. Qed.
Lemma is_prefill_decode : is_prefill InferTypeDecode = false.
Proof. reflexivity. Qed.
Lemma is_prefill_neutral : is_prefill InferTypeNeutral = true.
Proof. reflexivity. Qed.
Lemma is_decode_prefill : is_decode InferTypePrefill = false.
Proof. reflexivity. Qed.
Lemma is_decode_decode : is_decode InferTypeDecode = true.
Proof. reflexivity. Qed.
Lemma is_decode_neutral : is_decode InferTypeNeutral = true.
Proof. reflexivity. Qed.

Create Rewrite HintDb go_role.
#[export] Hint Rewrite is_prefill_prefill is_prefill_decode is_prefill_neutral
  is_decode_prefill is_decode_decode is_decode_neutral : go_role.

Arguments uncount : simpl never.
Arguments count : simpl never.

(** ** The counters are sums over the accounts not yet reported *)

(** What one account contributes to each counter. *)
Definition one_prefill (a : RequestLocalAccount) : Z := if is_prefill (ra_InferType a) then 1 else 0.
Definition one_decode (a : RequestLocalAccount) : Z := if is_decode (ra_InferType a) then 1 else 0.
Definition uncomputed_prefill (a : RequestLocalAccount) : Z :=
  if is_prefill (ra_InferType a) then ra_NumUncomputedTokens a else 0.
Definition tokens_decode (a : RequestLocalAccount) : Z :=
  if is_decode (ra_InferType a) then ra_NumTokens a else 0.

Definition unreported (f : RequestLocalAccount -> Z) (a : RequestLocalAccount) : Z :=
  if ra_FoundInCMS a then 0 else f a.

Definition inflight (f : RequestLocalAccount -> Z) (m : gmap string RequestLocalAccount) : Z :=
  map_sum (unreported f) m.

Record counted (m : gmap string RequestLocalAccount) (la : InstanceStatusLocalAccount) : Prop := mk_counted {
  ct_prefill : NumInflightDispatchPrefillRequests la = int32 (inflight one_prefill m);
  ct_decode : NumInflightDispatchDecodeRequests la = int32 (inflight one_decode m);
  ct_requests : NumInflightDispatchRequests la = int32 (inflight (fun _ => 1) m);
  ct_uncomputed : NumUncomputedTokensInflightDispatchPrefillRequests la = int32 (inflight uncomputed_prefill m);
  ct_tokens : NumTokensInflightDispatchDecodeRequests la = int32 (inflight tokens_decode m)
}.

Definition consistent (la : InstanceStatusLocalAccount) : Prop := counted (la_RequestLocalAccount la) la.

Lemma counted_with_accounts m m' la : counted m la -> counted m (with_accounts m' la).
Proof. intros []. by split. Qed.

Lemma counted_ext m m' la :
  (forall f, inflight f m = inflight f m') -> counted m la -> counted m' la.
Proof. intros E []. split; rewrite <- E; done. Qed.

Lemma inflight_delete f m r a :
  m !! r = Some a -> inflight f (delete r m) = inflight f m - unreported f a.
Proof. apply map_sum_delete. Qed.

Lemma inflight_delete_found f m r a :
  m !! r = Some a -> ra_FoundInCMS a = true -> inflight f (delete r m) = inflight f m.
Proof. intros Hr Hf. rewrite (inflight_delete f m r a Hr). unfold unreported. rewrite Hf. lia. Qed.

Lemma inflight_found f m r a :
  m !! r = Some a -> inflight f (<[r := set_found a]> m) = inflight f m - unreported f a.
Proof.
  intros Hr. unfold inflight. rewrite (map_sum_update _ _ _ a _ Hr). unfold unreported at 3. cbn. lia.
Qed.

(** Contributions do not depend on the mark that an account carries. *)
Definition markless (f : RequestLocalAccount -> Z) : Prop := forall a, f (set_found a) = f a.

Lemma markless_contributions :
  markless one_prefill /\ markless one_decode /\ markless (fun _ => 1) /\
  markless uncomputed_prefill /\ markless tokens_decode.
Proof. done. Qed.

(** Taking back the counts of an unreported account. *)
Lemma counted_uncount m m' la a :
  counted m la -> (forall f, markless f -> inflight f m' = inflight f m - f a) -> counted m' (uncount a la).
Proof.
  intros [H1 H2 H3 H4 H5] Hm. unfold uncount. split; rewrite Hm by apply markless_contributions;
    unfold one_prefill, one_decode, uncomputed_prefill, tokens_decode in *;
    destruct (is_prefill (ra_InferType a)), (is_decode (ra_InferType a)); cbn;
    rewrite ?H1, ?H2, ?H3, ?H4, ?H5; autorewrite with go_int; rewrite ?Z.sub_0_r; done.
Qed.

Lemma la_accounts_uncount a la : la_RequestLocalAccount (uncount a la) = la_RequestLocalAccount la.
Proof. unfold uncount. by destruct (is_prefill _), (is_decode _). Qed.

Lemma la_accounts_count t n u la : la_RequestLocalAccount (count t n u la) = la_RequestLocalAccount la.
Proof. unfold count. by destruct (is_prefill _), (is_decode _). Qed.

(** Adding the counts of the stages of [t]. *)
Lemma counted_count m m' la t n u :
  counted m la ->
  inflight one_prefill m' = inflight one_prefill m + (if is_prefill t then 1 else 0) ->
  inflight one_decode m' = inflight one_decode m + (if is_decode t then 1 else 0) ->
  inflight (fun _ => 1) m' = inflight (fun _ => 1) m ->
  inflight uncomputed_prefill m' = inflight uncomputed_prefill m + (if is_prefill t then u else 0) ->
  inflight tokens_decode m' = inflight tokens_decode m + (if is_decode t then n else 0) ->
  counted m' (count t n u la).
Proof.
  intros [H1 H2 H3 H4 H5] E1 E2 E3 E4 E5. unfold count.
  split; [rewrite E1|rewrite E2|rewrite E3|rewrite E4|rewrite E5];
    destruct (is_prefill t), (is_decode t); cbn; rewrite ?H1, ?H2, ?H3, ?H4, ?H5;
    autorewrite with go_int; rewrite ?Z.add_0_r; done.
Qed.

Lemma inflight_insert_new f m r a :
  m !! r = None -> inflight f (<[r := a]> m) = inflight f m + unreported f a.
Proof. intros Hr. unfold inflight. rewrite map_sum_insert by done. lia. Qed.

Lemma inflight_replace f m r a b :
  m !! r = Some a -> inflight f (<[r := b]> m) = inflight f m - unreported f a + unreported f b.
Proof. apply map_sum_update. Qed.

(** ** Every operation keeps the counters exact *)

Lemma deleteRequestLocalAccount_accounts i r la e :
  la_RequestLocalAccount (deleteRequestLocalAccount i r true la e).1 = delete r (la_RequestLocalAccount la).
Proof.
  unfold deleteRequestLocalAccount. destruct (la_RequestLocalAccount la !! r) eqn:Hr; cbn.
  - by rewrite la_accounts_uncount.
  - by rewrite delete_id.
Qed.

Lemma deleteRequestLocalAccount_consistent i r la e a :
  consistent la -> la_RequestLocalAccount la !! r = Some a -> ra_FoundInCMS a = false ->
  consistent (deleteRequestLocalAccount i r true la e).1.
Proof.
  intros C Hr Hf. unfold consistent. rewrite deleteRequestLocalAccount_accounts.
  unfold deleteRequestLocalAccount. rewrite Hr. cbn. rewrite la_accounts_uncount.
  apply counted_with_accounts, (counted_uncount _ _ _ _ C). intros f.
  rewrite (inflight_delete f _ r a Hr). unfold unreported. by rewrite Hf.
Qed.

Lemma settle_request_consistent now recent waiting i r la e :
  consistent la -> consistent (settle_request now recent waiting i r la e).1.
Proof.
  intros C. unfold settle_request. destruct (la_RequestLocalAccount la !! r) as [a|] eqn:Hr; [|done].
  destruct (ra_FoundInCMS a) eqn:Hf; cbn [negb andb].
  - rewrite Hf. cbn [negb andb]. destruct (bool_decide (r ∉ waiting)); [|exact C]. cbn.
    apply counted_with_accounts, (counted_ext (la_RequestLocalAccount la)); [|done].
    intros f. symmetry. by eapply inflight_delete_found.
  - destruct (bool_decide (r ∈ recent)); cbn [negb andb].
    + unfold deleteRequestLocalAccount. cbn [la_RequestLocalAccount with_accounts].
      rewrite lookup_insert_eq. cbn [negb andb set_found ra_FoundInCMS]. fold (set_found a).
      set (m := <[r := set_found a]> (la_RequestLocalAccount la)).
      assert (counted m (uncount (set_found a) (with_accounts m la))) as C'.
      { apply (counted_uncount (la_RequestLocalAccount la)); [by apply counted_with_accounts|]. intros f Hm.
        unfold m. rewrite (inflight_found f _ r a Hr), Hm. unfold unreported. by rewrite Hf. }
      destruct (bool_decide (r ∉ waiting)); cbn; unfold consistent; cbn; rewrite la_accounts_uncount; cbn.
      * apply counted_with_accounts, (counted_ext m); [|done]. intros f. symmetry.
        apply (inflight_delete_found f m r (set_found a)); [apply lookup_insert_eq|done].
      * exact C'.
    + rewrite Hf. cbn [negb andb]. destruct (bool_decide (r ∉ waiting)); [|exact C].
      destruct (bool_decide _); [|exact C]. cbn [andb]. by eapply deleteRequestLocalAccount_consistent.
Qed.

Lemma settle_loop_consistent now recent waiting i ids la e :
  consistent la ->
  consistent (fold_left (fun acc r => settle_request (now r) recent waiting i r acc.1 acc.2) ids (la, e)).1.
Proof.
  revert la e. induction ids as [|r ids IH]; intros la e C; [done|]. cbn [fold_left fst snd].
  pose proof (settle_request_consistent (now r) recent waiting i r la e C) as C'.
  destruct (settle_request _ _ _ _ _ _ _) as [la' e']. by apply IH.
Qed.

Lemma updateInstanceStatusLocalAccount_consistent order now i iv e :
  consistent (cv_LocalAccount iv) ->
  consistent (cv_LocalAccount (updateInstanceStatusLocalAccount order now i iv e).1).
Proof.
  intros C. unfold updateInstanceStatusLocalAccount.
  pose proof (settle_loop_consistent now (trimRequestIDsToSets (RecentWaitingRequests (cv_Status iv)))
    (trimRequestIDsToSets (WaitingRequests (cv_Status iv))) i
    (order (dom (la_RequestLocalAccount (cv_LocalAccount iv)))) (cv_LocalAccount iv) e C) as C'.
  destruct (fold_left _ _ _) as [la e']. by destruct (_ && _).
Qed.

(** A second dispatch of a request to an instance is the other stage of the same
    request, with the same token counts, before the instance has reported it. *)
Definition add_ok (e : InstanceStatusLocalAccountEditor) (iv : CmsInstanceView) (t : InferType) (n p : Z) (r : string) : Prop :=
  forall a, la_RequestLocalAccount (cv_LocalAccount iv) !! r = Some a ->
    ra_InferType a = t \/ ra_InferType a = InferTypeNeutral \/
    ra_FoundInCMS a = false /\ ra_NumTokens a = n /\
    ra_NumUncomputedTokens a = (if enableCacheAwareScheduling e then int32 (n - p) else n) /\
    (ra_InferType a = InferTypePrefill /\ t = InferTypeDecode \/
     ra_InferType a = InferTypeDecode /\ t = InferTypePrefill).

Lemma addRequestLocalAccount_consistent now t n p r iv e :
  add_ok e iv t n p r -> consistent (cv_LocalAccount iv) ->
  consistent (cv_LocalAccount (addRequestLocalAccount now t n p r iv e).1).
Proof.
  intros Hok C. unfold addRequestLocalAccount. set (u := if enableCacheAwareScheduling e then _ else _) in *.
  destruct (la_RequestLocalAccount (cv_LocalAccount iv) !! r) as [a|] eqn:Hr.
  - case_bool_decide as H1; [done|]. case_bool_decide as H2; [done|]. cbn.
    destruct (Hok a Hr) as [?|[?|(Hf & <- & Hu & Ht)]]; [done..|]. fold u in Hu. unfold consistent. cbn.
    rewrite la_accounts_count. apply counted_with_accounts, (counted_count _ _ _ _ _ _ C);
      rewrite (inflight_replace _ _ _ _ _ Hr); unfold unreported; cbn; rewrite Hf; try lia;
      unfold one_prefill, one_decode, uncomputed_prefill, tokens_decode, set_neutral; cbn;
      destruct Ht as [[-> ->]|[-> ->]]; autorewrite with go_role; lia.
  - cbn. unfold consistent. rewrite la_accounts_count. cbn.
    set (a := mkAccount now t n u false). set (m := la_RequestLocalAccount (cv_LocalAccount iv)) in *.
    assert (forall f, inflight f (<[r := a]> m) = inflight f m + f a) as E
      by (intros f; by rewrite inflight_insert_new by done).
    destruct C as [C1 C2 C3 C4 C5]. fold m in C1, C2, C3, C4, C5. unfold count.
    split; rewrite E; cbn [ra_InferType];
      [change (one_prefill a) with (if is_prefill t then 1 else 0)
      |change (one_decode a) with (if is_decode t then 1 else 0)
      |
      |change (uncomputed_prefill a) with (if is_prefill t then u else 0)
      |change (tokens_decode a) with (if is_decode t then n else 0)];
      destruct (is_prefill t), (is_decode t); cbn; rewrite ?C1, ?C2, ?C3, ?C4, ?C5;
      autorewrite with go_int; rewrite ?Z.add_0_r; done.
Qed.

(** No instance has reported the request yet. *)
Definition release_ok (r : string) (views : gmap string CmsInstanceView) : Prop :=
  forall i iv a, views !! i = Some iv -> la_RequestLocalAccount (cv_LocalAccount iv) !! r = Some a ->
    ra_FoundInCMS a = false.

Definition all_consistent (views : gmap string CmsInstanceView) : Prop :=
  forall i iv, views !! i = Some iv -> consistent (cv_LocalAccount iv).

Lemma all_consistent_insert views i iv :
  all_consistent views -> consistent (cv_LocalAccount iv) -> all_consistent (<[i := iv]> views).
Proof. intros A C j jv [[<- <-]|[_ Hj]]%lookup_insert_Some; [done|by eapply A]. Qed.
#[export] Hint Resolve all_consistent_insert : go.

Lemma remove_loop_consistent r j n arr k views e :
  all_consistent views -> release_ok r views ->
  all_consistent (remove_loop r j n arr k views e).1.
Proof.
  revert j arr k views e. induction n as [|n IH]; intros j arr k views e A Hok; [done|]. cbn [remove_loop].
  destruct (views !! default "" (arr !! j)) as [iv|] eqn:Hi; [|destruct (shift_out _ _ _); by apply IH].
  destruct (la_RequestLocalAccount (cv_LocalAccount iv) !! r) as [a|] eqn:Ha; [|by apply IH].
  pose proof (deleteRequestLocalAccount_consistent (default "" (arr !! j)) r _ e a (A _ _ Hi) Ha (Hok _ _ _ Hi Ha)) as C.
  pose proof (deleteRequestLocalAccount_accounts (default "" (arr !! j)) r (cv_LocalAccount iv) e) as E.
  destruct (deleteRequestLocalAccount _ _ _ _ _) as [la e']. destruct (shift_out _ _ _). apply IH.
  - by apply all_consistent_insert.
  - intros i' iv' a' [[_ <-]|[_ Hi']]%lookup_insert_Some Ha'; [|by eapply Hok].
    cbn in Ha', E. rewrite E, lookup_delete_eq in Ha'. done.
Qed.

Lemma removeRequestLocalAccount_consistent r views e :
  all_consistent views -> release_ok r views -> all_consistent (removeRequestLocalAccount r views e).1.
Proof.
  intros. unfold removeRequestLocalAccount. destruct (requestToInstanceIds e !! r); [|done].
  by apply remove_loop_consistent.
Qed.

(** ** The account as a state machine *)

Record account_state := mkAccountState {
  as_views : gmap string CmsInstanceView;
  as_editor : InstanceStatusLocalAccountEditor
}.

Inductive account_step : account_state -> account_state -> Prop :=
  | step_join views e i iv :
      views !! i = None -> cv_LocalAccount iv = zero_LocalAccount ->
      account_step (mkAccountState views e) (mkAccountState (<[i := iv]> views) e)
  | step_leave views e i :
      account_step (mkAccountState views e) (mkAccountState (delete i views) e)
  | step_dispatch views e i iv now t n p r iv' e' :
      views !! i = Some iv -> add_ok e iv t n p r ->
      addRequestLocalAccount now t n p r iv e = (iv', e') ->
      account_step (mkAccountState views e) (mkAccountState (<[i := iv']> views) e')
  | step_report views e i iv st order now iv' e' :
      views !! i = Some iv ->
      updateInstanceStatusLocalAccount order now i (with_status st iv) e = (iv', e') ->
      account_step (mkAccountState views e) (mkAccountState (<[i := iv']> views) e')
  | step_release views e r views' e' :
      release_ok r views -> removeRequestLocalAccount r views e = (views', e') ->
      account_step (mkAccountState views e) (mkAccountState views' e').

Lemma account_step_consistent s s' :
  account_step s s' -> all_consistent (as_views s) -> all_consistent (as_views s').
Proof.
  intros Hstep A. destruct Hstep as [views e i iv _ Hz|views e i|views e i iv now t n p r iv' e' Hi Hok E
    |views e i iv st order now iv' e' Hi E|views e r views' e' Hok E]; cbn in *.
  - apply all_consistent_insert; [done|]. rewrite Hz. by split; vm_compute.
  - intros j jv [_ Hj]%lookup_delete_Some. by eapply A.
  - apply all_consistent_insert; [done|]. replace iv' with (iv', e').1 by done. rewrite <- E.
    apply addRequestLocalAccount_consistent; [done|by eapply A].
  - apply all_consistent_insert; [done|]. replace iv' with (iv', e').1 by done. rewrite <- E.
    apply updateInstanceStatusLocalAccount_consistent. exact (A _ _ Hi).
  - replace views' with (views', e').1 by done. rewrite <- E.
    by apply removeRequestLocalAccount_consistent.
Qed.

Lemma account_steps_consistent s s' :
  rtc account_step s s' -> all_consistent (as_views s) -> all_consistent (as_views s').
Proof. induction 1; eauto using account_step_consistent. Qed.

(** ** Theorems *)

Definition demo_view (id : string) : CmsInstanceView :=
  mkCmsView (mkLLMInstance 0 id "m" InferTypePrefill (mkEndpoint "10.0.0.1" 8000) "" 0 0 0)
    zero_Status
    (mkMetadata id "prefill" "" "10.0.0.1" "" 8000 0 0 "" 0 0 "" 0 0 0 GoFloat.f_zero GoFloat.f_zero "" 0 0)
    zero_LocalAccount "".

Definition demo_editor : InstanceStatusLocalAccountEditor := newInstanceStatusLocalAccountEditor 10 true.

Definition demo_dispatched : CmsInstanceView * InstanceStatusLocalAccountEditor :=
  addRequestLocalAccount 0 InferTypePrefill 100 40 "r1" (demo_view "p") demo_editor.



(** The index entry of a request after the first of two ids has been removed. *)
Lemma index_remove r i ids e :
  requestToInstanceIds e !! r = Some ids ->
  requestToInstanceIds (removeInstanceFromRequestIndex r i e) !! r =
    (if decide (remove_first i ids = []) then None else Some (remove_first i ids)) /\
  forall r', r' <> r ->
    requestToInstanceIds (removeInstanceFromRequestIndex r i e) !! r' = requestToInstanceIds e !! r'.
Proof.
  intros Hr. unfold removeInstanceFromRequestIndex. rewrite Hr. cbn. case_decide; cbn; split.
  - apply lookup_delete_eq.
  - intros. by apply lookup_delete_ne.
  - apply lookup_insert_eq.
  - intros. by apply lookup_insert_ne.
Qed.

Definition has_account (r : string) (views : gmap string CmsInstanceView) (i : string) : Prop :=
  exists iv, views !! i = Some iv /\ is_Some (la_RequestLocalAccount (cv_LocalAccount iv) !! r).

(** One round of the release loop on the id at position [j]. *)
Lemma remove_round r j n arr k views e i ids :
  arr !! j = Some i -> requestToInstanceIds e !! r = Some ids ->
  (views !! i = None \/ has_account r views i) ->
  exists views' e' arr' k',
    remove_loop r j (S n) arr k views e = remove_loop r (S j) n arr' k' views' e' /\
    (arr', k') = shift_out i arr k /\
    ~ has_account r views' i /\ (forall i', i' <> i -> views' !! i' = views !! i') /\
    requestToInstanceIds e' !! r = (if decide (remove_first i ids = []) then None else Some (remove_first i ids)) /\
    (forall r', r' <> r -> requestToInstanceIds e' !! r' = requestToInstanceIds e !! r').
Proof.
  intros Hj Hr Hi. cbn [remove_loop]. rewrite Hj. change (default "" (Some i)) with i.
  destruct (index_remove r i ids e Hr) as [E1 E2]. destruct (shift_out i arr k) as [arr' k'].
  destruct (views !! i) as [iv|] eqn:Hv.
  - destruct Hi as [?|(iv' & Hv' & [a Ha])]; [done|]. assert (iv' = iv) as -> by congruence. rewrite Ha.
    unfold deleteRequestLocalAccount. rewrite Ha.
    do 4 eexists. split; [reflexivity|]. split; [done|]. split_and!; [| |done|done].
    + intros (iv' & Hi' & [a' Ha']). rewrite lookup_insert_eq in Hi'. inv_some. cbn in Ha'.
      rewrite lookup_delete_eq in Ha'. done.
    + intros. by apply lookup_insert_ne.
  - do 4 eexists. split; [reflexivity|]. split_and!; try done.
    intros (iv & ? & _). congruence.
Qed.

Lemma remove_first_head a ids : remove_first a (a :: ids) = ids.
Proof. cbn. by rewrite decide_True. Qed.

Lemma shift_out_pair a b : a <> b -> shift_out a [a; b] 2 = ([b; b], 1%nat).
Proof. intros. unfold shift_out. cbn. rewrite decide_True by set_solver. by rewrite decide_True. Qed.

(** Releasing a request that is indexed on at most two instances (its prefill and
    its decode instance) removes its account from both and drops its index entry,
    although the loop ranges over the array that the removals shift; the accounts of
    other instances and the index entries of other requests are untouched. *)
Theorem release_removes_request r ids views e :
  requestToInstanceIds e !! r = Some ids -> ids <> [] -> NoDup ids -> (length ids <= 2)%nat ->
  (forall i, i ∈ ids -> views !! i = None \/ has_account r views i) ->
  let '(views', e') := removeRequestLocalAccount r views e in
  (forall i, i ∈ ids -> ~ has_account r views' i) /\
  (forall i, i ∉ ids -> views' !! i = views !! i) /\
  requestToInstanceIds e' !! r = None /\
  (forall r', r' <> r -> requestToInstanceIds e' !! r' = requestToInstanceIds e !! r').
Proof.
  intros Hr Hne Hnd Hlen Hacc. unfold removeRequestLocalAccount. rewrite Hr.
  destruct ids as [|a [|b [|? ?]]]; [done| | |cbn in Hlen; lia]; cbn [length].
  - destruct (remove_round r 0 0 [a] 1 views e a [a]) as (v1 & e1 & arr1 & k1 & -> & _ & H1 & H2 & H3 & H4);
      [done|done|apply Hacc; set_solver|]. cbn [remove_loop]. rewrite remove_first_head, decide_True in H3 by done.
    split_and!; [|set_solver|done|done].
    intros i Hi. assert (i = a) as -> by set_solver. done.
  - inversion_clear Hnd as [|? ? Hab _]. assert (a <> b) as Hab' by set_solver.
    destruct (remove_round r 0 1 [a; b] 2 views e a [a; b]) as (v1 & e1 & arr1 & k1 & -> & Es & H1 & H2 & H3 & H4);
      [done|done|apply Hacc; set_solver|].
    rewrite shift_out_pair in Es by done. injection Es as -> ->. rewrite remove_first_head, decide_False in H3 by done.
    destruct (remove_round r 1 0 [b; b] 1 v1 e1 b [b]) as (v2 & e2 & arr2 & k2 & -> & _ & H5 & H6 & H7 & H8);
      [done|done| |].
    { rewrite H2 by done. destruct (Hacc b) as [?|(iv & Hiv & Ha)]; [set_solver|by left|].
      right. exists iv. by rewrite H2. }
    cbn [remove_loop]. rewrite remove_first_head, decide_True in H7 by done. split_and!.
    + intros i Hi. assert (i = a \/ i = b) as [->| ->] by set_solver; [|done].
      intros (iv & Hiv & Ha). apply H1. exists iv. by rewrite <- H6.
    + intros i Hi. rewrite H6, H2; set_solver.
    + done.
    + intros r' Hr'. by rewrite H8, H4.
Qed.

Definition demo_released : gmap string CmsInstanceView * InstanceStatusLocalAccountEditor :=
  let '(p, e) := addRequestLocalAccount 0 InferTypePrefill 100 40 "r1" (demo_view "p") demo_editor in
  let '(d, e) := addRequestLocalAccount 0 InferTypeDecode 100 0 "r1" (demo_view "d") e in
  (<["d" := d]> {["p" := p]}, e).

Lemma release_removes_request_witness :
  let '(views', e') := removeRequestLocalAccount "r1" demo_released.1 demo_released.2 in
  (forall i, i ∈ ["p"; "d"] -> ~ has_account "r1" views' i) /\
  requestToInstanceIds e' !! "r1" = None.
Proof.
  pose proof (release_removes_request "r1" ["p"; "d"] demo_released.1 demo_released.2) as H.
  destruct (removeRequestLocalAccount "r1" demo_released.1 demo_released.2) as [views' e'].
  destruct H as (H1 & _ & H3 & _); [vm_compute; reflexivity|discriminate| |cbn; lia| |].
  - constructor; [set_solver|]. apply NoDup_singleton.
  - intros i Hi. right. assert (i = "p" \/ i = "d") as [->| ->] by set_solver;
      eexists; (split; [vm_compute; reflexivity|]); vm_compute; eexists; reflexivity.
  - exact (conj H1 H3).
Defined.

(** A request that its instance has already reported (it still waits there) is
    counted down a second time by a release: one dispatched, reported and released
    request leaves the in-flight counters of its instance at -1 and its tokens
    negative, with no request left to account for them. *)
Theorem release_after_report_undercounts :
  let waiting := mkStatus "p" true 1 1 1 ["r1-0"] ["r1-0"] 0 0 0 0 0 0 0 0 0 0 0 0 0 0 0 0 0 0 0 0 0 0 0 0 0 0
    GoFloat.f_zero GoFloat.f_zero GoFloat.f_zero GoFloat.f_zero 0 GoFloat.f_zero 0 in
  let '(iv, e) := demo_dispatched in
  let '(iv, e) := updateInstanceStatusLocalAccount elements (fun _ => 0) "p" (with_status waiting iv) e in
  let '(views, e) := removeRequestLocalAccount "r1" {["p" := iv]} e in
  (fun iv => (NumInflightDispatchRequests (cv_LocalAccount iv),
              NumInflightDispatchPrefillRequests (cv_LocalAccount iv),
              NumUncomputedTokensInflightDispatchPrefillRequests (cv_LocalAccount iv),
              size (la_RequestLocalAccount (cv_LocalAccount iv)))) <$> (views !! "p") = Some (-1, -1, -60, 0%nat).
Proof. vm_compute. reflexivity. Qed.

(** The request ids that the engines report ([cmpl-<id>-<n>] or
    [chatcmpl-<id>-<n>]) are mapped back to the id the gateway used, also when the id
    itself contains dashes: only the last dash starts the engine's suffix. *)
Theorem trimRequestID_roundtrip id n :
  sNotIn "+"%char id -> sNotIn "+"%char n -> sNotIn "-"%char n ->
  trimRequestID ("cmpl-" +:+ id +:+ "-" +:+ n) = id /\ trimRequestID ("chatcmpl-" +:+ id +:+ "-" +:+ n) = id.
Proof.
  intros Hid Hn Hd.
  assert (trimSuffix (id +:+ "-" +:+ n) = id) as E.
  { unfold trimSuffix, Contains. change ("-" +:+ n) with (String "-"%char n).
    rewrite Index_char_None by (apply sNotIn_app; split; [done|by split]).
    by rewrite LastIndex_char_app, stake_app. }
  unfold trimRequestID. split.
  - by rewrite HasPrefix_app, TrimPrefix_app.
  - change (HasPrefix ("chatcmpl-" +:+ id +:+ "-" +:+ n) "cmpl-") with false. cbn [orb].
    by rewrite HasPrefix_app, TrimPrefix_app.
Qed.

Lemma trimRequestID_roundtrip_witness :
  trimRequestID "cmpl-8c1f-4a2b-0" = "8c1f-4a2b" /\ trimRequestID "chatcmpl-8c1f-4a2b-0" = "8c1f-4a2b".
Proof. apply (trimRequestID_roundtrip "8c1f-4a2b" "0"); vm_compute; intuition congruence. Defined.

(** A revert does not undo a dispatch: after a new prefill request is added and
    reverted, its account is gone and the prefill counters are as before, but the
    instance keeps one more in-flight request than it has. *)
Theorem revert_leaves_dispatch_count now n p r iv e :
  let la := cv_LocalAccount iv in
  la_RequestLocalAccount la !! r = None ->
  MinInt32 <= NumInflightDispatchPrefillRequests la <= MaxInt32 ->
  MinInt32 <= NumUncomputedTokensInflightDispatchPrefillRequests la <= MaxInt32 ->
  let '(iv1, e1) := addRequestLocalAccount now InferTypePrefill n p r iv e in
  let '(iv2, e2) := revertRequestPrefillLocalAccount n p r iv1 e1 in
  cv_LocalAccount iv2 = count_request la.
Proof.
  intros la Hr Hp Ht. unfold addRequestLocalAccount, revertRequestPrefillLocalAccount. fold la. rewrite Hr.
  destruct la as [m np nd nr nu nt]. cbn in *. unfold count, count_request.
  change (is_prefill InferTypePrefill) with true. change (is_decode InferTypePrefill) with false. cbn.
  rewrite delete_insert_id by done. f_equal; autorewrite with go_int; rewrite int32_small; lia.
Qed.

Lemma revert_leaves_dispatch_count_witness :
  let '(iv1, e1) := addRequestLocalAccount 0 InferTypePrefill 100 40 "r1" (demo_view "p") demo_editor in
  let '(iv2, e2) := revertRequestPrefillLocalAccount 100 40 "r1" iv1 e1 in
  NumInflightDispatchRequests (cv_LocalAccount iv2) = 1 /\ la_RequestLocalAccount (cv_LocalAccount iv2) = ∅.
Proof.
  pose proof (revert_leaves_dispatch_count 0 100 40 "r1" (demo_view "p") demo_editor eq_refl ltac:(vm_compute; split; discriminate) ltac:(vm_compute; split; discriminate)) as H.
  cbv zeta in H. destruct (addRequestLocalAccount _ _ _ _ _ _ _) as [iv1 e1].
  destruct (revertRequestPrefillLocalAccount _ _ _ _ _) as [iv2 e2]. rewrite H. split; reflexivity.
Defined.
