(* ===== verification/Metrics.v ===== *)
(** * Scheduling metrics

    [pkg/scheduler/policy/metrics.go] and the view types of [scheduling_policy.go]: for
    one scheduling decision every instance gets a context with the metrics that the
    policy compares. Values are [float32]; the sums under them are [int32] and wrap.

    A computation that panics in Go (an unknown metric, a view of the other mode) or
    does not return is [None]. The latency predictor is an interface here; [Predictor]
    implements it. *)

From stdpp Require Import base gmap list strings numbers.
From S2P Require Import Prelude GoFloat Types CmsTypes Lrs.

Local Open Scope Z_scope.

(** ** Names (pkg/consts/consts.go) *)

Definition SchedulingMetricKVCacheUsageRatioProjected := "kv_cache_usage_ratio_projected".
Definition SchedulingMetricDecodeBatchSize := "decode_batch_size".
Definition SchedulingMetricNumWaitingRequests := "num_waiting_requests".
Definition SchedulingMetricAllPrefillsTokensNum := "all_prefills_tokens_num".
Definition SchedulingMetricKVCacheHitLen := "kv_cache_hit_len".
Definition SchedulingMetricCacheAwareAllPrefillsTokensNum := "cache_aware_all_prefills_tokens_num".
Definition SchedulingMetricNumRequests := "num_requests".
Definition SchedulingMetricAllDecodesTokensNum := "all_decodes_tokens_num".
Definition SchedulingMetricNumTokens := "num_tokens".
Definition SchedulingMetricPredictedTtft := "predicted_ttft".
Definition SchedulingMetricPredictedTpot := "predicted_tpot".

(** ** Configuration (the fields of [SchedulerConfig] that the policies read) *)

Record SchedulerConfig := mkConfig {
  SchedulingPolicy : string;
  EnableFullModeScheduling : bool;
  EnableCacheAwareScheduling : bool;
  EnablePredictorEnhancedScheduling : bool;
  EnableAdaptivePD : bool;
  EnableRescheduling : bool;
  EnableInstanceStatusLocalAccount : bool;
  CacheAwareSchedulingMinTokens : Z;
  KvsChunkSize : Z;
  DispatchTopK : Z;
  DispatchNeutralLoadMetric : string;
  DispatchNeutralLoadThreshold : float;
  DispatchPrefillLoadMetric : string;
  DispatchPrefillLoadThreshold : float;
  DispatchDecodeLoadMetric : string;
  DispatchDecodeLoadThreshold : float;
  DispatchPrefillCacheLocalityMetric : string;
  MaxNumBatchedTokens : Z;
  TtftSlo : float;
  TpotSlo : float;
  TtftSloDispatchThreshold : float;
  TpotSloDispatchThreshold : float;
  TpotMigrateOutCeilThreshold : float;
  TpotMigrateOutFloorThreshold : float;
  FailoverDomain : string;
  InstanceStalenessSeconds : Z;
  ReschedulingPolicies : string;
  ReschedulingDecodeLoadMetric : string;
  ReschedulingDecodeLoadThreshold : float;
  ReschedulingPrefillLoadMetric : string;
  ReschedulingNeutralLoadMetric : string;
  ReschedulingNeutralLoadThreshold : float;
  ReschedulingReqSelectOrder : string;
  ReschedulingReqSelectRule : string;
  ReschedulingReqSelectValue : float;
  ReschedulingLoadBalanceThreshold : float;
  ReschedulingLoadBalanceScope : string
}.

(** ** Metrics as values

    The eleven metric types of the source differ in how they are calculated and, for
    [kvCacheHitLen], in the direction of the comparison. *)

Record metric := mkMetric {
  m_name : string;
  m_reversed : bool;
  m_value : float
}.

Definition GetValue (m : metric) : float := m_value m.

Definition ValueLess (m : metric) (value : float) : bool :=
  if m_reversed m then fgt (m_value m) value else flt (m_value m) value.

Definition Less (m m' : metric) : bool := ValueLess m (GetValue m').

Definition Equal (m m' : metric) : bool := negb (Less m m') && negb (Less m' m).

(** ** Views under scheduling *)

Record schedulingCtx := mkCtx {
  metrics : gmap string metric;
  needsFailover : bool;
  prefixHitTokens : Z;
  prefixHitRatio : float;
  prefixMissTokens : Z;
  numComputedPrefillTokensPredicted : Z
}.

Record instanceViewScheduling := mkIvs {
  v_group : InferType;
  cmsView : option CmsInstanceView;
  lrsView : option InstanceView;
  v_instance : LLMInstance;
  v_id : string;
  v_ctx : schedulingCtx
}.

Definition v_GetInferType (iv : instanceViewScheduling) : InferType := InstInferType (v_instance iv).

Definition empty_ctx : schedulingCtx := mkCtx ∅ false 0 f_zero 0 0.

Definition with_ctx (c : schedulingCtx) (iv : instanceViewScheduling) : instanceViewScheduling :=
  mkIvs (v_group iv) (cmsView iv) (lrsView iv) (v_instance iv) (v_id iv) c.

Definition with_cms (cv : CmsInstanceView) (iv : instanceViewScheduling) : instanceViewScheduling :=
  mkIvs (v_group iv) (Some cv) (lrsView iv) (v_instance iv) (v_id iv) (v_ctx iv).

Definition set_metric (m : metric) (c : schedulingCtx) : schedulingCtx :=
  mkCtx (<[m_name m := m]> (metrics c)) (needsFailover c) (prefixHitTokens c) (prefixHitRatio c)
    (prefixMissTokens c) (numComputedPrefillTokensPredicted c).

Definition mark_failover (b : bool) (c : schedulingCtx) : schedulingCtx :=
  mkCtx (metrics c) (needsFailover c || b) (prefixHitTokens c) (prefixHitRatio c)
    (prefixMissTokens c) (numComputedPrefillTokensPredicted c).

Definition set_prefix (hit : Z) (ratio : float) (miss : Z) (c : schedulingCtx) : schedulingCtx :=
  mkCtx (metrics c) (needsFailover c) hit ratio miss (numComputedPrefillTokensPredicted c).

Definition set_predicted (n : Z) (c : schedulingCtx) : schedulingCtx :=
  mkCtx (metrics c) (needsFailover c) (prefixHitTokens c) (prefixHitRatio c) (prefixMissTokens c) n.

(** ** The latency predictor as an interface

    [predictTtftLatencyByChunkPrefill] takes the prefill tokens, decode requests, decode
    tokens and the batch limit; the outer [None] is a call that does not return, the
    inner one an error. *)

Class LatencyPredictor := {
  predictTtftLatencyByChunkPrefill : Z -> Z -> Z -> Z -> option (option float);
  predictTpotLatency : Z -> Z -> option float
}.

(** Go's conversion of a [float32] to [int32] on amd64: truncation in range, and the
    most negative integer otherwise; likewise [float64] to [int64]. *)
Definition f_to_int32 (x : float) : Z :=
  match ftrunc x with
  | Some z => if decide (MinInt32 <= z <= MaxInt32) then z else MinInt32
  | None => MinInt32
  end.

Definition f_to_int64 (x : float) : Z :=
  match ftrunc x with
  | Some z => if decide (MinInt64 <= z <= MaxInt64) then z else MinInt64
  | None => MinInt64
  end.

Section calculate.
Context {LP : LatencyPredictor}.

(** ** [Calculate], one definition per metric type *)

Definition kvCacheUsageRatioProjected_Calculate (iv : instanceViewScheduling) : option float :=
  cv ← cmsView iv;
  let s := cv_Status cv in
  if decide (NumTotalGpuTokens s = 0) then Some MaxFloat32
  else
    let numUnallocatedTokens :=
      int32 (NumUncomputedTokensAllWaitingPrefills s + NumUnallocatedTokensSchedulerRunningPrefills s
             + NumUnallocatedTokensHybridSchedulerWaitingDecodes s) in
    Some (f32_div
      (f32_of_Z (int32 (NumUsedGpuTokens s + numUnallocatedTokens
                        + NumTokensInflightDispatchDecodeRequests (cv_LocalAccount cv))))
      (f32_of_Z (NumTotalGpuTokens s))).

Definition decodeBatchSize_Calculate (iv : instanceViewScheduling) : option float :=
  cv ← cmsView iv;
  let s := cv_Status cv in
  Some (f32_of_Z (int32 (HybridSchedulerWaitingToDecodeRequestsNum s + NumLoadingRequests s
    + SchedulerWaitingToDecodeRequestsNum s + SchedulerRunningToDecodeRequestsNum s
    + NumInflightDispatchDecodeRequests (cv_LocalAccount cv)))).

Definition numWaitingRequests_Calculate (iv : instanceViewScheduling) : option float :=
  cv ← cmsView iv;
  Some (f32_of_Z (int32 (NumWaitingRequestsStatus (cv_Status cv) + NumInflightDispatchRequests (cv_LocalAccount cv)))).

Definition allPrefillsTokensNum_Calculate (iv : instanceViewScheduling) : option float :=
  cv ← cmsView iv;
  let s := cv_Status cv in
  Some (f32_of_Z (int32 (NumUncomputedTokensAllWaitingPrefills s + NumUncomputedTokensSchedulerRunningPrefills s
    + NumUncomputedTokensInflightDispatchPrefillRequests (cv_LocalAccount cv)
    - numComputedPrefillTokensPredicted (v_ctx iv)))).

Definition numRequests_Calculate (enableFullMode : bool) (iv : instanceViewScheduling) : option float :=
  if enableFullMode
  then
    cv ← cmsView iv;
    let s := cv_Status cv in
    Some (f32_of_Z (int32 (NumWaitingRequestsStatus s + NumLoadingRequests s + NumRunningRequests s
      + NumInflightDispatchPrefillRequests (cv_LocalAccount cv)
      + NumInflightDispatchDecodeRequests (cv_LocalAccount cv))))
  else
    lv ← lrsView iv;
    Some (f32_of_Z (NumRequests lv)).

Definition kvCacheHitLen_Calculate (iv : instanceViewScheduling) : option float :=
  Some (f32_of_Z (prefixHitTokens (v_ctx iv))).

Definition CacheAwareAllPrefillsTokensNum_Calculate (iv : instanceViewScheduling) : option float :=
  allPrefillsTokensNum ← allPrefillsTokensNum_Calculate iv;
  Some (f32_add (f32_of_Z (prefixMissTokens (v_ctx iv))) allPrefillsTokensNum).

Definition allDecodesTokensNum_Calculate (iv : instanceViewScheduling) : option float :=
  cv ← cmsView iv;
  let s := cv_Status cv in
  let allDecodeTokens :=
    int32 (HybridSchedulerWaitingToDecodeTokensNum s + SchedulerWaitingToDecodeTokensNum s
           + SchedulerRunningToDecodeTokensNum s + NumTokensLoadingRequests s) in
  Some (f32_of_Z (int32 (allDecodeTokens + NumTokensInflightDispatchDecodeRequests (cv_LocalAccount cv)))).

Definition request_tokens (request : option SchedulingRequest) : Z :=
  match request with Some r => sr_PromptNumTokens r | None => 0 end.

(** [PredictedTtft.Calculate]; [now] is the clock in milliseconds. *)
Definition PredictedTtft_latency (now : Z) (request : option SchedulingRequest) (iv : instanceViewScheduling)
    : option float :=
  cv ← cmsView iv;
  allPrefills ← allPrefillsTokensNum_Calculate iv;
  allDecodes ← allDecodesTokensNum_Calculate iv;
  batch ← decodeBatchSize_Calculate iv;
  let s := cv_Status cv in
  let maxBatched := md_MaxNumBatchedTokens (cv_Metadata cv) in
  let tokensOnInstance :=
    int32 (NumUncomputedTokensAllWaitingPrefills s + NumUncomputedTokensSchedulerRunningPrefills s) in
  existing ← predictTtftLatencyByChunkPrefill tokensOnInstance (f_to_int32 batch) (f_to_int32 allDecodes) maxBatched;
  match existing with
  | None => Some f_PosInf
  | Some existingTokensTtft =>
      let elapsedTimeMs := int64 (now - TimestampMs s) in
      let requestTokensNum := int32 (request_tokens request) in
      if decide (elapsedTimeMs > f_to_int64 existingTokensTtft)
      then
        latency ← predictTtftLatencyByChunkPrefill
          (int32 (NumUncomputedTokensInflightDispatchPrefillRequests (cv_LocalAccount cv) + requestTokensNum))
          (f_to_int32 batch) (f_to_int32 allDecodes) maxBatched;
        Some (default f_PosInf latency)
      else
        latency ← predictTtftLatencyByChunkPrefill
          (int32 (f_to_int32 allPrefills + requestTokensNum))
          (f_to_int32 batch) (f_to_int32 allDecodes) maxBatched;
        match latency with
        | Some l => Some (f64_sub l (f64_of_Z elapsedTimeMs))
        | None => Some f_PosInf
        end
  end.

Definition PredictedTtft_Calculate (now : Z) (request : option SchedulingRequest) (iv : instanceViewScheduling)
    : option float :=
  f64_to_f32 <$> PredictedTtft_latency now request iv.

Definition PredictedTpot_Calculate (request : option SchedulingRequest) (iv : instanceViewScheduling) : option float :=
  allDecodes ← allDecodesTokensNum_Calculate iv;
  batch ← decodeBatchSize_Calculate iv;
  let requestTokensNum := int32 (request_tokens request) in
  Some (f64_to_f32 (default f_PosInf
    (predictTpotLatency (f_to_int32 (f32_add batch f_one32)) (int32 (f_to_int32 allDecodes + requestTokensNum))))).

Definition numTokens_Calculate (iv : instanceViewScheduling) : option float :=
  lv ← lrsView iv; Some (f32_of_Z (NumTokens lv)).

(** ** [getSchedulingMetric]: the constructor of a name, with its [Calculate] *)

Definition getSchedulingMetric (c : SchedulerConfig) (now : Z) (request : option SchedulingRequest)
    (metricName : string) (iv : instanceViewScheduling) : option metric :=
  let m reversed v := mkMetric metricName reversed <$> v in
  if decide (metricName = SchedulingMetricKVCacheUsageRatioProjected) then m false (kvCacheUsageRatioProjected_Calculate iv)
  else if decide (metricName = SchedulingMetricDecodeBatchSize) then m false (decodeBatchSize_Calculate iv)
  else if decide (metricName = SchedulingMetricNumWaitingRequests) then m false (numWaitingRequests_Calculate iv)
  else if decide (metricName = SchedulingMetricAllPrefillsTokensNum) then m false (allPrefillsTokensNum_Calculate iv)
  else if decide (metricName = SchedulingMetricKVCacheHitLen) then m true (kvCacheHitLen_Calculate iv)
  else if decide (metricName = SchedulingMetricCacheAwareAllPrefillsTokensNum)
    then m false (CacheAwareAllPrefillsTokensNum_Calculate iv)
  else if decide (metricName = SchedulingMetricNumRequests)
    then m false (numRequests_Calculate (EnableFullModeScheduling c) iv)
  else if decide (metricName = SchedulingMetricAllDecodesTokensNum) then m false (allDecodesTokensNum_Calculate iv)
  else if decide (metricName = SchedulingMetricPredictedTtft) then m false (PredictedTtft_Calculate now request iv)
  else if decide (metricName = SchedulingMetricPredictedTpot) then m false (PredictedTpot_Calculate request iv)
  else if decide (metricName = SchedulingMetricNumTokens) then m false (numTokens_Calculate iv)
  else None.

(** The inner loop of [calculateMetrics]: metrics already present are kept. *)
Fixpoint calculate_one (c : SchedulerConfig) (now : Z) (request : option SchedulingRequest)
    (names : list string) (iv : instanceViewScheduling) : option instanceViewScheduling :=
  match names with
  | [] => Some iv
  | name :: names =>
      match metrics (v_ctx iv) !! name with
      | Some _ => calculate_one c now request names iv
      | None =>
          m ← getSchedulingMetric c now request name iv;
          calculate_one c now request names (with_ctx (set_metric m (v_ctx iv)) iv)
      end
  end.

Definition calculateMetrics (c : SchedulerConfig) (now : string -> Z) (request : option SchedulingRequest)
    (names : list string) (instances : gmap string instanceViewScheduling)
    : option (gmap string instanceViewScheduling) :=
  map_traverse (fun id => calculate_one c (now id) request names) instances.

End calculate.
