(* ===== verification/Filters.v ===== *)
(** * Instance filters

    [pkg/scheduler/policy/filters.go] and [getRemainingInstanceIds] of [utils.go].
    Filters that look at one instance may mark it as needing failover; the failover
    filter then widens the marked set to nodes or units. Clock reads are an argument
    per instance; a panic (missing metric, missing CMS view, unknown failover domain)
    is [None]. *)

From stdpp Require Import base gmap sets list strings numbers.
From S2P Require Import Prelude GoFloat Types CmsTypes Lrs Metrics.

Local Open Scope Z_scope.

Definition FailoverDomainInstanceUnit := "instance-unit".
Definition FailoverDomainNodeUnit := "node-unit".
Definition FailoverDomainNode := "node".
Definition FailoverDomainInstance := "instance".
Definition AttrKeyReservedInferType := "ReservedInferType".

Abbreviation views := (gmap string instanceViewScheduling) (only parsing).

(** ** Filters on one instance *)

Inductive singleInstanceFilter :=
  | invertedSingleInstanceFilterWrapper (innerFilter : singleInstanceFilter)
  | metricBasedFilter (metricName : string) (threshold : float) (notSkipWhenFallback : bool)
  | schedulabilityFilter
  | instanceAttributeFilter (attrKey : string) (rejectedValue : InferType)
  | stalenessFilter (instanceStalenessSeconds : Z)
  | inferTypeFilter (targetInferType : InferType).

Fixpoint skipWhenFallback (f : singleInstanceFilter) : bool :=
  match f with
  | invertedSingleInstanceFilterWrapper f => skipWhenFallback f
  | metricBasedFilter _ _ notSkip => negb notSkip
  | _ => false
  end.

(** Returns whether the instance is filtered out and the view with the marks that the
    filter wrote. The attribute filter compares a field of the CMS view found by
    name; the only field of type [InferType] is [ReservedInferType], and
    [reflect.DeepEqual] with a value of another type is false. *)
Fixpoint instanceFilteredOut (now : Z) (f : singleInstanceFilter) (iv : instanceViewScheduling)
    : option (bool * instanceViewScheduling) :=
  match f with
  | invertedSingleInstanceFilterWrapper f =>
      '(out, iv) ← instanceFilteredOut now f iv; Some (negb out, iv)
  | metricBasedFilter name threshold _ =>
      m ← metrics (v_ctx iv) !! name; Some (negb (ValueLess m threshold), iv)
  | schedulabilityFilter =>
      cv ← cmsView iv;
      let out := negb (Schedulable (cv_Status cv)) in
      Some (out, with_ctx (mark_failover out (v_ctx iv)) iv)
  | instanceAttributeFilter key rejected =>
      match cmsView iv with
      | None => Some (false, iv)
      | Some cv => Some (bool_decide (key = AttrKeyReservedInferType) && bool_decide (cv_ReservedInferType cv = rejected), iv)
      end
  | stalenessFilter secs =>
      cv ← cmsView iv;
      let stale := bool_decide (int64 (now - TimestampMs (cv_Status cv)) ÷ 1000 > secs) in
      Some (stale, with_ctx (mark_failover stale (v_ctx iv)) iv)
  | inferTypeFilter t => Some (bool_decide (v_GetInferType iv <> t), iv)
  end.

(** The loop of [filter] over the single-instance filters: every filter runs, for its
    side effects, also after a rejection. *)
Fixpoint run_single (now : Z) (sif : list singleInstanceFilter) (fallback reject : bool)
    (iv : instanceViewScheduling) : option (bool * instanceViewScheduling) :=
  match sif with
  | [] => Some (reject, iv)
  | f :: sif =>
      if fallback && skipWhenFallback f then run_single now sif fallback reject iv
      else '(out, iv) ← instanceFilteredOut now f iv; run_single now sif fallback (reject || out) iv
  end.

(** ** Failover domains *)

Definition isDataParallelEnabled (order : key_order) (vs : views) : option bool :=
  match order (dom vs) with
  | [] => Some false
  | id :: _ =>
      iv ← vs !! id; cv ← cmsView iv;
      Some (bool_decide (md_DataParallelSize (cv_Metadata cv) > 1))
  end.

Definition getNeedsFailoverInstances (vs : views) : gset string :=
  dom (filter (fun kv => needsFailover (v_ctx kv.2) = true) vs).

(** In full mode every view has a CMS view. *)
Definition NodeIdOf (iv : instanceViewScheduling) : string :=
  match cmsView iv with Some cv => md_NodeId (cv_Metadata cv) | None => "" end.
Definition UnitIdOf (iv : instanceViewScheduling) : string :=
  match cmsView iv with Some cv => md_UnitId (cv_Metadata cv) | None => "" end.

Definition getFailoverNodes (needs : gset string) (vs : views) : gset string :=
  set_fold (fun id acc =>
    match vs !! id with
    | Some iv => if decide (NodeIdOf iv <> "") then {[NodeIdOf iv]} ∪ acc else acc
    | None => acc
    end) ∅ needs.

Definition getNodeFailoverInstances (failoverNodes : gset string) (vs : views) : gset string :=
  dom (filter (fun kv => NodeIdOf kv.2 ∈ failoverNodes) vs).

Definition getFailoverUnits (insts : gset string) (vs : views) : gset string :=
  set_fold (fun id acc =>
    match vs !! id with
    | Some iv => {[UnitIdOf iv]} ∪ acc
    | None => acc
    end) ∅ insts.

Definition getUnitFailoverInstances (failoverUnits : gset string) (vs : views) : gset string :=
  dom (filter (fun kv => UnitIdOf kv.2 ∈ failoverUnits) vs).

Definition failoverFilter_filterOutInstances (order : key_order) (failoverDomain : string) (vs : views)
    : option (gset string) :=
  let needs := getNeedsFailoverInstances vs in
  if decide (failoverDomain = FailoverDomainInstance) then Some needs
  else if decide (failoverDomain = FailoverDomainNode)
  then Some (getNodeFailoverInstances (getFailoverNodes needs vs) vs)
  else if decide (failoverDomain = FailoverDomainInstanceUnit)
  then dp ← isDataParallelEnabled order vs;
       if negb dp then Some needs
       else Some (getUnitFailoverInstances (getFailoverUnits needs vs) vs)
  else if decide (failoverDomain = FailoverDomainNodeUnit)
  then let nodeInstances := getNodeFailoverInstances (getFailoverNodes needs vs) vs in
       dp ← isDataParallelEnabled order vs;
       if negb dp then Some nodeInstances
       else Some (getUnitFailoverInstances (getFailoverUnits nodeInstances vs) vs)
  else None.

Definition getRemainingInstanceIds (vs : views) (filteredOut : gset string) : gset string :=
  dom vs ∖ filteredOut.

(** ** Global filters *)

Inductive globalFilter :=
  | failoverFilter (failoverDomain : string)
  | failoverMigrationSrcFilter (instanceStalenessSeconds : Z) (failoverDomain : string).

Definition mark_view (now : Z) (secs : Z) (iv : instanceViewScheduling) : option instanceViewScheduling :=
  '(_, iv) ← instanceFilteredOut now schedulabilityFilter iv;
  '(_, iv) ← instanceFilteredOut now (stalenessFilter secs) iv;
  Some iv.

Definition filterOutInstances (order : key_order) (now : string -> Z) (f : globalFilter) (vs : views)
    : option (gset string * views) :=
  match f with
  | failoverFilter domain =>
      out ← failoverFilter_filterOutInstances order domain vs; Some (out, vs)
  | failoverMigrationSrcFilter secs domain =>
      vs ← map_traverse (fun id => mark_view (now id) secs) vs;
      out ← failoverFilter_filterOutInstances order domain vs;
      Some (getRemainingInstanceIds vs out, vs)
  end.

(** ** [filter] *)

Fixpoint run_global (order : key_order) (now : string -> Z) (gf : list globalFilter) (vs : views)
    (available : gset string) : option (gset string * views) :=
  match gf with
  | [] => Some (available, vs)
  | f :: gf =>
      '(out, vs) ← filterOutInstances order now f vs;
      run_global order now gf vs (available ∖ out)
  end.

Definition run_singles (now : string -> Z) (sif : list singleInstanceFilter) (fallback : bool) (vs : views)
    : option (gmap string (bool * instanceViewScheduling)) :=
  map_traverse (fun id => run_single (now id) sif fallback false) vs.

(** The views with the marks written during filtering, and the ids that remain. *)
Definition filter_views (order : key_order) (now : string -> Z) (vs : views)
    (sif : list singleInstanceFilter) (gf : list globalFilter) (fallback : bool)
    : option (gset string * views) :=
  rs ← run_singles now sif fallback vs;
  run_global order now gf (snd <$> rs) (dom (filter (fun kv => kv.2.1 = false) rs)).

(** ** Lemmas *)

(** Filters write nothing but failover marks. *)
Definition marked (b : bool) (iv : instanceViewScheduling) : instanceViewScheduling :=
  with_ctx (mark_failover b (v_ctx iv)) iv.

Lemma marked_false iv : marked false iv = iv.
Proof. destruct iv as [g c l i d [m n p r x k]]. unfold marked, with_ctx, mark_failover. cbn. by rewrite orb_false_r. Qed.

Lemma marked_marked a b iv : marked a (marked b iv) = marked (b || a) iv.
Proof. destruct iv as [g c l i d [m n p r x k]]. unfold marked, with_ctx, mark_failover. cbn. by rewrite orb_assoc. Qed.

(** The mark a filter writes, given its verdict. *)
Fixpoint mark_of (f : singleInstanceFilter) (out : bool) : bool :=
  match f with
  | invertedSingleInstanceFilterWrapper f => mark_of f (negb out)
  | schedulabilityFilter | stalenessFilter _ => out
  | _ => false
  end.

Lemma instanceFilteredOut_marks now f iv out iv' :
  instanceFilteredOut now f iv = Some (out, iv') -> iv' = marked (mark_of f out) iv.
Proof.
  revert out iv'. induction f as [f IH|name thr ns| |key rej|secs|t]; intros out iv'; cbn.
  - destruct (instanceFilteredOut now f iv) as [[o v]|]; [|done]. intros [= <- <-].
    rewrite negb_involutive. by apply IH.
  - destruct (metrics (v_ctx iv) !! name); [|done]. intros [= _ <-]. by rewrite marked_false.
  - destruct (cmsView iv); [|done]. by intros [= <- <-].
  - destruct (cmsView iv); intros [= _ <-]; by rewrite marked_false.
  - destruct (cmsView iv); [|done]. by intros [= <- <-].
  - intros [= _ <-]. by rewrite marked_false.
Qed.

(** Verdicts do not depend on marks. *)
Definition verdict (now : Z) (f : singleInstanceFilter) (iv : instanceViewScheduling) : option bool :=
  fst <$> instanceFilteredOut now f iv.

Lemma verdict_marked now f b iv : verdict now f (marked b iv) = verdict now f iv.
Proof.
  unfold verdict. induction f as [f IH|name thr ns| |key rej|secs|t]; cbn.
  - destruct (instanceFilteredOut now f (marked b iv)) as [[]|], (instanceFilteredOut now f iv) as [[]|];
      cbn in *; congruence.
  - by destruct (metrics (v_ctx iv) !! name).
  - by destruct (cmsView iv).
  - by destruct (cmsView iv).
  - by destruct (cmsView iv).
  - done.
Qed.

Lemma instanceFilteredOut_verdict now f iv out iv' :
  instanceFilteredOut now f iv = Some (out, iv') -> verdict now f iv = Some out.
Proof. intros H. unfold verdict. by rewrite H. Qed.

(** [f] runs in a pass with the given fallback flag. *)
Definition active (fallback : bool) (f : singleInstanceFilter) : Prop := fallback && skipWhenFallback f = false.

(** The marks of the active filters. *)
Lemma run_single_spec now sif fb rej iv rej' iv' :
  run_single now sif fb rej iv = Some (rej', iv') ->
  (exists b, iv' = marked b iv) /\
  (rej' = false -> rej = false /\ forall f, f ∈ sif -> active fb f -> verdict now f iv = Some false) /\
  (forall f, f ∈ sif -> active fb f -> exists out, verdict now f iv = Some out /\
     (mark_of f out = true -> needsFailover (v_ctx iv') = true)) /\
  (needsFailover (v_ctx iv) = true -> needsFailover (v_ctx iv') = true).
Proof.
  revert rej iv. induction sif as [|f sif IH]; intros rej iv; cbn.
  { intros [= -> ->]. split; [exists false; by rewrite marked_false|]. split; [|split; [|done]].
    - intros ->. split; [done|]. intros f Hf. by apply elem_of_nil in Hf.
    - intros f Hf. by apply elem_of_nil in Hf. }
  destruct (fb && skipWhenFallback f) eqn:Hskip.
  - intros H. destruct (IH _ _ H) as (Hb & H1 & H2 & H3). split_and!; [done| | |done].
    + intros Hr. destruct (H1 Hr) as [? Hall]. split; [done|]. intros g [->|Hg]%elem_of_cons Hact; [|by apply Hall].
      unfold active in Hact. congruence.
    + intros g [->|Hg]%elem_of_cons Hact; [unfold active in Hact; congruence|by apply H2].
  - destruct (instanceFilteredOut now f iv) as [[out v]|] eqn:Hf; [|done]. cbn. intros H.
    pose proof (instanceFilteredOut_marks _ _ _ _ _ Hf) as ->.
    pose proof (instanceFilteredOut_verdict _ _ _ _ _ Hf) as Hv.
    destruct (IH _ _ H) as ([b ->] & H1 & H2 & H3). split_and!.
    + eexists. apply marked_marked.
    + intros Hr. destruct (H1 Hr) as [[-> ->]%orb_false_iff Hall]. split; [done|].
      intros g [->|Hg]%elem_of_cons Hact; [done|]. rewrite <- (verdict_marked now g (mark_of f false)). by apply Hall.
    + intros g [->|Hg]%elem_of_cons Hact.
      * exists out. split; [done|]. intros Hm. apply H3. cbn. rewrite Hm. apply orb_true_r.
      * destruct (H2 g Hg Hact) as (o & Ho & Hm). exists o. by rewrite verdict_marked in Ho.
    + intros Hn. apply H3. cbn. by rewrite Hn.
Qed.

Lemma run_global_incl order now gf vs av av' vs' :
  run_global order now gf vs av = Some (av', vs') -> av' ⊆ av.
Proof.
  revert vs av. induction gf as [|f gf IH]; intros vs av; cbn; [by intros [= -> _]|].
  destruct (filterOutInstances order now f vs) as [[out v]|]; [|done]. cbn. intros H%IH. set_solver.
Qed.

(** Views of a map after filtering: the same instances, with more marks. *)
Definition only_marked (vs vs' : gmap string instanceViewScheduling) : Prop :=
  forall id, match vs !! id, vs' !! id with
             | Some iv, Some iv' => exists b, iv' = marked b iv
             | None, None => True
             | _, _ => False
             end.

Lemma only_marked_refl vs : only_marked vs vs.
Proof. intros id. destruct (vs !! id) as [iv|]; [|done]. exists false. by rewrite marked_false. Qed.

Lemma only_marked_trans a b c : only_marked a b -> only_marked b c -> only_marked a c.
Proof.
  intros H1 H2 id. specialize (H1 id). specialize (H2 id).
  destruct (a !! id), (b !! id), (c !! id); try done. destruct H1 as [x ->], H2 as [y ->].
  eexists. apply marked_marked.
Qed.

Lemma only_marked_lookup vs vs' id iv' :
  only_marked vs vs' -> vs' !! id = Some iv' -> exists iv b, vs !! id = Some iv /\ iv' = marked b iv.
Proof. intros H Hi. specialize (H id). rewrite Hi in H. destruct (vs !! id) as [iv|]; [|done]. destruct H as [b ->]. eauto. Qed.

Lemma only_marked_dom vs vs' : only_marked vs vs' -> dom vs' = dom vs.
Proof.
  intros H. apply set_eq. intros id. rewrite !elem_of_dom. specialize (H id).
  destruct (vs !! id), (vs' !! id); try done; split; eauto.
Qed.

Lemma mark_view_marked now secs iv iv' : mark_view now secs iv = Some iv' -> exists b, iv' = marked b iv.
Proof.
  unfold mark_view. destruct (instanceFilteredOut now schedulabilityFilter iv) as [[o1 v1]|] eqn:E1; [|done]. cbn.
  apply instanceFilteredOut_marks in E1 as ->.
  destruct (cmsView (marked (mark_of schedulabilityFilter o1) iv)); [|done]. cbn.
  intros [= <-]. eexists. apply marked_marked.
Qed.

Lemma filterOutInstances_marks order now f vs out vs' :
  filterOutInstances order now f vs = Some (out, vs') -> only_marked vs vs'.
Proof.
  destruct f as [dom|secs dom]; cbn.
  - destruct (failoverFilter_filterOutInstances order dom vs); [|done]. intros [= _ <-]. apply only_marked_refl.
  - destruct (map_traverse _ vs) as [v|] eqn:E; [|done]. cbn.
    destruct (failoverFilter_filterOutInstances order dom v); [|done]. intros [= _ <-] id.
    pose proof (map_traverse_lookup _ _ _ E id) as H. destruct (vs !! id), (v !! id); try done.
    by eapply mark_view_marked.
Qed.

Lemma run_singles_marks now sif fb vs rs :
  run_singles now sif fb vs = Some rs -> only_marked vs (snd <$> rs).
Proof.
  intros E id. pose proof (map_traverse_lookup _ _ _ E id) as H. rewrite lookup_fmap.
  destruct (vs !! id), (rs !! id) as [[r v]|]; try done. cbn. by destruct (run_single_spec _ _ _ _ _ _ _ H).
Qed.

(** ** What the failover filter removes *)

(** Instances whose names are in [bad], widened to the failover domain. *)
Definition on_bad_node (vs : gmap string instanceViewScheduling) (bad : string -> Prop) (iv : instanceViewScheduling) : Prop :=
  exists id' iv', vs !! id' = Some iv' /\ bad id' /\ NodeIdOf iv' <> "" /\ NodeIdOf iv' = NodeIdOf iv.

Definition in_domain (domain : string) (dp : bool) (vs : gmap string instanceViewScheduling)
    (bad : string -> Prop) (id : string) (iv : instanceViewScheduling) : Prop :=
  if decide (domain = FailoverDomainInstance) then bad id
  else if decide (domain = FailoverDomainNode) then on_bad_node vs bad iv
  else if decide (domain = FailoverDomainInstanceUnit) then
    if dp then exists id' iv', vs !! id' = Some iv' /\ bad id' /\ UnitIdOf iv' = UnitIdOf iv else bad id
  else
    if dp then exists id' iv', vs !! id' = Some iv' /\ on_bad_node vs bad iv' /\ UnitIdOf iv' = UnitIdOf iv
    else on_bad_node vs bad iv.

Definition failing (vs : gmap string instanceViewScheduling) (id : string) : Prop :=
  exists iv, vs !! id = Some iv /\ needsFailover (v_ctx iv) = true.

(** Collecting the images of a set under a partial function. *)
Lemma elem_of_collect (g : string -> option string) (X : gset string) n :
  n ∈ set_fold (fun id acc => match g id with Some x => {[x]} ∪ acc | None => acc end) (∅ : gset string) X <->
  exists id, id ∈ X /\ g id = Some n.
Proof.
  revert X. apply (set_fold_ind_L (fun (r : gset string) X => n ∈ r <-> exists id, id ∈ X /\ g id = Some n)).
  - set_solver.
  - intros x X r Hx IH. destruct (g x) as [y|] eqn:Hg.
    + rewrite elem_of_union, IH, elem_of_singleton. split.
      * intros [->|(id & ? & ?)]; [exists x; set_solver|exists id; set_solver].
      * intros (id & [->%elem_of_singleton|?]%elem_of_union & Hid); [left; congruence|right; eauto].
    + rewrite IH. split; intros (id & Hid & E); exists id; [set_solver|].
      apply elem_of_union in Hid as [->%elem_of_singleton|?]; [congruence|done].
Qed.

Lemma elem_of_dom_filter (Q : string * instanceViewScheduling -> Prop) `{!forall kv, Decision (Q kv)}
    (vs : gmap string instanceViewScheduling) id :
  id ∈ dom (filter Q vs) <-> exists iv, vs !! id = Some iv /\ Q (id, iv).
Proof. rewrite elem_of_dom. unfold is_Some. by setoid_rewrite map_lookup_filter_Some. Qed.

Lemma elem_of_needs vs id : id ∈ getNeedsFailoverInstances vs <-> failing vs id.
Proof. apply elem_of_dom_filter. Qed.

Lemma set_fold_ext_gset (f g : string -> gset string -> gset string) (X : gset string) :
  (forall x acc, f x acc = g x acc) -> set_fold f ∅ X = set_fold g ∅ X.
Proof. intros H. unfold set_fold. cbn. apply foldr_ext; auto. Qed.

Lemma elem_of_failover_nodes (needs : gset string) vs n :
  n ∈ getFailoverNodes needs vs <->
  exists id iv, id ∈ needs /\ vs !! id = Some iv /\ NodeIdOf iv <> "" /\ NodeIdOf iv = n.
Proof.
  unfold getFailoverNodes. rewrite (set_fold_ext_gset _ (fun id acc =>
    match (iv ← vs !! id; if decide (NodeIdOf iv <> "") then Some (NodeIdOf iv) else None) with
    | Some x => {[x]} ∪ acc | None => acc end)).
  - rewrite elem_of_collect. split.
    + intros (id & Hid & E). destruct (vs !! id) as [iv|] eqn:Hv; [|done]. cbn in E.
      case_decide; [|done]. inv_some. eauto 6.
    + intros (id & iv & Hid & Hv & Hne & <-). exists id. split; [done|]. rewrite Hv. cbn. by rewrite decide_True.
  - intros id acc. destruct (vs !! id); [|done]. cbn. by case_decide.
Qed.

Lemma elem_of_failover_units (X : gset string) vs n :
  n ∈ getFailoverUnits X vs <-> exists id iv, id ∈ X /\ vs !! id = Some iv /\ UnitIdOf iv = n.
Proof.
  unfold getFailoverUnits. rewrite (set_fold_ext_gset _ (fun id acc =>
    match UnitIdOf <$> vs !! id with Some x => {[x]} ∪ acc | None => acc end)).
  - rewrite elem_of_collect. setoid_rewrite fmap_Some. naive_solver.
  - intros id acc. by destruct (vs !! id).
Qed.

Lemma elem_of_node_instances vs id :
  id ∈ getNodeFailoverInstances (getFailoverNodes (getNeedsFailoverInstances vs) vs) vs <->
  exists iv, vs !! id = Some iv /\ on_bad_node vs (failing vs) iv.
Proof.
  unfold getNodeFailoverInstances. rewrite elem_of_dom_filter. cbn.
  setoid_rewrite elem_of_failover_nodes. setoid_rewrite elem_of_needs. unfold on_bad_node. naive_solver.
Qed.

Lemma elem_of_unit_instances (X : gset string) vs id :
  id ∈ getUnitFailoverInstances (getFailoverUnits X vs) vs <->
  exists iv, vs !! id = Some iv /\ exists id' iv', id' ∈ X /\ vs !! id' = Some iv' /\ UnitIdOf iv' = UnitIdOf iv.
Proof.
  unfold getUnitFailoverInstances. rewrite elem_of_dom_filter. cbn. by setoid_rewrite elem_of_failover_units.
Qed.

Lemma failover_spec order domain vs out dp :
  isDataParallelEnabled order vs = Some dp ->
  failoverFilter_filterOutInstances order domain vs = Some out ->
  forall id, id ∈ out <-> exists iv, vs !! id = Some iv /\ in_domain domain dp vs (failing vs) id iv.
Proof.
  intros Hdp. unfold failoverFilter_filterOutInstances, in_domain. rewrite Hdp. cbn. intros H id.
  repeat case_decide; try destruct dp; cbn in H; inv_some;
    rewrite ?elem_of_unit_instances, ?elem_of_node_instances, ?elem_of_needs.
  - unfold failing. naive_solver.
  - unfold failing. naive_solver.
  - done.
  - done.
  - setoid_rewrite elem_of_needs. naive_solver.
  - unfold failing. naive_solver.
  - setoid_rewrite elem_of_node_instances. naive_solver.
  - done.
Qed.

(** An instance the schedulability or the staleness filter would reject. *)
Definition unhealthy (now : string -> Z) (secs : Z) (vs : gmap string instanceViewScheduling) (id : string) : Prop :=
  exists iv cv, vs !! id = Some iv /\ cmsView iv = Some cv /\
    (Schedulable (cv_Status cv) = false \/ int64 (now id - TimestampMs (cv_Status cv)) ÷ 1000 > secs).

Lemma run_single_complete now sif fb rej iv rej' iv' :
  run_single now sif fb rej iv = Some (rej', iv') -> rej = false ->
  (forall f, f ∈ sif -> active fb f -> verdict now f iv = Some false) -> rej' = false.
Proof.
  revert rej iv. induction sif as [|f sif IH]; intros rej iv; cbn; [by intros [= -> _]|].
  destruct (fb && skipWhenFallback f) eqn:Hskip.
  - intros H Hr Hall. apply (IH _ _ H Hr). intros g Hg. apply Hall. by right.
  - destruct (instanceFilteredOut now f iv) as [[out v]|] eqn:Hf; [|done]. cbn. intros H -> Hall.
    pose proof (instanceFilteredOut_marks _ _ _ _ _ Hf) as ->. apply (IH _ _ H).
    + pose proof (instanceFilteredOut_verdict _ _ _ _ _ Hf) as Hv.
      rewrite (Hall f) in Hv; [by inv_some|left|done].
    + intros g Hg Hact. rewrite verdict_marked. apply Hall; [by right|done].
Qed.

Section marked_domain.
Context (vs vs' : gmap string instanceViewScheduling) (M : only_marked vs vs').

Lemma only_marked_find id iv : vs !! id = Some iv -> exists b, vs' !! id = Some (marked b iv).
Proof using All. intros Hi. specialize (M id). rewrite Hi in M. destruct (vs' !! id); [|done]. destruct M as [b ->]. eauto. Qed.

Lemma on_bad_node_marked bad b iv : on_bad_node vs' bad (marked b iv) <-> on_bad_node vs bad iv.
Proof using All.
  unfold on_bad_node. split; intros (id & jv & Hj & Hbad & Hne & Heq).
  - destruct (only_marked_lookup _ _ _ _ M Hj) as (kv & c & Hk & ->). by exists id, kv.
  - destruct (only_marked_find _ _ Hj) as [c Hc]. by exists id, (marked c jv).
Qed.

Lemma in_domain_marked domain dp bad b id iv : in_domain domain dp vs' bad id (marked b iv) <-> in_domain domain dp vs bad id iv.
Proof using All.
  unfold in_domain. repeat case_decide; try destruct dp; try done; try apply on_bad_node_marked.
  - split; intros (id' & jv & Hj & Hbad & Heq).
    + destruct (only_marked_lookup _ _ _ _ M Hj) as (kv & c & Hk & ->). by exists id', kv.
    + destruct (only_marked_find _ _ Hj) as [c Hc]. by exists id', (marked c jv).
  - split; intros (id' & jv & Hj & Hbad & Heq).
    + destruct (only_marked_lookup _ _ _ _ M Hj) as (kv & c & Hk & ->). exists id', kv.
      by rewrite on_bad_node_marked in Hbad.
    + destruct (only_marked_find _ _ Hj) as [c Hc]. exists id', (marked c jv). by rewrite on_bad_node_marked.
Qed.

Lemma isDataParallelEnabled_marked order : isDataParallelEnabled order vs' = isDataParallelEnabled order vs.
Proof using All.
  unfold isDataParallelEnabled. rewrite (only_marked_dom _ _ M). destruct (order (dom vs)) as [|id ids]; [done|].
  specialize (M id). destruct (vs !! id), (vs' !! id); try done. destruct M as [b ->]. done.
Qed.

End marked_domain.

Lemma in_domain_mono domain dp vs (bad bad' : string -> Prop) id iv :
  (forall i, bad i -> bad' i) -> in_domain domain dp vs bad id iv -> in_domain domain dp vs bad' id iv.
Proof.
  intros H. assert (forall v, on_bad_node vs bad v -> on_bad_node vs bad' v) as Hn
    by (intros v (i & jv & ? & ? & ?); exists i, jv; eauto).
  unfold in_domain. repeat case_decide; try destruct dp; eauto.
  - intros (i & jv & ? & ? & ?). exists i, jv. eauto.
  - intros (i & jv & ? & ? & ?). exists i, jv. eauto.
Qed.

(** The two passes of [filter] against a policy with one failover filter. *)
Section filter_views.
Context (order : key_order) (now : string -> Z) (vs vs' : gmap string instanceViewScheduling).
Context (sif : list singleInstanceFilter) (domain : string) (fb : bool) (av : gset string) (dp : bool).
Context (H : filter_views order now vs sif [failoverFilter domain] fb = Some (av, vs')).
Context (Hdp : isDataParallelEnabled order vs = Some dp).

Lemma filter_views_inv : exists rs out, run_singles now sif fb vs = Some rs /\
  vs' = snd <$> rs /\ failoverFilter_filterOutInstances order domain vs' = Some out /\
  av = dom (filter (fun kv => kv.2.1 = false) rs) ∖ out.
Proof using H.
  unfold filter_views in H. destruct (run_singles now sif fb vs) as [rs|] eqn:E; [|done]. cbn in H.
  destruct (failoverFilter_filterOutInstances order domain (snd <$> rs)) as [out|] eqn:Eo; [|done].
  cbn in H. inv_some. eauto 6.
Qed.

Lemma filter_views_marked : only_marked vs vs'.
Proof using H. destruct filter_views_inv as (rs & out & E & -> & _). by eapply run_singles_marks. Qed.

Lemma filter_views_iff id :
  id ∈ av <-> exists iv, vs !! id = Some iv /\
    (forall f, f ∈ sif -> active fb f -> verdict (now id) f iv = Some false) /\
    ~ in_domain domain dp vs (failing vs') id iv.
Proof using H Hdp.
  pose proof filter_views_marked as M. destruct filter_views_inv as (rs & out & E & Ev & Eo & ->).
  rewrite <- (isDataParallelEnabled_marked vs vs' M) in Hdp.
  pose proof (failover_spec order domain vs' out dp Hdp Eo) as Hout.
  rewrite elem_of_difference, elem_of_dom, Hout. pose proof (map_traverse_lookup _ _ _ E id) as Hl.
  assert (vs' !! id = snd <$> rs !! id) as Ei by (by rewrite Ev, lookup_fmap). split.
  - intros [[[r v] Hr] Hnot]. apply map_lookup_filter_Some in Hr as [Hr Hrej]. cbn in Hrej. subst r.
    rewrite Hr in Hl. destruct (vs !! id) as [iv|] eqn:Hi; [|done].
    destruct (run_single_spec _ _ _ _ _ _ _ Hl) as ([b ->] & Hall & _). exists iv. split; [done|].
    split; [by apply Hall|]. intros Hd. apply Hnot. exists (marked b iv). rewrite Ei, Hr. split; [done|].
    by apply (in_domain_marked vs vs' M).
  - intros (iv & Hi & Hall & Hd). rewrite Hi in Hl. destruct (rs !! id) as [[r v]|] eqn:Hr; [|done].
    pose proof (run_single_complete _ _ _ _ _ _ _ Hl eq_refl Hall) as ->. split.
    + exists (false, v). by apply map_lookup_filter_Some.
    + rewrite Ei. intros (jv & [= <-] & Hdom). destruct (run_single_spec _ _ _ _ _ _ _ Hl) as ([b ->] & _).
      apply Hd. by apply (in_domain_marked vs vs' M) in Hdom.
Qed.

(** Unhealthy instances are marked, in both passes. *)
Lemma filter_views_marks_unhealthy secs id :
  schedulabilityFilter ∈ sif -> stalenessFilter secs ∈ sif -> unhealthy now secs vs id -> failing vs' id.
Proof using H.
  intros Hs Ht (iv & cv & Hi & Hcv & Hun). destruct filter_views_inv as (rs & out & E & -> & _).
  pose proof (map_traverse_lookup _ _ _ E id) as Hl. rewrite Hi in Hl.
  destruct (rs !! id) as [[r v]|] eqn:Hr; [|done].
  destruct (run_single_spec _ _ _ _ _ _ _ Hl) as (_ & _ & Hm & _).
  exists v. rewrite lookup_fmap, Hr. split; [done|]. destruct Hun as [Hns|Hst].
  - destruct (Hm _ Hs ltac:(apply andb_false_r)) as (o & Ho & Himp). apply Himp.
    unfold verdict in Ho. cbn in Ho. rewrite Hcv in Ho. cbn in Ho. inv_some. by rewrite Hns.
  - destruct (Hm _ Ht ltac:(apply andb_false_r)) as (o & Ho & Himp). apply Himp.
    unfold verdict in Ho. cbn in Ho. rewrite Hcv in Ho. cbn in Ho. inv_some. by rewrite bool_decide_eq_true_2.
Qed.

End filter_views.

Lemma filter_views_safe (order : key_order) now vs sif domain fb av vs' dp secs id iv :
  filter_views order now vs sif [failoverFilter domain] fb = Some (av, vs') ->
  isDataParallelEnabled order vs = Some dp ->
  schedulabilityFilter ∈ sif -> stalenessFilter secs ∈ sif ->
  id ∈ av -> vs !! id = Some iv ->
  ~ unhealthy now secs vs id /\ ~ in_domain domain dp vs (unhealthy now secs vs) id iv.
Proof.
  intros H Hdp Hs Ht Hid Hi.
  apply (filter_views_iff order now vs vs' sif domain fb av dp H Hdp) in Hid as (jv & Hj & Hall & Hd).
  assert (jv = iv) as -> by congruence. split.
  - intros (kv & cv & Hk & Hcv & Hun). assert (kv = iv) as -> by congruence.
    pose proof (Hall _ Hs ltac:(apply andb_false_r)) as V1. pose proof (Hall _ Ht ltac:(apply andb_false_r)) as V2.
    unfold verdict in V1, V2. cbn in V1, V2. rewrite Hcv in V1, V2. cbn in V1, V2.
    injection V1 as V1. injection V2 as V2. apply negb_false_iff in V1. apply bool_decide_eq_false in V2.
    destruct Hun; [congruence|done].
  - intros Hu. apply Hd. eapply in_domain_mono; [|exact Hu]. intros i Hun.
    by eapply (filter_views_marks_unhealthy order now vs vs' sif domain fb av H secs).
Qed.

(** ** Theorems *)

Definition demo_ivs (id node : string) (sched : bool) : instanceViewScheduling :=
  let st := mkStatus id sched 100 1 1 [] [] 0 0 0 0 0 0 0 0 0 0 0 0 0 0 0 0 0 0 0 0 0 0 0 0 0 0
    f_zero f_zero f_zero f_zero 0 f_zero 0 in
  let md := mkMetadata id "decode" "" "10.0.0.1" "" 8000 0 0 node 1 1 "" 0 0 0 f_zero f_zero "" 0 1024 in
  let inst := mkLLMInstance 0 id "m" InferTypeDecode (mkEndpoint "10.0.0.1" 8000) "" 0 0 1 in
  mkIvs InferTypeDecode (Some (mkCmsView inst st md zero_LocalAccount "")) None inst id empty_ctx.

Definition demo_views : gmap string instanceViewScheduling :=
  <["a" := demo_ivs "a" "n1" true]> (<["b" := demo_ivs "b" "n1" false]> {["c" := demo_ivs "c" "n2" true]}).

Definition demo_filters : list singleInstanceFilter := [schedulabilityFilter; stalenessFilter 60].

(** C15. [filter] keeps exactly the instances that pass every filter of the pass and
    that are outside the failover domain (instance, node, unit or both) of the
    instances marked during the pass, and it changes nothing else in the views. *)
Theorem filter_exact (order : key_order) now vs sif domain fb av vs' dp :
  filter_views order now vs sif [failoverFilter domain] fb = Some (av, vs') ->
  isDataParallelEnabled order vs = Some dp ->
  only_marked vs vs' /\
  forall id, id ∈ av <-> exists iv, vs !! id = Some iv /\
    (forall f, f ∈ sif -> active fb f -> verdict (now id) f iv = Some false) /\
    ~ in_domain domain dp vs (failing vs') id iv.
Proof. intros H Hdp. split; [by eapply filter_views_marked|]. intros id. by eapply filter_views_iff. Qed.

Lemma filter_exact_witness :
  exists av vs', filter_views elements (fun _ => 100) demo_views demo_filters [failoverFilter FailoverDomainNode] false = Some (av, vs') /\
    (only_marked demo_views vs' /\
     forall id, id ∈ av <-> exists iv, demo_views !! id = Some iv /\
       (forall f, f ∈ demo_filters -> active false f -> verdict 100 f iv = Some false) /\
       ~ in_domain FailoverDomainNode false demo_views (failing vs') id iv).
Proof.
  eexists _, _. split; [vm_compute; reflexivity|].
  apply (filter_exact elements (fun _ => 100) demo_views demo_filters FailoverDomainNode false);
    vm_compute; reflexivity.
Defined.

(** Whatever the failover domain, and also in the fallback pass, no instance that
    is unschedulable or stale, and no instance that shares the failover domain of
    one, is available for scheduling. *)
Theorem filter_excludes_unhealthy_domain (order : key_order) now vs sif domain fb av vs' dp secs id iv :
  filter_views order now vs sif [failoverFilter domain] fb = Some (av, vs') ->
  isDataParallelEnabled order vs = Some dp ->
  schedulabilityFilter ∈ sif -> stalenessFilter secs ∈ sif ->
  id ∈ av -> vs !! id = Some iv ->
  ~ unhealthy now secs vs id /\ ~ in_domain domain dp vs (unhealthy now secs vs) id iv.
Proof. apply filter_views_safe. Qed.

Lemma filter_excludes_unhealthy_domain_witness :
  exists vs', filter_views elements (fun _ => 100) demo_views demo_filters [failoverFilter FailoverDomainNode] true = Some ({["c"]}, vs') /\
    ~ unhealthy (fun _ => 100) 60 demo_views "c".
Proof.
  eexists _. split; [vm_compute; reflexivity|].
  eapply (filter_excludes_unhealthy_domain elements (fun _ => 100) demo_views demo_filters FailoverDomainNode true
    {["c"]} _ false 60 "c" (demo_ivs "c" "n2" true)); [vm_compute; reflexivity..| | | |vm_compute; reflexivity].
  - left.
  - right. left.
  - set_solver.
Defined.
