(* ===== verification/Selectors.v ===== *)
(** * Instance selectors

    [pkg/scheduler/policy/scheduling_selectors.go]. A selector ranges over the
    available views and picks one by its metrics. The range order is an argument, the
    random choice of the top-K selector too. [None] is a panic: a metric that was not
    calculated, a view without CMS view, [rand.Intn] of a number that is not positive.

    [sort.SliceStable] is the insertion sort that Go runs on blocks of up to twenty
    elements; on a strict weak order, which the metrics form when no value is NaN, a
    stable sort has one result. *)

From Stdlib Require Import Sorting.
From stdpp Require Import base gmap sets list strings numbers sorting.
From S2P Require Import Prelude GoFloat Types CmsTypes Lrs Metrics Filters.

Local Open Scope Z_scope.

Abbreviation entry := (string * instanceViewScheduling)%type (only parsing).

(** The entries in the order of a [range]. *)
Definition ranged (order : key_order) (vs : views) : list entry :=
  omap (fun id => (id,.) <$> vs !! id) (order (dom vs)).

(** ** Metric-based selection *)

(** The comparison of two views on a list of metrics, the first one that differs
    decides. *)
Fixpoint cmp_metrics (metricNames : list string) (a b : instanceViewScheduling) : option comparison :=
  match metricNames with
  | [] => Some Eq
  | name :: names =>
      ma ← metrics (v_ctx a) !! name;
      mb ← metrics (v_ctx b) !! name;
      if Less ma mb then Some Lt
      else if Less mb ma then Some Gt
      else cmp_metrics names a b
  end.

Fixpoint best_from (names : list string) (selected : entry) (l : list entry) : option entry :=
  match l with
  | [] => Some selected
  | e :: l =>
      c ← cmp_metrics names e.2 selected.2;
      best_from names (match c with Lt => e | _ => selected end) l
  end.

Definition best (names : list string) (l : list entry) : option (option entry) :=
  match l with
  | [] => Some None
  | e :: l => Some <$> best_from names e l
  end.

(** One step of insertion sort: [x] moves left past the elements it is less than. The
    sorted prefix is kept in reverse. *)
Fixpoint insert_left (names : list string) (x : entry) (prefix : list entry) : option (list entry) :=
  match prefix with
  | [] => Some [x]
  | y :: rest =>
      c ← cmp_metrics names x.2 y.2;
      match c with
      | Lt => rest' ← insert_left names x rest; Some (y :: rest')
      | _ => Some (x :: y :: rest)
      end
  end.

Fixpoint sort_from (names : list string) (prefix l : list entry) : option (list entry) :=
  match l with
  | [] => Some (reverse prefix)
  | x :: l => prefix ← insert_left names x prefix; sort_from names prefix l
  end.

Definition SliceStable (names : list string) (l : list entry) : option (list entry) := sort_from names [] l.

(** [rnd n] is [rand.Intn(n)]. *)
Definition randomChoiceFromTopK (rnd : Z -> Z) (topK : Z) (names : list string) (l : list entry)
    : option (option entry) :=
  sorted ← SliceStable names l;
  let topK := Z.min topK (Z.of_nat (length sorted)) in
  if decide (topK <= 0) then None
  else e ← sorted !! Z.to_nat (rnd topK); Some (Some e).

(** ** Adaptive PD selection under SLO *)

Fixpoint apd_prefill (selected : option entry) (l : list entry) : option (option entry) :=
  match l with
  | [] => Some selected
  | e :: l =>
      match selected with
      | None => apd_prefill (Some e) l
      | Some s =>
          m ← metrics (v_ctx e.2) !! SchedulingMetricPredictedTtft;
          ms ← metrics (v_ctx s.2) !! SchedulingMetricPredictedTtft;
          if Less m ms then apd_prefill (Some e) l
          else if Equal m ms
          then cv ← cmsView e.2;
               apd_prefill (Some (if decide (cv_ReservedInferType cv = InferTypePrefill) then e else s)) l
          else apd_prefill selected l
      end
  end.

Fixpoint apd_decode (selected : option entry) (l : list entry) : option (option entry) :=
  match l with
  | [] => Some selected
  | e :: l =>
      m ← metrics (v_ctx e.2) !! SchedulingMetricPredictedTpot;
      match selected with
      | None => apd_decode (Some e) l
      | Some s =>
          cv ← cmsView e.2;
          if decide (cv_ReservedInferType cv = InferTypeDecode) then Some (Some e)
          else
            ms ← metrics (v_ctx s.2) !! SchedulingMetricPredictedTpot;
            apd_decode (Some (if Less ms m then e else s)) l
      end
  end.

(** The fallback loop keeps the best instance over and under the threshold. *)
Fixpoint apd_fallback (threshold : float) (lowestOver highestUnder : option entry) (l : list entry)
    : option (option entry * option entry) :=
  match l with
  | [] => Some (lowestOver, highestUnder)
  | e :: l =>
      tpot ← metrics (v_ctx e.2) !! SchedulingMetricPredictedTpot;
      ttft ← metrics (v_ctx e.2) !! SchedulingMetricPredictedTtft;
      if ValueLess tpot threshold then
        match highestUnder with
        | None => apd_fallback threshold lowestOver (Some e) l
        | Some h =>
            htpot ← metrics (v_ctx h.2) !! SchedulingMetricPredictedTpot;
            httft ← metrics (v_ctx h.2) !! SchedulingMetricPredictedTtft;
            let higherTpot := Less htpot tpot in
            let lowerTtft := Equal htpot tpot && Less ttft httft in
            apd_fallback threshold lowestOver (Some (if higherTpot || lowerTtft then e else h)) l
        end
      else
        match lowestOver with
        | None => apd_fallback threshold (Some e) highestUnder l
        | Some o =>
            otpot ← metrics (v_ctx o.2) !! SchedulingMetricPredictedTpot;
            apd_fallback threshold (Some (if Less tpot otpot then e else o)) highestUnder l
        end
  end.

(** ** The selector interface *)

Inductive dispatchSelector :=
  | metricBasedSelector (topK : Z) (metricNames : list string)
  | fixedPreferenceSelector (lastSelectedInstanceId : string)
  | sloPrefillApdSelector
  | sloDecodeApdSelector (tpotSlo tpotSloDispatchThreshold : float).

Definition selected_id (r : option entry) : option string := fst <$> r.

Section select.
Context {LP : LatencyPredictor}.

(** [metric.Calculate(nil, instanceView)] on the TTFT metric held by the view. *)
Definition recalculate_ttft (now : Z) (iv : instanceViewScheduling) : option instanceViewScheduling :=
  m ← metrics (v_ctx iv) !! SchedulingMetricPredictedTtft;
  v ← PredictedTtft_Calculate now None iv;
  Some (with_ctx (set_metric (mkMetric SchedulingMetricPredictedTtft (m_reversed m) v) (v_ctx iv)) iv).

(** The selected id, the selector and the views after the call. *)
Definition selectInstance (order : key_order) (rnd : Z -> Z) (now : string -> Z) (s : dispatchSelector)
    (vs : views) (fallback : bool) : option (option string * dispatchSelector * views) :=
  match s with
  | metricBasedSelector topK names =>
      r ← (if decide (topK = 1) then best names (ranged order vs)
           else randomChoiceFromTopK rnd topK names (ranged order vs));
      Some (selected_id r, s, vs)
  | fixedPreferenceSelector last =>
      match vs !! last with
      | Some _ => Some (Some last, s, vs)
      | None =>
          match order (dom vs) with
          | id :: _ => Some (Some id, fixedPreferenceSelector id, vs)
          | [] => Some (None, s, vs)
          end
      end
  | sloPrefillApdSelector =>
      r ← apd_prefill None (ranged order vs); Some (selected_id r, s, vs)
  | sloDecodeApdSelector tpotSlo threshold =>
      if fallback then
        vs ← map_traverse (fun id => recalculate_ttft (now id)) vs;
        '(lowestOver, highestUnder) ← apd_fallback (f32_mul tpotSlo threshold) None None (ranged order vs);
        Some (selected_id (match highestUnder with Some h => Some h | None => lowestOver end), s, vs)
      else r ← apd_decode None (ranged order vs); Some (selected_id r, s, vs)
  end.

End select.

(** ** Lemmas *)

Lemma elem_of_ranged (order : key_order) vs id iv :
  visits_once order -> (id, iv) ∈ ranged order vs <-> vs !! id = Some iv.
Proof.
  intros Ho. unfold ranged. rewrite list_elem_of_omap. setoid_rewrite (elem_of_order order _ _ Ho). split.
  - intros (k & _ & Hk). destruct (vs !! k) as [v|] eqn:E; [|done]. by injection Hk as -> ->.
  - intros Hi. exists id. rewrite elem_of_dom, Hi. split; [by eexists|done].
Qed.

Lemma ranged_fst (order : key_order) vs : visits_once order -> (ranged order vs).*1 ≡ₚ elements (dom vs).
Proof.
  intros Ho. rewrite <- (Ho (dom vs)). unfold ranged.
  assert (forall l, (forall k, k ∈ l -> is_Some (vs !! k)) -> (omap (fun id => (id,.) <$> vs !! id) l).*1 = l) as ->;
    [|done|].
  - intros l. induction l as [|k l IH]; intros Hl; [done|]. cbn. destruct (Hl k) as [v ->]; [left|]. cbn.
    f_equal. apply IH. intros j Hj. apply Hl. by right.
  - intros k. by rewrite (elem_of_order order _ _ Ho), elem_of_dom.
Qed.

(** ** The order on measured views *)

(** The metric [name] is there, is not NaN and is compared in the direction of its
    type. *)
Definition metric_ok (name : string) (iv : instanceViewScheduling) : Prop :=
  exists m, metrics (v_ctx iv) !! name = Some m /\ is_nan (m_value m) = false /\
    m_reversed m = bool_decide (name = SchedulingMetricKVCacheHitLen).

Definition measured (names : list string) (iv : instanceViewScheduling) : Prop :=
  forall name, name ∈ names -> metric_ok name iv.

(** A numeric key: smaller is better. *)
Definition mkey (name : string) (iv : instanceViewScheduling) : Z * Z * Z :=
  match metrics (v_ctx iv) !! name with
  | Some m =>
      let '(a, b, c) := fkey (m_value m) in
      if m_reversed m then (- a, - b, - c) else (a, b, c)
  | None => (0, 0, 0)
  end.

Lemma Less_key name a b ma mb :
  metric_ok name a -> metric_ok name b ->
  metrics (v_ctx a) !! name = Some ma -> metrics (v_ctx b) !! name = Some mb ->
  Less ma mb = true <-> lt3 (mkey name a) (mkey name b).
Proof.
  intros (xa & Ha & Na & Ra) (xb & Hb & Nb & Rb) Ea Eb. assert (xa = ma) as -> by congruence. assert (xb = mb) as -> by congruence.
  unfold Less, ValueLess, GetValue, mkey, fgt. rewrite Ea, Eb.
  destruct (m_reversed ma), (m_reversed mb); try congruence; change SpecFloat.SFltb with flt;
    rewrite flt_key by done; destruct (fkey (m_value ma)) as [[??]?], (fkey (m_value mb)) as [[??]?]; unfold lt3; lia.
Qed.

(** Lexicographic comparison of the keys. *)
Fixpoint lex_lt (names : list string) (a b : instanceViewScheduling) : Prop :=
  match names with
  | [] => False
  | name :: names => lt3 (mkey name a) (mkey name b) \/ (mkey name a = mkey name b /\ lex_lt names a b)
  end.

Lemma lex_lt_irrefl names a : ~ lex_lt names a a.
Proof. induction names as [|n ns IH]; cbn; [tauto|]. intros [H|[_ H]]; [by apply lt3_irrefl in H|by apply IH]. Qed.

Lemma lex_lt_trans names a b c : lex_lt names a b -> lex_lt names b c -> lex_lt names a c.
Proof.
  induction names as [|n ns IH]; cbn; [done|]. intros [H1|[E1 H1]] [H2|[E2 H2]].
  - left. by eapply lt3_trans.
  - left. by rewrite <- E2.
  - left. by rewrite E1.
  - right. split; [congruence|eauto].
Qed.

(** Incomparability is transitive: what is not worse composes. *)
Lemma lex_lt_cotrans names a b c : lex_lt names a c -> lex_lt names a b \/ lex_lt names b c.
Proof.
  induction names as [|n ns IH]; cbn; [done|]. intros [H|[E H]].
  - destruct (lt3_total (mkey n a) (mkey n b)) as [?|[E|?]]; [auto| |].
    + right. left. by rewrite <- E.
    + right. left. by eapply lt3_trans.
  - destruct (lt3_total (mkey n a) (mkey n b)) as [?|[E'|H']]; [auto| |].
    + destruct (IH H); [left; auto|]. right. right. split; [congruence|done].
    + right. left. by rewrite <- E.
Qed.

Lemma cmp_metrics_spec names a b :
  measured names a -> measured names b ->
  exists c, cmp_metrics names a b = Some c /\ (c = Lt <-> lex_lt names a b) /\ (c = Gt <-> lex_lt names b a).
Proof.
  induction names as [|n ns IH]; intros Ha Hb; cbn; [by exists Eq|].
  assert (metric_ok n a /\ metric_ok n b) as [Oa Ob] by (split; [apply Ha | apply Hb]; left).
  destruct Oa as (ma & Ea & ?), Ob as (mb & Eb & ?). rewrite Ea, Eb. cbn.
  assert (Less ma mb = true <-> lt3 (mkey n a) (mkey n b)) as L1 by (apply Less_key; unfold metric_ok; eauto).
  assert (Less mb ma = true <-> lt3 (mkey n b) (mkey n a)) as L2 by (apply Less_key; unfold metric_ok; eauto).
  pose proof (lt3_irrefl (mkey n a)) as Irr.
  destruct (Less ma mb); [|destruct (Less mb ma)].
  - destruct L1 as [L1 _]. specialize (L1 eq_refl). exists Lt. split_and!; [done|naive_solver|]. split; [done|].
    intros [Hx|[E _]]; exfalso; [apply Irr; by eapply lt3_trans|rewrite E in L1; done].
  - destruct L2 as [L2 _]. specialize (L2 eq_refl). exists Gt. split_and!; [done| |naive_solver]. split; [done|].
    intros [Hx|[E _]]; exfalso; [apply Irr; by eapply lt3_trans|rewrite <- E in L2; done].
  - destruct IH as (c & -> & Hl & Hg); [intros k Hk; apply Ha; by right|intros k Hk; apply Hb; by right|].
    assert (mkey n a = mkey n b) as E.
    { destruct (lt3_total (mkey n a) (mkey n b)) as [?|[?|?]]; [|done|]; exfalso; intuition discriminate. }
    rewrite E in *. exists c. split; [done|]. rewrite Hl, Hg. pose proof (lt3_irrefl (mkey n b)). naive_solver.
Qed.

(** ** [best] finds a minimum *)

Definition all_measured (names : list string) (l : list entry) : Prop := Forall (fun e => measured names e.2) l.

Lemma best_from_spec names s l :
  measured names s.2 -> all_measured names l ->
  exists r, best_from names s l = Some r /\ r ∈ s :: l /\ forall e, e ∈ s :: l -> ~ lex_lt names e.2 r.2.
Proof.
  revert s. induction l as [|e l IH]; intros s Hs Hl.
  - exists s. split_and!; [done|left|]. intros e ->%list_elem_of_singleton. apply lex_lt_irrefl.
  - inversion_clear Hl as [|?? He Hl']. cbn. destruct (cmp_metrics_spec names e.2 s.2 He Hs) as (c & -> & Hlt & _). cbn.
    destruct (IH (match c with Lt => e | _ => s end)) as (r & Hr & Hin & Hmin); [by destruct c|done|].
    exists r. split; [done|]. split; [destruct c; set_solver|].
    assert (~ lex_lt names (match c with Lt => e | _ => s end).2 r.2) as Hm by (apply Hmin; left).
    intros x [->|[->|Hx]%elem_of_cons]%elem_of_cons; [| |apply Hmin; by right].
    + destruct c; try done. intros Hxr. apply Hm. eapply lex_lt_trans; [by apply Hlt|done].
    + destruct c; try done; intros Hxr; destruct (lex_lt_cotrans _ _ s.2 _ Hxr) as [H|H]; try done; apply Hlt in H; done.
Qed.

(** ** [SliceStable] sorts *)

Definition not_worse (names : list string) (x y : entry) : Prop := ~ lex_lt names y.2 x.2.

Lemma not_worse_trans names x y z : not_worse names x y -> not_worse names y z -> not_worse names x z.
Proof. unfold not_worse. intros H1 H2 H3. destruct (lex_lt_cotrans _ _ y.2 _ H3); auto. Qed.

(** The reversed prefix is in descending order. *)
Definition descending (names : list string) (l : list entry) : Prop :=
  StronglySorted (fun x y => not_worse names y x) l.

Lemma insert_left_spec names x p :
  measured names x.2 -> all_measured names p -> descending names p ->
  exists p', insert_left names x p = Some p' /\ p' ≡ₚ x :: p /\ descending names p'.
Proof.
  intros Hx Hp Hd. induction p as [|y p IH]; cbn.
  { exists [x]. split_and!; [done..|]. repeat constructor. }
  inversion_clear Hp as [|?? Hy Hp']. inversion_clear Hd as [|?? Hd' Hall].
  destruct (cmp_metrics_spec names x.2 y.2 Hx Hy) as (c & -> & Hlt & _). cbn.
  assert (c <> Lt -> exists p', Some (x :: y :: p) = Some p' /\ p' ≡ₚ x :: y :: p /\ descending names p') as Hput.
  { intros Hc. exists (x :: y :: p). split_and!; [done..|].
    assert (not_worse names y x) as Hyx by (intros H; apply Hc; by apply Hlt).
    constructor; [by constructor|]. constructor; [done|]. eapply Forall_impl; [exact Hall|].
    intros z Hz. exact (not_worse_trans _ _ _ _ Hz Hyx). }
  destruct c; [by apply Hput| |by apply Hput].
  destruct IH as (p' & -> & Hperm & Hs); [done..|]. cbn. exists (y :: p'). split_and!; [done| |].
  - rewrite Hperm. apply Permutation_swap.
  - constructor; [done|]. rewrite Hperm. constructor; [|done].
    intros H. apply (lex_lt_irrefl names x.2). eapply lex_lt_trans; [by apply Hlt|done].
Qed.

Lemma sort_from_spec names p l :
  all_measured names p -> all_measured names l -> descending names p ->
  exists r, sort_from names p l = Some r /\ r ≡ₚ p ++ l /\ descending names (reverse r).
Proof.
  revert p. induction l as [|x l IH]; intros p Hp Hl Hd; cbn.
  - exists (reverse p). rewrite reverse_involutive, app_nil_r. split_and!; [done| |done]. apply reverse_Permutation.
  - inversion_clear Hl as [|?? Hx Hl']. destruct (insert_left_spec names x p Hx Hp Hd) as (p' & -> & Hperm & Hs). cbn.
    destruct (IH p') as (r & -> & Hr & Hrs); [unfold all_measured; rewrite Hperm; by constructor|done..|].
    exists r. split_and!; [done| |done]. rewrite Hr, Hperm. cbn. apply Permutation_middle.
Qed.

Lemma SliceStable_spec names l :
  all_measured names l ->
  exists r, SliceStable names l = Some r /\ r ≡ₚ l /\ StronglySorted (not_worse names) r.
Proof.
  intros Hl. destruct (sort_from_spec names [] l) as (r & H & Hp & Hs); [constructor|done|constructor|].
  exists r. split_and!; [done..|]. clear H Hp. revert Hs. unfold descending.
  induction r as [|x r IH]; intros Hs; [constructor|]. rewrite reverse_cons in Hs.
  apply StronglySorted_app in Hs as (Hc & Hs & _). constructor; [by apply IH|].
  apply Forall_forall. intros y Hy. apply Hc; [by rewrite elem_of_reverse|left].
Qed.

(** ** Counting the better instances *)

#[export] Instance lt3_dec a b : Decision (lt3 a b).
Proof. destruct a as [[a1 a2] a3], b as [[b1 b2] b3]. unfold lt3. solve_decision. Defined.

#[export] Instance lex_lt_dec names a b : Decision (lex_lt names a b).
Proof. revert a b. induction names as [|n ns IH]; intros a b; cbn; [apply False_dec|solve_decision]. Defined.

Lemma ranged_Permutation (order : key_order) vs : visits_once order -> ranged order vs ≡ₚ map_to_list vs.
Proof.
  intros Ho. apply NoDup_Permutation.
  - apply (NoDup_fmap_1 fst). rewrite (ranged_fst order vs Ho). apply NoDup_elements.
  - apply NoDup_map_to_list.
  - intros [id iv]. rewrite (elem_of_ranged order vs id iv Ho). symmetry. apply elem_of_map_to_list.
Qed.

Lemma size_filter_ranged (order : key_order) vs (P : entry -> Prop) `{!forall e, Decision (P e)} :
  visits_once order -> size (filter P vs) = length (filter P (ranged order vs)).
Proof.
  intros Ho. rewrite <- length_map_to_list, (ranged_Permutation order vs Ho). apply Permutation_length.
  apply NoDup_Permutation; [apply NoDup_map_to_list|apply NoDup_filter, NoDup_map_to_list|]. intros [id iv].
  rewrite elem_of_map_to_list, map_lookup_filter_Some, list_elem_of_filter, elem_of_map_to_list. tauto.
Qed.

Lemma all_measured_ranged (order : key_order) vs names :
  visits_once order -> (forall id iv, vs !! id = Some iv -> measured names iv) -> all_measured names (ranged order vs).
Proof. intros Ho Hm. apply Forall_forall. intros [id iv] Hin%elem_of_ranged; [|done]. by eapply Hm. Qed.

(** In a sorted slice at most [i] entries are better than the one at index [i]. *)
Lemma sorted_better names l i e :
  StronglySorted (not_worse names) l -> l !! i = Some e ->
  (length (filter (fun x : entry => lex_lt names x.2 e.2) l) <= i)%nat.
Proof.
  revert i. induction l as [|x l IH]; intros i Hs Hi; [done|]. inversion_clear Hs as [|?? Hs' Hall].
  destruct i as [|i].
  - injection Hi as ->. rewrite filter_cons_False by apply lex_lt_irrefl.
    assert (filter (fun y : entry => lex_lt names y.2 e.2) l = []) as ->; [|cbn; lia].
    clear -Hall. induction Hall as [|y l Hy Hl IH]; [done|]. by rewrite filter_cons_False.
  - specialize (IH i Hs' Hi). rewrite filter_cons. case_decide; cbn in *; lia.
Qed.

Lemma ranged_nonempty (order : key_order) vs : visits_once order -> vs <> ∅ -> ranged order vs <> [].
Proof.
  intros Ho Hne. apply map_choose in Hne as (id & iv & Hi). apply (elem_of_ranged order vs id iv Ho) in Hi.
  by destruct (ranged order vs); [apply elem_of_nil in Hi|].
Qed.

(** The entry chosen by the metric-based selector. *)
Definition fewer_better (names : list string) (topK : Z) (l : list entry) (e : entry) : Prop :=
  e ∈ l /\ Z.of_nat (length (filter (fun x : entry => lex_lt names x.2 e.2) l)) < topK.

Lemma best_spec names l :
  l <> [] -> all_measured names l -> exists e, best names l = Some (Some e) /\ fewer_better names 1 l e.
Proof.
  intros Hl Hm. destruct l as [|s l]; [done|]. inversion_clear Hm as [|?? Hs Hm'].
  destruct (best_from_spec names s l Hs Hm') as (r & H & Hin & Hmin). exists r. unfold best. rewrite H.
  split; [done|]. split; [done|].
  assert (filter (fun x : entry => lex_lt names x.2 r.2) (s :: l) = []) as ->; [|cbn; lia].
  clear -Hmin. induction (s :: l) as [|y k IH]; [done|]. rewrite filter_cons_False; [|apply Hmin; left].
  apply IH. intros e He. apply Hmin. by right.
Qed.

Lemma randomChoice_spec (rnd : Z -> Z) topK names l :
  (forall n, 0 < n -> 0 <= rnd n < n) -> 1 <= topK -> l <> [] -> all_measured names l ->
  exists e, randomChoiceFromTopK rnd topK names l = Some (Some e) /\ fewer_better names topK l e.
Proof.
  intros Hrnd Hk Hl Hm. destruct (SliceStable_spec names l Hm) as (r & H & Hp & Hs).
  unfold randomChoiceFromTopK. rewrite H. cbn. assert (length r > 0)%nat as Hlen.
  { rewrite Hp. destruct l; [done|cbn; lia]. }
  rewrite decide_False by lia. set (k := Z.min topK (Z.of_nat (length r))).
  pose proof (Hrnd k ltac:(lia)) as Hr. destruct (lookup_lt_is_Some_2 r (Z.to_nat (rnd k))) as [e He]; [lia|].
  exists e. rewrite He. split; [done|]. split.
  - rewrite <- Hp. by apply list_elem_of_lookup_2 in He.
  - rewrite <- Hp. pose proof (sorted_better names r _ e Hs He). lia.
Qed.

(** ** The adaptive PD selectors *)

Definition reserved (t : InferType) (iv : instanceViewScheduling) : Prop :=
  exists cv, cmsView iv = Some cv /\ cv_ReservedInferType cv = t.

Section apd.
Context (key := fun e : entry => mkey SchedulingMetricPredictedTtft e.2).

(** Lowest TTFT among the visited entries, a prefill-reserved one if there is one
    among the ties. *)
Definition apd_prefill_best (seen : list entry) (s : entry) : Prop :=
  s ∈ seen /\ (forall e, e ∈ seen -> ~ lt3 (key e) (key s)) /\
  (forall e, e ∈ seen -> key e = key s -> reserved InferTypePrefill e.2 -> reserved InferTypePrefill s.2).

Lemma Equal_key name a b ma mb :
  metric_ok name a -> metric_ok name b ->
  metrics (v_ctx a) !! name = Some ma -> metrics (v_ctx b) !! name = Some mb ->
  Equal ma mb = true <-> mkey name a = mkey name b.
Proof.
  intros Oa Ob Ea Eb. unfold Equal. rewrite andb_true_iff, !negb_true_iff, <- !not_true_iff_false.
  rewrite (Less_key name a b), (Less_key name b a) by done. split.
  - intros [H1 H2]. destruct (lt3_total (mkey name a) (mkey name b)) as [?|[?|?]]; done.
  - intros ->. split; apply lt3_irrefl.
Qed.

Lemma apd_prefill_spec seen s l :
  apd_prefill_best seen s -> metric_ok SchedulingMetricPredictedTtft s.2 ->
  Forall (fun e => metric_ok SchedulingMetricPredictedTtft e.2 /\ is_Some (cmsView e.2)) l ->
  exists r, apd_prefill (Some s) l = Some (Some r) /\ apd_prefill_best (seen ++ l) r.
Proof.
  revert seen s. induction l as [|e l IH]; intros seen s (Hin & Hmin & Hres) Hs Hl.
  { exists s. by rewrite app_nil_r. }
  apply Forall_cons in Hl as [[He [cv Hcv]] Hl']. cbn.
  destruct He as (m & Em & Hm), Hs as (ms & Es & Hms). rewrite Em, Es. cbn.
  assert (metric_ok SchedulingMetricPredictedTtft e.2 /\ metric_ok SchedulingMetricPredictedTtft s.2) as [Oe Os]
    by (split; unfold metric_ok; eauto).
  pose proof (Less_key _ _ _ _ _ Oe Os Em Es) as L. pose proof (Equal_key _ _ _ _ _ Oe Os Em Es) as Q.
  change (seen ++ e :: l) with (seen ++ [e] ++ l). rewrite app_assoc.
  destruct (Less m ms); [|destruct (Equal m ms)].
  - apply IH; [|done..]. pose proof (proj1 L eq_refl) as E1. split_and!; [set_solver| |].
    + intros x [Hx|<-%list_elem_of_singleton]%elem_of_app Hlt; [|by apply lt3_irrefl in Hlt].
      apply (Hmin x Hx). by eapply lt3_trans.
    + intros x [Hx|<-%list_elem_of_singleton]%elem_of_app Hk; [|done]. exfalso. apply (Hmin x Hx). by rewrite Hk.
  - rewrite Hcv. cbn. assert (key e = key s) as Hk by by apply Q. apply IH; [|destruct (decide _); [exact Oe|exact Os]|done].
    destruct (decide (cv_ReservedInferType cv = InferTypePrefill)) as [Hd|Hd]; split_and!.
    + set_solver.
    + intros x [Hx|<-%list_elem_of_singleton]%elem_of_app; rewrite ?Hk; [by apply Hmin|apply lt3_irrefl].
    + intros _ _ _ _. by exists cv.
    + set_solver.
    + intros x [Hx|<-%list_elem_of_singleton]%elem_of_app; rewrite ?Hk; [by apply Hmin|apply lt3_irrefl].
    + intros x [Hx|<-%list_elem_of_singleton]%elem_of_app Hkx Hr; [by eapply Hres|].
      destruct Hr as (cv' & Hcv' & Hr). congruence.
  - apply IH; [|done..]. split_and!; [set_solver| |].
    + intros x [Hx|<-%list_elem_of_singleton]%elem_of_app; [by apply Hmin|intros E1%L; done].
    + intros x [Hx|<-%list_elem_of_singleton]%elem_of_app Hkx Hr; [by eapply Hres|by apply Q in Hkx].
Qed.

End apd.

Section apd_fallback.
Context (threshold : float).

Definition tpot_key (e : entry) : Z * Z * Z := mkey SchedulingMetricPredictedTpot e.2.
Definition ttft_key (e : entry) : Z * Z * Z := mkey SchedulingMetricPredictedTtft e.2.

Definition under_slo (e : entry) : Prop :=
  exists m, metrics (v_ctx e.2) !! SchedulingMetricPredictedTpot = Some m /\ ValueLess m threshold = true.

(** Higher TPOT is better, then lower TTFT. *)
Definition packs_better (e h : entry) : Prop :=
  lt3 (tpot_key h) (tpot_key e) \/ tpot_key h = tpot_key e /\ lt3 (ttft_key e) (ttft_key h).

Lemma packs_better_trans a b c : packs_better a b -> packs_better b c -> packs_better a c.
Proof.
  unfold packs_better. intros [H1|[E1 H1]] [H2|[E2 H2]].
  - left. by eapply lt3_trans.
  - left. by rewrite E2.
  - left. by rewrite <- E1.
  - right. split; [congruence|]. by eapply lt3_trans.
Qed.

Lemma packs_better_irrefl a : ~ packs_better a a.
Proof. intros [H|[_ H]]; by apply lt3_irrefl in H. Qed.

Definition best_under (seen : list entry) (h : option entry) : Prop :=
  match h with
  | None => forall e, e ∈ seen -> ~ under_slo e
  | Some h => h ∈ seen /\ under_slo h /\ forall e, e ∈ seen -> under_slo e -> ~ packs_better e h
  end.

Definition best_over (seen : list entry) (o : option entry) : Prop :=
  match o with
  | None => forall e, e ∈ seen -> under_slo e
  | Some o => o ∈ seen /\ ~ under_slo o /\ forall e, e ∈ seen -> ~ under_slo e -> ~ lt3 (tpot_key e) (tpot_key o)
  end.

Definition has_slo_metrics (e : entry) : Prop :=
  metric_ok SchedulingMetricPredictedTpot e.2 /\ metric_ok SchedulingMetricPredictedTtft e.2.

Lemma best_under_other seen h e : best_under seen h -> ~ under_slo e -> best_under (seen ++ [e]) h.
Proof.
  destruct h as [h|]; cbn.
  - intros (? & ? & Hb) He. split_and!; [set_solver|done|].
    intros x [Hx|<-%list_elem_of_singleton]%elem_of_app; [by apply Hb|done].
  - intros Hb He x [Hx|<-%list_elem_of_singleton]%elem_of_app; [by apply Hb|done].
Qed.

Lemma best_over_other seen o e : best_over seen o -> under_slo e -> best_over (seen ++ [e]) o.
Proof.
  destruct o as [o|]; cbn.
  - intros (? & ? & Hb) He. split_and!; [set_solver|done|].
    intros x [Hx|<-%list_elem_of_singleton]%elem_of_app; [by apply Hb|done].
  - intros Hb He x [Hx|<-%list_elem_of_singleton]%elem_of_app; [by apply Hb|done].
Qed.

Lemma best_under_new seen e : best_under seen None -> under_slo e -> best_under (seen ++ [e]) (Some e).
Proof.
  intros Hb He. split_and!; [set_solver|done|]. intros x [Hx|<-%list_elem_of_singleton]%elem_of_app Hu.
  - by apply Hb in Hu.
  - apply packs_better_irrefl.
Qed.

Lemma best_over_new seen e : best_over seen None -> ~ under_slo e -> best_over (seen ++ [e]) (Some e).
Proof.
  intros Hb He. split_and!; [set_solver|done|]. intros x [Hx|<-%list_elem_of_singleton]%elem_of_app Hu.
  - by apply Hb in Hx.
  - apply lt3_irrefl.
Qed.

Lemma best_under_step seen h e (b : bool) :
  best_under seen (Some h) -> under_slo e -> (b = true <-> packs_better e h) ->
  best_under (seen ++ [e]) (Some (if b then e else h)).
Proof.
  intros (Hin & Hu & Hb) He Hbe. destruct b; (split_and!; [set_solver|done|]);
    intros x [Hx|<-%list_elem_of_singleton]%elem_of_app Hux.
  - intros H. apply (Hb x Hx Hux). eapply packs_better_trans; [done|]. by apply Hbe.
  - apply packs_better_irrefl.
  - by apply Hb.
  - intros H. by apply Hbe in H.
Qed.

Lemma best_over_step seen o e (b : bool) :
  best_over seen (Some o) -> ~ under_slo e -> (b = true <-> lt3 (tpot_key e) (tpot_key o)) ->
  best_over (seen ++ [e]) (Some (if b then e else o)).
Proof.
  intros (Hin & Hu & Hb) He Hbe. destruct b; (split_and!; [set_solver|done|]);
    intros x [Hx|<-%list_elem_of_singleton]%elem_of_app Hux.
  - intros H. apply (Hb x Hx Hux). eapply lt3_trans; [done|]. by apply Hbe.
  - apply lt3_irrefl.
  - by apply Hb.
  - intros H. by apply Hbe in H.
Qed.

Lemma apd_fallback_spec seen o h l :
  best_over seen o -> best_under seen h -> Forall has_slo_metrics (seen ++ l) ->
  exists o' h', apd_fallback threshold o h l = Some (o', h') /\ best_over (seen ++ l) o' /\ best_under (seen ++ l) h'.
Proof.
  revert seen o h. induction l as [|e l IH]; intros seen o h Ho Hh Hall.
  { exists o, h. by rewrite app_nil_r. }
  cbn. assert (has_slo_metrics e) as [Op Ot] by (rewrite Forall_forall in Hall; apply Hall; set_solver).
  pose proof Op as (p & Ep & _). pose proof Ot as (t & Et & _). rewrite Ep, Et. cbn.
  change (seen ++ e :: l) with (seen ++ [e] ++ l) in *. rewrite app_assoc in *.
  assert (forall x, x ∈ seen -> has_slo_metrics x) as Hseen
    by (intros x Hx; rewrite Forall_forall in Hall; apply Hall; set_solver).
  assert (under_slo e <-> ValueLess p threshold = true) as Hu.
  { split; [intros (p' & Ep' & Hv); congruence|intros Hv; by exists p]. }
  destruct (ValueLess p threshold).
  - assert (under_slo e) as He by by apply Hu. destruct h as [h|].
    + destruct (Hseen h (proj1 Hh)) as [Op' Ot']. pose proof Op' as (hp & Ehp & _). pose proof Ot' as (ht & Eht & _).
      rewrite Ehp, Eht. cbn. apply IH; [by apply best_over_other| |done]. apply best_under_step; [done..|].
      rewrite orb_true_iff, andb_true_iff. unfold packs_better, tpot_key, ttft_key.
      by rewrite (Less_key _ _ _ _ _ Op' Op Ehp Ep), (Equal_key _ _ _ _ _ Op' Op Ehp Ep), (Less_key _ _ _ _ _ Ot Ot' Et Eht).
    + apply IH; [by apply best_over_other|by apply best_under_new|done].
  - assert (~ under_slo e) as He by (rewrite Hu; done). destruct o as [o|].
    + destruct (Hseen o (proj1 Ho)) as [Op' _]. pose proof Op' as (op & Eop & _). rewrite Eop. cbn.
      apply IH; [|by apply best_under_other|done]. apply best_over_step; [done..|]. by apply Less_key.
    + apply IH; [by apply best_over_new|by apply best_under_other|done].
Qed.

End apd_fallback.

(** ** Theorems *)

Definition demo_predictor : LatencyPredictor := {|
  predictTtftLatencyByChunkPrefill p _ _ _ := Some (Some (f64_of_Z (2 * p)));
  predictTpotLatency b t := Some (f64_of_Z (b + t))
|}.

(** A view whose metrics are the given integers. *)
Definition with_metrics (ms : list (string * Z)) (iv : instanceViewScheduling) : instanceViewScheduling :=
  with_ctx (foldr (fun p c => set_metric (mkMetric p.1 (bool_decide (p.1 = SchedulingMetricKVCacheHitLen)) (f32_of_Z p.2)) c)
              (v_ctx iv) ms) iv.

Definition with_reservation (t : InferType) (iv : instanceViewScheduling) : instanceViewScheduling :=
  match cmsView iv with Some cv => with_cms (with_reserved t cv) iv | None => iv end.

Definition demo_loads : gmap string instanceViewScheduling :=
  <["a" := with_metrics [("num_requests", 3); ("num_tokens", 7)] (demo_ivs "a" "n1" true)]>
  (<["b" := with_metrics [("num_requests", 3); ("num_tokens", 2)] (demo_ivs "b" "n1" true)]>
   {["c" := with_metrics [("num_requests", 9); ("num_tokens", 1)] (demo_ivs "c" "n2" true)]}).

Definition demo_latencies : gmap string instanceViewScheduling :=
  <["a" := with_metrics [(SchedulingMetricPredictedTtft, 30); (SchedulingMetricPredictedTpot, 50)]
             (with_reservation InferTypeDecode (demo_ivs "a" "n1" true))]>
  (<["b" := with_metrics [(SchedulingMetricPredictedTtft, 20); (SchedulingMetricPredictedTpot, 10)]
             (with_reservation InferTypePrefill (demo_ivs "b" "n1" true))]>
   {["c" := with_metrics [(SchedulingMetricPredictedTtft, 20); (SchedulingMetricPredictedTpot, 90)] (demo_ivs "c" "n2" true)]}).

Lemma elements_visits : visits_once elements.
Proof. by intros s. Qed.

(** Decides [metric_ok] on a closed map of views. *)
Definition metric_okb (name : string) (iv : instanceViewScheduling) : bool :=
  match metrics (v_ctx iv) !! name with
  | Some m => negb (is_nan (m_value m)) && bool_decide (m_reversed m = bool_decide (name = SchedulingMetricKVCacheHitLen))
  | None => false
  end.

Lemma all_metric_okb name (vs : gmap string instanceViewScheduling) :
  forallb (fun e => metric_okb name e.2) (map_to_list vs) = true ->
  forall id iv, vs !! id = Some iv -> metric_ok name iv.
Proof.
  rewrite forallb_forall. intros H id iv Hi. assert (In (id, iv) (map_to_list vs)) as Hin
    by (apply list_elem_of_In; by apply elem_of_map_to_list).
  specialize (H _ Hin). unfold metric_okb in H. cbn in H. destruct (metrics (v_ctx iv) !! name) as [m|] eqn:E; [|done].
  apply andb_true_iff in H as [H1 H2]. exists m. apply negb_true_iff in H1. by apply bool_decide_eq_true in H2.
Qed.

(** C26. With top-k at least one, instances to choose from and a value that is not NaN for every
    metric on every instance, a metric selection returns a candidate that fewer than top-k
    candidates strictly beat in the lexicographic order of the metrics, for every iteration order
    and random number. *)
Theorem metric_selection_top_k `{LP : LatencyPredictor} (order : key_order) (rnd : Z -> Z) now topK names vs fb :
  visits_once order -> (forall n, 0 < n -> 0 <= rnd n < n) -> 1 <= topK -> vs <> ∅ ->
  (forall id iv, vs !! id = Some iv -> measured names iv) ->
  exists id iv, selectInstance order rnd now (metricBasedSelector topK names) vs fb =
      Some (Some id, metricBasedSelector topK names, vs) /\ vs !! id = Some iv /\
    Z.of_nat (size (filter (fun e : entry => lex_lt names e.2 iv) vs)) < topK.
Proof.
  intros Ho Hrnd Hk Hne Hm. pose proof (all_measured_ranged order vs names Ho Hm) as Ha.
  pose proof (ranged_nonempty order vs Ho Hne) as Hr.
  assert (exists e, (if decide (topK = 1) then best names (ranged order vs)
      else randomChoiceFromTopK rnd topK names (ranged order vs)) = Some (Some e) /\
      fewer_better names topK (ranged order vs) e) as ([id iv] & H & Hin & Hlt).
  { destruct (decide (topK = 1)) as [->|]; [by apply best_spec|by apply randomChoice_spec]. }
  exists id, iv. unfold selectInstance. rewrite H. split; [done|]. split; [by apply (elem_of_ranged order)|].
  by rewrite (size_filter_ranged order vs _ Ho).
Qed.

Lemma metric_selection_top_k_witness :
  exists id iv, selectInstance (LP := demo_predictor) elements (fun _ => 0) (fun _ => 0)
      (metricBasedSelector 1 ["num_requests"; "num_tokens"]) demo_loads false =
      Some (Some id, metricBasedSelector 1 ["num_requests"; "num_tokens"], demo_loads) /\ demo_loads !! id = Some iv /\
    Z.of_nat (size (filter (fun e : entry => lex_lt ["num_requests"; "num_tokens"] e.2 iv) demo_loads)) < 1.
Proof.
  apply (metric_selection_top_k elements (fun _ => 0) (fun _ => 0) 1 ["num_requests"; "num_tokens"] demo_loads false).
  - exact elements_visits.
  - intros n Hn. lia.
  - lia.
  - intros H. apply (f_equal size) in H. vm_compute in H. discriminate.
  - intros id iv Hi name Hn. apply (all_metric_okb name demo_loads) with id; [|done].
    apply elem_of_cons in Hn as [-> | ->%list_elem_of_singleton]; vm_compute; reflexivity.
Defined.

(** The prefill selector of adaptive PD picks an instance with the lowest predicted
    TTFT, and one reserved for prefill whenever a prefill-reserved instance is among
    those with the lowest TTFT. *)
Theorem apd_prefill_lowest_ttft `{LP : LatencyPredictor} (order : key_order) rnd now vs fb :
  visits_once order -> vs <> ∅ ->
  (forall id iv, vs !! id = Some iv -> metric_ok SchedulingMetricPredictedTtft iv /\ is_Some (cmsView iv)) ->
  exists id iv, selectInstance order rnd now sloPrefillApdSelector vs fb = Some (Some id, sloPrefillApdSelector, vs) /\
    vs !! id = Some iv /\
    forall id' jv, vs !! id' = Some jv ->
      ~ lt3 (mkey SchedulingMetricPredictedTtft jv) (mkey SchedulingMetricPredictedTtft iv) /\
      (mkey SchedulingMetricPredictedTtft jv = mkey SchedulingMetricPredictedTtft iv ->
       reserved InferTypePrefill jv -> reserved InferTypePrefill iv).
Proof.
  intros Ho Hne Hok. pose proof (ranged_nonempty order vs Ho Hne) as Hr. unfold selectInstance.
  assert (forall e, e ∈ ranged order vs -> metric_ok SchedulingMetricPredictedTtft e.2 /\ is_Some (cmsView e.2)) as Hall
    by (intros [i v] Hi%(elem_of_ranged order); [by eapply Hok|done]).
  assert (forall i v, (i, v) ∈ ranged order vs <-> vs !! i = Some v) as Hel by (intros; by apply elem_of_ranged).
  destruct (ranged order vs) as [|s l]; [done|].
  destruct (apd_prefill_spec [s] s l) as ([id iv] & H & Hin & Hmin & Hres).
  - split_and!; [left| |]; intros e ->%list_elem_of_singleton; [apply lt3_irrefl|done].
  - apply Hall. left.
  - apply Forall_forall. intros e He. apply Hall. by right.
  - exists id, iv. cbn. rewrite H. split; [done|]. split; [by apply Hel|]. intros id' jv Hj%Hel.
    split; [by apply (Hmin (id', jv))|by apply (Hres (id', jv))].
Qed.

Lemma apd_prefill_lowest_ttft_witness :
  exists id iv, selectInstance (LP := demo_predictor) elements (fun _ => 0) (fun _ => 0) sloPrefillApdSelector
      demo_latencies false = Some (Some id, sloPrefillApdSelector, demo_latencies) /\
    demo_latencies !! id = Some iv /\
    forall id' jv, demo_latencies !! id' = Some jv ->
      ~ lt3 (mkey SchedulingMetricPredictedTtft jv) (mkey SchedulingMetricPredictedTtft iv) /\
      (mkey SchedulingMetricPredictedTtft jv = mkey SchedulingMetricPredictedTtft iv ->
       reserved InferTypePrefill jv -> reserved InferTypePrefill iv).
Proof.
  apply (apd_prefill_lowest_ttft elements (fun _ => 0) (fun _ => 0) demo_latencies false).
  - exact elements_visits.
  - intros H. apply (f_equal size) in H. vm_compute in H. discriminate.
  - intros id iv Hi. split; [by apply (all_metric_okb SchedulingMetricPredictedTtft demo_latencies) with id|].
    unfold demo_latencies in Hi. apply lookup_insert_Some in Hi as [[_ <-]|[_ Hi]]; [by eexists|].
    apply lookup_insert_Some in Hi as [[_ <-]|[_ Hi]]; [by eexists|].
    apply lookup_singleton_Some in Hi as [_ <-]. by eexists.
Defined.

(** In the fallback pass the decode selector of adaptive PD packs: if an instance is
    under the TPOT target it picks one under the target with the highest TPOT, ties
    broken by the lowest TTFT; otherwise one with the lowest TPOT. *)
Theorem apd_decode_fallback_packs `{LP : LatencyPredictor} (order : key_order) rnd now slo thr vs vs' :
  visits_once order -> vs <> ∅ -> map_traverse (fun id => recalculate_ttft (now id)) vs = Some vs' ->
  (forall id iv, vs' !! id = Some iv -> has_slo_metrics (id, iv)) ->
  exists id iv, selectInstance order rnd now (sloDecodeApdSelector slo thr) vs true =
      Some (Some id, sloDecodeApdSelector slo thr, vs') /\ vs' !! id = Some iv /\
    forall id' jv, vs' !! id' = Some jv ->
      (under_slo (f32_mul slo thr) (id', jv) ->
         under_slo (f32_mul slo thr) (id, iv) /\ ~ packs_better (id', jv) (id, iv)) /\
      (~ under_slo (f32_mul slo thr) (id, iv) -> ~ lt3 (tpot_key (id', jv)) (tpot_key (id, iv))).
Proof.
  intros Ho Hne Hrec Hok. unfold selectInstance. rewrite Hrec. cbn.
  assert (forall i v, (i, v) ∈ ranged order vs' <-> vs' !! i = Some v) as Hel by (intros; by apply elem_of_ranged).
  assert (ranged order vs' <> []) as Hr.
  { apply (ranged_nonempty order vs' Ho). intros ->. apply Hne. apply map_traverse_dom in Hrec.
    rewrite dom_empty_L in Hrec. by apply dom_empty_inv_L. }
  destruct (apd_fallback_spec (f32_mul slo thr) [] None None (ranged order vs')) as (o & h & -> & Hover & Hunder).
  - by intros e He%elem_of_nil.
  - by intros e He%elem_of_nil.
  - apply Forall_forall. intros [i v] Hi%Hel. by apply Hok.
  - cbn in Hover, Hunder |- *. destruct h as [[id iv]|]; [|destruct o as [[id iv]|]].
    + destruct Hunder as (Hin & Hu & Hb). exists id, iv. split; [done|]. split; [by apply Hel|].
      intros id' jv Hj%Hel. split; [|done]. intros Hu'. split; [done|by apply Hb].
    + destruct Hover as (Hin & Hu & Hb). exists id, iv. split; [done|]. split; [by apply Hel|].
      intros id' jv Hj%Hel. split; [intros Hu'; by apply Hunder in Hu'|]. intros _. apply Hb; [done|by apply Hunder].
    + exfalso. destruct (ranged order vs') as [|e l]; [done|]. apply (Hunder e); [left|]. apply Hover. left.
Qed.

Lemma apd_decode_fallback_packs_witness :
  exists vs', map_traverse (fun id => recalculate_ttft (LP := demo_predictor) 0) demo_latencies = Some vs' /\
  exists id iv, selectInstance (LP := demo_predictor) elements (fun _ => 0) (fun _ => 0)
      (sloDecodeApdSelector (f32_of_Z 60) (f32_of_Z 1)) demo_latencies true =
      Some (Some id, sloDecodeApdSelector (f32_of_Z 60) (f32_of_Z 1), vs') /\ vs' !! id = Some iv.
Proof.
  eexists. split; [vm_compute; reflexivity|].
  edestruct (apd_decode_fallback_packs (LP := demo_predictor) elements (fun _ => 0) (fun _ => 0) (f32_of_Z 60) (f32_of_Z 1)
    demo_latencies) as (id & iv & H & Hi & _); [| |vm_compute; reflexivity| |exists id, iv; split; [exact H|exact Hi]].
  - exact elements_visits.
  - intros H. apply (f_equal size) in H. vm_compute in H. discriminate.
  - intros id iv Hi. split; eapply all_metric_okb; try exact Hi; vm_compute; reflexivity.
Defined.

Definition demo_pair : gmap string instanceViewScheduling :=
  <["a" := with_metrics [(SchedulingMetricPredictedTpot, 50)] (with_reservation InferTypeDecode (demo_ivs "a" "n1" true))]>
  {["c" := with_metrics [(SchedulingMetricPredictedTpot, 90)] (demo_ivs "c" "n2" true)]}.

(** Outside the fallback pass the result of the decode selector of adaptive PD
    depends on the order in which the map is visited: of two instances, a
    decode-reserved one with TPOT 50 and another with TPOT 90, one order gives the
    reserved instance, although its TPOT is not the highest, and another the other
    instance. *)
Theorem apd_decode_order_dependent `{LP : LatencyPredictor} rnd now slo thr :
  exists order1 order2, visits_once order1 /\ visits_once order2 /\
    selectInstance order1 rnd now (sloDecodeApdSelector slo thr) demo_pair false =
      Some (Some "a", sloDecodeApdSelector slo thr, demo_pair) /\
    selectInstance order2 rnd now (sloDecodeApdSelector slo thr) demo_pair false =
      Some (Some "c", sloDecodeApdSelector slo thr, demo_pair).
Proof.
  exists elements, (fun s => reverse (elements s)). split_and!.
  - apply elements_visits.
  - intros s. apply reverse_Permutation.
  - vm_compute. reflexivity.
  - vm_compute. reflexivity.
Qed.
