(* ===== verification/Predictor.v ===== *)
(** * Latency predictors

    [pkg/scheduler/predictor] and [pkg/scheduler/policy/predict_utils.go]: bilinear
    interpolation over profiled points, a quadratic fit, and the two loops that use
    them. The functions at the end implement the [LatencyPredictor] interface that
    the metrics are written against.

    All arithmetic is [float64] without fused operations. The token counts of the
    chunk loop are integers below 2^53, on which [float64] subtraction and [min] are
    exact, and are kept as integers. The singular value decomposition of the fit is a
    library; it is an interface. *)

From Stdlib Require Import SpecFloat.
From stdpp Require Import base gmap list strings numbers.
From S2P Require Import Prelude GoFloat Types CmsTypes Lrs Metrics.

Local Open Scope Z_scope.

(** ** [InterpolationPredictor] *)

Record sample := mkSample { s_a : float; s_b : float; s_value : float }.

(** A Go map with [float64] keys: keys are compared with [==]. *)
Record InterpolationPredictor := mkInterpolation {
  data : list sample;
  aValues : list float;
  bValues : list float
}.

Definition NewInterpolationPredictor : InterpolationPredictor := mkInterpolation [] [] [].

Definition same_point (a b : float) (s : sample) : bool := feq (s_a s) a && feq (s_b s) b.

Definition add_value (v : float) (vs : list float) : list float :=
  if existsb (feq v) vs then vs else v :: vs.

Definition AddSample (a b value : float) (bi : InterpolationPredictor) : InterpolationPredictor :=
  mkInterpolation (mkSample a b value :: base.filter (fun s => same_point a b s = false) (data bi))
    (add_value a (aValues bi)) (add_value b (bValues bi)).

Definition find_sample (a b : float) (bi : InterpolationPredictor) : option float :=
  s_value <$> head (base.filter (fun s => same_point a b s = true) (data bi)).

(** The bounds around [x] and whether one was found. *)
Definition bound_step (x : float) (acc : float * float * bool) (v : float) : float * float * bool :=
  let '(lo, hi, found) := acc in
  let '(lo, found) := if fle v x && fgt v lo then (v, true) else (lo, found) in
  if fge v x && flt v hi then (lo, v, true) else (lo, hi, found).

Definition f_NegInf : float := S754_infinity true.

Definition find_bounds (x : float) (values : list float) : float * float * bool :=
  fold_left (bound_step x) values (f_NegInf, f_PosInf, false).

Definition findBoundingBox (a b : float) (bi : InterpolationPredictor) : option (float * float * float * float) :=
  let '(a1, a2, foundA) := find_bounds a (aValues bi) in
  let '(b1, b2, foundB) := find_bounds b (bValues bi) in
  if negb foundA || negb foundB then None else Some (a1, a2, b1, b2).

(** 1e-10: the quotient is correctly rounded. *)
Definition epsilon : float := f64_div (f64_of_Z 1) (f64_of_Z (10 ^ 10)).

Definition f64_one : float := f64_of_Z 1.
Definition close (x y : float) : bool := flt (SFabs (f64_sub x y)) epsilon.

(** [(1-w)*x + w*y] *)
Definition mix (w x y : float) : float := f64_add (f64_mul (f64_sub f64_one w) x) (f64_mul w y).

Definition bilinear (wa wb z11 z12 z21 z22 : float) : float :=
  let ua := f64_sub f64_one wa in
  let ub := f64_sub f64_one wb in
  f64_add (f64_add (f64_add (f64_mul (f64_mul ua ub) z11) (f64_mul (f64_mul ua wb) z12))
             (f64_mul (f64_mul wa ub) z21)) (f64_mul (f64_mul wa wb) z22).

Definition Predict (a b : float) (bi : InterpolationPredictor) : option float :=
  if feq a f_zero && feq b f_zero then Some f_zero
  else
    '(a1, a2, b1, b2) ← findBoundingBox a b bi;
    z11 ← find_sample a1 b1 bi;
    z12 ← find_sample a1 b2 bi;
    z21 ← find_sample a2 b1 bi;
    z22 ← find_sample a2 b2 bi;
    let wa := f64_div (f64_sub a a1) (f64_sub a2 a1) in
    let wb := f64_div (f64_sub b b1) (f64_sub b2 b1) in
    if close a2 a1 && close b2 b1 then Some z11
    else if close a2 a1 then Some (mix wb z11 z12)
    else if close b2 b1 then Some (mix wa z11 z21)
    else Some (bilinear wa wb z11 z12 z21 z22).

(** ** [QuadraticPredictor] *)

Record QuadraticPredictor := mkQuadratic {
  xs : list float;
  ys : list float;
  q_a : float;
  q_b : float;
  q_c : float;
  fitted : bool;
  numWarmupSamples : Z
}.

Definition NewQuadraticPredictor (numWarmupSamples : Z) : QuadraticPredictor :=
  mkQuadratic [] [] f_zero f_zero f_zero false numWarmupSamples.

Definition q_AddSample (x y : float) (q : QuadraticPredictor) : QuadraticPredictor :=
  mkQuadratic (xs q ++ [x]) (ys q ++ [y]) (q_a q) (q_b q) (q_c q) false (numWarmupSamples q).

Definition ReadyForFit (q : QuadraticPredictor) : bool :=
  bool_decide (Z.of_nat (length (xs q)) >= numWarmupSamples q).

Definition Fitted (q : QuadraticPredictor) : bool := fitted q.

(** gonum's thin SVD: [None] when the factorisation fails, otherwise the condition
    number and the least-squares solution of the given rank. *)
Class LeastSquares := { SolveVecTo : list (list float) -> list float -> nat -> option (float * (nat -> float)) }.

Definition is_inf (x : float) : bool := match x with S754_infinity _ => true | _ => false end.

Definition ill_conditioned (cond threshold : float) : bool := fgt cond threshold || is_nan cond || is_inf cond.

Definition set_model (a b c : float) (q : QuadraticPredictor) : QuadraticPredictor :=
  mkQuadratic (xs q) (ys q) a b c (fitted q) (numWarmupSamples q).

Definition set_fitted (q : QuadraticPredictor) : QuadraticPredictor :=
  mkQuadratic (xs q) (ys q) (q_a q) (q_b q) (q_c q) true (numWarmupSamples q).

Section fit.
Context {LS : LeastSquares}.

Definition fitQuadratic (q : QuadraticPredictor) : option QuadraticPredictor :=
  if decide (length (xs q) < 3)%nat then None
  else
    '(cond, p) ← SolveVecTo ((fun x => [f64_mul x x; x; f64_one]) <$> xs q) (ys q) 3;
    if ill_conditioned cond (f64_of_Z (10 ^ 8)) then None
    else Some (set_model (p 0%nat) (p 1%nat) (p 2%nat) q).

Definition fitLinear (q : QuadraticPredictor) : option QuadraticPredictor :=
  if decide (length (xs q) < 2)%nat then None
  else
    '(cond, p) ← SolveVecTo ((fun x => [x; f64_one]) <$> xs q) (ys q) 2;
    if ill_conditioned cond (f64_of_Z (10 ^ 12)) then None
    else Some (set_model f_zero (p 0%nat) (p 1%nat) q).

Definition fitConstant (q : QuadraticPredictor) : QuadraticPredictor :=
  if decide (length (ys q) = 0)%nat then set_model f_zero f_zero f_zero q
  else set_model f_zero f_zero
         (f64_div (fold_left f64_add (ys q) f_zero) (f64_of_Z (Z.of_nat (length (ys q))))) q.

(** The error of [Fit], and the predictor after the call. *)
Definition Fit (q : QuadraticPredictor) : bool * QuadraticPredictor :=
  if negb (ReadyForFit q) then (false, q)
  else match fitQuadratic q with
       | Some q => (true, set_fitted q)
       | None =>
           match fitLinear q with
           | Some q => (true, set_fitted q)
           | None => (true, set_fitted (fitConstant q))
           end
       end.

End fit.

Definition q_Predict (x : float) (q : QuadraticPredictor) : option float :=
  if negb (fitted q) then None
  else Some (f64_add (f64_add (f64_mul (f64_mul (q_a q) x) x) (f64_mul (q_b q) x)) (q_c q)).

(** ** [predictNumComputedPrefillTokens] *)

(** 1e-3 and 1e6 milliseconds. *)
Definition minStepMs : float := f64_div (f64_of_Z 1) (f64_of_Z 1000).
Definition maxStepMs : float := f64_of_Z (10 ^ 6).

Definition validateStepDurationMs (stepMs : float) : bool :=
  if is_nan stepMs then false
  else if is_inf stepMs then false
  else if fle stepMs f_zero then false
  else if flt stepMs minStepMs then false
  else if fgt stepMs maxStepMs then false
  else true.

(** [math.Round]: to the nearest integer, halves away from zero. *)
Definition math_Round (x : float) : option Z :=
  match x with
  | S754_zero _ => Some 0
  | S754_finite s m e =>
      let a := if decide (0 <= e) then Zpos m * 2 ^ e else (2 * Zpos m + 2 ^ (- e)) / (2 * 2 ^ (- e)) in
      Some (if s then - a else a)
  | _ => None
  end.

(** [int32] of the rounded value, as an integer conversion of Go on amd64. *)
Definition round_to_int32 (x : float) : Z :=
  match math_Round x with
  | Some z => if decide (MinInt32 <= z <= MaxInt32) then z else MinInt32
  | None => MinInt32
  end.

(** The state of the inner loop: elapsed time, uncomputed tokens, uncomputed tokens of
    running prefills, tokens predicted as computed. The result is the last and the
    uncomputed tokens that are left; [None] is a loop that has not ended. *)
Fixpoint predict_loop (fuel : nat) (q : QuadraticPredictor) (maxNumBatchedTokens : Z)
    (elapsedTimeMs : float) (uncomputed running computed : Z) : option (Z * Z) :=
  if negb (fgt elapsedTimeMs f_zero && bool_decide (uncomputed > 0)) then Some (computed, uncomputed)
  else
    match fuel with
    | O => None
    | S fuel =>
        let '(cur, running) :=
          if bool_decide (running > 0) && bool_decide (running < maxNumBatchedTokens)
          then (running, 0)
          else (Z.min uncomputed maxNumBatchedTokens, running) in
        match q_Predict (f64_of_Z cur) q with
        | None => Some (0, uncomputed)
        | Some step =>
            if negb (validateStepDurationMs step) then Some (0, uncomputed)
            else if fge elapsedTimeMs step
            then predict_loop fuel q maxNumBatchedTokens (f64_sub elapsedTimeMs step)
                   (int32 (uncomputed - cur)) running (int32 (computed + cur))
            else Some (int32 (computed + round_to_int32 (f64_div (f64_mul (f64_of_Z cur) elapsedTimeMs) step)), 0)
        end
    end.

(** One iteration of the outer loop: the value stored in the scheduling context. *)
Definition predict_one (fuel : nat) (now : Z) (q : QuadraticPredictor) (maxNumBatchedTokens : Z)
    (iv : instanceViewScheduling) : option instanceViewScheduling :=
  cv ← cmsView iv;
  let elapsedTimeMs := f64_of_Z (int64 (now - TimestampMs (cv_Status cv))) in
  if fle elapsedTimeMs f_zero then Some (with_ctx (set_predicted 0 (v_ctx iv)) iv)
  else
    allPrefills ← allPrefillsTokensNum_Calculate iv;
    '(computed, uncomputed) ← predict_loop fuel q maxNumBatchedTokens elapsedTimeMs (f_to_int32 allPrefills)
      (NumUncomputedTokensSchedulerRunningPrefills (cv_Status cv)) 0;
    Some (with_ctx (set_predicted (if decide (computed > uncomputed) then uncomputed else computed) (v_ctx iv)) iv).

Definition predictNumComputedPrefillTokens (fuel : nat) (now : Z) (q : QuadraticPredictor) (maxNumBatchedTokens : Z)
    (instances : gmap string instanceViewScheduling) : option (gmap string instanceViewScheduling) :=
  if negb (Fitted q) then Some instances
  else map_traverse (fun _ => predict_one fuel now q maxNumBatchedTokens) instances.

(** ** [LatencyPredictor] *)

Record ProfiledLatency := mkProfiledLatency {
  ttftPredictor : InterpolationPredictor;
  tpotPredictor : InterpolationPredictor
}.

Definition lp_predictTpotLatency (lp : ProfiledLatency) (decodeReqsNum decodeTokensNum : Z) : option float :=
  if bool_decide (decodeReqsNum <= 0) || bool_decide (decodeTokensNum <= 0) then Some f_zero
  else
    let tokensPerReq := f64_div (f64_of_Z decodeTokensNum) (f64_of_Z decodeReqsNum) in
    let tokensPerReq := if flt tokensPerReq (f64_of_Z 8) then f64_of_Z 8 else tokensPerReq in
    Predict (f64_of_Z decodeReqsNum) tokensPerReq (tpotPredictor lp).

(** The chunk loop. The outer [None] is a loop that has not ended, the inner one the
    error of a prediction. *)
Fixpoint chunk_loop (fuel : nat) (lp : ProfiledLatency) (decodeStepLatency : float) (maxNumBatchedTokens : Z)
    (remaining : Z) (totalLatency : float) : option (option float) :=
  if bool_decide (remaining > 0) then
    match fuel with
    | O => None
    | S fuel =>
        let cur := Z.min remaining maxNumBatchedTokens in
        match Predict (f64_of_Z cur) f_zero (ttftPredictor lp) with
        | None => Some None
        | Some stepLatency =>
            chunk_loop fuel lp decodeStepLatency maxNumBatchedTokens (remaining - cur)
              (f64_add (f64_add totalLatency stepLatency) decodeStepLatency)
        end
    end
  else Some (Some totalLatency).

(** A loop that takes more steps than there are tokens does not end, see
    [chunk_prefill_terminates] and [chunk_prefill_diverges]. *)
Definition lp_predictTtftLatencyByChunkPrefill (lp : ProfiledLatency) (prefillTokensNum decodeReqsNum decodeTokensNum : Z)
    (maxNumBatchedTokens : Z) : option (option float) :=
  match lp_predictTpotLatency lp decodeReqsNum decodeTokensNum with
  | None => Some None
  | Some decodeStepLatency =>
      chunk_loop (Z.to_nat prefillTokensNum) lp decodeStepLatency maxNumBatchedTokens prefillTokensNum f_zero
  end.

Definition profiled_latency (lp : ProfiledLatency) : LatencyPredictor := {|
  predictTtftLatencyByChunkPrefill := lp_predictTtftLatencyByChunkPrefill lp;
  predictTpotLatency := lp_predictTpotLatency lp
|}.

(** ** [GetLatencyPredictor] on the profiled results: tokens and median TTFT; batch
    size, tokens per request and median TPOT. *)
Definition GetLatencyPredictor (ttftResults : list (Z * float)) (tpotResults : list (Z * Z * float)) : ProfiledLatency :=
  mkProfiledLatency
    (fold_left (fun bi r => AddSample (f64_of_Z r.1) f_zero r.2 bi) ttftResults NewInterpolationPredictor)
    (fold_left (fun bi r => AddSample (f64_of_Z r.1.1) (f64_of_Z r.1.2) r.2 bi) tpotResults NewInterpolationPredictor).

(** ** Lemmas *)

Definition is_finite (x : float) : bool := negb (is_nan x) && negb (is_inf x).

Lemma is_finite_nan x : is_finite x = true -> is_nan x = false.
Proof. by destruct x. Qed.
#[local] Hint Resolve is_finite_nan : core.

Lemma fkey_finite x y : fkey x = fkey y -> is_finite x = true -> is_nan y = false -> is_finite y = true.
Proof. destruct x as [[]|[]| |[]], y as [[]|[]| |[]]; done. Qed.

Lemma f64_sub_same x y : is_finite x = true -> is_nan y = false -> fkey x = fkey y -> exists s, f64_sub x y = S754_zero s.
Proof.
  destruct x as [[]|[]| |[] m e], y as [[]|[]| |[] m' e']; try done; intros _ _ H; cbn in H; try (by eexists).
  - injection H as H1 H2. assert (e = e') as <- by lia. assert (m = m') as <- by congruence. unfold f64_sub, SFsub. rewrite Z.sub_diag. by eexists.
  - injection H as H1 H2. assert (e = e') as <- by lia. assert (m = m') as <- by congruence. unfold f64_sub, SFsub. rewrite Z.sub_diag. by eexists.
Qed.

Lemma close_same x y : is_finite x = true -> is_nan y = false -> fkey x = fkey y -> close x y = true.
Proof. intros Hx Hy H. destruct (f64_sub_same x y Hx Hy H) as [s Hs]. unfold close. rewrite Hs. vm_compute. reflexivity. Qed.

(** After visiting [vs] the bounds are the tightest ones. *)
Definition bounds_ok (x : float) (vs : list float) (acc : float * float * bool) : Prop :=
  let '(lo, hi, found) := acc in
  is_nan lo = false /\ is_nan hi = false /\ ~ lt3 (fkey x) (fkey lo) /\ ~ lt3 (fkey hi) (fkey x) /\
  (found = false -> lo = f_NegInf) /\
  forall v, v ∈ vs -> is_nan v = false ->
    (~ lt3 (fkey x) (fkey v) -> ~ lt3 (fkey lo) (fkey v)) /\
    (~ lt3 (fkey v) (fkey x) -> ~ lt3 (fkey v) (fkey hi)).

Lemma lo_step x lo v :
  is_nan x = false -> is_nan lo = false -> ~ lt3 (fkey x) (fkey lo) ->
  let lo' := if fle v x && fgt v lo then v else lo in
  is_nan lo' = false /\ ~ lt3 (fkey x) (fkey lo') /\ ~ lt3 (fkey lo') (fkey lo) /\
  (is_nan v = false -> ~ lt3 (fkey x) (fkey v) -> ~ lt3 (fkey lo') (fkey v)).
Proof.
  intros Hx Hlo H. destruct (is_nan v) eqn:Hv.
  { destruct v; try done. cbn. split_and!; [done..|apply lt3_irrefl|done]. }
  cbn. unfold fgt. change SFltb with flt. pose proof (fle_key v x Hv Hx) as K1. pose proof (flt_key lo v Hlo Hv) as K2.
  destruct (fle v x), (flt lo v); cbn.
  - destruct K1 as [K1 _], K2 as [K2 _]. specialize (K1 eq_refl). specialize (K2 eq_refl). split_and!; [done..| |].
    + intros H'. apply (lt3_irrefl (fkey lo)). by eapply lt3_trans.
    + intros _ _. apply lt3_irrefl.
  - split_and!; [done..|apply lt3_irrefl|]. intros _ _ H'. by apply K2 in H'.
  - split_and!; [done..|apply lt3_irrefl|]. intros _ H' _. apply K1 in H'. done.
  - split_and!; [done..|apply lt3_irrefl|]. intros _ H' _. apply K1 in H'. done.
Qed.

Lemma hi_step x hi v :
  is_nan x = false -> is_nan hi = false -> ~ lt3 (fkey hi) (fkey x) ->
  let hi' := if fge v x && flt v hi then v else hi in
  is_nan hi' = false /\ ~ lt3 (fkey hi') (fkey x) /\ ~ lt3 (fkey hi) (fkey hi') /\
  (is_nan v = false -> ~ lt3 (fkey v) (fkey x) -> ~ lt3 (fkey v) (fkey hi')).
Proof.
  intros Hx Hhi H. destruct (is_nan v) eqn:Hv.
  { destruct v; try done. destruct x as [[]|[]| |[]]; try done; cbn; (split_and!; [done..|apply lt3_irrefl|done]). }
  cbn. unfold fge. change SFleb with fle. pose proof (fle_key x v Hx Hv) as K1. pose proof (flt_key v hi Hv Hhi) as K2.
  destruct (fle x v), (flt v hi); cbn.
  - destruct K1 as [K1 _], K2 as [K2 _]. specialize (K1 eq_refl). specialize (K2 eq_refl). split_and!; [done..| |].
    + intros H'. apply (lt3_irrefl (fkey hi)). by eapply lt3_trans.
    + intros _ _. apply lt3_irrefl.
  - split_and!; [done..|apply lt3_irrefl|]. intros _ _ H'. by apply K2 in H'.
  - split_and!; [done..|apply lt3_irrefl|]. intros _ H' _. apply K1 in H'. done.
  - split_and!; [done..|apply lt3_irrefl|]. intros _ H' _. apply K1 in H'. done.
Qed.

Lemma not_lt3_trans a b c : ~ lt3 a b -> ~ lt3 b c -> ~ lt3 a c.
Proof. intros H1 H2 H3. destruct (lt3_total a b) as [|[->|]]; [done..|]. apply H2. by eapply lt3_trans. Qed.

Lemma bound_step_ok x seen acc v :
  is_nan x = false -> bounds_ok x seen acc -> bounds_ok x (seen ++ [v]) (bound_step x acc v).
Proof.
  destruct acc as [[lo hi] found]. intros Hx (Nlo & Nhi & Hlo & Hhi & Hf & Hall).
  destruct (lo_step x lo v Hx Nlo Hlo) as (Nlo' & Hlo' & Hmono & Hv).
  destruct (hi_step x hi v Hx Nhi Hhi) as (Nhi' & Hhi' & Hmono' & Hv').
  assert (bound_step x (lo, hi, found) v =
    (if fle v x && fgt v lo then v else lo, if fge v x && flt v hi then v else hi,
     found || (fle v x && fgt v lo) || (fge v x && flt v hi))) as ->.
  { unfold bound_step. destruct (fle v x && fgt v lo), (fge v x && flt v hi); by rewrite ?orb_true_r, ?orb_false_r. }
  split_and!; try done.
  - intros [[-> E]%orb_false_iff _]%orb_false_iff. rewrite E. by apply Hf.
  - intros w [Hw | ->%list_elem_of_singleton]%elem_of_app Nw; [|auto]. destruct (Hall w Hw Nw) as [H1 H2].
    split; intros H; [exact (not_lt3_trans _ _ _ Hmono (H1 H))|exact (not_lt3_trans _ _ _ (H2 H) Hmono')].
Qed.

Lemma find_bounds_ok x values : is_nan x = false -> bounds_ok x values (find_bounds x values).
Proof.
  intros Hx. unfold find_bounds.
  assert (forall seen acc, bounds_ok x seen acc -> bounds_ok x (seen ++ values) (fold_left (bound_step x) values acc)) as H.
  { induction values as [|v vs IH]; intros seen acc Hacc; [by rewrite app_nil_r|].
    cbn. change (seen ++ v :: vs) with (seen ++ [v] ++ vs). rewrite app_assoc. apply IH. by apply bound_step_ok. }
  apply (H []). split_and!; [done..| | |done|].
  - destruct x as [[]|[]| |[]]; cbn; lia || done.
  - destruct x as [[]|[]| |[]]; cbn; lia || done.
  - by intros v Hv%elem_of_nil.
Qed.

(** A value of the axis is its own bound on both sides. *)
Lemma find_bounds_at x values v :
  is_finite x = true -> v ∈ values -> feq v x = true ->
  exists lo hi, find_bounds x values = (lo, hi, true) /\ is_nan lo = false /\ is_nan hi = false /\
    fkey lo = fkey x /\ fkey hi = fkey x.
Proof.
  intros Hx Hv Hvx. assert (is_nan v = false) as Nv by (destruct v as [[]|[]| |[]], x as [[]|[]| |[]]; done).
  apply feq_key in Hvx; [|done|auto]. pose proof (find_bounds_ok x values ltac:(auto)) as H.
  destruct (find_bounds x values) as [[lo hi] found]. destruct H as (Nlo & Nhi & Hlo & Hhi & Hf & Hall).
  destruct (Hall v Hv Nv) as [H1 H2]. rewrite Hvx in H1, H2.
  specialize (H1 (lt3_irrefl _)). specialize (H2 (lt3_irrefl _)). exists lo, hi.
  assert (fkey lo = fkey x) as El by (destruct (lt3_total (fkey lo) (fkey x)) as [|[|]]; done).
  assert (fkey hi = fkey x) as Eh by (destruct (lt3_total (fkey hi) (fkey x)) as [|[|]]; done).
  destruct found; [done|]. rewrite (Hf eq_refl) in El. by destruct x as [[]|[]| |[]].
Qed.

Lemma add_value_in v vs : is_nan v = false -> exists w, w ∈ add_value v vs /\ feq w v = true.
Proof.
  intros Nv. unfold add_value. destruct (existsb (feq v) vs) eqn:E.
  - apply existsb_exists in E as (w & Hw & E). exists w. split; [by apply list_elem_of_In|].
    assert (is_nan w = false) as Nw by (destruct v as [[]|[]| |[]], w as [[]|[]| |[]]; done).
    apply feq_key in E; [|done..]. apply feq_key; done.
  - exists v. split; [left|]. by apply feq_key.
Qed.

Lemma find_sample_new a b a1 b1 z bi :
  is_nan a = false -> is_nan b = false -> is_nan a1 = false -> is_nan b1 = false -> fkey a1 = fkey a -> fkey b1 = fkey b ->
  find_sample a1 b1 (AddSample a b z bi) = Some z.
Proof.
  intros ? ? ? ? Ha Hb. unfold find_sample, AddSample. cbn [data]. rewrite filter_cons_True; [done|].
  unfold same_point. cbn. apply andb_true_iff. split; by apply feq_key.
Qed.

(** ** Termination of the loops *)

Lemma chunk_loop_terminates fuel lp d maxb r t :
  0 < maxb -> r <= Z.of_nat fuel -> is_Some (chunk_loop fuel lp d maxb r t).
Proof.
  intros Hm. revert r t. induction fuel as [|fuel IH]; intros r t Hr; cbn; case_bool_decide; try lia; eauto.
  destruct (Predict _ _ _); [|eauto]. apply IH. lia.
Qed.

Lemma predict_loop_terminates fuel q maxb el unc run comp :
  0 < maxb <= MaxInt32 -> unc <= Z.of_nat fuel -> MinInt32 <= unc <= MaxInt32 -> run <= MaxInt32 ->
  is_Some (predict_loop fuel q maxb el unc run comp).
Proof.
  intros Hm. revert el unc run comp. induction fuel as [|fuel IH]; intros el unc run comp Hu Hr1 Hr2; cbn.
  { case_bool_decide; [lia|]. rewrite andb_false_r. cbn. eauto. }
  destruct (fgt el f_zero); cbn; [|eauto]. case_bool_decide as Hpos; cbn; [|eauto].
  assert (forall cur run', 1 <= cur <= MaxInt32 -> run' <= MaxInt32 ->
    is_Some match q_Predict (f64_of_Z cur) q with
        | None => Some (0, unc)
        | Some step =>
            if negb (validateStepDurationMs step) then Some (0, unc)
            else if fge el step
            then predict_loop fuel q maxb (f64_sub el step) (int32 (unc - cur)) run' (int32 (comp + cur))
            else Some (int32 (comp + round_to_int32 (f64_div (f64_mul (f64_of_Z cur) el) step)), 0)
        end) as Hstep.
  { intros cur run' Hc Hrun. destruct (q_Predict _ q) as [step|]; [|eauto]. destruct (negb _); [eauto|].
    destruct (fge el step); [|eauto]. unfold MaxInt32, MinInt32 in *.
    apply IH; rewrite ?int32_small by (unfold MaxInt32, MinInt32; lia); lia. }
  destruct (bool_decide (run > 0) && bool_decide (run < maxb)) eqn:E.
  - apply andb_true_iff in E as [E1%bool_decide_eq_true E2%bool_decide_eq_true]. apply Hstep; unfold MaxInt32 in *; lia.
  - apply Hstep; unfold MaxInt32 in *; lia.
Qed.

(** ** Theorems *)

Definition demo_latency : ProfiledLatency :=
  GetLatencyPredictor [(1, f64_of_Z 5); (1024, f64_of_Z 100)] [(1, 8, f64_of_Z 10); (4, 8, f64_of_Z 20)].

(** Interpolation is exact at the samples: after adding a finite sample other than
    the origin, whatever was added before, the prediction at that point is its value. *)
Theorem interpolation_exact_at_samples a b z bi :
  is_finite a = true -> is_finite b = true -> feq a f_zero && feq b f_zero = false ->
  Predict a b (AddSample a b z bi) = Some z.
Proof.
  intros Ha Hb H0. unfold Predict. rewrite H0.
  destruct (add_value_in a (aValues bi)) as (va & Iva & Eva); [auto|].
  destruct (add_value_in b (bValues bi)) as (vb & Ivb & Evb); [auto|].
  destruct (find_bounds_at a (aValues (AddSample a b z bi)) va Ha Iva Eva) as (a1 & a2 & Ea & Na1 & Na2 & Ka1 & Ka2).
  destruct (find_bounds_at b (bValues (AddSample a b z bi)) vb Hb Ivb Evb) as (b1 & b2 & Eb & Nb1 & Nb2 & Kb1 & Kb2).
  unfold findBoundingBox. rewrite Ea, Eb. cbn -[find_sample AddSample close].
  rewrite !find_sample_new by auto. cbn -[close].
  assert (is_finite a2 = true /\ is_finite b2 = true) as [Fa Fb]
    by (split; eapply fkey_finite; try symmetry; eauto).
  by rewrite (close_same a2 a1), (close_same b2 b1) by congruence.
Qed.

Lemma interpolation_exact_at_samples_witness :
  Predict (f64_of_Z 1024) f_zero (AddSample (f64_of_Z 1024) f_zero (f64_of_Z 100) (ttftPredictor demo_latency)) = Some (f64_of_Z 100).
Proof.
  apply (interpolation_exact_at_samples (f64_of_Z 1024) f_zero (f64_of_Z 100) (ttftPredictor demo_latency));
    vm_compute; reflexivity.
Defined.

(** The chunked-prefill estimate returns whenever the batch limit is positive, in at
    most as many steps as there are prefill tokens. *)
Theorem chunk_prefill_terminates lp prefill reqs tokens maxb :
  0 < maxb -> is_Some (lp_predictTtftLatencyByChunkPrefill lp prefill reqs tokens maxb).
Proof.
  intros Hm. unfold lp_predictTtftLatencyByChunkPrefill. destruct (lp_predictTpotLatency lp reqs tokens); [|eauto].
  destruct (decide (prefill <= 0)).
  - destruct (Z.to_nat prefill); cbn; rewrite bool_decide_eq_false_2 by lia; eauto.
  - apply chunk_loop_terminates; lia.
Qed.

Lemma chunk_prefill_terminates_witness : is_Some (lp_predictTtftLatencyByChunkPrefill demo_latency 3000 2 40 1024).
Proof. apply (chunk_prefill_terminates demo_latency 3000 2 40 1024). lia. Defined.

(** With a batch limit of zero, the value of an unset field of the instance
    metadata, the chunk loop does not end: it has not ended after any number of
    steps. *)
Theorem chunk_prefill_diverges fuel lp d prefill total :
  0 < prefill -> chunk_loop fuel lp d 0 prefill total = None.
Proof.
  revert total. induction fuel as [|fuel IH]; intros total Hp; cbn -[Predict]; rewrite bool_decide_eq_true_2 by lia; [done|].
  rewrite Z.min_r by lia. change (f64_of_Z 0) with f_zero. unfold Predict. rewrite Z.sub_0_r. by apply IH.
Qed.

Lemma chunk_prefill_diverges_witness : chunk_loop 100 demo_latency f_zero 0 1 f_zero = None.
Proof. apply (chunk_prefill_diverges 100 demo_latency f_zero 1 f_zero). lia. Defined.

(** The prediction of computed prefill tokens ends for every status when the batch
    limit is positive, with one step per uncomputed token at most. *)
Theorem prefill_prediction_terminates q maxb el unc run :
  0 < maxb <= MaxInt32 -> MinInt32 <= unc <= MaxInt32 -> run <= MaxInt32 ->
  is_Some (predict_loop (Z.to_nat unc) q maxb el unc run 0).
Proof. intros Hm Hu Hr. apply predict_loop_terminates; [done| |done..]. lia. Qed.

Lemma prefill_prediction_terminates_witness :
  is_Some (predict_loop (Z.to_nat 100) (mkQuadratic [] [] f_zero f64_one f_zero true 0) 64 (f64_of_Z 1000) 100 0 0).
Proof. apply (prefill_prediction_terminates _ 64 (f64_of_Z 1000) 100 0); unfold MinInt32, MaxInt32; lia. Defined.

Definition demo_prefill_view : instanceViewScheduling :=
  let st := mkStatus "p" true 0 1 1 [] [] 0 0 0 0 0 0 0 0 0 0 0 0 0 0 0 0 0 0 0 0 0 0 0 0 0 0
    f_zero f_zero f_zero f_zero 0 f_zero 0 in
  let md := mkMetadata "p" "prefill" "" "10.0.0.1" "" 8000 0 0 "n1" 1 1 "" 0 0 0 f_zero f_zero "" 0 1024 in
  let inst := mkLLMInstance 0 "p" "m" InferTypePrefill (mkEndpoint "10.0.0.1" 8000) "" 0 0 1 in
  mkIvs InferTypePrefill
    (Some (mkCmsView inst st md (mkLocalAccount ∅ 1 0 1 100 0) "")) None inst "p" empty_ctx.

(** The prediction is discarded when it is complete: with one millisecond per token,
    100 uncomputed tokens and a second elapsed the loop predicts that all 100 tokens
    are computed and none is left, and the context then stores 0, because the limit
    is what is left after the loop. *)
Theorem complete_prefill_prediction_discarded :
  let q := mkQuadratic [] [] f_zero f64_one f_zero true 0 in
  predict_loop 10 q 64 (f64_of_Z 1000) 100 0 0 = Some (100, 0) /\
  exists iv, predict_one 10 1000 q 64 demo_prefill_view = Some iv /\ numComputedPrefillTokensPredicted (v_ctx iv) = 0.
Proof.
  split; [vm_compute; reflexivity|]. eexists. split; [vm_compute; reflexivity|]. reflexivity.
Qed.
