(* ===== verification/PrefixCache.v ===== *)
(** * Prefix cache lookup

    [pkg/scheduler/policy/prefix_cache_utils.go] and the client of the KV store
    metadata service, [pkg/scheduler/kvs/kvs_client.go]. The metadata service and the
    CMS index from IPs to instances are arguments. *)

From stdpp Require Import base gmap sets list strings numbers.
From S2P Require Import Prelude GoFloat Types CmsTypes Lrs Metrics.

Local Open Scope Z_scope.

(** ** [KVSClient] *)

Inductive kvsMetadataServiceStatus := kvsMetadataServiceHealthy | kvsMetadataServiceDown.

(** Times and durations in nanoseconds. *)
Record KVSClient := mkKVSClient {
  retryTimes : Z;
  kvsMetadataServiceDownDuration : Z;
  kvs_status : kvsMetadataServiceStatus;
  kvsMetadataServiceLastDownTime : Z
}.

Definition newKVSClient (now retryTimes downDurationS : Z) : KVSClient :=
  mkKVSClient retryTimes (downDurationS * 10 ^ 9) kvsMetadataServiceHealthy now.

Definition set_kvs (st : kvsMetadataServiceStatus) (t : Z) (c : KVSClient) : KVSClient :=
  mkKVSClient (retryTimes c) (kvsMetadataServiceDownDuration c) st t.

Definition IsKVSMetadataServiceDown (now : Z) (c : KVSClient) : bool * KVSClient :=
  match kvs_status c with
  | kvsMetadataServiceDown =>
      if decide (now - kvsMetadataServiceLastDownTime c > kvsMetadataServiceDownDuration c)
      then (false, set_kvs kvsMetadataServiceHealthy (kvsMetadataServiceLastDownTime c) c)
      else (true, c)
  | kvsMetadataServiceHealthy => (false, c)
  end.

Definition markKVSMetadataServiceDown (now : Z) (c : KVSClient) : KVSClient := set_kvs kvsMetadataServiceDown now c.

Abbreviation hash_hits := (gmap string (list string)) (only parsing).

(** The retry loop: [query i] is the answer of the service to attempt [i]. *)
Fixpoint query_retry (query : nat -> option hash_hits) (i n : nat) : option hash_hits :=
  match n with
  | O => None
  | S n => match query i with Some r => Some r | None => query_retry query (S i) n end
  end.

(** [now] is the clock at the entry, [later] when the retries have failed. A [nil] map
    is [None]. *)
Definition BatchQueryCacheHitKVSInstances (now later : Z) (query : nat -> option hash_hits)
    (prefixHashes : list string) (c : KVSClient) : option hash_hits * KVSClient :=
  match prefixHashes with
  | [] => (None, c)
  | _ =>
      let '(down, c) := IsKVSMetadataServiceDown now c in
      if down then (None, c)
      else match query_retry query 0 (Z.to_nat (retryTimes c)) with
           | Some r => (Some r, c)
           | None => (None, markKVSMetadataServiceDown later c)
           end
  end.

(** ** Hit lengths *)

(** The entries of one instance in the three maps of the function:
    [instanceCacheHitLen], [instanceLastHitIdx] (they have the same keys) and
    [instanceBroken]. *)
Record hit := mkHit { hitLen : Z; lastHitIdx : Z; hitBroken : bool }.

Definition hit_update (chunkSize i : Z) (h : option hit) : hit :=
  match h with
  | None => mkHit chunkSize i false
  | Some h =>
      if hitBroken h then h
      else if decide (lastHitIdx h = i - 1) then mkHit (int64 (hitLen h + chunkSize)) i false
      else mkHit (hitLen h) (lastHitIdx h) true
  end.

(** The inner loop; every instance of the set updates its own entries. *)
Definition hit_instances (chunkSize i : Z) (hitInstances : gset string) (st : gmap string hit) : gmap string hit :=
  set_fold (fun instance st => <[instance := hit_update chunkSize i (st !! instance)]> st) st hitInstances.

Fixpoint hit_loop (chunkSize i : Z) (prefixHashes : list string) (hits : gmap string (gset string))
    (st : gmap string hit) : gmap string hit :=
  match prefixHashes with
  | [] => st
  | prefixHash :: rest =>
      hit_loop chunkSize (i + 1) rest hits
        (match hits !! prefixHash with None => st | Some s => hit_instances chunkSize i s st end)
  end.

Definition calcInstancesPrefixCacheHitLen (chunkSize : Z) (prefixHashes : list string)
    (prefixHashHitInstances : option (gmap string (gset string))) : option (gmap string Z) :=
  match prefixHashes, prefixHashHitInstances with
  | [], _ | _, None => None
  | _, Some hits => Some (hitLen <$> hit_loop chunkSize 0 prefixHashes hits ∅)
  end.

Definition convertToCacheHitInstances (GetInstanceIDsByIPs : list string -> gset string) (hits : option hash_hits)
    : option (gmap string (gset string)) :=
  match hits with
  | None => None
  | Some hits => if decide (hits = ∅) then None else Some (GetInstanceIDsByIPs <$> hits)
  end.

Definition write_prefix (numPromptTokens prefixHitLen : Z) (iv : instanceViewScheduling) : instanceViewScheduling :=
  let ratio := if decide (numPromptTokens > 0) then f32_div (f32_of_Z prefixHitLen) (f32_of_Z numPromptTokens) else f_zero in
  with_ctx (set_prefix prefixHitLen ratio (int64 (numPromptTokens - prefixHitLen)) (v_ctx iv)) iv.

(** Instances that are not in [instanceViews] are skipped, views without an entry are
    left as they are. *)
Definition getInstancesPrefixCacheHitLen (now later : Z) (query : nat -> option hash_hits)
    (GetInstanceIDsByIPs : list string -> gset string) (prefixHashes : list string) (chunkSize numPromptTokens : Z)
    (c : KVSClient) (instanceViews : gmap string instanceViewScheduling)
    : gmap string instanceViewScheduling * KVSClient :=
  let '(down, c) := IsKVSMetadataServiceDown now c in
  if down then (instanceViews, c)
  else
    let '(hits, c) := BatchQueryCacheHitKVSInstances now later query prefixHashes c in
    match calcInstancesPrefixCacheHitLen chunkSize prefixHashes (convertToCacheHitInstances GetInstanceIDsByIPs hits) with
    | None => (instanceViews, c)
    | Some lens =>
        (map_imap (fun id iv => Some (match lens !! id with
                                      | Some n => write_prefix numPromptTokens n iv
                                      | None => iv end)) instanceViews, c)
    end.

(** ** Lemmas *)

(** The specification: the hits of one instance along the blocks, as booleans; the
    first run of consecutive hits. *)
Fixpoint leading (l : list bool) : nat := match l with true :: l => S (leading l) | _ => 0%nat end.
Fixpoint first_run (l : list bool) : nat := match l with false :: l => first_run l | _ => leading l end.

Definition hit_bits (prefixHashes : list string) (hits : gmap string (gset string)) (id : string) : list bool :=
  (fun h => match hits !! h with Some s => bool_decide (id ∈ s) | None => false end) <$> prefixHashes.

Lemma hit_instances_lookup chunk i s st id :
  hit_instances chunk i s st !! id = if decide (id ∈ s) then Some (hit_update chunk i (st !! id)) else st !! id.
Proof.
  unfold hit_instances. revert id. pose (P := fun (m : gmap string hit) (X : gset string) => forall id, m !! id =
    if decide (id ∈ X) then Some (hit_update chunk i (st !! id)) else st !! id).
  apply (set_fold_ind_L P); unfold P; clear P.
  - intros id. by rewrite decide_False by set_solver.
  - intros x X m Hx IH id. rewrite lookup_insert. case_decide as E.
    + subst id. rewrite decide_True by set_solver. f_equal. rewrite (IH x). by rewrite decide_False.
    + rewrite (IH id). destruct (decide (id ∈ X)); [rewrite decide_True by set_solver|rewrite decide_False by set_solver]; done.
Qed.

(** What the remaining blocks add to the entry of one instance. *)
Definition hit_rest (chunk i : Z) (h : option hit) (bits : list bool) : option Z :=
  match h with
  | None => if existsb id bits then Some (chunk * Z.of_nat (first_run bits)) else None
  | Some h =>
      if hitBroken h then Some (hitLen h)
      else if decide (lastHitIdx h = i - 1) then Some (hitLen h + chunk * Z.of_nat (leading bits))
      else Some (hitLen h)
  end.

Lemma hit_rest_step chunk i h (b : bool) bits :
  (match h with Some h => lastHitIdx h < i /\ 0 <= hitLen h | None => True end) -> 0 <= chunk ->
  (match h with Some h => hitLen h | None => 0 end) + chunk * Z.of_nat (S (length bits)) <= MaxInt64 ->
  hit_rest chunk (i + 1) (if b then Some (hit_update chunk i h) else h) bits = hit_rest chunk i h (b :: bits).
Proof.
  intros Hh Hc Hov. destruct b, h as [[len last br]|]; cbn in *.
  - destruct br; [done|]. destruct (decide (last = i - 1)); cbn.
    + rewrite decide_True by lia. rewrite int64_small by (unfold MinInt64, MaxInt64 in *; lia). f_equal. lia.
    + done.
  - rewrite decide_True by lia. f_equal. lia.
  - destruct br; [done|]. rewrite decide_False by lia. case_decide; [f_equal; lia|done].
  - done.
Qed.

Lemma hit_update_bound chunk i h :
  (match h with Some h => lastHitIdx h < i /\ 0 <= hitLen h | None => True end) -> 0 <= chunk ->
  (match h with Some h => hitLen h | None => 0 end) + chunk <= MaxInt64 ->
  lastHitIdx (hit_update chunk i h) < i + 1 /\ 0 <= hitLen (hit_update chunk i h) /\
  hitLen (hit_update chunk i h) <= (match h with Some h => hitLen h | None => 0 end) + chunk.
Proof.
  intros Hh Hc Hov. destruct h as [[len last br]|]; cbn in *; [|lia].
  destruct br; cbn; [lia|]. case_decide; cbn; [|lia]. rewrite int64_small by (unfold MinInt64, MaxInt64 in *; lia). lia.
Qed.

Lemma hit_loop_spec chunk i hashes hits st id :
  0 <= chunk -> (match st !! id with Some h => lastHitIdx h < i /\ 0 <= hitLen h | None => True end) ->
  (match st !! id with Some h => hitLen h | None => 0 end) + chunk * Z.of_nat (length hashes) <= MaxInt64 ->
  hitLen <$> hit_loop chunk i hashes hits st !! id = hit_rest chunk i (st !! id) (hit_bits hashes hits id).
Proof.
  intros Hc. revert i st. induction hashes as [|h hashes IH]; intros i st Hst Hov; cbn.
  { destruct (st !! id) as [[len last br]|]; [|done]. cbn. destruct br; [done|]. case_decide; [|done]. f_equal. lia. }
  set (st' := match hits !! h with Some s => hit_instances chunk i s st | None => st end).
  set (b := match hits !! h with Some s => bool_decide (id ∈ s) | None => false end).
  assert (st' !! id = if b then Some (hit_update chunk i (st !! id)) else st !! id) as E.
  { unfold st', b. destruct (hits !! h) as [s|]; [|done]. rewrite hit_instances_lookup. case_decide.
    - by rewrite bool_decide_eq_true_2.
    - by rewrite bool_decide_eq_false_2. }
  rewrite <- hit_rest_step; [|done..|cbn in Hov; rewrite length_fmap; lia]. rewrite <- E. cbn in Hov.
  assert (chunk <= chunk * Z.of_nat (S (length hashes))) by nia.
  pose proof (hit_update_bound chunk i (st !! id) Hst Hc ltac:(lia)) as (B1 & B2 & B3).
  apply IH; rewrite E; destruct b; cbn; try lia; destruct (st !! id); lia.
Qed.

Lemma query_retry_fail (query : nat -> option (gmap string (list string))) i n :
  (forall j, (i <= j < i + n)%nat -> query j = None) -> query_retry query i n = None.
Proof.
  revert i. induction n as [|n IH]; intros i H; [done|]. cbn. rewrite (H i) by lia. apply IH. intros j Hj. apply H. lia.
Qed.

(** ** Theorems *)

Definition demo_hits : gmap string (gset string) := <["h0" := {["b"]}]> (<["h1" := {["a"; "b"]}]> {["h2" := {["a"]}]}).

(** The hit length of every instance is the chunk size times the length of its first
    run of consecutive hit blocks, wherever the run starts; instances without a hit
    have no entry. *)
Theorem prefix_hit_length_exact chunkSize prefixHashes hits :
  prefixHashes <> [] -> 0 <= chunkSize -> chunkSize * Z.of_nat (length prefixHashes) <= MaxInt64 ->
  exists lens, calcInstancesPrefixCacheHitLen chunkSize prefixHashes (Some hits) = Some lens /\
    forall id, lens !! id =
      if existsb Datatypes.id (hit_bits prefixHashes hits id)
      then Some (chunkSize * Z.of_nat (first_run (hit_bits prefixHashes hits id)))
      else None.
Proof.
  intros Hne Hc Hov. exists (hitLen <$> hit_loop chunkSize 0 prefixHashes hits ∅). split; [by destruct prefixHashes|].
  intros id. rewrite lookup_fmap, (hit_loop_spec chunkSize 0 prefixHashes hits ∅ id Hc); rewrite ?lookup_empty; done.
Qed.

Lemma prefix_hit_length_exact_witness :
  exists lens, calcInstancesPrefixCacheHitLen 64 ["h0"; "h1"; "h2"] (Some demo_hits) = Some lens /\ lens !! "b" = Some 128.
Proof.
  destruct (prefix_hit_length_exact 64 ["h0"; "h1"; "h2"] demo_hits) as (lens & H & Hl).
  - discriminate.
  - lia.
  - vm_compute. discriminate.
  - exists lens. split; [exact H|]. rewrite (Hl "b"). vm_compute. reflexivity.
Defined.

Definition demo_idle (id : string) : instanceViewScheduling :=
  let md := mkMetadata id "prefill" "" "10.0.0.1" "" 8000 0 0 "n1" 1 1 "" 0 0 0 f_zero f_zero "" 0 1024 in
  let inst := mkLLMInstance 0 id "m" InferTypePrefill (mkEndpoint "10.0.0.1" 8000) "" 0 0 1 in
  mkIvs InferTypePrefill (Some (mkCmsView inst zero_Status md zero_LocalAccount "")) None inst id empty_ctx.

(** Of two idle instances the cache-aware prefill metric prefers the one that has
    nothing cached: a prompt of 1000 tokens with one block of 64 cached on instance a
    costs 936 there, and 0 on instance b, whose missing tokens are never written. *)
Theorem cache_miss_preferred :
  let query := fun _ : nat => Some {["h0" := ["10.0.0.1"]]} in
  let vs := <["a" := demo_idle "a"]> {["b" := demo_idle "b"]} in
  let vs' := fst (getInstancesPrefixCacheHitLen 0 0 query (fun _ => {["a"]}) ["h0"; "h1"] 64 1000
                    (newKVSClient 0 3 30) vs) in
  exists a b, vs' !! "a" = Some a /\ vs' !! "b" = Some b /\
    CacheAwareAllPrefillsTokensNum_Calculate a = Some (f32_of_Z 936) /\
    CacheAwareAllPrefillsTokensNum_Calculate b = Some (f32_of_Z 0).
Proof.
  cbv zeta. eexists _, _. split; [vm_compute; reflexivity|]. split; [vm_compute; reflexivity|].
  split; vm_compute; reflexivity.
Qed.

(** The metadata service breaker: when all retries fail the service is marked down,
    no query is sent until the configured time has passed, whatever the service would
    answer, and queries are sent again after it. *)
Theorem kvs_breaker now later (query query' : nat -> option (gmap string (list string))) hashes hashes' c r c' :
  hashes <> [] -> hashes' <> [] -> fst (IsKVSMetadataServiceDown now c) = false ->
  (forall i, (i < Z.to_nat (retryTimes c))%nat -> query i = None) ->
  BatchQueryCacheHitKVSInstances now later query hashes c = (r, c') ->
  r = None /\
  forall t1 t2,
    (t1 <= later + kvsMetadataServiceDownDuration c ->
       BatchQueryCacheHitKVSInstances t1 t2 query' hashes' c' = (None, c')) /\
    (later + kvsMetadataServiceDownDuration c < t1 ->
       fst (BatchQueryCacheHitKVSInstances t1 t2 query' hashes' c') = query_retry query' 0 (Z.to_nat (retryTimes c))).
Proof.
  intros Hne Hne' Hdown Hq. unfold BatchQueryCacheHitKVSInstances at 1. destruct hashes as [|h hs]; [done|].
  assert (exists st t, snd (IsKVSMetadataServiceDown now c) = set_kvs st t c) as (st & t & Hs).
  { unfold IsKVSMetadataServiceDown. destruct c as [n d [|] t]; cbn; [by exists kvsMetadataServiceHealthy, t|].
    case_decide; cbn; [by exists kvsMetadataServiceHealthy, t|by exists kvsMetadataServiceDown, t]. }
  destruct (IsKVSMetadataServiceDown now c) as [down c1]. cbn in Hdown, Hs. subst down c1.
  cbn [retryTimes set_kvs]. rewrite query_retry_fail by (intros j Hj; apply Hq; lia). intros [= <- <-]. split; [done|].
  intros t1 t2. unfold BatchQueryCacheHitKVSInstances. destruct hashes' as [|h' hs']; [done|]. cbn.
  split; intros Ht; [by rewrite decide_False by lia|]. rewrite decide_True by lia. cbn.
  by destruct (query_retry query' 0 (Z.to_nat (retryTimes c))).
Qed.

Lemma kvs_breaker_witness :
  let c' := markKVSMetadataServiceDown 5 (newKVSClient 0 3 30) in
  BatchQueryCacheHitKVSInstances 10 10 (fun _ => Some ∅) ["h"] c' = (None, c').
Proof.
  apply (kvs_breaker 0 5 (fun _ => None) (fun _ => Some ∅) ["h"] ["h"] (newKVSClient 0 3 30) None
           (markKVSMetadataServiceDown 5 (newKVSClient 0 3 30))); try reflexivity; try discriminate.
Defined.
