(* ===== verification/CmsReadClient.v ===== *)
(** * The CMS read client

    [pkg/cms/cms_read_client.go]: the scheduler's cache of the cluster metadata store.
    Two loops refresh the metadata and the status of the instances from Redis; the
    views under scheduling alias both.

    Metadata messages are updated in place and shared by pointer between
    [instanceMetadatas] and the views, so they live in a heap. A view and its status
    are created together; the status of a view is the entry of [instanceStatuses].
    The two Redis answers of a refresh are its arguments, protobuf is an interface.
    Both refresh functions recover from panics: they return the state that the panic
    left and whether there was one. *)

From stdpp Require Import base gmap sets list strings numbers.
From S2P Require Import Prelude GoStrings GoFloat Types CmsTypes LocalAccount Lrs Metrics Predictor.

Local Open Scope Z_scope.

(** The message after [proto.Unmarshal], which resets it first, and whether the call
    succeeded. *)
Class ProtoCodec := {
  unmarshalMetadata : string -> InstanceMetadata * bool;
  unmarshalStatus : string -> InstanceStatus * bool
}.

Definition LlumnixInstanceMetadataPrefix := "llumnix:instance_metadata:".
Definition LlumnixInstanceStatusPrefix := "llumnix:instance_status:".

Record view := mkView {
  vw_Metadata : N;
  vw_Instance : LLMInstance;
  vw_LocalAccount : InstanceStatusLocalAccount;
  vw_ReservedInferType : InferType
}.

Record CmsOptions := mkCmsOptions {
  co_enableInstanceStatusLocalAccount : bool;
  co_enablePredictorEnhancedScheduling : bool;
  co_enableAdaptivePD : bool
}.

Record CMSReadClient := mkCmsClient {
  c_options : CmsOptions;
  instanceIDs : list string;
  instanceIDsSet : gset string;
  md_heap : gmap N InstanceMetadata;
  md_next : N;
  instanceMetadatas : gmap string (option N);
  ipToInstanceIDs : gmap string (gset string);
  instanceIDToIP : gmap string string;
  instanceStatuses : gmap string InstanceStatus;
  instanceViews : gmap string view;
  groupedInstanceViews : gmap string (gset string);
  isAlive : bool;
  c_editor : InstanceStatusLocalAccountEditor;
  TTFTPredictor : QuadraticPredictor;
  reservedPrefillInstance : string;
  reservedDecodeInstance : string
}.

Definition NewCMSReadClient (o : CmsOptions) (cacheAware : bool) (stalenessSeconds warmup : Z) : CMSReadClient :=
  mkCmsClient o [] ∅ ∅ 0%N ∅ ∅ ∅ ∅ ∅ ∅ false
    (newInstanceStatusLocalAccountEditor stalenessSeconds cacheAware) (NewQuadraticPredictor warmup) "" "".

(** Field updates. *)
Definition set_ids (ids : list string) (s : gset string) (c : CMSReadClient) : CMSReadClient :=
  mkCmsClient (c_options c) ids s (md_heap c) (md_next c) (instanceMetadatas c) (ipToInstanceIDs c) (instanceIDToIP c)
    (instanceStatuses c) (instanceViews c) (groupedInstanceViews c) (isAlive c) (c_editor c) (TTFTPredictor c)
    (reservedPrefillInstance c) (reservedDecodeInstance c).

Definition set_alive (b : bool) (c : CMSReadClient) : CMSReadClient :=
  mkCmsClient (c_options c) (instanceIDs c) (instanceIDsSet c) (md_heap c) (md_next c) (instanceMetadatas c)
    (ipToInstanceIDs c) (instanceIDToIP c) (instanceStatuses c) (instanceViews c) (groupedInstanceViews c) b (c_editor c)
    (TTFTPredictor c) (reservedPrefillInstance c) (reservedDecodeInstance c).

Definition set_metadata (heap : gmap N InstanceMetadata) (next : N) (ms : gmap string (option N)) (c : CMSReadClient)
    : CMSReadClient :=
  mkCmsClient (c_options c) (instanceIDs c) (instanceIDsSet c) heap next ms (ipToInstanceIDs c) (instanceIDToIP c)
    (instanceStatuses c) (instanceViews c) (groupedInstanceViews c) (isAlive c) (c_editor c) (TTFTPredictor c)
    (reservedPrefillInstance c) (reservedDecodeInstance c).

Definition set_ips (ips : gmap string (gset string)) (ids : gmap string string) (c : CMSReadClient) : CMSReadClient :=
  mkCmsClient (c_options c) (instanceIDs c) (instanceIDsSet c) (md_heap c) (md_next c) (instanceMetadatas c) ips ids
    (instanceStatuses c) (instanceViews c) (groupedInstanceViews c) (isAlive c) (c_editor c) (TTFTPredictor c)
    (reservedPrefillInstance c) (reservedDecodeInstance c).

Definition set_views (sts : gmap string InstanceStatus) (vs : gmap string view) (gs : gmap string (gset string))
    (c : CMSReadClient) : CMSReadClient :=
  mkCmsClient (c_options c) (instanceIDs c) (instanceIDsSet c) (md_heap c) (md_next c) (instanceMetadatas c)
    (ipToInstanceIDs c) (instanceIDToIP c) sts vs gs (isAlive c) (c_editor c) (TTFTPredictor c)
    (reservedPrefillInstance c) (reservedDecodeInstance c).

Definition set_editor (e : InstanceStatusLocalAccountEditor) (c : CMSReadClient) : CMSReadClient :=
  mkCmsClient (c_options c) (instanceIDs c) (instanceIDsSet c) (md_heap c) (md_next c) (instanceMetadatas c)
    (ipToInstanceIDs c) (instanceIDToIP c) (instanceStatuses c) (instanceViews c) (groupedInstanceViews c) (isAlive c) e
    (TTFTPredictor c) (reservedPrefillInstance c) (reservedDecodeInstance c).

Definition set_predictor (q : QuadraticPredictor) (c : CMSReadClient) : CMSReadClient :=
  mkCmsClient (c_options c) (instanceIDs c) (instanceIDsSet c) (md_heap c) (md_next c) (instanceMetadatas c)
    (ipToInstanceIDs c) (instanceIDToIP c) (instanceStatuses c) (instanceViews c) (groupedInstanceViews c) (isAlive c)
    (c_editor c) q (reservedPrefillInstance c) (reservedDecodeInstance c).

Definition set_reserved (p d : string) (vs : gmap string view) (c : CMSReadClient) : CMSReadClient :=
  mkCmsClient (c_options c) (instanceIDs c) (instanceIDsSet c) (md_heap c) (md_next c) (instanceMetadatas c)
    (ipToInstanceIDs c) (instanceIDToIP c) (instanceStatuses c) vs (groupedInstanceViews c) (isAlive c) (c_editor c)
    (TTFTPredictor c) p d.

(** ** The index from IPs to instances *)

Definition addToIpToInstanceIDsMap (ip instanceID : string) (ips : gmap string (gset string)) : gmap string (gset string) :=
  if decide (ip = "") then ips
  else match ips !! ip with
       | Some ids => <[ip := {[instanceID]} ∪ ids]> ips
       | None => <[ip := {[instanceID]}]> ips
       end.

Definition removeFromIp2InstanceIDsMap (ip instanceID : string) (ips : gmap string (gset string)) : gmap string (gset string) :=
  if decide (ip = "") then ips
  else match ips !! ip with
       | Some ids => let ids := ids ∖ {[instanceID]} in
                     if decide (ids = ∅) then delete ip ips else <[ip := ids]> ips
       | None => ips
       end.

Definition GetInstanceIDsByIPs (c : CMSReadClient) (ips : list string) : gset string :=
  fold_left (fun acc ip => match ipToInstanceIDs c !! ip with Some ids => acc ∪ ids | None => acc end) ips ∅.

(** ** Metadata *)

Definition read_metadata (c : CMSReadClient) (p : N) : InstanceMetadata := default zero_Metadata (md_heap c !! p).

Definition metadata_ip (c : CMSReadClient) (instanceID : string) : string :=
  match instanceMetadatas c !! instanceID with
  | Some (Some p) => md_IpKvs (read_metadata c p)
  | _ => ""
  end.

(** One iteration of the cleanup loop. *)
Definition drop_metadata (c : CMSReadClient) (instanceID : string) : CMSReadClient :=
  if decide (instanceID ∈ instanceIDsSet c) then c
  else
    let oldIP := default "" (instanceIDToIP c !! instanceID) in
    let ips :=
      if decide (oldIP <> "") then removeFromIp2InstanceIDsMap oldIP instanceID (ipToInstanceIDs c)
      else removeFromIp2InstanceIDsMap (metadata_ip c instanceID) instanceID (ipToInstanceIDs c) in
    set_metadata (md_heap c) (md_next c) (delete instanceID (instanceMetadatas c))
      (set_ips ips (delete instanceID (instanceIDToIP c)) c).

Section refresh.
Context {PC : ProtoCodec}.

(** One iteration of the update loop. *)
Definition update_metadata (c : CMSReadClient) (entry : string * option string) : CMSReadClient :=
  let '(instanceID, bytes) := entry in
  match bytes with
  | None => set_metadata (md_heap c) (md_next c) (<[instanceID := None]> (instanceMetadatas c)) c
  | Some bytes =>
      let oldIP := metadata_ip c instanceID in
      let '(p, next) := match instanceMetadatas c !! instanceID with
                        | Some (Some p) => (p, md_next c)
                        | _ => (md_next c, (md_next c + 1)%N)
                        end in
      let '(md, ok) := unmarshalMetadata bytes in
      let c := set_metadata (<[p := md]> (md_heap c)) next (<[instanceID := Some p]> (instanceMetadatas c)) c in
      if negb ok then c
      else
        let newIP := md_IpKvs md in
        if decide (newIP <> oldIP)
        then
          let ips := removeFromIp2InstanceIDsMap oldIP instanceID (ipToInstanceIDs c) in
          let ips := addToIpToInstanceIDsMap newIP instanceID ips in
          let ids := if decide (newIP = "") then delete instanceID (instanceIDToIP c)
                     else <[instanceID := newIP]> (instanceIDToIP c) in
          set_ips ips ids c
        else if decide (newIP = "") then set_ips (ipToInstanceIDs c) (delete instanceID (instanceIDToIP c)) c
        else c
  end.

(** [keys] and [values] are the answers of [GetKeysByPrefix] and [MGetBytes]; [None] is
    an error. Redis answers one value per key. *)
Definition refreshInstanceMetadata (order : key_order) (keys : option (list string)) (values : option (list (option string)))
    (c : CMSReadClient) : CMSReadClient :=
  match keys with
  | None => set_alive false c
  | Some keys =>
      let ids := (fun id => TrimPrefix id LlumnixInstanceMetadataPrefix) <$> keys in
      match values with
      | None => set_alive false c
      | Some values =>
          let c := set_ids ids (list_to_set ids) (set_alive true c) in
          let c := fold_left drop_metadata (order (dom (instanceMetadatas c))) c in
          fold_left update_metadata (zip ids values) c
      end
  end.

(** ** Status *)

Definition drop_from_groups (instanceID : string) (gs : gmap string (gset string)) : gmap string (gset string) :=
  filter (fun kv => kv.2 <> ∅) ((fun ids => ids ∖ {[instanceID]}) <$> gs).

Definition delete_instance (instanceID : string) (c : CMSReadClient) : CMSReadClient :=
  set_views (delete instanceID (instanceStatuses c)) (delete instanceID (instanceViews c))
    (drop_from_groups instanceID (groupedInstanceViews c)) c.

Definition drop_status (c : CMSReadClient) (instanceID : string) : CMSReadClient :=
  if decide (instanceID ∈ instanceIDsSet c) then c
  else
    let c := delete_instance instanceID c in
    set_reserved (if decide (reservedPrefillInstance c = instanceID) then "" else reservedPrefillInstance c)
      (if decide (reservedDecodeInstance c = instanceID) then "" else reservedDecodeInstance c) (instanceViews c) c.

Definition initial_status : InstanceStatus :=
  mkStatus "" false MinInt64 MinInt32 MinInt32 [] [] 0 0 0 0 0 0 0 0 0 0 0 0 0 0 0 0 0 0 0 0 0 0 0 0 0 0
    f_zero f_zero f_zero f_zero MinInt32 f_zero 0.

Definition instance_of_metadata (md : InstanceMetadata) : LLMInstance :=
  mkLLMInstance 0 (md_Ip md +:+ "_instance" +:+ Itoa (md_DpRank md) +:+ "_" +:+ Itoa (md_DataParallelSize md)) ""
    (md_InstanceType md) (mkEndpoint (md_Ip md) (md_ApiServerPort md)) (md_IpKvt md) (md_KvtPort md) (md_DpRank md)
    (md_DataParallelSize md).

(** Creates status and view of an instance that has none. The status is stored before
    the metadata is read: for a [nil] metadata that read panics. *)
Definition create_instance (instanceID : string) (c : CMSReadClient) : CMSReadClient * bool :=
  match instanceStatuses c !! instanceID with
  | Some _ => (c, false)
  | None =>
      let sts := <[instanceID := initial_status]> (instanceStatuses c) in
      match instanceMetadatas c !! instanceID with
      | Some (Some p) =>
          let inst := instance_of_metadata (read_metadata c p) in
          let ids := default ∅ (groupedInstanceViews c !! InstInferType inst) in
          (set_views sts (<[instanceID := mkView p inst zero_LocalAccount ""]> (instanceViews c))
             (<[InstInferType inst := {[instanceID]} ∪ ids]> (groupedInstanceViews c)) c, false)
      | _ => (set_views sts (instanceViews c) (groupedInstanceViews c) c, true)
      end
  end.

(** The [InstanceView] that a view id stands for. *)
Definition view_of (c : CMSReadClient) (st : InstanceStatus) (v : view) : CmsInstanceView :=
  mkCmsView (vw_Instance v) st (read_metadata c (vw_Metadata v)) (vw_LocalAccount v) (vw_ReservedInferType v).

Definition addSampleToTTFTPredictor (iv : CmsInstanceView) (q : QuadraticPredictor) : QuadraticPredictor :=
  if decide (cv_GetInferType iv <> InferTypePrefill) then q
  else if decide (NumScheduledPrefillTokens (cv_Status iv) = 0) then q
  else if fle (StepDuration (cv_Status iv)) f_zero then q
  else q_AddSample (f64_of_Z (NumScheduledPrefillTokens (cv_Status iv))) (StepDuration (cv_Status iv)) q.

(** Local account, predictor sample and metrics of an instance whose status was
    replaced or touched; the three need the view. *)
Definition after_status (order : key_order) (now : string -> Z) (instanceID : string) (updateStatus updateTTFT : bool)
    (c : CMSReadClient) : CMSReadClient * bool :=
  match instanceViews c !! instanceID, instanceStatuses c !! instanceID with
  | Some v, Some st =>
      let iv := view_of c st v in
      let '(iv, e) :=
        if co_enableInstanceStatusLocalAccount (c_options c) && updateStatus
        then updateInstanceStatusLocalAccount order now instanceID iv (c_editor c)
        else (iv, c_editor c) in
      let c := set_views (<[instanceID := cv_Status iv]> (instanceStatuses c))
                 (<[instanceID := mkView (vw_Metadata v) (vw_Instance v) (cv_LocalAccount iv) (vw_ReservedInferType v)]>
                    (instanceViews c)) (groupedInstanceViews c) (set_editor e c) in
      (if co_enablePredictorEnhancedScheduling (c_options c) && updateTTFT
       then set_predictor (addSampleToTTFTPredictor iv (TTFTPredictor c)) c else c, false)
  | _, _ => (c, true)
  end.

(** One iteration of the update loop; the flag is a panic. *)
Definition update_status (order : key_order) (now : string -> Z) (c : CMSReadClient) (entry : string * option string)
    : CMSReadClient * bool :=
  let '(instanceID, bytes) := entry in
  match bytes with
  | None => (delete_instance instanceID c, false)
  | Some bytes =>
      match instanceMetadatas c !! instanceID with
      | None => (c, false)
      | Some _ =>
          let '(c, panic) := create_instance instanceID c in
          if panic then (c, true)
          else
            let buf := fst (unmarshalStatus bytes) in
            let st := default initial_status (instanceStatuses c !! instanceID) in
            if decide (TimestampMs buf <= TimestampMs st) then (c, false)
            else
              let updateStatus := bool_decide (UpdateId buf > UpdateId st) in
              let updateTTFT := negb (bool_decide (ProfilingId buf = -1) || bool_decide (ProfilingId buf <= ProfilingId st)) in
              let st := if updateStatus then buf else status_set_liveness (Schedulable buf) (TimestampMs buf) st in
              let c := set_views (<[instanceID := st]> (instanceStatuses c)) (instanceViews c) (groupedInstanceViews c) c in
              after_status order now instanceID updateStatus updateTTFT c
      end
  end.

Fixpoint update_statuses (order : key_order) (now : string -> Z) (c : CMSReadClient) (entries : list (string * option string))
    : CMSReadClient * bool :=
  match entries with
  | [] => (c, false)
  | entry :: entries =>
      let '(c, panic) := update_status order now c entry in
      if panic then (c, true) else update_statuses order now c entries
  end.

(** ** Reserved instances for adaptive PD *)

Record reserve_state := mkReserve {
  rs_prefill : string;
  rs_decode : string;
  rs_views : gmap string view;
  leastDecodeBatchSize : Z;
  leastPrefillTokensNum : Z;
  leastBusyDecodeInstanceId : string;
  leastBusyPrefillInstanceId : string
}.

Definition set_view_reserved (t : InferType) (v : view) : view :=
  mkView (vw_Metadata v) (vw_Instance v) (vw_LocalAccount v) t.

Definition decodeBatchSizeOf (st : InstanceStatus) : Z :=
  int32 (HybridSchedulerWaitingToDecodeRequestsNum st + NumLoadingRequests st + SchedulerWaitingToDecodeRequestsNum st
         + SchedulerRunningToDecodeRequestsNum st).

Definition prefillTokensNumOf (st : InstanceStatus) : Z :=
  int32 (NumUncomputedTokensAllWaitingPrefills st + NumUncomputedTokensSchedulerRunningPrefills st).

(** [c.reservedXInstance = id] and the write to the view, which panics, after the first
    assignment, when the status has no view. *)
Definition reserve_decode (id : string) (r : reserve_state) : reserve_state * bool :=
  (mkReserve (rs_prefill r) id (alter (set_view_reserved InferTypeDecode) id (rs_views r)) (leastDecodeBatchSize r)
     (leastPrefillTokensNum r) (leastBusyDecodeInstanceId r) (leastBusyPrefillInstanceId r),
   bool_decide (rs_views r !! id = None)).

Definition reserve_prefill (id : string) (r : reserve_state) : reserve_state * bool :=
  (mkReserve id (rs_decode r) (alter (set_view_reserved InferTypePrefill) id (rs_views r)) (leastDecodeBatchSize r)
     (leastPrefillTokensNum r) (leastBusyDecodeInstanceId r) (leastBusyPrefillInstanceId r),
   bool_decide (rs_views r !! id = None)).

(** The two reservations of an iteration. *)
Definition reserve_idle (id : string) (decodeBatchSize prefillTokensNum : Z) (r : reserve_state) : reserve_state * bool :=
  let '(r, panic) :=
    if bool_decide (decodeBatchSize >= 0) && bool_decide (prefillTokensNum = 0) && bool_decide (rs_decode r = "")
    then reserve_decode id r else (r, false) in
  if (panic : bool) then (r, true)
  else if bool_decide (prefillTokensNum >= 0) && bool_decide (decodeBatchSize = 0) && bool_decide (rs_prefill r = "")
            && bool_decide (id <> rs_decode r)
  then reserve_prefill id r else (r, false).

(** The update of the least busy instances at the end of an iteration. *)
Definition track_least (id : string) (decodeBatchSize prefillTokensNum : Z) (r : reserve_state) : reserve_state :=
  let '(ld, ldi) := if decide (decodeBatchSize < leastDecodeBatchSize r) then (decodeBatchSize, id)
                    else (leastDecodeBatchSize r, leastBusyDecodeInstanceId r) in
  let '(lp, lpi) := if bool_decide (prefillTokensNum < leastPrefillTokensNum r) && bool_decide (id <> rs_decode r)
                    then (prefillTokensNum, id) else (leastPrefillTokensNum r, leastBusyPrefillInstanceId r) in
  mkReserve (rs_prefill r) (rs_decode r) (rs_views r) ld lp ldi lpi.

Definition both_reserved (r : reserve_state) : bool := bool_decide (rs_prefill r <> "") && bool_decide (rs_decode r <> "").

(** How the loop ends: through the range, by the early return, by a panic. *)
Inductive loop_end := LoopDone | LoopReturn | LoopPanic.

Fixpoint reserve_loop (sts : gmap string InstanceStatus) (ids : list string) (r : reserve_state) : reserve_state * loop_end :=
  match ids with
  | [] => (r, LoopDone)
  | id :: ids =>
      match sts !! id with
      | None => reserve_loop sts ids r
      | Some st =>
          let '(r, panic) := reserve_idle id (decodeBatchSizeOf st) (prefillTokensNumOf st) r in
          if (panic : bool) then (r, LoopPanic)
          else if both_reserved r then (r, LoopReturn)
          else reserve_loop sts ids (track_least id (decodeBatchSizeOf st) (prefillTokensNumOf st) r)
      end
  end.

Definition reserve_fallback (r : reserve_state) : reserve_state * bool :=
  let '(r, panic) :=
    if bool_decide (rs_decode r = "") && bool_decide (leastBusyDecodeInstanceId r <> "")
    then reserve_decode (leastBusyDecodeInstanceId r) r else (r, false) in
  if (panic : bool) then (r, true)
  else if bool_decide (rs_prefill r = "") && bool_decide (leastBusyPrefillInstanceId r <> "")
  then reserve_prefill (leastBusyPrefillInstanceId r) r else (r, false).

Definition setReservedInstance (order : key_order) (c : CMSReadClient) : CMSReadClient * bool :=
  if bool_decide (reservedPrefillInstance c <> "") && bool_decide (reservedDecodeInstance c <> "") then (c, false)
  else
    let r := mkReserve (reservedPrefillInstance c) (reservedDecodeInstance c) (instanceViews c) MaxInt32 MaxInt32 "" "" in
    let '(r, how) := reserve_loop (instanceStatuses c) (order (dom (instanceStatuses c))) r in
    let '(r, panic) := match how with
                       | LoopDone => reserve_fallback r
                       | LoopReturn => (r, false)
                       | LoopPanic => (r, true)
                       end in
    (set_reserved (rs_prefill r) (rs_decode r) (rs_views r) c, panic).

Definition fitTTFTPredictor `{LeastSquares} (c : CMSReadClient) : CMSReadClient :=
  if negb (ReadyForFit (TTFTPredictor c)) then c else set_predictor (snd (Fit (TTFTPredictor c))) c.

(** [values] is the answer of [MGetBytes] for the keys of [instanceIDs]. *)
Definition refreshInstanceStatus `{LeastSquares} (order : key_order) (now : string -> Z)
    (values : option (list (option string))) (c : CMSReadClient) : CMSReadClient * bool :=
  match values with
  | None => (set_alive false c, false)
  | Some values =>
      let c := set_alive true c in
      let c := fold_left drop_status (order (dom (instanceStatuses c))) c in
      let '(c, panic) := update_statuses order now c (zip (instanceIDs c) values) in
      if panic then (c, true)
      else
        let '(c, panic) := if co_enableAdaptivePD (c_options c) then setReservedInstance order c else (c, false) in
        if (panic : bool) then (c, true)
        else (if co_enablePredictorEnhancedScheduling (c_options c) && negb (Fitted (TTFTPredictor c))
              then fitTTFTPredictor c else c, false)
  end.

End refresh.

(** ** Requests of the scheduler *)

Definition GetInstanceViews (c : CMSReadClient) : gmap string CmsInstanceView :=
  map_imap (fun id v => st ← instanceStatuses c !! id; Some (view_of c st v)) (instanceViews c).

Definition GetGroupedInstanceViews (c : CMSReadClient) : gmap string (gset string) := groupedInstanceViews c.

(** Writes the account of a view back. *)
Definition put_account (id : string) (iv : CmsInstanceView) (c : CMSReadClient) : CMSReadClient :=
  set_views (instanceStatuses c)
    (alter (fun v => mkView (vw_Metadata v) (vw_Instance v) (cv_LocalAccount iv) (vw_ReservedInferType v)) id (instanceViews c))
    (groupedInstanceViews c) c.

Definition AddRequestLocalAccount (now : Z) (id : string) (inferType : InferType) (numTokens prefixHitNumTokens : Z)
    (requestId : string) (c : CMSReadClient) : CMSReadClient :=
  match GetInstanceViews c !! id with
  | None => c
  | Some iv =>
      let '(iv, e) := addRequestLocalAccount now inferType numTokens prefixHitNumTokens requestId iv (c_editor c) in
      set_editor e (put_account id iv c)
  end.

Definition RevertRequestPrefillLocalAccount (id : string) (numTokens prefixHitNumTokens : Z) (requestId : string)
    (c : CMSReadClient) : CMSReadClient :=
  match GetInstanceViews c !! id with
  | None => c
  | Some iv =>
      let '(iv, e) := revertRequestPrefillLocalAccount numTokens prefixHitNumTokens requestId iv (c_editor c) in
      set_editor e (put_account id iv c)
  end.

Definition RemoveRequestLocalAccount (requestId : string) (c : CMSReadClient) : CMSReadClient :=
  if negb (co_enableInstanceStatusLocalAccount (c_options c)) then c
  else
    let '(ivs, e) := removeRequestLocalAccount requestId (GetInstanceViews c) (c_editor c) in
    set_editor e (map_fold (fun id iv c => put_account id iv c) c ivs).

Definition GetInstanceMetadataByID (instanceID : string) (c : CMSReadClient) : option InstanceMetadata :=
  match instanceMetadatas c !! instanceID with
  | Some (Some p) => Some (read_metadata c p)
  | _ => None
  end.

Definition GetInstanceStatusByID (instanceID : string) (c : CMSReadClient) : option InstanceStatus :=
  instanceStatuses c !! instanceID.

(** ** Invariants *)

(** [id] is in the set of [k]. *)
Definition member (m : gmap string (gset string)) (k id : string) : Prop := exists s, m !! k = Some s /\ id ∈ s.

Definition no_empty (m : gmap string (gset string)) : Prop := forall k s, m !! k = Some s -> s <> ∅.

(** Every view has a status, and the groups are the views by role, without empty
    groups. *)
Record views_wf (sts : gmap string InstanceStatus) (vs : gmap string view) (gs : gmap string (gset string)) : Prop := mk_views_wf {
  vwf_status : forall id v, vs !! id = Some v -> is_Some (sts !! id);
  vwf_no_empty : no_empty gs;
  vwf_group : forall t id, member gs t id <-> exists v, vs !! id = Some v /\ InstInferType (vw_Instance v) = t
}.

(** Every pointer to metadata is allocated. *)
Record meta_wf (heap : gmap N InstanceMetadata) (ms : gmap string (option N)) (vs : gmap string view) : Prop := mk_meta_wf {
  mwf_meta : forall id p, ms !! id = Some (Some p) -> is_Some (heap !! p);
  mwf_view : forall id v, vs !! id = Some v -> is_Some (heap !! vw_Metadata v)
}.

(** An instance with a recorded IP is found under that IP. *)
Record ip_wf (ips : gmap string (gset string)) (ids : gmap string string) : Prop := mk_ip_wf {
  iwf_no_empty : no_empty ips;
  iwf_found : forall id ip, ids !! id = Some ip -> ip <> "" /\ member ips ip id
}.

Record cms_wf (c : CMSReadClient) : Prop := mk_cms_wf {
  wf_views : views_wf (instanceStatuses c) (instanceViews c) (groupedInstanceViews c);
  wf_metadata : meta_wf (md_heap c) (instanceMetadatas c) (instanceViews c);
  wf_ips : ip_wf (ipToInstanceIDs c) (instanceIDToIP c)
}.

Lemma member_insert m k s k' id : member (<[k := s]> m) k' id <-> (k' = k /\ id ∈ s) \/ (k' <> k /\ member m k' id).
Proof.
  unfold member. setoid_rewrite lookup_insert. destruct (decide (k = k')) as [->|Hne].
  - split; [intros (x & [= <-] & H); auto|intros [[_ H]|[H _]]; [eauto|done]].
  - split; [intros H; right; split; [congruence|done]|]. intros [[-> _]|[_ H]]; [done|done].
Qed.

Lemma member_delete m k k' id : member (delete k m) k' id <-> k' <> k /\ member m k' id.
Proof.
  unfold member. setoid_rewrite lookup_delete. destruct (decide (k = k')) as [->|Hne].
  - split; [by intros (x & [=] & _)|by intros [H _]].
  - split; [intros H; split; [congruence|done]|by intros [_ H]].
Qed.

Lemma member_add ip id ips ip' id' :
  member (addToIpToInstanceIDsMap ip id ips) ip' id' <-> member ips ip' id' \/ (ip <> "" /\ ip' = ip /\ id' = id).
Proof.
  unfold addToIpToInstanceIDsMap. case_decide as E; [tauto|].
  destruct (ips !! ip) as [s|] eqn:Hs; rewrite member_insert; destruct (decide (ip' = ip)) as [->|Hne].
  - rewrite elem_of_union, elem_of_singleton. split; [intros [[_ [?|?]]|[? _]]; [auto|left; by exists s|done]|].
    intros [(s' & Hs' & Hi)|(_ & _ & ->)]; [|auto]. left. split; [done|]. right. congruence.
  - naive_solver.
  - rewrite elem_of_singleton. split; [naive_solver|]. intros [(s' & Hs' & _)|(_ & _ & ->)]; [congruence|auto].
  - naive_solver.
Qed.

Lemma member_remove ip id ips ip' id' :
  member (removeFromIp2InstanceIDsMap ip id ips) ip' id' <-> member ips ip' id' /\ (ip = "" \/ ip' <> ip \/ id' <> id).
Proof.
  unfold removeFromIp2InstanceIDsMap. case_decide as E; [tauto|]. destruct (ips !! ip) as [s|] eqn:Hs.
  - case_decide as Ee.
    + rewrite member_delete. split; [intros [H ?]; auto|]. intros [(s' & Hs' & Hi) Hor]. split; [|by exists s'].
      intros ->. assert (s' = s) as -> by congruence. destruct Hor as [|[|Hne]]; [done..|]. set_solver.
    + rewrite member_insert. destruct (decide (ip' = ip)) as [->|Hne].
      * rewrite elem_of_difference, elem_of_singleton. split.
        -- intros [[_ [Hi Hn]]|[? _]]; [|done]. split; [by exists s|auto].
        -- intros [(s' & Hs' & Hi) Hor]. left. split; [done|]. assert (s' = s) as -> by congruence. naive_solver.
      * naive_solver.
  - split; [|by intros []]. intros (s' & Hs' & Hi). split; [by exists s'|]. right. left. intros ->. congruence.
Qed.

Lemma no_empty_add ip id ips : no_empty ips -> no_empty (addToIpToInstanceIDsMap ip id ips).
Proof.
  intros H k s. unfold addToIpToInstanceIDsMap. case_decide; [apply H|].
  destruct (ips !! ip); rewrite lookup_insert; case_decide; [intros [= <-]|apply H|intros [= <-]|apply H]; set_solver.
Qed.

Lemma no_empty_remove ip id ips : no_empty ips -> no_empty (removeFromIp2InstanceIDsMap ip id ips).
Proof.
  intros H k s. unfold removeFromIp2InstanceIDsMap. case_decide; [apply H|]. destruct (ips !! ip); [|apply H].
  case_decide; [rewrite lookup_delete|rewrite lookup_insert]; case_decide; [done|apply H|by intros [= <-]|apply H].
Qed.

Lemma member_drop id gs t id' : member (drop_from_groups id gs) t id' <-> member gs t id' /\ id' <> id.
Proof.
  unfold member, drop_from_groups. setoid_rewrite map_lookup_filter_Some. setoid_rewrite lookup_fmap_Some. split.
  - intros (s & [(s' & <- & Hs) _] & Hi). split; [exists s'|]; set_solver.
  - intros [(s & Hs & Hi) Hne]. exists (s ∖ {[id]}). split; [split; [by exists s|cbn; set_solver]|set_solver].
Qed.

Lemma no_empty_drop id gs : no_empty (drop_from_groups id gs).
Proof. intros k s Hs. by apply map_lookup_filter_Some in Hs as [_ Hs]. Qed.

(** *** Metadata refresh *)

Lemma meta_wf_mono heap heap' ms vs :
  (forall p, is_Some (heap !! p) -> is_Some (heap' !! p)) -> meta_wf heap ms vs -> meta_wf heap' ms vs.
Proof. intros H [H1 H2]. split; eauto. Qed.

Lemma meta_wf_delete heap ms vs id : meta_wf heap ms vs -> meta_wf heap (delete id ms) vs.
Proof. intros [H1 H2]. split; [|done]. intros id' p [_ Hp]%lookup_delete_Some. eauto. Qed.

Lemma meta_wf_set heap ms vs id q : (forall p, q = Some p -> is_Some (heap !! p)) -> meta_wf heap ms vs -> meta_wf heap (<[id := q]> ms) vs.
Proof.
  intros Hq [H1 H2]. split; [|done]. intros id' p [[_ Hp]|[_ Hp]]%lookup_insert_Some; [by apply Hq|eauto].
Qed.

Lemma drop_metadata_wf c id : cms_wf c -> cms_wf (drop_metadata c id).
Proof.
  intros [Hv Hm [Hne Hip]]. unfold drop_metadata. case_decide; [done|].
  split; cbn; [done|by apply meta_wf_delete|]. split.
  - case_decide; by apply no_empty_remove.
  - intros id' ip [Hd Hi]%lookup_delete_Some. destruct (Hip _ _ Hi) as [? ?]. split; [done|].
    case_decide; apply member_remove; auto.
Qed.

Lemma ip_wf_change ips ids id old new :
  ip_wf ips ids ->
  ip_wf (addToIpToInstanceIDsMap new id (removeFromIp2InstanceIDsMap old id ips))
    (if decide (new = "") then delete id ids else <[id := new]> ids).
Proof.
  intros [Hne Hip]. split; [by apply no_empty_add, no_empty_remove|].
  assert (forall id' ip, ids !! id' = Some ip -> id' <> id ->
    ip <> "" /\ member (addToIpToInstanceIDsMap new id (removeFromIp2InstanceIDsMap old id ips)) ip id') as Hold.
  { intros id' ip Hi Hd. destruct (Hip _ _ Hi) as [? Hm]. split; [done|]. apply member_add. left.
    apply member_remove. auto. }
  intros id' ip. case_decide.
  - intros [Hd Hi]%lookup_delete_Some. apply Hold; congruence.
  - intros [[<- <-]|[Hd Hi]]%lookup_insert_Some; [|apply Hold; congruence]. split; [done|]. apply member_add. auto.
Qed.

Lemma ip_wf_forget ips ids id : ip_wf ips ids -> ip_wf ips (delete id ids).
Proof. intros [Hne Hip]. split; [done|]. intros id' ip [_ Hi]%lookup_delete_Some. by apply Hip. Qed.

Lemma update_metadata_wf `{ProtoCodec} c entry : cms_wf c -> cms_wf (update_metadata c entry).
Proof.
  intros [Hv Hm Hi]. destruct entry as [id [bytes|]]; cbn [update_metadata].
  - destruct (match instanceMetadatas c !! id with Some (Some p) => _ | _ => _ end) as [p next].
    destruct (unmarshalMetadata bytes) as [md ok].
    assert (meta_wf (<[p := md]> (md_heap c)) (<[id := Some p]> (instanceMetadatas c)) (instanceViews c)) as Hm'.
    { apply meta_wf_set; [intros ? [= <-]; by rewrite lookup_insert_eq|]. eapply meta_wf_mono; [|exact Hm].
      intros q Hq. rewrite lookup_insert. case_decide; [eauto|done]. }
    destruct ok; cbn [negb]; [|by split]. case_decide; [|case_decide].
    + split; cbn; [done..|]. by apply ip_wf_change.
    + split; cbn; [done..|]. by apply ip_wf_forget.
    + by split.
  - split; cbn; [done| |done]. by apply meta_wf_set.
Qed.

(** A loop whose body preserves a property. *)
Lemma fold_left_preserves {A B} (P : A -> Prop) (f : A -> B -> A) l a :
  (forall a b, P a -> P (f a b)) -> P a -> P (fold_left f l a).
Proof. intros Hf. revert a. induction l as [|b l IH]; intros a Ha; [done|]. cbn. eauto. Qed.

Lemma refreshInstanceMetadata_wf `{ProtoCodec} order keys values c :
  cms_wf c -> cms_wf (refreshInstanceMetadata order keys values c).
Proof.
  intros [Hv Hm Hi]. unfold refreshInstanceMetadata. destruct keys as [keys|], values as [values|]; try (by split).
  apply fold_left_preserves; [intros; by apply update_metadata_wf|].
  apply fold_left_preserves; [intros; by apply drop_metadata_wf|]. by split.
Qed.

(** *** Status refresh *)

Lemma views_wf_delete sts vs gs id : views_wf sts vs gs -> views_wf (delete id sts) (delete id vs) (drop_from_groups id gs).
Proof.
  intros [H1 H2 H3]. split.
  - intros id' v [Hd Hv]%lookup_delete_Some. rewrite lookup_delete_ne by done. eauto.
  - apply no_empty_drop.
  - intros t id'. rewrite member_drop, H3. setoid_rewrite lookup_delete_Some. naive_solver.
Qed.

Lemma views_wf_status sts vs gs id st : views_wf sts vs gs -> views_wf (<[id := st]> sts) vs gs.
Proof.
  intros [H1 H2 H3]. split; [|done..]. intros id' v Hv. rewrite lookup_insert. case_decide; eauto.
Qed.

(** A view may be replaced by one of the same role. *)
Lemma views_wf_update sts vs gs id v v' :
  vs !! id = Some v -> InstInferType (vw_Instance v') = InstInferType (vw_Instance v) ->
  views_wf sts vs gs -> views_wf sts (<[id := v']> vs) gs.
Proof.
  intros Hv Ht [H1 H2 H3]. split; [|done|].
  - intros id' w [[<- _]|[_ Hw]]%lookup_insert_Some; eauto.
  - intros t id'. rewrite H3. setoid_rewrite lookup_insert. destruct (decide (id = id')) as [<-|Hne]; [|done].
    split; intros (w & Hw & Hwt); inv_some; eexists; (split; [done|]); congruence.
Qed.

Lemma views_wf_new sts vs gs id v :
  vs !! id = None -> views_wf sts vs gs ->
  views_wf (<[id := initial_status]> sts) (<[id := v]> vs)
    (<[InstInferType (vw_Instance v) := {[id]} ∪ default ∅ (gs !! InstInferType (vw_Instance v))]> gs).
Proof.
  intros Hid [H1 H2 H3]. set (t0 := InstInferType (vw_Instance v)). split.
  - intros id' w Hw. rewrite lookup_insert. case_decide; [eauto|]. rewrite lookup_insert_ne in Hw by done. eauto.
  - intros t s [[<- <-]|[_ Hs]]%lookup_insert_Some; [set_solver|eauto].
  - intros t id'. rewrite member_insert.
    assert (id' ∈ ({[id]} ∪ default ∅ (gs !! t0) : gset string) <-> id' = id \/ member gs t0 id') as ->.
    { rewrite elem_of_union, elem_of_singleton. unfold member. destruct (gs !! t0) as [s|]; cbn.
      - split; [intros [?|?]; [auto|right; eauto]|intros [?|(s' & [= <-] & ?)]; auto].
      - split; [intros [?|?]; [auto|set_solver]|intros [?|(s' & [=] & _)]; auto]. }
    rewrite !H3. setoid_rewrite lookup_insert_Some. split.
    + intros [[-> [-> |(w & Hw & Ht)]]|[Hne (w & Hw & Ht)]].
      * exists v. auto.
      * exists w. split; [right; split; [congruence|done]|done].
      * exists w. split; [right; split; [congruence|done]|done].
    + intros (w & [[<- <-]|[Hne Hw]] & Ht); [auto|].
      destruct (decide (t = t0)) as [->|]; [left; split; [done|right]|right; split; [done|]]; eauto.
Qed.

Lemma delete_instance_wf id c : cms_wf c -> cms_wf (delete_instance id c).
Proof.
  intros [Hv [M1 M2] Hi]. split; cbn; [by apply views_wf_delete| |done]. split; [done|].
  intros id' v [_ H]%lookup_delete_Some. eauto.
Qed.

Lemma drop_status_wf c id : cms_wf c -> cms_wf (drop_status c id).
Proof.
  intros H. unfold drop_status. case_decide; [done|]. apply (delete_instance_wf id) in H. destruct H. by split.
Qed.

Lemma create_instance_wf id c : cms_wf c -> cms_wf (fst (create_instance id c)).
Proof.
  intros [Hv Hm Hi]. unfold create_instance. destruct (instanceStatuses c !! id) eqn:Hs; [by split|].
  assert (instanceViews c !! id = None) as Hn.
  { destruct (instanceViews c !! id) eqn:E; [|done]. destruct (vwf_status _ _ _ Hv _ _ E). congruence. }
  destruct (instanceMetadatas c !! id) as [[p|]|] eqn:Hp; cbn; [|by split; [apply views_wf_status|..]..].
  split; cbn; [|destruct Hm as [M1 M2]; split; [done|]|done].
  - by apply (views_wf_new _ _ _ id (mkView p (instance_of_metadata (read_metadata c p)) zero_LocalAccount "")).
  - intros id' v [[_ <-]|[_ H]]%lookup_insert_Some; cbn; eauto.
Qed.

Lemma after_status_wf order now id us ut c : cms_wf c -> cms_wf (fst (after_status order now id us ut c)).
Proof.
  intros [Hv Hm Hi]. unfold after_status. destruct (instanceViews c !! id) as [v|] eqn:Ev; [|by split].
  destruct (instanceStatuses c !! id) as [st|] eqn:Es; [|by split].
  destruct (if _ && us then _ else _) as [iv e]. cbn [fst].
  set (v' := mkView (vw_Metadata v) (vw_Instance v) (cv_LocalAccount iv) (vw_ReservedInferType v)).
  assert (cms_wf (set_views (<[id := cv_Status iv]> (instanceStatuses c)) (<[id := v']> (instanceViews c))
            (groupedInstanceViews c) (set_editor e c))) as Hwf.
  { split; cbn; [|destruct Hm as [M1 M2]; split; [done|]|done].
    - by eapply views_wf_status, views_wf_update.
    - intros id' w [[_ <-]|[_ H]]%lookup_insert_Some; cbn; eauto. }
  destruct (_ && ut); [|done]. by destruct Hwf.
Qed.

Lemma update_status_wf `{ProtoCodec} order now c entry : cms_wf c -> cms_wf (fst (update_status order now c entry)).
Proof.
  intros Hwf. destruct entry as [id [bytes|]]; cbn [update_status]; [|by apply delete_instance_wf].
  destruct (instanceMetadatas c !! id); [|done]. apply (create_instance_wf id) in Hwf.
  destruct (create_instance id c) as [c1 panic]. cbn in Hwf. destruct panic; [done|]. case_decide; [done|].
  apply after_status_wf. destruct Hwf. split; cbn; [by apply views_wf_status|done..].
Qed.

Lemma update_statuses_wf `{ProtoCodec} order now c entries : cms_wf c -> cms_wf (fst (update_statuses order now c entries)).
Proof.
  revert c. induction entries as [|entry entries IH]; intros c Hwf; cbn; [done|].
  apply (update_status_wf order now _ entry) in Hwf. destruct (update_status order now c entry) as [c1 panic].
  cbn in Hwf. destruct panic; [done|]. by apply IH.
Qed.

(** What the invariant reads of a view; accounts and reservations may change. *)
Definition core (v : view) : N * LLMInstance := (vw_Metadata v, vw_Instance v).

Lemma core_lookup (vs vs' : gmap string view) id v' :
  core <$> vs' = core <$> vs -> vs' !! id = Some v' -> exists v, vs !! id = Some v /\ core v = core v'.
Proof.
  intros E Hv. apply (f_equal (lookup id)) in E. rewrite !lookup_fmap, Hv in E. cbn in E.
  destruct (vs !! id) as [v|]; [|done]. cbn in E. exists v. split; congruence.
Qed.

Lemma core_alter (f : view -> view) id (vs : gmap string view) :
  (forall v, core (f v) = core v) -> core <$> alter f id vs = core <$> vs.
Proof.
  intros Hf. apply map_eq. intros i. rewrite !lookup_fmap, lookup_alter. case_decide as E; [subst i|done].
  destruct (vs !! id) as [v|]; [|done]. exact (f_equal Some (Hf v)).
Qed.

Lemma views_wf_core sts vs vs' gs : core <$> vs' = core <$> vs -> views_wf sts vs gs -> views_wf sts vs' gs.
Proof.
  intros E [H1 H2 H3]. split; [|done|].
  - intros id v Hv. destruct (core_lookup _ _ _ _ E Hv) as (w & Hw & _). eauto.
  - intros t id. rewrite H3. split; intros (v & Hv & Ht).
    + destruct (core_lookup vs' vs id v (eq_sym E) Hv) as (w & Hw & Hc). exists w. split; [done|].
      injection Hc as _ ->. done.
    + destruct (core_lookup vs vs' id v E Hv) as (w & Hw & Hc). exists w. split; [done|]. injection Hc as _ ->. done.
Qed.

Lemma meta_wf_core heap ms vs vs' : core <$> vs' = core <$> vs -> meta_wf heap ms vs -> meta_wf heap ms vs'.
Proof.
  intros E [M1 M2]. split; [done|]. intros id v Hv. destruct (core_lookup _ _ _ _ E Hv) as (w & Hw & Hc).
  injection Hc as <- _. eauto.
Qed.

Lemma reserve_idle_core id d p r : core <$> rs_views (fst (reserve_idle id d p r)) = core <$> rs_views r.
Proof.
  unfold reserve_idle, reserve_decode, reserve_prefill.
  repeat (match goal with |- context [if ?b then _ else _] => destruct b end; cbn); rewrite ?core_alter; done.
Qed.

Lemma track_least_views id d p r : rs_views (track_least id d p r) = rs_views r.
Proof. unfold track_least. by repeat case_match. Qed.

Lemma reserve_loop_core sts ids r : core <$> rs_views (fst (reserve_loop sts ids r)) = core <$> rs_views r.
Proof.
  revert r. induction ids as [|id ids IH]; intros r; cbn; [done|]. destruct (sts !! id) as [st|]; [|apply IH].
  pose proof (reserve_idle_core id (decodeBatchSizeOf st) (prefillTokensNumOf st) r) as H.
  destruct (reserve_idle _ _ _ r) as [r1 panic]. cbn in H. destruct panic; [done|].
  destruct (both_reserved r1); [done|]. by rewrite IH, track_least_views.
Qed.

Lemma reserve_fallback_core r : core <$> rs_views (fst (reserve_fallback r)) = core <$> rs_views r.
Proof.
  unfold reserve_fallback, reserve_decode, reserve_prefill.
  repeat (match goal with |- context [if ?b then _ else _] => destruct b end; cbn); rewrite ?core_alter; done.
Qed.

Lemma setReservedInstance_wf order c : cms_wf c -> cms_wf (fst (setReservedInstance order c)).
Proof.
  intros [Hv Hm Hi]. unfold setReservedInstance. destruct (_ && _); [by split|].
  set (r := mkReserve _ _ _ _ _ _ _). pose proof (reserve_loop_core (instanceStatuses c) (order (dom (instanceStatuses c))) r) as E.
  destruct (reserve_loop _ _ r) as [r1 how]. cbn in E.
  assert (core <$> rs_views (fst (match how with LoopDone => reserve_fallback r1 | LoopReturn => (r1, false) | LoopPanic => (r1, true) end))
          = core <$> instanceViews c) as E'.
  { destruct how; cbn; [rewrite reserve_fallback_core|..]; done. }
  destruct (match how with LoopDone => _ | LoopReturn => _ | LoopPanic => _ end) as [r2 panic]. cbn in *.
  split; cbn; [by eapply views_wf_core|by eapply meta_wf_core|done].
Qed.

Lemma refreshInstanceStatus_wf `{ProtoCodec, LeastSquares} order now values c :
  cms_wf c -> cms_wf (fst (refreshInstanceStatus order now values c)).
Proof.
  intros Hwf. unfold refreshInstanceStatus. destruct values as [values|]; [|by destruct Hwf].
  set (c1 := fold_left drop_status _ _).
  assert (cms_wf c1) as H1 by (apply fold_left_preserves; [intros; by apply drop_status_wf|by destruct Hwf]).
  pose proof (update_statuses_wf order now c1 (zip (instanceIDs c1) values) H1) as H2.
  destruct (update_statuses _ _ c1 _) as [c2 panic]. cbn in H2. destruct panic; [done|].
  assert (cms_wf (fst (if co_enableAdaptivePD (c_options c2) then setReservedInstance order c2 else (c2, false)))) as H3
    by (destruct (co_enableAdaptivePD _); [by apply setReservedInstance_wf|done]).
  destruct (if co_enableAdaptivePD _ then _ else _) as [c3 panic]. cbn in H3. destruct panic; [done|].
  destruct (_ && _); cbn; [|done]. unfold fitTTFTPredictor. destruct (negb _); [done|]. by destruct H3.
Qed.

(** *** Accounts *)

Lemma put_account_wf id iv c : cms_wf c -> cms_wf (put_account id iv c).
Proof.
  intros [Hv Hm Hi]. split; cbn; [eapply views_wf_core; [by apply core_alter|done]|
    eapply meta_wf_core; [by apply core_alter|done]|done].
Qed.

Lemma set_editor_wf e c : cms_wf c -> cms_wf (set_editor e c).
Proof. intros [Hv Hm Hi]. by split. Qed.

Lemma AddRequestLocalAccount_wf now id t n p r c : cms_wf c -> cms_wf (AddRequestLocalAccount now id t n p r c).
Proof.
  intros H. unfold AddRequestLocalAccount. destruct (GetInstanceViews c !! id) as [iv|]; [|done].
  destruct (addRequestLocalAccount _ _ _ _ _ _ _) as [iv' e]. by apply set_editor_wf, put_account_wf.
Qed.

Lemma RevertRequestPrefillLocalAccount_wf id n p r c : cms_wf c -> cms_wf (RevertRequestPrefillLocalAccount id n p r c).
Proof.
  intros H. unfold RevertRequestPrefillLocalAccount. destruct (GetInstanceViews c !! id) as [iv|]; [|done].
  destruct (revertRequestPrefillLocalAccount _ _ _ _ _) as [iv' e]. by apply set_editor_wf, put_account_wf.
Qed.

Lemma RemoveRequestLocalAccount_wf r c : cms_wf c -> cms_wf (RemoveRequestLocalAccount r c).
Proof.
  intros H. unfold RemoveRequestLocalAccount. destruct (negb _); [done|].
  destruct (removeRequestLocalAccount _ _ _) as [ivs e]. apply set_editor_wf.
  apply (map_fold_weak_ind (fun acc _ => cms_wf acc)); [done|]. intros id iv m acc _ Hacc. by apply put_account_wf.
Qed.

(** ** Runs of the client *)

Inductive cms_step `{ProtoCodec, LeastSquares} : CMSReadClient -> CMSReadClient -> Prop :=
  | step_metadata order keys values c : cms_step c (refreshInstanceMetadata order keys values c)
  | step_status order now values c : cms_step c (fst (refreshInstanceStatus order now values c))
  | step_add now id t n p r c : cms_step c (AddRequestLocalAccount now id t n p r c)
  | step_revert id n p r c : cms_step c (RevertRequestPrefillLocalAccount id n p r c)
  | step_remove r c : cms_step c (RemoveRequestLocalAccount r c).

Lemma cms_step_wf `{ProtoCodec, LeastSquares} c c' : cms_step c c' -> cms_wf c -> cms_wf c'.
Proof.
  intros []; [apply refreshInstanceMetadata_wf|apply refreshInstanceStatus_wf|apply AddRequestLocalAccount_wf|
    apply RevertRequestPrefillLocalAccount_wf|apply RemoveRequestLocalAccount_wf].
Qed.

Lemma NewCMSReadClient_wf o ca st w : cms_wf (NewCMSReadClient o ca st w).
Proof.
  split; cbn; split; try done.
  intros t id. split; [by intros (s & [=] & _)|by intros (v & [=] & _)].
Qed.

Lemma cms_steps_wf `{ProtoCodec, LeastSquares} c c' : rtc cms_step c c' -> cms_wf c -> cms_wf c'.
Proof. induction 1; [done|]. intros Hwf. eauto using cms_step_wf. Qed.

(** ** One status report *)

Lemma updateInstanceStatusLocalAccount_status order now i iv e :
  let st' := cv_Status (fst (updateInstanceStatusLocalAccount order now i iv e)) in
  TimestampMs st' = TimestampMs (cv_Status iv) /\ Schedulable st' = Schedulable (cv_Status iv) /\
  UpdateId st' = UpdateId (cv_Status iv).
Proof.
  unfold updateInstanceStatusLocalAccount. destruct (fold_left _ _ _) as [la e']. cbn. by destruct (_ && _).
Qed.

Lemma after_status_spec order now id us ut c v st :
  instanceViews c !! id = Some v -> instanceStatuses c !! id = Some st ->
  exists c' st', after_status order now id us ut c = (c', false) /\ instanceStatuses c' !! id = Some st' /\
    TimestampMs st' = TimestampMs st /\ Schedulable st' = Schedulable st /\ UpdateId st' = UpdateId st /\
    forall id', id' <> id -> instanceStatuses c' !! id' = instanceStatuses c !! id' /\ instanceViews c' !! id' = instanceViews c !! id'.
Proof.
  intros Hv Hs. unfold after_status. rewrite Hv, Hs.
  pose proof (updateInstanceStatusLocalAccount_status order now id (view_of c st v) (c_editor c)) as H. cbn in H.
  set (res := if _ && us then _ else _).
  assert (TimestampMs (cv_Status res.1) = TimestampMs st /\ Schedulable (cv_Status res.1) = Schedulable st /\
          UpdateId (cv_Status res.1) = UpdateId st) as Hres by (unfold res; by destruct (_ && us)).
  destruct res as [iv e]. cbn in Hres. destruct Hres as (H1 & H2 & H3).
  eexists _, (cv_Status iv). split; [reflexivity|].
  set (c1 := set_views _ _ _ _). assert (forall (b : bool) q, let c' := if b then set_predictor q c1 else c1 in
    instanceStatuses c' = instanceStatuses c1 /\ instanceViews c' = instanceViews c1) as E by (by intros []).
  destruct (E (co_enablePredictorEnhancedScheduling (c_options c1) && ut) (addSampleToTTFTPredictor iv (TTFTPredictor c1))) as [-> ->].
  cbn. split; [apply lookup_insert_eq|]. split_and!; [done..|]. intros id' Hne. by rewrite !lookup_insert_ne.
Qed.

(** ** Theorems *)

(** A codec for examples: metadata bytes are the instance id, status bytes a string
    whose length is the timestamp and the update id, busy when it starts with b. *)
Definition demo_codec : ProtoCodec := {|
  unmarshalMetadata s := (mkMetadata s "decode" "" "10.0.0.1" ("kvs-" +:+ s) 8000 0 0 "n1" 1 1 "" 0 0 0 f_zero f_zero "" 0 1024, true);
  unmarshalStatus s :=
    let busy := if HasPrefix s "b" then 1 else 0 in
    let n := Z.of_nat (String.length s) in
    (mkStatus "" true n n n [] [] 0 0 0 busy 0 0 0 0 0 0 0 0 0 0 0 0 0 busy 0 0 0 0 0 0 0 0 f_zero f_zero f_zero f_zero 0 f_zero 0, true)
|}.

Definition demo_solver : LeastSquares := {| SolveVecTo _ _ _ := None |}.

Definition demo_options : CmsOptions := mkCmsOptions true false true.

Definition demo_keys : list string := ["llumnix:instance_metadata:a"; "llumnix:instance_metadata:b"].

(** The client after a metadata refresh that finds the two instances. *)
Definition demo_client (a b : option string) : CMSReadClient :=
  refreshInstanceMetadata (PC := demo_codec) elements (Some demo_keys) (Some [a; b]) (NewCMSReadClient demo_options true 10 3).

Definition demo_refresh (a b : option string) (c : CMSReadClient) : CMSReadClient * bool :=
  refreshInstanceStatus (PC := demo_codec) (H := demo_solver) elements (fun _ => 0) (Some [a; b]) c.

(** C27. Along every run of metadata refreshes, status refreshes (also those ended by a
    panic), dispatches, reverts and releases: every view has a status and metadata, the
    groups are exactly the views by role with no empty group, and an instance with a
    recorded KV-store IP is found under it. *)
Theorem cms_invariant `{PC : ProtoCodec, LS : LeastSquares} o cacheAware staleness warmup c :
  rtc cms_step (NewCMSReadClient o cacheAware staleness warmup) c -> cms_wf c.
Proof. intros H. eapply cms_steps_wf; [exact H|]. apply NewCMSReadClient_wf. Qed.

Lemma cms_invariant_witness :
  cms_wf (fst (demo_refresh (Some "x") (Some "x") (demo_client (Some "a") (Some "b")))).
Proof.
  apply (cms_invariant (PC := demo_codec) (LS := demo_solver) demo_options true 10 3).
  eapply rtc_l;
    [apply (step_metadata (H := demo_codec) (H0 := demo_solver) elements (Some demo_keys) (Some [Some "a"; Some "b"]))|].
  eapply rtc_l; [|apply rtc_refl].
  apply (step_status (H := demo_codec) (H0 := demo_solver) elements (fun _ => 0) (Some [Some "x"; Some "x"])).
Defined.

(** One status report: a report that is not newer is ignored; a newer one sets
    timestamp and schedulability, the update id never decreases, and no other instance
    changes. *)
Theorem status_report_exact `{PC : ProtoCodec} order now c id bytes m v st :
  instanceMetadatas c !! id = Some m -> instanceViews c !! id = Some v -> instanceStatuses c !! id = Some st ->
  let buf := fst (unmarshalStatus bytes) in
  exists c', update_status order now c (id, Some bytes) = (c', false) /\
    (TimestampMs buf <= TimestampMs st -> c' = c) /\
    (TimestampMs st < TimestampMs buf -> exists st', instanceStatuses c' !! id = Some st' /\
       TimestampMs st' = TimestampMs buf /\ Schedulable st' = Schedulable buf /\
       UpdateId st' = Z.max (UpdateId st) (UpdateId buf)) /\
    forall id', id' <> id -> instanceStatuses c' !! id' = instanceStatuses c !! id' /\ instanceViews c' !! id' = instanceViews c !! id'.
Proof.
  intros Hm Hv Hs buf. unfold update_status, create_instance. rewrite Hm, Hs. cbn. rewrite Hs. fold buf. cbn.
  case_decide as Hts; [exists c; split_and!; [done..|lia|done]|].
  set (st1 := if bool_decide _ then _ else _). set (c1 := set_views _ _ _ c).
  destruct (after_status_spec order now id (bool_decide (UpdateId buf > UpdateId st))
    (negb (bool_decide (ProfilingId buf = -1) || bool_decide (ProfilingId buf <= ProfilingId st))) c1 v st1)
    as (c' & st' & -> & Hst' & T1 & T2 & T3 & Hoth); [done|apply lookup_insert_eq|].
  exists c'. split; [done|]. split; [lia|]. split.
  - intros _. exists st'. split; [done|]. rewrite T1, T2, T3. unfold st1. case_bool_decide; cbn; split_and!; try done; lia.
  - intros id' Hne. destruct (Hoth id' Hne) as [-> ->]. cbn. by rewrite lookup_insert_ne.
Qed.

Lemma status_report_exact_witness :
  let c := fst (demo_refresh (Some "x") (Some "x") (demo_client (Some "a") (Some "b"))) in
  exists c' st', update_status (PC := demo_codec) elements (fun _ => 0) c ("a", Some "yyy") = (c', false) /\
    instanceStatuses c' !! "a" = Some st' /\ TimestampMs st' = 3.
Proof.
  cbv zeta. edestruct (status_report_exact (PC := demo_codec) elements (fun _ => 0)
    (fst (demo_refresh (Some "x") (Some "x") (demo_client (Some "a") (Some "b")))) "a" "yyy")
    as (c' & H & _ & Hnew & _); [vm_compute; reflexivity..|].
  destruct Hnew as (st' & Hs & Ht & _); [vm_compute; reflexivity|].
  exists c', st'. split; [exact H|]. split; [exact Hs|]. rewrite Ht. vm_compute. reflexivity.
Defined.

(** One missing metadata value wedges the status refresh: if the metadata of a is
    missing at its first status refresh, that refresh panics after it stored the status
    of a, and the next refresh panics too, although the metadata is back, so that b,
    which comes after a, never gets a view. *)
Theorem nil_metadata_wedges_refresh :
  let c1 := demo_client None (Some "b") in
  let '(c2, panic2) := demo_refresh (Some "x") (Some "x") c1 in
  let c3 := refreshInstanceMetadata (PC := demo_codec) elements (Some demo_keys) (Some [Some "a"; Some "b"]) c2 in
  let '(c4, panic4) := demo_refresh (Some "xx") (Some "xx") c3 in
  panic2 = true /\ panic4 = true /\ instanceViews c4 !! "a" = None /\ instanceViews c4 !! "b" = None.
Proof. vm_compute. repeat split. Qed.

(** Adaptive PD may reserve one instance for both roles: with two instances that
    both have prefill and decode work, the same instance becomes the reserved prefill
    and the reserved decode instance, and no view is reserved for decode. *)
Theorem same_instance_reserved_twice :
  let c := fst (demo_refresh (Some "b") (Some "b") (demo_client (Some "a") (Some "b"))) in
  reservedPrefillInstance c = reservedDecodeInstance c /\ reservedDecodeInstance c <> "" /\
  size (instanceViews c) = 2%nat /\
  Forall (fun e : string * view => vw_ReservedInferType e.2 <> InferTypeDecode) (map_to_list (instanceViews c)).
Proof.
  cbv zeta. split; [vm_compute; reflexivity|]. split; [vm_compute; discriminate|]. split; [vm_compute; reflexivity|].
  vm_compute. repeat constructor; discriminate.
Qed.

(** A reservation is lost when the status of its instance is missing once: the
    client still names the instance as reserved for decode, its new view is not, and no
    other view takes the role. *)
Theorem reservation_lost_on_missing_status :
  let c1 := fst (demo_refresh (Some "x") (Some "x") (demo_client (Some "a") (Some "b"))) in
  let d := reservedDecodeInstance c1 in
  let c2 := fst (demo_refresh (if decide (d = "a") then None else Some "xx") (if decide (d = "a") then Some "xx" else None) c1) in
  let c3 := fst (demo_refresh (Some "xxx") (Some "xxx") c2) in
  (vw_ReservedInferType <$> instanceViews c1 !! d = Some InferTypeDecode) /\
  reservedDecodeInstance c3 = d /\
  Forall (fun e : string * view => vw_ReservedInferType e.2 <> InferTypeDecode) (map_to_list (instanceViews c3)).
Proof.
  cbv zeta. split; [vm_compute; reflexivity|]. split; [vm_compute; reflexivity|].
  vm_compute. repeat constructor; discriminate.
Qed.
