(* ===== verification/Dispatch.v ===== *)
(** * Dispatch

    [pkg/scheduler/policy/scheduling_policy.go] and the view conversion of
    [utils.go]: a request is sent to an instance per role. [Schedule] runs under the
    lock of the cluster view client and is one step here; the window in which
    [schedule] gives the lock up to query the KV store is not modelled, nor is
    concurrent scheduling.

    The views under scheduling are pointers shared between the groups and
    [instanceViews], so they are one map whose entries carry their group. An instance
    id is in one group: for the CMS this is part of [CmsReadClient.cms_invariant].
    [None] is a panic. *)

From stdpp Require Import base gmap sets list strings numbers.
From S2P Require Import Prelude GoFloat Types CmsTypes LocalAccount Lrs LrsSpec LrsClient Metrics Filters Selectors Predictor PrefixCache CmsReadClient.

Local Open Scope Z_scope.

(** ** Views *)

Record clusterViewScheduling := mkCluster {
  cl_groups : gset string;
  cl_views : gmap string instanceViewScheduling
}.

Definition set_cl_views (vs : gmap string instanceViewScheduling) (cl : clusterViewScheduling) : clusterViewScheduling :=
  mkCluster (cl_groups cl) vs.

Definition of_cms_view (cv : CmsInstanceView) : instanceViewScheduling :=
  mkIvs (cv_GetInferType cv) (Some cv) None (cv_Instance cv) (cv_GetInstanceId cv) empty_ctx.

Definition of_lrs_view (group : InferType) (lv : InstanceView) : instanceViewScheduling :=
  mkIvs group None (Some lv) (iv_instance lv) (GetInstanceId lv) empty_ctx.

(** [toClusterViewScheduling] of the CMS groups and of the LRS groups. *)
Definition cluster_of_cms (c : CMSReadClient) : clusterViewScheduling :=
  mkCluster (dom (groupedInstanceViews c)) (of_cms_view <$> GetInstanceViews c).

Definition cluster_of_lrs (c : LocalRealtimeStateClient) : clusterViewScheduling :=
  let groups := LrsClient.GetGroupedInstanceViews c in
  mkCluster (dom groups)
    (map_fold (fun t vs acc => (of_lrs_view t <$> vs) ∪ acc) ∅ groups).

(** ** The policy *)

Record inferTypeBaseDispatchPolicy := mkInferTypePolicy {
  ib_metrics : list string;
  ib_globalFilters : list globalFilter;
  ib_singleInstanceFilters : list singleInstanceFilter;
  ib_selectors : dispatchSelector
}.

Definition with_selector (s : dispatchSelector) (p : inferTypeBaseDispatchPolicy) : inferTypeBaseDispatchPolicy :=
  mkInferTypePolicy (ib_metrics p) (ib_globalFilters p) (ib_singleInstanceFilters p) s.

Abbreviation baseDispatchPolicy := (gmap string inferTypeBaseDispatchPolicy) (only parsing).

Record DispatchPolicy := mkDispatch {
  dp_config : SchedulerConfig;
  dp_policy : baseDispatchPolicy;
  dp_cms : CMSReadClient;
  dp_kvs : KVSClient
}.

Definition set_policy (p : baseDispatchPolicy) (d : DispatchPolicy) : DispatchPolicy :=
  mkDispatch (dp_config d) p (dp_cms d) (dp_kvs d).
Definition set_cms (c : CMSReadClient) (d : DispatchPolicy) : DispatchPolicy :=
  mkDispatch (dp_config d) (dp_policy d) c (dp_kvs d).
Definition set_kvs_client (k : KVSClient) (d : DispatchPolicy) : DispatchPolicy :=
  mkDispatch (dp_config d) (dp_policy d) (dp_cms d) k.

(** What a scheduling decision takes from outside: map orders, random numbers, the
    clock (milliseconds, also per instance), the answers of the KV store and the hash
    of the prompt, and the bound on the steps of the prefill prediction. *)
Record sched_env := mkEnv {
  e_order : gset string -> list string;
  e_rnd : Z -> Z;
  e_now : string -> Z;
  e_clock : Z;
  e_query : nat -> option (gmap string (list string));
  e_hash : list Z -> option (list string);
  e_fuel : nat
}.

Section dispatch.
Context {LP : LatencyPredictor} (env : sched_env).

Definition group_views (t : InferType) (vs : gmap string instanceViewScheduling) : gmap string instanceViewScheduling :=
  filter (fun kv => v_group kv.2 = t) vs.

(** [baseDispatchPolicy.calculateMetrics] on every group; a group without an entry in
    the policy is a nil dereference. *)
Definition calculate_groups (c : SchedulerConfig) (p : baseDispatchPolicy) (request : SchedulingRequest)
    (cl : clusterViewScheduling) : option clusterViewScheduling :=
  if decide (set_Forall (fun t => is_Some (p !! t)) (cl_groups cl)) then
    vs ← map_traverse (fun id iv =>
           pol ← p !! v_group iv; calculate_one c (e_now env id) (Some request) (ib_metrics pol) iv) (cl_views cl);
    Some (set_cl_views vs cl)
  else None.

(** [filter] of the policy on a part of the views; marks are written to the shared
    views. *)
Definition policy_filter (pol : inferTypeBaseDispatchPolicy) (target vs : gmap string instanceViewScheduling) (fallback : bool)
    : option (gset string * gmap string instanceViewScheduling) :=
  '(av, target) ← filter_views (e_order env) (e_now env) target (ib_singleInstanceFilters pol) (ib_globalFilters pol) fallback;
  Some (av, target ∪ vs).

Definition target_views (c : SchedulerConfig) (t : InferType) (vs : gmap string instanceViewScheduling)
    : gmap string instanceViewScheduling :=
  if EnableAdaptivePD c then vs else group_views t vs.

Definition executeSchedule (c : SchedulerConfig) (p : baseDispatchPolicy) (inferType : InferType)
    (vs : gmap string instanceViewScheduling)
    : option (option string * baseDispatchPolicy * gmap string instanceViewScheduling) :=
  pol ← p !! inferType;
  '(av, vs) ← policy_filter pol (target_views c inferType vs) vs false;
  '(av, vs, fallback) ←
    (if decide (av = ∅)
     then '(av, vs) ← policy_filter pol (target_views c inferType vs) vs true; Some (av, vs, true)
     else Some (av, vs, false));
  if decide (av = ∅) then Some (None, p, vs)
  else
    '(sel, s, cand) ← selectInstance (e_order env) (e_rnd env) (e_now env) (ib_selectors pol)
                        (filter (fun kv => kv.1 ∈ av) vs) fallback;
    Some (sel, <[inferType := with_selector s pol]> p, cand ∪ vs).

(** ** Local accounts

    The account of the selected instance is written through the CMS view that the
    scheduling view points to. *)

Definition sync_view (id : string) (c : CMSReadClient) (vs : gmap string instanceViewScheduling) : gmap string instanceViewScheduling :=
  match CmsReadClient.GetInstanceViews c !! id with
  | Some cv => alter (with_cms cv) id vs
  | None => vs
  end.

Definition hit_tokens (id : string) (vs : gmap string instanceViewScheduling) : Z :=
  match vs !! id with Some iv => int32 (prefixHitTokens (v_ctx iv)) | None => 0 end.

Definition add_account (t : InferType) (numTokens : Z) (requestId id : string)
    (st : DispatchPolicy * gmap string instanceViewScheduling) : DispatchPolicy * gmap string instanceViewScheduling :=
  let '(d, vs) := st in
  if EnableInstanceStatusLocalAccount (dp_config d)
  then let c := AddRequestLocalAccount (e_clock env) id t numTokens (hit_tokens id vs) requestId (dp_cms d) in
       (set_cms c d, sync_view id c vs)
  else st.

Definition revert_account (numTokens : Z) (requestId id : string)
    (st : DispatchPolicy * gmap string instanceViewScheduling) : DispatchPolicy * gmap string instanceViewScheduling :=
  let '(d, vs) := st in
  if EnableInstanceStatusLocalAccount (dp_config d)
  then let c := RevertRequestPrefillLocalAccount id numTokens (hit_tokens id vs) requestId (dp_cms d) in
       (set_cms c d, sync_view id c vs)
  else st.

(** ** [schedule] *)

Definition lookup_prefix_cache (request : SchedulingRequest) (d : DispatchPolicy) (cl : clusterViewScheduling)
    : DispatchPolicy * clusterViewScheduling :=
  let c := dp_config d in
  if EnableCacheAwareScheduling c && bool_decide (sr_PromptNumTokens request >= CacheAwareSchedulingMinTokens c) then
    match e_hash env (sr_PromptTokenIds request) with
    | None => (d, cl)
    | Some prefixHashes =>
        let '(vs, k) := getInstancesPrefixCacheHitLen (e_clock env * 10 ^ 6) (e_clock env * 10 ^ 6) (e_query env)
          (GetInstanceIDsByIPs (dp_cms d)) prefixHashes (KvsChunkSize c) (sr_PromptNumTokens request) (dp_kvs d) (cl_views cl) in
        (set_kvs_client k d, set_cl_views vs cl)
    end
  else (d, cl).

Definition predict_prefills (d : DispatchPolicy) (cl : clusterViewScheduling) : option clusterViewScheduling :=
  if EnablePredictorEnhancedScheduling (dp_config d) then
    vs ← predictNumComputedPrefillTokens (e_fuel env) (e_clock env) (TTFTPredictor (dp_cms d))
           (int32 (MaxNumBatchedTokens (dp_config d))) (group_views InferTypePrefill (cl_views cl));
    Some (set_cl_views (vs ∪ cl_views cl) cl)
  else Some cl.

(** One role of a PD request; a role that is not asked for selects nothing. *)
Definition select_role (need : bool) (t : InferType) (d : DispatchPolicy) (vs : gmap string instanceViewScheduling)
    : option (option string * DispatchPolicy * gmap string instanceViewScheduling) :=
  if need then
    '(sel, p, vs) ← executeSchedule (dp_config d) (dp_policy d) t vs; Some (sel, set_policy p d, vs)
  else Some (None, d, vs).

Definition needs (request : SchedulingRequest) (stage : SchedulingStage) : bool :=
  bool_decide (sr_SchedulingMode request = SchedulingModePDBatch) ||
  (bool_decide (sr_SchedulingMode request = SchedulingModePDStaged) && bool_decide (sr_SchedulingStage request = stage)).

(** The selected ids per role. *)
Definition schedule (request : SchedulingRequest) (d : DispatchPolicy) (cl : clusterViewScheduling)
    : option (list (list (option string)) * DispatchPolicy * gmap string instanceViewScheduling) :=
  let '(d, cl) := lookup_prefix_cache request d cl in
  let numTokens := if EnableInstanceStatusLocalAccount (dp_config d) then int32 (sr_PromptNumTokens request) else 0 in
  cl ← predict_prefills d cl;
  cl ← calculate_groups (dp_config d) (dp_policy d) request cl;
  if decide (sr_SchedulingMode request = SchedulingModeNeutral) then
    if decide (InferTypeNeutral ∈ cl_groups cl) then
      '(sel, d, vs) ← select_role true InferTypeNeutral d (cl_views cl);
      match sel with
      | None => Some ([], d, vs)
      | Some id =>
          let '(d, vs) := add_account InferTypeNeutral numTokens (sr_Id request) id (d, vs) in
          Some ([[Some id]], d, vs)
      end
    else Some ([], d, cl_views cl)
  else if decide (size (cl_groups cl) = 1%nat) then Some ([], d, cl_views cl)
  else
    '(prefill, d, vs) ← select_role (needs request SchedulingStagePrefill) InferTypePrefill d (cl_views cl);
    let '(d, vs) := match prefill with
                    | Some id => add_account InferTypePrefill numTokens (sr_Id request) id (d, vs)
                    | None => (d, vs)
                    end in
    '(decode, d, vs) ← select_role (needs request SchedulingStageDecode) InferTypeDecode d vs;
    let '(d, vs) :=
      if needs request SchedulingStageDecode then
        match decode, prefill with
        | Some id, _ => add_account InferTypeDecode numTokens (sr_Id request) id (d, vs)
        | None, Some id => revert_account numTokens (sr_Id request) id (d, vs)
        | None, None => (d, vs)
        end
      else (d, vs) in
    Some ([[prefill]; [decode]], d, vs).

(** ** [Schedule] *)

Definition with_InferType (t : InferType) (i : LLMInstance) : LLMInstance :=
  mkLLMInstance (Version i) (ID i) (Model i) t (InstEndpoint i) (AuxIp i) (AuxPort i) (DPRank i) (DPSize i).

Definition target_instance (c : SchedulerConfig) (role : InferType) (vs : gmap string instanceViewScheduling) (id : string)
    : option LLMInstance :=
  iv ← vs !! id;
  Some (if EnableAdaptivePD c then with_InferType role (v_instance iv) else v_instance iv).

Definition role_results (c : SchedulerConfig) (role : InferType) (vs : gmap string instanceViewScheduling)
    (sel : list (option string)) : list LLMInstance :=
  omap (fun o => o ≫= target_instance c role vs) sel.

Definition Schedule (request : SchedulingRequest) (lrs : LocalRealtimeStateClient) (d : DispatchPolicy)
    : option (result SchedulingResult * DispatchPolicy) :=
  let c := dp_config d in
  if EnableFullModeScheduling c && negb (isAlive (dp_cms d)) then Some (Err ErrorCmsNotAvailable, d)
  else
    let cl := if EnableFullModeScheduling c then cluster_of_cms (dp_cms d) else cluster_of_lrs lrs in
    '(selected, d, vs) ← schedule request d cl;
    match selected with
    | [] => Some (Err ErrorNoAvailableEndpoint, d)
    | first :: rest =>
        let second := default [] (head rest) in
        Some (Ok (role_results c InferTypePrefill vs first ++ role_results c InferTypeDecode vs second), d)
    end.

Definition ReleaseRequestLocalAccount (requestId : string) (d : DispatchPolicy) : DispatchPolicy :=
  if negb (EnableInstanceStatusLocalAccount (dp_config d)) then d
  else set_cms (RemoveRequestLocalAccount requestId (dp_cms d)) d.

End dispatch.
