(* ===== verification/Registry.v ===== *)
(** * Dispatch policies

    [pkg/scheduler/policy/scheduling_policy_registry.go] and the configuration checks
    of [utils.go]: which metrics, filters and selectors each scheduling policy uses per
    role. [None] is the panic on an unknown policy or metric. *)

From stdpp Require Import base gmap sets list strings numbers.
From S2P Require Import Prelude GoFloat Types CmsTypes LocalAccount Lrs LrsSpec LrsClient Metrics Filters Selectors Predictor PrefixCache CmsReadClient Dispatch.

Local Open Scope Z_scope.

Definition SchedulingPolicyLoadBalance := "load-balance".
Definition SchedulingPolicyFlood := "flood".
Definition SchedulingPolicySlo := "slo".

(** ** [verifyConfig] *)

Definition verifySchedulingPolicy (c : SchedulerConfig) : bool :=
  if negb (EnableFullModeScheduling c) then bool_decide (SchedulingPolicy c ∈ [SchedulingPolicyLoadBalance])
  else bool_decide (SchedulingPolicy c ∈ [SchedulingPolicyLoadBalance; SchedulingPolicyFlood; SchedulingPolicySlo]).

Definition with_features (cacheAware predictor adaptivePD rescheduling localAccount : bool) (c : SchedulerConfig) : SchedulerConfig :=
  mkConfig (SchedulingPolicy c) (EnableFullModeScheduling c) cacheAware predictor adaptivePD rescheduling localAccount
    (CacheAwareSchedulingMinTokens c) (KvsChunkSize c) (DispatchTopK c) (DispatchNeutralLoadMetric c)
    (DispatchNeutralLoadThreshold c) (DispatchPrefillLoadMetric c) (DispatchPrefillLoadThreshold c)
    (DispatchDecodeLoadMetric c) (DispatchDecodeLoadThreshold c) (DispatchPrefillCacheLocalityMetric c)
    (MaxNumBatchedTokens c) (TtftSlo c) (TpotSlo c) (TtftSloDispatchThreshold c) (TpotSloDispatchThreshold c)
    (TpotMigrateOutCeilThreshold c) (TpotMigrateOutFloorThreshold c) (FailoverDomain c) (InstanceStalenessSeconds c)
    (ReschedulingPolicies c) (ReschedulingDecodeLoadMetric c) (ReschedulingDecodeLoadThreshold c)
    (ReschedulingPrefillLoadMetric c) (ReschedulingNeutralLoadMetric c) (ReschedulingNeutralLoadThreshold c)
    (ReschedulingReqSelectOrder c) (ReschedulingReqSelectRule c) (ReschedulingReqSelectValue c)
    (ReschedulingLoadBalanceThreshold c) (ReschedulingLoadBalanceScope c).

Definition with_load_metrics (neutral prefill decode : string) (c : SchedulerConfig) : SchedulerConfig :=
  mkConfig (SchedulingPolicy c) (EnableFullModeScheduling c) (EnableCacheAwareScheduling c)
    (EnablePredictorEnhancedScheduling c) (EnableAdaptivePD c) (EnableRescheduling c) (EnableInstanceStatusLocalAccount c)
    (CacheAwareSchedulingMinTokens c) (KvsChunkSize c) (DispatchTopK c) neutral
    (DispatchNeutralLoadThreshold c) prefill (DispatchPrefillLoadThreshold c)
    decode (DispatchDecodeLoadThreshold c) (DispatchPrefillCacheLocalityMetric c)
    (MaxNumBatchedTokens c) (TtftSlo c) (TpotSlo c) (TtftSloDispatchThreshold c) (TpotSloDispatchThreshold c)
    (TpotMigrateOutCeilThreshold c) (TpotMigrateOutFloorThreshold c) (FailoverDomain c) (InstanceStalenessSeconds c)
    (ReschedulingPolicies c) (ReschedulingDecodeLoadMetric c) (ReschedulingDecodeLoadThreshold c)
    (ReschedulingPrefillLoadMetric c) (ReschedulingNeutralLoadMetric c) (ReschedulingNeutralLoadThreshold c)
    (ReschedulingReqSelectOrder c) (ReschedulingReqSelectRule c) (ReschedulingReqSelectValue c)
    (ReschedulingLoadBalanceThreshold c) (ReschedulingLoadBalanceScope c).

Definition verifySchedulingFeature (c : SchedulerConfig) : SchedulerConfig :=
  if negb (EnableFullModeScheduling c) then with_features false false false false false c else c.

Definition liteModeSchedulingMetricSet : list string := [SchedulingMetricNumRequests; SchedulingMetricNumTokens].

Definition fullModeSchedulingMetricSet : list string :=
  [SchedulingMetricKVCacheUsageRatioProjected; SchedulingMetricDecodeBatchSize; SchedulingMetricNumWaitingRequests;
   SchedulingMetricAllPrefillsTokensNum; SchedulingMetricKVCacheHitLen; SchedulingMetricCacheAwareAllPrefillsTokensNum;
   SchedulingMetricNumRequests; SchedulingMetricAllDecodesTokensNum].

Definition metric_or (allowed : list string) (fallback name : string) : string :=
  if decide (name ∈ allowed) then name else fallback.

Definition verifyDispatchLoadMetric (c : SchedulerConfig) : SchedulerConfig :=
  if negb (EnableFullModeScheduling c)
  then let m := metric_or liteModeSchedulingMetricSet SchedulingMetricNumTokens in
       with_load_metrics (m (DispatchNeutralLoadMetric c)) (m (DispatchPrefillLoadMetric c)) (m (DispatchDecodeLoadMetric c)) c
  else with_load_metrics
         (metric_or fullModeSchedulingMetricSet SchedulingMetricKVCacheUsageRatioProjected (DispatchNeutralLoadMetric c))
         (metric_or fullModeSchedulingMetricSet SchedulingMetricAllPrefillsTokensNum (DispatchPrefillLoadMetric c))
         (metric_or fullModeSchedulingMetricSet SchedulingMetricKVCacheUsageRatioProjected (DispatchDecodeLoadMetric c)) c.

Definition verifyConfig (c : SchedulerConfig) : option SchedulerConfig :=
  if negb (verifySchedulingPolicy c) then None
  else Some (verifyDispatchLoadMetric (verifySchedulingFeature c)).

(** ** The policies *)

(** The names [getSchedulingMetric] has a constructor for. *)
Definition known_metrics : list string :=
  [SchedulingMetricKVCacheUsageRatioProjected; SchedulingMetricDecodeBatchSize; SchedulingMetricNumWaitingRequests;
   SchedulingMetricAllPrefillsTokensNum; SchedulingMetricKVCacheHitLen; SchedulingMetricCacheAwareAllPrefillsTokensNum;
   SchedulingMetricNumRequests; SchedulingMetricAllDecodesTokensNum; SchedulingMetricPredictedTtft;
   SchedulingMetricPredictedTpot; SchedulingMetricNumTokens].

Definition metric_factory (name : string) : option string := if decide (name ∈ known_metrics) then Some name else None.

Definition newLoadBalanceDispatchFullMode (p : SchedulerConfig) : option (gmap string inferTypeBaseDispatchPolicy) :=
  prefillMetric ← metric_factory (DispatchPrefillLoadMetric p);
  decodeMetric ← metric_factory (DispatchDecodeLoadMetric p);
  neutralMetric ← metric_factory (DispatchNeutralLoadMetric p);
  let role := fun metric threshold =>
    mkInferTypePolicy [metric] [failoverFilter (FailoverDomain p)]
      [schedulabilityFilter; stalenessFilter (InstanceStalenessSeconds p); metricBasedFilter metric threshold false]
      (metricBasedSelector (DispatchTopK p) [metric]) in
  let prefill := role prefillMetric (DispatchPrefillLoadThreshold p) in
  let decode := role decodeMetric (DispatchDecodeLoadThreshold p) in
  let neutral := role neutralMetric (DispatchNeutralLoadThreshold p) in
  if EnableCacheAwareScheduling p then
    cacheMetric ← metric_factory (DispatchPrefillCacheLocalityMetric p);
    let cache_first := fun r metric =>
      mkInferTypePolicy (cacheMetric :: ib_metrics r) (ib_globalFilters r) (ib_singleInstanceFilters r)
        (metricBasedSelector (DispatchTopK p) [cacheMetric; metric]) in
    Some (<[InferTypePrefill := cache_first prefill prefillMetric]>
          (<[InferTypeDecode := decode]> {[InferTypeNeutral := cache_first neutral neutralMetric]}))
  else Some (<[InferTypePrefill := prefill]> (<[InferTypeDecode := decode]> {[InferTypeNeutral := neutral]})).

Definition newLoadBalanceDispatchLiteMode (p : SchedulerConfig) : option (gmap string inferTypeBaseDispatchPolicy) :=
  prefillMetric ← metric_factory (DispatchPrefillLoadMetric p);
  decodeMetric ← metric_factory (DispatchDecodeLoadMetric p);
  neutralMetric ← metric_factory (DispatchNeutralLoadMetric p);
  let role := fun metric threshold =>
    mkInferTypePolicy [metric] [] [metricBasedFilter metric threshold false] (metricBasedSelector (DispatchTopK p) [metric]) in
  Some (<[InferTypePrefill := role prefillMetric (DispatchPrefillLoadThreshold p)]>
        (<[InferTypeDecode := role decodeMetric (DispatchDecodeLoadThreshold p)]>
         {[InferTypeNeutral := role neutralMetric (DispatchNeutralLoadThreshold p)]})).

Definition newFloodDispatchPolicyFullMode (p : SchedulerConfig) : gmap string inferTypeBaseDispatchPolicy :=
  let role := mkInferTypePolicy [] [failoverFilter (FailoverDomain p)]
    [schedulabilityFilter; stalenessFilter (InstanceStalenessSeconds p)] (fixedPreferenceSelector "") in
  <[InferTypePrefill := role]> (<[InferTypeDecode := role]> {[InferTypeNeutral := role]}).

(** The constant 0.1 of a [float32]. *)
Definition f32_tenth : float := f32_div (f32_of_Z 1) (f32_of_Z 10).

(** The roles after [configureAdaptivePDForSlo]. *)
Definition configureAdaptivePDForSlo (p : SchedulerConfig) (prefill decode : inferTypeBaseDispatchPolicy)
    : inferTypeBaseDispatchPolicy * inferTypeBaseDispatchPolicy :=
  (mkInferTypePolicy (ib_metrics prefill ++ [SchedulingMetricDecodeBatchSize; SchedulingMetricPredictedTpot])
     (ib_globalFilters prefill)
     [schedulabilityFilter; stalenessFilter (InstanceStalenessSeconds p);
      instanceAttributeFilter AttrKeyReservedInferType InferTypeDecode;
      metricBasedFilter SchedulingMetricPredictedTtft (f32_mul (TtftSlo p) (TtftSloDispatchThreshold p)) false;
      metricBasedFilter SchedulingMetricDecodeBatchSize f32_tenth true]
     sloPrefillApdSelector,
   mkInferTypePolicy (ib_metrics decode ++ [SchedulingMetricPredictedTtft; SchedulingMetricDecodeBatchSize])
     (ib_globalFilters decode)
     [schedulabilityFilter; stalenessFilter (InstanceStalenessSeconds p);
      instanceAttributeFilter AttrKeyReservedInferType InferTypePrefill;
      metricBasedFilter SchedulingMetricPredictedTtft (f32_mul (TpotSlo p) (TpotSloDispatchThreshold p)) false;
      metricBasedFilter SchedulingMetricPredictedTpot (f32_mul (TpotSlo p) (TpotSloDispatchThreshold p)) false]
     (sloDecodeApdSelector f_zero f_zero)).

Definition newSloDispatchFullMode (p : SchedulerConfig) : gmap string inferTypeBaseDispatchPolicy :=
  let role := fun metric slo threshold =>
    mkInferTypePolicy [metric] [failoverFilter (FailoverDomain p)]
      [schedulabilityFilter; stalenessFilter (InstanceStalenessSeconds p);
       metricBasedFilter metric (f32_mul slo threshold) true]
      (metricBasedSelector (DispatchTopK p) [metric]) in
  let prefill := role SchedulingMetricPredictedTtft (TtftSlo p) (TtftSloDispatchThreshold p) in
  let decode := role SchedulingMetricPredictedTpot (TpotSlo p) (TpotSloDispatchThreshold p) in
  let '(prefill, decode) := if EnableAdaptivePD p then configureAdaptivePDForSlo p prefill decode else (prefill, decode) in
  <[InferTypePrefill := prefill]> {[InferTypeDecode := decode]}.

Definition newDispatchPolicyInternal (c : SchedulerConfig) : option (gmap string inferTypeBaseDispatchPolicy) :=
  if decide (SchedulingPolicy c = SchedulingPolicyLoadBalance) then
    if EnableFullModeScheduling c then newLoadBalanceDispatchFullMode c else newLoadBalanceDispatchLiteMode c
  else if decide (SchedulingPolicy c = SchedulingPolicyFlood) then Some (newFloodDispatchPolicyFullMode c)
  else if decide (SchedulingPolicy c = SchedulingPolicySlo) then Some (newSloDispatchFullMode c)
  else None.

(** [NewDispatchPolicy] with the clients it creates. *)
Definition NewDispatchPolicy (c : SchedulerConfig) (cms : CMSReadClient) (kvs : KVSClient) : option DispatchPolicy :=
  c ← verifyConfig c;
  p ← newDispatchPolicyInternal c;
  Some (mkDispatch c p cms kvs).
