(* ===== verification/DispatchSpec.v ===== *)
(** * Safety of dispatch

    What [schedule] never does, whatever the load metrics say: send a request to an
    instance that is unschedulable or stale, or that shares the failover domain of
    such an instance; and when it cannot fail. *)

From stdpp Require Import base gmap sets list strings numbers.
From S2P Require Import Prelude GoFloat Types CmsTypes LocalAccount Lrs LrsSpec LrsClient Metrics Filters Selectors Predictor PrefixCache CmsReadClient Dispatch Registry.

Local Open Scope Z_scope.

(** ** What a scheduling decision does not change *)

Definition health (iv : instanceViewScheduling) : InferType * LLMInstance * option (InstanceStatus * InstanceMetadata) :=
  (v_group iv, v_instance iv, (fun cv => (cv_Status cv, cv_Metadata cv)) <$> cmsView iv).

Implicit Types (vs a : gmap string instanceViewScheduling).

(** Every entry of [a] is in [vs] up to metrics, marks and accounts. *)
Definition sub_health (a vs : gmap string instanceViewScheduling) : Prop :=
  forall id iv', a !! id = Some iv' -> exists iv, vs !! id = Some iv /\ health iv' = health iv.

Lemma health_lookup vs (vs' : gmap string instanceViewScheduling) id iv' :
  health <$> vs' = health <$> vs -> vs' !! id = Some iv' -> exists iv, vs !! id = Some iv /\ health iv' = health iv.
Proof.
  intros E Hv. apply (f_equal (lookup id)) in E. rewrite !lookup_fmap, Hv in E. destruct (vs !! id) as [v|]; [|done].
  apply Some_inj in E. by exists v.
Qed.

Lemma sub_health_eq vs (vs' : gmap string instanceViewScheduling) : health <$> vs' = health <$> vs -> sub_health vs' vs.
Proof. intros E id iv'. by apply health_lookup. Qed.

Lemma sub_health_trans a b c : sub_health a b -> sub_health b c -> sub_health a c.
Proof. intros H1 H2 id x Hx. destruct (H1 _ _ Hx) as (y & Hy & E). destruct (H2 _ _ Hy) as (z & Hz & E'). exists z. split; congruence. Qed.

Lemma sub_health_subseteq a vs : a ⊆ vs -> sub_health a vs.
Proof. intros H id iv Hi. exists iv. split; [by eapply lookup_weaken|done]. Qed.

Lemma health_union a vs : sub_health a vs -> health <$> (a ∪ vs) = health <$> vs.
Proof.
  intros H. apply map_eq. intros id. rewrite !lookup_fmap, lookup_union. destruct (a !! id) as [x|] eqn:Ha.
  - destruct (H _ _ Ha) as (y & -> & E). cbn [union_with option_union_with]. exact (f_equal Some E).
  - by destruct (vs !! id).
Qed.

Lemma health_marked b iv : health (marked b iv) = health iv.
Proof. done. Qed.

Lemma only_marked_sub vs vs' : only_marked vs vs' -> sub_health vs' vs.
Proof.
  intros M id iv' Hi. destruct (only_marked_lookup _ _ _ _ M Hi) as (iv & b & Hv & ->). exists iv. by rewrite health_marked.
Qed.

Lemma traverse_sub f (vs vs' : gmap string instanceViewScheduling) :
  (forall id iv iv', f id iv = Some iv' -> health iv' = health iv) -> map_traverse f vs = Some vs' -> sub_health vs' vs.
Proof.
  intros Hf E id iv' Hi. pose proof (map_traverse_lookup _ _ _ E id) as H. rewrite Hi in H.
  destruct (vs !! id) as [iv|]; [|done]. exists iv. split; [done|eauto].
Qed.

Lemma traverse_health f (vs vs' : gmap string instanceViewScheduling) :
  (forall id iv iv', f id iv = Some iv' -> health iv' = health iv) -> map_traverse f vs = Some vs' ->
  health <$> vs' = health <$> vs.
Proof.
  intros Hf E. apply map_eq. intros id. rewrite !lookup_fmap. pose proof (map_traverse_lookup _ _ _ E id) as H.
  destruct (vs !! id) as [iv|], (vs' !! id) as [iv'|]; try done. exact (f_equal Some (Hf _ _ _ H)).
Qed.

Lemma health_with_ctx c iv : health (with_ctx c iv) = health iv.
Proof. done. Qed.

Lemma NodeIdOf_health iv iv' : health iv = health iv' -> NodeIdOf iv = NodeIdOf iv'.
Proof. unfold health, NodeIdOf. destruct (cmsView iv), (cmsView iv'); cbn; congruence. Qed.

Lemma UnitIdOf_health iv iv' : health iv = health iv' -> UnitIdOf iv = UnitIdOf iv'.
Proof. unfold health, UnitIdOf. destruct (cmsView iv), (cmsView iv'); cbn; congruence. Qed.

(** Health and failover domains are read from what does not change. *)
Section stable.
Context (vs vs' : gmap string instanceViewScheduling) (E : health <$> vs' = health <$> vs).

Lemma unhealthy_stable now secs id : unhealthy now secs vs' id -> unhealthy now secs vs id.
Proof using E.
  intros (iv' & cv' & Hi & Hcv & Hun). destruct (health_lookup _ _ _ _ E Hi) as (iv & Hv & Hh).
  unfold health in Hh. rewrite Hcv in Hh. destruct (cmsView iv) as [cv|] eqn:Hc; [|done]. cbn in Hh.
  injection Hh as _ _ Hs _. exists iv, cv. rewrite <- Hs. done.
Qed.

Lemma on_bad_node_stable bad iv iv' :
  health iv' = health iv -> on_bad_node vs' bad iv' -> on_bad_node vs bad iv.
Proof using E.
  intros Hh (id & jv & Hj & Hbad & Hne & Heq). destruct (health_lookup _ _ _ _ E Hj) as (kv & Hk & Hkh).
  exists id, kv. rewrite <- (NodeIdOf_health _ _ Hkh), <- (NodeIdOf_health _ _ Hh). done.
Qed.

Lemma in_domain_stable domain dp bad id iv iv' :
  health iv' = health iv -> in_domain domain dp vs' bad id iv' -> in_domain domain dp vs bad id iv.
Proof using E.
  intros Hh. unfold in_domain. repeat case_decide; try destruct dp; try done; try (by apply on_bad_node_stable).
  - intros (id' & jv & Hj & Hbad & Heq). destruct (health_lookup _ _ _ _ E Hj) as (kv & Hk & Hkh).
    exists id', kv. by rewrite <- (UnitIdOf_health _ _ Hkh), <- (UnitIdOf_health _ _ Hh).
  - intros (id' & jv & Hj & Hbad & Heq). destruct (health_lookup _ _ _ _ E Hj) as (kv & Hk & Hkh).
    exists id', kv. split; [done|]. split; [by eapply on_bad_node_stable|].
    by rewrite <- (UnitIdOf_health _ _ Hkh), <- (UnitIdOf_health _ _ Hh).
Qed.

Lemma isDataParallelEnabled_stable order dp : isDataParallelEnabled order vs = Some dp -> isDataParallelEnabled order vs' = Some dp.
Proof using E.
  unfold isDataParallelEnabled. assert (dom vs' = dom vs) as ->.
  { rewrite <- (dom_fmap_L health vs'), <- (dom_fmap_L health vs). by rewrite E. }
  destruct (order (dom vs)) as [|id ids]; [done|]. destruct (vs !! id) as [iv|] eqn:Hi; [|done].
  destruct (health_lookup vs' vs id iv (eq_sym E) Hi) as (iv' & -> & Hh). cbn.
  apply (f_equal snd) in Hh. cbn in Hh. destruct (cmsView iv) as [cv|], (cmsView iv') as [cv'|]; try done.
  apply Some_inj, (f_equal snd) in Hh. cbn in Hh |- *. by rewrite Hh.
Qed.

Lemma group_views_stable t : health <$> group_views t vs' = health <$> group_views t vs.
Proof using E.
  apply map_eq. intros id. rewrite !lookup_fmap. apply (f_equal (lookup id)) in E as Ei. rewrite !lookup_fmap in Ei.
  unfold group_views. rewrite !map_lookup_filter.
  destruct (vs !! id) as [iv|], (vs' !! id) as [iv'|]; try done.
  assert (health iv' = health iv) as Eh by exact (Some_inj _ _ Ei).
  assert (v_group iv' = v_group iv) as Eg by exact (f_equal (fun x => x.1.1) Eh). cbn [mbind option_bind].
  unfold guard. cbn. destruct (decide (v_group iv = t)), (decide (v_group iv' = t)); try congruence; [|done].
  exact (f_equal Some Eh).
Qed.

Lemma target_views_stable c t : health <$> target_views c t vs' = health <$> target_views c t vs.
Proof using E. unfold target_views. destruct (EnableAdaptivePD c); [done|apply group_views_stable]. Qed.

End stable.

(** ** Selectors return available instances *)

Lemma ranged_in (order : key_order) vs e : visits_once order -> e ∈ ranged order vs -> e.1 ∈ dom vs.
Proof. intros Ho. destruct e as [id iv]. rewrite (elem_of_ranged order vs id iv Ho). intros H. apply elem_of_dom. eauto. Qed.

Lemma best_from_in names s l r : best_from names s l = Some r -> r ∈ s :: l.
Proof.
  revert s. induction l as [|e l IH]; intros s; cbn; [intros [= ->]; left|].
  destruct (cmp_metrics names e.2 s.2) as [c|]; [|done]. cbn. intros H%IH. destruct c; set_solver.
Qed.

Lemma insert_left_perm names x p p' : insert_left names x p = Some p' -> p' ≡ₚ x :: p.
Proof.
  revert p'. induction p as [|y p IH]; intros p'; cbn; [by intros [= <-]|].
  destruct (cmp_metrics names x.2 y.2) as [c|]; [|done]. cbn. destruct c; try (by intros [= <-]).
  destruct (insert_left names x p) as [q|]; [|done]. cbn. intros [= <-]. rewrite (IH q eq_refl). apply Permutation_swap.
Qed.

Lemma sort_from_perm names p l r : sort_from names p l = Some r -> r ≡ₚ p ++ l.
Proof.
  revert p. induction l as [|x l IH]; intros p; cbn.
  - intros [= <-]. rewrite app_nil_r. apply reverse_Permutation.
  - destruct (insert_left names x p) as [q|] eqn:Hq; [|done]. cbn. intros H%IH. rewrite H, (insert_left_perm _ _ _ _ Hq).
    cbn. apply Permutation_middle.
Qed.

Lemma randomChoice_in rnd k names l e : randomChoiceFromTopK rnd k names l = Some (Some e) -> e ∈ l.
Proof.
  unfold randomChoiceFromTopK. destruct (SliceStable names l) as [r|] eqn:Hr; [|done]. cbn. case_decide; [done|].
  destruct (r !! _) as [x|] eqn:Hx; [|done]. cbn. intros [= <-]. apply list_elem_of_lookup_2 in Hx.
  unfold SliceStable in Hr. apply sort_from_perm in Hr. by rewrite Hr in Hx.
Qed.

(** The loops keep or replace the selected entry. *)
Definition from (l : list (string * instanceViewScheduling)) (o : option (string * instanceViewScheduling)) : Prop :=
  match o with Some e => e ∈ l | None => True end.

Lemma from_cons e l o : from l o -> from (e :: l) o.
Proof. destruct o; cbn; [by right|done]. Qed.

Lemma apd_prefill_in s l r all : from all s -> (forall e, e ∈ l -> e ∈ all) -> apd_prefill s l = Some r -> from all r.
Proof.
  revert s. induction l as [|e l IH]; intros s Hs Hl; cbn; [by intros [= <-]|].
  assert (e ∈ all) as He by (apply Hl; left). assert (forall x, x ∈ l -> x ∈ all) as Hl' by (intros; apply Hl; by right).
  destruct s as [s|]; [|by apply IH]. destruct (metrics (v_ctx e.2) !! _); [|done]. cbn.
  destruct (metrics (v_ctx s.2) !! _); [|done]. cbn.
  destruct (Less _ _); [by apply IH|]. destruct (Equal _ _); [|by apply IH].
  destruct (cmsView e.2); [|done]. cbn. apply IH; [by destruct (decide _)|done].
Qed.

Lemma apd_decode_in s l r all : from all s -> (forall e, e ∈ l -> e ∈ all) -> apd_decode s l = Some r -> from all r.
Proof.
  revert s. induction l as [|e l IH]; intros s Hs Hl; cbn; [by intros [= <-]|].
  assert (e ∈ all) as He by (apply Hl; left). assert (forall x, x ∈ l -> x ∈ all) as Hl' by (intros; apply Hl; by right).
  destruct (metrics (v_ctx e.2) !! _); [|done]. cbn. destruct s as [s|]; [|by apply IH].
  destruct (cmsView e.2); [|done]. cbn. destruct (decide _); [by intros [= <-]|].
  destruct (metrics (v_ctx s.2) !! _); [|done]. cbn. apply IH; [by destruct (Less _ _)|done].
Qed.

Lemma apd_fallback_in thr o h l o' h' all :
  from all o -> from all h -> (forall e, e ∈ l -> e ∈ all) -> apd_fallback thr o h l = Some (o', h') -> from all o' /\ from all h'.
Proof.
  revert o h. induction l as [|e l IH]; intros o h Ho Hh Hl; cbn; [by intros [= <- <-]|].
  assert (e ∈ all) as He by (apply Hl; left). assert (forall x, x ∈ l -> x ∈ all) as Hl' by (intros; apply Hl; by right).
  destruct (metrics (v_ctx e.2) !! SchedulingMetricPredictedTpot) as [tpot|]; [|done]. cbn.
  destruct (metrics (v_ctx e.2) !! _) as [ttft|]; [|done]. cbn.
  destruct (ValueLess tpot thr).
  - destruct h as [h|]; [|by apply IH]. destruct (metrics (v_ctx h.2) !! SchedulingMetricPredictedTpot) as [a|]; [|done]. cbn.
    destruct (metrics (v_ctx h.2) !! _) as [b|]; [|done]. cbn. apply IH; [done|by destruct (_ || _)|done].
  - destruct o as [o|]; [|by apply IH]. destruct (metrics (v_ctx o.2) !! _) as [a|]; [|done]. cbn.
    apply IH; [by destruct (Less _ _)|done..].
Qed.

Lemma recalculate_ttft_health `{LatencyPredictor} now iv iv' : recalculate_ttft now iv = Some iv' -> health iv' = health iv.
Proof.
  unfold recalculate_ttft. destruct (metrics _ !! _) as [m|]; [|done]. cbn. destruct (PredictedTtft_Calculate _ _ _); [|done].
  by intros [= <-].
Qed.

Lemma from_ranged_in (order : key_order) vs o id :
  visits_once order -> from (ranged order vs) o -> selected_id o = Some id -> id ∈ dom vs.
Proof. intros Ho Hf. destruct o as [e|]; [|done]. intros [= <-]. exact (ranged_in order vs e Ho Hf). Qed.

Lemma selectInstance_in `{LatencyPredictor} (order : key_order) rnd now s vs fb o s' vs' :
  visits_once order -> selectInstance order rnd now s vs fb = Some (o, s', vs') ->
  sub_health vs' vs /\ forall id, o = Some id -> id ∈ dom vs.
Proof.
  intros Ho. destruct s as [k names|last| |slo thr]; cbn.
  - destruct (if decide (k = 1) then _ else _) as [r|] eqn:Hr; [|done]. cbn. intros [= <- _ <-].
    split; [by apply sub_health_subseteq|]. intros id. apply (from_ranged_in order); [done|]. destruct r as [e|]; [|done]. cbn.
    destruct (decide (k = 1)); [|by apply randomChoice_in in Hr]. unfold best in Hr. destruct (ranged order vs); [done|].
    destruct (best_from _ _ _) as [x|] eqn:Hx; [|done]. injection Hr as <-. by apply best_from_in in Hx.
  - destruct (vs !! last) eqn:Hl.
    + intros [= <- _ <-]. split; [by apply sub_health_subseteq|]. intros id [= <-]. apply elem_of_dom. eauto.
    + destruct (order (dom vs)) as [|id ids] eqn:Hd; intros [= <- _ <-]; (split; [by apply sub_health_subseteq|]); [done|].
      intros x [= <-]. apply (elem_of_order order (dom vs) id Ho). rewrite Hd. left.
  - destruct (apd_prefill None (ranged order vs)) as [r|] eqn:Hr; [|done]. cbn. intros [= <- _ <-].
    split; [by apply sub_health_subseteq|]. intros id. apply (from_ranged_in order); [done|]. exact (apd_prefill_in None _ r _ I (fun _ H => H) Hr).
  - destruct fb.
    + destruct (map_traverse _ vs) as [vs1|] eqn:E; [|done]. cbn.
      destruct (apd_fallback _ None None _) as [[lo hi]|] eqn:Ha; [|done]. cbn. intros [= <- _ <-].
      split; [eapply traverse_sub; [|exact E]; intros ???; apply recalculate_ttft_health|].
      rewrite <- (map_traverse_dom _ _ _ E). intros id. apply (from_ranged_in order); [done|].
      destruct (apd_fallback_in _ None None _ lo hi (ranged order vs1) I I (fun _ H => H) Ha). by destruct hi.
    + destruct (apd_decode None (ranged order vs)) as [r|] eqn:Hr; [|done]. cbn. intros [= <- _ <-].
      split; [by apply sub_health_subseteq|]. intros id. apply (from_ranged_in order); [done|]. exact (apd_decode_in None _ r _ I (fun _ H => H) Hr).
Qed.

(** ** Filters of a safe policy *)

Definition safe_role (c : SchedulerConfig) (pol : inferTypeBaseDispatchPolicy) : Prop :=
  schedulabilityFilter ∈ ib_singleInstanceFilters pol /\
  stalenessFilter (InstanceStalenessSeconds c) ∈ ib_singleInstanceFilters pol /\
  ib_globalFilters pol = [failoverFilter (FailoverDomain c)].

Definition safe_policy (c : SchedulerConfig) (p : gmap string inferTypeBaseDispatchPolicy) : Prop :=
  forall t pol, p !! t = Some pol -> safe_role c pol.

Lemma filter_views_verdicts order now vs sif gf fb av vs' id :
  filter_views order now vs sif gf fb = Some (av, vs') -> id ∈ av ->
  exists iv, vs !! id = Some iv /\ forall f, f ∈ sif -> active fb f -> verdict (now id) f iv = Some false.
Proof.
  unfold filter_views. destruct (run_singles now sif fb vs) as [rs|] eqn:E; [|done]. cbn. intros H Hid.
  apply run_global_incl in H. apply H, elem_of_dom in Hid as [[r v] Hr]. apply map_lookup_filter_Some in Hr as [Hr Hrej].
  cbn in Hrej. subst r. pose proof (map_traverse_lookup _ _ _ E id) as Hl. rewrite Hr in Hl.
  destruct (vs !! id) as [iv|]; [|done]. exists iv. split; [done|].
  destruct (run_single_spec _ _ _ _ _ _ _ Hl) as (_ & Hall & _). by apply Hall.
Qed.

Lemma run_global_marks order now gf vs av av' vs' :
  run_global order now gf vs av = Some (av', vs') -> only_marked vs vs'.
Proof.
  revert vs av. induction gf as [|f gf IH]; intros vs av; cbn; [intros [= _ <-]; apply only_marked_refl|].
  destruct (filterOutInstances order now f vs) as [[out v]|] eqn:Hf; [|done]. cbn. intros H%IH.
  eapply only_marked_trans; [by eapply filterOutInstances_marks|done].
Qed.

Lemma filter_views_only_marked order now vs sif gf fb av vs' :
  filter_views order now vs sif gf fb = Some (av, vs') -> only_marked vs vs'.
Proof.
  unfold filter_views. destruct (run_singles now sif fb vs) as [rs|] eqn:E; [|done]. cbn. intros H.
  eapply only_marked_trans; [by eapply run_singles_marks|by eapply run_global_marks].
Qed.

Lemma verdicts_healthy now secs vs (sif : list singleInstanceFilter) fb id iv :
  schedulabilityFilter ∈ sif -> stalenessFilter secs ∈ sif -> vs !! id = Some iv ->
  (forall f, f ∈ sif -> active fb f -> verdict (now id) f iv = Some false) -> ~ unhealthy now secs vs id.
Proof.
  intros Hs Ht Hi Hall (kv & cv & Hk & Hcv & Hun). assert (kv = iv) as -> by congruence.
  pose proof (Hall _ Hs ltac:(apply andb_false_r)) as V1. pose proof (Hall _ Ht ltac:(apply andb_false_r)) as V2.
  unfold verdict in V1, V2. cbn in V1, V2. rewrite Hcv in V1, V2. cbn in V1, V2.
  injection V1 as V1. injection V2 as V2. apply negb_false_iff in V1. apply bool_decide_eq_false in V2.
  destruct Hun; [congruence|done].
Qed.

(** Healthy, and outside the failover domain of every unhealthy instance. *)
Definition ok_in (env : sched_env) (c : SchedulerConfig) (target : gmap string instanceViewScheduling) (id : string) : Prop :=
  exists iv, target !! id = Some iv /\
    ~ unhealthy (e_now env) (InstanceStalenessSeconds c) target id /\
    forall dp, isDataParallelEnabled (e_order env) target = Some dp ->
      ~ in_domain (FailoverDomain c) dp target (unhealthy (e_now env) (InstanceStalenessSeconds c) target) id iv.

Lemma ok_in_stable env c vs (vs' : gmap string instanceViewScheduling) id : health <$> vs' = health <$> vs -> ok_in env c vs' id -> ok_in env c vs id.
Proof.
  intros E (iv' & Hi & Hun & Hd). destruct (health_lookup _ _ _ _ E Hi) as (iv & Hv & Hh). exists iv. split; [done|].
  assert (forall i, unhealthy (e_now env) (InstanceStalenessSeconds c) vs i -> unhealthy (e_now env) (InstanceStalenessSeconds c) vs' i) as Hu
    by (intros i; by apply unhealthy_stable).
  split; [intros H; by apply Hun, Hu|]. intros dp Hdp Hdom.
  apply (Hd dp (isDataParallelEnabled_stable vs vs' E _ _ Hdp)).
  eapply in_domain_mono; [exact Hu|]. by eapply (in_domain_stable vs' vs (eq_sym E)).
Qed.

Lemma filter_views_ok env c pol target fb av target' :
  safe_role c pol ->
  filter_views (e_order env) (e_now env) target (ib_singleInstanceFilters pol) (ib_globalFilters pol) fb = Some (av, target') ->
  forall id, id ∈ av -> ok_in env c target id.
Proof.
  intros (Hs & Ht & Hg) E id Hid. rewrite Hg in E.
  destruct (filter_views_verdicts _ _ _ _ _ _ _ _ _ E Hid) as (iv & Hi & Hall).
  exists iv. split; [done|]. split; [by eapply verdicts_healthy|]. intros dp Hdp.
  by eapply (filter_views_safe (e_order env) (e_now env) target _ (FailoverDomain c) fb av target' dp).
Qed.

Lemma policy_filter_spec env c pol target vs fb av vs1 :
  safe_role c pol -> sub_health target vs -> policy_filter env pol target vs fb = Some (av, vs1) ->
  health <$> vs1 = health <$> vs /\ forall id, id ∈ av -> ok_in env c target id.
Proof.
  intros Hr Hsub. unfold policy_filter.
  destruct (filter_views _ _ _ _ _ _) as [[av0 target1]|] eqn:E; [|done]. cbn. intros [= <- <-]. split.
  - apply health_union. eapply sub_health_trans; [|exact Hsub]. apply only_marked_sub. by eapply filter_views_only_marked.
  - by eapply filter_views_ok.
Qed.

Lemma group_views_sub t vs : sub_health (group_views t vs) vs.
Proof. apply sub_health_subseteq, map_filter_subseteq. Qed.

Lemma target_views_sub c t vs : sub_health (target_views c t vs) vs.
Proof.
  unfold target_views. destruct (EnableAdaptivePD c); [by apply sub_health_subseteq|apply group_views_sub].
Qed.

Lemma safe_policy_insert c p t pol s :
  safe_policy c p -> p !! t = Some pol -> safe_policy c (<[t := with_selector s pol]> p).
Proof.
  intros Hp Ht t' pol' [[<- <-]|[_ H]]%lookup_insert_Some; [|by eapply Hp]. exact (Hp _ _ Ht).
Qed.

(** ** [executeSchedule] *)

Section execute.
Context `{LP : LatencyPredictor} (env : sched_env) (Ho : visits_once (e_order env)).

Lemma executeSchedule_spec c p t vs sel p' vs' :
  safe_policy c p -> executeSchedule env c p t vs = Some (sel, p', vs') ->
  safe_policy c p' /\ health <$> vs' = health <$> vs /\ forall id, sel = Some id -> ok_in env c (target_views c t vs) id.
Proof using All.
  intros Hp. unfold executeSchedule. destruct (p !! t) as [pol|] eqn:Hpol; [|done]. cbn.
  pose proof (Hp _ _ Hpol) as Hrole.
  destruct (policy_filter env pol (target_views c t vs) vs false) as [[av vs1]|] eqn:E1; [|done]. cbn.
  apply (policy_filter_spec env c) in E1 as [H1 Hok1]; [|done|apply target_views_sub].
  set (second := if decide (av = ∅) then _ else _).
  assert (forall av' vs2 fb, second = Some (av', vs2, fb) ->
    health <$> vs2 = health <$> vs /\ forall id, id ∈ av' -> ok_in env c (target_views c t vs) id) as Hsecond.
  { intros av' vs2 fb. unfold second. case_decide; [|by intros [= <- <- _]].
    destruct (policy_filter env pol (target_views c t vs1) vs1 true) as [[av2 vs2']|] eqn:E2; [|done]. cbn.
    intros [= <- <- _]. apply (policy_filter_spec env c) in E2 as [H2 Hok2]; [|done|apply target_views_sub].
    split; [congruence|]. intros id Hid. eapply ok_in_stable; [by apply target_views_stable|]. by apply Hok2. }
  destruct second as [[[av' vs2] fb]|]; [|done]. cbn. destruct (Hsecond _ _ _ eq_refl) as [H2 Hok]. clear Hsecond.
  case_decide; [by intros [= <- <- <-]|].
  destruct (selectInstance _ _ _ _ _ _) as [[[o s] cand]|] eqn:Es; [|done]. cbn. intros [= <- <- <-].
  apply selectInstance_in in Es as [Hsub Hin]; [|done]. split; [by apply safe_policy_insert|]. split.
  - rewrite health_union; [done|]. eapply sub_health_trans; [exact Hsub|]. apply sub_health_subseteq, map_filter_subseteq.
  - intros id Hid. apply Hok. apply Hin, elem_of_dom in Hid as [iv Hiv]. by apply map_lookup_filter_Some in Hiv as [_ ?].
Qed.

End execute.

(** ** Accounts do not change health *)

Definition cms_views (c : CMSReadClient) : gmap string instanceViewScheduling := of_cms_view <$> CmsReadClient.GetInstanceViews c.

Lemma cms_views_stable c c' :
  instanceStatuses c' = instanceStatuses c -> md_heap c' = md_heap c ->
  core <$> CmsReadClient.instanceViews c' = core <$> CmsReadClient.instanceViews c ->
  health <$> cms_views c' = health <$> cms_views c.
Proof.
  intros Es Eh Ec. apply map_eq. intros id. unfold cms_views, CmsReadClient.GetInstanceViews.
  rewrite !lookup_fmap, !map_lookup_imap. apply (f_equal (lookup id)) in Ec. rewrite !lookup_fmap in Ec.
  destruct (CmsReadClient.instanceViews c' !! id) as [v'|], (CmsReadClient.instanceViews c !! id) as [v|]; try done.
  apply Some_inj in Ec. assert (vw_Metadata v' = vw_Metadata v) as E1 by exact (f_equal fst Ec).
  assert (vw_Instance v' = vw_Instance v) as E2 by exact (f_equal snd Ec). cbn. rewrite Es.
  destruct (instanceStatuses c !! id) as [st|]; [|done]. cbn. unfold health, of_cms_view, view_of, read_metadata. cbn.
  by rewrite E1, E2, Eh.
Qed.

Lemma put_account_views id iv c : health <$> cms_views (put_account id iv c) = health <$> cms_views c.
Proof. apply cms_views_stable; [done..|]. by apply core_alter. Qed.

Lemma AddRequestLocalAccount_views now id t n p r c :
  health <$> cms_views (AddRequestLocalAccount now id t n p r c) = health <$> cms_views c.
Proof.
  unfold AddRequestLocalAccount. destruct (CmsReadClient.GetInstanceViews c !! id); [|done].
  destruct (addRequestLocalAccount _ _ _ _ _ _ _) as [iv e]. apply put_account_views.
Qed.

Lemma RevertRequestPrefillLocalAccount_views id n p r c :
  health <$> cms_views (RevertRequestPrefillLocalAccount id n p r c) = health <$> cms_views c.
Proof.
  unfold RevertRequestPrefillLocalAccount. destruct (CmsReadClient.GetInstanceViews c !! id); [|done].
  destruct (revertRequestPrefillLocalAccount _ _ _ _ _) as [iv e]. apply put_account_views.
Qed.

Lemma sync_view_health id c vs : health <$> vs = health <$> cms_views c -> health <$> sync_view id c vs = health <$> vs.
Proof.
  intros E. unfold sync_view. destruct (CmsReadClient.GetInstanceViews c !! id) as [cv|] eqn:Hcv; [|done].
  apply map_eq. intros i. rewrite !lookup_fmap, lookup_alter. case_decide as Ei; [subst i|done].
  destruct (vs !! id) as [iv|] eqn:Hi; [|done]. destruct (health_lookup _ _ _ _ E Hi) as (w & Hw & Hh).
  unfold cms_views in Hw. rewrite lookup_fmap, Hcv in Hw. injection Hw as <-.
  cbn [option_fmap option_map fmap]. apply (f_equal Some). apply (f_equal snd) in Hh. unfold health in *. cbn in *. by rewrite Hh.
Qed.

(** ** [schedule] *)

Section schedule.
Context `{LP : LatencyPredictor} (env : sched_env) (Ho : visits_once (e_order env)).
Context (c : SchedulerConfig) (vs0 : gmap string instanceViewScheduling).

(** What holds between the steps of a decision. *)
Record deciding (d : DispatchPolicy) (vs : gmap string instanceViewScheduling) : Prop := mk_deciding {
  dc_config : dp_config d = c;
  dc_safe : safe_policy c (dp_policy d);
  dc_views : health <$> vs = health <$> vs0;
  dc_cms : health <$> cms_views (dp_cms d) = health <$> vs0
}.

Lemma lookup_prefix_cache_deciding request d cl :
  deciding d (cl_views cl) ->
  deciding (fst (lookup_prefix_cache env request d cl)) (cl_views (snd (lookup_prefix_cache env request d cl))).
Proof using.
  intros [Hc Hs Hv Hm]. unfold lookup_prefix_cache. destruct (_ && _); [|by split].
  destruct (e_hash env _) as [hashes|]; [|by split].
  unfold getInstancesPrefixCacheHitLen. destruct (IsKVSMetadataServiceDown _ _) as [down k].
  destruct down; [by split|]. destruct (BatchQueryCacheHitKVSInstances _ _ _ _ _) as [hits k'].
  destruct (calcInstancesPrefixCacheHitLen _ _ _) as [lens|]; [|by split]. split; [done..| |done]. cbn. rewrite <- Hv.
  apply map_eq. intros id. rewrite !lookup_fmap, map_lookup_imap. destruct (cl_views cl !! id) as [iv|]; [|done]. cbn.
  by destruct (lens !! id).
Qed.

Lemma predict_one_health fuel now q m iv iv' : predict_one fuel now q m iv = Some iv' -> health iv' = health iv.
Proof using.
  unfold predict_one. destruct (cmsView iv); [|done]. cbn. destruct (fle _ _); [by intros [= <-]|].
  destruct (allPrefillsTokensNum_Calculate iv); [|done]. cbn. destruct (predict_loop _ _ _ _ _ _ _) as [[a b]|]; [|done].
  by intros [= <-].
Qed.

Lemma predict_prefills_deciding d cl cl' :
  predict_prefills env d cl = Some cl' -> deciding d (cl_views cl) -> deciding d (cl_views cl').
Proof using.
  unfold predict_prefills. intros H [Hc Hs Hv Hm]. destruct (EnablePredictorEnhancedScheduling _); [|inv_some; by split].
  unfold predictNumComputedPrefillTokens in H. destruct (negb _).
  - cbn in H. inv_some. split; [done..| |done]. cbn. rewrite <- Hv. apply health_union, group_views_sub.
  - destruct (map_traverse _ _) as [vs|] eqn:E; [|done]. cbn in H. inv_some. split; [done..| |done]. cbn. rewrite <- Hv.
    apply health_union. eapply sub_health_trans; [|apply group_views_sub].
    eapply traverse_sub; [|exact E]. intros ??. apply predict_one_health.
Qed.

Lemma calculate_one_health cfg now req names iv iv' : calculate_one cfg now req names iv = Some iv' -> health iv' = health iv.
Proof using.
  revert iv. induction names as [|n ns IH]; intros iv; cbn; [by intros [= <-]|].
  destruct (metrics (v_ctx iv) !! n); [apply IH|]. destruct (getSchedulingMetric _ _ _ _ _); [|done]. cbn.
  intros H%IH. by rewrite H.
Qed.

Lemma calculate_groups_deciding req d cl cl' :
  calculate_groups env (dp_config d) (dp_policy d) req cl = Some cl' -> deciding d (cl_views cl) -> deciding d (cl_views cl').
Proof using.
  unfold calculate_groups. intros H [Hc Hs Hv Hm]. case_decide; [|done].
  destruct (map_traverse _ _) as [vs|] eqn:E; [|done]. cbn in H. inv_some. split; [done..| |done]. cbn. rewrite <- Hv.
  eapply traverse_health; [|exact E]. intros id iv iv'. cbn. destruct (dp_policy d !! v_group iv); [|done]. cbn.
  apply calculate_one_health.
Qed.

Lemma select_role_deciding need t d vs sel d' vs' :
  deciding d vs -> select_role env need t d vs = Some (sel, d', vs') ->
  deciding d' vs' /\ forall id, sel = Some id -> ok_in env c (target_views c t vs0) id.
Proof using All.
  intros [Hc Hs Hv Hm]. unfold select_role. destruct need; [|by intros [= <- <- <-]].
  destruct (executeSchedule _ _ _ _ _) as [[[o p] vs1]|] eqn:E; [|done]. cbn. intros [= <- <- <-].
  rewrite Hc in E. destruct (executeSchedule_spec env Ho c _ _ _ _ _ _ Hs E) as (Hs' & Hh & Hok). split.
  - split; [done..|congruence|done].
  - intros id Hid. eapply ok_in_stable; [exact (target_views_stable _ _ Hv c t)|]. by apply Hok.
Qed.

Lemma add_account_deciding t n r id d vs :
  deciding d vs -> deciding (fst (add_account env t n r id (d, vs))) (snd (add_account env t n r id (d, vs))).
Proof using.
  intros [Hc Hs Hv Hm]. unfold add_account. destruct (EnableInstanceStatusLocalAccount _); [|by split].
  split; cbn; [done..| |by rewrite AddRequestLocalAccount_views].
  rewrite sync_view_health; [done|]. by rewrite AddRequestLocalAccount_views, Hv, Hm.
Qed.

Lemma revert_account_deciding n r id d vs :
  deciding d vs -> deciding (fst (revert_account n r id (d, vs))) (snd (revert_account n r id (d, vs))).
Proof using.
  intros [Hc Hs Hv Hm]. unfold revert_account. destruct (EnableInstanceStatusLocalAccount _); [|by split].
  split; cbn; [done..| |by rewrite RevertRequestPrefillLocalAccount_views].
  rewrite sync_view_health; [done|]. by rewrite RevertRequestPrefillLocalAccount_views, Hv, Hm.
Qed.

(** The roles of the selected instances. *)
Definition selection_ok (sel : list (list (option string))) : Prop :=
  sel = [] \/
  (exists id, sel = [[Some id]] /\ ok_in env c (target_views c InferTypeNeutral vs0) id) \/
  (exists p q, sel = [[p]; [q]] /\
     (forall id, p = Some id -> ok_in env c (target_views c InferTypePrefill vs0) id) /\
     (forall id, q = Some id -> ok_in env c (target_views c InferTypeDecode vs0) id)).

Lemma schedule_deciding req d cl sel d' vs' :
  deciding d (cl_views cl) -> schedule env req d cl = Some (sel, d', vs') -> deciding d' vs' /\ selection_ok sel.
Proof using All.
  intros Hd. unfold schedule. apply (lookup_prefix_cache_deciding req) in Hd.
  destruct (lookup_prefix_cache env req d cl) as [d1 cl1]. cbn [fst snd] in Hd.
  destruct (predict_prefills env d1 cl1) as [cl2|] eqn:Ep; [|done]. cbn [mbind option_bind]. eapply predict_prefills_deciding in Ep; [|done].
  destruct (calculate_groups _ _ _ _ cl2) as [cl3|] eqn:Eg; [|done]. cbn [mbind option_bind]. eapply calculate_groups_deciding in Eg; [|done].
  case_decide.
  { case_decide; [|intros [= <- <- <-]; split; [done|by left]].
    destruct (select_role env true _ _ _) as [[[o d2] vs2]|] eqn:Es; [|done]. cbn [mbind option_bind].
    destruct (select_role_deciding _ _ _ _ _ _ _ Eg Es) as [Hd2 Hok]. destruct o as [id|].
    - apply (add_account_deciding InferTypeNeutral (if EnableInstanceStatusLocalAccount (dp_config d1) then int32 (sr_PromptNumTokens req) else 0)
        (sr_Id req) id) in Hd2. destruct (add_account _ _ _ _ _ _) as [d3 vs3]. intros [= <- <- <-]. split; [done|].
      right. left. eauto.
    - intros [= <- <- <-]. split; [done|by left]. }
  case_decide; [intros [= <- <- <-]; split; [done|by left]|].
  destruct (select_role env (needs req SchedulingStagePrefill) _ _ _) as [[[pre d2] vs2]|] eqn:Es; [|done]. cbn [mbind option_bind].
  destruct (select_role_deciding _ _ _ _ _ _ _ Eg Es) as [Hd2 Hok].
  set (n := if EnableInstanceStatusLocalAccount (dp_config d1) then _ else _).
  assert (exists d3 vs3, match pre with Some id => add_account env InferTypePrefill n (sr_Id req) id (d2, vs2) | None => (d2, vs2) end
    = (d3, vs3) /\ deciding d3 vs3) as (d3 & vs3 & -> & Hd3).
  { destruct pre as [id|]; [|eauto]. apply (add_account_deciding InferTypePrefill n (sr_Id req) id) in Hd2.
    destruct (add_account _ _ _ _ _ _). eauto. }
  destruct (select_role env (needs req SchedulingStageDecode) _ _ _) as [[[dec d4] vs4]|] eqn:Es'; [|done]. cbn [mbind option_bind].
  destruct (select_role_deciding _ _ _ _ _ _ _ Hd3 Es') as [Hd4 Hok'].
  set (fin := if needs req SchedulingStageDecode then _ else _). assert (deciding (fst fin) (snd fin)) as Hfin.
  { unfold fin. destruct (needs req SchedulingStageDecode); [|exact Hd4]. destruct dec as [id|]; [by apply add_account_deciding|].
    destruct pre as [id|]; [by apply revert_account_deciding|exact Hd4]. }
  destruct fin as [d5 vs5]. intros [= <- <- <-]. split; [done|]. right. right. eauto 8.
Qed.

End schedule.

(** ** Policies built by the registry *)

Lemma safe_role_intro c m sif s :
  safe_role c (mkInferTypePolicy m [failoverFilter (FailoverDomain c)]
    (schedulabilityFilter :: stalenessFilter (InstanceStalenessSeconds c) :: sif) s).
Proof. split; [left|]. split; [right; left|done]. Qed.

Lemma safe_policy_cons c p t pol : safe_role c pol -> safe_policy c p -> safe_policy c (<[t := pol]> p).
Proof. intros Hr Hp t' pol' [[_ <-]|[_ H]]%lookup_insert_Some; [done|by eapply Hp]. Qed.

Lemma safe_policy_one c t pol : safe_role c pol -> safe_policy c {[t := pol]}.
Proof. intros Hr t' pol' [_ <-]%lookup_singleton_Some. done. Qed.

Ltac solve_safe := repeat first [apply safe_policy_one | apply safe_policy_cons | apply safe_role_intro].

Lemma registry_safe c p :
  EnableFullModeScheduling c = true -> newDispatchPolicyInternal c = Some p -> safe_policy c p.
Proof.
  intros Hf. unfold newDispatchPolicyInternal. rewrite Hf. repeat case_decide; try done.
  - unfold newLoadBalanceDispatchFullMode.
    destruct (metric_factory (DispatchPrefillLoadMetric c)); [|done]. cbn.
    destruct (metric_factory (DispatchDecodeLoadMetric c)); [|done]. cbn.
    destruct (metric_factory (DispatchNeutralLoadMetric c)); [|done]. cbn.
    destruct (EnableCacheAwareScheduling c); [|intros [= <-]; solve_safe].
    destruct (metric_factory (DispatchPrefillCacheLocalityMetric c)); [|done]. cbn. intros [= <-]. solve_safe.
  - intros [= <-]. unfold newFloodDispatchPolicyFullMode. solve_safe.
  - intros [= <-]. unfold newSloDispatchFullMode. destruct (EnableAdaptivePD c); cbn; solve_safe.
Qed.

(** ** Runs of the scheduler

    Requests, releases and the two refresh loops of the CMS client, in any order. *)

Inductive dispatch_step `{LP : LatencyPredictor, PC : ProtoCodec, LS : LeastSquares} : DispatchPolicy -> DispatchPolicy -> Prop :=
  | step_schedule env req lrs d r d' :
      visits_once (e_order env) -> Schedule env req lrs d = Some (r, d') -> dispatch_step d d'
  | step_release r d : dispatch_step d (ReleaseRequestLocalAccount r d)
  | step_cms c d : cms_step (dp_cms d) c -> dispatch_step d (set_cms c d).

Section runs.
Context `{LP : LatencyPredictor, PC : ProtoCodec, LS : LeastSquares}.

Lemma cluster_of_cms_deciding d :
  safe_policy (dp_config d) (dp_policy d) -> deciding (dp_config d) (cms_views (dp_cms d)) d (cl_views (cluster_of_cms (dp_cms d))).
Proof using. intros Hs. by split. Qed.

(** The instances of the result of a request in full mode. *)
Definition result_ok (env : sched_env) (d : DispatchPolicy) (i : LLMInstance) : Prop :=
  exists t id iv, ok_in env (dp_config d) (target_views (dp_config d) t (cms_views (dp_cms d))) id /\
    cms_views (dp_cms d) !! id = Some iv /\ (i = v_instance iv \/ exists role, i = with_InferType role (v_instance iv)).

#[local] Arguments role_results : simpl never.

Lemma role_results_in c role vs sel i :
  i ∈ role_results c role vs sel -> exists id iv, Some id ∈ sel /\ vs !! id = Some iv /\
    (i = v_instance iv \/ exists r, i = with_InferType r (v_instance iv)).
Proof using.
  unfold role_results. rewrite list_elem_of_omap. intros (o & Ho & Hi). destruct o as [id|]; [|done]. cbn in Hi.
  unfold target_instance in Hi. destruct (vs !! id) as [iv|] eqn:Hv; [|done]. cbn in Hi.
  exists id, iv. split; [done|]. split; [done|]. destruct (EnableAdaptivePD c); inv_some; eauto.
Qed.

Lemma Schedule_spec env req lrs d r d' :
  visits_once (e_order env) -> EnableFullModeScheduling (dp_config d) = true -> safe_policy (dp_config d) (dp_policy d) ->
  Schedule env req lrs d = Some (r, d') ->
  (dp_config d' = dp_config d /\ safe_policy (dp_config d) (dp_policy d')) /\
  forall res, r = Ok res -> forall i, i ∈ res -> result_ok env d i.
Proof using.
  intros Ho Hf Hs. unfold Schedule. rewrite Hf. cbn. destruct (negb _); [by intros [= <- <-]|].
  destruct (schedule _ _ _ _) as [[[sel d1] vs]|] eqn:E; [|done]. cbn.
  destruct (schedule_deciding env Ho (dp_config d) (cms_views (dp_cms d)) _ _ _ _ _ _ (cluster_of_cms_deciding d Hs) E)
    as [[Hc Hs' Hv _] Hok].
  assert (forall t id iv i, ok_in env (dp_config d) (target_views (dp_config d) t (cms_views (dp_cms d))) id ->
    vs !! id = Some iv -> (i = v_instance iv \/ exists r, i = with_InferType r (v_instance iv)) -> result_ok env d i) as Hres.
  { intros t id iv i Hid Hi Hinst. destruct (health_lookup _ _ _ _ Hv Hi) as (jv & Hj & Hh).
    exists t, id, jv. split; [done|]. split; [done|].
    assert (v_instance iv = v_instance jv) as <- by exact (f_equal (fun x => x.1.2) Hh). done. }
  destruct Hok as [->|[(id & -> & Hid)|(p & q & -> & Hp & Hq)]].
  - intros [= <- <-]. split; [done|]. by intros res [=].
  - intros [= <- <-]. split; [done|]. intros res [= <-] i [Hi|Hi]%elem_of_app;
      apply role_results_in in Hi as (id' & iv & Hin & Hiv & Hinst); cbn in Hin.
    + apply list_elem_of_singleton in Hin. injection Hin as ->. by eapply Hres.
    + by apply elem_of_nil in Hin.
  - intros [= <- <-]. split; [done|]. intros res [= <-] i [Hi|Hi]%elem_of_app;
      apply role_results_in in Hi as (id' & iv & Hin & Hiv & Hinst); cbn in Hin;
      apply list_elem_of_singleton in Hin; subst; eapply Hres; eauto.
Qed.

Lemma dispatch_step_safe d d' :
  dispatch_step d d' -> EnableFullModeScheduling (dp_config d) = true -> safe_policy (dp_config d) (dp_policy d) ->
  dp_config d' = dp_config d /\ safe_policy (dp_config d) (dp_policy d').
Proof using.
  intros [env req lrs x r x' Ho E|r x|cm x H] Hf Hs.
  - by eapply Schedule_spec.
  - unfold ReleaseRequestLocalAccount. by destruct (negb _).
  - done.
Qed.

Lemma dispatch_steps_safe d d' :
  rtc dispatch_step d d' -> EnableFullModeScheduling (dp_config d) = true -> safe_policy (dp_config d) (dp_policy d) ->
  dp_config d' = dp_config d /\ safe_policy (dp_config d') (dp_policy d').
Proof using.
  induction 1 as [|d d1 d2 H _ IH]; [done|]. intros Hf Hs. destruct (dispatch_step_safe _ _ H Hf Hs) as [Hc Hs'].
  rewrite <- Hc in Hf, Hs' |- *. by apply IH.
Qed.

End runs.

(** ** Examples *)

Definition demo_config (policy : string) (adaptivePD : bool) : SchedulerConfig :=
  mkConfig policy true false false adaptivePD false true 0 64 1
    SchedulingMetricNumRequests (f32_of_Z 100) SchedulingMetricAllPrefillsTokensNum (f32_of_Z 100000)
    SchedulingMetricDecodeBatchSize (f32_of_Z 100) SchedulingMetricKVCacheHitLen 1024
    (f32_of_Z 1000) (f32_of_Z 50) (f32_of_Z 1) (f32_of_Z 1) (f32_of_Z 1) (f32_of_Z 1) FailoverDomainInstance 60
    "" "" f_zero "" "" f_zero "" "" f_zero f_zero "".

(** Metadata bytes are the instance id, whose first letter gives the role; status bytes
    are as in [CmsReadClient.demo_codec], not schedulable when they start with u; their
    length is also the number of waiting requests. *)
Definition role_codec : ProtoCodec := {|
  unmarshalMetadata s :=
    let role := if GoStrings.HasPrefix s "p" then InferTypePrefill
                else if GoStrings.HasPrefix s "d" then InferTypeDecode else InferTypeNeutral in
    (mkMetadata s role "" s "" 8000 0 0 "node" 1 1 "" 0 0 0 f_zero f_zero "" 0 1024, true);
  unmarshalStatus s :=
    let n := Z.of_nat (String.length s) in
    (mkStatus "" (negb (GoStrings.HasPrefix s "u")) n n n [] [] 0 0 n 0 0 0 100 0 0 0 0 0 0 0 0 0 0 0 0 0 0 0 0 0 0 0
       f_zero f_zero f_zero f_zero 0 f_zero 0, true)
|}.

(** A client that has read the given instances with their status. *)
Definition cluster_client (instances : list (string * string)) : CMSReadClient :=
  let c := refreshInstanceMetadata (PC := role_codec) elements
             (Some ((fun e => LlumnixInstanceMetadataPrefix +:+ e.1) <$> instances)) (Some (Some ∘ fst <$> instances))
             (NewCMSReadClient (mkCmsOptions true false false) false 10 3) in
  fst (refreshInstanceStatus (PC := role_codec) (H := demo_solver) elements (fun _ => 0) (Some (Some ∘ snd <$> instances)) c).

Definition demo_env : sched_env := mkEnv elements (fun _ => 0) (fun _ => 0) 0 (fun _ => None) (fun _ => None) 100.

Definition demo_request (mode : SchedulingMode) : SchedulingRequest := mkSchedulingRequest "r1" "m" "g" mode "" 10 [] [].

Definition demo_dispatch (policy : string) (adaptivePD : bool) (instances : list (string * string)) : option DispatchPolicy :=
  NewDispatchPolicy (demo_config policy adaptivePD) (cluster_client instances) (newKVSClient 0 3 30).

(** ** Theorems *)

(** C9. Full-mode dispatch is safe along every run of requests, releases and refreshes:
    every instance in a scheduling result has a view in the CMS, is schedulable and
    not stale at the decision, and does not share the failover domain of an
    unschedulable or stale instance among the instances considered for its role, also
    when all load limits are exceeded and the fallback pass runs. *)
Theorem dispatch_safe `{LP : LatencyPredictor, PC : ProtoCodec, LS : LeastSquares} c cms kvs d0 d env req lrs res d' :
  NewDispatchPolicy c cms kvs = Some d0 -> EnableFullModeScheduling c = true -> rtc dispatch_step d0 d ->
  visits_once (e_order env) -> Schedule env req lrs d = Some (Ok res, d') ->
  forall i, i ∈ res -> result_ok env d i.
Proof.
  intros Hnew Hf Hrun Ho Hsch. unfold NewDispatchPolicy, verifyConfig in Hnew.
  destruct (negb (verifySchedulingPolicy c)); [done|]. cbn in Hnew.
  set (c1 := verifyDispatchLoadMetric (verifySchedulingFeature c)) in *.
  assert (EnableFullModeScheduling c1 = true) as Hf1.
  { unfold c1, verifySchedulingFeature. rewrite Hf. cbn. unfold verifyDispatchLoadMetric. rewrite Hf. cbn. done. }
  destruct (newDispatchPolicyInternal c1) as [p|] eqn:Hp; [|done]. cbn in Hnew. inv_some.
  destruct (dispatch_steps_safe _ _ Hrun Hf1 (registry_safe c1 p Hf1 Hp)) as [Hc Hs].
  assert (EnableFullModeScheduling (dp_config d) = true) as Hfd by by rewrite Hc.
  destruct (Schedule_spec env req lrs d _ _ Ho Hfd Hs Hsch) as [_ Hres]. by apply Hres.
Qed.

Lemma dispatch_safe_witness :
  exists d res d', demo_dispatch SchedulingPolicyLoadBalance false [("n1", "u"); ("n2", "x")] = Some d /\
    Schedule (LP := demo_predictor) demo_env (demo_request SchedulingModeNeutral) (NewLocalRealtimeStateClient false) d
      = Some (Ok res, d') /\
    (InstEndpoint <$> res) = [mkEndpoint "n2" 8000] /\
    forall i, i ∈ res -> result_ok demo_env d i.
Proof.
  destruct (demo_dispatch SchedulingPolicyLoadBalance false [("n1", "u"); ("n2", "x")]) as [d|] eqn:Hd;
    [|vm_compute in Hd; discriminate].
  assert (exists res d', Schedule (LP := demo_predictor) demo_env (demo_request SchedulingModeNeutral) (NewLocalRealtimeStateClient false) d
      = Some (Ok res, d') /\ (InstEndpoint <$> res) = [mkEndpoint "n2" 8000]) as (res & d' & Hs & Hr).
  { vm_compute in Hd. injection Hd as <-. eexists _, _. split; [vm_compute; reflexivity|]. vm_compute. reflexivity. }
  exists d, res, d'. split; [reflexivity|]. split; [exact Hs|]. split; [exact Hr|].
  apply (dispatch_safe (LP := demo_predictor) (PC := role_codec) (LS := demo_solver)
    (demo_config SchedulingPolicyLoadBalance false) (cluster_client [("n1", "u"); ("n2", "x")]) (newKVSClient 0 3 30)
    d d demo_env (demo_request SchedulingModeNeutral) (NewLocalRealtimeStateClient false) res d').
  - exact Hd.
  - reflexivity.
  - apply rtc_refl.
  - exact elements_visits.
  - exact Hs.
Defined.
