(* ===== verification/DispatchTotal.v ===== *)
(** * Dispatch does not panic

    The load-balance and flood policies of the full mode compute every metric that
    their filters and selectors read, so a request always gets an answer. The
    combinations that do panic are shown at the end. *)

From stdpp Require Import base gmap sets list strings numbers.
From S2P Require Import Prelude GoFloat Types CmsTypes LocalAccount Lrs LrsSpec LrsClient Metrics Filters Selectors Predictor PrefixCache CmsReadClient Dispatch Registry DispatchSpec.

Local Open Scope Z_scope.

(** ** Roles whose steps are total *)

Definition failover_domains : list string :=
  [FailoverDomainInstance; FailoverDomainNode; FailoverDomainInstanceUnit; FailoverDomainNodeUnit].

Definition filter_total (names : list string) (f : singleInstanceFilter) : Prop :=
  match f with
  | schedulabilityFilter | stalenessFilter _ => True
  | metricBasedFilter n _ _ => n ∈ names
  | _ => False
  end.

Definition selector_total (names : list string) (s : dispatchSelector) : Prop :=
  match s with
  | metricBasedSelector k ns => 1 <= k /\ forall n, n ∈ ns -> n ∈ names
  | fixedPreferenceSelector _ => True
  | _ => False
  end.

Record role_total (pol : inferTypeBaseDispatchPolicy) : Prop := mk_role_total {
  rt_metrics : forall n, n ∈ ib_metrics pol -> n ∈ fullModeSchedulingMetricSet;
  rt_filters : forall f, f ∈ ib_singleInstanceFilters pol -> filter_total (ib_metrics pol) f;
  rt_global : exists dom, ib_globalFilters pol = [failoverFilter dom] /\ dom ∈ failover_domains;
  rt_selector : selector_total (ib_metrics pol) (ib_selectors pol)
}.

Definition policy_total (p : gmap string inferTypeBaseDispatchPolicy) : Prop :=
  forall t, t ∈ [InferTypePrefill; InferTypeDecode; InferTypeNeutral] -> exists pol, p !! t = Some pol /\ role_total pol.

(** The views that a role works on. *)
Definition has_metrics (names : list string) (iv : instanceViewScheduling) : Prop :=
  is_Some (cmsView iv) /\ forall n, n ∈ names -> is_Some (metrics (v_ctx iv) !! n).

Definition ready (names : string -> list string) (vs : gmap string instanceViewScheduling) : Prop :=
  forall id iv, vs !! id = Some iv -> has_metrics (names (v_group iv)) iv.

(** ** Metrics *)

Section totality.
Context {LP : LatencyPredictor}.

Lemma getSchedulingMetric_total c now req n iv :
  EnableFullModeScheduling c = true -> n ∈ fullModeSchedulingMetricSet -> is_Some (cmsView iv) ->
  exists m, getSchedulingMetric c now req n iv = Some m /\ m_name m = n.
Proof using.
  intros Hf Hn [cv Hcv].
  assert (forall b v, exists m, mkMetric n b <$> Some v = Some m /\ m_name m = n) as K by (intros; eexists; split; reflexivity).
  unfold fullModeSchedulingMetricSet in Hn. rewrite !elem_of_cons, elem_of_nil in Hn.
  unfold getSchedulingMetric, kvCacheUsageRatioProjected_Calculate, decodeBatchSize_Calculate, numWaitingRequests_Calculate,
    CacheAwareAllPrefillsTokensNum_Calculate, allPrefillsTokensNum_Calculate, numRequests_Calculate, kvCacheHitLen_Calculate,
    allDecodesTokensNum_Calculate. rewrite Hcv, Hf. cbn [mbind option_bind].
  destruct Hn as [->|[->|[->|[->|[->|[->|[->|[->|[]]]]]]]]]; cbn -[decide]; repeat (rewrite decide_False by discriminate);
    rewrite decide_True by done; try apply K. case_decide; apply K.
Qed.

Lemma calculate_one_total c now req names iv :
  EnableFullModeScheduling c = true -> (forall n, n ∈ names -> n ∈ fullModeSchedulingMetricSet) -> is_Some (cmsView iv) ->
  exists iv', calculate_one c now req names iv = Some iv' /\ cmsView iv' = cmsView iv /\ v_group iv' = v_group iv /\
    (forall n, is_Some (metrics (v_ctx iv) !! n) -> is_Some (metrics (v_ctx iv') !! n)) /\
    (forall n, n ∈ names -> is_Some (metrics (v_ctx iv') !! n)).
Proof using.
  intros Hf. revert iv. induction names as [|n ns IH]; intros iv Hn Hcv; cbn.
  { exists iv. split_and!; try done. by intros n Hx%elem_of_nil. }
  destruct (metrics (v_ctx iv) !! n) as [m0|] eqn:Hm.
  - destruct (IH iv) as (iv' & H & Hc & Hg & Hk & Ha); [intros; apply Hn; by right|done|].
    exists iv'. split_and!; try done. intros x [->|Hx]%elem_of_cons; [apply Hk; eauto|by apply Ha].
  - destruct (getSchedulingMetric_total c now req n iv Hf) as (m & Hg1 & Hname); [apply Hn; left|done|]. rewrite Hg1. cbn.
    destruct (IH (with_ctx (set_metric m (v_ctx iv)) iv)) as (iv' & H & Hc & Hg & Hk & Ha);
      [intros; apply Hn; by right|done|]. exists iv'. split_and!; try done.
    + intros x Hx. apply Hk. cbn. rewrite lookup_insert. case_decide; [eauto|done].
    + intros x [->|Hx]%elem_of_cons; [|by apply Ha]. apply Hk. cbn. rewrite Hname, lookup_insert_eq. eauto.
Qed.

(** ** Filters *)

Lemma filter_total_step now names f iv :
  filter_total names f -> has_metrics names iv -> is_Some (instanceFilteredOut now f iv).
Proof using.
  intros Hf [[cv Hcv] Hm]. destruct f; cbn in *; try done; rewrite ?Hcv; cbn; eauto.
  destruct (Hm metricName Hf) as [m ->]. cbn. eauto.
Qed.

Lemma has_metrics_marked names b iv : has_metrics names iv -> has_metrics names (marked b iv).
Proof using. done. Qed.

Lemma run_single_total now names sif fb rej iv :
  (forall f, f ∈ sif -> filter_total names f) -> has_metrics names iv -> is_Some (run_single now sif fb rej iv).
Proof using.
  revert rej iv. induction sif as [|f sif IH]; intros rej iv Hs Hm; cbn; [eauto|].
  assert (forall g, g ∈ sif -> filter_total names g) as Hs' by (intros; apply Hs; by right).
  destruct (fb && skipWhenFallback f); [by apply IH|].
  destruct (filter_total_step now names f iv) as [[out iv'] Hf]; [apply Hs; left|done|]. rewrite Hf. cbn.
  apply IH; [done|]. apply instanceFilteredOut_marks in Hf as ->. by apply has_metrics_marked.
Qed.

Lemma failoverFilter_total (order : key_order) dom vs :
  visits_once order -> dom ∈ failover_domains -> (forall id iv, vs !! id = Some iv -> is_Some (cmsView iv)) ->
  is_Some (failoverFilter_filterOutInstances order dom vs).
Proof using.
  intros Ho Hd Hc. assert (is_Some (isDataParallelEnabled order vs)) as [dp Hdp].
  { unfold isDataParallelEnabled. destruct (order (base.dom vs)) as [|id ids] eqn:E; [eauto|].
    assert (id ∈ base.dom vs) as Hid by (apply (elem_of_order order _ _ Ho); rewrite E; left).
    apply elem_of_dom in Hid as [iv Hi]. destruct (Hc _ _ Hi) as [cv Hcv]. rewrite Hi. cbn. rewrite Hcv. cbn. eauto. }
  unfold failoverFilter_filterOutInstances. rewrite Hdp. cbn.
  unfold failover_domains in Hd. rewrite !elem_of_cons, elem_of_nil in Hd.
  repeat case_decide; try (destruct dp; cbn); eauto; exfalso; tauto.
Qed.

Lemma policy_filter_total env pol target vs fb names :
  visits_once (e_order env) -> role_total pol -> ib_metrics pol = names ->
  (forall id iv, target !! id = Some iv -> has_metrics names iv) ->
  exists av target', policy_filter env pol target vs fb = Some (av, target' ∪ vs) /\ only_marked target target' /\
    forall id, id ∈ av -> id ∈ dom target.
Proof using.
  intros Ho [Hm Hf (d & Hg & Hd) _] <- Ht. unfold policy_filter, filter_views. rewrite Hg.
  destruct (map_traverse_total (fun id => run_single (e_now env id) (ib_singleInstanceFilters pol) fb false) target) as [rs Hrs].
  { intros id iv Hi. eapply run_single_total; [exact Hf|by eapply Ht]. }
  unfold run_singles. rewrite Hrs. cbn. pose proof (run_singles_marks _ _ _ _ _ Hrs) as Hmark.
  destruct (failoverFilter_total (e_order env) d (snd <$> rs) Ho Hd) as [out Hout].
  { intros id iv Hi. destruct (only_marked_lookup _ _ _ _ Hmark Hi) as (jv & b & Hj & ->). by destruct (Ht _ _ Hj). }
  rewrite Hout. cbn. eexists _, _. split; [done|]. split; [done|]. intros id Hid.
  rewrite <- (map_traverse_dom _ _ _ Hrs). apply elem_of_difference in Hid as [[r Hi]%elem_of_dom _].
  apply map_lookup_filter_Some in Hi as [Hi _]. apply elem_of_dom. eauto.
Qed.

(** ** Selectors *)

Lemma cmp_metrics_total names a b :
  (forall n, n ∈ names -> is_Some (metrics (v_ctx a) !! n)) -> (forall n, n ∈ names -> is_Some (metrics (v_ctx b) !! n)) ->
  is_Some (cmp_metrics names a b).
Proof using.
  intros Ha Hb. induction names as [|n ns IH]; cbn; [eauto|].
  destruct (Ha n) as [ma ->]; [left|]. destruct (Hb n) as [mb ->]; [left|]. cbn.
  destruct (Less ma mb); [eauto|]. destruct (Less mb ma); [eauto|]. apply IH; intros; [apply Ha|apply Hb]; by right.
Qed.

Definition entries_have (names : list string) (l : list (string * instanceViewScheduling)) : Prop :=
  Forall (fun e => forall n, n ∈ names -> is_Some (metrics (v_ctx e.2) !! n)) l.

Lemma entries_have_cons names e l :
  entries_have names (e :: l) <-> (forall n, n ∈ names -> is_Some (metrics (v_ctx e.2) !! n)) /\ entries_have names l.
Proof using. apply Forall_cons_iff. Qed.

Lemma best_from_total names s l : entries_have names (s :: l) -> is_Some (best_from names s l).
Proof using.
  revert s. induction l as [|e l IH]; intros s [Hs Hl]%entries_have_cons; cbn; [eauto|]. apply entries_have_cons in Hl as [He Hl].
  destruct (cmp_metrics_total names e.2 s.2 He Hs) as [c ->]. cbn. apply IH. apply entries_have_cons. by destruct c.
Qed.

Lemma insert_left_total names x p : entries_have names (x :: p) -> is_Some (insert_left names x p).
Proof using.
  intros [Hx Hp]%entries_have_cons. induction p as [|y p IH]; cbn; [eauto|]. apply entries_have_cons in Hp as [Hy Hp].
  destruct (cmp_metrics_total names x.2 y.2 Hx Hy) as [c ->]. cbn. destruct c; eauto.
  destruct (IH Hp) as [q ->]. cbn. eauto.
Qed.

Lemma sort_from_total names p l : entries_have names (p ++ l) -> is_Some (sort_from names p l).
Proof using.
  revert p. induction l as [|x l IH]; intros p H; cbn; [eauto|].
  assert (entries_have names (x :: p)) as Hx.
  { unfold entries_have in *. rewrite Forall_app in H. destruct H as [? [? ?]%Forall_cons_iff]. by constructor. }
  destruct (insert_left_total names x p Hx) as [q Hq]. rewrite Hq. cbn. apply IH. unfold entries_have in *.
  rewrite (insert_left_perm _ _ _ _ Hq). cbn. by rewrite Permutation_middle.
Qed.

Lemma selectInstance_total (order : key_order) (rnd : Z -> Z) now s vs fb names :
  visits_once order -> (forall n, 0 < n -> 0 <= rnd n < n) -> selector_total names s -> vs <> ∅ ->
  (forall id iv, vs !! id = Some iv -> has_metrics names iv) ->
  exists sel s', selectInstance order rnd now s vs fb = Some (sel, s', vs) /\ selector_total names s'.
Proof using.
  intros Ho Hrnd Hs Hne Hv. pose proof (ranged_nonempty order vs Ho Hne) as Hr. destruct s as [k ns|last| |]; try done; cbn.
  - destruct Hs as [Hk Hns]. assert (entries_have ns (ranged order vs)) as He.
    { apply Forall_forall. intros [id iv] Hi%list_elem_of_In n Hn. apply (elem_of_ranged order vs id iv Ho) in Hi. apply (Hv _ _ Hi). by apply Hns. }
    assert (is_Some (if decide (k = 1) then best ns (ranged order vs) else randomChoiceFromTopK rnd k ns (ranged order vs))) as [r ->].
    { case_decide.
      - unfold best. destruct (ranged order vs) as [|e l]; [done|]. destruct (best_from_total ns e l He) as [x ->]. cbn. eauto.
      - unfold randomChoiceFromTopK, SliceStable. destruct (sort_from_total ns [] (ranged order vs) He) as [l Hl]. rewrite Hl. cbn.
        apply sort_from_perm in Hl. assert (length l > 0)%nat as Hlen.
        { apply Permutation_length in Hl. cbn in Hl. destruct (ranged order vs); [done|cbn in Hl; lia]. }
        rewrite decide_False by lia. set (kk := Z.min k (Z.of_nat (length l))). pose proof (Hrnd kk ltac:(lia)).
        destruct (lookup_lt_is_Some_2 l (Z.to_nat (rnd kk))) as [e ->]; [lia|]. cbn. eauto. }
    cbn. by eexists _, _.
  - destruct (vs !! last); [by eexists _, _|]. destruct (order (dom vs)); by eexists _, _.
Qed.

(** ** The views between the steps of a decision *)

Definition role_metrics (p : gmap string inferTypeBaseDispatchPolicy) (t : string) : list string :=
  match p !! t with Some pol => ib_metrics pol | None => [] end.

Lemma ready_union names a vs : ready names a -> ready names vs -> ready names (a ∪ vs).
Proof using. intros Ha Hv id iv [H|[_ H]]%lookup_union_Some_raw; [by eapply Ha|by eapply Hv]. Qed.

Lemma ready_marked names vs vs' : only_marked vs vs' -> ready names vs -> ready names vs'.
Proof using.
  intros M H id iv' Hi. destruct (only_marked_lookup _ _ _ _ M Hi) as (iv & b & Hv & ->). exact (H _ _ Hv).
Qed.

Lemma ready_subseteq names a vs : a ⊆ vs -> ready names vs -> ready names a.
Proof using. intros Hs H id iv Hi. eapply H, lookup_weaken; eauto. Qed.

Lemma group_ready names t vs id iv : ready names vs -> group_views t vs !! id = Some iv -> has_metrics (names t) iv.
Proof using. intros H [Hi <-]%map_lookup_filter_Some. by eapply H. Qed.

Lemma ready_names names names' vs : (forall t, names' t = names t) -> ready names vs -> ready names' vs.
Proof using. intros E H id iv Hi. rewrite E. by eapply H. Qed.

Lemma ready_sync names id c vs : ready names vs -> ready names (sync_view id c vs).
Proof using.
  intros H. unfold sync_view. destruct (CmsReadClient.GetInstanceViews c !! id) as [cv|]; [|done].
  intros i iv. rewrite lookup_alter. case_decide as E; [subst i|apply H]. destruct (vs !! id) as [jv|] eqn:Hj; [|done]. intros [= <-]. split; [by eexists|]. exact (proj2 (H _ _ Hj)).
Qed.

Lemma policy_total_update p t pol s :
  policy_total p -> p !! t = Some pol -> role_total pol -> selector_total (ib_metrics pol) s ->
  policy_total (<[t := with_selector s pol]> p) /\ forall t', role_metrics (<[t := with_selector s pol]> p) t' = role_metrics p t'.
Proof using.
  intros Hp Ht [Hm Hf Hg _] Hs. split.
  - intros t' Ht'. rewrite lookup_insert. case_decide; [|by apply Hp]. eexists. split; [done|]. by split.
  - intros t'. unfold role_metrics. rewrite lookup_insert. case_decide; [|done]. subst t'. by rewrite Ht.
Qed.

Definition env_ok (env : sched_env) : Prop :=
  visits_once (e_order env) /\ forall n, 0 < n -> 0 <= e_rnd env n < n.

Lemma policy_filter_ready env pol t vs fb names :
  env_ok env -> role_total pol -> ib_metrics pol = names t -> ready names vs ->
  exists av vs', policy_filter env pol (group_views t vs) vs fb = Some (av, vs') /\ ready names vs' /\
    forall id, id ∈ av -> exists iv, vs' !! id = Some iv /\ v_group iv = t.
Proof using.
  intros [Ho _] Hr Hn H.
  destruct (policy_filter_total env pol (group_views t vs) vs fb (names t) Ho Hr Hn) as (av & a & E & M & Hav).
  { intros id iv. by apply group_ready. }
  exists av, (a ∪ vs). split; [done|]. split.
  - apply ready_union; [|done]. eapply ready_marked; [exact M|]. eapply ready_subseteq; [|exact H]. apply map_filter_subseteq.
  - intros id Hid. apply Hav in Hid. rewrite <- (only_marked_dom _ _ M) in Hid. apply elem_of_dom in Hid as [iv' Hi].
    exists iv'. split; [by apply lookup_union_Some_l|]. destruct (only_marked_lookup _ _ _ _ M Hi) as (iv & b & Hv & ->).
    by apply map_lookup_filter_Some in Hv as [_ ?].
Qed.

Lemma executeSchedule_total env c p t vs :
  env_ok env -> EnableAdaptivePD c = false -> policy_total p -> t ∈ [InferTypePrefill; InferTypeDecode; InferTypeNeutral] ->
  ready (role_metrics p) vs ->
  exists sel p' vs', executeSchedule env c p t vs = Some (sel, p', vs') /\ policy_total p' /\ ready (role_metrics p') vs'.
Proof using.
  intros He Ha Hp Ht Hv. destruct (Hp t Ht) as (pol & Hpol & Hr). unfold executeSchedule, target_views. rewrite Ha, Hpol. cbn.
  assert (ib_metrics pol = role_metrics p t) as Hn by (unfold role_metrics; by rewrite Hpol).
  destruct (policy_filter_ready env pol t vs false _ He Hr Hn Hv) as (av & vs1 & -> & Hv1 & Hin). cbn.
  assert (exists av' vs2 fb, (if decide (av = ∅)
     then '(av, vs) ← policy_filter env pol (group_views t vs1) vs1 true; Some (av, vs, true)
     else Some (av, vs1, false)) = Some (av', vs2, fb) /\ ready (role_metrics p) vs2 /\
     forall id, id ∈ av' -> exists iv, vs2 !! id = Some iv /\ v_group iv = t) as (av' & vs2 & fb & -> & Hv2 & Hin2).
  { case_decide; [|by eexists _, _, _].
    destruct (policy_filter_ready env pol t vs1 true _ He Hr Hn Hv1) as (av2 & vs2 & -> & Hv2 & Hin2). cbn. by eexists _, _, _. }
  cbn. case_decide as Hav; [by eexists _, _, _|]. destruct He as [Ho Hrnd].
  destruct (selectInstance_total (e_order env) (e_rnd env) (e_now env) (ib_selectors pol) (filter (fun kv => kv.1 ∈ av') vs2) fb (ib_metrics pol))
    as (sel & s' & -> & Hs'); [done|done|apply Hr| | |].
  - apply set_choose_L in Hav as [id Hid]. destruct (Hin2 id Hid) as (iv & Hi & _). intros E.
    apply (f_equal (lookup id)) in E. rewrite lookup_empty, (proj2 (map_lookup_filter_Some _ _ id iv)) in E; done.
  - intros id iv [Hi Hid]%map_lookup_filter_Some. destruct (Hin2 id Hid) as (jv & Hj & <-). rewrite Hn.
    assert (jv = iv) as -> by congruence. by eapply Hv2.
  - cbn. destruct (policy_total_update p t pol s' Hp Hpol Hr Hs') as [Hp' En]. eexists _, _, _. split; [done|]. split; [done|].
    apply (ready_names (role_metrics p)); [done|]. apply ready_union; [|done]. eapply ready_subseteq; [|exact Hv2]. apply map_filter_subseteq.
Qed.

(** ** [schedule] *)

Definition known_roles (cl : clusterViewScheduling) : Prop :=
  (forall t, t ∈ cl_groups cl -> t ∈ [InferTypePrefill; InferTypeDecode; InferTypeNeutral]) /\
  forall id iv, cl_views cl !! id = Some iv ->
    is_Some (cmsView iv) /\ v_group iv ∈ [InferTypePrefill; InferTypeDecode; InferTypeNeutral].

(** The configurations without the predictor and without adaptive PD. *)
Definition plain (c : SchedulerConfig) : Prop :=
  EnableFullModeScheduling c = true /\ EnableAdaptivePD c = false /\ EnablePredictorEnhancedScheduling c = false.

Lemma lookup_prefix_cache_roles env req d cl d' cl' :
  lookup_prefix_cache env req d cl = (d', cl') -> known_roles cl ->
  dp_config d' = dp_config d /\ dp_policy d' = dp_policy d /\ known_roles cl'.
Proof using.
  intros E Hr. pose proof Hr as [Hg Hv]. unfold lookup_prefix_cache in E. destruct (_ && _); [|by injection E as <- <-].
  destruct (e_hash env _) as [hashes|]; [|by injection E as <- <-].
  unfold getInstancesPrefixCacheHitLen in E. destruct (IsKVSMetadataServiceDown _ _) as [down k].
  destruct down; [by injection E as <- <-|]. destruct (BatchQueryCacheHitKVSInstances _ _ _ _ _) as [hits k'].
  destruct (calcInstancesPrefixCacheHitLen _ _ _) as [lens|]; [|by injection E as <- <-]. injection E as <- <-.
  split; [done|]. split; [done|]. split; [done|]. intros id iv. cbn. rewrite map_lookup_imap.
  destruct (cl_views cl !! id) as [jv|] eqn:Hj; [|done]. destruct (Hv _ _ Hj). cbn. destruct (lens !! id); intros [= <-]; done.
Qed.

Lemma calculate_groups_total env c p req cl :
  plain c -> policy_total p -> known_roles cl ->
  exists cl', calculate_groups env c p req cl = Some cl' /\ cl_groups cl' = cl_groups cl /\ ready (role_metrics p) (cl_views cl').
Proof using.
  intros (Hf & _ & _) Hp [Hg Hv]. unfold calculate_groups. rewrite decide_True.
  2:{ intros t Ht. destruct (Hp t (Hg t Ht)) as (pol & -> & _). eauto. }
  assert (forall id iv, cl_views cl !! id = Some iv -> exists pol iv', p !! v_group iv = Some pol /\
    calculate_one c (e_now env id) (Some req) (ib_metrics pol) iv = Some iv' /\ has_metrics (role_metrics p (v_group iv')) iv') as H.
  { intros id iv Hi. destruct (Hv _ _ Hi) as [Hc Hr]. destruct (Hp _ Hr) as (pol & Hpol & Hrole).
    destruct (calculate_one_total c (e_now env id) (Some req) (ib_metrics pol) iv Hf (rt_metrics _ Hrole) Hc) as (iv' & E & Ec & Eg & _ & Ha).
    exists pol, iv'. split; [done|]. split; [done|]. unfold has_metrics, role_metrics. by rewrite Ec, Eg, Hpol. }
  destruct (map_traverse_total (fun id iv => pol ← p !! v_group iv; calculate_one c (e_now env id) (Some req) (ib_metrics pol) iv)
    (cl_views cl)) as [vs E].
  { intros id iv Hi. destruct (H _ _ Hi) as (pol & iv' & -> & E & _). cbn. eauto. }
  rewrite E. cbn. eexists. split; [done|]. split; [done|]. intros id iv' Hi. cbn in Hi.
  pose proof (map_traverse_lookup _ _ _ E id) as Hl. rewrite Hi in Hl. destruct (cl_views cl !! id) as [iv|] eqn:Hiv; [|done].
  destruct (H _ _ Hiv) as (pol & iv2 & Hpol & E2 & Hm). rewrite Hpol in Hl. cbn in Hl. congruence.
Qed.

(** What a decision keeps. *)
Record going (c : SchedulerConfig) (d : DispatchPolicy) (vs : gmap string instanceViewScheduling) : Prop := mk_going {
  go_config : dp_config d = c;
  go_policy : policy_total (dp_policy d);
  go_views : ready (role_metrics (dp_policy d)) vs
}.

Lemma select_role_total env c need t d vs :
  env_ok env -> plain c -> t ∈ [InferTypePrefill; InferTypeDecode; InferTypeNeutral] -> going c d vs ->
  exists sel d' vs', select_role env need t d vs = Some (sel, d', vs') /\ going c d' vs'.
Proof using.
  intros He (_ & Ha & _) Ht [Hc Hp Hv]. unfold select_role. destruct need; [|by eexists _, _, _].
  rewrite Hc. destruct (executeSchedule_total env c _ t vs He Ha Hp Ht Hv) as (sel & p' & vs' & -> & Hp' & Hv'). cbn.
  eexists _, _, _. split; [done|]. by split.
Qed.

Lemma add_account_going env c t n r id d vs :
  going c d vs -> going c (fst (add_account env t n r id (d, vs))) (snd (add_account env t n r id (d, vs))).
Proof using.
  intros [Hc Hp Hv]. unfold add_account. destruct (EnableInstanceStatusLocalAccount _); [|by split].
  split; [done..|]. by apply ready_sync.
Qed.

Lemma schedule_total env req d cl :
  env_ok env -> plain (dp_config d) -> policy_total (dp_policy d) -> known_roles cl ->
  exists sel d' vs', schedule env req d cl = Some (sel, d', vs').
Proof using.
  intros He Hc Hp Hr. unfold schedule. destruct (lookup_prefix_cache env req d cl) as [d1 cl1] eqn:E.
  destruct (lookup_prefix_cache_roles _ _ _ _ _ _ E Hr) as (Ec & Ep & Hr1). rewrite <- Ec in Hc. rewrite <- Ep in Hp.
  set (n := if EnableInstanceStatusLocalAccount (dp_config d1) then _ else _).
  unfold predict_prefills. rewrite (proj2 (proj2 Hc)). cbn [mbind option_bind].
  destruct (calculate_groups_total env _ _ req cl1 Hc Hp Hr1) as (cl2 & -> & _ & Hv). cbn [mbind option_bind].
  assert (going (dp_config d1) d1 (cl_views cl2)) as G by by split.
  case_decide.
  { case_decide; [|by eexists _, _, _].
    destruct (select_role_total env _ true InferTypeNeutral d1 _ He Hc ltac:(set_solver) G) as (sel & d2 & vs2 & -> & _).
    cbn [mbind option_bind]. destruct sel as [id|]; [|by eexists _, _, _].
    destruct (add_account _ _ _ _ _ _). by eexists _, _, _. }
  case_decide; [by eexists _, _, _|].
  destruct (select_role_total env _ (needs req SchedulingStagePrefill) InferTypePrefill d1 _ He Hc ltac:(set_solver) G)
    as (pre & d2 & vs2 & -> & G2). cbn [mbind option_bind].
  set (st := match pre with Some id => add_account env InferTypePrefill n (sr_Id req) id (d2, vs2) | None => (d2, vs2) end).
  assert (going (dp_config d1) (fst st) (snd st)) as G3 by (unfold st; destruct pre; [by apply add_account_going|done]).
  destruct st as [d3 vs3].
  destruct (select_role_total env _ (needs req SchedulingStageDecode) InferTypeDecode d3 vs3 He Hc ltac:(set_solver) G3)
    as (dec & d4 & vs4 & -> & G4). cbn [mbind option_bind].
  destruct (if needs req SchedulingStageDecode then _ else _) as [d5 vs5]. by eexists _, _, _.
Qed.

(** ** Runs *)

Lemma selectInstance_selector (order : key_order) rnd now s vs fb sel s' vs' names :
  selectInstance order rnd now s vs fb = Some (sel, s', vs') -> selector_total names s -> selector_total names s'.
Proof using.
  destruct s as [k ns|last| |]; cbn; try done.
  - destruct (if decide (k = 1) then _ else _); [|done]. by intros [= _ <- _].
  - destruct (vs !! last); [by intros [= _ <- _]|]. destruct (order (dom vs)); by intros [= _ <- _].
Qed.

Lemma executeSchedule_policy env c p t vs sel p' vs' :
  executeSchedule env c p t vs = Some (sel, p', vs') -> t ∈ [InferTypePrefill; InferTypeDecode; InferTypeNeutral] ->
  policy_total p -> policy_total p'.
Proof using.
  intros E Ht Hp. unfold executeSchedule in E. destruct (Hp t Ht) as (pol & Hpol & Hr). rewrite Hpol in E. cbn in E.
  destruct (policy_filter env pol _ vs false) as [[av vs1]|]; [|done]. cbn in E.
  destruct (if decide (av = ∅) then _ else _) as [[[av' vs2] fb]|]; [|done]. cbn in E. case_decide; [by injection E as _ <- _|].
  destruct (selectInstance _ _ _ _ _ _) as [[[o s] cand]|] eqn:Es; [|done]. cbn in E. injection E as _ <- _.
  apply policy_total_update; [done..|]. eapply selectInstance_selector; [exact Es|]. apply Hr.
Qed.

Lemma select_role_policy env need t d vs sel d' vs' :
  select_role env need t d vs = Some (sel, d', vs') -> t ∈ [InferTypePrefill; InferTypeDecode; InferTypeNeutral] ->
  policy_total (dp_policy d) -> policy_total (dp_policy d').
Proof using.
  unfold select_role. destruct need; [|by intros [= _ <- _]].
  destruct (executeSchedule _ _ _ _ _) as [[[o p] vs1]|] eqn:E; [|done]. intros [= _ <- _] Ht Hp. by eapply executeSchedule_policy.
Qed.

Lemma add_account_policy env t n r id st : dp_policy (fst (add_account env t n r id st)) = dp_policy (fst st).
Proof using. destruct st. unfold add_account. by destruct (EnableInstanceStatusLocalAccount _). Qed.

Lemma revert_account_policy n r id st : dp_policy (fst (revert_account n r id st)) = dp_policy (fst st).
Proof using. destruct st. unfold revert_account. by destruct (EnableInstanceStatusLocalAccount _). Qed.

Lemma schedule_policy env req d cl sel d' vs' :
  schedule env req d cl = Some (sel, d', vs') -> policy_total (dp_policy d) -> policy_total (dp_policy d').
Proof using.
  intros E Hp. unfold schedule in E. destruct (lookup_prefix_cache env req d cl) as [d1 cl1] eqn:El.
  assert (dp_policy d1 = dp_policy d) as Ep.
  { unfold lookup_prefix_cache in El. destruct (_ && _); [|by injection El as <- _]. destruct (e_hash env _); [|by injection El as <- _].
    destruct (getInstancesPrefixCacheHitLen _ _ _ _ _ _ _ _ _). by injection El as <- _. }
  rewrite <- Ep in Hp. clear El Ep. set (n := if EnableInstanceStatusLocalAccount (dp_config d1) then _ else _) in E.
  destruct (predict_prefills env d1 cl1) as [cl2|]; [|done]. cbn [mbind option_bind] in E.
  destruct (calculate_groups env _ _ req cl2) as [cl3|]; [|done]. cbn [mbind option_bind] in E. case_decide.
  { case_decide; [|by injection E as _ <- _].
    destruct (select_role env true _ _ _) as [[[o d2] vs2]|] eqn:Es; [|done]. cbn [mbind option_bind] in E.
    apply select_role_policy in Es; [|set_solver|done]. destruct o as [id|]; [|by injection E as _ <- _].
    pose proof (add_account_policy env InferTypeNeutral n (sr_Id req) id (d2, vs2)) as Ha.
    destruct (add_account _ _ _ _ _ _) as [d3 vs3]. injection E as _ <- _. cbn [fst] in Ha. by rewrite Ha. }
  case_decide; [by injection E as _ <- _|].
  destruct (select_role env _ InferTypePrefill d1 _) as [[[pre d2] vs2]|] eqn:Es; [|done]. cbn [mbind option_bind] in E.
  apply select_role_policy in Es; [|set_solver|done].
  set (st := match pre with Some id => add_account env InferTypePrefill n (sr_Id req) id (d2, vs2) | None => (d2, vs2) end) in E.
  assert (policy_total (dp_policy (fst st))) as H3 by (unfold st; destruct pre; [by rewrite add_account_policy|done]).
  destruct st as [d3 vs3]. destruct (select_role env _ InferTypeDecode d3 _) as [[[dec d4] vs4]|] eqn:Es'; [|done].
  cbn [mbind option_bind] in E. apply select_role_policy in Es'; [|set_solver|done].
  set (fin := if needs req SchedulingStageDecode then _ else _) in E. assert (policy_total (dp_policy (fst fin))) as Hfin.
  { unfold fin. destruct (needs req SchedulingStageDecode); [|done].
    destruct dec; [by rewrite add_account_policy|]. destruct pre; [by rewrite revert_account_policy|done]. }
  destruct fin. by injection E as _ <- _.
Qed.

Lemma dispatch_steps_total `{PC : ProtoCodec, LS : LeastSquares} d d' :
  rtc dispatch_step d d' -> policy_total (dp_policy d) -> policy_total (dp_policy d').
Proof using.
  induction 1 as [|d d1 d2 H _ IH]; [done|]. intros Hp. apply IH. destruct H as [env req lrs x r x' Ho E|r x|cm x H].
  - unfold Schedule in E. destruct (_ && _); [by injection E as _ <-|].
    destruct (schedule _ _ _ _) as [[[sel d3] vs]|] eqn:Es; [|done]. cbn in E. apply schedule_policy in Es; [|done].
    destruct sel; by injection E as _ <-.
  - unfold ReleaseRequestLocalAccount. by destruct (negb _).
  - done.
Qed.

End totality.

(** ** Policies built by the registry *)

Lemma metric_or_in allowed fallback name : fallback ∈ allowed -> metric_or allowed fallback name ∈ allowed.
Proof. unfold metric_or. by case_match; simplify_eq; try case_decide. Qed.

Lemma policy_total_roles prefill decode neutral :
  role_total prefill -> role_total decode -> role_total neutral ->
  policy_total (<[InferTypePrefill := prefill]> (<[InferTypeDecode := decode]> {[InferTypeNeutral := neutral]})).
Proof.
  intros Hp Hd Hn t. rewrite !elem_of_cons, elem_of_nil. intros [->|[->|[->|[]]]].
  - exists prefill. split; [by rewrite lookup_insert_eq|done].
  - exists decode. split; [rewrite lookup_insert_ne by discriminate; by rewrite lookup_insert_eq|done].
  - exists neutral. split; [|done]. rewrite !lookup_insert_ne by discriminate. by rewrite lookup_singleton_eq.
Qed.

(** A role that ranks by the metrics it computes. *)
Lemma role_total_ranked names dom secs metric thr k :
  (forall n, n ∈ names -> n ∈ fullModeSchedulingMetricSet) -> metric ∈ names -> dom ∈ failover_domains -> 1 <= k ->
  role_total (mkInferTypePolicy names [failoverFilter dom]
    [schedulabilityFilter; stalenessFilter secs; metricBasedFilter metric thr false] (metricBasedSelector k names)).
Proof.
  intros Hn Hm Hd Hk. split; cbn.
  - done.
  - intros f. rewrite !elem_of_cons, elem_of_nil. by intros [->|[->|[->|[]]]].
  - by exists dom.
  - done.
Qed.

Lemma role_total_fixed dom secs last :
  dom ∈ failover_domains ->
  role_total (mkInferTypePolicy [] [failoverFilter dom] [schedulabilityFilter; stalenessFilter secs] (fixedPreferenceSelector last)).
Proof.
  intros Hd. split; cbn.
  - by intros n Hn%elem_of_nil.
  - intros f. rewrite !elem_of_cons, elem_of_nil. by intros [->|[->|[]]].
  - by exists dom.
  - done.
Qed.

(** What the configuration must give. *)
Record config_total (c : SchedulerConfig) : Prop := mk_config_total {
  ct_policy : SchedulingPolicy c ∈ [SchedulingPolicyLoadBalance; SchedulingPolicyFlood];
  ct_plain : plain c;
  ct_topK : 1 <= DispatchTopK c;
  ct_domain : FailoverDomain c ∈ failover_domains;
  ct_locality : EnableCacheAwareScheduling c = true -> DispatchPrefillCacheLocalityMetric c ∈ fullModeSchedulingMetricSet
}.

Lemma metric_factory_name n m : metric_factory n = Some m -> m = n.
Proof. unfold metric_factory. case_decide; [|done]. by intros [= <-]. Qed.

Ltac fixed_in := refine (bool_decide_unpack _ _); vm_compute; exact I.

Ltac names_in := first [done | by left | by right; left | by intros ? [->|[->|[]%elem_of_nil]%elem_of_cons]%elem_of_cons
  | by intros ? [->|[]%elem_of_nil]%elem_of_cons].

Lemma registry_total c cms kvs d :
  config_total c -> NewDispatchPolicy c cms kvs = Some d -> policy_total (dp_policy d) /\ plain (dp_config d).
Proof.
  intros [Hpol (Hf & Ha & He) Hk Hd Hl]. unfold NewDispatchPolicy, verifyConfig. destruct (negb (verifySchedulingPolicy c)); [done|]. cbn.
  unfold verifySchedulingFeature. rewrite Hf. cbn. unfold verifyDispatchLoadMetric. rewrite Hf. cbn.
  set (c1 := with_load_metrics _ _ _ c). destruct (newDispatchPolicyInternal c1) as [p|] eqn:E; [|done]. cbn.
  intros [= <-]. split; [|done]. cbn [dp_policy]. unfold newDispatchPolicyInternal in E.
  change (SchedulingPolicy c1) with (SchedulingPolicy c) in E. change (EnableFullModeScheduling c1) with (EnableFullModeScheduling c) in E.
  rewrite Hf in E. rewrite !elem_of_cons, elem_of_nil in Hpol. destruct Hpol as [Hpol|[Hpol|[]]]; rewrite Hpol in E.
  2:{ rewrite decide_False, decide_True in E by (done || discriminate). injection E as <-. apply policy_total_roles; by apply role_total_fixed. }
  rewrite decide_True in E by done. unfold newLoadBalanceDispatchFullMode in E.
  destruct (metric_factory (DispatchPrefillLoadMetric c1)) as [mp|] eqn:Ep; [|done]. cbn [mbind option_bind] in E.
  destruct (metric_factory (DispatchDecodeLoadMetric c1)) as [md|] eqn:Ed; [|done]. cbn [mbind option_bind] in E.
  destruct (metric_factory (DispatchNeutralLoadMetric c1)) as [mn|] eqn:En; [|done]. cbn [mbind option_bind] in E.
  apply metric_factory_name in Ep, Ed, En.
  assert (mp ∈ fullModeSchedulingMetricSet) as Hp by (rewrite Ep; apply metric_or_in; fixed_in).
  assert (md ∈ fullModeSchedulingMetricSet) as Hmd by (rewrite Ed; apply metric_or_in; fixed_in).
  assert (mn ∈ fullModeSchedulingMetricSet) as Hn by (rewrite En; apply metric_or_in; fixed_in).
  change (EnableCacheAwareScheduling c1) with (EnableCacheAwareScheduling c) in E. destruct (EnableCacheAwareScheduling c).
  - destruct (metric_factory (DispatchPrefillCacheLocalityMetric c1)) as [mc|] eqn:Ec; [|done].
    apply metric_factory_name in Ec. specialize (Hl eq_refl). change (DispatchPrefillCacheLocalityMetric c) with
      (DispatchPrefillCacheLocalityMetric c1) in Hl. rewrite <- Ec in Hl. injection E as <-.
    apply policy_total_roles; apply role_total_ranked; names_in.
  - injection E as <-. apply policy_total_roles; apply role_total_ranked; names_in.
Qed.

(** ** Theorems *)

(** C29. Dispatch always answers: with the load-balance or flood policy in full mode,
    without the predictor and adaptive PD, top-k at least one, a known failover domain
    and a locality metric of the full mode, every request on every state reached by
    requests, releases and refreshes gets a result or an error, never a nil dereference
    on a missing metric, group or status, as long as the CMS reports known roles. *)
Theorem dispatch_total `{LP : LatencyPredictor, PC : ProtoCodec, LS : LeastSquares} c cms kvs d0 d env req lrs :
  NewDispatchPolicy c cms kvs = Some d0 -> config_total c -> rtc dispatch_step d0 d ->
  env_ok env -> known_roles (cluster_of_cms (dp_cms d)) ->
  exists r d', Schedule env req lrs d = Some (r, d').
Proof.
  intros Hnew Hc Hrun He Hr. destruct (registry_total _ _ _ _ Hc Hnew) as [Hp Hplain].
  assert (safe_policy (dp_config d0) (dp_policy d0)) as Hs.
  { unfold NewDispatchPolicy in Hnew. destruct (verifyConfig c) as [c1|]; [|done]. cbn in Hnew.
    destruct (newDispatchPolicyInternal c1) as [p|] eqn:E; [|done]. cbn in Hnew. inv_some. apply registry_safe; [apply Hplain|done]. }
  destruct (dispatch_steps_safe _ _ Hrun (proj1 Hplain) Hs) as [Ec _]. apply dispatch_steps_total in Hrun; [|done].
  rewrite <- Ec in Hplain. unfold Schedule. rewrite (proj1 Hplain). cbn [andb]. destruct (negb _); [eauto|].
  destruct (schedule_total env req d (cluster_of_cms (dp_cms d)) He Hplain Hrun Hr) as (sel & d' & vs & ->). cbn.
  destruct sel; eauto.
Qed.

Lemma dispatch_total_witness :
  exists d r d', demo_dispatch SchedulingPolicyLoadBalance false [("p1", "x"); ("d1", "x")] = Some d /\
    Schedule (LP := demo_predictor) demo_env (demo_request SchedulingModePDBatch) (NewLocalRealtimeStateClient false) d = Some (r, d').
Proof.
  destruct (demo_dispatch SchedulingPolicyLoadBalance false [("p1", "x"); ("d1", "x")]) as [d|] eqn:Hd;
    [|vm_compute in Hd; discriminate].
  destruct (dispatch_total (LP := demo_predictor) (PC := role_codec) (LS := demo_solver)
    (demo_config SchedulingPolicyLoadBalance false) (cluster_client [("p1", "x"); ("d1", "x")]) (newKVSClient 0 3 30)
    d d demo_env (demo_request SchedulingModePDBatch) (NewLocalRealtimeStateClient false) Hd) as (r & d' & H).
  - split; [fixed_in|done|done|fixed_in|done].
  - apply rtc_refl.
  - split; [exact elements_visits|]. cbn. lia.
  - assert (dp_cms d = cluster_client [("p1", "x"); ("d1", "x")]) as -> by (vm_compute in Hd; injection Hd as <-; reflexivity).
    split.
    + assert (set_Forall (fun t => t ∈ [InferTypePrefill; InferTypeDecode; InferTypeNeutral])
        (cl_groups (cluster_of_cms (cluster_client [("p1", "x"); ("d1", "x")])))) as H by fixed_in. exact H.
    + assert (map_Forall (fun _ iv => is_Some (cmsView iv) /\ v_group iv ∈ [InferTypePrefill; InferTypeDecode; InferTypeNeutral])
        (cl_views (cluster_of_cms (cluster_client [("p1", "x"); ("d1", "x")])))) as H by fixed_in. exact H.
  - exists d, r, d'. split; [reflexivity|exact H].
Defined.

Lemma schedule_unknown_group `{LP : LatencyPredictor} env req d cl t :
  t ∈ cl_groups cl -> dp_policy d !! t = None -> schedule env req d cl = None.
Proof.
  intros Ht Hp. unfold schedule. destruct (lookup_prefix_cache env req d cl) as [d1 cl1] eqn:E.
  assert (dp_policy d1 = dp_policy d /\ cl_groups cl1 = cl_groups cl) as [Ep Eg].
  { unfold lookup_prefix_cache in E. destruct (_ && _); [|by injection E as <- <-]. destruct (e_hash env _); [|by injection E as <- <-].
    destruct (getInstancesPrefixCacheHitLen _ _ _ _ _ _ _ _ _). by injection E as <- <-. }
  assert (forall cl2, predict_prefills env d1 cl1 = Some cl2 -> cl_groups cl2 = cl_groups cl) as H2.
  { intros cl2. unfold predict_prefills. destruct (EnablePredictorEnhancedScheduling _); [|by intros [= <-]].
    destruct (predictNumComputedPrefillTokens _ _ _ _ _); [|done]. by intros [= <-]. }
  destruct (predict_prefills env d1 cl1) as [cl2|]; [|done]. cbn [mbind option_bind].
  unfold calculate_groups. rewrite decide_False; [done|]. intros H. rewrite (H2 _ eq_refl), Ep in H.
  destruct (H t Ht) as [pol Hpol]. congruence.
Qed.

(** The SLO policy has no entry for neutral instances: while one neutral instance is
    in the CMS, every request panics, also one that asks for prefill and decode. *)
Theorem slo_panics_on_neutral_instance `{LP : LatencyPredictor} c cms kvs d env req lrs :
  NewDispatchPolicy c cms kvs = Some d -> EnableFullModeScheduling c = true -> SchedulingPolicy c = SchedulingPolicySlo ->
  isAlive cms = true -> InferTypeNeutral ∈ dom (groupedInstanceViews cms) -> Schedule env req lrs d = None.
Proof.
  intros Hnew Hf Hslo Ha Hn. unfold NewDispatchPolicy, verifyConfig in Hnew. destruct (negb (verifySchedulingPolicy c)); [done|].
  cbn in Hnew. unfold verifySchedulingFeature, verifyDispatchLoadMetric in Hnew. rewrite Hf in Hnew. cbn in Hnew. rewrite Hf in Hnew.
  cbn in Hnew. unfold newDispatchPolicyInternal in Hnew. cbn in Hnew. rewrite Hslo in Hnew.
  rewrite !decide_False, decide_True in Hnew by (done || discriminate). injection Hnew as <-.
  unfold Schedule. cbn [dp_config dp_cms EnableFullModeScheduling with_load_metrics]. cbn. rewrite Hf, Ha. cbn [negb andb].
  rewrite (schedule_unknown_group _ _ _ _ InferTypeNeutral); [done|exact Hn|].
  cbn [dp_policy]. unfold newSloDispatchFullMode. destruct (EnableAdaptivePD _); cbn; by rewrite !lookup_insert_ne.
Qed.

Lemma slo_panics_on_neutral_instance_witness :
  exists d, demo_dispatch SchedulingPolicySlo false [("n1", "x"); ("p1", "x"); ("d1", "x")] = Some d /\
    Schedule (LP := demo_predictor) demo_env (demo_request SchedulingModePDBatch) (NewLocalRealtimeStateClient false) d = None.
Proof.
  destruct (demo_dispatch SchedulingPolicySlo false [("n1", "x"); ("p1", "x"); ("d1", "x")]) as [d|] eqn:Hd;
    [|vm_compute in Hd; discriminate].
  exists d. split; [reflexivity|].
  apply (slo_panics_on_neutral_instance (LP := demo_predictor) (demo_config SchedulingPolicySlo false)
    (cluster_client [("n1", "x"); ("p1", "x"); ("d1", "x")]) (newKVSClient 0 3 30) d); [exact Hd|reflexivity..|fixed_in].
Defined.

(** Adaptive PD under the load-balance policy: the instances of every group are
    candidates for both roles, but only the metric of their own group was computed; with
    different metrics for prefill and decode a request for both panics. *)
Theorem load_balance_adaptive_pd_panics :
  exists d, demo_dispatch SchedulingPolicyLoadBalance true [("p1", "x"); ("d1", "x")] = Some d /\
    Schedule (LP := demo_predictor) demo_env (demo_request SchedulingModePDBatch) (NewLocalRealtimeStateClient false) d = None.
Proof. eexists. split; [vm_compute; reflexivity|]. vm_compute. reflexivity. Qed.

(** A request for prefill and decode while no decode instance can serve: the load of
    the prefill instance is given back, yet the request succeeds with the prefill
    instance alone. *)
Theorem pd_batch_partial_result :
  exists d d', demo_dispatch SchedulingPolicyLoadBalance false [("p1", "x"); ("d1", "u")] = Some d /\
    (exists i, Schedule (LP := demo_predictor) demo_env (demo_request SchedulingModePDBatch) (NewLocalRealtimeStateClient false) d
       = Some (Ok [i], d') /\ InstInferType i = InferTypePrefill) /\
    (NumUncomputedTokensInflightDispatchPrefillRequests ∘ cv_LocalAccount <$> CmsReadClient.GetInstanceViews (dp_cms d') !! "p1")
      = Some 0.
Proof.
  eexists _, _. split; [vm_compute; reflexivity|]. split.
  - eexists. split; [vm_compute; reflexivity|reflexivity].
  - vm_compute. reflexivity.
Qed.
