(* ===== verification/Rescheduling.v ===== *)
(** * Rescheduling

    [pkg/scheduler/policy/rescheduling_policy.go], [rescheduling_selectors.go] and
    [rescheduling_policy_registry.go]: on every tick the policies choose pairs of a
    source and a destination instance between which requests are migrated.

    A candidate is an entry of the instance views, its key and its view. [order] is the
    iteration order of maps, [now i] the clock while the [i]-th policy runs; [None] is a
    panic. The gRPC call of a migration is outside the model, the request it sends is
    [migrate_request]. [aggregateSelector] is used by no policy and is left out. *)

From stdpp Require Import base gmap sets list strings numbers.
From S2P Require Import Prelude GoStrings GoFloat Types CmsTypes LocalAccount Lrs LrsSpec LrsClient Metrics Filters Selectors Predictor PrefixCache CmsReadClient Dispatch Registry.

Local Open Scope Z_scope.

Definition ReschedulingPolicyNeutralLoad := "neutral_load".
Definition ReschedulingPolicyDecodeLoad := "decode_load".
Definition ReschedulingPolicyPrefillFailover := "prefill_failover".
Definition ReschedulingPolicyDecodeFailover := "decode_failover".
Definition ReschedulingPolicyNeutralFailover := "neutral_failover".
Definition ReschedulingPolicyBinPackingMitigation := "binpacking_mitigation".
Definition ReschedulingPolicyBinPackingConsolidation := "binpacking_consolidation".
Definition ReschedulingLoadBalanceScopeCluster := "cluster".
Definition ReschedulingLoadBalanceScopeUnit := "unit".
Definition MigrationReqSelectRuleNumReq := "NUM_REQ".
Definition MigrationReqSelectRuleToken := "TOKEN".
Definition MigrationReqSelectRuleRatio := "RATIO".
Definition MigrationReqSelectOrderLCR := "LCR".
Definition MigrationReqSelectOrderLR := "LR".

(** ** Pairs *)

Record reschedulingPair := mkPair {
  srcView : string * instanceViewScheduling;
  dstView : string * instanceViewScheduling;
  reqSelectRule : string;
  reqSelectOrder : string;
  reqSelectValue : float;
  triggerPolicy : string
}.

Definition pair_of (src dst : string * instanceViewScheduling) : reschedulingPair := mkPair src dst "" "" f_zero "".

Definition id_of (e : string * instanceViewScheduling) : string := v_id e.2.

Definition conflict (rp rp2 : reschedulingPair) : bool :=
  bool_decide (id_of (srcView rp) = id_of (dstView rp2)) && bool_decide (id_of (dstView rp) = id_of (srcView rp2)).

(** ** [sort.SliceStable] with a comparison that may panic *)

Section sort_by.
Context {A : Type} (less : A -> A -> option bool).

Fixpoint insert_by (x : A) (prefix : list A) : option (list A) :=
  match prefix with
  | [] => Some [x]
  | y :: rest =>
      lt ← less x y;
      if (lt : bool) then rest' ← insert_by x rest; Some (y :: rest') else Some (x :: y :: rest)
  end.

Fixpoint sort_prefix (prefix l : list A) : option (list A) :=
  match l with
  | [] => Some (reverse prefix)
  | x :: l => prefix ← insert_by x prefix; sort_prefix prefix l
  end.

Definition sort_by (l : list A) : option (list A) := sort_prefix [] l.

End sort_by.

(** ** Selectors *)

Abbreviation entries := (list (string * instanceViewScheduling)) (only parsing).

Definition load_of (name : string) (e : string * instanceViewScheduling) : option metric := metrics (v_ctx e.2) !! name.

Definition src_before (name : string) (a b : string * instanceViewScheduling) : option bool :=
  ma ← load_of name a; mb ← load_of name b;
  Some (if Less ma mb then false else if Less mb ma then true else String.ltb (id_of a) (id_of b)).

Definition dst_before (name : string) (a b : string * instanceViewScheduling) : option bool :=
  ma ← load_of name a; mb ← load_of name b;
  Some (if Less ma mb then true else if Less mb ma then false else String.ltb (id_of a) (id_of b)).

Fixpoint pair_loop (srcMetric dstMetric : string) (force : bool) (srcs dsts : entries) : option (list reschedulingPair) :=
  match srcs, dsts with
  | s :: srcs, d :: dsts =>
      stop ← (if force then ms ← load_of srcMetric s; md ← load_of dstMetric d; Some (negb (Less md ms)) else Some false);
      if (stop : bool) then Some []
      else rest ← pair_loop srcMetric dstMetric force srcs dsts; Some (pair_of s d :: rest)
  | _, _ => Some []
  end.

Definition pairLists (srcMetric dstMetric : string) (force : bool) (srcs dsts : entries) : option (list reschedulingPair) :=
  srcs ← sort_by (src_before srcMetric) srcs;
  dsts ← sort_by (dst_before dstMetric) dsts;
  pair_loop srcMetric dstMetric force srcs dsts.

(** The candidates with a unit id; a candidate without CMS view is a panic. *)
Definition unit_of (e : string * instanceViewScheduling) : option string := cv ← cmsView e.2; Some (md_UnitId (cv_Metadata cv)).

Definition in_unit (u : string) (l : entries) : entries := filter (fun e => unit_of e = Some u) l.

Definition units (l : entries) : option (gset string) :=
  us ← mapM unit_of l; Some (list_to_set (filter (fun u => u <> "") us)).

Definition unit_pairs (order : key_order) (srcMetric dstMetric : string) (force : bool) (srcs dsts : entries)
    : option (list reschedulingPair) :=
  srcUnits ← units srcs;
  dstUnits ← units dsts;
  pss ← mapM (fun u => pairLists srcMetric dstMetric force (in_unit u srcs) (in_unit u dsts))
          (filter (fun u => u ∈ dstUnits) (order srcUnits));
  Some (concat pss).

Definition by_id (a b : string * instanceViewScheduling) : option bool := Some (String.ltb (id_of a) (id_of b)).

(** The [i]-th source with the destination at [i] modulo the number of destinations. *)
Definition round_robin (srcs dsts : entries) : list reschedulingPair :=
  omap id (imap (fun i s =>
    d ← dsts !! (i mod length dsts)%nat;
    if decide (id_of s = id_of d) then None else Some (pair_of s d)) srcs).

Fixpoint max_tpot (selected : option (string * instanceViewScheduling)) (l : entries)
    : option (option (string * instanceViewScheduling)) :=
  match l with
  | [] => Some selected
  | e :: l =>
      match selected with
      | None => max_tpot (Some e) l
      | Some s =>
          ms ← load_of SchedulingMetricPredictedTpot s; me ← load_of SchedulingMetricPredictedTpot e;
          max_tpot (Some (if Less ms me then e else s)) l
      end
  end.

Fixpoint consolidation_dst (selected : option (string * instanceViewScheduling)) (l : entries)
    : option (option (string * instanceViewScheduling)) :=
  match l with
  | [] => Some selected
  | e :: l =>
      match selected with
      | None => consolidation_dst (Some e) l
      | Some s =>
          cv ← cmsView e.2;
          if decide (cv_ReservedInferType cv = InferTypeDecode) then Some (Some e)
          else
            me ← load_of SchedulingMetricPredictedTpot e; ms ← load_of SchedulingMetricPredictedTpot s;
            consolidation_dst (Some (if negb (Less me ms) then e else s)) l
      end
  end.

Fixpoint consolidation_src (dst : string * instanceViewScheduling) (selected : option (string * instanceViewScheduling)) (l : entries)
    : option (option (string * instanceViewScheduling)) :=
  match l with
  | [] => Some selected
  | e :: l =>
      if decide (id_of e = id_of dst) then consolidation_src dst selected l
      else
        match selected with
        | None => consolidation_src dst (Some e) l
        | Some s =>
            me ← load_of SchedulingMetricPredictedTpot e; ms ← load_of SchedulingMetricPredictedTpot s;
            consolidation_src dst (Some (if Less me ms then e else s)) l
        end
  end.

Inductive reschedulingSelector :=
  | metricBalanceSelector (srcMetric dstMetric : string) (forceHigherToLower : bool) (balanceScope : string)
  | roundRobinSelector
  | binPackingMitigationSelector
  | binPackingConsolidationSelector.

Definition selector_selectPairs (order : key_order) (s : reschedulingSelector) (src dst : gmap string instanceViewScheduling)
    : option (list reschedulingPair) :=
  let srcs := ranged order src in
  let dsts := ranged order dst in
  match s with
  | metricBalanceSelector srcMetric dstMetric force scope =>
      if decide (scope = ReschedulingLoadBalanceScopeCluster) then pairLists srcMetric dstMetric force srcs dsts
      else if decide (scope = ReschedulingLoadBalanceScopeUnit) then unit_pairs order srcMetric dstMetric force srcs dsts
      else Some []
  | roundRobinSelector =>
      if decide (dsts = []) then Some []
      else srcs ← sort_by by_id srcs; dsts ← sort_by by_id dsts; Some (round_robin srcs dsts)
  | binPackingMitigationSelector =>
      s ← max_tpot None srcs;
      d ← max_tpot None dsts;
      Some (match s, d with Some s, Some d => [pair_of s d] | _, _ => [] end)
  | binPackingConsolidationSelector =>
      d ← consolidation_dst None dsts;
      match d with
      | None => Some []
      | Some d => s ← consolidation_src d None srcs; Some (match s with Some s => [pair_of s d] | None => [] end)
      end
  end.

(** ** Policies *)

Record migrationReqSelectPolicy := mkReqSelect { rule : string; order_ : string; value : float }.

(** [baseReschedulingPolicy] with what the policies override: the check of the load
    difference and the requests to migrate. *)
Record reschedulingPolicyInternal := mkReschedulingPolicy {
  rp_name : string;
  rp_metrics : list string;
  srcSingleInstanceFilters : list singleInstanceFilter;
  srcGlobalFilters : list globalFilter;
  dstSingleInstanceFilters : list singleInstanceFilter;
  dstGlobalFilters : list globalFilter;
  rp_selector : reschedulingSelector;
  rp_imbalance : option (string * float);
  getMigrationReqSelectPolicy : migrationReqSelectPolicy
}.

Definition base_req_select : migrationReqSelectPolicy :=
  mkReqSelect MigrationReqSelectRuleNumReq MigrationReqSelectOrderLCR (f32_of_Z 1).

(** The pairs that are kept. *)
Fixpoint keep_imbalanced (name : string) (threshold : float) (pairs : list reschedulingPair) : option (list reschedulingPair) :=
  match pairs with
  | [] => Some []
  | p :: pairs =>
      ms ← load_of name (srcView p); md ← load_of name (dstView p);
      rest ← keep_imbalanced name threshold pairs;
      Some (if flt (f32_sub (GetValue ms) (GetValue md)) threshold then rest else p :: rest)
  end.

Definition acceptLoadImbalancePairs (name : string) (threshold : float) (pairs : list reschedulingPair) : option (list reschedulingPair) :=
  if fle threshold f_zero then Some pairs else keep_imbalanced name threshold pairs.

Definition selectPairs (order : key_order) (p : reschedulingPolicyInternal) (src dst : gmap string instanceViewScheduling)
    : option (list reschedulingPair) :=
  pairs ← selector_selectPairs order (rp_selector p) src dst;
  match rp_imbalance p with
  | Some (name, threshold) => acceptLoadImbalancePairs name threshold pairs
  | None => Some pairs
  end.

Definition newLoadBalanceRescheduling (c : SchedulerConfig) (inferType : InferType) : option reschedulingPolicyInternal :=
  '(metric, threshold, name) ←
    (if decide (inferType = InferTypeDecode)
     then Some (ReschedulingDecodeLoadMetric c, ReschedulingDecodeLoadThreshold c, ReschedulingPolicyDecodeLoad)
     else if decide (inferType = InferTypeNeutral)
     then Some (ReschedulingNeutralLoadMetric c, ReschedulingNeutralLoadThreshold c, ReschedulingPolicyNeutralLoad)
     else None);
  let scope := ReschedulingLoadBalanceScope c in
  if decide (scope <> ReschedulingLoadBalanceScopeCluster /\ scope <> ReschedulingLoadBalanceScopeUnit) then None
  else
    _ ← metric_factory metric;
    let common := [inferTypeFilter inferType; schedulabilityFilter; stalenessFilter (InstanceStalenessSeconds c)] in
    let limited := fgt threshold f_zero && bool_decide (scope <> ReschedulingLoadBalanceScopeUnit) in
    let limit := metricBasedFilter metric threshold false in
    Some (mkReschedulingPolicy name [metric]
      (common ++ (if limited then [invertedSingleInstanceFilterWrapper limit] else [])) [failoverFilter (FailoverDomain c)]
      (common ++ (if limited then [limit] else [])) [failoverFilter (FailoverDomain c)]
      (metricBalanceSelector metric metric true scope)
      (Some (metric, ReschedulingLoadBalanceThreshold c))
      (mkReqSelect (ReschedulingReqSelectRule c) (ReschedulingReqSelectOrder c) (ReschedulingReqSelectValue c))).

Definition newFailoverRescheduling (c : SchedulerConfig) (inferType : InferType) : option reschedulingPolicyInternal :=
  '(metric, name) ←
    (if decide (inferType = InferTypePrefill) then Some (ReschedulingPrefillLoadMetric c, ReschedulingPolicyPrefillFailover)
     else if decide (inferType = InferTypeDecode) then Some (ReschedulingDecodeLoadMetric c, ReschedulingPolicyDecodeFailover)
     else if decide (inferType = InferTypeNeutral) then Some (ReschedulingNeutralLoadMetric c, ReschedulingPolicyNeutralFailover)
     else None);
  _ ← metric_factory metric;
  Some (mkReschedulingPolicy name [metric]
    [inferTypeFilter inferType]
    [failoverMigrationSrcFilter (InstanceStalenessSeconds c) (FailoverDomain c)]
    [inferTypeFilter inferType; schedulabilityFilter; stalenessFilter (InstanceStalenessSeconds c)]
    [failoverFilter (FailoverDomain c)]
    roundRobinSelector None
    (mkReqSelect MigrationReqSelectRuleNumReq MigrationReqSelectOrderLR (f32_of_Z (-1)))).

Definition tpot_filter (c : SchedulerConfig) (threshold : float) : singleInstanceFilter :=
  metricBasedFilter SchedulingMetricPredictedTpot (f32_mul (TpotSlo c) threshold) false.

Definition newBinPackingMitigationRescheduling (c : SchedulerConfig) : reschedulingPolicyInternal :=
  let common := [instanceAttributeFilter AttrKeyReservedInferType InferTypePrefill; schedulabilityFilter;
                 stalenessFilter (InstanceStalenessSeconds c)] in
  mkReschedulingPolicy ReschedulingPolicyBinPackingMitigation [SchedulingMetricPredictedTpot]
    (common ++ [invertedSingleInstanceFilterWrapper (tpot_filter c (TpotMigrateOutCeilThreshold c))]) [failoverFilter (FailoverDomain c)]
    (common ++ [tpot_filter c (TpotSloDispatchThreshold c)]) [failoverFilter (FailoverDomain c)]
    binPackingMitigationSelector None base_req_select.

Definition newBinPackingConsolidationRescheduling (c : SchedulerConfig) : reschedulingPolicyInternal :=
  let busy := invertedSingleInstanceFilterWrapper (metricBasedFilter SchedulingMetricDecodeBatchSize f32_tenth false) in
  mkReschedulingPolicy ReschedulingPolicyBinPackingConsolidation [SchedulingMetricPredictedTpot; SchedulingMetricDecodeBatchSize]
    [instanceAttributeFilter AttrKeyReservedInferType InferTypePrefill;
     instanceAttributeFilter AttrKeyReservedInferType InferTypeDecode; schedulabilityFilter;
     stalenessFilter (InstanceStalenessSeconds c); tpot_filter c (TpotMigrateOutFloorThreshold c); busy]
    [failoverFilter (FailoverDomain c)]
    [instanceAttributeFilter AttrKeyReservedInferType InferTypePrefill; schedulabilityFilter;
     stalenessFilter (InstanceStalenessSeconds c); tpot_filter c (TpotSloDispatchThreshold c); busy]
    [failoverFilter (FailoverDomain c)]
    binPackingConsolidationSelector None base_req_select.

Definition newReschedulingPolicyInternal (c : SchedulerConfig) (policy : string) : option reschedulingPolicyInternal :=
  if decide (policy = ReschedulingPolicyNeutralLoad) then newLoadBalanceRescheduling c InferTypeNeutral
  else if decide (policy = ReschedulingPolicyDecodeLoad) then newLoadBalanceRescheduling c InferTypeDecode
  else if decide (policy = ReschedulingPolicyPrefillFailover) then newFailoverRescheduling c InferTypePrefill
  else if decide (policy = ReschedulingPolicyDecodeFailover) then newFailoverRescheduling c InferTypeDecode
  else if decide (policy = ReschedulingPolicyNeutralFailover) then newFailoverRescheduling c InferTypeNeutral
  else if decide (policy = ReschedulingPolicyBinPackingMitigation) then Some (newBinPackingMitigationRescheduling c)
  else if decide (policy = ReschedulingPolicyBinPackingConsolidation) then Some (newBinPackingConsolidationRescheduling c)
  else None.

Definition add_missing (name : string) (names : list string) : list string :=
  if decide (name ∈ names) then names else names ++ [name].

(** The policies of [newReschedulingPolicy]. *)
Definition newReschedulingPolicy (c : SchedulerConfig) : option (list reschedulingPolicyInternal) :=
  let policies := Split (ReschedulingPolicies c) "," in
  let policies := if EnableAdaptivePD c
    then add_missing ReschedulingPolicyBinPackingMitigation (add_missing ReschedulingPolicyBinPackingConsolidation policies)
    else policies in
  mapM (newReschedulingPolicyInternal c) policies.

(** ** One round *)

Definition stamp (r : migrationReqSelectPolicy) (name : string) (p : reschedulingPair) : reschedulingPair :=
  mkPair (srcView p) (dstView p) (rule r) (order_ r) (value r) name.

Definition validateAndAppendPairs (selected : list reschedulingPair) (r : migrationReqSelectPolicy) (name : string)
    (pairs : list reschedulingPair) : list reschedulingPair :=
  fold_left (fun pairs p => if existsb (fun q => conflict q p) pairs then pairs else pairs ++ [stamp r name p]) selected pairs.

Section reschedule.
Context {LP : LatencyPredictor} (order : key_order) (c : SchedulerConfig).

(** Metrics, candidates and pairs of one policy; the views keep metrics and marks. *)
Definition run_policy (now : string -> Z) (p : reschedulingPolicyInternal) (vs : gmap string instanceViewScheduling)
    : option (list reschedulingPair * gmap string instanceViewScheduling) :=
  vs ← calculateMetrics c now None (rp_metrics p) vs;
  '(src, vs) ← filter_views order now vs (srcSingleInstanceFilters p) (srcGlobalFilters p) false;
  '(dst, vs) ← filter_views order now vs (dstSingleInstanceFilters p) (dstGlobalFilters p) false;
  pairs ← selectPairs order p (filter (fun kv => kv.1 ∈ src) vs) (filter (fun kv => kv.1 ∈ dst) vs);
  Some (pairs, vs).

Fixpoint getMigrationPairs (now : nat -> string -> Z) (policies : list reschedulingPolicyInternal)
    (vs : gmap string instanceViewScheduling) (pairs : list reschedulingPair) : option (list reschedulingPair) :=
  match policies with
  | [] => Some pairs
  | p :: policies =>
      '(selected, vs) ← run_policy (now (length policies)) p vs;
      getMigrationPairs now policies vs
        (validateAndAppendPairs selected (getMigrationReqSelectPolicy p) (rp_name p) pairs)
  end.

Definition reschedule (now : nat -> string -> Z) (policies : list reschedulingPolicyInternal) (cms : CMSReadClient)
    : option (list reschedulingPair) :=
  getMigrationPairs now policies (cl_views (cluster_of_cms cms)) [].

End reschedule.

(** ** The migration request *)

Inductive migration_value := NumReqs (n : Z) | MigrateTokens (n : Z) | KvCacheUsageRatio (r : float).

Record MigrateRequest := mkMigrateRequest {
  SrcEngineId : string;
  DstEngineId : string;
  DstEngineIp : string;
  DstEnginePort : Z;
  MigrationType : string;
  MigrationReqPolicy : string;
  mr_TriggerPolicy : string;
  MigrationValue : migration_value
}.

(** The request of [executeMigrations]; [None] for an unknown rule. *)
Definition migrate_request (p : reschedulingPair) (dst : InstanceMetadata) : option MigrateRequest :=
  v ← (if decide (reqSelectRule p = MigrationReqSelectRuleNumReq) then Some (NumReqs (f_to_int64 (reqSelectValue p)))
       else if decide (reqSelectRule p = MigrationReqSelectRuleToken) then Some (MigrateTokens (f_to_int64 (reqSelectValue p)))
       else if decide (reqSelectRule p = MigrationReqSelectRuleRatio) then Some (KvCacheUsageRatio (reqSelectValue p))
       else None);
  Some (mkMigrateRequest (id_of (srcView p)) (id_of (dstView p)) (md_IpKvs dst) (md_KvtPort dst)
    (reqSelectRule p) (reqSelectOrder p) (triggerPolicy p) v).
