(* ===== verification/LlumletClients.v ===== *)
(** * Connections to the engines

    [pkg/scheduler/llumlet/llumlet_client_manager.go]: the pool of gRPC connections that
    migrations use, and the steps of one migration in
    [ReschedulingPolicy.executeMigrations] that touch it. Every operation holds the mutex
    of the pool and is one step; the goroutines of a round interleave these steps.

    A connection is its address; the least recently used list holds instance ids, the
    most recent first. Dialling may fail. *)

From stdpp Require Import base gmap sets list strings numbers.
From S2P Require Import Prelude GoFloat Types CmsTypes Metrics Rescheduling.

Local Open Scope Z_scope.

Record ClientManager := mkManager {
  clientConnections : gmap string string;
  clientConnectionRequestCnt : gmap string Z;
  maxSize : Z;
  lruList : list string
}.

Definition DefaultPoolSize : Z := -1.

Definition NewClientManager (size : Z) : ClientManager :=
  mkManager ∅ ∅ (if decide (size <= 0) then DefaultPoolSize else size) [].

Definition move_to_front (id : string) (l : list string) : list string := id :: filter (fun x => x <> id) l.

Definition cnt (cm : ClientManager) (id : string) : Z := default 0 (clientConnectionRequestCnt cm !! id).

(** A connection is handed out once more. *)
Definition use_connection (id : string) (cm : ClientManager) : ClientManager :=
  mkManager (clientConnections cm) (<[id := cnt cm id + 1]> (clientConnectionRequestCnt cm)) (maxSize cm)
    (move_to_front id (lruList cm)).

Definition DecrClientConnectionRequestCnt (id : string) (cm : ClientManager) : ClientManager :=
  match clientConnectionRequestCnt cm !! id with
  | Some n =>
      if decide (n > 0)
      then mkManager (clientConnections cm) (<[id := n - 1]> (clientConnectionRequestCnt cm)) (maxSize cm) (lruList cm)
      else cm
  | None => cm
  end.

Definition GetClient (id : string) (cm : ClientManager) : option string * ClientManager :=
  match clientConnections cm !! id with
  | Some conn => (Some conn, use_connection id cm)
  | None => (None, cm)
  end.

Definition drop_connection (id : string) (cm : ClientManager) : ClientManager :=
  mkManager (delete id (clientConnections cm)) (delete id (clientConnectionRequestCnt cm)) (maxSize cm)
    (filter (fun x => x <> id) (lruList cm)).

(** The loop that makes room; the flag says whether it succeeded. With an empty list
    the loop does nothing and goes on: it is out of fuel. *)
Fixpoint make_room (fuel : nat) (cm : ClientManager) : option (bool * ClientManager) :=
  if decide (maxSize cm > 0 /\ Z.of_nat (size (clientConnections cm)) >= maxSize cm) then
    match fuel with
    | O => None
    | S fuel =>
        match list.last (lruList cm) with
        | None => make_room fuel cm
        | Some id => if decide (cnt cm id > 0) then Some (false, cm) else make_room fuel (drop_connection id cm)
        end
    end
  else Some (true, cm).

(** One step per connection is enough, see [make_room_terminates]. *)
Definition createClient (dial : bool) (id address : string) (cm : ClientManager) : option (option string * ClientManager) :=
  match clientConnections cm !! id with
  | Some conn => Some (Some conn, use_connection id cm)
  | None =>
      '(room, cm) ← make_room (size (clientConnections cm)) cm;
      if negb room || negb dial then Some (None, cm)
      else Some (Some address,
        mkManager (<[id := address]> (clientConnections cm)) (<[id := 1]> (clientConnectionRequestCnt cm)) (maxSize cm)
          (id :: lruList cm))
  end.

Definition GetOrCreateClient (dial : bool) (id address : string) (cm : ClientManager) : option (option string * ClientManager) :=
  match GetClient id cm with
  | (Some conn, cm) => Some (Some conn, cm)
  | (None, cm) => createClient dial id address cm
  end.

Definition CloseAll (cm : ClientManager) : ClientManager := mkManager ∅ ∅ (maxSize cm) [].

(** ** One migration

    The connection of the source is taken, the request is built and sent, and the
    connection is given back by a deferred call that is set up after the request is
    built. *)

Definition begin_migration (dial : bool) (id address : string) (request : option MigrateRequest) (cm : ClientManager)
    : option (option MigrateRequest * ClientManager) :=
  '(conn, cm) ← GetOrCreateClient dial id address cm;
  Some (match conn with Some _ => request | None => None end, cm).

Definition end_migration (id : string) (sent : option MigrateRequest) (cm : ClientManager) : ClientManager :=
  match sent with
  | Some _ => DecrClientConnectionRequestCnt id cm
  | None => cm
  end.

(** ** Invariant *)

Record pool_wf (cm : ClientManager) : Prop := mk_pool_wf {
  pw_lru : NoDup (lruList cm);
  pw_conns : forall id, id ∈ lruList cm <-> id ∈ dom (clientConnections cm);
  pw_counts : dom (clientConnectionRequestCnt cm) = dom (clientConnections cm);
  pw_nonneg : forall id n, clientConnectionRequestCnt cm !! id = Some n -> 0 <= n;
  pw_size : maxSize cm > 0 -> Z.of_nat (size (clientConnections cm)) <= maxSize cm
}.

Lemma NewClientManager_wf n : pool_wf (NewClientManager n).
Proof.
  split; cbn.
  - constructor.
  - intros id. rewrite dom_empty_L. set_solver.
  - by rewrite !dom_empty_L.
  - intros id m. by rewrite lookup_empty.
  - rewrite map_size_empty. case_decide; unfold DefaultPoolSize; lia.
Qed.

Lemma use_connection_wf id cm : id ∈ dom (clientConnections cm) -> pool_wf cm -> pool_wf (use_connection id cm).
Proof.
  intros Hid [Hl Hc Hd Hn Hs]. split; cbn; [..|done].
  - constructor; [rewrite list_elem_of_filter; tauto|by apply list.NoDup_filter].
  - intros x. unfold move_to_front. rewrite elem_of_cons, list_elem_of_filter, Hc.
    destruct (decide (x = id)) as [->|]; tauto.
  - rewrite dom_insert_L, Hd. set_solver.
  - intros x n. unfold cnt. rewrite lookup_insert_Some. intros [[<- <-]|[_ Hx]]; [|by eapply Hn].
    destruct (clientConnectionRequestCnt cm !! id) as [k|] eqn:E; cbn; [apply Hn in E|]; lia.
Qed.

Lemma drop_connection_wf id cm : pool_wf cm -> pool_wf (drop_connection id cm).
Proof.
  intros [Hl Hc Hd Hn Hs]. split; cbn.
  - by apply list.NoDup_filter.
  - intros x. rewrite list_elem_of_filter, Hc, dom_delete_L. set_solver.
  - by rewrite !dom_delete_L, Hd.
  - intros x n [_ Hx]%lookup_delete_Some. by eapply Hn.
  - intros Hm. specialize (Hs Hm). pose proof (map_size_delete id (clientConnections cm)) as Hz. rewrite Hz.
    destruct (clientConnections cm !! id); unfold Datatypes.id; lia.
Qed.

Lemma DecrClientConnectionRequestCnt_wf id cm : pool_wf cm -> pool_wf (DecrClientConnectionRequestCnt id cm).
Proof.
  intros Hwf. unfold DecrClientConnectionRequestCnt. destruct (clientConnectionRequestCnt cm !! id) as [n|] eqn:E; [|done].
  case_decide; [|done]. destruct Hwf as [Hl Hc Hd Hn Hs]. split; cbn; try done.
  - rewrite dom_insert_L, Hd. assert (id ∈ dom (clientConnections cm)) by (rewrite <- Hd; apply elem_of_dom; eauto). set_solver.
  - intros x m. rewrite lookup_insert_Some. intros [[<- <-]|[_ Hx]]; [lia|by eapply Hn].
Qed.

Lemma cnt_drop id cm x : x <> id -> cnt (drop_connection id cm) x = cnt cm x.
Proof. intros Hx. unfold cnt. cbn. by rewrite lookup_delete_ne. Qed.

(** Connections in use are kept. *)
Definition keeps_used (cm cm' : ClientManager) : Prop :=
  forall id, cnt cm id > 0 -> clientConnections cm' !! id = clientConnections cm !! id /\ cnt cm id <= cnt cm' id.

Lemma keeps_used_refl cm : keeps_used cm cm.
Proof. intros id _. split; [done|lia]. Qed.

Lemma make_room_spec fuel cm r cm' :
  pool_wf cm -> make_room fuel cm = Some (r, cm') ->
  pool_wf cm' /\ maxSize cm' = maxSize cm /\ keeps_used cm cm' /\ clientConnections cm' ⊆ clientConnections cm /\
  (r = true -> maxSize cm > 0 -> Z.of_nat (size (clientConnections cm')) < maxSize cm).
Proof.
  revert cm. induction fuel as [|fuel IH]; intros cm Hwf; cbn; case_decide as Hfull; try done.
  1, 3: intros [= <- <-]; split_and!; [done|done|apply keeps_used_refl|done|intros; lia].
  destruct (list.last (lruList cm)) as [id|] eqn:El; [|by apply IH]. case_decide as Hu.
  - intros [= <- <-]. split_and!; [done|done|apply keeps_used_refl|done|done].
  - intros H. destruct (IH _ (drop_connection_wf id cm Hwf) H) as (H1 & H2 & H3 & H4 & H5). split_and!; try done.
    + intros x Hx. assert (x <> id) as Hne by (intros ->; done). destruct (H3 x) as [E1 E2]; [by rewrite cnt_drop|].
      rewrite E1. cbn. rewrite lookup_delete_ne by done. rewrite cnt_drop in E2 by done. done.
    + etrans; [exact H4|]. apply delete_subseteq.
Qed.

(** Every step of a full pool closes a connection, so the loop ends. *)
Lemma make_room_terminates fuel cm :
  pool_wf cm -> (size (clientConnections cm) <= fuel)%nat -> is_Some (make_room fuel cm).
Proof.
  revert cm. induction fuel as [|fuel IH]; intros cm Hwf Hf; cbn; case_decide as Hfull; [lia|eauto| |eauto].
  destruct (list.last (lruList cm)) as [id|] eqn:El.
  - case_decide; [eauto|]. apply IH; [by apply drop_connection_wf|]. cbn. rewrite map_size_delete_Some; [lia|].
    apply elem_of_dom, (pw_conns cm Hwf). apply last_Some in El as [l ->]. apply elem_of_app. right. by left.
  - exfalso. apply last_None in El. assert (dom (clientConnections cm) = ∅) as Hd.
    { apply set_eq. intros x. rewrite <- (pw_conns cm Hwf), El. set_solver. }
    apply dom_empty_inv_L in Hd. rewrite Hd, map_size_empty in Hfull. lia.
Qed.

Lemma use_connection_keeps id cm : pool_wf cm -> keeps_used cm (use_connection id cm).
Proof.
  intros Hwf x Hx. split; [done|]. unfold cnt, use_connection. cbn. rewrite lookup_insert. case_decide; subst; cbn; unfold cnt; lia.
Qed.

Lemma GetOrCreateClient_spec dial id address cm :
  pool_wf cm -> exists r cm', GetOrCreateClient dial id address cm = Some (r, cm') /\ pool_wf cm' /\ keeps_used cm cm' /\
    (forall conn, clientConnections cm !! id = Some conn -> r = Some conn /\ cm' = use_connection id cm).
Proof.
  intros Hwf. unfold GetOrCreateClient, GetClient, createClient. destruct (clientConnections cm !! id) as [conn|] eqn:E.
  { eexists _, _. split; [done|]. split; [apply use_connection_wf; [apply elem_of_dom; eauto|done]|].
    split; [by apply use_connection_keeps|]. intros c [= <-]. done. }
  rewrite E. destruct (make_room_terminates (size (clientConnections cm)) cm Hwf) as [[room cm1] Hr]; [done|]. rewrite Hr. cbn.
  destruct (make_room_spec _ _ _ _ Hwf Hr) as (H1 & H2 & H3 & H4 & H5).
  destruct room, dial; cbn; try (eexists _, _; split_and!; [done|done|done|intros; done]).
  eexists _, _. split; [done|]. split; [|split; [|done]].
  - assert (clientConnections cm1 !! id = None) as Hid.
    { destruct (clientConnections cm1 !! id) as [x|] eqn:Ex; [|done]. by rewrite (lookup_weaken _ _ _ _ Ex H4) in E. }
    destruct H1 as [Hl Hc Hd Hn Hs]. split; cbn.
    + constructor; [rewrite Hc, not_elem_of_dom; done|done].
    + intros x. rewrite elem_of_cons, Hc, dom_insert_L. set_solver.
    + by rewrite !dom_insert_L, Hd.
    + intros x n. rewrite lookup_insert_Some. intros [[<- <-]|[_ Hx]]; [lia|by eapply Hn].
    + intros Hm. rewrite map_size_insert_None by done. rewrite H2 in Hm. specialize (H5 eq_refl Hm). lia.
  - intros x Hx. destruct (H3 x Hx) as [E1 E2]. cbn. assert (x <> id) as Hne.
    { intros ->. assert (id ∈ dom (clientConnections cm)) as Hin; [|apply elem_of_dom in Hin as [? ?]; congruence].
      rewrite <- (pw_counts cm Hwf). apply elem_of_dom. unfold cnt in Hx. destruct (clientConnectionRequestCnt cm !! id); [eauto|cbn in Hx; lia]. }
    rewrite lookup_insert_ne by done. split; [done|]. unfold cnt in *. cbn. by rewrite lookup_insert_ne.
Qed.

(** ** Runs *)

Inductive pool_step : ClientManager -> ClientManager -> Prop :=
  | step_begin dial id address request cm sent cm' :
      begin_migration dial id address request cm = Some (sent, cm') -> pool_step cm cm'
  | step_end id sent cm : pool_step cm (end_migration id sent cm)
  | step_close cm : pool_step cm (CloseAll cm).

Lemma pool_step_wf cm cm' : pool_step cm cm' -> pool_wf cm -> pool_wf cm'.
Proof.
  intros [dial id address request x sent x' H|id sent x|x] Hwf.
  - unfold begin_migration in H. destruct (GetOrCreateClient_spec dial id address x Hwf) as (r & y & E & Hy & _).
    rewrite E in H. cbn in H. inv_some. done.
  - unfold end_migration. destruct sent; [by apply DecrClientConnectionRequestCnt_wf|done].
  - destruct Hwf as [Hl Hc Hd Hn Hs]. split; cbn; [constructor|set_solver|by rewrite !dom_empty_L| |rewrite map_size_empty; lia].
    intros id n. by rewrite lookup_empty.
Qed.

Lemma pool_steps_wf cm cm' : rtc pool_step cm cm' -> pool_wf cm -> pool_wf cm'.
Proof. induction 1; [done|]. eauto using pool_step_wf. Qed.

(** ** Theorems *)

(** However the steps of concurrent migrations interleave, the pool holds at most its
    maximal number of connections, asking for a connection always returns, and it never
    closes a connection that a migration still uses. *)
Theorem pool_safe n cm :
  rtc pool_step (NewClientManager n) cm ->
  pool_wf cm /\
  forall dial id address, exists r cm', GetOrCreateClient dial id address cm = Some (r, cm') /\ keeps_used cm cm'.
Proof.
  intros H. apply pool_steps_wf in H; [|apply NewClientManager_wf]. split; [done|]. intros dial id address.
  destruct (GetOrCreateClient_spec dial id address cm H) as (r & cm' & ? & _ & ? & _). eauto.
Qed.

Definition demo_migration (rule : string) : option MigrateRequest :=
  let e := ("a", mkIvs InferTypeDecode None None (mkLLMInstance 0 "a" "m" InferTypeDecode (mkEndpoint "h" 1) "" 0 0 1) "a" empty_ctx) in
  migrate_request (mkPair e e rule "SR" (f32_of_Z 1) "decode_load") (mkMetadata "a" "decode" "" "h" "" 8000 0 0 "" 1 1 "" 0 0 0 f_zero f_zero "" 0 1024).

Lemma pool_safe_witness :
  exists cm, rtc pool_step (NewClientManager 1) cm /\ cnt cm "a" = 1 /\
    forall dial id address, exists r cm', GetOrCreateClient dial id address cm = Some (r, cm') /\ keeps_used cm cm'.
Proof.
  assert (exists sent cm, begin_migration true "a" "h:1" (demo_migration MigrationReqSelectRuleToken) (NewClientManager 1) = Some (sent, cm) /\
    cnt cm "a" = 1) as (sent & cm & Hb & Hc) by (eexists _, _; split; vm_compute; reflexivity).
  assert (rtc pool_step (NewClientManager 1) cm) as Hr
    by (eapply rtc_l; [apply (step_begin true "a" "h:1" (demo_migration MigrationReqSelectRuleToken) (NewClientManager 1) sent cm Hb)|apply rtc_refl]).
  exists cm. split; [exact Hr|]. split; [exact Hc|]. exact (proj2 (pool_safe 1 cm Hr)).
Defined.

(** A migration over an existing connection gives the connection back when its
    request can be built; with an unknown selection rule it does not, and the
    connection counts as used forever. *)
Theorem migration_gives_connection_back dial id address conn request cm :
  pool_wf cm -> clientConnections cm !! id = Some conn ->
  exists sent cm', begin_migration dial id address request cm = Some (sent, cm') /\
    cnt (end_migration id sent cm') id = cnt cm id + (match request with Some _ => 0 | None => 1 end).
Proof.
  intros Hwf Hc. unfold begin_migration. destruct (GetOrCreateClient_spec dial id address cm Hwf) as (r & cm' & -> & _ & _ & H).
  destruct (H conn Hc) as [-> ->]. cbn. eexists _, _. split; [done|].
  assert (0 <= cnt cm id) as Hn.
  { unfold cnt. destruct (clientConnectionRequestCnt cm !! id) as [n|] eqn:E; [by apply (pw_nonneg cm Hwf) in E|done]. }
  assert (clientConnectionRequestCnt (use_connection id cm) !! id = Some (cnt cm id + 1)) as Hu by (cbn; by rewrite lookup_insert_eq).
  destruct request; cbn [end_migration].
  - unfold DecrClientConnectionRequestCnt. rewrite Hu, decide_True by lia. unfold cnt at 1. cbn. rewrite lookup_insert_eq. cbn. lia.
  - unfold cnt at 1. by rewrite Hu.
Qed.

Lemma migration_gives_connection_back_witness :
  exists cm sent cm', clientConnections cm !! "a" = Some "h:1" /\
    begin_migration true "a" "h:1" (demo_migration "BY_AGE") cm = Some (sent, cm') /\ cnt (end_migration "a" sent cm') "a" = cnt cm "a" + 1.
Proof.
  pose (cm := end_migration "a" (demo_migration MigrationReqSelectRuleToken) (use_connection "a"
    (mkManager {["a" := "h:1"]} {["a" := 0]} 1 ["a"]))).
  destruct (migration_gives_connection_back true "a" "h:1" "h:1" (demo_migration "BY_AGE") cm) as (sent & cm' & H1 & H2).
  - split.
    + vm_compute. repeat constructor. by intros ?%elem_of_nil.
    + intros id. assert (lruList cm = ["a"]) as -> by (vm_compute; reflexivity).
      assert (dom (clientConnections cm) = {["a"]}) as -> by (vm_compute; reflexivity). set_solver.
    + vm_compute. reflexivity.
    + assert (map_Forall (fun _ n => 0 <= n) (clientConnectionRequestCnt cm)) as H by (refine (bool_decide_unpack _ _); vm_compute; exact I).
      exact H.
    + intros _. vm_compute. discriminate.
  - vm_compute. reflexivity.
  - exists cm, sent, cm'. split; [vm_compute; reflexivity|]. split; [exact H1|exact H2].
Defined.
