(* ===== verification/ReschedulingSpec.v ===== *)
(** * What rescheduling guarantees

    Theorems on [Rescheduling]: where requests are migrated to, which failing instances
    are drained, and which pairs load balancing picks. *)

From stdpp Require Import base gmap sets list strings numbers.
From S2P Require Import Prelude GoStrings GoFloat Types CmsTypes LocalAccount Lrs LrsSpec LrsClient Metrics Filters Selectors Predictor PrefixCache CmsReadClient Dispatch Registry DispatchSpec Rescheduling.

Local Open Scope Z_scope.

#[local] Arguments load_of : simpl never.

(** ** Sorting *)

Section sort.
Context {A : Type} (less : A -> A -> option bool).

Lemma insert_by_perm x p p' : insert_by less x p = Some p' -> p' ≡ₚ x :: p.
Proof.
  revert p'. induction p as [|y p IH]; intros p'; cbn; [by intros [= <-]|].
  destruct (less x y) as [[]|]; [|by intros [= <-]|done]. cbn.
  destruct (insert_by less x p) as [q|]; [|done]. cbn. intros [= <-]. rewrite (IH q eq_refl). apply Permutation_swap.
Qed.

Lemma sort_prefix_perm p l r : sort_prefix less p l = Some r -> r ≡ₚ p ++ l.
Proof.
  revert p. induction l as [|x l IH]; intros p; cbn.
  - intros [= <-]. rewrite app_nil_r. apply reverse_Permutation.
  - destruct (insert_by less x p) as [q|] eqn:Hq; [|done]. cbn. intros H%IH. rewrite H, (insert_by_perm _ _ _ Hq).
    cbn. apply Permutation_middle.
Qed.

Lemma sort_by_perm l r : sort_by less l = Some r -> r ≡ₚ l.
Proof. apply sort_prefix_perm. Qed.

End sort.

(** ** Pairs come from the candidates *)

Definition drawn (srcs dsts : list (string * instanceViewScheduling)) (p : reschedulingPair) : Prop :=
  srcView p ∈ srcs /\ dstView p ∈ dsts.

Lemma drawn_mono srcs srcs' dsts dsts' p :
  (forall e, e ∈ srcs -> e ∈ srcs') -> (forall e, e ∈ dsts -> e ∈ dsts') -> drawn srcs dsts p -> drawn srcs' dsts' p.
Proof. intros Hs Hd [? ?]. split; eauto. Qed.

Lemma pair_loop_drawn sm dm force srcs dsts pairs :
  pair_loop sm dm force srcs dsts = Some pairs -> forall p, p ∈ pairs -> drawn srcs dsts p.
Proof.
  revert dsts pairs. induction srcs as [|s srcs IH]; intros [|d dsts] pairs; cbn; try (intros [= <-] p Hp; by apply elem_of_nil in Hp).
  destruct (if force then _ else _) as [[]|]; [|..|done]; cbn; [intros [= <-] p Hp; by apply elem_of_nil in Hp|].
  destruct (pair_loop sm dm force srcs dsts) as [rest|] eqn:E; [|done]. cbn. intros [= <-] p [->|Hp]%elem_of_cons.
  - split; left.
  - eapply drawn_mono; [..|by eapply IH]; intros; by right.
Qed.

Lemma pairLists_drawn sm dm force srcs dsts pairs :
  pairLists sm dm force srcs dsts = Some pairs -> forall p, p ∈ pairs -> drawn srcs dsts p.
Proof.
  unfold pairLists. destruct (sort_by _ srcs) as [ss|] eqn:Hs; [|done]. cbn. destruct (sort_by _ dsts) as [ds|] eqn:Hd; [|done]. cbn.
  intros E p Hp. eapply drawn_mono; [..|by eapply pair_loop_drawn]; intros e.
  - by rewrite (sort_by_perm _ _ _ Hs).
  - by rewrite (sort_by_perm _ _ _ Hd).
Qed.

Lemma unit_pairs_drawn (order : key_order) sm dm force srcs dsts pairs :
  unit_pairs order sm dm force srcs dsts = Some pairs ->
  forall p, p ∈ pairs -> exists u, drawn (in_unit u srcs) (in_unit u dsts) p.
Proof.
  unfold unit_pairs. destruct (units srcs) as [us|]; [|done]. cbn. destruct (units dsts) as [ud|]; [|done]. cbn.
  destruct (mapM _ _) as [pss|] eqn:E; [|done]. cbn. intros [= <-] p Hp.
  apply list_elem_of_In, in_concat in Hp as (ps & Hps & Hp). apply list_elem_of_In, list_elem_of_lookup in Hps as [i Hi].
  apply mapM_Some_1 in E. destruct (Forall2_lookup_r _ _ _ _ _ E Hi) as (u & _ & Hu).
  exists u. eapply pairLists_drawn; [exact Hu|]. by apply list_elem_of_In.
Qed.

Lemma round_robin_drawn srcs dsts p : p ∈ round_robin srcs dsts -> drawn srcs dsts p.
Proof.
  unfold round_robin. rewrite list_elem_of_omap. intros (o & Ho & Hp). apply elem_of_lookup_imap in Ho as (i & s & -> & Hs).
  cbn in Hp. destruct (dsts !! _) as [d|] eqn:Hd; [|done]. cbn in Hp. case_decide; [done|]. injection Hp as <-.
  split; by eapply list_elem_of_lookup_2.
Qed.

Lemma max_tpot_in o l r : max_tpot o l = Some (Some r) -> o = Some r \/ r ∈ l.
Proof.
  revert o. induction l as [|e l IH]; intros o; cbn; [intros [= ->]; by left|]. destruct o as [s|].
  - destruct (load_of SchedulingMetricPredictedTpot s), (load_of SchedulingMetricPredictedTpot e); try done. cbn. intros [[= <-]|H]%IH; [|right; by right].
    case_match; [right; left|by left].
  - intros [[= <-]|H]%IH; right; [left|by right].
Qed.

Lemma consolidation_dst_in o l r : consolidation_dst o l = Some (Some r) -> o = Some r \/ r ∈ l.
Proof.
  revert o. induction l as [|e l IH]; intros o; cbn; [intros [= ->]; by left|]. destruct o as [s|].
  - destruct (cmsView e.2); [|done]. cbn. case_decide; [intros [= ->]; right; left|].
    destruct (load_of SchedulingMetricPredictedTpot e), (load_of SchedulingMetricPredictedTpot s); try done. cbn. intros [[= <-]|Hr]%IH; [|right; by right].
    case_match; [right; left|by left].
  - intros [[= <-]|H]%IH; right; [left|by right].
Qed.

Lemma consolidation_src_in d o l r : consolidation_src d o l = Some (Some r) -> o = Some r \/ r ∈ l.
Proof.
  revert o. induction l as [|e l IH]; intros o; cbn; [intros [= ->]; by left|]. case_decide.
  { intros [->|H']%IH; [by left|right; by right]. }
  destruct o as [s|].
  - destruct (load_of SchedulingMetricPredictedTpot e), (load_of SchedulingMetricPredictedTpot s); try done. cbn. intros [[= <-]|H']%IH; [|right; by right].
    case_match; [right; left|by left].
  - intros [[= <-]|H']%IH; right; [left|by right].
Qed.

Lemma selector_drawn (order : key_order) sel src dst pairs :
  selector_selectPairs order sel src dst = Some pairs -> forall p, p ∈ pairs -> drawn (ranged order src) (ranged order dst) p.
Proof.
  destruct sel as [sm dm force scope| | |]; cbn.
  - case_decide; [apply pairLists_drawn|]. case_decide; [|intros [= <-] p Hp; by apply elem_of_nil in Hp].
    intros E p Hp. destruct (unit_pairs_drawn _ _ _ _ _ _ _ E p Hp) as (u & Hu).
    eapply drawn_mono; [..|exact Hu]; intros e He; by apply list_elem_of_filter in He as [_ ?].
  - case_decide; [intros [= <-] p Hp; by apply elem_of_nil in Hp|].
    destruct (sort_by by_id (ranged order src)) as [ss|] eqn:Hs; [|done]. cbn.
    destruct (sort_by by_id (ranged order dst)) as [ds|] eqn:Hd; [|done]. cbn. intros [= <-] p Hp%round_robin_drawn.
    eapply drawn_mono; [..|exact Hp]; intros e; [by rewrite (sort_by_perm _ _ _ Hs)|by rewrite (sort_by_perm _ _ _ Hd)].
  - destruct (max_tpot None (ranged order src)) as [o|] eqn:Hs; [|done]. cbn.
    destruct (max_tpot None (ranged order dst)) as [o'|] eqn:Hd; [|done]. cbn. intros [= <-] p.
    destruct o as [s|], o' as [d|]; try (by intros Hp%elem_of_nil). intros ->%list_elem_of_singleton.
    apply max_tpot_in in Hs as [[=]|Hs]. apply max_tpot_in in Hd as [[=]|Hd]. done.
  - destruct (consolidation_dst None (ranged order dst)) as [[d|]|] eqn:Hd; cbn; [| |done].
    2:{ intros [= <-] p Hp. by apply elem_of_nil in Hp. }
    destruct (consolidation_src d None (ranged order src)) as [[s|]|] eqn:Hs; [| |done]; cbn; intros [= <-] p; [|by intros Hp%elem_of_nil].
    intros ->%list_elem_of_singleton. apply consolidation_dst_in in Hd as [[=]|Hd]. apply consolidation_src_in in Hs as [[=]|Hs]. done.
Qed.

Lemma keep_imbalanced_incl n thr pairs kept : keep_imbalanced n thr pairs = Some kept -> forall p, p ∈ kept -> p ∈ pairs.
Proof.
  revert kept. induction pairs as [|q pairs IH]; intros kept; cbn; [by intros [= <-]|].
  destruct (load_of n (srcView q)), (load_of n (dstView q)); try done. cbn.
  destruct (keep_imbalanced n thr pairs) as [rest|]; [|done]. cbn. intros [= <-] p.
  case_match; [intros Hp; right; by eapply IH|]. intros [->|Hp]%elem_of_cons; [left|right; by eapply IH].
Qed.

Lemma selectPairs_drawn (order : key_order) pol src dst pairs :
  selectPairs order pol src dst = Some pairs -> forall p, p ∈ pairs -> drawn (ranged order src) (ranged order dst) p.
Proof.
  unfold selectPairs. destruct (selector_selectPairs order _ src dst) as [ps|] eqn:E; [|done]. cbn.
  intros H p Hp. eapply selector_drawn; [exact E|]. destruct (rp_imbalance pol) as [[n thr]|]; [|congruence].
  unfold acceptLoadImbalancePairs in H. destruct (fle thr f_zero); [congruence|]. by eapply keep_imbalanced_incl.
Qed.

(** ** Destinations are healthy *)

Definition tick_env (order : key_order) (now : string -> Z) : sched_env :=
  mkEnv order (fun _ => 0) now 0 (fun _ => None) (fun _ => None) 0.

(** The destination filters of a policy as a dispatch role. *)
Definition dst_role (p : reschedulingPolicyInternal) : inferTypeBaseDispatchPolicy :=
  mkInferTypePolicy (rp_metrics p) (dstGlobalFilters p) (dstSingleInstanceFilters p) (fixedPreferenceSelector "").

Lemma only_marked_health vs vs' : only_marked vs vs' -> health <$> vs' = health <$> vs.
Proof.
  intros M. apply map_eq. intros id. rewrite !lookup_fmap. specialize (M id).
  destruct (vs !! id), (vs' !! id); try done. destruct M as [b ->]. cbn. by rewrite health_marked.
Qed.

Lemma health_dom vs (vs' : gmap string instanceViewScheduling) : health <$> vs' = health <$> vs -> dom vs' = dom vs.
Proof. intros H. rewrite <- (dom_fmap_L health vs'), H. apply dom_fmap_L. Qed.

Section round.
Context `{LP : LatencyPredictor} (order : key_order) (Ho : visits_once order) (c : SchedulerConfig).

Lemma calculateMetrics_health now req names vs vs' :
  calculateMetrics c now req names vs = Some vs' -> health <$> vs' = health <$> vs.
Proof using. apply traverse_health. intros id iv iv'. apply calculate_one_health. Qed.

Lemma run_policy_inv now p vs pairs vs' :
  run_policy order c now p vs = Some (pairs, vs') -> exists src dst vs1 vs2,
    calculateMetrics c now None (rp_metrics p) vs = Some vs1 /\
    filter_views order now vs1 (srcSingleInstanceFilters p) (srcGlobalFilters p) false = Some (src, vs2) /\
    filter_views order now vs2 (dstSingleInstanceFilters p) (dstGlobalFilters p) false = Some (dst, vs') /\
    selectPairs order p (filter (fun kv => kv.1 ∈ src) vs') (filter (fun kv => kv.1 ∈ dst) vs') = Some pairs.
Proof using.
  unfold run_policy. destruct (calculateMetrics _ _ _ _ vs) as [vs1|]; [|done]. cbn.
  destruct (filter_views _ _ vs1 _ _ _) as [[src vs2]|] eqn:E1; [|done]. cbn.
  destruct (filter_views _ _ vs2 _ _ _) as [[dst vs3]|] eqn:E2; [|done]. cbn.
  destruct (selectPairs _ _ _ _) as [ps|] eqn:E3; [|done]. cbn. intros [= <- <-]. eauto 10.
Qed.

Lemma drawn_filtered (src dst : gset string) vs p :
  drawn (ranged order (filter (fun kv => kv.1 ∈ src) vs)) (ranged order (filter (fun kv => kv.1 ∈ dst) vs)) p ->
  ((srcView p).1 ∈ src /\ vs !! (srcView p).1 = Some (srcView p).2) /\
  ((dstView p).1 ∈ dst /\ vs !! (dstView p).1 = Some (dstView p).2).
Proof using Ho.
  intros [Hs Hd]. destruct (srcView p) as [i iv], (dstView p) as [j jv].
  apply (elem_of_ranged order _ _ _ Ho) in Hs. apply (elem_of_ranged order _ _ _ Ho) in Hd.
  apply map_lookup_filter_Some in Hs as [? ?], Hd as [? ?]. done.
Qed.

Lemma run_policy_safe now p vs pairs vs' :
  safe_role c (dst_role p) -> run_policy order c now p vs = Some (pairs, vs') ->
  health <$> vs' = health <$> vs /\
  forall q, q ∈ pairs -> (srcView q).1 ∈ dom vs /\ ok_in (tick_env order now) c vs (dstView q).1.
Proof using Ho.
  intros Hsafe H. destruct (run_policy_inv _ _ _ _ _ H) as (src & dst & vs1 & vs2 & E1 & E2 & E3 & E4).
  apply calculateMetrics_health in E1. pose proof (filter_views_only_marked _ _ _ _ _ _ _ _ E2) as M2%only_marked_health.
  pose proof (filter_views_only_marked _ _ _ _ _ _ _ _ E3) as M3%only_marked_health.
  assert (health <$> vs' = health <$> vs) as Hh by congruence. split; [done|]. intros q Hq.
  destruct (drawn_filtered _ _ _ _ (selectPairs_drawn _ _ _ _ _ E4 q Hq)) as [[_ Hs] [Hd _]]. split.
  - apply elem_of_dom. destruct (health_lookup _ _ _ _ Hh Hs) as (iv & Hi & _). eauto.
  - eapply ok_in_stable; [|by eapply (filter_views_ok (tick_env order now) c (dst_role p) vs2)]. congruence.
Qed.

(** ** Conflicts *)

Definition no_conflict (pairs : list reschedulingPair) : Prop :=
  forall i j p q, i <> j -> pairs !! i = Some p -> pairs !! j = Some q -> conflict p q = false.

Lemma conflict_sym p q : conflict p q = conflict q p.
Proof using. unfold conflict. rewrite andb_comm. f_equal; apply bool_decide_ext; split; congruence. Qed.

Lemma no_conflict_snoc pairs p :
  no_conflict pairs -> (forall q, q ∈ pairs -> conflict q p = false) -> no_conflict (pairs ++ [p]).
Proof using.
  intros Hn Hp i j a b Hij [Ha|[-> [= <-]]]%lookup_snoc_Some [Hb|[-> [= <-]]]%lookup_snoc_Some.
  - destruct Ha, Hb. by eapply Hn.
  - destruct Ha. apply Hp. by eapply list_elem_of_lookup_2.
  - destruct Hb. rewrite conflict_sym. apply Hp. by eapply list_elem_of_lookup_2.
  - done.
Qed.

Lemma existsb_false {A} (f : A -> bool) l : existsb f l = false -> forall x, x ∈ l -> f x = false.
Proof using.
  intros H x Hx. apply not_true_iff_false. intros Hf. apply not_true_iff_false in H. apply H, existsb_exists.
  exists x. split; [by apply list_elem_of_In|done].
Qed.

Lemma validateAndAppendPairs_spec selected r name pairs :
  no_conflict pairs ->
  no_conflict (validateAndAppendPairs selected r name pairs) /\
  forall q, q ∈ validateAndAppendPairs selected r name pairs ->
    q ∈ pairs \/ exists p, p ∈ selected /\ q = stamp r name p.
Proof using.
  revert pairs. induction selected as [|p selected IH]; intros pairs Hn; cbn; [split; [done|by left]|].
  set (pairs' := if existsb (fun q => conflict q p) pairs then pairs else pairs ++ [stamp r name p]).
  assert (no_conflict pairs' /\ forall q, q ∈ pairs' -> q ∈ pairs \/ q = stamp r name p) as [Hn' Hin].
  { unfold pairs'. destruct (existsb _ pairs) eqn:E; [split; [done|by left]|]. split.
    - apply no_conflict_snoc; [done|]. intros q Hq. exact (existsb_false _ _ E q Hq).
    - intros q [Hq|Hq%list_elem_of_singleton]%elem_of_app; auto. }
  destruct (IH pairs' Hn') as [H1 H2]. split; [done|]. intros q Hq. destruct (H2 q Hq) as [Hq'|(p' & Hp' & ->)].
  - destruct (Hin q Hq') as [| ->]; [by left|right]. exists p. split; [left|done].
  - right. exists p'. split; [by right|done].
Qed.

Lemma getMigrationPairs_safe now policies vs pairs res vs0 :
  (forall p, p ∈ policies -> safe_role c (dst_role p)) -> health <$> vs = health <$> vs0 ->
  no_conflict pairs -> getMigrationPairs order c now policies vs pairs = Some res ->
  no_conflict res /\ forall q, q ∈ res -> q ∈ pairs \/
    (srcView q).1 ∈ dom vs0 /\ exists i, (i < length policies)%nat /\ ok_in (tick_env order (now i)) c vs0 (dstView q).1.
Proof using Ho.
  revert vs pairs. induction policies as [|p policies IH]; intros vs pairs Hsafe Hh Hn; cbn; [intros [= <-]; auto|].
  destruct (run_policy order c (now (length policies)) p vs) as [[sel vs']|] eqn:E; [|done]. cbn. intros H.
  destruct (run_policy_safe _ _ _ _ _ (Hsafe p ltac:(left)) E) as [Hh' Hok].
  destruct (validateAndAppendPairs_spec sel (getMigrationReqSelectPolicy p) (rp_name p) pairs Hn) as [Hn' Hin].
  apply IH in H as [Hres Hall]; [|intros; apply Hsafe; by right|congruence|done]. split; [done|]. intros q Hq.
  destruct (Hall q Hq) as [Hq'|(Hd & i & Hi & Hoki)].
  - destruct (Hin q Hq') as [|(p' & Hp' & ->)]; [by left|right]. destruct (Hok p' Hp') as [Hs Hd]. split.
    + cbn. by rewrite (health_dom _ _ Hh) in Hs.
    + exists (length policies). split; [lia|]. by eapply ok_in_stable.
  - right. split; [done|]. exists i. split; [lia|done].
Qed.

End round.

(** ** Policies built by the registry *)

Lemma safe_role_in c m sif s :
  schedulabilityFilter ∈ sif -> stalenessFilter (InstanceStalenessSeconds c) ∈ sif ->
  safe_role c (mkInferTypePolicy m [failoverFilter (FailoverDomain c)] sif s).
Proof. by split. Qed.

Lemma load_policy_safe c t p : newLoadBalanceRescheduling c t = Some p -> safe_role c (dst_role p).
Proof.
  unfold newLoadBalanceRescheduling. destruct (if decide (t = InferTypeDecode) then _ else _) as [[[m thr] n]|]; [|done].
  cbn -[decide]. destruct (decide _); [done|]. destruct (metric_factory m); [|done]. intros [= <-]. apply safe_role_in; cbn; set_solver.
Qed.

Lemma failover_policy_safe c t p : newFailoverRescheduling c t = Some p -> safe_role c (dst_role p).
Proof.
  unfold newFailoverRescheduling. destruct (if decide (t = InferTypePrefill) then _ else _) as [[m n]|]; [|done]. cbn.
  destruct (metric_factory m); [|done]. intros [= <-]. apply safe_role_in; cbn; set_solver.
Qed.

Lemma rescheduling_policy_safe c n p : newReschedulingPolicyInternal c n = Some p -> safe_role c (dst_role p).
Proof.
  unfold newReschedulingPolicyInternal.
  repeat (case_decide; [first [apply load_policy_safe|apply failover_policy_safe|intros [= <-]; apply safe_role_in; cbn; set_solver]|]).
  done.
Qed.

Lemma rescheduling_policies_safe c policies p :
  newReschedulingPolicy c = Some policies -> p ∈ policies -> safe_role c (dst_role p).
Proof.
  unfold newReschedulingPolicy. intros H%mapM_Some_1 Hp. apply list_elem_of_lookup in Hp as [i Hi].
  destruct (Forall2_lookup_r _ _ _ _ _ H Hi) as (n & _ & Hn). by eapply rescheduling_policy_safe.
Qed.

(** ** Round robin *)

Section round_robin.
Implicit Types (srcs dsts : list (string * instanceViewScheduling)) (e : string * instanceViewScheduling).

Lemma imap_sources (g : nat -> string * instanceViewScheduling -> option reschedulingPair) srcs :
  (forall i e, e ∈ srcs -> exists d, g i e = Some (pair_of e d)) -> srcView <$> omap id (imap g srcs) = srcs.
Proof.
  revert g. induction srcs as [|e srcs IH]; intros g Hg; [done|]. rewrite imap_cons. cbn [omap list_omap].
  destruct (Hg 0%nat e ltac:(left)) as [d Hd]. unfold id at 1. rewrite Hd. cbn. f_equal. apply (IH (g ∘ S)). intros i x Hx. apply Hg. by right.
Qed.

Lemma imap_count (g : nat -> string * instanceViewScheduling -> option reschedulingPair) (P : nat -> Prop)
    `{!forall i, Decision (P i)} srcs dst k :
  (forall i e q, g i e = Some q -> (dstView q).1 = dst -> P (k + i)%nat) ->
  (length (filter (fun q => (dstView q).1 = dst) (omap id (imap g srcs))) <= length (filter P (seq k (length srcs))))%nat.
Proof.
  revert g k. induction srcs as [|e srcs IH]; intros g k Hg; [done|]. rewrite imap_cons. cbn [omap list_omap seq length].
  assert (length (filter (fun q => (dstView q).1 = dst) (omap id (imap (g ∘ S) srcs)))
    <= length (filter P (seq (S k) (length srcs))))%nat as Hle.
  { apply IH. intros i x q Hx Hq. rewrite Nat.add_succ_comm. by eapply Hg. }
  rewrite (filter_cons P). unfold id at 1. destruct (g 0%nat e) as [q|] eqn:Eq; [|case_decide; cbn; lia].
  rewrite filter_cons. destruct (decide ((dstView q).1 = dst)) as [Hd|Hd].
  - rewrite decide_True; [cbn; lia|]. rewrite <- (Nat.add_0_r k). by eapply Hg.
  - case_decide; cbn; lia.
Qed.

Lemma seq_mod_count n m r :
  (0 < m)%nat -> (length (filter (fun i => i mod m = r) (seq 0 n)) <= (n + m - 1) / m)%nat.
Proof.
  intros Hm. rewrite <- (length_fmap (fun i => i / m)%nat), <- (length_seq ((n + m - 1) / m) 0).
  apply NoDup_incl_length.
  - apply NoDup_ListNoDup, NoDup_fmap_2_strong; [|apply list.NoDup_filter, list.NoDup_seq].
    intros i j [Hi _]%list_elem_of_filter [Hj _]%list_elem_of_filter Hij.
    rewrite (Nat.div_mod_eq i m), (Nat.div_mod_eq j m). congruence.
  - intros q Hq. apply list_elem_of_In, list_elem_of_fmap in Hq as (i & -> & [_ Hi]%list_elem_of_filter).
    apply elem_of_seq in Hi. apply in_seq. split; [lia|]. cbn.
    apply Nat.Div0.div_lt_upper_bound. pose proof (Nat.div_mod_eq (n + m - 1) m).
    pose proof (Nat.mod_upper_bound (n + m - 1) m). lia.
Qed.

Section disjoint.
Context (srcs dsts : list (string * instanceViewScheduling)) (Hne : dsts <> []).

Lemma round_robin_sources : (forall s d, s ∈ srcs -> d ∈ dsts -> id_of s <> id_of d) -> srcView <$> round_robin srcs dsts = srcs.
Proof using Hne.
  intros Hdis. apply imap_sources. intros i e He.
  destruct (lookup_lt_is_Some_2 dsts (i mod length dsts)%nat) as [d Hd].
  { apply Nat.mod_upper_bound. by destruct dsts. }
  exists d. rewrite Hd. cbn. rewrite decide_False; [done|]. apply Hdis; [done|]. by eapply list_elem_of_lookup_2.
Qed.

Lemma round_robin_spread d :
  NoDup (fst <$> dsts) ->
  (length (filter (fun q => (dstView q).1 = d) (round_robin srcs dsts)) <= (length srcs + length dsts - 1) / length dsts)%nat.
Proof using Hne.
  intros Hnd. assert (0 < length dsts)%nat as Hm by (destruct dsts; [done|cbn; lia]).
  destruct (decide (d ∈ fst <$> dsts)) as [Hd|Hd].
  - apply list_elem_of_lookup in Hd as [r Hr]. etrans; [|by apply (seq_mod_count (length srcs) (length dsts) r)].
    apply imap_count. intros i e q Hq Hqd. cbn in Hq |- *. destruct (dsts !! _) as [x|] eqn:Hx; [|done]. cbn in Hq.
    case_decide; [done|]. injection Hq as <-. cbn in Hqd. eapply NoDup_lookup; [exact Hnd| |exact Hr].
    by rewrite list_lookup_fmap, Hx, <- Hqd.
  - destruct (filter _ (round_robin srcs dsts)) as [|q l] eqn:E; [cbn; lia|].
    assert (q ∈ filter (fun q => (dstView q).1 = d) (round_robin srcs dsts)) as [Hqd Hq]%list_elem_of_filter by (rewrite E; left).
    apply round_robin_drawn in Hq as [_ Hq]. destruct Hd. rewrite <- Hqd. by apply list_elem_of_fmap_2.
Qed.

End disjoint.
End round_robin.

(** ** Sources of a failover policy *)

Definition unmarked (vs : gmap string instanceViewScheduling) : Prop :=
  forall id iv, vs !! id = Some iv -> needsFailover (v_ctx iv) = false.

Lemma mark_view_failing now secs iv iv' :
  mark_view now secs iv = Some iv' -> needsFailover (v_ctx iv) = false ->
  needsFailover (v_ctx iv') = true <->
  exists cv, cmsView iv = Some cv /\ (Schedulable (cv_Status cv) = false \/ int64 (now - TimestampMs (cv_Status cv)) ÷ 1000 > secs).
Proof.
  unfold mark_view. cbn. destruct (cmsView iv) as [cv|] eqn:Hcv; [|done]. cbn. rewrite Hcv. cbn. intros [= <-] Hn. cbn. rewrite Hn.
  cbn. rewrite orb_true_iff, negb_true_iff, bool_decide_eq_true. split; [eauto|]. by intros (x & [= <-] & H).
Qed.

Section failover_source.
Context (order : key_order) (now : string -> Z) (vs vs' : gmap string instanceViewScheduling).
Context (secs : Z) (domain : string) (t : InferType) (src : gset string) (dp : bool).
Context (H : filter_views order now vs [inferTypeFilter t] [failoverMigrationSrcFilter secs domain] false = Some (src, vs')).
Context (Hdp : isDataParallelEnabled order vs = Some dp) (Hun : unmarked vs).

Lemma failover_source_inv : exists out,
  map_traverse (fun id => mark_view (now id) secs) vs = Some vs' /\
  failoverFilter_filterOutInstances order domain vs' = Some out /\
  forall id, id ∈ src <-> id ∈ out /\ exists iv, vs !! id = Some iv /\ v_GetInferType iv = t.
Proof using H.
  unfold filter_views in H. destruct (run_singles now [inferTypeFilter t] false vs) as [rs|] eqn:E; [|done]. cbn in H.
  assert (forall id, rs !! id = (fun iv => (bool_decide (v_GetInferType iv <> t), iv)) <$> vs !! id) as Hrs.
  { intros id. pose proof (map_traverse_lookup _ _ _ E id) as Hl. destruct (vs !! id), (rs !! id); try done; by injection Hl as <-. }
  assert (snd <$> rs = vs) as Hsnd by (apply map_eq; intros id; rewrite lookup_fmap, Hrs; by destruct (vs !! id)).
  rewrite Hsnd in H. clear Hsnd. destruct (map_traverse _ vs) as [v|] eqn:Em; [|done]. cbn in H.
  destruct (failoverFilter_filterOutInstances order domain v) as [out|] eqn:Eo; [|done]. cbn in H. inv_some.
  exists out. split; [done|]. split; [done|]. intros id. unfold getRemainingInstanceIds.
  rewrite elem_of_difference, elem_of_dom, elem_of_difference, (map_traverse_dom _ _ _ Em), elem_of_dom.
  assert (is_Some (filter (fun kv => kv.2.1 = false) rs !! id) <-> exists iv, vs !! id = Some iv /\ v_GetInferType iv = t) as ->.
  { unfold is_Some. setoid_rewrite map_lookup_filter_Some. rewrite Hrs. destruct (vs !! id) as [iv|]; cbn.
    - split; [intros (x & [= <-] & Hf); cbn in Hf; exists iv; by apply bool_decide_eq_false, dec_stable in Hf|].
      intros (jv & [= <-] & Ht). eexists. split; [done|]. cbn. apply bool_decide_eq_false. by intros [].
    - split; intros (x & Hx & _); discriminate. }
  split.
  - intros [(iv & Hi & Ht) Hn]. split; [|eauto]. apply dec_stable. intros Ho. apply Hn. split; [by eexists|done].
  - intros [Ho (iv & Hi & Ht)]. split; [eauto|]. by intros [_ Hno].
Qed.

Lemma failover_source_marked : only_marked vs vs'.
Proof using H. by eapply filter_views_only_marked. Qed.

Lemma failover_source_failing i : failing vs' i <-> unhealthy now secs vs i.
Proof using H Hun.
  destruct failover_source_inv as (out & Em & _ & _). pose proof (map_traverse_lookup _ _ _ Em i) as Hl. unfold failing, unhealthy.
  destruct (vs !! i) as [iv|] eqn:Hi, (vs' !! i) as [iv'|] eqn:Hi'; try done.
  - pose proof (mark_view_failing _ _ _ _ Hl (Hun _ _ Hi)) as Hm. split.
    + intros (x & [= <-] & Hx). apply Hm in Hx as (cv & Hcv & Hx). eauto.
    + intros (x & cv & [= <-] & Hcv & Hx). exists iv'. split; [done|]. apply Hm. eauto.
  - split; [by intros (x & [=] & _)|by intros (x & cv & [=] & _)].
Qed.

Lemma failover_source_iff id : id ∈ src <->
  exists iv, vs !! id = Some iv /\ v_GetInferType iv = t /\ in_domain domain dp vs (unhealthy now secs vs) id iv.
Proof using All.
  pose proof failover_source_marked as M. destruct failover_source_inv as (out & _ & Eo & Hsrc).
  rewrite <- (isDataParallelEnabled_marked vs vs' M) in Hdp. rewrite Hsrc, (failover_spec order domain vs' out dp Hdp Eo). split.
  - intros [(iv' & Hi' & Hd) (iv & Hi & Ht)]. exists iv. split; [done|]. split; [done|].
    destruct (only_marked_lookup _ _ _ _ M Hi') as (jv & b & Hj & ->). assert (jv = iv) as -> by congruence.
    apply (in_domain_marked vs vs' M) in Hd. eapply in_domain_mono; [|exact Hd]. intros i. apply failover_source_failing.
  - intros (iv & Hi & Ht & Hd). split; [|eauto]. destruct (only_marked_find vs vs' M id iv Hi) as [b Hb].
    exists (marked b iv). split; [done|]. apply (in_domain_marked vs vs' M).
    eapply in_domain_mono; [|exact Hd]. intros i. apply failover_source_failing.
Qed.

End failover_source.

(** ** Destinations of a failover policy *)

Lemma run_single_marks_only now sif fb rej iv rej' iv' :
  run_single now sif fb rej iv = Some (rej', iv') -> needsFailover (v_ctx iv') = true ->
  needsFailover (v_ctx iv) = true \/ exists f out, f ∈ sif /\ verdict now f iv = Some out /\ mark_of f out = true.
Proof.
  revert rej iv. induction sif as [|f sif IH]; intros rej iv; cbn; [intros [= _ <-]; auto|].
  destruct (fb && skipWhenFallback f).
  - intros H Hn. destruct (IH _ _ H Hn) as [|(g & out & Hg & Hx)]; [by left|right]. exists g, out. split; [by right|done].
  - destruct (instanceFilteredOut now f iv) as [[out v]|] eqn:Hf; [|done]. cbn. intros H Hn.
    pose proof (instanceFilteredOut_verdict _ _ _ _ _ Hf) as Hv. apply instanceFilteredOut_marks in Hf as ->.
    destruct (IH _ _ H Hn) as [Hm|(g & o & Hg & Hgv & Hx)].
    + cbn in Hm. apply orb_true_iff in Hm as [|Hm]; [by left|right]. exists f, out. split; [left|done].
    + right. exists g, o. rewrite verdict_marked in Hgv. split; [by right|done].
Qed.

Lemma filter_views_verdict_some (order : key_order) now vs sif domain fb av vs' id iv f :
  filter_views order now vs sif [failoverFilter domain] fb = Some (av, vs') -> vs !! id = Some iv -> f ∈ sif -> active fb f ->
  exists out, verdict (now id) f iv = Some out.
Proof.
  intros H Hi Hf Ha. destruct (filter_views_inv _ _ _ _ _ _ _ _ H) as (rs & out & E & _).
  pose proof (map_traverse_lookup _ _ _ E id) as Hl. rewrite Hi in Hl. destruct (rs !! id) as [[r v]|]; [|done].
  destruct (run_single_spec _ _ _ _ _ _ _ Hl) as (_ & _ & Hm & _). destruct (Hm f Hf Ha) as (o & Ho & _). eauto.
Qed.

Definition failover_dst (t : InferType) (secs : Z) : list singleInstanceFilter :=
  [inferTypeFilter t; schedulabilityFilter; stalenessFilter secs].

Section failover_destination.
Context (order : key_order) (now : string -> Z) (vs vs' : gmap string instanceViewScheduling).
Context (secs : Z) (domain : string) (t : InferType) (dst : gset string) (dp : bool).
Context (H : filter_views order now vs (failover_dst t secs) [failoverFilter domain] false = Some (dst, vs')).
Context (Hdp : isDataParallelEnabled order vs = Some dp) (Hf : forall i, failing vs i -> unhealthy now secs vs i).

(** What the three filters say. *)
Lemma failover_dst_verdicts id iv :
  vs !! id = Some iv ->
  (forall f, f ∈ failover_dst t secs -> active false f -> verdict (now id) f iv = Some false) <->
  v_GetInferType iv = t /\ ~ unhealthy now secs vs id.
Proof using H.
  intros Hi. destruct (filter_views_verdict_some _ _ _ _ _ _ _ _ _ _ schedulabilityFilter H Hi) as [o Ho]; [right; left|done|].
  unfold verdict in Ho. cbn in Ho. destruct (cmsView iv) as [cv|] eqn:Hcv; [|done].
  assert (unhealthy now secs vs id <-> Schedulable (cv_Status cv) = false \/ int64 (now id - TimestampMs (cv_Status cv)) ÷ 1000 > secs) as ->.
  { split; [intros (jv & cv' & Hj & Hcv' & Hu); rewrite Hi in Hj; injection Hj as <-; congruence|]. intros Hu. by exists iv, cv. }
  split.
  - intros Hall. pose proof (Hall (inferTypeFilter t) ltac:(left) eq_refl) as V1.
    pose proof (Hall schedulabilityFilter ltac:(right; left) eq_refl) as V2.
    pose proof (Hall (stalenessFilter secs) ltac:(right; right; left) eq_refl) as V3.
    unfold verdict in V1, V2, V3. cbn in V1, V2, V3. rewrite Hcv in V2, V3. cbn in V2, V3.
    injection V1 as V1. injection V2 as V2. injection V3 as V3. apply bool_decide_eq_false, dec_stable in V1.
    apply negb_false_iff in V2. apply bool_decide_eq_false in V3. split; [done|]. intros [|]; [congruence|done].
  - intros [Ht Hn] f. unfold failover_dst. rewrite !elem_of_cons, elem_of_nil. unfold verdict. intros [->|[->|[->|[]]]] _; cbn; rewrite ?Hcv; cbn; f_equal.
    + apply bool_decide_eq_false. by intros [].
    + apply negb_false_iff. destruct (Schedulable (cv_Status cv)); [done|]. destruct Hn. by left.
    + apply bool_decide_eq_false. intros Hs. apply Hn. by right.
Qed.

Lemma failover_destination_failing i : failing vs' i -> unhealthy now secs vs i.
Proof using H Hf.
  destruct (filter_views_inv _ _ _ _ _ _ _ _ H) as (rs & out & E & -> & _). intros (iv' & Hi' & Hn).
  rewrite lookup_fmap in Hi'. destruct (rs !! i) as [[r v]|] eqn:Hr; [|done]. injection Hi' as ->. cbn in Hn.
  pose proof (map_traverse_lookup _ _ _ E i) as Hl. rewrite Hr in Hl. destruct (vs !! i) as [iv|] eqn:Hi; [|done].
  destruct (run_single_marks_only _ _ _ _ _ _ _ Hl Hn) as [Hm|(f & o & Hin & Hv & Hm)]; [apply Hf; by exists iv|].
  unfold failover_dst in Hin. rewrite !elem_of_cons, elem_of_nil in Hin. unfold verdict in Hv. unfold unhealthy.
  destruct Hin as [->|[->|[->|[]]]]; cbn in Hm, Hv; [done|..]; destruct (cmsView iv) as [cv|] eqn:Hcv; try done; cbn in Hv; injection Hv as Hv;
    rewrite Hm in Hv; exists iv, cv; (split; [done|]); (split; [done|]).
  - left. by apply negb_true_iff in Hv.
  - right. by apply bool_decide_eq_true in Hv.
Qed.

Lemma failover_destination_iff id : id ∈ dst <->
  exists iv, vs !! id = Some iv /\ v_GetInferType iv = t /\ ~ unhealthy now secs vs id /\
    ~ in_domain domain dp vs (unhealthy now secs vs) id iv.
Proof using All.
  rewrite (filter_views_iff order now vs vs' (failover_dst t secs) domain false dst dp H Hdp).
  assert (forall iv, in_domain domain dp vs (failing vs') id iv <-> in_domain domain dp vs (unhealthy now secs vs) id iv) as Hd.
  { intros iv. split; apply in_domain_mono; intros i; [apply failover_destination_failing|].
    apply (filter_views_marks_unhealthy order now vs vs' _ domain false dst H secs i); set_solver. }
  split; intros (iv & Hi & Hx); exists iv; (split; [done|]); rewrite (failover_dst_verdicts id iv Hi), Hd in *; tauto.
Qed.

End failover_destination.

(** ** A round of a failover policy *)

Section failover.
Context (c : SchedulerConfig) (now : string -> Z) (t : InferType) (dp : bool).

(** The instances to drain and those that may receive their requests. *)
Definition to_drain (vs : gmap string instanceViewScheduling) (id : string) : Prop :=
  exists iv, vs !! id = Some iv /\ v_GetInferType iv = t /\
    in_domain (FailoverDomain c) dp vs (unhealthy now (InstanceStalenessSeconds c) vs) id iv.

Definition can_receive (vs : gmap string instanceViewScheduling) (id : string) : Prop :=
  exists iv, vs !! id = Some iv /\ v_GetInferType iv = t /\ ~ unhealthy now (InstanceStalenessSeconds c) vs id /\
    ~ in_domain (FailoverDomain c) dp vs (unhealthy now (InstanceStalenessSeconds c) vs) id iv.

Lemma v_GetInferType_health iv iv' : health iv = health iv' -> v_GetInferType iv = v_GetInferType iv'.
Proof using. intros H. exact (f_equal (fun x => InstInferType x.1.2) H). Qed.

Lemma drain_domain_stable vs (vs' : gmap string instanceViewScheduling) id iv iv' :
  health <$> vs' = health <$> vs -> health iv' = health iv ->
  in_domain (FailoverDomain c) dp vs' (unhealthy now (InstanceStalenessSeconds c) vs') id iv' ->
  in_domain (FailoverDomain c) dp vs (unhealthy now (InstanceStalenessSeconds c) vs) id iv.
Proof using.
  intros E Hh Hd. eapply in_domain_mono; [intros i; apply (unhealthy_stable vs vs' E)|]. by eapply (in_domain_stable vs vs' E).
Qed.

Lemma to_drain_stable vs (vs' : gmap string instanceViewScheduling) id :
  health <$> vs' = health <$> vs -> to_drain vs' id -> to_drain vs id.
Proof using.
  intros E (iv' & Hi & Ht & Hd). destruct (health_lookup _ _ _ _ E Hi) as (iv & Hv & Hh). exists iv.
  rewrite <- (v_GetInferType_health _ _ Hh). split; [done|]. split; [done|]. by eapply drain_domain_stable.
Qed.

Lemma can_receive_stable vs (vs' : gmap string instanceViewScheduling) id :
  health <$> vs' = health <$> vs -> can_receive vs' id -> can_receive vs id.
Proof using.
  intros E (iv' & Hi & Ht & Hu & Hd). destruct (health_lookup _ _ _ _ E Hi) as (iv & Hv & Hh). exists iv.
  rewrite <- (v_GetInferType_health _ _ Hh). split; [done|]. split; [done|]. split.
  - intros Hun. apply Hu. by apply (unhealthy_stable vs' vs (eq_sym E)).
  - intros Hdom. apply Hd. by eapply drain_domain_stable.
Qed.

Lemma drain_not_receive vs id : to_drain vs id -> can_receive vs id -> False.
Proof using. intros (iv & Hi & _ & Hd) (jv & Hj & _ & _ & Hnd). assert (jv = iv) as -> by congruence. done. Qed.

Lemma failover_shape pol : newFailoverRescheduling c t = Some pol ->
  srcSingleInstanceFilters pol = [inferTypeFilter t] /\
  srcGlobalFilters pol = [failoverMigrationSrcFilter (InstanceStalenessSeconds c) (FailoverDomain c)] /\
  dstSingleInstanceFilters pol = failover_dst t (InstanceStalenessSeconds c) /\
  dstGlobalFilters pol = [failoverFilter (FailoverDomain c)] /\
  rp_selector pol = roundRobinSelector /\ rp_imbalance pol = None.
Proof using.
  unfold newFailoverRescheduling. destruct (if decide (t = InferTypePrefill) then _ else _) as [[m n]|]; [|done]. cbn.
  destruct (metric_factory m); [|done]. by intros [= <-].
Qed.

End failover.

Definition keyed (vs : gmap string instanceViewScheduling) : Prop := forall id iv, vs !! id = Some iv -> v_id iv = id.

Section failover_round.
Context `{LP : LatencyPredictor} (order : key_order) (Ho : visits_once order) (c : SchedulerConfig).

Lemma calculate_one_kept now req names iv iv' :
  calculate_one c now req names iv = Some iv' -> v_id iv' = v_id iv /\ needsFailover (v_ctx iv') = needsFailover (v_ctx iv).
Proof using.
  revert iv. induction names as [|n ns IH]; intros iv; cbn; [by intros [= <-]|].
  destruct (metrics (v_ctx iv) !! n); [apply IH|]. destruct (getSchedulingMetric _ _ _ _ _); [|done]. cbn.
  intros H%IH. done.
Qed.

Lemma calculateMetrics_kept now req names vs vs' :
  calculateMetrics c now req names vs = Some vs' -> (unmarked vs -> unmarked vs') /\ (keyed vs -> keyed vs').
Proof using.
  intros H. assert (forall id iv', vs' !! id = Some iv' -> exists iv, vs !! id = Some iv /\
    v_id iv' = v_id iv /\ needsFailover (v_ctx iv') = needsFailover (v_ctx iv)) as K.
  { intros id iv' Hi. pose proof (map_traverse_lookup _ _ _ H id) as Hl. rewrite Hi in Hl.
    destruct (vs !! id) as [iv|]; [|done]. exists iv. split; [done|]. by eapply calculate_one_kept. }
  split; intros Hx id iv' Hi; destruct (K _ _ Hi) as (iv & Hiv & Hid & Hn); [rewrite Hn|rewrite Hid]; by eapply Hx.
Qed.

Lemma keyed_marked vs vs' : only_marked vs vs' -> keyed vs -> keyed vs'.
Proof using. intros M Hk id iv' Hi. destruct (only_marked_lookup _ _ _ _ M Hi) as (iv & b & Hv & ->). by apply (Hk _ _ Hv). Qed.

Lemma ranged_filter (X : gset string) vs e :
  keyed vs -> e ∈ ranged order (filter (fun kv => kv.1 ∈ X) vs) -> e.1 ∈ X /\ id_of e = e.1.
Proof using Ho.
  intros Hk He. destruct e as [id iv]. apply (elem_of_ranged order _ _ _ Ho), map_lookup_filter_Some in He as [Hi Hx].
  split; [done|]. by apply Hk.
Qed.

Lemma ranged_filter_keys (X : gset string) vs :
  X ⊆ dom vs -> (ranged order (filter (fun kv => kv.1 ∈ X) vs)).*1 ≡ₚ elements X.
Proof using Ho.
  intros HX. rewrite (ranged_fst order _ Ho). apply elements_proper. intros id. rewrite elem_of_dom. split.
  - intros [iv Hi]. by apply map_lookup_filter_Some in Hi as [_ ?].
  - intros Hid. destruct (proj1 (elem_of_dom vs id) (HX _ Hid)) as [iv Hi]. exists iv. by apply map_lookup_filter_Some.
Qed.

Lemma round_robin_selected (src dst : gset string) vs pairs :
  keyed vs -> src ⊆ dom vs -> dst ⊆ dom vs -> src ## dst -> dst <> ∅ ->
  selector_selectPairs order roundRobinSelector (filter (fun kv => kv.1 ∈ src) vs) (filter (fun kv => kv.1 ∈ dst) vs) = Some pairs ->
  (srcView <$> pairs).*1 ≡ₚ elements src /\
  forall d, (length (filter (fun q => (dstView q).1 = d) pairs) <= (size src + size dst - 1) / size dst)%nat.
Proof using Ho.
  intros Hk Hs Hd Hdis Hne. set (S := filter (fun kv => kv.1 ∈ src) vs). set (D := filter (fun kv => kv.1 ∈ dst) vs). cbn.
  pose proof (ranged_filter_keys src vs Hs) as Ks. pose proof (ranged_filter_keys dst vs Hd) as Kd. fold S in Ks. fold D in Kd.
  case_decide as Hnil.
  { rewrite Hnil in Kd. cbn in Kd. apply Permutation_nil, elements_empty_iff in Kd. by apply leibniz_equiv in Kd. }
  destruct (sort_by by_id (ranged order S)) as [ss|] eqn:Es; [|done]. cbn.
  destruct (sort_by by_id (ranged order D)) as [ds|] eqn:Ed; [|done]. cbn. intros [= <-].
  apply sort_by_perm in Es. apply sort_by_perm in Ed.
  assert (ds <> []) as Hds by (intros ->; by apply Permutation_nil in Ed).
  assert (length ss = size src) as Ls.
  { rewrite Es, <- (length_fmap fst), Ks. done. }
  assert (length ds = size dst) as Ld.
  { rewrite Ed, <- (length_fmap fst), Kd. done. }
  split.
  - rewrite round_robin_sources; [by rewrite Es, Ks|done|]. intros a b Ha Hb. rewrite Es in Ha. rewrite Ed in Hb.
    destruct (ranged_filter src vs a Hk Ha) as [Ha1 ->], (ranged_filter dst vs b Hk Hb) as [Hb1 ->].
    intros E. apply (Hdis a.1); [done|by rewrite E].
  - intros d. rewrite <- Ls, <- Ld. apply round_robin_spread; [done|]. rewrite Ed, Kd. apply NoDup_elements.
Qed.

Lemma failover_round now t pol vs pairs vs' dp :
  newFailoverRescheduling c t = Some pol -> run_policy order c now pol vs = Some (pairs, vs') ->
  unmarked vs -> keyed vs -> isDataParallelEnabled order vs = Some dp ->
  exists src dst : gset string, (forall id, id ∈ src <-> to_drain c now t dp vs id) /\
    (forall id, id ∈ dst <-> can_receive c now t dp vs id) /\
    (dst <> ∅ -> (srcView <$> pairs).*1 ≡ₚ elements src /\
       forall d, (length (filter (fun q => (dstView q).1 = d) pairs) <= (size src + size dst - 1) / size dst)%nat).
Proof using Ho.
  intros Hpol Hrun Hun Hk Hdp. destruct (failover_shape c t pol Hpol) as (F1 & F2 & F3 & F4 & F5 & F6).
  destruct (run_policy_inv _ _ _ _ _ _ _ Hrun) as (src & dst & vs1 & vs2 & E1 & E2 & E3 & E4).
  rewrite F1, F2 in E2. rewrite F3, F4 in E3. destruct (calculateMetrics_kept _ _ _ _ _ E1) as [Hun1 Hk1].
  specialize (Hun1 Hun). specialize (Hk1 Hk). apply calculateMetrics_health in E1.
  apply (isDataParallelEnabled_stable vs vs1 E1) in Hdp as Hdp1. pose proof (filter_views_only_marked _ _ _ _ _ _ _ _ E2) as M2.
  pose proof (filter_views_only_marked _ _ _ _ _ _ _ _ E3) as M3. pose proof (only_marked_health _ _ M2) as H2.
  pose proof (isDataParallelEnabled_marked vs1 vs2 M2 order) as Hdp2. rewrite Hdp1 in Hdp2.
  assert (forall id, id ∈ src <-> to_drain c now t dp vs id) as Hsrc.
  { intros id. rewrite (failover_source_iff _ _ _ _ _ _ _ _ dp E2 Hdp1 Hun1). split; apply to_drain_stable; congruence. }
  assert (forall id, id ∈ dst <-> can_receive c now t dp vs id) as Hdst.
  { intros id. rewrite (failover_destination_iff _ _ _ _ _ _ _ _ dp E3 Hdp2).
    - split; apply can_receive_stable; congruence.
    - intros i Hi. apply (failover_source_failing _ _ _ _ _ _ _ _ E2 Hun1) in Hi. by apply (unhealthy_stable vs2 vs1 (eq_sym H2)). }
  exists src, dst. split; [done|]. split; [done|]. intros Hne. unfold selectPairs in E4. rewrite F5, F6 in E4.
  pose proof (only_marked_health _ _ M3) as H3. assert (dom vs' = dom vs) as Hdom by (apply health_dom; congruence).
  apply (round_robin_selected src dst vs' pairs).
  - apply (keyed_marked _ _ M3 (keyed_marked _ _ M2 Hk1)).
  - intros id (iv & Hi & _)%Hsrc. rewrite Hdom. apply elem_of_dom. eauto.
  - intros id (iv & Hi & _)%Hdst. rewrite Hdom. apply elem_of_dom. eauto.
  - intros id Hs%Hsrc Hd%Hdst. by eapply drain_not_receive.
  - done.
  - destruct (selector_selectPairs _ _ _ _); [done|done].
Qed.

End failover_round.

(** ** Pairs of a load policy *)

Section load_pairs.
Implicit Types (srcs dsts : list (string * instanceViewScheduling)) (pairs kept : list reschedulingPair).

(** Higher load to lower load. *)
Definition downhill (m : string) (q : reschedulingPair) : Prop :=
  exists ms md, load_of m (srcView q) = Some ms /\ load_of m (dstView q) = Some md /\ Less md ms = true.

Lemma pair_loop_spec m srcs dsts pairs :
  pair_loop m m true srcs dsts = Some pairs ->
  (srcView <$> pairs) `prefix_of` srcs /\ (dstView <$> pairs) `prefix_of` dsts /\ forall q, q ∈ pairs -> downhill m q.
Proof.
  revert dsts pairs. induction srcs as [|s srcs IH]; intros [|d dsts] pairs; cbn;
    try (intros [= <-]; split; [apply prefix_nil|]; split; [apply prefix_nil|]; intros q Hq; by apply elem_of_nil in Hq).
  destruct (load_of m s) as [ms|] eqn:Hs; [|done]. cbn. destruct (load_of m d) as [md|] eqn:Hd; [|done]. cbn.
  destruct (Less md ms) eqn:Hl; cbn;
    [|intros [= <-]; split; [apply prefix_nil|]; split; [apply prefix_nil|]; intros q Hq; by apply elem_of_nil in Hq].
  destruct (pair_loop m m true srcs dsts) as [rest|] eqn:E; [|done]. cbn. intros [= <-]. destruct (IH _ _ E) as (H1 & H2 & H3).
  split; [by apply prefix_cons|]. split; [by apply prefix_cons|]. intros q [->|Hq]%elem_of_cons; [|by apply H3].
  by exists ms, md.
Qed.

Lemma prefix_NoDup {A} (l k : list A) : l `prefix_of` k -> NoDup k -> NoDup l.
Proof. intros [r ->]. by intros [? _]%list.NoDup_app. Qed.

Definition one_to_one (m : string) (pairs : list reschedulingPair) : Prop :=
  NoDup (srcView <$> pairs) /\ NoDup (dstView <$> pairs) /\ forall q, q ∈ pairs -> downhill m q.

Lemma pairLists_one_to_one m srcs dsts pairs :
  pairLists m m true srcs dsts = Some pairs -> NoDup srcs -> NoDup dsts -> one_to_one m pairs.
Proof.
  unfold pairLists. destruct (sort_by _ srcs) as [ss|] eqn:Hs; [|done]. cbn. destruct (sort_by _ dsts) as [ds|] eqn:Hd; [|done]. cbn.
  intros E Hns Hnd. destruct (pair_loop_spec _ _ _ _ E) as (H1 & H2 & H3).
  rewrite <- (sort_by_perm _ _ _ Hs) in Hns. rewrite <- (sort_by_perm _ _ _ Hd) in Hnd. split; [by eapply prefix_NoDup|].
  split; [by eapply prefix_NoDup|done].
Qed.

Lemma concat_NoDup {A B C} (f : A -> option (list B)) (g : B -> C) (key : C -> option A) us pss :
  mapM f us = Some pss -> NoDup us ->
  (forall u ps, u ∈ us -> f u = Some ps -> NoDup (g <$> ps) /\ forall p, p ∈ ps -> key (g p) = Some u) ->
  NoDup (g <$> concat pss) /\ forall p, p ∈ concat pss -> exists u, u ∈ us /\ key (g p) = Some u.
Proof.
  intros H%mapM_Some_1. induction H as [|u ps us pss Hu Hrest IH]; intros Hnd Hf; cbn.
  { split; [constructor|]. intros p Hp. by apply elem_of_nil in Hp. }
  apply list.NoDup_cons in Hnd as [Hnu Hnd]. destruct (Hf u ps) as [Hps Hkey]; [left|done|].
  destruct IH as [IH1 IH2]; [done|intros; apply Hf; [by right|done]|]. split.
  - rewrite fmap_app, list.NoDup_app. split; [done|]. split; [|done]. intros x (p & -> & Hp)%list_elem_of_fmap (q & Hq & Hq')%list_elem_of_fmap.
    destruct (IH2 q Hq') as (u' & Hu' & Hk). rewrite <- Hq, (Hkey p Hp) in Hk. injection Hk as ->. done.
  - intros p [Hp|Hp]%elem_of_app; [exists u; split; [left|by apply Hkey]|]. destruct (IH2 p Hp) as (u' & ? & ?). exists u'. split; [by right|done].
Qed.

Lemma in_unit_NoDup u l : NoDup l -> NoDup (in_unit u l).
Proof. apply list.NoDup_filter. Qed.

Lemma unit_pairs_one_to_one (order : key_order) m srcs dsts pairs :
  visits_once order -> unit_pairs order m m true srcs dsts = Some pairs -> NoDup srcs -> NoDup dsts ->
  one_to_one m pairs /\ forall q, q ∈ pairs -> exists u, unit_of (srcView q) = Some u /\ unit_of (dstView q) = Some u.
Proof.
  intros Ho. unfold unit_pairs. destruct (units srcs) as [us|]; [|done]. cbn. destruct (units dsts) as [ud|]; [|done]. cbn.
  destruct (mapM _ _) as [pss|] eqn:E; [|done]. cbn. intros [= <-] Hs Hd.
  assert (NoDup (filter (fun u => u ∈ ud) (order us))) as Hu by apply list.NoDup_filter, (NoDup_order order us Ho).
  assert (forall u ps, pairLists m m true (in_unit u srcs) (in_unit u dsts) = Some ps ->
    one_to_one m ps /\ forall p, p ∈ ps -> unit_of (srcView p) = Some u /\ unit_of (dstView p) = Some u) as Hone.
  { intros u ps Hps. split; [eapply pairLists_one_to_one; [exact Hps|by apply in_unit_NoDup..]|].
    intros p Hp. destruct (pairLists_drawn _ _ _ _ _ _ Hps p Hp) as [H1 H2].
    apply list_elem_of_filter in H1 as [? _], H2 as [? _]. done. }
  destruct (concat_NoDup _ srcView unit_of _ _ E Hu) as [Hns _]; [intros u ps _ Hps; destruct (Hone u ps Hps) as [[? _] ?]; split; [done|firstorder]|].
  destruct (concat_NoDup _ dstView unit_of _ _ E Hu) as [Hnd _]; [intros u ps _ Hps; destruct (Hone u ps Hps) as [(_ & ? & _) ?]; split; [done|firstorder]|].
  assert (forall q, q ∈ concat pss -> exists u ps, pairLists m m true (in_unit u srcs) (in_unit u dsts) = Some ps /\ q ∈ ps) as Hq.
  { intros q Hq. apply list_elem_of_In, in_concat in Hq as (ps & Hps & Hq). apply list_elem_of_In, list_elem_of_lookup in Hps as [i Hi].
    apply mapM_Some_1 in E. destruct (Forall2_lookup_r _ _ _ _ _ E Hi) as (u & _ & Hps). exists u, ps. split; [done|by apply list_elem_of_In]. }
  split.
  - split; [done|]. split; [done|]. intros q (u & ps & Hps & Hin)%Hq. destruct (Hone u ps Hps) as [(_ & _ & Hdown) _]. by apply Hdown.
  - intros q (u & ps & Hps & Hin)%Hq. exists u. by apply (Hone u ps Hps).
Qed.

Lemma keep_imbalanced_spec n thr pairs kept :
  keep_imbalanced n thr pairs = Some kept -> kept `sublist_of` pairs /\
  forall q, q ∈ kept -> exists ms md, load_of n (srcView q) = Some ms /\ load_of n (dstView q) = Some md /\
    flt (f32_sub (GetValue ms) (GetValue md)) thr = false.
Proof.
  revert kept. induction pairs as [|p pairs IH]; intros kept; cbn.
  { intros [= <-]. split; [constructor|]. intros q Hq. by apply elem_of_nil in Hq. }
  destruct (load_of n (srcView p)) as [ms|] eqn:Hs; [|done]. cbn. destruct (load_of n (dstView p)) as [md|] eqn:Hd; [|done]. cbn.
  destruct (keep_imbalanced n thr pairs) as [rest|]; [|done]. cbn. destruct (IH rest eq_refl) as [Hsub Hall]. intros [= <-].
  destruct (flt _ thr) eqn:Hf.
  - split; [by constructor|done].
  - split; [by constructor|]. intros q [->|Hq]%elem_of_cons; [|by apply Hall]. by exists ms, md.
Qed.

End load_pairs.

(** ** Theorems *)

Definition resched_config (policies : string) (adaptivePD : bool) : SchedulerConfig :=
  mkConfig SchedulingPolicyLoadBalance true false false adaptivePD true true 0 64 1
    SchedulingMetricNumRequests (f32_of_Z 100) SchedulingMetricAllPrefillsTokensNum (f32_of_Z 100000)
    SchedulingMetricDecodeBatchSize (f32_of_Z 100) SchedulingMetricKVCacheHitLen 1024
    (f32_of_Z 1000) (f32_of_Z 50) (f32_of_Z 1) (f32_of_Z 1) (f32_of_Z 1) (f32_of_Z 1) FailoverDomainInstance 60
    policies SchedulingMetricNumWaitingRequests f_zero SchedulingMetricNumWaitingRequests SchedulingMetricNumWaitingRequests f_zero
    "SR" MigrationReqSelectRuleToken (f32_of_Z 1024) f_zero ReschedulingLoadBalanceScopeCluster.

(** C37. Every migration of a round goes from an instance of the CMS to one that, when its
    policy ran, was schedulable, not stale and outside the failover domain of every
    unschedulable or stale instance; and a round never migrates both from A to B and
    from B to A. *)
Theorem migrations_safe `{LP : LatencyPredictor} (order : key_order) c now policies cms pairs :
  visits_once order -> newReschedulingPolicy c = Some policies -> reschedule order c now policies cms = Some pairs ->
  no_conflict pairs /\
  forall q, q ∈ pairs -> (srcView q).1 ∈ dom (cms_views cms) /\
    exists i, (i < length policies)%nat /\ ok_in (tick_env order (now i)) c (cms_views cms) (dstView q).1.
Proof.
  intros Ho Hp H. destruct (getMigrationPairs_safe order Ho c now policies (cms_views cms) [] pairs (cms_views cms)) as [Hn Hall].
  - intros p. by eapply rescheduling_policies_safe.
  - done.
  - intros i j p q _ Hi. by rewrite lookup_nil in Hi.
  - exact H.
  - split; [done|]. intros q Hq. destruct (Hall q Hq) as [Hq'|]; [by apply elem_of_nil in Hq'|done].
Qed.

Lemma migrations_safe_witness :
  exists policies pairs,
    newReschedulingPolicy (resched_config "decode_failover,decode_load" false) = Some policies /\
    reschedule (LP := demo_predictor) elements (resched_config "decode_failover,decode_load" false) (fun _ _ => 0) policies
      (cluster_client [("d1", "u"); ("d2", "x"); ("d3", "x")]) = Some pairs /\
    ((fun q => ((srcView q).1, (dstView q).1)) <$> pairs) = [("d1", "d2")] /\ no_conflict pairs.
Proof.
  destruct (newReschedulingPolicy (resched_config "decode_failover,decode_load" false)) as [policies|] eqn:Hp;
    [|vm_compute in Hp; discriminate].
  assert (exists pairs, reschedule (LP := demo_predictor) elements (resched_config "decode_failover,decode_load" false) (fun _ _ => 0)
    policies (cluster_client [("d1", "u"); ("d2", "x"); ("d3", "x")]) = Some pairs /\
    ((fun q => ((srcView q).1, (dstView q).1)) <$> pairs) = [("d1", "d2")]) as (pairs & Hr & Hi).
  { vm_compute in Hp. injection Hp as <-. eexists. split; vm_compute; reflexivity. }
  exists policies, pairs. split; [reflexivity|]. split; [exact Hr|]. split; [exact Hi|].
  apply (migrations_safe (LP := demo_predictor) elements (resched_config "decode_failover,decode_load" false) (fun _ _ => 0)
    policies (cluster_client [("d1", "u"); ("d2", "x"); ("d3", "x")]) pairs).
  - exact elements_visits.
  - exact Hp.
  - exact Hr.
Defined.

(** A failover policy drains every failing instance of its role: whenever one healthy
    instance of the role can receive requests, the sources of the round are exactly
    the instances of the role in the failover domain of an unschedulable or stale
    instance, each once, whatever the iteration order, and the destinations share them
    evenly. *)
Theorem failover_drains `{LP : LatencyPredictor} (order : key_order) c now t pol vs pairs vs' dp :
  visits_once order -> newFailoverRescheduling c t = Some pol -> run_policy order c now pol vs = Some (pairs, vs') ->
  unmarked vs -> keyed vs -> isDataParallelEnabled order vs = Some dp ->
  (exists id, can_receive c now t dp vs id) ->
  NoDup (srcView <$> pairs).*1 /\
  (forall id, id ∈ (srcView <$> pairs).*1 <-> to_drain c now t dp vs id) /\
  exists receivers : gset string, (forall id, id ∈ receivers <-> can_receive c now t dp vs id) /\
    forall d, (length (filter (fun q => (dstView q).1 = d) pairs) <= (length pairs + size receivers - 1) / size receivers)%nat.
Proof.
  intros Ho Hpol Hrun Hun Hk Hdp [id0 Hid0].
  destruct (failover_round order Ho c now t pol vs pairs vs' dp Hpol Hrun Hun Hk Hdp) as (src & dst & Hsrc & Hdst & H).
  destruct H as [Hp Hspread]; [intros ->; apply Hdst in Hid0; set_solver|]. split; [rewrite Hp; apply NoDup_elements|]. split.
  - intros id. rewrite Hp, elem_of_elements. apply Hsrc.
  - exists dst. split; [done|]. assert (length pairs = size src) as ->; [|done].
    apply Permutation_length in Hp. by rewrite !length_fmap in Hp.
Qed.

Lemma failover_drains_witness :
  exists pol pairs vs',
    newFailoverRescheduling (resched_config "" false) InferTypeDecode = Some pol /\
    run_policy (LP := demo_predictor) elements (resched_config "" false) (fun _ => 0) pol
      (cms_views (cluster_client [("d1", "u"); ("d2", "x"); ("d3", "u")])) = Some (pairs, vs') /\
    NoDup (srcView <$> pairs).*1 /\
    (forall id, id ∈ (srcView <$> pairs).*1 <->
       to_drain (resched_config "" false) (fun _ => 0) InferTypeDecode false (cms_views (cluster_client [("d1", "u"); ("d2", "x"); ("d3", "u")])) id).
Proof.
  destruct (newFailoverRescheduling (resched_config "" false) InferTypeDecode) as [pol|] eqn:Hpol; [|vm_compute in Hpol; discriminate].
  assert (exists pairs vs', run_policy (LP := demo_predictor) elements (resched_config "" false) (fun _ => 0) pol
    (cms_views (cluster_client [("d1", "u"); ("d2", "x"); ("d3", "u")])) = Some (pairs, vs')) as (pairs & vs' & Hrun).
  { vm_compute in Hpol. injection Hpol as <-. eexists _, _. vm_compute. reflexivity. }
  exists pol, pairs, vs'. split; [reflexivity|]. split; [exact Hrun|].
  destruct (failover_drains (LP := demo_predictor) elements (resched_config "" false) (fun _ => 0) InferTypeDecode pol
    (cms_views (cluster_client [("d1", "u"); ("d2", "x"); ("d3", "u")])) pairs vs' false) as (H1 & H2 & _).
  - exact elements_visits.
  - exact Hpol.
  - exact Hrun.
  - assert (map_Forall (fun _ iv => needsFailover (v_ctx iv) = false) (cms_views (cluster_client [("d1", "u"); ("d2", "x"); ("d3", "u")]))) as H
      by (refine (bool_decide_unpack _ _); vm_compute; exact I). exact H.
  - assert (map_Forall (fun id iv => v_id iv = id) (cms_views (cluster_client [("d1", "u"); ("d2", "x"); ("d3", "u")]))) as H
      by (refine (bool_decide_unpack _ _); vm_compute; exact I). exact H.
  - vm_compute. reflexivity.
  - exists "d2". eexists. split; [vm_compute; reflexivity|]. split; [vm_compute; reflexivity|].
    assert (~ unhealthy (fun _ => 0) 60 (cms_views (cluster_client [("d1", "u"); ("d2", "x"); ("d3", "u")])) "d2") as Hn.
    { intros (iv & cv & Hi & Hcv & Hu). vm_compute in Hi. injection Hi as <-. cbn in Hcv. injection Hcv as <-. cbn in Hu.
      destruct Hu as [|Hu]; [discriminate|]. vm_compute in Hu. discriminate. }
    split; [exact Hn|exact Hn].
  - exact (conj H1 H2).
Defined.

Lemma load_shape c t pol : newLoadBalanceRescheduling c t = Some pol ->
  exists m, rp_metrics pol = [m] /\ inferTypeFilter t ∈ srcSingleInstanceFilters pol /\ inferTypeFilter t ∈ dstSingleInstanceFilters pol /\
    rp_selector pol = metricBalanceSelector m m true (ReschedulingLoadBalanceScope c) /\
    rp_imbalance pol = Some (m, ReschedulingLoadBalanceThreshold c) /\
    (ReschedulingLoadBalanceScope c = ReschedulingLoadBalanceScopeCluster \/ ReschedulingLoadBalanceScope c = ReschedulingLoadBalanceScopeUnit).
Proof.
  unfold newLoadBalanceRescheduling. destruct (if decide (t = InferTypeDecode) then _ else _) as [[[m thr] n]|]; [|done].
  cbn -[decide]. destruct (decide _) as [|Hs]; [done|]. destruct (metric_factory m); [|done]. intros [= <-]. exists m. cbn.
  split; [done|]. split; [left|]. split; [left|]. split; [done|]. split; [done|].
  destruct (decide (ReschedulingLoadBalanceScope c = ReschedulingLoadBalanceScopeCluster)); [by left|right].
  apply dec_stable. intros Hn. by apply Hs.
Qed.

Lemma available_role (order : key_order) now vs sif gf av vs' t id iv :
  filter_views order now vs sif gf false = Some (av, vs') -> inferTypeFilter t ∈ sif -> id ∈ av -> vs' !! id = Some iv ->
  v_GetInferType iv = t.
Proof.
  intros E Ht Hid Hi. destruct (filter_views_verdicts _ _ _ _ _ _ _ _ _ E Hid) as (jv & Hj & Hall).
  pose proof (Hall _ Ht eq_refl) as V. unfold verdict in V. cbn in V. injection V as V%bool_decide_eq_false%dec_stable.
  destruct (only_marked_lookup _ _ _ _ (filter_views_only_marked _ _ _ _ _ _ _ _ E) Hi) as (kv & b & Hk & ->).
  assert (kv = jv) as -> by congruence. done.
Qed.

Lemma entries_NoDup (order : key_order) vs (es : list (string * instanceViewScheduling)) :
  visits_once order -> (forall e, e ∈ es -> e ∈ ranged order vs) -> NoDup es -> NoDup es.*1.
Proof.
  intros Ho He Hnd. apply NoDup_fmap_2_strong; [|done]. intros [i iv] [j jv] Hx Hy Hij. cbn in Hij. subst j.
  apply He, (elem_of_ranged order vs i iv Ho) in Hx. apply He, (elem_of_ranged order vs i jv Ho) in Hy. congruence.
Qed.

Lemma ranged_NoDup (order : key_order) vs : visits_once order -> NoDup (ranged order vs).
Proof. intros Ho. rewrite (ranged_Permutation order vs Ho). apply NoDup_map_to_list. Qed.

Lemma load_selected (order : key_order) m scope src dst pairs :
  visits_once order -> selector_selectPairs order (metricBalanceSelector m m true scope) src dst = Some pairs ->
  one_to_one m pairs /\
  (scope = ReschedulingLoadBalanceScopeUnit -> forall q, q ∈ pairs -> exists u, unit_of (srcView q) = Some u /\ unit_of (dstView q) = Some u).
Proof.
  intros Ho. cbn. pose proof (ranged_NoDup order src Ho) as Hs. pose proof (ranged_NoDup order dst Ho) as Hd. case_decide as E1.
  { intros H. split; [by eapply pairLists_one_to_one|]. intros E2. rewrite E1 in E2. discriminate. }
  case_decide; [|intros [= <-]; split; [split; [constructor|split; [constructor|]]; intros q Hq; by apply elem_of_nil in Hq|done]].
  intros H'. destruct (unit_pairs_one_to_one order m _ _ _ Ho H' Hs Hd) as [? Hu]. split; [done|]. intros _. exact Hu.
Qed.

Lemma selectPairs_load (order : key_order) pol m thr scope src dst pairs :
  visits_once order -> rp_selector pol = metricBalanceSelector m m true scope -> rp_imbalance pol = Some (m, thr) ->
  selectPairs order pol src dst = Some pairs ->
  one_to_one m pairs /\
  forall q, q ∈ pairs ->
    (fle thr f_zero = false -> exists ms md, load_of m (srcView q) = Some ms /\ load_of m (dstView q) = Some md /\
       flt (f32_sub (GetValue ms) (GetValue md)) thr = false) /\
    (scope = ReschedulingLoadBalanceScopeUnit -> exists u, unit_of (srcView q) = Some u /\ unit_of (dstView q) = Some u).
Proof.
  intros Ho Hsel Him. unfold selectPairs. rewrite Hsel, Him.
  destruct (selector_selectPairs order _ src dst) as [ps|] eqn:E; [|done]. cbn [mbind option_bind].
  destruct (load_selected _ _ _ _ _ _ Ho E) as [(Hs & Hd & Hdown) Hu]. unfold acceptLoadImbalancePairs.
  destruct (fle thr f_zero); [intros [= <-]; split; [done|]; intros q Hq; split; [done|intros Esc; by apply Hu]|].
  intros Hk. destruct (keep_imbalanced_spec _ _ _ _ Hk) as [Hsub Hall].
  assert (forall q, q ∈ pairs -> q ∈ ps) as Hin by (intros q; by apply (keep_imbalanced_incl m thr)). split.
  - split; [eapply sublist_NoDup; [exact Hs|by apply fmap_sublist]|]. split; [eapply sublist_NoDup; [exact Hd|by apply fmap_sublist]|]. auto.
  - intros q Hq. split; [intros _; by apply Hall|intros Esc; by apply Hu, Hin].
Qed.

(** A load policy migrates between instances of its role only, always from higher
    to lower load and, with a threshold, only when the loads differ by at least that
    much; in the unit scope both are in the same unit; no instance is the source of
    two pairs or the destination of two. *)
Theorem load_balance_migrations `{LP : LatencyPredictor} (order : key_order) c now t pol vs pairs vs' :
  visits_once order -> newLoadBalanceRescheduling c t = Some pol -> run_policy order c now pol vs = Some (pairs, vs') ->
  exists m, rp_metrics pol = [m] /\ NoDup (srcView <$> pairs).*1 /\ NoDup (dstView <$> pairs).*1 /\
  forall q, q ∈ pairs ->
    (v_GetInferType (srcView q).2 = t /\ v_GetInferType (dstView q).2 = t) /\ downhill m q /\
    (fle (ReschedulingLoadBalanceThreshold c) f_zero = false -> exists ms md,
       load_of m (srcView q) = Some ms /\ load_of m (dstView q) = Some md /\
       flt (f32_sub (GetValue ms) (GetValue md)) (ReschedulingLoadBalanceThreshold c) = false) /\
    (ReschedulingLoadBalanceScope c = ReschedulingLoadBalanceScopeUnit -> exists u,
       unit_of (srcView q) = Some u /\ unit_of (dstView q) = Some u).
Proof.
  intros Ho Hpol Hrun. destruct (load_shape c t pol Hpol) as (m & Hm & Hts & Htd & Hsel & Him & _). exists m. split; [done|].
  destruct (run_policy_inv _ _ _ _ _ _ _ Hrun) as (src & dst & vs1 & vs2 & E1 & E2 & E3 & E4).
  destruct (selectPairs_load order pol m _ _ _ _ _ Ho Hsel Him E4) as [(Hns & Hnd & Hdown) Hall].
  pose proof (selectPairs_drawn _ _ _ _ _ E4) as Hdr.
  assert (forall q, q ∈ pairs -> v_GetInferType (srcView q).2 = t /\ v_GetInferType (dstView q).2 = t) as Hrole.
  { intros q Hq. destruct (drawn_filtered order Ho _ _ _ _ (Hdr q Hq)) as [[Hs Hsi] [Hd Hdi]]. split.
    - destruct (only_marked_lookup _ _ _ _ (filter_views_only_marked _ _ _ _ _ _ _ _ E3) Hsi) as (jv & b & Hj & Eb).
      rewrite Eb. exact (available_role _ _ _ _ _ _ _ _ _ _ E2 Hts Hs Hj).
    - exact (available_role _ _ _ _ _ _ _ _ _ _ E3 Htd Hd Hdi). }
  split; [|split].
  - eapply entries_NoDup; [exact Ho| |exact Hns]. intros e (q & -> & Hq)%list_elem_of_fmap. exact (proj1 (Hdr q Hq)).
  - eapply entries_NoDup; [exact Ho| |exact Hnd]. intros e (q & -> & Hq)%list_elem_of_fmap. exact (proj2 (Hdr q Hq)).
  - intros q Hq. split; [by apply Hrole|]. split; [by apply Hdown|]. by apply Hall.
Qed.

Lemma load_balance_migrations_witness :
  exists pol pairs vs',
    newLoadBalanceRescheduling (resched_config "" false) InferTypeDecode = Some pol /\
    run_policy (LP := demo_predictor) elements (resched_config "" false) (fun _ => 0) pol
      (cms_views (cluster_client [("d1", "x"); ("d2", "xxx"); ("d3", "xx")])) = Some (pairs, vs') /\
    ((fun q => ((srcView q).1, (dstView q).1)) <$> pairs) = [("d2", "d1")] /\
    NoDup (srcView <$> pairs).*1.
Proof.
  destruct (newLoadBalanceRescheduling (resched_config "" false) InferTypeDecode) as [pol|] eqn:Hpol; [|vm_compute in Hpol; discriminate].
  assert (exists pairs vs', run_policy (LP := demo_predictor) elements (resched_config "" false) (fun _ => 0) pol
    (cms_views (cluster_client [("d1", "x"); ("d2", "xxx"); ("d3", "xx")])) = Some (pairs, vs') /\
    ((fun q => ((srcView q).1, (dstView q).1)) <$> pairs) = [("d2", "d1")]) as (pairs & vs' & Hrun & Hi).
  { vm_compute in Hpol. injection Hpol as <-. eexists _, _. split; vm_compute; reflexivity. }
  exists pol, pairs, vs'. split; [reflexivity|]. split; [exact Hrun|]. split; [exact Hi|].
  destruct (load_balance_migrations (LP := demo_predictor) elements (resched_config "" false) (fun _ => 0) InferTypeDecode pol
    (cms_views (cluster_client [("d1", "x"); ("d2", "xxx"); ("d3", "xx")])) pairs vs' elements_visits Hpol Hrun) as (m & _ & H & _).
  exact H.
Defined.
