(* ===== verification/SchedulerService.v ===== *)
(** * The scheduler's HTTP service

    [pkg/scheduler/service/scheduler_service.go]: the handlers a gateway calls. The
    service owns the dispatch policy and the local realtime state; a handler is one
    step on both. In lite mode (no full-mode scheduling, no standalone rescheduling)
    it records every scheduled request in the local realtime state until the gateway
    reports its release.

    A body is [None] when reading it failed. JSON decoding is the class [JsonDecoder];
    the answer is the HTTP status and the request that is marshalled into the body.
    The websocket of [handleKeepalive] is split at its two ends: the handshake and
    the callback that runs when the connection is lost. The routing of paths, the
    health check and the metrics page are left out. *)

From stdpp Require Import base gmap sets list strings numbers.
From S2P Require Import Prelude GoStrings GoFloat Types Lrs LrsSpec LrsClient CmsTypes LocalAccount Metrics Filters Selectors Predictor PrefixCache CmsReadClient Dispatch Registry DispatchSpec.

Local Open Scope Z_scope.

Class JsonDecoder := {
  Unmarshal_request : string -> option SchedulingRequest;
  Unmarshal_reports : string -> option (list RequestReportData)
}.

(** ** State and answers *)

Record SchedulerService := mkService {
  ss_policy : DispatchPolicy;
  ss_lrs : LocalRealtimeStateClient;
  StandaloneReschedulingMode : bool
}.

Definition set_lrs (c : LocalRealtimeStateClient) (ss : SchedulerService) : SchedulerService :=
  mkService (ss_policy ss) c (StandaloneReschedulingMode ss).
Definition set_ss_policy (d : DispatchPolicy) (ss : SchedulerService) : SchedulerService :=
  mkService d (ss_lrs ss) (StandaloneReschedulingMode ss).

Definition full_mode (ss : SchedulerService) : bool := EnableFullModeScheduling (dp_config (ss_policy ss)).

Definition EnableRequestStateTracking (ss : SchedulerService) : bool :=
  negb (full_mode ss) && negb (StandaloneReschedulingMode ss).

Record response := mkResponse { status : Z; body : option SchedulingRequest }.

Definition StatusOK : Z := 200.
Definition StatusBadRequest : Z := 400.
Definition StatusNotFound : Z := 404.
Definition StatusTooManyRequests : Z := 429.

Definition with_result (res : SchedulingResult) (q : SchedulingRequest) : SchedulingRequest :=
  mkSchedulingRequest (sr_Id q) (sr_Model q) (sr_GatewayId q) (sr_SchedulingMode q) (sr_SchedulingStage q)
    (sr_PromptNumTokens q) (sr_PromptTokenIds q) res.

Definition classifySchedulingError (e : error) : string :=
  match e with
  | ErrorEndpointNotFound => "endpoint_not_found"
  | ErrorNoAvailableEndpoint => "no_available_endpoint"
  | ErrorAllEndpointBusy => "all_endpoints_busy"
  | ErrorNoMatchInferType => "no_match_infer_type"
  | ErrorCmsNotAvailable => "cms_not_available"
  | ErrorSchedulerNotReady => "scheduler_not_ready"
  | _ => "unknown"
  end.

Definition schedule_status (e : error) : Z :=
  match e with
  | ErrorEndpointNotFound => StatusNotFound
  | ErrorNoAvailableEndpoint => StatusTooManyRequests
  | _ => StatusBadRequest
  end.

(** ** Instances and gateways

    The goroutine of [NewSchedulerService] that applies resolver events runs only when
    requests are tracked. *)

Definition add_instances (order : key_order) (ws : list LLMInstance) (ss : SchedulerService) : SchedulerService :=
  set_lrs (fold_left (fun c w => client_AddInstance order w c) ws (ss_lrs ss)) ss.

Definition del_instances (order : key_order) (ws : list LLMInstance) (ss : SchedulerService) : SchedulerService :=
  set_lrs (fold_left (fun c w => client_RemoveInstance order (InstInferType w) (LLMInstance_Id w).1 c) ws (ss_lrs ss)) ss.

Definition keepalive_connected (remote : Endpoint) (ss : SchedulerService) : SchedulerService :=
  if EnableRequestStateTracking ss then set_lrs (client_AddGateway (Endpoint_String remote) (ss_lrs ss)) ss else ss.

Definition keepalive_lost (order : key_order) (remote : Endpoint) (ss : SchedulerService) : SchedulerService :=
  if EnableRequestStateTracking ss then set_lrs (client_RemoveGateway order (Endpoint_String remote) (ss_lrs ss)) ss else ss.

(** ** The handlers *)

(** The loop of [handleSchedule] that records the request on every instance it was
    sent to; a failed allocation is only logged. *)
Definition allocate_results (now : Z) (q : SchedulingRequest) (res : SchedulingResult) (c : LocalRealtimeStateClient)
    : LocalRealtimeStateClient :=
  fold_left (fun c inst =>
    (client_AllocateRequestState (InstInferType inst)
       (NewRequestState now (sr_Id q) (int64 (sr_PromptNumTokens q)) (LLMInstance_Id inst).1 (sr_GatewayId q)) c).1) res c.

Definition release_results (now : Z) (q : SchedulingRequest) (c : LocalRealtimeStateClient) : LocalRealtimeStateClient :=
  fold_left (fun c inst =>
    client_ReleaseRequestState (InstInferType inst)
      (NewRequestState now (sr_Id q) 0 (LLMInstance_Id inst).1 (sr_GatewayId q)) c) (sr_SchedulingResult q) c.

Definition report_step (now : Z) (c : LocalRealtimeStateClient) (data : RequestReportData) : LocalRealtimeStateClient :=
  let reqState := NewRequestState now (rd_Id data) (int64 (rd_NumTokens data)) (rd_InstanceId data) (rd_GatewayId data) in
  match rd_Kind data with
  | KindPrefillDone => (client_MarkPrefillComplete (rd_InferType data) reqState c).1
  | KindStateUpdate => (client_UpdateRequestState (rd_InferType data) reqState c).1
  end.

Section handlers.
Context {LP : LatencyPredictor} {JD : JsonDecoder}.

(** [None] is a panic of the scheduling policy. *)
Definition handleSchedule (env : sched_env) (now : Z) (data : option string) (ss : SchedulerService)
    : option (response * SchedulerService) :=
  match data with
  | None => Some (mkResponse StatusOK None, ss)
  | Some data =>
      match Unmarshal_request data with
      | None => Some (mkResponse StatusBadRequest None, ss)
      | Some schReq =>
          '(r, d) ← Schedule env schReq (ss_lrs ss) (ss_policy ss);
          let ss := set_ss_policy d ss in
          match r with
          | Err e => Some (mkResponse (schedule_status e) None, ss)
          | Ok [] => Some (mkResponse StatusTooManyRequests None, ss)
          | Ok res =>
              let ss := if EnableRequestStateTracking ss
                        then set_lrs (allocate_results now schReq res (ss_lrs ss)) ss else ss in
              Some (mkResponse StatusOK (Some (with_result res schReq)), ss)
          end
      end
  end.

Definition handleRelease (now : Z) (data : option string) (ss : SchedulerService) : response * SchedulerService :=
  match data with
  | None => (mkResponse StatusOK None, ss)
  | Some data =>
      match Unmarshal_request data with
      | None => (mkResponse StatusBadRequest None, ss)
      | Some schReq =>
          if decide (sr_SchedulingResult schReq = []) then (mkResponse StatusBadRequest None, ss)
          else
            let ss := if EnableRequestStateTracking ss
                      then set_lrs (release_results now schReq (ss_lrs ss)) ss else ss in
            let ss := if full_mode ss
                      then set_ss_policy (ReleaseRequestLocalAccount (sr_Id schReq) (ss_policy ss)) ss else ss in
            (mkResponse StatusOK None, ss)
      end
  end.

Definition handleReport (now : Z) (data : option string) (ss : SchedulerService) : response * SchedulerService :=
  match data with
  | None => (mkResponse StatusOK None, ss)
  | Some data =>
      match Unmarshal_reports data with
      | None => (mkResponse StatusBadRequest None, ss)
      | Some datas => (mkResponse StatusOK None, set_lrs (fold_left (report_step now) datas (ss_lrs ss)) ss)
      end
  end.

End handlers.

(** ** Lemmas: an operation of the client acts on one store *)

Definition on_store (t : InferType) (f : LocalRealtimeState -> LocalRealtimeState) (c : LocalRealtimeStateClient)
    : LocalRealtimeStateClient :=
  match getLocalRealtimeState t c with None => c | Some s => setLocalRealtimeState t (f s) c end.

Lemma get_on_store t t' f c :
  getLocalRealtimeState t' (on_store t f c) = (if decide (t = t') then f else id) <$> getLocalRealtimeState t' c.
Proof.
  unfold on_store. case_decide as E; [subst t'|].
  - destruct (getLocalRealtimeState t c) as [s|] eqn:Hs; cbn; [by apply (get_set_same t s)|done].
  - rewrite option_fmap_id. destruct (getLocalRealtimeState t c); [by apply get_set_other|done].
Qed.

Lemma get_fold {A} (ty : A -> InferType) (f : A -> LocalRealtimeState -> LocalRealtimeState) l t c :
  getLocalRealtimeState t (fold_left (fun c x => on_store (ty x) (f x) c) l c) =
  (fun s => fold_left (fun s x => f x s) (filter (fun x => ty x = t) l) s) <$> getLocalRealtimeState t c.
Proof.
  revert c. induction l as [|x l IH]; intros c; cbn [fold_left]; [by rewrite option_fmap_id|].
  rewrite IH, get_on_store, <- option_fmap_compose. rewrite filter_cons. by case_decide.
Qed.

Lemma fold_left_Forall {A B} (f g : A -> B -> A) l a :
  Forall (fun x => forall a, f a x = g a x) l -> fold_left f l a = fold_left g l a.
Proof. intros Hl. revert a. induction Hl as [|x l E _ IH]; intros a; cbn; [done|]. by rewrite E. Qed.

(** ** Lemmas: one request in one store *)

Section one_request.
Variables (r g : string) (N : Z) (sp0 : Spec).
Hypothesis fresh_r : sp_requests sp0 !! r = None.
Hypothesis room : forall i, sp_tokens i sp0 + 2 * N <= MaxInt64.

(** The store holds what [sp0] holds and at most the request [r], on the first known
    instance of [L]. *)
Inductive entry (L : list string) : Spec -> Prop :=
  | entry_none : entry L sp0
  | entry_some pre i post st : L = pre ++ i :: post -> Forall (fun j => sp_instances sp0 !! j = None) pre ->
      g ∈ sp_gateways sp0 -> rs_instanceId st = i -> rs_gatewayId st = g -> 0 <= rs_numTokens st <= N ->
      entry L (sp_put r st sp0).

Lemma put_put st st' : sp_put r st' (sp_put r st sp0) = sp_put r st' sp0.
Proof. unfold sp_put. cbn. by rewrite insert_insert_eq. Qed.

Lemma sp_tokens_put i st : 0 <= rs_numTokens st <= N -> sp_tokens i (sp_put r st sp0) <= sp_tokens i sp0 + N.
Proof using fresh_r.
  intros Hn. unfold sp_tokens, on_instance. cbn. rewrite map_filter_insert. case_decide.
  - rewrite map_sum_insert; [lia|]. apply map_lookup_filter_None. by left.
  - rewrite delete_id by done. lia.
Qed.

Lemma entry_room L sp n i : entry L sp -> 0 <= n <= N -> 0 <= n /\ sp_tokens i sp + n <= MaxInt64.
Proof using fresh_r room.
  intros [|pre k post st -> _ _ _ _ Hst] Hn; specialize (room i); [lia|].
  pose proof (sp_tokens_put i st Hst). lia.
Qed.

Lemma allocate_entry_rest (mk : string -> RequestState) st L s :
  sp_requests (abs s) !! r = Some st -> (forall i, rs_reqId (mk i) = r) ->
  fold_left (fun s i => (AllocateRequestState (mk i) s).1) L s = s.
Proof using.
  intros Hs Hmk. induction L as [|i L IH]; [done|]. cbn [fold_left].
  destruct (AllocateRequestState_spec (mk i) s) as [| Hr | Hr | ? ? ? Hr]; [done|..];
    apply abs_request_None in Hr; rewrite Hmk in Hr; congruence.
Qed.

Lemma allocate_entry now n L s :
  wf s -> abs s = sp0 -> 0 <= n <= N ->
  let s' := fold_left (fun s i => (AllocateRequestState (NewRequestState now r n i g) s).1) L s in
  wf s' /\ entry L (abs s').
Proof using fresh_r room.
  intros W E Hn. revert s W E. induction L as [|i L IH]; intros s W E; cbn [fold_left].
  { split; [done|]. rewrite E. constructor. }
  set (st := NewRequestState now r n i g). assert (Ha : admissible (OAllocate st) (abs s)).
  { rewrite E. apply (entry_room [] sp0 n i); [constructor|done]. }
  pose proof (run_wf elements elements_visits_once _ _ W Ha) as W'.
  pose proof (run_sim elements elements_visits_once _ _ W Ha) as S. cbn [run sp_run] in W', S. rewrite E in S.
  unfold sp_Allocate in S. rewrite decide_False in S by (cbn; rewrite fresh_r; by intros [? ?]).
  repeat case_decide; apply (f_equal fst) in S as E'; cbn [fst] in E'; symmetry in E'; try (destruct (IH _ W' E') as [W'' He]).
  - split; [done|]. destruct He as [|pre j post st' -> Hp]; [constructor|].
    apply (entry_some _ (i :: pre) j post); try done. by constructor.
  - split; [done|]. destruct He as [|? ? ? ? ? ? Hg]; [constructor|].
    match goal with H : _ ∉ sp_gateways _ |- _ => by destruct (H Hg) end.
  - rewrite (allocate_entry_rest _ st); [|by rewrite E'; apply lookup_insert_eq|done].
    split; [done|]. rewrite E'. apply (entry_some _ [] i L); try done.
Qed.

Lemma report_entry o st L s :
  wf s -> entry L (abs s) -> rs_reqId st = r -> 0 <= rs_numTokens st <= N -> o = OUpdate st \/ o = OMark st ->
  wf (run elements o s).1 /\ entry L (abs (run elements o s).1).
Proof using fresh_r room.
  intros W He Hr Hn Ho. assert (Ha : admissible o (abs s)).
  { destruct Ho as [-> | ->]; [|done]. by apply (entry_room L). }
  split; [by apply run_wf; [apply elements_visits_once|..]|].
  pose proof (run_sim elements elements_visits_once _ _ W Ha) as S.
  apply (f_equal fst) in S. cbn in S. rewrite <- S. destruct He as [|pre i post cur -> Hp Hg Hi Hgw Hc].
  - destruct Ho as [-> | ->]; cbn; unfold sp_Update, sp_Mark; rewrite Hr, fresh_r; constructor.
  - destruct Ho as [-> | ->]; cbn; unfold sp_Update, sp_Mark; rewrite Hr; cbn [sp_put sp_requests];
      rewrite lookup_insert_eq; repeat case_decide; cbn [fst]; rewrite ?put_put;
      eapply entry_some; eauto; cbn; lia.
Qed.

Lemma release_absent st s : sp_requests (abs s) !! rs_reqId st = None -> ReleaseRequestState st s = s.
Proof using.
  intros Hs%abs_request_None. unfold ReleaseRequestState, requestExists. by rewrite Hs.
Qed.

Lemma release_unknown st s : sp_instances (abs s) !! rs_instanceId st = None -> ReleaseRequestState st s = s.
Proof using.
  intros Hs%abs_instance_None. unfold ReleaseRequestState. rewrite Hs. by case_match.
Qed.

Lemma release_put st cur : rs_reqId st = r -> sp_Release st (sp_put r cur sp0) = sp0.
Proof using fresh_r.
  clear room. intros Hr. unfold sp_Release. rewrite Hr. cbn. rewrite delete_insert_id by done. by destruct sp0.
Qed.

Lemma release_entry now L s :
  wf s -> entry L (abs s) ->
  let s' := fold_left (fun s i => ReleaseRequestState (NewRequestState now r 0 i g) s) L s in wf s' /\ abs s' = sp0.
Proof using fresh_r.
  revert s. induction L as [|i L IH]; intros s W He; cbn [fold_left].
  { split; [done|]. destruct He as [|[|] ? ? ? ?]; done. }
  set (st := NewRequestState now r 0 i g). remember (abs s) as sp eqn:E.
  destruct He as [|[|j pre] k post cur EL Hp Hg Hi Hgw Hc].
  - rewrite release_absent by (by rewrite <- E). apply IH; [done|]. rewrite <- E. constructor.
  - injection EL as -> ->. assert (Ha : admissible (ORelease st) (abs s)).
    { rewrite <- E. cbn. rewrite lookup_insert_eq. intros ? [= <-]. by subst. }
    pose proof (run_wf elements elements_visits_once _ _ W Ha) as W'.
    pose proof (run_sim elements elements_visits_once _ _ W Ha) as S. cbn [run sp_run] in W', S.
    rewrite <- E, release_put in S by done. apply (f_equal fst) in S. cbn [fst] in W', S.
    apply IH; [done|]. rewrite <- S. constructor.
  - injection EL as <- ->. apply Forall_cons_iff in Hp as [Hj Hp].
    rewrite release_unknown by (by rewrite <- E). apply IH; [done|]. rewrite <- E. by eapply entry_some.
Qed.

End one_request.

(** ** Lemmas: one request in the three stores *)

Definition result_ids (t : InferType) (res : SchedulingResult) : list string :=
  (fun i => (LLMInstance_Id i).1) <$> filter (fun i => InstInferType i = t) res.

(** Relating a client to an earlier one, store by store. *)
Definition stores_rel (R : InferType -> LocalRealtimeState -> LocalRealtimeState -> Prop)
    (c0 c : LocalRealtimeStateClient) : Prop :=
  forall t s0, getLocalRealtimeState t c0 = Some s0 -> exists s, getLocalRealtimeState t c = Some s /\ R t s0 s.

Definition same_content (_ : InferType) (s0 s : LocalRealtimeState) : Prop := wf s /\ abs s = abs s0.

Definition holds_request (r g : string) (N : Z) (res : SchedulingResult) (t : InferType) (s0 s : LocalRealtimeState) : Prop :=
  wf s /\ entry r g N (abs s0) (result_ids t res) (abs s).

(** The request is in no store, and every store has room for [2 * N] more tokens on
    each instance. *)
Definition new_request (r : string) (N : Z) (c : LocalRealtimeStateClient) : Prop :=
  forall t s, getLocalRealtimeState t c = Some s ->
    wf s /\ sp_requests (abs s) !! r = None /\ forall i, sp_tokens i (abs s) + 2 * N <= MaxInt64.

Lemma fold_result_ids {S} (f : S -> string -> S) t res s :
  fold_left f (result_ids t res) s =
  fold_left (fun s i => f s (LLMInstance_Id i).1) (filter (fun i => InstInferType i = t) res) s.
Proof. unfold result_ids. revert s. induction (filter _ res) as [|x l IH]; intros s; cbn; [done|apply IH]. Qed.

Lemma allocate_holds now q N res c :
  new_request (sr_Id q) N c -> 0 <= int64 (sr_PromptNumTokens q) <= N -> Forall (fun i => InstInferType i <> "") res ->
  stores_rel (holds_request (sr_Id q) (sr_GatewayId q) N res) c (allocate_results now q res c).
Proof.
  intros Hnew Hn Hty t s0 Hs. destruct (Hnew t s0 Hs) as (W & Hf & Hr). unfold allocate_results.
  rewrite (fold_left_Forall _ (fun c i => on_store (InstInferType i)
    (fun s => (AllocateRequestState (NewRequestState now (sr_Id q) (int64 (sr_PromptNumTokens q)) (LLMInstance_Id i).1 (sr_GatewayId q)) s).1) c)).
  - rewrite get_fold, Hs. eexists. split; [done|].
    pose proof (allocate_entry _ (sr_GatewayId q) N _ Hf Hr now _ (result_ids t res) s0 W eq_refl Hn) as He.
    by rewrite fold_result_ids in He.
  - eapply Forall_impl; [|done]. intros i Hi c'. unfold client_AllocateRequestState, on_store.
    rewrite decide_False by done. destruct (getLocalRealtimeState _ c'); [|done]. by destruct (AllocateRequestState _ _).
Qed.

Lemma report_holds now r g N res c0 c data :
  new_request r N c0 -> rd_Id data = r -> 0 <= int64 (rd_NumTokens data) <= N ->
  stores_rel (holds_request r g N res) c0 c -> stores_rel (holds_request r g N res) c0 (report_step now c data).
Proof.
  intros Hnew Hr Hn Hc t s0 Hs. destruct (Hc t s0 Hs) as (s & Hs' & W & He). destruct (Hnew t s0 Hs) as (_ & Hf & Hroom).
  set (st := NewRequestState now (rd_Id data) (int64 (rd_NumTokens data)) (rd_InstanceId data) (rd_GatewayId data)).
  assert (E : exists o, (o = OUpdate st \/ o = OMark st) /\
    report_step now c data = on_store (rd_InferType data) (fun s => (run elements o s).1) c).
  { unfold report_step. fold st. destruct (rd_Kind data); [exists (OUpdate st)|exists (OMark st)]; split; auto;
      unfold client_UpdateRequestState, client_MarkPrefillComplete, on_store;
      destruct (getLocalRealtimeState (rd_InferType data) c) as [s1|]; try done; cbn [run];
      first [by destruct (UpdateRequestState st s1)|by destruct (MarkPrefillComplete st s1)]. }
  destruct E as (o & Ho & ->). rewrite get_on_store, Hs'. eexists. split; [done|].
  case_decide; [|done]. by apply (report_entry r g N (abs s0) Hf Hroom o st).
Qed.

Lemma release_same now q N c0 c :
  new_request (sr_Id q) N c0 -> stores_rel (holds_request (sr_Id q) (sr_GatewayId q) N (sr_SchedulingResult q)) c0 c ->
  stores_rel same_content c0 (release_results now q c).
Proof.
  intros Hnew Hc t s0 Hs. destruct (Hc t s0 Hs) as (s & Hs' & W & He). destruct (Hnew t s0 Hs) as (_ & Hf & _).
  unfold release_results.
  assert (E := get_fold InstInferType (fun i =>
    ReleaseRequestState (NewRequestState now (sr_Id q) 0 (LLMInstance_Id i).1 (sr_GatewayId q))) (sr_SchedulingResult q) t c).
  unfold on_store in E. unfold client_ReleaseRequestState. rewrite E, Hs'. eexists. split; [done|].
  pose proof (release_entry _ _ N _ Hf now _ s W He) as H. by rewrite fold_result_ids in H.
Qed.

(** ** Lemmas: the policy keeps its configuration *)

Section keeps_config.
Context {LP : LatencyPredictor} (env : sched_env).

Lemma lookup_prefix_cache_config q d cl : dp_config (lookup_prefix_cache env q d cl).1 = dp_config d.
Proof. unfold lookup_prefix_cache. by repeat case_match. Qed.

Lemma select_role_config need t d vs r :
  select_role env need t d vs = Some r -> dp_config r.1.2 = dp_config d.
Proof.
  unfold select_role. destruct need; [|by intros [= <-]].
  destruct (executeSchedule _ _ _ _ _) as [[[sel p] vs']|]; cbn; [by intros [= <-]|done].
Qed.

Lemma add_account_config t n r id st : dp_config (add_account env t n r id st).1 = dp_config st.1.
Proof. unfold add_account. destruct st. by case_match. Qed.

Lemma revert_account_config n r id st : dp_config (revert_account n r id st).1 = dp_config st.1.
Proof. unfold revert_account. destruct st. by case_match. Qed.

Lemma schedule_config q d cl r : schedule env q d cl = Some r -> dp_config r.1.2 = dp_config d.
Proof.
  unfold schedule. pose proof (lookup_prefix_cache_config q d cl) as E0.
  destruct (lookup_prefix_cache env q d cl) as [d0 cl0]. cbn in E0. rewrite <- E0. intros H.
  apply bind_Some in H as (cl1 & _ & H). apply bind_Some in H as (cl2 & _ & H). case_decide.
  - case_decide; [|by injection H as <-]. apply bind_Some in H as ([[sel d1] vs] & E1 & H).
    apply select_role_config in E1. cbn in E1. rewrite <- E1. destruct sel as [id|]; [|by injection H as <-].
    set (n := if EnableInstanceStatusLocalAccount _ then _ else _) in H.
    pose proof (add_account_config InferTypeNeutral n (sr_Id q) id (d1, vs)) as E2.
    destruct (add_account _ _ _ _ _ _). by injection H as <-.
  - case_decide; [by injection H as <-|]. apply bind_Some in H as ([[pre d1] vs1] & E1 & H).
    apply select_role_config in E1. cbn in E1. rewrite <- E1. set (n := if EnableInstanceStatusLocalAccount _ then _ else _) in H.
    set (st := match pre with Some id => add_account env InferTypePrefill n (sr_Id q) id (d1, vs1) | None => (d1, vs1) end) in H.
    assert (E2 : dp_config st.1 = dp_config d1) by (unfold st; destruct pre; [apply add_account_config|done]).
    destruct st as [d2 vs2]. cbn in E2. rewrite <- E2. apply bind_Some in H as ([[dec d3] vs3] & E3 & H).
    apply select_role_config in E3. cbn in E3. rewrite <- E3. revert H.
    destruct (needs _ _); [|by intros [= <-]]. destruct dec as [id|]; [|destruct pre as [id|]; [|by intros [= <-]]].
    + pose proof (add_account_config InferTypeDecode n (sr_Id q) id (d3, vs3)). destruct (add_account _ _ _ _ _ _). by intros [= <-].
    + pose proof (revert_account_config n (sr_Id q) id (d3, vs3)). destruct (revert_account _ _ _ _). by intros [= <-].
Qed.

Lemma Schedule_config q c d r d' : Schedule env q c d = Some (r, d') -> dp_config d' = dp_config d.
Proof.
  unfold Schedule. destruct (_ && _); [by intros [= _ <-]|]. intros ([[sel d1] vs] & E & H)%bind_Some.
  apply schedule_config in E. cbn in E. rewrite <- E. destruct sel; by injection H as _ <-.
Qed.

End keeps_config.

(** ** Theorems *)

Section service.
Context {LP : LatencyPredictor} {JD : JsonDecoder}.

Lemma handleSchedule_ok env now data ss q' ss1 :
  handleSchedule env now (Some data) ss = Some (mkResponse StatusOK (Some q'), ss1) ->
  exists q res, Unmarshal_request data = Some q /\ q' = with_result res q /\ res <> [] /\
    dp_config (ss_policy ss1) = dp_config (ss_policy ss) /\
    StandaloneReschedulingMode ss1 = StandaloneReschedulingMode ss /\
    ss_lrs ss1 = (if EnableRequestStateTracking ss then allocate_results now q res (ss_lrs ss) else ss_lrs ss).
Proof.
  unfold handleSchedule. destruct (Unmarshal_request data) as [q|]; [|done].
  intros ([r d] & E & H)%bind_Some. apply Schedule_config in E.
  destruct r as [[|i res]|e]; [done| |by destruct e].
  exists q, (i :: res). unfold EnableRequestStateTracking, full_mode in *. cbn in H. rewrite E in H.
  destruct (_ && _); injection H as <- <-; done.
Qed.

(** The reports of a gateway about the request [r] alone, one call of the handler each. *)
Definition reports_about (r : string) (N : Z) (calls : list (Z * option string)) : Prop :=
  Forall (fun call => forall data datas, call.2 = Some data -> Unmarshal_reports data = Some datas ->
    Forall (fun d => rd_Id d = r /\ 0 <= int64 (rd_NumTokens d) <= N) datas) calls.

Definition run_reports (calls : list (Z * option string)) (ss : SchedulerService) : SchedulerService :=
  fold_left (fun ss call => (handleReport call.1 call.2 ss).2) calls ss.

Lemma handleReport_frame now data ss :
  ss_policy (handleReport now data ss).2 = ss_policy ss /\
  StandaloneReschedulingMode (handleReport now data ss).2 = StandaloneReschedulingMode ss.
Proof. unfold handleReport. by repeat case_match. Qed.

Lemma run_reports_frame calls ss : EnableRequestStateTracking (run_reports calls ss) = EnableRequestStateTracking ss.
Proof.
  revert ss. induction calls as [|call calls IH]; intros ss; [done|]. cbn. unfold run_reports in IH. rewrite IH.
  destruct (handleReport_frame call.1 call.2 ss) as [E1 E2]. unfold EnableRequestStateTracking, full_mode. by rewrite E1, E2.
Qed.

Lemma reports_hold r g N res c0 calls ss :
  new_request r N c0 -> reports_about r N calls -> stores_rel (holds_request r g N res) c0 (ss_lrs ss) ->
  stores_rel (holds_request r g N res) c0 (ss_lrs (run_reports calls ss)).
Proof.
  intros Hnew Hc. revert ss. induction Hc as [|[now data] calls Hcall _ IH]; intros ss Hs; [done|].
  apply IH. unfold handleReport. cbn in *. destruct data as [data|]; [|done].
  destruct (Unmarshal_reports data) as [datas|] eqn:E; [|done]. cbn.
  specialize (Hcall _ _ eq_refl E). clear E. revert Hs. generalize (ss_lrs ss).
  induction Hcall as [|d datas [Hid Hn] _ IHd]; intros c Hs; [done|]. apply IHd. by apply report_holds.
Qed.

(** C36. In lite mode, when the service has answered a request that is in no store with instances
    that have a type, its token counts bounded so that no counter overflows, then after any reports
    of the gateway about that request and the release of the answer the three stores hold exactly
    the requests, instances and gateways that they held before, and are consistent. *)
Theorem schedule_release_restores env now data ss q' ss1 N calls now' rel q2 :
  EnableRequestStateTracking ss = true ->
  handleSchedule env now (Some data) ss = Some (mkResponse StatusOK (Some q'), ss1) ->
  Forall (fun i => InstInferType i <> "") (sr_SchedulingResult q') ->
  new_request (sr_Id q') N (ss_lrs ss) -> 0 <= int64 (sr_PromptNumTokens q') <= N ->
  reports_about (sr_Id q') N calls ->
  Unmarshal_request rel = Some q2 -> sr_Id q2 = sr_Id q' -> sr_GatewayId q2 = sr_GatewayId q' ->
  sr_SchedulingResult q2 = sr_SchedulingResult q' ->
  stores_rel same_content (ss_lrs ss) (ss_lrs (handleRelease now' (Some rel) (run_reports calls ss1)).2).
Proof.
  intros Ht Hs Hty Hnew Hn Hrep Hq Ei Eg Er.
  destruct (handleSchedule_ok _ _ _ _ _ _ Hs) as (q & res & _ & -> & Hne & Ec & Em & El). cbn in *.
  rewrite Ht in El. unfold handleRelease. rewrite Hq, Er, decide_False by done.
  assert (Ht1 : EnableRequestStateTracking (run_reports calls ss1) = true).
  { rewrite run_reports_frame. unfold EnableRequestStateTracking, full_mode in *. by rewrite Ec, Em. }
  rewrite Ht1. assert (full_mode (run_reports calls ss1) = false) as Hf.
  { unfold EnableRequestStateTracking in Ht1. by destruct (full_mode _). }
  unfold full_mode in Hf |- *. cbn. rewrite Hf. cbn.
  rewrite <- Ei in *. apply (release_same now' q2 N); [done|]. rewrite Er, Eg.
  apply reports_hold; [done..|]. rewrite El, Ei. rewrite Ei in Hnew. by apply allocate_holds.
Qed.

(** A request that is answered with an instance of the empty type is never given
    back: the allocation counts it on the neutral store, the release looks for a store
    of the empty type and finds none, so the request still counts on its instance
    after the release. *)
Theorem untyped_release_leaks env now data ss q' ss1 i now' rel q2 :
  EnableRequestStateTracking ss = true ->
  handleSchedule env now (Some data) ss = Some (mkResponse StatusOK (Some q'), ss1) ->
  sr_SchedulingResult q' = [i] -> InstInferType i = "" ->
  wf (neutralState (ss_lrs ss)) ->
  sp_requests (abs (neutralState (ss_lrs ss))) !! sr_Id q' = None ->
  is_Some (sp_instances (abs (neutralState (ss_lrs ss))) !! (LLMInstance_Id i).1) ->
  sr_GatewayId q' ∈ sp_gateways (abs (neutralState (ss_lrs ss))) ->
  Unmarshal_request rel = Some q2 -> sr_SchedulingResult q2 = [i] ->
  exists st, sp_requests (abs (neutralState (ss_lrs (handleRelease now' (Some rel) ss1).2))) !! sr_Id q' = Some st /\
    rs_instanceId st = (LLMInstance_Id i).1.
Proof.
  intros Ht Hs Hr Hty W Hf Hi Hg Hq Er.
  destruct (handleSchedule_ok _ _ _ _ _ _ Hs) as (q & res & _ & -> & Hne & Ec & Em & El). cbn in Hr, Hf, Hg. subst res.
  assert (Erel : neutralState (ss_lrs (handleRelease now' (Some rel) ss1).2) = neutralState (ss_lrs ss1)).
  { unfold handleRelease, release_results. rewrite Hq, Er. cbn -[ReleaseRequestLocalAccount].
    unfold client_ReleaseRequestState. rewrite Hty. cbn -[ReleaseRequestLocalAccount]. by repeat case_match. }
  rewrite Erel, El, Ht. unfold allocate_results. cbn [fold_left]. rewrite Hty. unfold client_AllocateRequestState.
  rewrite decide_True by done. set (st := NewRequestState _ _ _ _ _).
  change (getLocalRealtimeState InferTypeNeutral (ss_lrs ss)) with (Some (neutralState (ss_lrs ss))).
  exists st. split; [|done]. pose proof (sim_Allocate st _ W) as S. unfold sp_Allocate in S.
  rewrite decide_False in S by (rewrite <- eq_None_not_Some; done).
  rewrite decide_False in S by (by apply not_eq_None_Some). rewrite decide_False in S by (intros H; by apply H).
  destruct (AllocateRequestState st (neutralState (ss_lrs ss))) as [s' e]. apply (f_equal fst) in S. cbn [fst] in S |- *.
  change (neutralState (setLocalRealtimeState InferTypeNeutral s' (ss_lrs ss))) with s'. rewrite S. apply lookup_insert_eq.
Qed.

End service.

(** ** Examples *)

(** Lite mode with two instances and the gateway [g]; bodies are decoded by name. *)
Definition lite_config : SchedulerConfig :=
  mkConfig SchedulingPolicyLoadBalance false false false false false false 0 64 1
    SchedulingMetricNumTokens (f32_of_Z 100000) SchedulingMetricNumTokens (f32_of_Z 100000)
    SchedulingMetricNumTokens (f32_of_Z 100000) SchedulingMetricKVCacheHitLen 1024
    (f32_of_Z 1000) (f32_of_Z 50) (f32_of_Z 1) (f32_of_Z 1) (f32_of_Z 1) (f32_of_Z 1) FailoverDomainInstance 60
    "" "" f_zero "" "" f_zero "" "" f_zero f_zero "".

Definition typed_instance (id : string) (t : InferType) : LLMInstance :=
  mkLLMInstance 1 id "m" t (mkEndpoint "10.0.0.1" 8000) "" 0 0 0.

Definition lite_client (instances : list (string * InferType)) : LocalRealtimeStateClient :=
  client_AddGateway "g"
    (fold_left (fun c e => client_AddInstance elements (typed_instance e.1 e.2) c) instances (NewLocalRealtimeStateClient false)).

Definition lite_service (instances : list (string * InferType)) : option SchedulerService :=
  d ← NewDispatchPolicy lite_config (cluster_client []) (newKVSClient 0 3 30);
  Some (mkService d (lite_client instances) false).

(** The body "ask" is the request of the gateway, every other body the release of an
    answer that names the instances [rel]. *)
Definition demo_json (rel : list LLMInstance) : JsonDecoder := {|
  Unmarshal_request s := if decide (s = "ask") then Some (demo_request SchedulingModeNeutral)
                         else Some (with_result rel (demo_request SchedulingModeNeutral));
  Unmarshal_reports s := Some [mkReport KindStateUpdate "r1" "m" InferTypeNeutral "n1" "g" 25]
|}.

Definition idle (s : LocalRealtimeState) : Prop := wf s /\ sp_requests (abs s) = ∅.

Lemma idle_AddInstance w s : idle s -> idle (AddInstance elements w s).
Proof.
  intros [W E]. split; [apply wf_AddInstance; [apply elements_visits_once|done]|].
  rewrite sim_AddInstance by (apply elements_visits_once || done). unfold sp_AddInstance.
  destruct (LLMInstance_Id w) as [id w']. repeat case_match; cbn [sp_requests]; rewrite ?E; [apply map_filter_empty|done..].
Qed.

Lemma idle_AddGateway g s : idle s -> idle (AddGateway g s).
Proof. intros [W E]. split; [by apply wf_AddGateway|]. by rewrite (sim_AddGateway elements elements_visits_once). Qed.

Definition client_idle (c : LocalRealtimeStateClient) : Prop :=
  idle (neutralState c) /\ idle (prefillState c) /\ idle (decodeState c).

Lemma lite_client_idle instances : client_idle (lite_client instances).
Proof.
  assert (client_idle (NewLocalRealtimeStateClient false)) as H.
  { assert (idle NewLocalRealtimeState) by (split; [apply wf_empty|by rewrite abs_empty]). done. }
  unfold lite_client. revert H. generalize (NewLocalRealtimeStateClient false).
  induction instances as [|e es IH]; intros c (Hn & Hp & Hd); cbn [fold_left].
  - by split_and!; apply idle_AddGateway.
  - apply IH. unfold client_AddInstance. repeat case_decide; split_and!; cbn; auto using idle_AddInstance.
Qed.

Lemma lite_client_new r N instances : 2 * N <= MaxInt64 -> new_request r N (lite_client instances).
Proof.
  intros HN t s Hs. destruct (lite_client_idle instances) as (Hn & Hp & Hd).
  assert (idle s) as [W E] by (unfold getLocalRealtimeState in Hs; repeat case_decide; by inv_some).
  split; [done|]. unfold sp_tokens, on_instance. rewrite E. split; [done|]. intros i.
  by rewrite map_filter_empty, map_sum_empty.
Qed.

Definition neutral_pair : list (string * InferType) := [("n1", InferTypeNeutral); ("n2", InferTypeNeutral)].

Lemma schedule_release_restores_witness :
  exists ss q' ss1, lite_service neutral_pair = Some ss /\
    handleSchedule (LP := demo_predictor) (JD := demo_json [typed_instance "n1" InferTypeNeutral]) demo_env 0 (Some "ask") ss
      = Some (mkResponse StatusOK (Some q'), ss1) /\
    stores_rel same_content (lite_client neutral_pair)
      (ss_lrs (handleRelease (JD := demo_json [typed_instance "n1" InferTypeNeutral]) 2 (Some "release")
        (run_reports (JD := demo_json [typed_instance "n1" InferTypeNeutral]) [(1, Some "report")] ss1)).2).
Proof.
  destruct (lite_service neutral_pair) as [ss|] eqn:Hss; [|by vm_compute in Hss].
  assert (exists q' ss1, handleSchedule (LP := demo_predictor) (JD := demo_json [typed_instance "n1" InferTypeNeutral])
    demo_env 0 (Some "ask") ss = Some (mkResponse StatusOK (Some q'), ss1) /\
    q' = with_result [typed_instance "n1" InferTypeNeutral] (demo_request SchedulingModeNeutral)) as (q' & ss1 & H & ->).
  { vm_compute in Hss. injection Hss as <-. eexists _, _. split; [vm_compute; reflexivity|]. vm_compute. reflexivity. }
  eexists ss, _, ss1. split; [done|]. split; [exact H|].
  assert (ss_lrs ss = lite_client neutral_pair) as El by (vm_compute in Hss |- *; by injection Hss as <-).
  rewrite <- El.
  apply (schedule_release_restores (LP := demo_predictor) (JD := demo_json [typed_instance "n1" InferTypeNeutral])
    demo_env 0 "ask" ss (with_result [typed_instance "n1" InferTypeNeutral] (demo_request SchedulingModeNeutral)) ss1 100 [(1, Some "report")] 2 "release"
    (with_result [typed_instance "n1" InferTypeNeutral] (demo_request SchedulingModeNeutral))); try done.
  - by vm_compute in Hss; injection Hss as <-.
  - repeat constructor; done.
  - rewrite El. by apply lite_client_new.
  - repeat constructor. intros data datas [= <-] [= <-]. repeat constructor; done.
Defined.

Lemma untyped_release_leaks_witness :
  exists ss q' ss1 st, lite_service [("n1", "")] = Some ss /\
    handleSchedule (LP := demo_predictor) (JD := demo_json [typed_instance "n1" ""]) demo_env 0 (Some "ask") ss
      = Some (mkResponse StatusOK (Some q'), ss1) /\
    sp_requests (abs (neutralState (ss_lrs (handleRelease (JD := demo_json [typed_instance "n1" ""]) 2 (Some "release") ss1).2)))
      !! "r1" = Some st.
Proof.
  destruct (lite_service [("n1", "")]) as [ss|] eqn:Hss; [|by vm_compute in Hss].
  set (q := with_result [typed_instance "n1" ""] (demo_request SchedulingModeNeutral)).
  assert (exists q' ss1, handleSchedule (LP := demo_predictor) (JD := demo_json [typed_instance "n1" ""])
    demo_env 0 (Some "ask") ss = Some (mkResponse StatusOK (Some q'), ss1) /\ q' = q) as (q' & ss1 & H & ->).
  { vm_compute in Hss. injection Hss as <-. eexists _, _. split; [vm_compute; reflexivity|]. vm_compute. reflexivity. }
  assert (ss_lrs ss = lite_client [("n1", "")]) as El by (vm_compute in Hss |- *; by injection Hss as <-).
  destruct (untyped_release_leaks (LP := demo_predictor) (JD := demo_json [typed_instance "n1" ""])
    demo_env 0 "ask" ss q ss1 (typed_instance "n1" "") 2 "release" q) as (st & Hst & _); try done.
  - by vm_compute in Hss; injection Hss as <-.
  - rewrite El. apply (lite_client_idle [("n1", "")]).
  - rewrite El. by vm_compute.
  - rewrite El. vm_compute. by eexists.
  - rewrite El. by vm_compute.
  - exists ss, q, ss1, st. done.
Defined.
