(* ===== verification/Programs.v ===== *)
(** * Programs that make calls

    A goroutine that talks to other parts of the system is a tree of the calls it makes:
    [Do e k] makes the call [e] and goes on with the answer, [Panic] ends the goroutine
    and [Hang] never ends. The type [E] of the calls says what can be called and with
    which type of answer; nothing is assumed about the answers here. *)

From stdpp Require Import base gmap sets list strings numbers.
From S2P Require Import Prelude GoStrings Types.

Local Open Scope Z_scope.

Inductive Prog (E : Type -> Type) (A : Type) : Type :=
  | Ret (a : A)
  | Panic
  | Hang
  | Do {X : Type} (e : E X) (k : X -> Prog E A).
Arguments Ret {E A} a.
Arguments Panic {E A}.
Arguments Hang {E A}.
Arguments Do {E A X} e k.

Fixpoint prog_bind {E : Type -> Type} {A B} (f : A -> Prog E B) (p : Prog E A) : Prog E B :=
  match p with
  | Ret a => f a
  | Panic => Panic
  | Hang => Hang
  | Do e k => Do e (fun x => prog_bind f (k x))
  end.

#[export] Instance prog_mret {E} : MRet (Prog E) := @Ret E.
#[export] Instance prog_mbind {E} : MBind (Prog E) := @prog_bind E.

Lemma bind_ret {E : Type -> Type} {A B} (a : A) (f : A -> Prog E B) : Ret a ≫= f = f a.
Proof. done. Qed.

Definition perform {E : Type -> Type} {X} (e : E X) : Prog E X := Do e Ret.

(** [defer q()] around [p]: [q] runs on return and on a panic. *)
Fixpoint finally {E : Type -> Type} {A B} (p : Prog E A) (q : Prog E B) : Prog E A :=
  match p with
  | Ret a => _ ← q; Ret a
  | Panic => _ ← q; Panic
  | Hang => Hang
  | Do e k => Do e (fun x => finally (k x) q)
  end.

(** Go's [if err != nil { return err }]: the rest runs on success only. *)
Definition try_bind {E : Type -> Type} {A B} (p : Prog E (result A)) (f : A -> Prog E (result B)) : Prog E (result B) :=
  r ← p; match r with Ok a => f a | Err e => Ret (Err e) end.

Declare Scope prog_scope.
Delimit Scope prog_scope with prog.
Notation "x ←? p ; q" := (try_bind p (fun x => q))
  (at level 20, p at level 100, q at level 200, only parsing) : prog_scope.
Notation "p ;;? q" := (try_bind p (fun _ => q)) (at level 100, q at level 200, right associativity) : prog_scope.

(** ** Programs against a contract

    A contract says which effects a program may perform and which answers it may rely
    on. [wp c p Q]: as long as the answers keep the contract, [p] performs only allowed
    effects, and a result satisfies [Q]. *)

Record Contract (E : Type -> Type) := mkContract {
  allowed : forall X, E X -> Prop;
  promised : forall X, E X -> X -> Prop
}.
Arguments mkContract {E} allowed promised.
Arguments allowed {E} c {X} e.
Arguments promised {E} c {X} e x.

Fixpoint wp {E : Type -> Type} {A} (c : Contract E) (p : Prog E A) (Q : A -> Prop) : Prop :=
  match p with
  | Ret a => Q a
  | Panic | Hang => True
  | Do e k => allowed c e /\ forall x, promised c e x -> wp c (k x) Q
  end.

Lemma wp_mono {E : Type -> Type} {A} (c : Contract E) (p : Prog E A) (Q Q' : A -> Prop) : wp c p Q -> (forall a, Q a -> Q' a) -> wp c p Q'.
Proof.
  intros Hp HQ. induction p as [a| | |X e k IH]; cbn in *; [by apply HQ|done..|].
  destruct Hp as [He Hk]. split; [done|]. intros x Hx. by apply IH, Hk.
Qed.

Lemma wp_ret {E : Type -> Type} {A} (c : Contract E) (a : A) (Q : A -> Prop) : Q a -> wp c (Ret a) Q.
Proof. done. Qed.

Lemma wp_bind {E : Type -> Type} {A B} (c : Contract E) (p : Prog E A) (f : A -> Prog E B) Q : wp c p (fun a => wp c (f a) Q) -> wp c (p ≫= f) Q.
Proof.
  intros Hp. change (wp c (prog_bind f p) Q). induction p as [a| | |X e k IH]; cbn in *; [done..|].
  destruct Hp as [He Hk]. split; [done|]. intros x Hx. by apply IH, Hk.
Qed.

Lemma wp_try {E : Type -> Type} {A B} (c : Contract E) (p : Prog E (result A)) (f : A -> Prog E (result B)) Q :
  wp c p (fun r => match r with Ok a => wp c (f a) Q | Err e => Q (Err e) end) -> wp c (try_bind p f) Q.
Proof. intros Hp. apply wp_bind. eapply wp_mono; [exact Hp|]. by intros [a|e]. Qed.

Lemma wp_finally {E : Type -> Type} {A B} (c : Contract E) (p : Prog E A) (q : Prog E B) Q :
  wp c q (fun _ => True) -> wp c p Q -> wp c (finally p q) Q.
Proof.
  intros Hq Hp. induction p as [a| | |X e k IH]; cbn in *; [| |done|].
  - apply wp_bind. by eapply wp_mono; [exact Hq|].
  - apply wp_bind. by eapply wp_mono; [exact Hq|].
  - destruct Hp as [He Hk]. split; [done|]. intros x Hx. by apply IH, Hk.
Qed.

Lemma wp_perform {E : Type -> Type} {X} (c : Contract E) (e : E X) (Q : X -> Prop) : allowed c e -> (forall x, promised c e x -> Q x) -> wp c (perform e) Q.
Proof. intros He HQ. split; [done|]. intros x Hx. by apply HQ. Qed.

(** A program of which no result is needed. *)
Abbreviation keeps c p := (wp c p (fun _ => True)) (only parsing).

Lemma keeps_bind {E : Type -> Type} {A B} (c : Contract E) (p : Prog E A) (f : A -> Prog E B) Q : keeps c p -> (forall a, wp c (f a) Q) -> wp c (p ≫= f) Q.
Proof. intros Hp Hf. apply wp_bind. eapply wp_mono; [exact Hp|]. intros a _. apply Hf. Qed.

Lemma keeps_try {E : Type -> Type} {A B} (c : Contract E) (p : Prog E (result A)) (f : A -> Prog E (result B)) Q :
  keeps c p -> (forall a, wp c (f a) Q) -> (forall e, Q (Err e)) -> wp c (try_bind p f) Q.
Proof. intros Hp Hf He. apply wp_try. eapply wp_mono; [exact Hp|]. intros [a|e] _; auto. Qed.

Create HintDb prog.

(** ** Running a program against answers

    A handler answers every effect and changes a state. *)

Inductive outcome (A : Type) := Done (a : A) | Panicked | Hung.
Arguments Done {A} a.
Arguments Panicked {A}.
Arguments Hung {A}.

Definition Handler (E : Type -> Type) (S : Type) : Type := forall X, E X -> S -> X * S.

Fixpoint run {E : Type -> Type} {S A} (h : Handler E S) (p : Prog E A) (s : S) : outcome A * S :=
  match p with
  | Ret a => (Done a, s)
  | Panic => (Panicked, s)
  | Hang => (Hung, s)
  | Do e k => let '(x, s) := h _ e s in run h (k x) s
  end.

Lemma run_bind {E : Type -> Type} {S A B} (h : Handler E S) (p : Prog E A) (f : A -> Prog E B) s :
  run h (p ≫= f) s =
  match run h p s with (Done a, s') => run h (f a) s' | (Panicked, s') => (Panicked, s') | (Hung, s') => (Hung, s') end.
Proof.
  change (p ≫= f) with (prog_bind f p).
  revert s. induction p as [a| | |X e k IH]; intros s; cbn; [done..|]. destruct (h X e s) as [x s']. apply IH.
Qed.

Lemma run_try {E : Type -> Type} {S A B} (h : Handler E S) (p : Prog E (result A)) (f : A -> Prog E (result B)) s :
  run h (try_bind p f) s =
  match run h p s with
  | (Done (Ok a), s') => run h (f a) s'
  | (Done (Err e), s') => (Done (Err e), s')
  | (Panicked, s') => (Panicked, s')
  | (Hung, s') => (Hung, s')
  end.
Proof. unfold try_bind. rewrite run_bind. destruct (run h p s) as [[[a|e]| |] s']; done. Qed.

Lemma run_finally {E : Type -> Type} {S A B} (h : Handler E S) (p : Prog E A) (q : Prog E B) s :
  run h (finally p q) s =
  match run h p s with
  | (Hung, s') => (Hung, s')
  | (r, s') => match run h q s' with (Done _, s'') => (r, s'') | (Panicked, s'') => (Panicked, s'') | (Hung, s'') => (Hung, s'') end
  end.
Proof.
  revert s. induction p as [a| | |X e k IH]; intros s; cbn [finally].
  - rewrite run_bind. cbn. by destruct (run h q s) as [[b| |] s'].
  - rewrite run_bind. cbn. by destruct (run h q s) as [[b| |] s'].
  - done.
  - cbn. destruct (h X e s) as [x s']. apply IH.
Qed.

Lemma run_perform {E : Type -> Type} {S X} (h : Handler E S) (e : E X) s : run h (perform e) s = (Done (h X e s).1, (h X e s).2).
Proof. unfold perform. cbn. by destruct (h X e s). Qed.

(** A program that keeps a contract keeps an invariant that every allowed effect keeps. *)
Lemma run_wp {E : Type -> Type} {S A} (h : Handler E S) (c : Contract E) (I : S -> Prop) (p : Prog E A) Q s :
  (forall X (e : E X) s, allowed c e -> I s -> promised c e (h X e s).1 /\ I (h X e s).2) ->
  wp c p Q -> I s -> I (run h p s).2 /\ match (run h p s).1 with Done a => Q a | _ => True end.
Proof.
  intros Hh. revert s. induction p as [a| | |X e k IH]; intros s Hp Hs; cbn in *; [done..|].
  destruct Hp as [He Hk]. destruct (Hh X e s He Hs) as [Hx Hs']. destruct (h X e s) as [x s']. cbn in *.
  apply IH; [by apply Hk|done].
Qed.

(** ** Traces

    What a program did, with the answers it got, and how it ended. *)

Inductive event (E : Type -> Type) : Type := | Ev {X : Type} (e : E X) (x : X).
Arguments Ev {E X} e x.

Inductive trace {E : Type -> Type} {A} : Prog E A -> list (event E) -> outcome A -> Prop :=
  | trace_ret a : trace (Ret a) [] (Done a)
  | trace_panic : trace Panic [] Panicked
  | trace_hang : trace Hang [] Hung
  | trace_do {X} (e : E X) k x l o : trace (k x) l o -> trace (Do e k) (Ev e x :: l) o.

(** What the first step of a trace can be. *)
Lemma trace_inv {E : Type -> Type} {A} (p : Prog E A) l o : trace p l o ->
  match p with
  | Ret a => l = [] /\ o = Done a
  | Panic => l = [] /\ o = Panicked
  | Hang => l = [] /\ o = Hung
  | Do e k => exists x l', l = Ev e x :: l' /\ trace (k x) l' o
  end.
Proof. intros H. destruct H; eauto. Qed.

(** Every run is a trace. *)
Fixpoint run_log {E : Type -> Type} {S A} (h : Handler E S) (p : Prog E A) (s : S) : list (event E) :=
  match p with
  | Do e k => let '(x, s) := h _ e s in Ev e x :: run_log h (k x) s
  | _ => []
  end.

Lemma run_trace {E : Type -> Type} {S A} (h : Handler E S) (p : Prog E A) s : trace p (run_log h p s) (run h p s).1.
Proof.
  revert s. induction p as [a| | |X e k IH]; intros s; cbn; [constructor..|]. destruct (h X e s) as [x s']. constructor. apply IH.
Qed.

Lemma run_trace_done {E : Type -> Type} {S A} (h : Handler E S) (p : Prog E A) s a : (run h p s).1 = Done a -> trace p (run_log h p s) (Done a).
Proof. intros <-. apply run_trace. Qed.

(** ** Programs that a monitor watches

    A monitor has a state that every call changes, and says which calls it allows in a
    state and which answers it expects. [mwp m p Q g]: started in the state [g] and given
    expected answers, [p] makes only allowed calls, and a result satisfies [Q] with the
    state at the end. A program that panics or hangs satisfies the monitor's [at_panic] or
    [at_hang]. *)

Record Monitor (E : Type -> Type) (G : Type) := mkMonitor {
  permits : forall X, E X -> G -> Prop;
  expects : forall X, E X -> X -> Prop;
  observe : forall X, E X -> X -> G -> G;
  at_panic : G -> Prop;
  at_hang : G -> Prop
}.
Arguments mkMonitor {E G} permits expects observe at_panic at_hang.
Arguments permits {E G} m {X} e g.
Arguments expects {E G} m {X} e x.
Arguments observe {E G} m {X} e x g.
Arguments at_panic {E G} m g.
Arguments at_hang {E G} m g.

Fixpoint mwp {E : Type -> Type} {G A} (m : Monitor E G) (p : Prog E A) (Q : A -> G -> Prop) (g : G) : Prop :=
  match p with
  | Ret a => Q a g
  | Panic => at_panic m g
  | Hang => at_hang m g
  | Do e k => permits m e g /\ forall x, expects m e x -> mwp m (k x) Q (observe m e x g)
  end.

Section monitor.
Context {E : Type -> Type} {G : Type} (m : Monitor E G).

Lemma mwp_mono {A} (p : Prog E A) (Q Q' : A -> G -> Prop) g : mwp m p Q g -> (forall a g, Q a g -> Q' a g) -> mwp m p Q' g.
Proof.
  intros Hp HQ. revert g Hp. induction p as [a| | |X e k IH]; intros g Hp; cbn in *; [by apply HQ|done..|].
  destruct Hp as [He Hk]. split; [done|]. intros x Hx. by apply IH, Hk.
Qed.

Lemma mwp_bind {A B} (p : Prog E A) (f : A -> Prog E B) Q g : mwp m p (fun a g => mwp m (f a) Q g) g -> mwp m (p ≫= f) Q g.
Proof.
  intros Hp. change (mwp m (prog_bind f p) Q g). revert g Hp. induction p as [a| | |X e k IH]; intros g Hp; cbn in *; [done..|].
  destruct Hp as [He Hk]. split; [done|]. intros x Hx. by apply IH, Hk.
Qed.

Lemma mwp_perform {X} (e : E X) (Q : X -> G -> Prop) g :
  permits m e g -> (forall x, expects m e x -> Q x (observe m e x g)) -> mwp m (perform e) Q g.
Proof. by split. Qed.

(** The state of the monitor after a trace. *)
Definition observed (l : list (event E)) (g : G) : G := fold_left (fun g ev => match ev with Ev e x => observe m e x g end) l g.

(** Every call of a trace was allowed in the state it was made in. *)
Fixpoint permitted (l : list (event E)) (g : G) : Prop :=
  match l with
  | [] => True
  | Ev e x :: l => permits m e g /\ permitted l (observe m e x g)
  end.

(** Every answer of a trace was expected. *)
Fixpoint expected (l : list (event E)) : Prop :=
  match l with [] => True | Ev e x :: l => expects m e x /\ expected l end.

Lemma mwp_trace {A} (p : Prog E A) (Q : A -> G -> Prop) g l o :
  mwp m p Q g -> trace p l o -> expected l ->
  permitted l g /\ match o with Done a => Q a (observed l g) | Panicked => at_panic m (observed l g) | Hung => at_hang m (observed l g) end.
Proof.
  intros Hp Ht. revert g Hp. induction Ht as [a| | |X e k x l o Ht IH]; intros g Hp Hl; cbn in *; [done..|].
  destruct Hp as [He Hk], Hl as [Hx Hl]. destruct (IH _ (Hk x Hx) Hl) as [H1 H2]. done.
Qed.

(** A monitor that expects nothing in particular. *)
Lemma expected_any l : (forall X (e : E X) x, expects m e x) -> expected l.
Proof. intros Hx. induction l as [|[X e x] l IH]; cbn; auto. Qed.
End monitor.
