(* ===== verification/Effects.v ===== *)
(** * Programs that talk to services

    The batch service of the gateway ([pkg/gateway/batch]) is a set of concurrent
    programs ([Programs]) that share a Redis server, an object store and the gateway's own
    HTTP port. Nothing is assumed about the answers here; [RedisSem] states what Redis
    documents about them.

    A Lua script that is sent with EVAL is a tree of Redis calls of its own; the server
    runs it without interruption. *)

From stdpp Require Import base gmap sets list strings numbers.
From S2P Require Import Prelude GoStrings Types Programs.

Local Open Scope Z_scope.

(** ** Redis calls with the type of their answer *)

Inductive call : Type -> Type :=
  | HSET (key : string) (fields : gmap string string) : call unit
  | HGET (key field : string) : call (option string)
  | HGETALL (key : string) : call (gmap string string)
  | GET (key : string) : call (option string)
  | SADD (key member : string) : call Z
  | SREM (key member : string) : call Z
  | SMEMBERS (key : string) : call (list string)
  | SISMEMBER (key member : string) : call bool
  | SRANDMEMBER (key : string) : call (list string)
  | SETNX (key value : string) (seconds : Z) : call bool
  | SETEX (key value : string) (seconds : Z) : call unit
  | EXPIRE (key : string) (seconds : Z) : call Z
  | TTL (key : string) : call Z
  | DEL (keys : list string) : call Z.

(** A script: its calls, the value it returns, or an error reply. *)
Inductive lua (A : Type) : Type :=
  | LRet (a : A)
  | LErr (msg : string)
  | LCall {X : Type} (c : call X) (k : X -> lua A).
Arguments LRet {A} a.
Arguments LErr {A} msg.
Arguments LCall {A X} c k.

(** ** Effects of a program *)

Record http_request := mkHttp {
  hr_url : string;
  hr_body : string;
  hr_request_id : string;
  hr_authorization : option string
}.

Inductive eff : Type -> Type :=
  | Redis {X : Type} (c : call X) : eff (result X)
  | Eval {X : Type} (s : lua X) : eff (result X)
  | OssGet (path : string) : eff (result string)
  | OssPut (path content : string) : eff (result unit)
  | OssDelete (paths : list string) : eff (result (list string))
  | OssList (prefix marker : string) : eff (result (list string * option string))
  | OssAppend (path content : string) (position : Z) : eff (result Z)
  | HttpDo (r : http_request) : eff (result (Z * result string))
  | Now : eff Z
  | Uuid : eff string
  | Shuffle (l : list string) : eff (list string)
  | Poll : eff bool.

Abbreviation prog := (Prog eff) (only parsing).
Abbreviation contract := (Contract eff) (only parsing).
Abbreviation handler := (Handler eff) (only parsing).
