(* ===== verification/RedisSem.v ===== *)
(** * What Redis documents about its commands

    A key holds a string, a hash or a set, and may expire. [call_answers] relates a
    call at a time to the answers it may give and the keys after it: the order of
    [SMEMBERS], the choice of [SRANDMEMBER] and the rounding of [TTL] are open. [wrong_type] are the calls that
    fail because the key holds another kind of value. A script runs alone, and stops at
    its first failing call without undoing the calls before it. A client may also see
    an error whether or not the server has carried out the call.

    This is all that the theorems on the batch service assume about the server. [redis_exec]
    is one server that behaves so; the examples run on it. *)

From stdpp Require Import base gmap sets list strings numbers.
From S2P Require Import Prelude GoStrings Types Programs Effects.

Local Open Scope Z_scope.

Inductive rvalue := RString (s : string) | RHash (h : gmap string string) | RSet (m : gset string).

(** Values with their expiry time in nanoseconds. *)
Abbreviation keyspace := (gmap string (rvalue * option Z)) (only parsing).

Definition live (now : Z) (db : keyspace) (key : string) : option (rvalue * option Z) :=
  match db !! key with
  | Some (v, Some e) => if bool_decide (e <= now) then None else Some (v, Some e)
  | r => r
  end.

Definition value (now : Z) (db : keyspace) (key : string) : option rvalue := fst <$> live now db key.
Definition expiry (now : Z) (db : keyspace) (key : string) : option Z := live now db key ≫= snd.

Definition hash_at (now : Z) (db : keyspace) (key : string) : gmap string string :=
  match value now db key with Some (RHash h) => h | _ => ∅ end.
Definition set_at (now : Z) (db : keyspace) (key : string) : gset string :=
  match value now db key with Some (RSet m) => m | _ => ∅ end.
Definition string_at (now : Z) (db : keyspace) (key : string) : option string :=
  match value now db key with Some (RString s) => Some s | _ => None end.

Inductive kind := KString | KHash | KSet.

Definition kind_ok (k : kind) (v : option rvalue) : bool :=
  match v, k with
  | None, _ | Some (RString _), KString | Some (RHash _), KHash | Some (RSet _), KSet => true
  | _, _ => false
  end.

(** The kind of value that a call works on, with its key. *)
Definition wants {X} (c : call X) : option (string * kind) :=
  match c with
  | HSET k _ | HGET k _ | HGETALL k => Some (k, KHash)
  | GET k => Some (k, KString)
  | SADD k _ | SREM k _ | SMEMBERS k | SISMEMBER k _ | SRANDMEMBER k => Some (k, KSet)
  | SETNX _ _ _ | SETEX _ _ _ | EXPIRE _ _ | TTL _ | DEL _ => None
  end.

Definition wrong_type {X} (c : call X) (now : Z) (db : keyspace) : bool :=
  match wants c with Some (k, kd) => negb (kind_ok kd (value now db k)) | None => false end.

(** A set that becomes empty is removed. *)
Definition put_set (now : Z) (key : string) (m : gset string) (db : keyspace) : keyspace :=
  if decide (m = ∅) then delete key db else <[key := (RSet m, expiry now db key)]> db.

Definition seconds (n : Z) : Z := n * 10 ^ 9.

(** The answers of a call on a key of the right kind. *)
Definition call_answers {X} (c : call X) : Z -> keyspace -> X -> keyspace -> Prop :=
  match c in call X return Z -> keyspace -> X -> keyspace -> Prop with
  | HSET k fields => fun now db _ db' => db' = <[k := (RHash (fields ∪ hash_at now db k), expiry now db k)]> db
  | HGET k f => fun now db r db' => db' = db /\ r = hash_at now db k !! f
  | HGETALL k => fun now db r db' => db' = db /\ r = hash_at now db k
  | GET k => fun now db r db' => db' = db /\ r = string_at now db k
  | SADD k m => fun now db r db' => db' = put_set now k ({[m]} ∪ set_at now db k) db /\
      r = (if decide (m ∈ set_at now db k) then 0 else 1)
  | SREM k m => fun now db r db' => db' = put_set now k (set_at now db k ∖ {[m]}) db /\
      r = (if decide (m ∈ set_at now db k) then 1 else 0)
  | SMEMBERS k => fun now db r db' => db' = db /\ r ≡ₚ elements (set_at now db k)
  | SISMEMBER k m => fun now db r db' => db' = db /\ r = bool_decide (m ∈ set_at now db k)
  | SRANDMEMBER k => fun now db r db' => db' = db /\
      (r = [] /\ set_at now db k = ∅ \/ exists m, r = [m] /\ m ∈ set_at now db k)
  | SETNX k v n => fun now db r db' =>
      match value now db k with
      | Some _ => db' = db /\ r = false
      | None => db' = <[k := (RString v, Some (now + seconds n))]> db /\ r = true
      end
  | SETEX k v n => fun now db _ db' => db' = <[k := (RString v, Some (now + seconds n))]> db
  | EXPIRE k n => fun now db r db' =>
      match value now db k with
      | None => db' = db /\ r = 0
      | Some v => db' = <[k := (v, Some (now + seconds n))]> db /\ r = 1
      end
  | TTL k => fun now db r db' => db' = db /\
      match value now db k with
      | None => r = -2
      | Some _ => match expiry now db k with
                  | None => r = -1
                  | Some e => e - now - 10 ^ 9 < r * 10 ^ 9 < e - now + 10 ^ 9
                  end
      end
  | DEL ks => fun now db r db' => db' = filter (fun kv => kv.1 ∉ ks) db /\
      r = Z.of_nat (length (filter (fun k => is_Some (value now db k)) (remove_dups ks)))
  end.

(** A script: the result and the keys after it. *)
Fixpoint lua_answers {A} (s : lua A) (now : Z) (db : keyspace) (r : result A) (db' : keyspace) : Prop :=
  match s with
  | LRet a => r = Ok a /\ db' = db
  | LErr msg => r = Err (ErrorOther msg) /\ db' = db
  | LCall c k =>
      (wrong_type c now db = true /\ (exists e, r = Err e) /\ db' = db) \/
      (wrong_type c now db = false /\ exists x db1, call_answers c now db x db1 /\ lua_answers (k x) now db1 r db')
  end.

(** What a client sees of a call or a script. *)
Definition client_sees {A} (r : result A) (exec : result A -> keyspace -> Prop) (db db' : keyspace) : Prop :=
  exec r db' \/ (exists e, r = Err e) /\ (db' = db \/ exists r', exec r' db').

Definition call_result {X} (c : call X) (now : Z) (db : keyspace) (r : result X) (db' : keyspace) : Prop :=
  if wrong_type c now db then (exists e, r = Err e) /\ db' = db
  else exists x, r = Ok x /\ call_answers c now db x db'.

(** ** A server *)

Definition call_exec {X} (c : call X) : Z -> keyspace -> X * keyspace :=
  match c in call X return Z -> keyspace -> X * keyspace with
  | HSET k fields => fun now db => (tt, <[k := (RHash (fields ∪ hash_at now db k), expiry now db k)]> db)
  | HGET k f => fun now db => (hash_at now db k !! f, db)
  | HGETALL k => fun now db => (hash_at now db k, db)
  | GET k => fun now db => (string_at now db k, db)
  | SADD k m => fun now db =>
      (if decide (m ∈ set_at now db k) then 0 else 1, put_set now k ({[m]} ∪ set_at now db k) db)
  | SREM k m => fun now db =>
      (if decide (m ∈ set_at now db k) then 1 else 0, put_set now k (set_at now db k ∖ {[m]}) db)
  | SMEMBERS k => fun now db => (elements (set_at now db k), db)
  | SISMEMBER k m => fun now db => (bool_decide (m ∈ set_at now db k), db)
  | SRANDMEMBER k => fun now db => (take 1 (elements (set_at now db k)), db)
  | SETNX k v n => fun now db =>
      match value now db k with Some _ => (false, db) | None => (true, <[k := (RString v, Some (now + seconds n))]> db) end
  | SETEX k v n => fun now db => (tt, <[k := (RString v, Some (now + seconds n))]> db)
  | EXPIRE k n => fun now db =>
      match value now db k with None => (0, db) | Some v => (1, <[k := (v, Some (now + seconds n))]> db) end
  | TTL k => fun now db =>
      (match value now db k with
       | None => -2
       | Some _ => match expiry now db k with None => -1 | Some e => (e - now) / 10 ^ 9 end
       end, db)
  | DEL ks => fun now db =>
      (Z.of_nat (length (filter (fun k => is_Some (value now db k)) (remove_dups ks))), filter (fun kv => kv.1 ∉ ks) db)
  end.

Definition wrongtype : error := ErrorOther "WRONGTYPE".

Definition redis_exec {X} (c : call X) (now : Z) (db : keyspace) : result X * keyspace :=
  if wrong_type c now db then (Err wrongtype, db)
  else let '(x, db') := call_exec c now db in (Ok x, db').

Fixpoint lua_exec {A} (s : lua A) (now : Z) (db : keyspace) : result A * keyspace :=
  match s with
  | LRet a => (Ok a, db)
  | LErr msg => (Err (ErrorOther msg), db)
  | LCall c k =>
      if wrong_type c now db then (Err wrongtype, db)
      else let '(x, db') := call_exec c now db in lua_exec (k x) now db'
  end.

Lemma call_exec_answers {X} (c : call X) now db : call_answers c now db (call_exec c now db).1 (call_exec c now db).2.
Proof.
  destruct c; cbn; try done.
  - split; [done|]. destruct (elements (set_at now db key)) as [|m l] eqn:E.
    + left. split; [done|]. by apply elements_empty_iff in E; unfold_leibniz.
    + right. exists m. split; [done|]. apply elem_of_elements. rewrite E. by left.
  - by destruct (value now db key).
  - by destruct (value now db key).
  - split; [done|]. destruct (value now db key); [|done]. destruct (expiry now db key) as [e|]; [|done].
    pose proof (Z.div_mod (e - now) (10 ^ 9)). pose proof (Z.mod_pos_bound (e - now) (10 ^ 9)). lia.
Qed.

Lemma redis_exec_result {X} (c : call X) now db : call_result c now db (redis_exec c now db).1 (redis_exec c now db).2.
Proof.
  unfold call_result, redis_exec. destruct (wrong_type c now db); [eauto|].
  pose proof (call_exec_answers c now db) as H. destruct (call_exec c now db) as [x db']. cbn in *. eauto.
Qed.

Lemma lua_exec_answers {A} (s : lua A) now db : lua_answers s now db (lua_exec s now db).1 (lua_exec s now db).2.
Proof.
  revert db. induction s as [a|msg|X c k IH]; intros db; cbn; [done..|].
  destruct (wrong_type c now db) eqn:E; [left; cbn; eauto|]. right. split; [done|].
  pose proof (call_exec_answers c now db) as H. destruct (call_exec c now db) as [x db'].
  exists x, db'. split; [done|apply IH].
Qed.
