(* ===== verification/BatchStore.v ===== *)
(** * The records of the batch service in Redis

    [pkg/gateway/batch/types.go] and [pkg/gateway/batch/redis_store.go]: files, tasks
    and shards as Redis hashes, the status of a task or shard as its membership in a
    set, and locks as keys with an expiry. Every function is the program of the Redis
    calls it makes, in the order of the source; a Lua script is translated line by line
    into one atomic call tree. The texts of error messages are shortened.

    JSON encoding is the class [Json]: [json.Marshal] cannot fail on the types that are
    stored, so encoders are total; decoders fail. *)

From stdpp Require Import base gmap sets list strings numbers.
From S2P Require Import Prelude GoStrings Types Programs Effects.

Local Open Scope Z_scope.
Local Open Scope prog_scope.

(** ** pkg/gateway/batch/types.go *)

Abbreviation BatchTaskStatus := string (only parsing).
Definition StatusValidating : BatchTaskStatus := "validating".
Definition StatusFailed : BatchTaskStatus := "failed".
Definition StatusInProgress : BatchTaskStatus := "in_progress".
Definition StatusFinalizing : BatchTaskStatus := "finalizing".
Definition StatusFinalize : BatchTaskStatus := "finalize".
Definition StatusCompleted : BatchTaskStatus := "completed".
Definition StatusExpired : BatchTaskStatus := "expired".
Definition StatusCancelling : BatchTaskStatus := "cancelling".
Definition StatusCancelled : BatchTaskStatus := "cancelled".
Definition StatusPending : BatchTaskStatus := "pending".

Abbreviation ShardStatus := string (only parsing).
Definition ShardStatusPending : ShardStatus := "pending".
Definition ShardStatusInProgress : ShardStatus := "in_progress".
Definition ShardStatusCompleted : ShardStatus := "completed".
Definition ShardStatusFailed : ShardStatus := "failed".

Record RequestCounts := mkCounts { Total : Z; Completed : Z; Failed : Z }.
Record BatchError := mkBatchError { be_Code : string; be_Line : Z; be_Message : string; be_Param : string }.
Abbreviation BatchErrors := (list BatchError) (only parsing).
Record TokensDetails := mkDetails { CachedTokens : Z; ReasoningTokens : Z }.
Record Usage := mkUsage {
  InputTokens : Z; InputTokensDetails : option TokensDetails;
  OutputTokens : Z; OutputTokensDetails : option TokensDetails; TotalTokens : Z
}.
Record OutputExpiresAfter := mkExpiresAfter { Anchor : string; Seconds : Z }.

Record File := mkFile {
  f_ID : string; f_Object : string; f_Bytes : Z; f_CreatedAt : Z; f_ExpiresAt : Z; f_Filename : string; f_Purpose : string
}.

Record BatchTask := mkTask {
  t_ID : string; t_Object : string; t_Endpoint : string; t_Model : string;
  t_Errors : option BatchErrors; t_InputFileID : string; t_CompletionWindow : string; t_Status : BatchTaskStatus;
  t_OutputFileID : option string; t_ErrorFileID : option string;
  t_CreatedAt : option Z; t_InProgressAt : option Z; t_ExpiresAt : Z; t_FinalizingAt : option Z; t_CompletedAt : option Z;
  t_FailedAt : option Z; t_ExpiredAt : option Z; t_CancellingAt : option Z; t_CancelledAt : option Z;
  t_RequestCounts : option RequestCounts; t_Usage : option Usage; t_Metadata : gmap string string;
  t_OutputExpiresAfter : option OutputExpiresAfter; t_UpdatedAt : option Z; t_Token : option string
}.

Record FileShard := mkShard {
  s_ID : string; s_CreatedAt : option Z; s_RequestCounts : option RequestCounts; s_UpdatedAt : option Z
}.

(** [ValidateMetadata]: the first offending entry depends on the iteration order; the
    field of the error is that entry's key. *)
Inductive metadata_error := TooManyPairs | KeyTooLong (key : string) | ValueTooLong (key : string).

Definition entry_error (key value : string) : option metadata_error :=
  if bool_decide (64 < String.length key)%nat then Some (KeyTooLong key)
  else if bool_decide (512 < String.length value)%nat then Some (ValueTooLong key) else None.

Fixpoint first_error (m : gmap string string) (keys : list string) : option metadata_error :=
  match keys with
  | [] => None
  | k :: keys => match entry_error k (default "" (m !! k)) with Some e => Some e | None => first_error m keys end
  end.

Definition ValidateMetadata (order : key_order) (metadata : gmap string string) : option metadata_error :=
  if bool_decide (16 < size metadata)%nat then Some TooManyPairs else first_error metadata (order (dom metadata)).

(** ** JSON *)

Class Json := {
  marshal_counts : RequestCounts -> string;
  unmarshal_counts : string -> option RequestCounts;
  marshal_usage : Usage -> string;
  unmarshal_usage : string -> option Usage;
  marshal_errors : BatchErrors -> string;
  unmarshal_errors : string -> option BatchErrors;
  marshal_expires : OutputExpiresAfter -> string;
  unmarshal_expires : string -> option OutputExpiresAfter;
  marshal_metadata : gmap string string -> string;
  unmarshal_metadata : string -> gmap string string * bool   (* the entries read, and success *)
}.

(** ** Keys *)

Definition getFileKey (fileID : string) : string := "file:" +:+ fileID.
Definition getFileSetKey : string := "files:all".
Definition getTaskLockKey (taskID : string) : string := "task:lock:" +:+ taskID.
Definition getShardLockKey (taskID shardID : string) : string := "shard:lock:" +:+ taskID +:+ ":" +:+ shardID.
Definition getTaskSetKey (set : BatchTaskStatus) : string := "tasks:" +:+ set.
Definition getGlobalTaskSetKey : string := "tasks:all".
Definition getShardSetKey (taskID : string) (status : ShardStatus) : string := "task:" +:+ taskID +:+ ":files:" +:+ status.
Definition getTaskKey (taskID : string) : string := "task:" +:+ taskID.
Definition getShardKey (taskID shardID : string) : string := "shard:" +:+ taskID +:+ ":" +:+ shardID.

(** ** Helpers of the translation *)

(** A call of which only the error is used. *)
Definition void {X} (p : prog (result X)) : prog (result unit) := x ←? p; Ret (Ok tt).

Definition redis_nil : error := ErrorOther "redis: nil".

(** [HGet] of the client with one field, and [Get]: a missing value is an error. *)
Definition client_HGet (key field : string) : prog (result string) :=
  v ←? perform (Redis (HGET key field)); Ret (match v with Some v => Ok v | None => Err redis_nil end).

Definition client_Get (key : string) : prog (result string) :=
  v ←? perform (Redis (GET key)); Ret (match v with Some v => Ok v | None => Err redis_nil end).

Definition field (values : gmap string string) (name : string) : string := default "" (values !! name).

(** A parse of a required number. *)
Definition parse_int (what s : string) : prog (result Z) :=
  Ret (match Atoi s with Some z => Ok z | None => Err (ErrorOther ("failed to parse " +:+ what)) end).

(** Optional fields: an absent or empty field, or a number that does not parse, is nil. *)
Definition opt_string (values : gmap string string) (name : string) : option string :=
  v ← values !! name; if decide (v = "") then None else Some v.
Definition opt_int (values : gmap string string) (name : string) : option Z := opt_string values name ≫= Atoi.

Definition add_opt (name : string) (v : option string) (fields : gmap string string) : gmap string string :=
  match v with Some v => <[name := v]> fields | None => fields end.

(** Seconds of a clock reading in nanoseconds. *)
Definition Unix (ns : Z) : Z := ns / 10 ^ 9.

Definition now_unix : prog Z := ns ← perform Now; Ret (Unix ns).

(** ** File operations *)

Definition file_fields (file : File) : gmap string string :=
  list_to_map [("id", f_ID file); ("object", f_Object file); ("bytes", Itoa (f_Bytes file));
    ("created_at", Itoa (f_CreatedAt file)); ("expires_at", Itoa (f_ExpiresAt file));
    ("filename", f_Filename file); ("purpose", f_Purpose file)].

Definition AddFileToSet (fileID : string) : prog (result unit) := void (perform (Redis (SADD getFileSetKey fileID))).
Definition RemoveFileFromSet (fileID : string) : prog (result unit) := void (perform (Redis (SREM getFileSetKey fileID))).
Definition GetAllFiles : prog (result (list string)) := perform (Redis (SMEMBERS getFileSetKey)).

Definition CreateFile (file : File) : prog (result unit) :=
  perform (Redis (HSET (getFileKey (f_ID file)) (file_fields file))) ;;? AddFileToSet (f_ID file).

Definition GetFile (fileID : string) : prog (result File) :=
  values ←? perform (Redis (HGETALL (getFileKey fileID)));
  if decide (size values = 0%nat) then Ret (Err (ErrorOther "file not found"))
  else
    createdAt ←? parse_int "created_at" (field values "created_at");
    bytes ←? parse_int "bytes" (field values "bytes");
    let expiresAt := default 0 (Atoi (field values "expires_at")) in
    Ret (Ok (mkFile (field values "id") (field values "object") bytes createdAt expiresAt
      (field values "filename") (field values "purpose"))).

Definition DeleteFile (fileID : string) : prog (result unit) :=
  perform (Redis (DEL [getFileKey fileID])) ;;? RemoveFileFromSet fileID.

(** ** Task operations *)

Definition AddTaskToGlobalSet (taskID : string) : prog (result unit) := void (perform (Redis (SADD getGlobalTaskSetKey taskID))).
Definition RemoveTaskFromGlobalSet (taskID : string) : prog (result unit) := void (perform (Redis (SREM getGlobalTaskSetKey taskID))).
Definition GetAllTasks : prog (result (list string)) := perform (Redis (SMEMBERS getGlobalTaskSetKey)).

Section json.
Context {J : Json}.

Definition marshalBatchErrors (errors : option BatchErrors) : string :=
  match errors with None => "" | Some e => marshal_errors e end.

(** The time fields that [CreateTask] and [UpdateTaskFields] both store. *)
Definition add_times (task : BatchTask) (fields : gmap string string) : gmap string string :=
  add_opt "cancelled_at" (Itoa <$> t_CancelledAt task) (add_opt "cancelling_at" (Itoa <$> t_CancellingAt task)
  (add_opt "expired_at" (Itoa <$> t_ExpiredAt task) (add_opt "failed_at" (Itoa <$> t_FailedAt task)
  (add_opt "completed_at" (Itoa <$> t_CompletedAt task) (add_opt "finalizing_at" (Itoa <$> t_FinalizingAt task)
  (add_opt "in_progress_at" (Itoa <$> t_InProgressAt task) fields)))))).

Definition add_files (task : BatchTask) (fields : gmap string string) : gmap string string :=
  add_opt "error_file_id" (t_ErrorFileID task) (add_opt "output_file_id" (t_OutputFileID task) fields).

Definition add_json (task : BatchTask) (fields : gmap string string) : gmap string string :=
  add_opt "output_expires_after" (marshal_expires <$> t_OutputExpiresAfter task)
  (add_opt "usage" (marshal_usage <$> t_Usage task)
  (add_opt "request_counts" (marshal_counts <$> t_RequestCounts task) fields)).

(** [None]: CreatedAt or UpdatedAt is nil and dereferenced. *)
Definition task_fields (task : BatchTask) : option (gmap string string) :=
  createdAt ← t_CreatedAt task; updatedAt ← t_UpdatedAt task;
  let fields := list_to_map [("id", t_ID task); ("object", t_Object task); ("endpoint", t_Endpoint task);
    ("model", t_Model task); ("errors", marshalBatchErrors (t_Errors task)); ("input_file_id", t_InputFileID task);
    ("completion_window", t_CompletionWindow task); ("status", t_Status task); ("created_at", Itoa createdAt);
    ("expires_at", Itoa (t_ExpiresAt task)); ("updated_at", Itoa updatedAt)] in
  Some (add_opt "token" (t_Token task)
    (add_json task
      (add_opt "metadata" (if decide (size (t_Metadata task) = 0%nat) then None else Some (marshal_metadata (t_Metadata task)))
        (add_times task (add_files task fields))))).

Definition CreateTask (task : BatchTask) : prog (result unit) :=
  match task_fields task with
  | None => Panic
  | Some fields =>
      perform (Redis (HSET (getTaskKey (t_ID task)) fields)) ;;?
      AddTaskToGlobalSet (t_ID task) ;;?
      void (perform (Redis (SADD (getTaskSetKey StatusPending) (t_ID task))))
  end.

Definition parse_metadata (values : gmap string string) : gmap string string :=
  match opt_string values "metadata" with
  | None => ∅
  | Some v => let '(m, ok) := unmarshal_metadata v in if ok : bool then m else <["value" := v]> m
  end.

(** An optional JSON value that must parse when it is present. *)
Definition parse_json {X} (unmarshal : string -> option X) (what : string) (v : option string) : prog (result (option X)) :=
  match v with
  | None => Ret (Ok None)
  | Some v => Ret (match unmarshal v with Some x => Ok (Some x) | None => Err (ErrorOther ("failed to unmarshal " +:+ what)) end)
  end.

Definition parse_errors (values : gmap string string) : option BatchErrors :=
  (fun v => default [mkBatchError "parsing_error" 0 v ""] (unmarshal_errors v)) <$> opt_string values "errors".

Definition GetTask (taskID : string) : prog (result BatchTask) :=
  values ←? perform (Redis (HGETALL (getTaskKey taskID)));
  if decide (size values = 0%nat) then Ret (Err (ErrorOther "task not found"))
  else
    createdAt ←? parse_int "created_at" (field values "created_at");
    expiresAt ←? parse_int "expires_at" (field values "expires_at");
    updatedAt ←? parse_int "updated_at" (field values "updated_at");
    requestCounts ←? parse_json unmarshal_counts "request_counts" (opt_string values "request_counts");
    usage ←? parse_json unmarshal_usage "usage" (opt_string values "usage");
    Ret (Ok (mkTask (field values "id") (field values "object") (field values "endpoint") (field values "model")
      (parse_errors values) (field values "input_file_id") (field values "completion_window") (field values "status")
      (opt_string values "output_file_id") (opt_string values "error_file_id")
      (Some createdAt) (opt_int values "in_progress_at") expiresAt (opt_int values "finalizing_at")
      (opt_int values "completed_at") (opt_int values "failed_at") (opt_int values "expired_at")
      (opt_int values "cancelling_at") (opt_int values "cancelled_at")
      requestCounts usage (parse_metadata values)
      (opt_string values "output_expires_after" ≫= unmarshal_expires) (Some updatedAt) (opt_string values "token"))).

Definition DeleteTask (taskID : string) : prog (result unit) :=
  perform (Redis (DEL [getTaskKey taskID])) ;;?
  (_ ← RemoveTaskFromGlobalSet taskID; Ret (Ok tt)).

(** The time field that goes with a status. *)
Definition status_time (status : BatchTaskStatus) : option string :=
  if decide (status = StatusInProgress) then Some "in_progress_at"
  else if decide (status = StatusFinalizing) then Some "finalizing_at"
  else if decide (status = StatusCompleted) then Some "completed_at"
  else if decide (status = StatusFailed) then Some "failed_at"
  else if decide (status = StatusExpired) then Some "expired_at"
  else if decide (status = StatusCancelling) then Some "cancelling_at"
  else if decide (status = StatusCancelled) then Some "cancelled_at"
  else None.

Definition UpdateTaskStatus (taskID : string) (status : BatchTaskStatus) : prog (result unit) :=
  now ← now_unix;
  let fields := list_to_map [("status", status); ("updated_at", Itoa now)] in
  let fields := match status_time status with Some name => <[name := Itoa now]> fields | None => fields end in
  perform (Redis (HSET (getTaskKey taskID) fields)).

Definition UpdateTaskFailure (taskID : string) (batchErr : BatchErrors) : prog (result unit) :=
  now ← now_unix;
  perform (Redis (HSET (getTaskKey taskID)
    (list_to_map [("status", StatusFailed); ("errors", marshalBatchErrors (Some batchErr)); ("failed_at", Itoa now); ("updated_at", Itoa now)]))).

Definition UpdateTaskFields (taskID : string) (task : BatchTask) : prog (result unit) :=
  match t_UpdatedAt task with
  | None => Panic
  | Some updatedAt =>
      perform (Redis (HSET (getTaskKey taskID)
        (add_times task (<["status" := t_Status task]> (add_json task (add_files task {["updated_at" := Itoa updatedAt]}))))))
  end.

(** ** Status sets

    The first half of the three move scripts: add to the destination, remove from the
    source, undo the addition when the source did not hold the member. *)
Definition move_script {A} (fromKey toKey member : string) (rest : lua A) : lua A :=
  LCall (SADD toKey member) (fun added =>
  LCall (SREM fromKey member) (fun removed =>
  if decide (removed = 0) then
    if decide (added = 1) then LCall (SREM toKey member) (fun _ => LErr "not found in set") else LErr "not found in set"
  else rest)).

Definition set_field {A} (key name value : string) (rest : lua A) : lua A :=
  LCall (HSET key {[name := value]}) (fun _ => rest).

Definition move_task_script (taskID fromKey toKey taskKey toSetName now : string) : lua Z :=
  move_script fromKey toKey taskID
    (set_field taskKey "status" toSetName
    (set_field taskKey "updated_at" now
    (if decide (toSetName = "in_progress") then
       LCall (HGET taskKey "in_progress_at") (fun v =>
         match v with None => set_field taskKey "in_progress_at" now (LRet 1) | Some _ => LRet 1 end)
     else if decide (toSetName = "finalizing") then set_field taskKey "finalizing_at" now (LRet 1)
     else if decide (toSetName = "completed") then set_field taskKey "completed_at" now (LRet 1)
     else if decide (toSetName = "failed") then set_field taskKey "failed_at" now (LRet 1)
     else if decide (toSetName = "expired") then set_field taskKey "expired_at" now (LRet 1)
     else if decide (toSetName = "cancelling") then set_field taskKey "cancelling_at" now (LRet 1)
     else if decide (toSetName = "cancelled") then set_field taskKey "cancelled_at" now (LRet 1)
     else LRet 1))).

Definition MoveTaskAndUpdateStatusAtomically (taskID : string) (fromSet toSet : BatchTaskStatus) : prog (result unit) :=
  now ← now_unix;
  void (perform (Eval (move_task_script taskID (getTaskSetKey fromSet) (getTaskSetKey toSet) (getTaskKey taskID) toSet (Itoa now)))).

Definition MoveTaskAtomically (taskID : string) (fromSet toSet : BatchTaskStatus) : prog (result unit) :=
  void (perform (Eval (move_script (getTaskSetKey fromSet) (getTaskSetKey toSet) taskID (LRet 1)))).

Definition GetTasksInStatus (status : BatchTaskStatus) : prog (result (list string)) :=
  perform (Redis (SMEMBERS (getTaskSetKey status))).

(** Seconds since the epoch. *)
Definition GetTaskExpiresAt (taskID : string) : prog (result Z) :=
  v ←? client_HGet (getTaskKey taskID) "expires_at"; parse_int "expires_at" v.

Definition GetTaskStatus (taskID : string) : prog (result BatchTaskStatus) := client_HGet (getTaskKey taskID) "status".

Fixpoint expired_of (now : Z) (taskIDs : list string) : prog (list string) :=
  match taskIDs with
  | [] => Ret []
  | taskID :: taskIDs =>
      r ← GetTaskExpiresAt taskID;
      rest ← expired_of now taskIDs;
      Ret (match r with Ok e => if bool_decide (e * 10 ^ 9 < now) then taskID :: rest else rest | Err _ => rest end)
  end.

Fixpoint expired_in (now : Z) (sets : list BatchTaskStatus) : prog (result (list string)) :=
  match sets with
  | [] => Ret (Ok [])
  | s :: sets =>
      taskIDs ←? GetTasksInStatus s;
      (ids ← expired_of now taskIDs; rest ←? expired_in now sets; Ret (Ok (ids ++ rest)))
  end.

Definition GetExpiredTasks (sets : list BatchTaskStatus) : prog (result (list string)) :=
  now ← perform Now; expired_in now sets.

Definition TaskInSet (set : BatchTaskStatus) (taskID : string) : prog (result bool) :=
  perform (Redis (SISMEMBER (getTaskSetKey set) taskID)).
Definition AddToSet (set : BatchTaskStatus) (taskID : string) : prog (result unit) :=
  void (perform (Redis (SADD (getTaskSetKey set) taskID))).
Definition RemoveFromSet (set : BatchTaskStatus) (taskID : string) : prog (result unit) :=
  void (perform (Redis (SREM (getTaskSetKey set) taskID))).

(** The first of the members that [SRandMember] returns. *)
Definition random_member (key what : string) : prog (result string) :=
  members ←? perform (Redis (SRANDMEMBER key));
  Ret (match members with [] => Err (ErrorOther what) | m :: _ => Ok m end).

Definition GetTaskInStatus (set : BatchTaskStatus) : prog (result string) := random_member (getTaskSetKey set) "no tasks in set".

(** ** File shard operations *)

(** [Panic]: a nil time is dereferenced. *)
Definition CreateOrUpdateFileShard (taskID shardID : string) (shard : FileShard) : prog (result unit) :=
  match s_CreatedAt shard, s_UpdatedAt shard with
  | Some createdAt, Some updatedAt =>
      perform (Redis (HSET (getShardKey taskID shardID)
        (add_opt "request_counts" (marshal_counts <$> s_RequestCounts shard)
          (list_to_map [("id", s_ID shard); ("created_at", Itoa createdAt); ("updated_at", Itoa updatedAt)]))))
  | _, _ => Panic
  end.

Definition GetFileShard (taskID shardID : string) : prog (result FileShard) :=
  values ←? perform (Redis (HGETALL (getShardKey taskID shardID)));
  createdAt ←? parse_int "created_at" (field values "created_at");
  updatedAt ←? parse_int "updated_at" (field values "updated_at");
  requestCounts ←? parse_json unmarshal_counts "request_counts" (opt_string values "request_counts");
  Ret (Ok (mkShard (field values "id") (Some createdAt) requestCounts (Some updatedAt))).

Definition AddShardToPendingList (taskID shardID : string) : prog (result unit) :=
  void (perform (Redis (SADD (getShardSetKey taskID ShardStatusPending) shardID))).

Definition MoveShardAtomically (taskID shardID : string) (fromStatus toStatus : ShardStatus) : prog (result unit) :=
  void (perform (Eval (move_script (getShardSetKey taskID fromStatus) (getShardSetKey taskID toStatus) shardID (LRet 1)))).

Definition GetShardsInStatus (taskID : string) (status : ShardStatus) : prog (result (list string)) :=
  perform (Redis (SMEMBERS (getShardSetKey taskID status))).

Definition GetShardInStatus (taskID : string) (status : ShardStatus) : prog (result string) :=
  random_member (getShardSetKey taskID status) "no shards in status".

Definition all_done_script (pendingKey inProgressKey : string) : lua Z :=
  LCall (SMEMBERS pendingKey) (fun pendingShards =>
  LCall (SMEMBERS inProgressKey) (fun inProgressShards =>
  if decide (pendingShards = [] /\ inProgressShards = []) then LRet 1 else LRet 0)).

Definition CheckIfAllShardsAreCompleted (taskID : string) : prog (result bool) :=
  r ←? perform (Eval (all_done_script (getShardSetKey taskID ShardStatusPending) (getShardSetKey taskID ShardStatusInProgress)));
  Ret (Ok (bool_decide (r = 1))).

Definition RemoveShardInfo (taskID : string) (status : ShardStatus) : prog (result unit) :=
  shardIDs ←? GetShardsInStatus taskID status;
  void (perform (Redis (DEL ((getShardKey taskID <$> shardIDs) ++ [getShardSetKey taskID status])))).

(** ** Locks *)

Definition release_script (key instanceID : string) : lua Z :=
  LCall (GET key) (fun current =>
  match current with
  | None => LRet 1
  | Some c => if decide (c = instanceID) then LCall (DEL [key]) (fun n => LRet n) else LRet 1
  end).

Definition extend_script (key instanceID : string) (expiration : Z) : lua Z :=
  LCall (GET key) (fun current =>
  if decide (current = Some instanceID) then LCall (EXPIRE key expiration) (fun _ => LRet 1) else LRet 0).

Definition recover_script (key instanceID : string) (expiration : Z) : lua Z :=
  LCall (GET key) (fun current =>
  match current with
  | None => LCall (SETEX key instanceID expiration) (fun _ => LRet 1)
  | Some c =>
      if decide (c = instanceID) then LCall (EXPIRE key expiration) (fun _ => LRet 1)
      else LCall (TTL key) (fun ttl =>
        if decide (ttl <= 0) then LCall (SETEX key instanceID expiration) (fun _ => LRet 1) else LRet 0)
  end).

(** [expiration] in seconds; [DefaultLockExpiration] is five minutes. *)
Definition DefaultLockExpiration : Z := 300.
Definition DefaultLockRenewalInterval : Z := 120.
Definition DefaultStatusCheckInterval : Z := 10.

Definition AcquireTaskLock (taskID instanceID : string) (expiration : Z) : prog (result bool) :=
  perform (Redis (SETNX (getTaskLockKey taskID) instanceID expiration)).
Definition ReleaseTaskLock (taskID instanceID : string) : prog (result unit) :=
  void (perform (Eval (release_script (getTaskLockKey taskID) instanceID))).
Definition ExtendTaskLock (taskID instanceID : string) (expiration : Z) : prog (result unit) :=
  void (perform (Eval (extend_script (getTaskLockKey taskID) instanceID expiration))).

Definition shard_owner (instanceID workerID : string) : string := instanceID +:+ ":" +:+ workerID.

Definition AcquireShardLock (taskID shardID instanceID workerID : string) (expiration : Z) : prog (result bool) :=
  perform (Redis (SETNX (getShardLockKey taskID shardID) (shard_owner instanceID workerID) expiration)).
Definition ExtendShardLock (taskID shardID instanceID workerID : string) (expiration : Z) : prog (result unit) :=
  void (perform (Eval (extend_script (getShardLockKey taskID shardID) (shard_owner instanceID workerID) expiration))).
Definition AcquireOrRecoverShardLock (taskID shardID instanceID workerID : string) (expiration : Z) : prog (result bool) :=
  r ←? perform (Eval (recover_script (getShardLockKey taskID shardID) (shard_owner instanceID workerID) expiration));
  Ret (Ok (bool_decide (r = 1))).
Definition ReleaseShardLock (taskID shardID instanceID workerID : string) : prog (result unit) :=
  void (perform (Eval (release_script (getShardLockKey taskID shardID) (shard_owner instanceID workerID)))).

(** No lock is an empty owner. *)
Definition lock_owner (key : string) : prog (result string) :=
  r ← client_Get key;
  Ret (match r with Err e => if decide (e = redis_nil) then Ok "" else Err e | Ok v => Ok v end).
Definition GetTaskLockOwner (taskID : string) : prog (result string) := lock_owner (getTaskLockKey taskID).
Definition GetShardLockOwner (taskID shardID : string) : prog (result string) := lock_owner (getShardLockKey taskID shardID).

End json.
