(* ===== verification/BatchOss.v ===== *)
(** * The object store client of the batch service

    [pkg/gateway/batch/oss_client.go], with the parts of Go's [path] and [bytes] that
    it and the reactor use. Objects are byte strings. The two loops that wait for the
    server (deletion in chunks of 1000, listing page by page) take a fuel, the number
    of requests after which the model gives up with [Hang]. *)

From Stdlib Require Import Ascii.
From stdpp Require Import base list strings numbers.
From S2P Require Import Prelude GoStrings Types Programs Effects.

Local Open Scope Z_scope.
Local Open Scope prog_scope.

(** ** [path.Join] *)

(** The cleaned elements, last first: [.] and empty elements go away, [..] removes the
    element before it; a rooted path drops a [..] at its start. *)
Fixpoint clean_elements (rooted : bool) (acc : list string) (elements : list string) : list string :=
  match elements with
  | [] => acc
  | e :: es =>
      if decide (e = "" \/ e = ".") then clean_elements rooted acc es
      else if decide (e = "..") then
        match acc with
        | [] => clean_elements rooted (if rooted then [] else [".."]) es
        | x :: acc' => if decide (x = "..") then clean_elements rooted (".." :: acc) es else clean_elements rooted acc' es
        end
      else clean_elements rooted (e :: acc) es
  end.

Definition path_Clean (p : string) : string :=
  let rooted := HasPrefix p "/" in
  let body := Join (reverse (clean_elements rooted [] (Split p "/"))) "/" in
  if rooted then "/" +:+ body else if decide (body = "") then "." else body.

Definition path_Join (elements : list string) : string :=
  match filter (fun e => e <> "") elements with
  | [] => ""
  | es => path_Clean (Join es "/")
  end.

(** ** [bytes.TrimSpace] on UTF-8 *)

Definition hex (a b : nat) : string := String (ascii_of_nat a) (String (ascii_of_nat b) "").
Definition hex3 (a b c : nat) : string := String (ascii_of_nat a) (hex b c).

(** The encodings of the white space of Unicode outside ASCII. *)
Definition wide_spaces : list string :=
  [hex 194 133; hex 194 160; hex3 225 154 128; hex3 226 128 168; hex3 226 128 169; hex3 226 128 175; hex3 226 129 159; hex3 227 128 128]
  ++ ((fun i => hex3 226 128 (128 + i)%nat) <$> seq 0 11).

Definition leading_space (s : string) : option nat :=
  match s with
  | String c _ => if is_space c then Some 1%nat else String.length <$> List.find (HasPrefix s) wide_spaces
  | EmptyString => None
  end.

Fixpoint trim_left_fuel (fuel : nat) (s : string) : string :=
  match fuel with
  | O => s
  | S fuel => match leading_space s with Some n => trim_left_fuel fuel (sdrop n s) | None => s end
  end.

Definition trailing_space (s : string) : option nat :=
  if existsb (fun c => HasSuffix s (String c "")) (filter (fun c => is_space c = true) (ascii_of_nat <$> seq 0 128))
  then Some 1%nat
  else String.length <$> List.find (HasSuffix s) wide_spaces.

Fixpoint trim_right_fuel (fuel : nat) (s : string) : string :=
  match fuel with
  | O => s
  | S fuel => match trailing_space s with Some n => trim_right_fuel fuel (stake (String.length s - n) s) | None => s end
  end.

(** Every round removes a byte, so the length is enough fuel. *)
Definition bytes_TrimSpace (s : string) : string :=
  let l := trim_left_fuel (String.length s) s in trim_right_fuel (String.length l) l.

(** ** The client *)

Definition newline : string := String (ascii_of_nat 10) "".

Definition maxObjectsPerRequest : nat := 1000.

Definition UploadFile (filePath content : string) : prog (result unit) := perform (OssPut filePath content).
Definition GetObjectContent (filePath : string) : prog (result string) := perform (OssGet filePath).

Fixpoint DeleteFiles (fuel : nat) (filePaths : list string) : prog (result unit) :=
  match filePaths with
  | [] => Ret (Ok tt)
  | _ => match fuel with
         | O => Hang
         | S fuel =>
             deleted ←? perform (OssDelete (take maxObjectsPerRequest filePaths));
             DeleteFiles fuel (drop (length deleted) filePaths)
         end
  end.

Fixpoint list_pages (fuel : nat) (prefix marker : string) : prog (result (list string)) :=
  match fuel with
  | O => Hang
  | S fuel =>
      page ←? perform (OssList prefix marker);
      match page with
      | (objects, None) => Ret (Ok objects)
      | (objects, Some token) => rest ←? list_pages fuel prefix token; Ret (Ok (objects ++ rest))
      end
  end.

Definition ListObjectsWithPrefix (fuel : nat) (prefix : string) : prog (result (list string)) := list_pages fuel prefix "".

(** Splitting never gives an empty list; a last empty line is dropped. *)
Definition lines_of (content : string) : list string :=
  let lines := Split content newline in
  if decide (list.last lines = Some "") then take (length lines - 1) lines else lines.

Definition ReadLines (filePath : string) : prog (result (list string)) :=
  content ←? GetObjectContent filePath; Ret (Ok (lines_of content)).

Definition WriteLines (filePath : string) (lines : list string) : prog (result unit) :=
  perform (OssPut filePath (Join lines newline +:+ newline)).

Definition no_such_key : error := ErrorOther "NoSuchKey".

(** A missing source is skipped; otherwise the position after the appended bytes. *)
Definition AppendToObject (sourcePath destinationPath : string) (appendPosition : Z) : prog (result Z) :=
  r ← perform (OssGet sourcePath);
  match r with
  | Err e => Ret (if decide (e = no_such_key) then Ok appendPosition else Err e)
  | Ok body => perform (OssAppend destinationPath body appendPosition)
  end.
