(* ===== verification/BatchReactor.v ===== *)
(** * The batch reactors

    [pkg/gateway/batch/reactor.go]: one round of each reactor loop as a program.
    A task goes from pending through validating, in_progress, finalizing and finalize
    to completed, or ends failed, cancelled or expired; its input is cut into shards
    that workers process under a lock each.

    The monitor goroutines are the programs [task_monitor_tick] and
    [shard_monitor_tick], one call per tick; the channel on which they report a changed
    status is the effect [Poll]. Sleeping and logging are left out, error texts are
    shortened. *)

From Stdlib Require Import Ascii.
From stdpp Require Import base gmap sets list strings numbers.
From S2P Require Import Prelude GoStrings Types Programs Effects BatchStore BatchOss.

Local Open Scope Z_scope.
Local Open Scope prog_scope.

Record TaskReactor := mkReactor {
  instanceID : string;
  ossPrefix : string;
  BatchLinesPerShard : Z;
  BatchRequestRetryTimes : Z;
  Port_ : Z;
  oss_fuel : nat
}.

(** ** Line formats *)

Record SingleLineRequest := mkLineRequest { CustomID : string; Method : string; URL : string; Body : option string }.

Record BatchRequestError := mkRequestError { re_Code : string; re_Message : string }.
Record RespData := mkRespData { StatusCode : Z; RequestID : string; rd_Body : option string }.
Record SingleLineResponse := mkLineResponse {
  lr_ID : string; lr_CustomID : string; lr_Response : option RespData; lr_Error : option BatchRequestError
}.

(** JSON of the lines, and whether [net/http] accepts a URL. Marshalling a response
    fails when its raw body is not JSON. *)
Class LineJson := {
  unmarshal_line : string -> option SingleLineRequest;
  unmarshal_custom_id : string -> option string;
  marshal_response : SingleLineResponse -> option string;
  valid_url : string -> bool
}.

Definition errTaskStatusChanged : error := ErrorOther "task status changed".
Definition failed_to (what : string) : error := ErrorOther ("failed to " +:+ what).

(** An error wrapped with a message of its own. *)
Definition wrap_err {A} (what : string) (p : prog (result A)) : prog (result A) :=
  r ← p; Ret (match r with Ok a => Ok a | Err _ => Err (failed_to what) end).

Definition error_text (e : error) : string := match e with ErrorOther msg => msg | _ => "error" end.

(** ** Paths *)

Section reactor.
Context {J : Json} {LJ : LineJson} (tr : TaskReactor).

Definition getFileOSSPath (fileID : string) : string := path_Join [ossPrefix tr; fileID].
Definition getShardFileInputOSSPrefix (taskID : string) : string := path_Join [ossPrefix tr; taskID; "input"].
Definition getShardFileOutputOSSPrefix (taskID : string) : string := path_Join [ossPrefix tr; taskID; "output"].
Definition getShardFileInputOSSPath (taskID shardID : string) : string := path_Join [getShardFileInputOSSPrefix taskID; shardID].
Definition getShardFileOutputOSSPath (taskID shardID : string) : string := path_Join [getShardFileOutputOSSPrefix taskID; shardID].
Definition getShardFileOutputErrorOSSPath (taskID shardID : string) : string :=
  path_Join [getShardFileOutputOSSPrefix taskID; "err_" +:+ shardID].

(** ** Monitors

    One tick: extend the lock when it is time, then look whether the task has left the
    expected set; the result says whether the goroutine signals the change and ends. *)

Definition monitor_tick (extend : prog (result unit)) (renew : bool) (expectedStatus : BatchTaskStatus) (taskID : string) : prog bool :=
  _ ← (if renew then extend else Ret (Ok tt));
  r ← TaskInSet expectedStatus taskID;
  Ret (match r with Ok inSet => negb inSet | Err _ => false end).

Definition task_monitor_tick (taskID : string) (expectedStatus : BatchTaskStatus) (renew : bool) : prog bool :=
  monitor_tick (ExtendTaskLock taskID (instanceID tr) DefaultLockExpiration) renew expectedStatus taskID.

Definition shard_monitor_tick (taskID shardID workerID : string) (expectedStatus : BatchTaskStatus) (renew : bool) : prog bool :=
  monitor_tick (ExtendShardLock taskID shardID (instanceID tr) workerID DefaultLockExpiration) renew expectedStatus taskID.

(** ** Clean-up *)

Definition cleanupShardOSSFiles (taskID : string) : prog (result unit) :=
  inputObjects ←? wrap_err "list objects" (ListObjectsWithPrefix (oss_fuel tr) (getShardFileInputOSSPrefix taskID));
  outputObjects ←? wrap_err "list objects" (ListObjectsWithPrefix (oss_fuel tr) (getShardFileOutputOSSPrefix taskID));
  wrap_err "delete files" (DeleteFiles (oss_fuel tr) (inputObjects ++ outputObjects)).

Definition cleanupShardMeta (taskID : string) : prog (result unit) :=
  wrap_err "clean shard meta"
    (RemoveShardInfo taskID ShardStatusPending ;;? RemoveShardInfo taskID ShardStatusInProgress ;;?
     RemoveShardInfo taskID ShardStatusCompleted ;;? RemoveShardInfo taskID ShardStatusFailed).

Definition cleanupTaskShardMeta (taskID : string) : prog (result unit) :=
  cleanupShardOSSFiles taskID ;;? cleanupShardMeta taskID.

(** ** Validation *)

Definition supportedEndpoints : list string := ["/v1/responses"; "/v1/chat/completions"; "/v1/completions"].

Definition max_lines : Z := 50000.

(** The check of one line that is not blank. *)
Definition line_error (line : string) : option string :=
  match unmarshal_line line with
  | None => Some "invalid JSON format"
  | Some request =>
      if decide (CustomID request = "") then Some "missing custom_id"
      else if decide (Method request = "") then Some "missing method"
      else if decide (Method request <> "POST") then Some "invalid method"
      else if decide (URL request = "") then Some "missing url"
      else if decide (URL request ∉ supportedEndpoints) then Some "invalid url"
      else if decide (Body request = None) then Some "missing body"
      else None
  end.

Fixpoint validate_lines (lineNumber : Z) (fileLines : list string) : option string :=
  match fileLines with
  | [] => None
  | line :: rest =>
      let line := bytes_TrimSpace line in
      if decide (line = "") then validate_lines lineNumber rest
      else if decide (max_lines <= lineNumber) then Some "file line count exceeds maximum allowed lines"
      else match line_error line with Some e => Some e | None => validate_lines (lineNumber + 1) rest end
  end.

Definition ValidateBatchFile (fileLines : list string) : option string := validate_lines 0 fileLines.

Definition validateInputFile (taskID : string) (fileLines : list string) : prog (result unit) :=
  match ValidateBatchFile fileLines with
  | None => Ret (Ok tt)
  | Some msg =>
      _ ← UpdateTaskFailure taskID [mkBatchError "validation_error" 0 msg ""];
      _ ← MoveTaskAtomically taskID StatusValidating StatusFailed;
      Ret (Err (ErrorOther "batch file validation failed"))
  end.

Definition createFileShard (taskID shardID : string) (lines : list string) : prog (result unit) :=
  wrap_err "write shard file to OSS" (WriteLines (getShardFileInputOSSPath taskID shardID) lines) ;;?
  (now ← now_unix;
   wrap_err "create file shard" (CreateOrUpdateFileShard taskID shardID
     (mkShard shardID (Some now) (Some (mkCounts (Z.of_nat (length lines)) 0 0)) (Some now))) ;;?
   wrap_err "add shard to pending list" (AddShardToPendingList taskID shardID)).

(** The lines left over after the last full shard. *)
Fixpoint shard_loop (taskID : string) (inputFileLines currentShardLines : list string) (shardIndex : nat) (lineCount : Z)
    : prog (result (Z * nat)) :=
  match inputFileLines with
  | [] =>
      if decide (currentShardLines = []) then Ret (Ok (lineCount, shardIndex))
      else createFileShard taskID (Itoa (Z.of_nat shardIndex)) currentShardLines ;;? Ret (Ok (lineCount, S shardIndex))
  | line :: rest =>
      let line := bytes_TrimSpace line in
      if decide (line = "") then shard_loop taskID rest currentShardLines shardIndex lineCount
      else
        changed ← perform Poll;
        if changed : bool then Ret (Err errTaskStatusChanged)
        else
          let current := currentShardLines ++ [line] in
          if bool_decide (BatchLinesPerShard tr <= Z.of_nat (length current))
          then createFileShard taskID (Itoa (Z.of_nat shardIndex)) current ;;?
               shard_loop taskID rest [] (S shardIndex) (lineCount + 1)
          else shard_loop taskID rest current shardIndex (lineCount + 1)
  end.

Definition shardInputFile (taskID : string) (inputFileLines : list string) : prog (result (Z * nat)) :=
  shard_loop taskID inputFileLines [] 0 0.

Definition with_counts (counts : RequestCounts) (now : Z) (t : BatchTask) : BatchTask :=
  mkTask (t_ID t) (t_Object t) (t_Endpoint t) (t_Model t) (t_Errors t) (t_InputFileID t) (t_CompletionWindow t) (t_Status t)
    (t_OutputFileID t) (t_ErrorFileID t) (t_CreatedAt t) (t_InProgressAt t) (t_ExpiresAt t) (t_FinalizingAt t) (t_CompletedAt t)
    (t_FailedAt t) (t_ExpiredAt t) (t_CancellingAt t) (t_CancelledAt t) (Some counts) (t_Usage t) (t_Metadata t)
    (t_OutputExpiresAfter t) (Some now) (t_Token t).

Definition processValidatingTask (taskID : string) : prog (result unit) :=
  task ←? wrap_err "get task" (GetTask taskID);
  (if decide (t_Status task <> StatusValidating)
   then wrap_err "move task to validating" (MoveTaskAndUpdateStatusAtomically taskID StatusPending StatusValidating)
   else wrap_err "clean up task shard info" (cleanupTaskShardMeta taskID)) ;;?
  (inputFileLines ←? ReadLines (getFileOSSPath (t_InputFileID task));
   validateInputFile taskID inputFileLines ;;?
   (r ← shardInputFile taskID inputFileLines;
    match r with
    | Err e => Ret (if decide (e = errTaskStatusChanged) then Ok tt else Err (failed_to "shard input file"))
    | Ok (lineCount, _) =>
        now ← now_unix;
        _ ← UpdateTaskFields taskID (with_counts (mkCounts lineCount 0 0) now task);
        wrap_err "move task to in_progress" (MoveTaskAndUpdateStatusAtomically taskID StatusValidating StatusInProgress)
    end)).

Definition stale (now : Z) (task : BatchTask) : bool :=
  bool_decide (DefaultLockExpiration * 10 ^ 9 < now - default 0 (t_UpdatedAt task) * 10 ^ 9).

(** The first stale task whose lock could be taken, or the empty id. *)
Fixpoint recover_validating (taskIDs : list string) : prog string :=
  match taskIDs with
  | [] => Ret ""
  | taskID :: rest =>
      r ← GetTask taskID;
      match r with
      | Err _ => recover_validating rest
      | Ok task =>
          now ← perform Now;
          if stale now task then
            acquired ← AcquireTaskLock taskID (instanceID tr) DefaultLockExpiration;
            match acquired with Ok true => Ret taskID | _ => recover_validating rest end
          else recover_validating rest
      end
  end.

Definition handleValidatingFailover : prog string :=
  r ← GetTasksInStatus StatusValidating;
  match r with
  | Err _ => Ret ""
  | Ok taskIDs => taskIDs ← perform (Shuffle taskIDs); recover_validating taskIDs
  end.

(** Work under the task lock, which is released at the end. *)
Definition with_task_lock {A} (taskID : string) (p : prog A) : prog unit :=
  _ ← finally p (ReleaseTaskLock taskID (instanceID tr)); Ret tt.

Definition processSingleValidatingTask : prog unit :=
  r ← GetTaskInStatus StatusPending;
  match r with
  | Err _ =>
      taskID ← handleValidatingFailover;
      if decide (taskID = "") then Ret () else with_task_lock taskID (processValidatingTask taskID)
  | Ok taskID =>
      acquired ← AcquireTaskLock taskID (instanceID tr) DefaultLockExpiration;
      match acquired with Ok true => with_task_lock taskID (processValidatingTask taskID) | _ => Ret () end
  end.

(** ** Shard processing *)

(** The answer to one request after retries: [None] when no attempt was made. *)
Fixpoint attempts (n : nat) (req : http_request) : prog (option (result (Z * result string))) :=
  match n with
  | O => Ret None
  | S n =>
      r ← perform (HttpDo req);
      let retry := match r with Ok (status, _) => bool_decide (500 <= status) | Err _ => true end in
      match retry, n with
      | true, S _ => attempts n req
      | _, _ => Ret (Some r)
      end
  end.

Definition createResponse (taskID customID requestID : string) (status : option Z) (respBody : option string) (errMessage : string)
    : string * option BatchRequestError :=
  let batchError := if decide (errMessage = "") then None else Some (mkRequestError "request_error" errMessage) in
  let response := mkLineResponse taskID customID (Some (mkRespData (default 0 status) requestID respBody)) batchError in
  match marshal_response response with
  | Some line => (line, batchError)
  | None =>
      let batchError := mkRequestError "marshal_error" "failed to marshal response" in
      (default "" (marshal_response (mkLineResponse taskID customID None (Some batchError))), Some batchError)
  end.

(** The response line and whether it is an error. [Panic]: with a negative number of
    retries the status of a nil response is read. *)
Definition processRequest (line : string) (task : BatchTask) (taskID : string) : prog (string * bool) :=
  requestID ← perform Uuid;
  let finish customID status respBody errMessage :=
    let '(responseLine, batchError) := createResponse taskID customID requestID status respBody errMessage in
    Ret (responseLine, match batchError with Some _ => true | None => false end) in
  match unmarshal_line line with
  | None => finish (default "" (unmarshal_custom_id line)) None None "unexpected parsing error"
  | Some request =>
      let fullURL := "http://127.0.0.1:" +:+ Itoa (Port_ tr) +:+ t_Endpoint task in
      if valid_url fullURL then
        let req := mkHttp fullURL (default "" (Body request)) requestID ((fun t => "Bearer " +:+ t) <$> t_Token task) in
        r ← attempts (Z.to_nat (BatchRequestRetryTimes tr + 1)) req;
        match r with
        | None => Panic
        | Some (Err e) => finish (CustomID request) None None (error_text e)
        | Some (Ok (status, body)) =>
            if bool_decide (500 <= status) then finish (CustomID request) (Some status) None "server error"
            else match body with
                 | Err _ => finish (CustomID request) (Some status) None "failed to read response"
                 | Ok b => finish (CustomID request) (Some status) (Some b) ""
                 end
        end
      else finish (CustomID request) None None "failed to create request"
  end.

(** The response lines and the error lines. *)
Fixpoint process_lines (lines : list string) (task : BatchTask) (taskID : string) (outputLines errorLines : list string)
    : prog (result (list string * list string)) :=
  match lines with
  | [] => Ret (Ok (outputLines, errorLines))
  | line :: rest =>
      changed ← perform Poll;
      if changed : bool then Ret (Err errTaskStatusChanged)
      else if decide (line = "") then process_lines rest task taskID outputLines errorLines
      else
        '(responseLine, isError) ← processRequest line task taskID;
        if isError : bool then process_lines rest task taskID outputLines (errorLines ++ [responseLine])
        else process_lines rest task taskID (outputLines ++ [responseLine]) errorLines
  end.

Definition write_unless_empty (path : string) (lines : list string) : prog (result unit) :=
  if decide (lines = []) then Ret (Ok tt) else WriteLines path lines.

(** The output files and the counts of a processed shard. *)
Definition store_results (taskID shardID : string) (outputLines errorLines : list string) : prog (result unit) :=
  wrap_err "write output file" (write_unless_empty (getShardFileOutputOSSPath taskID shardID) outputLines) ;;?
  wrap_err "write output error file" (write_unless_empty (getShardFileOutputErrorOSSPath taskID shardID) errorLines) ;;?
  (shard ←? wrap_err "get shard" (GetFileShard taskID shardID);
   (now ← now_unix;
    let success := Z.of_nat (length outputLines) in
    let failure := Z.of_nat (length errorLines) in
    wrap_err "update shard" (CreateOrUpdateFileShard taskID shardID
      (mkShard (s_ID shard) (s_CreatedAt shard) (Some (mkCounts (success + failure) success failure)) (Some now))))).

Definition processShard (taskID shardID : string) : prog (result unit) :=
  inProgress ←? wrap_err "check if task is in in_progress set" (TaskInSet StatusInProgress taskID);
  if negb inProgress then Ret (Ok tt)
  else
    task ←? wrap_err "get task" (GetTask taskID);
    wrap_err "clean files"
      (DeleteFiles (oss_fuel tr) [getShardFileOutputOSSPath taskID shardID; getShardFileOutputErrorOSSPath taskID shardID]) ;;?
    (lines ←? wrap_err "read shard file from OSS" (ReadLines (getShardFileInputOSSPath taskID shardID));
     out ←? process_lines lines task taskID [] [];
     match out with (outputLines, errorLines) => store_results taskID shardID outputLines errorLines end).

Fixpoint recover_shard (taskID workerID : string) (shardIDs : list string) : prog string :=
  match shardIDs with
  | [] => Ret ""
  | shardID :: rest =>
      acquired ← AcquireOrRecoverShardLock taskID shardID (instanceID tr) workerID DefaultLockExpiration;
      match acquired with Ok true => Ret shardID | _ => recover_shard taskID workerID rest end
  end.

Definition handleInProgressShardFailover (taskID workerID : string) : prog (result string) :=
  shardIDs ←? wrap_err "get in-progress shards" (GetShardsInStatus taskID ShardStatusInProgress);
  (shardIDs ← perform (Shuffle shardIDs); shardID ← recover_shard taskID workerID shardIDs; Ret (Ok shardID)).

(** Processing a locked shard and moving it to its final set. *)
Definition finish_shard (taskID shardID : string) : prog (result unit) :=
  r ← processShard taskID shardID;
  match r with
  | Err e =>
      if decide (e = errTaskStatusChanged) then MoveShardAtomically taskID shardID ShardStatusInProgress ShardStatusFailed
      else Ret (Err (failed_to "process shard"))
  | Ok _ => wrap_err "move shard to completed" (MoveShardAtomically taskID shardID ShardStatusInProgress ShardStatusCompleted)
  end.

Definition processTaskShards (taskID workerID : string) : prog (result unit) :=
  let release := ReleaseShardLock taskID in
  pending ← GetShardInStatus taskID ShardStatusPending;
  match pending with
  | Ok shardID =>
      acquired ← AcquireShardLock taskID shardID (instanceID tr) workerID DefaultLockExpiration;
      match acquired with
      | Ok true =>
          moved ← MoveShardAtomically taskID shardID ShardStatusPending ShardStatusInProgress;
          match moved with
          | Err _ => _ ← release shardID (instanceID tr) workerID; Ret (Err (failed_to "move shard to in_progress"))
          | Ok _ => finally (finish_shard taskID shardID) (release shardID (instanceID tr) workerID)
          end
      | _ => Ret (Ok tt)
      end
  | Err _ =>
      recovered ← handleInProgressShardFailover taskID workerID;
      match recovered with
      | Err _ => Ret (Ok tt)
      | Ok shardID =>
          if decide (shardID = "") then Ret (Ok tt)
          else
            inProgress ← TaskInSet StatusInProgress taskID;
            match inProgress with
            | Ok true => finally (finish_shard taskID shardID) (release shardID (instanceID tr) workerID)
            | _ => Ret (Ok tt)
            end
      end
  end.

Definition CheckShardsAndMoveToFinalizing (taskID : string) : prog (result bool) :=
  allCompleted ←? CheckIfAllShardsAreCompleted taskID;
  if negb allCompleted then Ret (Ok false)
  else
    acquired ← AcquireTaskLock taskID (instanceID tr) DefaultLockExpiration;
    match acquired with
    | Ok true =>
        finally (MoveTaskAndUpdateStatusAtomically taskID StatusInProgress StatusFinalizing ;;? Ret (Ok true))
          (ReleaseTaskLock taskID (instanceID tr))
    | _ => Ret (Ok false)
    end.

Definition processSingleInProgressTask (workerID : string) : prog unit :=
  r ← GetTaskInStatus StatusInProgress;
  match r with
  | Err _ => Ret ()
  | Ok taskID =>
      inValidating ← TaskInSet StatusValidating taskID;
      match inValidating with
      | Ok false =>
          done ← processTaskShards taskID workerID;
          match done with
          | Err _ => Ret ()
          | Ok _ => _ ← CheckShardsAndMoveToFinalizing taskID; Ret ()
          end
      | _ => Ret ()
      end
  end.

(** ** Finalization *)

(** Lengths and sums so far. *)
Record merge_state := mkMerge { outputPosition : Z; errorPosition : Z; requestCounts : RequestCounts }.

Definition append_if (listed : bool) (source destination : string) (position : Z) : prog (result Z) :=
  if listed then wrap_err "read shard output file" (AppendToObject source destination position) else Ret (Ok position).

(** [None]: the task has left the finalize set. A shard record that cannot be read is
    only logged, and then dereferenced. *)
Fixpoint merge_shards (taskID : string) (listed : list string) (outputPath errorPath : string) (shardIDs : list string)
    (m : merge_state) : prog (result (option merge_state)) :=
  match shardIDs with
  | [] => Ret (Ok (Some m))
  | shardID :: rest =>
      changed ← perform Poll;
      if changed : bool then Ret (Ok None)
      else
        let shardOutputPath := getShardFileOutputOSSPath taskID shardID in
        let shardErrorPath := getShardFileOutputErrorOSSPath taskID shardID in
        o ←? append_if (bool_decide (shardOutputPath ∈ listed)) shardOutputPath outputPath (outputPosition m);
        e ←? append_if (bool_decide (shardErrorPath ∈ listed)) shardErrorPath errorPath (errorPosition m);
        (shard ← GetFileShard taskID shardID;
         match shard with
         | Ok (mkShard _ _ (Some c) _) =>
             merge_shards taskID listed outputPath errorPath rest
               (mkMerge o e (mkCounts (int64 (Total (requestCounts m) + Total c)) (int64 (Completed (requestCounts m) + Completed c))
                  (int64 (Failed (requestCounts m) + Failed c))))
         | _ => Panic
         end)
  end.

Definition completed_task (outputFileID : string) (errorFileID : option string) (counts : RequestCounts) (now : Z) (t : BatchTask) : BatchTask :=
  mkTask (t_ID t) (t_Object t) (t_Endpoint t) (t_Model t) (t_Errors t) (t_InputFileID t) (t_CompletionWindow t) StatusCompleted
    (Some outputFileID) (match errorFileID with Some e => Some e | None => t_ErrorFileID t end)
    (t_CreatedAt t) (t_InProgressAt t) (t_ExpiresAt t) (t_FinalizingAt t) (Some now)
    (t_FailedAt t) (t_ExpiredAt t) (t_CancellingAt t) (t_CancelledAt t) (Some counts) (t_Usage t) (t_Metadata t)
    (t_OutputExpiresAfter t) (Some now) (t_Token t).

(** The file records, the task record and the last move. *)
Definition complete_task (taskID outputFileID errorFileID : string) (task : BatchTask) (m : merge_state) : prog (result unit) :=
  now ← now_unix;
  let has_errors := bool_decide (0 < errorPosition m) in
  let expireAt := match t_OutputExpiresAfter task with Some e => int64 (now + Seconds e) | None => 0 end in
  wrap_err "create output file record"
    (CreateFile (mkFile outputFileID "file" (outputPosition m) now expireAt "output.jsonl" "batch_output")) ;;?
  (if has_errors then wrap_err "create error file record"
     (CreateFile (mkFile errorFileID "file" (errorPosition m) now expireAt "error.jsonl" "batch_output"))
   else Ret (Ok tt)) ;;?
  wrap_err "update task fields and status"
    (UpdateTaskFields taskID (completed_task outputFileID (if has_errors then Some errorFileID else None) (requestCounts m) now task)) ;;?
  (_ ← MoveTaskAtomically taskID StatusFinalize StatusCompleted; Ret (Ok tt)).

Definition processFinalizingTask (taskID : string) : prog (result unit) :=
  wrap_err "move task to finalize set" (MoveTaskAndUpdateStatusAtomically taskID StatusFinalizing StatusFinalize) ;;?
  (task ←? wrap_err "get task" (GetTask taskID);
   shardIDs ←? wrap_err "get completed shards" (GetShardsInStatus taskID ShardStatusCompleted);
   listed ←? wrap_err "list prefix" (ListObjectsWithPrefix (oss_fuel tr) (getShardFileOutputOSSPrefix taskID));
   (u ← perform Uuid; v ← perform Uuid;
    let outputFileID := "batch_output_" +:+ u in
    let errorFileID := "batch_error_" +:+ v in
    let outputPath := getFileOSSPath outputFileID in
    let errorPath := getFileOSSPath errorFileID in
    deleted ← DeleteFiles (oss_fuel tr) [outputPath; errorPath];
    match deleted with
    | Err e => if Contains (error_text e) "NoSuchKey" then Ret (Ok tt) else Ret (Err (failed_to "delete"))
    | Ok _ => Ret (Ok tt)
    end ;;?
    (merged ←? merge_shards taskID listed outputPath errorPath shardIDs (mkMerge 0 0 (mkCounts 0 0 0));
     match merged with
     | None => Ret (Ok tt)
     | Some m =>
         changed ← perform Poll;
         if changed : bool then Ret (Ok tt) else complete_task taskID outputFileID errorFileID task m
     end))).

Definition processSingleFinalizingTask : prog unit :=
  r ← GetTaskInStatus StatusFinalizing;
  match r with
  | Err _ => Ret ()
  | Ok taskID =>
      acquired ← AcquireTaskLock taskID (instanceID tr) DefaultLockExpiration;
      match acquired with
      | Ok true => with_task_lock taskID (_ ← processFinalizingTask taskID; cleanupTaskShardMeta taskID)
      | _ => Ret ()
      end
  end.

(** ** Cancellation *)

Fixpoint cancel_pending (taskID : string) (shardIDs : list string) : prog unit :=
  match shardIDs with
  | [] => Ret ()
  | shardID :: rest => _ ← MoveShardAtomically taskID shardID ShardStatusPending ShardStatusFailed; cancel_pending taskID rest
  end.

Definition handleShardCancellation (taskID : string) : prog (result unit) :=
  shardIDs ←? wrap_err "get pending shards" (GetShardsInStatus taskID ShardStatusPending);
  (_ ← cancel_pending taskID shardIDs;
   inProgress ←? wrap_err "get in-progress shards" (GetShardsInStatus taskID ShardStatusInProgress);
   Ret (if decide (inProgress = []) then Ok tt else Err (ErrorOther "in-progress shards must complete"))).

Definition processCancellingTask (taskID : string) : prog (result unit) :=
  wrap_err "handle file cancellation" (handleShardCancellation taskID) ;;?
  wrap_err "clean up cancelling task files" (cleanupTaskShardMeta taskID) ;;?
  wrap_err "move task to cancelled set" (MoveTaskAndUpdateStatusAtomically taskID StatusCancelling StatusCancelled).

(** The keep-alive of a cancellation. *)
Definition cancel_keepalive_tick (taskID : string) : prog (result unit) :=
  ExtendTaskLock taskID (instanceID tr) DefaultLockExpiration.

Definition processSingleCancellingTask : prog unit :=
  r ← GetTaskInStatus StatusCancelling;
  match r with
  | Err _ => Ret ()
  | Ok taskID =>
      acquired ← AcquireTaskLock taskID (instanceID tr) DefaultLockExpiration;
      match acquired with
      | Ok true =>
          with_task_lock taskID
            (inValidating ←? TaskInSet StatusValidating taskID;
             inProgress ←? TaskInSet StatusInProgress taskID;
             if inValidating || inProgress then Ret (Ok tt) else processCancellingTask taskID)
      | _ => Ret ()
      end
  end.

(** ** Expiry *)

Definition processExpiredTask (taskID : string) : prog (result unit) :=
  acquired ← AcquireTaskLock taskID (instanceID tr) DefaultLockExpiration;
  match acquired with
  | Ok true =>
      finally
        (taskStatus ←? wrap_err "get task status" (GetTaskStatus taskID);
         wrap_err "move task to expired" (MoveTaskAndUpdateStatusAtomically taskID taskStatus StatusExpired))
        (ReleaseTaskLock taskID (instanceID tr))
  | _ => Ret (Err (failed_to "lock task"))
  end.

Fixpoint process_expired (taskIDs : list string) : prog unit :=
  match taskIDs with
  | [] => Ret ()
  | taskID :: rest => _ ← processExpiredTask taskID; process_expired rest
  end.

Definition processExpiredTasks : prog unit :=
  r ← GetExpiredTasks [StatusPending; StatusValidating; StatusInProgress; StatusFinalizing];
  match r with Err _ => Ret () | Ok ids => process_expired ids end.

End reactor.
