(* ===== verification/BatchHandlers.v ===== *)
(** * The HTTP handlers of the batch service

    [pkg/gateway/batch/handlers.go] after the parsing of the HTTP request: the form of
    an upload, the JSON of a new task and the query of a listing are arguments. An
    answer is its status and payload. [sort.Slice] is not stable: its result is the
    argument [sorter] with the hypotheses that it is a sorted permutation. *)

From stdpp Require Import base gmap sets list strings numbers sorting.
From S2P Require Import Prelude GoStrings Types Programs Effects BatchStore BatchOss BatchReactor.

Local Open Scope Z_scope.
Local Open Scope prog_scope.

Inductive answer (A : Type) := Success (a : A) | Failure (status : Z).
Arguments Success {A} a.
Arguments Failure {A} status.

Definition BadRequest : Z := 400.
Definition NotFound : Z := 404.
Definition Conflict : Z := 409.
Definition InternalError : Z := 500.

(** Answer with [status] when a call fails. *)
Definition or_fail {A B} (status : Z) (p : prog (result A)) (f : A -> prog (answer B)) : prog (answer B) :=
  r ← p; match r with Ok a => f a | Err _ => Ret (Failure status) end.

Section handlers.
Context {J : Json} (tr : TaskReactor).

(** ** Files *)

Definition MaxFileSize : Z := 200 * 2 ^ 20.

Record upload := mkUpload {
  up_content : string; up_size : Z; up_filename : string; up_purpose : string; up_anchor : string; up_seconds : string
}.

(** [None]: the form or its file could not be read. *)
Definition handleFileUpload (form : option upload) : prog (answer File) :=
  match form with
  | None => Ret (Failure BadRequest)
  | Some u =>
      if bool_decide (MaxFileSize < up_size u) then Ret (Failure BadRequest)
      else if decide (up_purpose u = "") then Ret (Failure BadRequest)
      else if negb (Bool.eqb (bool_decide (up_anchor u = "")) (bool_decide (up_seconds u = ""))) then Ret (Failure BadRequest)
      else
        id ← perform Uuid;
        let fileID := "batch_input_" +:+ id in
        or_fail InternalError (UploadFile (getFileOSSPath tr fileID) (up_content u)) (fun _ =>
        createdAt ← now_unix;
        let expiresAt :=
          if decide (up_anchor u = "") then Some 0
          else if decide (up_anchor u <> "created_at") then None
          else (fun seconds => int64 (createdAt + seconds)) <$> Atoi (up_seconds u) in
        match expiresAt with
        | None => Ret (Failure BadRequest)
        | Some expiresAt =>
            let file := mkFile fileID "file" (up_size u) createdAt expiresAt (up_filename u) (up_purpose u) in
            or_fail InternalError (CreateFile file) (fun _ => Ret (Success file))
        end)
  end.

Fixpoint get_all {A} (get : string -> prog (result A)) (ids : list string) : prog (list A) :=
  match ids with
  | [] => Ret []
  | id :: ids => r ← get id; rest ← get_all get ids; Ret (match r with Ok a => a :: rest | Err _ => rest end)
  end.

Definition handleListFiles (sorter : list File -> list File) : prog (answer (list File)) :=
  or_fail InternalError GetAllFiles (fun ids => files ← get_all GetFile ids; Ret (Success (sorter files))).

Definition handleGetFile (fileID : string) : prog (answer File) :=
  or_fail NotFound (GetFile fileID) (fun file => Ret (Success file)).

Definition handleDeleteFile (fileID : string) : prog (answer File) :=
  or_fail NotFound (GetFile fileID) (fun file =>
  or_fail InternalError (DeleteFile fileID) (fun _ => Ret (Success file))).

Definition GetFileContentHandler (fileID : string) : prog (answer (string * string)) :=
  or_fail NotFound (GetFile fileID) (fun file =>
  or_fail InternalError (GetObjectContent (getFileOSSPath tr fileID)) (fun content => Ret (Success (f_Filename file, content)))).

(** ** Tasks *)

Record create_request := mkCreate {
  cr_InputFileID : string; cr_Endpoint : string; cr_Model : string; cr_CompletionWindow : string;
  cr_Metadata : gmap string string; cr_OutputExpiresAfter : option OutputExpiresAfter
}.

Definition task_endpoints : list string := ["/v1/responses"; "/v1/chat/completions"; "/v1/embeddings"; "/v1/completions"].

Definition stripInternalFields (t : BatchTask) : BatchTask :=
  mkTask (t_ID t) (t_Object t) (t_Endpoint t) (t_Model t) (t_Errors t) (t_InputFileID t) (t_CompletionWindow t) (t_Status t)
    (t_OutputFileID t) (t_ErrorFileID t) (t_CreatedAt t) (t_InProgressAt t) (t_ExpiresAt t) (t_FinalizingAt t) (t_CompletedAt t)
    (t_FailedAt t) (t_ExpiredAt t) (t_CancellingAt t) (t_CancelledAt t) (t_RequestCounts t) (t_Usage t) (t_Metadata t)
    None None None.

Definition without_token (t : BatchTask) : BatchTask :=
  mkTask (t_ID t) (t_Object t) (t_Endpoint t) (t_Model t) (t_Errors t) (t_InputFileID t) (t_CompletionWindow t) (t_Status t)
    (t_OutputFileID t) (t_ErrorFileID t) (t_CreatedAt t) (t_InProgressAt t) (t_ExpiresAt t) (t_FinalizingAt t) (t_CompletedAt t)
    (t_FailedAt t) (t_ExpiredAt t) (t_CancellingAt t) (t_CancelledAt t) (t_RequestCounts t) (t_Usage t) (t_Metadata t)
    (t_OutputExpiresAfter t) (t_UpdatedAt t) None.

(** The checks before the file is looked up. *)
Definition valid_create (order : key_order) (q : create_request) : bool :=
  (bool_decide (size (cr_Metadata q) = 0%nat) || bool_decide (ValidateMetadata order (cr_Metadata q) = None))
  && match cr_OutputExpiresAfter q with
     | None => true
     | Some e => bool_decide (Anchor e = "created_at") && negb (bool_decide (Seconds e < 3600 \/ 2592000 < Seconds e))
     end
  && negb (bool_decide (cr_InputFileID q = "")) && negb (bool_decide (cr_Endpoint q = ""))
  && bool_decide (cr_Endpoint q ∈ task_endpoints).

Definition new_task (taskID window : string) (now : Z) (token : option string) (q : create_request) : BatchTask :=
  mkTask taskID "batch" (cr_Endpoint q) (cr_Model q) None (cr_InputFileID q) window StatusPending None None
    (Some now) None (int64 (now + 86400)) None None None None None None (Some (mkCounts 0 0 0)) None (cr_Metadata q)
    (cr_OutputExpiresAfter q) (Some now) token.

Definition bearer (authHeader : string) : option string :=
  if HasPrefix authHeader "Bearer " then Some (TrimPrefix authHeader "Bearer ") else None.

(** [None]: the body is not JSON of the expected form. *)
Definition handleCreateBatchTask (order : key_order) (authHeader : string) (request : option create_request) : prog (answer BatchTask) :=
  match request with
  | None => Ret (Failure BadRequest)
  | Some q =>
      if negb (valid_create order q) then Ret (Failure BadRequest)
      else
        or_fail BadRequest (GetFile (cr_InputFileID q)) (fun _ =>
        id ← perform Uuid;
        let window := if decide (cr_CompletionWindow q = "") then "24h" else cr_CompletionWindow q in
        if decide (window <> "24h") then Ret (Failure BadRequest)
        else
          now ← now_unix;
          let task := new_task ("batch_" +:+ id) window now (bearer authHeader) q in
          or_fail InternalError (CreateTask task) (fun _ => Ret (Success (stripInternalFields task))))
  end.

(** ** Listing with pages *)

Definition page_limit (limitStr : string) : nat :=
  match Atoi limitStr with Some n => if bool_decide (0 < n) then Z.to_nat n else 20%nat | None => 20%nat end.

Fixpoint after_id (after : string) (tasks : list BatchTask) : list BatchTask :=
  match tasks with
  | [] => []
  | t :: rest => if decide (t_ID t = after) then rest else after_id after rest
  end.

(** The tasks of a page and whether there are more. *)
Definition page (limit : nat) (after : string) (tasks : list BatchTask) : list BatchTask * bool :=
  let tasks := if decide (after = "") then tasks else after_id after tasks in
  if decide (limit < length tasks)%nat then (take limit tasks, true) else (tasks, false).

Definition handleListBatchTasks (sorter : list BatchTask -> list BatchTask) (limitStr after : string)
    : prog (answer (list BatchTask * bool)) :=
  or_fail InternalError GetAllTasks (fun ids =>
  tasks ← get_all GetTask ids;
  Ret (Success (page (page_limit limitStr) after (sorter (without_token <$> tasks))))).

Definition GetBatchTaskHandler (taskID : string) : prog (answer BatchTask) :=
  or_fail NotFound (GetTask taskID) (fun task => Ret (Success (stripInternalFields task))).

(** ** Cancellation *)

Definition cancellable (status : BatchTaskStatus) : bool := bool_decide (status = StatusValidating \/ status = StatusInProgress).

Definition CancelBatchTaskHandler (taskID : string) : prog (answer BatchTask) :=
  or_fail NotFound (GetTaskStatus taskID) (fun taskStatus =>
  if negb (cancellable taskStatus) then Ret (Failure BadRequest)
  else
    or_fail InternalError (AcquireTaskLock taskID (instanceID tr) DefaultLockExpiration) (fun acquired =>
    if negb acquired then Ret (Failure Conflict)
    else
      finally
        (or_fail NotFound (GetTaskStatus taskID) (fun taskStatus =>
         if negb (cancellable taskStatus) then Ret (Failure BadRequest)
         else
           or_fail InternalError (MoveTaskAndUpdateStatusAtomically taskID taskStatus StatusCancelling) (fun _ =>
           or_fail NotFound (GetTask taskID) (fun task => Ret (Success (stripInternalFields task))))))
        (ReleaseTaskLock taskID (instanceID tr)))).

End handlers.
