(* ===== verification/BatchSpec.v ===== *)
(** * What the programs of the batch service may do

    The life cycle of a task as a list of edges, and a contract on the calls of the batch
    programs: a task's status set is only changed by the scripts that move it along an edge, and
    no other key of the tasks is touched by plain calls. Every operation of the store, every
    reactor and every handler is shown to keep it. [BatchLife] interleaves the programs. *)

From stdpp Require Import base gmap sets list strings numbers.
From S2P Require Import Prelude GoStrings Types Programs Effects RedisSem BatchStore BatchOss BatchReactor BatchHandlers.

Local Open Scope Z_scope.

(** ** The edges of the life cycle *)

Definition all_name : string := "all".

Definition lifecycle : list (BatchTaskStatus * BatchTaskStatus) :=
  [(StatusPending, StatusValidating); (StatusValidating, StatusInProgress); (StatusValidating, StatusFailed);
   (StatusInProgress, StatusFinalizing); (StatusFinalizing, StatusFinalize); (StatusFinalize, StatusCompleted);
   (StatusValidating, StatusCancelling); (StatusInProgress, StatusCancelling); (StatusCancelling, StatusCancelled)].

(** The expiry reactor moves a task out of whatever status its record names. *)
Definition edge (from to : BatchTaskStatus) : Prop := (from, to) ∈ lifecycle \/ from <> all_name /\ to = StatusExpired.

(** ** The contract of the batch programs

    No program writes a status set of tasks other than by a move along an edge, and no
    record names the status [all]. *)

Definition foreign (key : string) : Prop := HasPrefix key "tasks:" = false \/ key = getGlobalTaskSetKey.

Definition call_allowed {X} (c : call X) : Prop :=
  match c with
  | HSET k fields => foreign k /\ fields !! "status" <> Some all_name
  | SADD k _ | SREM k _ | SETNX k _ _ | SETEX k _ _ | EXPIRE k _ => foreign k
  | DEL ks => Forall foreign ks
  | HGET _ _ | HGETALL _ | GET _ | SMEMBERS _ | SISMEMBER _ _ | SRANDMEMBER _ | TTL _ => True
  end.

Fixpoint script_allowed {A} (s : lua A) : Prop :=
  match s with
  | LRet _ | LErr _ => True
  | LCall c k => call_allowed c /\ forall x, script_allowed (k x)
  end.

Definition move_allowed {A} (s : lua A) : Prop :=
  exists id from to rest, s = move_script (getTaskSetKey from) (getTaskSetKey to) id rest /\ edge from to /\ script_allowed rest.

Definition eff_allowed {X} (e : eff X) : Prop :=
  match e with
  | Redis c => call_allowed c
  | Eval s => script_allowed s \/ move_allowed s
  | _ => True
  end.

Definition call_promise {X} (c : call X) : X -> Prop :=
  match c in call X return X -> Prop with
  | HGET _ f => fun r => f = "status" -> r <> Some all_name
  | HGETALL _ => fun h => h !! "status" <> Some all_name
  | _ => fun _ => True
  end.

Definition eff_promise {X} (e : eff X) : X -> Prop :=
  match e in eff X return X -> Prop with
  | Redis c => fun r => match r with Ok x => call_promise c x | Err _ => True end
  | _ => fun _ => True
  end.

Definition batch_contract : contract := mkContract (@eff_allowed) (@eff_promise).

(** ** The store keeps the contract *)

Abbreviation kept p := (wp batch_contract p (fun _ => True)) (only parsing).

(** Goals that are decided by the first letters of a key. *)
Ltac foreign_key := solve [by left | by right | repeat (apply Forall_cons_iff; split); by left | apply Forall_cons_iff; split; [by left|done]].

Lemma kept_now_unix (Q : Z -> Prop) : (forall z, Q z) -> wp batch_contract now_unix Q.
Proof. intros HQ. split; [done|]. intros x _. apply HQ. Qed.

Lemma kept_redis {X} (c : call X) Q : call_allowed c -> (forall r, Q r) -> wp batch_contract (perform (Redis c)) Q.
Proof. intros Hc HQ. apply wp_perform; [done|]. intros r _. apply HQ. Qed.

Lemma kept_void {X} (p : prog (result X)) : kept p -> kept (void p).
Proof. intros Hp. by apply keeps_try. Qed.

Lemma kept_eval {X} (s : lua X) : script_allowed s \/ move_allowed s -> kept (perform (Eval s)).
Proof. intros Hs. by apply wp_perform. Qed.

Lemma kept_wrap_err {A} what (p : prog (result A)) (Q : A -> Prop) :
  wp batch_contract p (fun r => match r with Ok a => Q a | Err _ => True end) ->
  wp batch_contract (wrap_err what p) (fun r => match r with Ok a => Q a | Err _ => True end).
Proof. intros Hp. apply wp_bind. eapply wp_mono; [exact Hp|]. by intros [a|e]. Qed.

Lemma script_allowed_move {A} from to m (rest : lua A) :
  foreign from -> foreign to -> script_allowed rest -> script_allowed (move_script from to m rest).
Proof. intros Hf Ht Hr. cbn. split; [done|]. intros added. split; [done|]. intros removed. repeat case_decide; cbn; auto. Qed.

Lemma set_field_allowed {A} key name v (rest : lua A) :
  foreign key -> (name = "status" -> v <> all_name) -> script_allowed rest -> script_allowed (set_field key name v rest).
Proof.
  intros Hk Hv Hr. cbn. split; [|done]. split; [done|]. destruct (decide (name = "status")) as [->|Hn].
  - rewrite lookup_singleton_eq. intros [= ->]. by apply Hv.
  - by rewrite lookup_singleton_ne.
Qed.

Lemma move_task_allowed id from to now :
  edge from to -> to <> all_name ->
  move_allowed (move_task_script id (getTaskSetKey from) (getTaskSetKey to) (getTaskKey id) to now).
Proof.
  intros He Ha. exists id, from, to. eexists. split; [reflexivity|]. split; [done|].
  apply set_field_allowed; [by left|done|]. apply set_field_allowed; [by left|done|].
  repeat case_decide; try done; try (apply set_field_allowed; [by left|done|done]).
  cbn. split; [done|]. intros [v|]; [done|]. by apply set_field_allowed; [left|..].
Qed.

(** [keep] walks through a program of which no result matters. *)
Ltac keep_goal :=
  lazymatch goal with
  | |- True => exact I
  | |- wp _ (Ret _) _ => exact I
  | |- wp _ Panic _ => exact I
  | |- wp _ Hang _ => exact I
  | |- wp _ (mbind _ _) _ => apply keeps_bind; [|intros]
  | |- wp _ (try_bind _ _) _ => apply keeps_try; [|intros|intros]
  | |- wp _ (finally _ _) _ => apply wp_finally
  | |- wp _ (void _) _ => apply kept_void
  | |- wp _ (wrap_err _ _) _ => apply keeps_bind; [|intros]
  | |- wp _ (or_fail _ _ _) _ => apply keeps_bind; [|intros]
  | |- wp _ now_unix _ => apply kept_now_unix; intros
  | |- wp _ (perform (Redis _)) _ => apply kept_redis; [|intros]
  | |- wp _ (perform (Eval _)) _ => apply kept_eval
  | |- wp _ (perform _) _ => apply wp_perform; [exact I|intros]
  | |- wp _ (match ?x with _ => _ end) _ => destruct x eqn:?
  | |- call_allowed _ => cbn; try foreign_key
  end.
Ltac keep := repeat first [progress cbv beta match | keep_goal | solve [auto with prog nocore]].

Section store.
Context {J : Json}.

Lemma kept_CreateFile f : kept (CreateFile f).
Proof. unfold CreateFile, AddFileToSet. keep. by split; [left|]. Qed.
Lemma kept_GetFile id : kept (GetFile id).
Proof. unfold GetFile, parse_int. keep. Qed.
Lemma kept_DeleteFile id : kept (DeleteFile id).
Proof. unfold DeleteFile, RemoveFileFromSet. keep. Qed.
Lemma kept_GetAllFiles : kept GetAllFiles.
Proof. unfold GetAllFiles. keep. Qed.
Lemma kept_GetAllTasks : kept GetAllTasks.
Proof. unfold GetAllTasks. keep. Qed.

(** A task that is read does not name the status [all]. *)
Definition sane_task (r : result BatchTask) : Prop := match r with Ok t => t_Status t <> all_name | Err _ => True end.

Lemma field_status values : values !! "status" <> Some all_name -> field values "status" <> all_name.
Proof. unfold field. destruct (values !! "status"); cbn; [congruence|done]. Qed.

Lemma wp_GetTask id : wp batch_contract (GetTask id) sane_task.
Proof.
  unfold GetTask. apply wp_try, wp_perform; [done|]. intros [values|e] Hv; [|done]. cbn in Hv.
  case_decide; [done|]. unfold parse_int, parse_json.
  repeat (apply wp_try; try (case_match; [|done]); cbn; try (case_match; [|done])).
  all: try done; try by apply field_status.
  all: repeat (case_match; try done; cbn); try by apply field_status.
Qed.

Lemma kept_GetTask id : kept (GetTask id).
Proof. by eapply wp_mono; [apply wp_GetTask|]. Qed.

Lemma wp_GetTaskStatus id :
  wp batch_contract (GetTaskStatus id) (fun r => match r with Ok s => s <> all_name | Err _ => True end).
Proof.
  unfold GetTaskStatus, client_HGet. apply wp_try, wp_perform; [done|]. intros [v|e] Hv; [|done].
  destruct v as [v|]; [|done]. cbn in *. intros ->. by apply Hv.
Qed.

Lemma kept_move id from to : edge from to -> to <> all_name -> kept (MoveTaskAndUpdateStatusAtomically id from to).
Proof. intros He Ha. unfold MoveTaskAndUpdateStatusAtomically. keep. right. by apply move_task_allowed. Qed.

Lemma kept_move_only id from to : edge from to -> kept (MoveTaskAtomically id from to).
Proof. intros He. unfold MoveTaskAtomically. keep. right. by eexists _, _, _, _. Qed.

Lemma kept_GetTasksInStatus s : kept (GetTasksInStatus s).
Proof. unfold GetTasksInStatus. keep. Qed.
Lemma kept_TaskInSet s id : kept (TaskInSet s id).
Proof. unfold TaskInSet. keep. Qed.
Lemma kept_random_member key what : kept (random_member key what).
Proof. unfold random_member. keep. Qed.

Lemma kept_expired_of now ids : kept (expired_of now ids).
Proof. induction ids as [|id ids IH]; cbn [expired_of]; unfold GetTaskExpiresAt, client_HGet, parse_int; keep. Qed.
Lemma kept_expired_in now sets : kept (expired_in now sets).
Proof. induction sets as [|s sets IH]; cbn [expired_in]; unfold GetTasksInStatus; keep. apply kept_expired_of. Qed.
Lemma kept_GetExpiredTasks sets : kept (GetExpiredTasks sets).
Proof. unfold GetExpiredTasks. keep. apply kept_expired_in. Qed.

Lemma kept_UpdateTaskFailure id e : kept (UpdateTaskFailure id e).
Proof. unfold UpdateTaskFailure. keep. by split; [left|]. Qed.

Lemma add_opt_status name v fields :
  name <> "status" -> add_opt name v fields !! "status" = fields !! "status".
Proof. intros Hn. unfold add_opt. destruct v; [|done]. by rewrite lookup_insert_ne. Qed.

Lemma add_times_status t fields : add_times t fields !! "status" = fields !! "status".
Proof. unfold add_times. by rewrite !add_opt_status. Qed.

Lemma kept_UpdateTaskFields id t : t_Status t <> all_name -> kept (UpdateTaskFields id t).
Proof.
  intros Ht. unfold UpdateTaskFields. keep. split; [by left|]. rewrite add_times_status, lookup_insert_eq. congruence.
Qed.

Lemma kept_CreateOrUpdateFileShard tid sid sh : kept (CreateOrUpdateFileShard tid sid sh).
Proof. unfold CreateOrUpdateFileShard. keep. split; [by left|]. by rewrite add_opt_status. Qed.
Lemma kept_GetFileShard tid sid : kept (GetFileShard tid sid).
Proof. unfold GetFileShard, parse_int, parse_json. keep. Qed.
Lemma kept_AddShardToPendingList tid sid : kept (AddShardToPendingList tid sid).
Proof. unfold AddShardToPendingList. keep. Qed.
Lemma kept_MoveShardAtomically tid sid a b : kept (MoveShardAtomically tid sid a b).
Proof. unfold MoveShardAtomically. keep. left. by apply script_allowed_move; [left|left|]. Qed.
Lemma kept_GetShardsInStatus tid st : kept (GetShardsInStatus tid st).
Proof. unfold GetShardsInStatus. keep. Qed.
Lemma kept_CheckIfAllShardsAreCompleted tid : kept (CheckIfAllShardsAreCompleted tid).
Proof. unfold CheckIfAllShardsAreCompleted. keep. left. cbn. split; [done|]. intros ?. split; [done|]. intros ?. by case_decide. Qed.

Lemma kept_RemoveShardInfo tid st : kept (RemoveShardInfo tid st).
Proof.
  unfold RemoveShardInfo, GetShardsInStatus. keep. apply Forall_app. split; [|apply Forall_cons_iff; split; [by left|done]].
  apply Forall_forall. intros k Hk. apply list_elem_of_In, list_elem_of_fmap in Hk as (x & -> & _). by left.
Qed.

Lemma release_allowed key i : foreign key -> script_allowed (release_script key i).
Proof.
  intros Hk. cbn. split; [done|]. intros [c|]; [|done]. case_decide; [|done]. cbn. split; [|done].
  by apply Forall_cons_iff.
Qed.
Lemma extend_allowed key i n : foreign key -> script_allowed (extend_script key i n).
Proof. intros Hk. cbn. split; [done|]. intros v. by case_decide. Qed.
Lemma recover_allowed key i n : foreign key -> script_allowed (recover_script key i n).
Proof. intros Hk. cbn. split; [done|]. intros [c|]; [|done]. case_decide; [done|]. cbn. split; [done|]. intros ttl. by case_decide. Qed.

Lemma kept_AcquireTaskLock tid i n : kept (AcquireTaskLock tid i n).
Proof. unfold AcquireTaskLock. keep. Qed.
Lemma kept_ReleaseTaskLock tid i : kept (ReleaseTaskLock tid i).
Proof. unfold ReleaseTaskLock. keep. left. apply release_allowed. by left. Qed.
Lemma kept_ExtendTaskLock tid i n : kept (ExtendTaskLock tid i n).
Proof. unfold ExtendTaskLock. keep. left. apply extend_allowed. by left. Qed.
Lemma kept_AcquireShardLock tid sid i w n : kept (AcquireShardLock tid sid i w n).
Proof. unfold AcquireShardLock. keep. Qed.
Lemma kept_ExtendShardLock tid sid i w n : kept (ExtendShardLock tid sid i w n).
Proof. unfold ExtendShardLock. keep. left. apply extend_allowed. by left. Qed.
Lemma kept_ReleaseShardLock tid sid i w : kept (ReleaseShardLock tid sid i w).
Proof. unfold ReleaseShardLock. keep. left. apply release_allowed. by left. Qed.
Lemma kept_AcquireOrRecoverShardLock tid sid i w n : kept (AcquireOrRecoverShardLock tid sid i w n).
Proof. unfold AcquireOrRecoverShardLock. keep. left. apply recover_allowed. by left. Qed.

Lemma kept_DeleteFiles fuel paths : kept (DeleteFiles fuel paths).
Proof. revert paths. induction fuel as [|fuel IH]; intros [|p ps]; cbn [DeleteFiles]; keep. Qed.
Lemma kept_list_pages fuel prefix marker : kept (list_pages fuel prefix marker).
Proof. revert marker. induction fuel as [|fuel IH]; intros marker; cbn [list_pages]; keep. Qed.
Lemma kept_AppendToObject a b n : kept (AppendToObject a b n).
Proof. unfold AppendToObject. keep. Qed.
End store.

#[export] Hint Resolve kept_CreateFile kept_GetFile kept_DeleteFile kept_GetAllFiles kept_GetAllTasks kept_GetTask
  kept_GetTasksInStatus kept_TaskInSet kept_random_member kept_GetExpiredTasks kept_UpdateTaskFailure
  kept_CreateOrUpdateFileShard kept_GetFileShard kept_AddShardToPendingList kept_MoveShardAtomically
  kept_GetShardsInStatus kept_CheckIfAllShardsAreCompleted kept_RemoveShardInfo kept_AcquireTaskLock
  kept_ReleaseTaskLock kept_ExtendTaskLock kept_AcquireShardLock kept_ExtendShardLock kept_ReleaseShardLock
  kept_AcquireOrRecoverShardLock kept_DeleteFiles kept_list_pages kept_AppendToObject : prog.

(** ** The reactors and handlers keep it *)

Ltac lifecycle_edge := left; refine (bool_decide_unpack _ _); vm_compute; exact I.

Section reactors.
Context {J : Json} {LJ : LineJson} (tr : TaskReactor).

Lemma kept_cleanup id : kept (cleanupTaskShardMeta tr id).
Proof. unfold cleanupTaskShardMeta, cleanupShardOSSFiles, cleanupShardMeta, ListObjectsWithPrefix. keep. Qed.

Lemma kept_validateInputFile id lines : kept (validateInputFile id lines).
Proof. unfold validateInputFile. keep. apply kept_move_only. lifecycle_edge. Qed.

Lemma kept_createFileShard id sid lines : kept (createFileShard tr id sid lines).
Proof. unfold createFileShard, WriteLines. keep. Qed.

Lemma kept_shard_loop id lines cur i n : kept (shard_loop tr id lines cur i n).
Proof.
  revert cur i n. induction lines as [|line lines IH]; intros cur i n; cbn [shard_loop]; keep; try apply kept_createFileShard.
Qed.

Lemma kept_processValidatingTask id : kept (processValidatingTask tr id).
Proof.
  unfold processValidatingTask, ReadLines, GetObjectContent, shardInputFile.
  apply wp_try. unfold wrap_err at 1. apply wp_bind. eapply wp_mono; [apply wp_GetTask|]. intros [t|e] Ht; [|done]. cbn in Ht. apply wp_ret. cbv beta match.
  keep; try apply kept_cleanup; try apply kept_validateInputFile; try apply kept_shard_loop.
  - apply kept_move; [lifecycle_edge|done].
  - by apply kept_UpdateTaskFields.
  - apply kept_move; [lifecycle_edge|done].
Qed.

Lemma kept_recover_validating ids : kept (recover_validating tr ids).
Proof. induction ids as [|id ids IH]; cbn [recover_validating]; keep. Qed.

Lemma kept_validating : kept (processSingleValidatingTask tr).
Proof.
  unfold processSingleValidatingTask, handleValidatingFailover, with_task_lock, GetTaskInStatus.
  keep; try apply kept_processValidatingTask. apply kept_recover_validating.
Qed.

Lemma kept_attempts n req : kept (attempts n req).
Proof. induction n as [|n IH]; cbn [attempts]; keep. Qed.

Lemma kept_processRequest line t id : kept (processRequest tr line t id).
Proof. unfold processRequest. keep; try apply kept_attempts. Qed.

Lemma kept_process_lines lines t id out err : kept (process_lines tr lines t id out err).
Proof.
  revert out err. induction lines as [|line lines IH]; intros out err; cbn [process_lines]; keep. apply kept_processRequest.
Qed.

Lemma kept_processShard id sid : kept (processShard tr id sid).
Proof.
  unfold processShard, store_results, write_unless_empty, ReadLines, GetObjectContent, WriteLines.
  keep; try apply kept_process_lines.
Qed.

Lemma kept_finish_shard id sid : kept (finish_shard tr id sid).
Proof. unfold finish_shard. keep; try apply kept_processShard. Qed.

Lemma kept_recover_shard id w ids : kept (recover_shard tr id w ids).
Proof. induction ids as [|sid ids IH]; cbn [recover_shard]; keep. Qed.

Lemma kept_processTaskShards id w : kept (processTaskShards tr id w).
Proof.
  unfold processTaskShards, GetShardInStatus, handleInProgressShardFailover.
  keep; try apply kept_finish_shard. apply kept_recover_shard.
Qed.

Lemma kept_inprogress w : kept (processSingleInProgressTask tr w).
Proof.
  unfold processSingleInProgressTask, GetTaskInStatus, CheckShardsAndMoveToFinalizing.
  keep; try apply kept_processTaskShards. apply kept_move; [lifecycle_edge|done].
Qed.

Lemma kept_merge_shards id listed op ep ids m : kept (merge_shards tr id listed op ep ids m).
Proof. revert m. induction ids as [|sid ids IH]; intros m; cbn [merge_shards]; unfold append_if; keep. Qed.

Lemma kept_complete_task id o e t m : kept (complete_task id o e t m).
Proof.
  unfold complete_task. keep; [by apply kept_UpdateTaskFields|apply kept_move_only; lifecycle_edge..].
Qed.

Lemma kept_processFinalizingTask id : kept (processFinalizingTask tr id).
Proof.
  unfold processFinalizingTask, ListObjectsWithPrefix.
  keep; try apply kept_merge_shards; try apply kept_complete_task. apply kept_move; [lifecycle_edge|done].
Qed.

Lemma kept_finalizing : kept (processSingleFinalizingTask tr).
Proof.
  unfold processSingleFinalizingTask, GetTaskInStatus, with_task_lock. keep; [apply kept_processFinalizingTask|apply kept_cleanup].
Qed.

Lemma kept_cancel_pending id ids : kept (cancel_pending id ids).
Proof. induction ids as [|sid ids IH]; cbn [cancel_pending]; keep. Qed.

Lemma kept_cancelling : kept (processSingleCancellingTask tr).
Proof.
  unfold processSingleCancellingTask, GetTaskInStatus, with_task_lock, processCancellingTask, handleShardCancellation.
  keep; try apply kept_cancel_pending; try apply kept_cleanup. apply kept_move; [lifecycle_edge|done].
Qed.

Lemma kept_processExpiredTask id : kept (processExpiredTask tr id).
Proof.
  unfold processExpiredTask. apply keeps_bind; [apply kept_AcquireTaskLock|]. intros [[]|e0]; [|done..].
  apply wp_finally; [apply kept_ReleaseTaskLock|]. apply wp_try. unfold wrap_err at 1. apply wp_bind. eapply wp_mono; [apply wp_GetTaskStatus|].
  intros [s|e] Hs; [|done]. apply wp_ret. cbv beta match. keep. apply kept_move; [by right|done].
Qed.

Lemma kept_process_expired ids : kept (process_expired tr ids).
Proof. induction ids as [|id ids IH]; cbn [process_expired]; keep. apply kept_processExpiredTask. Qed.

Lemma kept_expiry : kept (processExpiredTasks tr).
Proof. unfold processExpiredTasks. keep. apply kept_process_expired. Qed.

Lemma kept_cancel_handler id : kept (CancelBatchTaskHandler tr id).
Proof.
  unfold CancelBatchTaskHandler, GetTaskStatus, client_HGet. keep.
  apply kept_move; [|done]. unfold cancellable in *.
  match goal with H : negb (bool_decide (?s = _ \/ _)) = false |- edge ?s _ => apply negb_false_iff, bool_decide_eq_true in H as [->| ->] end;
    lifecycle_edge.
Qed.

Lemma kept_get_all {A} (get : string -> prog (result A)) ids : (forall id, kept (get id)) -> kept (get_all get ids).
Proof. intros Hg. induction ids as [|id ids IH]; cbn [get_all]; keep. Qed.

End reactors.
