(* ===== verification/BatchLife.v ===== *)
(** * The life of batch tasks in all runs

    The interleaving semantics of the batch programs over one Redis server, the
    invariant of the status sets, and the theorem that tasks move only along the edges
    of their life cycle. *)

From stdpp Require Import base gmap sets list strings numbers.
From S2P Require Import Prelude GoStrings Types Programs Effects RedisSem BatchStore BatchOss BatchReactor BatchHandlers BatchSpec.

Local Open Scope Z_scope.

(** ** Status sets of a key space *)

Definition tasks_in (db : keyspace) (s : BatchTaskStatus) : gset string :=
  match db !! getTaskSetKey s with Some (RSet m, None) => m | _ => ∅ end.

(** The keys of status sets hold sets that do not expire, or nothing. *)
Definition plain_sets (db : keyspace) : Prop :=
  forall s, s <> all_name -> db !! getTaskSetKey s = None \/ exists m, db !! getTaskSetKey s = Some (RSet m, None).

Definition sane_records (db : keyspace) : Prop :=
  forall key h e, db !! key = Some (RHash h, e) -> h !! "status" <> Some all_name.

Lemma task_key_not_foreign s : s <> all_name -> ~ foreign (getTaskSetKey s).
Proof.
  intros Hs [H|H].
  - unfold getTaskSetKey in H. by rewrite HasPrefix_app in H.
  - unfold getTaskSetKey, getGlobalTaskSetKey in H. apply Hs. change "tasks:all" with ("tasks:" +:+ all_name) in H.
    by apply (inj (String.append "tasks:")) in H.
Qed.

Lemma task_key_inj s s' : getTaskSetKey s = getTaskSetKey s' -> s = s'.
Proof. apply (inj (String.append "tasks:")). Qed.

Lemma live_plain now db s :
  plain_sets db -> s <> all_name -> live now db (getTaskSetKey s) = db !! getTaskSetKey s.
Proof. intros Hp Hs. unfold live. by destruct (Hp s Hs) as [->|[m ->]]. Qed.

Lemma set_at_tasks now db s : plain_sets db -> s <> all_name -> set_at now db (getTaskSetKey s) = tasks_in db s.
Proof.
  intros Hp Hs. unfold set_at, value, tasks_in. rewrite live_plain by done. by destruct (Hp s Hs) as [->|[m ->]].
Qed.

(** ** Frames *)

(** Nothing changes in the status sets. *)
Definition same_tasks (db db' : keyspace) : Prop :=
  forall s, s <> all_name -> db' !! getTaskSetKey s = db !! getTaskSetKey s.

Lemma same_tasks_refl db : same_tasks db db.
Proof. done. Qed.

Lemma same_tasks_in db db' s : same_tasks db db' -> s <> all_name -> tasks_in db' s = tasks_in db s.
Proof. intros H Hs. unfold tasks_in. by rewrite H. Qed.

Lemma same_tasks_plain db db' : same_tasks db db' -> plain_sets db -> plain_sets db'.
Proof. intros H Hp s Hs. rewrite H by done. by apply Hp. Qed.

Lemma same_tasks_insert k v db : foreign k -> same_tasks db (<[k := v]> db).
Proof. intros Hk s Hs. rewrite lookup_insert_ne; [done|]. intros ->. by apply (task_key_not_foreign s). Qed.

Lemma same_tasks_delete k db : foreign k -> same_tasks db (delete k db).
Proof. intros Hk s Hs. rewrite lookup_delete_ne; [done|]. intros ->. by apply (task_key_not_foreign s). Qed.

Lemma same_tasks_put_set now k m db : foreign k -> same_tasks db (put_set now k m db).
Proof. intros Hk. unfold put_set. case_decide; [by apply same_tasks_delete|by apply same_tasks_insert]. Qed.

Lemma hash_at_sane now db k : sane_records db -> hash_at now db k !! "status" <> Some all_name.
Proof.
  intros Hs. unfold hash_at, value, live. destruct (db !! k) as [[v e]|] eqn:E; [|done].
  destruct e as [e|]; [case_bool_decide; [done|]|]; destruct v; try done; cbn; by eapply Hs.
Qed.

Lemma sane_insert_other k v e db : sane_records db -> (forall h, v <> RHash h) -> sane_records (<[k := (v, e)]> db).
Proof.
  intros Hs Hv key h e'. destruct (decide (k = key)) as [->|Hk]; [rewrite lookup_insert_eq|rewrite lookup_insert_ne by done; apply Hs].
  intros [= -> _]. by destruct (Hv h).
Qed.

Lemma sane_delete k db : sane_records db -> sane_records (delete k db).
Proof. intros Hs key h e (_ & H)%lookup_delete_Some. by eapply Hs. Qed.

Lemma sane_put_set now k m db : sane_records db -> sane_records (put_set now k m db).
Proof. intros Hs. unfold put_set. case_decide; [by apply sane_delete|by apply sane_insert_other]. Qed.

(** An allowed call leaves the status sets and the records in order. *)
Lemma call_frame {X} (c : call X) now db x db' :
  call_allowed c -> sane_records db -> call_answers c now db x db' ->
  same_tasks db db' /\ sane_records db' /\ call_promise c x.
Proof.
  intros Ha Hs H. destruct c; cbn in Ha, H; try match type of H with _ /\ _ => destruct H as [-> H] end; try done.
  - destruct Ha as [Hk Hf]. rewrite H. split; [by apply same_tasks_insert|]. split; [|done].
    intros k' h' e'. destruct (decide (key = k')) as [->|Hne]; [|rewrite lookup_insert_ne by done; apply Hs].
    rewrite lookup_insert_eq. intros [= <- _]. rewrite lookup_union. pose proof (hash_at_sane now db k' Hs).
    destruct (fields !! "status"), (hash_at now db k' !! "status"); cbn; congruence.
  - split; [done|]. split; [done|]. cbn. intros ->. rewrite H. by apply hash_at_sane.
  - split; [done|]. split; [done|]. cbn. rewrite H. by apply hash_at_sane.
  - split; [by apply same_tasks_put_set|]. split; [by apply sane_put_set|done].
  - split; [by apply same_tasks_put_set|]. split; [by apply sane_put_set|done].
  - destruct (RedisSem.value now db key); destruct H as [-> _]; [done|].
    split; [by apply same_tasks_insert|]. split; [by apply sane_insert_other|done].
  - rewrite H. split; [by apply same_tasks_insert|]. split; [by apply sane_insert_other|done].
  - destruct (value now db key) as [v|] eqn:Ev; destruct H as [-> _]; [|done]. split; [by apply same_tasks_insert|]. split; [|done].
    intros k' h e'. destruct (decide (key = k')) as [->|Hne]; [|rewrite lookup_insert_ne by done; apply Hs].
    rewrite lookup_insert_eq. intros [= -> _]. pose proof (hash_at_sane now db k' Hs) as Hh. unfold hash_at in Hh. by rewrite Ev in Hh.
  - split; [|split; [|done]].
    + intros s Hne. rewrite map_lookup_filter. destruct (db !! getTaskSetKey s) as [v|]; [|done]. cbn.
      rewrite option_guard_True; [done|]. intros Hin. apply (task_key_not_foreign s Hne).
      rewrite Forall_forall in Ha. apply Ha. by apply list_elem_of_In.
    + intros k h e (Hk & _)%map_lookup_filter_Some. by eapply Hs.
Qed.

Lemma script_frame {A} (s : lua A) now db r db' :
  script_allowed s -> sane_records db -> lua_answers s now db r db' -> same_tasks db db' /\ sane_records db'.
Proof.
  revert db. induction s as [a|msg|X c k IH]; intros db Ha Hs; cbn.
  - by intros [_ ->].
  - by intros [_ ->].
  - destruct Ha as [Hc Hk]. intros [(_ & _ & ->)|(_ & x & db1 & H1 & H2)]; [done|].
    destruct (call_frame c now db x db1 Hc Hs H1) as (F1 & S1 & _). destruct (IH x db1 (Hk x) S1 H2) as [F2 S2].
    split; [|done]. intros t Ht. by rewrite F2, F1.
Qed.

(** ** Writing a status set *)

Lemma tasks_put_set now db s m s' :
  plain_sets db -> s <> all_name -> s' <> all_name ->
  tasks_in (put_set now (getTaskSetKey s) m db) s' = if decide (s' = s) then m else tasks_in db s'.
Proof.
  intros Hp Hs Hs'. assert (expiry now db (getTaskSetKey s) = None) as He.
  { unfold expiry. rewrite live_plain by done. by destruct (Hp s Hs) as [->|[m' ->]]. }
  unfold tasks_in, put_set. case_decide as Hm; case_decide as Hd; subst.
  - by rewrite lookup_delete_eq.
  - rewrite lookup_delete_ne; [done|]. by intros ?%task_key_inj.
  - by rewrite lookup_insert_eq, He.
  - rewrite lookup_insert_ne; [done|]. by intros ?%task_key_inj.
Qed.

Lemma plain_put_set now db s m : plain_sets db -> s <> all_name -> plain_sets (put_set now (getTaskSetKey s) m db).
Proof.
  intros Hp Hs s' Hs'. assert (expiry now db (getTaskSetKey s) = None) as He.
  { unfold expiry. rewrite live_plain by done. by destruct (Hp s Hs) as [->|[m' ->]]. }
  unfold put_set. destruct (decide (s' = s)) as [->|Hne].
  - case_decide; [left; apply lookup_delete_eq|right; exists m; by rewrite lookup_insert_eq, He].
  - assert (getTaskSetKey s <> getTaskSetKey s') by by intros ->%task_key_inj.
    case_decide; [rewrite lookup_delete_ne by done|rewrite lookup_insert_ne by done]; by apply Hp.
Qed.

Lemma plain_right_type now db s m : plain_sets db -> s <> all_name ->
  wrong_type (SADD (getTaskSetKey s) m) now db = false /\ wrong_type (SREM (getTaskSetKey s) m) now db = false.
Proof.
  intros Hp Hs. unfold wrong_type, value. cbn. rewrite live_plain by done. by destruct (Hp s Hs) as [->|[m' ->]].
Qed.

(** How the status sets may change in one effect. *)
Inductive change (O : gset string) (db db' : keyspace) : Prop :=
  | Same (H : forall s, s <> all_name -> tasks_in db' s = tasks_in db s)
  | Moved id from to (He : edge from to) (Hne : from <> to) (Hin : id ∈ tasks_in db from)
      (H : forall s, s <> all_name -> tasks_in db' s =
           if decide (s = to) then {[id]} ∪ tasks_in db s else if decide (s = from) then tasks_in db s ∖ {[id]} else tasks_in db s)
  | Dropped id (H : forall s, s <> all_name -> tasks_in db' s =
           if decide (s = StatusExpired) then tasks_in db s ∖ {[id]} else tasks_in db s)
  | Published id (Hid : id ∈ O) (H : forall s, s <> all_name -> tasks_in db' s =
           if decide (s = StatusPending) then {[id]} ∪ tasks_in db s else tasks_in db s).

Definition ordered_db (db : keyspace) : Prop := plain_sets db /\ sane_records db.

Lemma edge_names from to : edge from to -> from <> all_name /\ to <> all_name.
Proof.
  intros [H|[H ->]]; [|done].
  assert (Forall (fun e => e.1 <> all_name /\ e.2 <> all_name) lifecycle) as Hl by by repeat constructor.
  rewrite Forall_forall in Hl. by apply (Hl (from, to)), list_elem_of_In.
Qed.

Lemma edge_loop s : edge s s -> s = StatusExpired.
Proof.
  intros [H|[_ H]]; [|done]. assert (Forall (fun e => e.1 <> e.2) lifecycle) as Hl by by repeat constructor.
  rewrite Forall_forall in Hl. apply list_elem_of_In in H. by specialize (Hl _ H).
Qed.

Lemma lua_sadd {A} s m (k : Z -> lua A) now db r db' :
  plain_sets db -> s <> all_name -> lua_answers (LCall (SADD (getTaskSetKey s) m) k) now db r db' ->
  lua_answers (k (if decide (m ∈ tasks_in db s) then 0 else 1)) now
    (put_set now (getTaskSetKey s) ({[m]} ∪ tasks_in db s) db) r db'.
Proof.
  intros Hp Hs H. cbn [lua_answers call_answers] in H. destruct (plain_right_type now db s m Hp Hs) as [Hw _].
  destruct H as [(H & _)|(_ & x & db1 & [-> ->] & H)]; [by rewrite Hw in H|]. by rewrite set_at_tasks in H.
Qed.

Lemma lua_srem {A} s m (k : Z -> lua A) now db r db' :
  plain_sets db -> s <> all_name -> lua_answers (LCall (SREM (getTaskSetKey s) m) k) now db r db' ->
  lua_answers (k (if decide (m ∈ tasks_in db s) then 1 else 0)) now
    (put_set now (getTaskSetKey s) (tasks_in db s ∖ {[m]}) db) r db'.
Proof.
  intros Hp Hs H. cbn [lua_answers call_answers] in H. destruct (plain_right_type now db s m Hp Hs) as [_ Hw].
  destruct H as [(H & _)|(_ & x & db1 & [-> ->] & H)]; [by rewrite Hw in H|]. by rewrite set_at_tasks in H.
Qed.

Lemma ordered_put_set now db s m :
  ordered_db db -> s <> all_name ->
  ordered_db (put_set now (getTaskSetKey s) m db) /\
  forall t, t <> all_name -> tasks_in (put_set now (getTaskSetKey s) m db) t = if decide (t = s) then m else tasks_in db t.
Proof.
  intros [Hp Hs] Hne. split; [split; [by apply plain_put_set|by apply sane_put_set]|]. intros t Ht. by apply tasks_put_set.
Qed.

Lemma script_ordered {A} (s : lua A) now db r db' :
  script_allowed s -> ordered_db db -> lua_answers s now db r db' ->
  ordered_db db' /\ forall t, t <> all_name -> tasks_in db' t = tasks_in db t.
Proof.
  intros Ha [Hp Hs] H. destruct (script_frame s now db r db' Ha Hs H) as [F S].
  split; [split; [by eapply same_tasks_plain|done]|]. intros t Ht. by apply same_tasks_in.
Qed.

(** A move along an edge: the task leaves its set and enters the other, or nothing changes
    because it is not there; a move of an expired task to the expired set removes it. *)
Lemma move_change {A} O id from to (rest : lua A) now db r db' :
  edge from to -> script_allowed rest -> ordered_db db ->
  lua_answers (move_script (getTaskSetKey from) (getTaskSetKey to) id rest) now db r db' ->
  ordered_db db' /\ change O db db'.
Proof.
  intros He Hr Ho H. destruct (edge_names _ _ He) as [Hf Ht].
  apply lua_sadd in H; [|apply Ho|done].
  destruct (ordered_put_set now db to ({[id]} ∪ tasks_in db to) Ho Ht) as [Ho1 E1].
  revert H Ho1 E1. generalize (put_set now (getTaskSetKey to) ({[id]} ∪ tasks_in db to) db). intros db1 H Ho1 E1.
  apply lua_srem in H; [|apply Ho1|done].
  destruct (ordered_put_set now db1 from (tasks_in db1 from ∖ {[id]}) Ho1 Hf) as [Ho2 E2].
  revert H Ho2 E2. generalize (put_set now (getTaskSetKey from) (tasks_in db1 from ∖ {[id]}) db1). intros db2 H Ho2 E2.
  rewrite E1 in H, E2 by done. destruct (decide (from = to)) as [->|Hne].
  - destruct (decide (id ∈ {[id]} ∪ tasks_in db to)) as [_|[]]; [cbn in H|clear; set_solver]. destruct (script_ordered rest now db2 r db' Hr Ho2 H) as [Ho3 E3].
    split; [done|]. apply Dropped with id. intros s Hs. rewrite E3, E2 by done. apply edge_loop in He as ->.
    destruct (decide (s = StatusExpired)) as [->|]; [clear; set_solver|]. rewrite E1 by done. by rewrite decide_False.
  - destruct (decide (id ∈ tasks_in db from)) as [Hin|Hin]; cbn in H.
    + destruct (script_ordered rest now db2 r db' Hr Ho2 H) as [Ho3 E3]. split; [done|]. apply Moved with id from to; [done..|].
      intros s Hs. rewrite E3, E2, E1 by done. destruct (decide (s = from)), (decide (s = to)); subst; done.
    + assert (forall s, s <> all_name -> tasks_in db2 s = if decide (s = to) then {[id]} ∪ tasks_in db to else tasks_in db s) as E.
      { intros s Hs. rewrite E2, E1 by done. destruct (decide (s = from)), (decide (s = to)); subst; [done|clear -Hin; set_solver|done..]. }
      destruct (decide (id ∈ tasks_in db to)) as [Hto|Hto]; cbn in H.
      * destruct H as [_ ->]. split; [done|]. apply Same. intros s Hs. rewrite E by done. destruct (decide (s = to)) as [->|]; [clear -Hto; set_solver|done].
      * apply (lua_srem to id (fun _ => LErr "not found in set")) in H; [|apply Ho2|done]. destruct H as [_ ->].
        destruct (ordered_put_set now db2 to (tasks_in db2 to ∖ {[id]}) Ho2 Ht) as [Ho3 E3].
        split; [done|]. apply Same. intros s Hs. rewrite E3, !E by done. destruct (decide (s = to)) as [->|]; [|done]. rewrite decide_True by done. clear -Hto; set_solver.
Qed.

(** ** Programs that publish only tasks of their own

    A handler that creates a task owns its fresh identifier until it adds it to the
    pending set. *)

Definition publishes {X} (O : gset string) (e : eff X) : Prop :=
  match e with
  | Redis (SADD key id) => key = getTaskSetKey StatusPending /\ id ∈ O
  | _ => False
  end.

Definition after {X} (O : gset string) (e : eff X) : X -> gset string :=
  match e in eff X return X -> gset string with
  | Uuid => fun x => {["batch_" +:+ x]} ∪ O
  | Redis (SADD key id) => fun _ => if decide (key = getTaskSetKey StatusPending) then O ∖ {[id]} else O
  | _ => fun _ => O
  end.

Fixpoint owned {A} (O : gset string) (p : prog A) : Prop :=
  match p with
  | Ret _ | Panic | Hang => True
  | Do e k => (eff_allowed e \/ publishes O e) /\ forall x, eff_promise e x -> owned (after O e x) (k x)
  end.

Lemma pending_not_foreign : ~ foreign (getTaskSetKey StatusPending).
Proof. by apply task_key_not_foreign. Qed.

Lemma after_allowed {X} O (e : eff X) x : eff_allowed e -> O ⊆ after O e x.
Proof.
  destruct e as [Y c| | | | | | | | | | |]; cbn; try done; [|set_solver].
  destruct c; cbn; try done. intros Hk. case_decide as Hd; [|done]. subst. by apply pending_not_foreign in Hk.
Qed.

Lemma owned_bind {A B} (p : prog A) (f : A -> prog B) (Q : A -> Prop) O :
  wp batch_contract p Q -> (forall a O', O ⊆ O' -> Q a -> owned O' (f a)) -> owned O (p ≫= f).
Proof.
  change (p ≫= f) with (prog_bind f p). revert O. induction p as [a| | |X e k IH]; intros O Hp Hf; cbn in *; [by apply Hf|done..|].
  destruct Hp as [He Hk]. split; [by left|]. intros x Hx. apply IH; [by apply Hk|].
  intros a O' HO. apply Hf. pose proof (after_allowed O e x He). set_solver.
Qed.

Lemma owned_kept {A} O (p : prog A) : kept p -> owned O p.
Proof.
  revert O. induction p as [a| | |X e k IH]; intros O; cbn; [done..|]. intros [He Hk].
  split; [by left|]. intros x Hx. by apply IH, Hk.
Qed.

Lemma owned_seq {A B} (p : prog A) (f : A -> prog B) O :
  owned O p -> (forall a, kept (f a)) -> owned O (p ≫= f).
Proof.
  change (p ≫= f) with (prog_bind f p). revert O. induction p as [a| | |X e k IH]; intros O Hp Hf; cbn in *; [by apply owned_kept|done..|].
  destruct Hp as [He Hk]. split; [done|]. intros x Hx. by apply IH; [apply Hk|].
Qed.

(** A program without its result. *)
Definition discard {A} (p : prog A) : prog unit := _ ← p; Ret ().

Section programs.
Context {J : Json} {LJ : LineJson}.

(** What the gateways start: the reactors' iterations, the goroutines of the monitors and the handlers. *)
Inductive service_program : prog unit -> Prop :=
  | StartValidating tr : service_program (processSingleValidatingTask tr)
  | StartInProgress tr w : service_program (processSingleInProgressTask tr w)
  | StartFinalizing tr : service_program (processSingleFinalizingTask tr)
  | StartCancelling tr : service_program (processSingleCancellingTask tr)
  | StartExpiry tr : service_program (processExpiredTasks tr)
  | StartTaskMonitor tr id s b : service_program (discard (task_monitor_tick tr id s b))
  | StartShardMonitor tr id sid w s b : service_program (discard (shard_monitor_tick tr id sid w s b))
  | StartKeepalive tr id : service_program (discard (cancel_keepalive_tick tr id))
  | StartUpload tr form : service_program (discard (handleFileUpload tr form))
  | StartListFiles sorter : service_program (discard (handleListFiles sorter))
  | StartGetFile id : service_program (discard (handleGetFile id))
  | StartDeleteFile id : service_program (discard (handleDeleteFile id))
  | StartContent tr id : service_program (discard (GetFileContentHandler tr id))
  | StartCreate order auth q : service_program (discard (handleCreateBatchTask order auth q))
  | StartListTasks sorter limit first : service_program (discard (handleListBatchTasks sorter limit first))
  | StartGetTask id : service_program (discard (GetBatchTaskHandler id))
  | StartCancel tr id : service_program (discard (CancelBatchTaskHandler tr id)).

Lemma discard_kept {A} (p : prog A) O : kept p -> owned O (discard p).
Proof. intros Hp. by eapply owned_bind. Qed.

Lemma task_fields_status t fields : task_fields t = Some fields -> fields !! "status" = Some (t_Status t).
Proof.
  unfold task_fields. destruct (t_CreatedAt t) as [c|]; [|done]. destruct (t_UpdatedAt t) as [u|]; [|done]. cbn.
  intros [= <-]. unfold add_json, add_files. rewrite !add_opt_status, add_times_status, !add_opt_status by done. done.
Qed.

Lemma owned_CreateTask t O : t_ID t ∈ O -> t_Status t <> all_name -> owned O (CreateTask t).
Proof.
  intros HO Hs. unfold CreateTask. destruct (task_fields t) as [fields|] eqn:Hf; [|done]. unfold try_bind.
  eapply (owned_bind _ _ (fun _ => True)); [apply kept_redis; [|done]|].
  - split; [by left|]. rewrite (task_fields_status _ _ Hf). congruence.
  - intros [[]|e] O1 HO1 _; [|done]. unfold AddTaskToGlobalSet. eapply (owned_bind _ _ (fun _ => True)); [keep|].
    intros [[]|e] O2 HO2 _; [|done]. unfold void, try_bind. apply owned_seq; [|by intros [|]].
    split; [|done]. right. split; [done|]. set_solver.
Qed.

Lemma owned_create order auth q O : owned O (handleCreateBatchTask order auth q).
Proof.
  unfold handleCreateBatchTask. destruct q as [q|]; [|done]. destruct (negb _); [done|].
  eapply owned_bind; [apply kept_GetFile|]. intros [f|e] O1 _ _; [|done].
  split; [by left|]. intros x _. cbn [after prog_bind]. case_decide; [done|].
  apply (owned_bind now_unix _ (fun _ => True)); [by apply kept_now_unix|]. intros now O2 HO2 _.
  apply owned_seq; [|by intros [|]]. apply owned_CreateTask; [|done]. cbn. set_solver.
Qed.

(** Every program of the service keeps its ownership. *)
Lemma service_owned p : service_program p -> owned ∅ p.
Proof.
  intros Hp. destruct Hp.
  - apply owned_kept, kept_validating.
  - apply owned_kept, kept_inprogress.
  - apply owned_kept, kept_finalizing.
  - apply owned_kept, kept_cancelling.
  - apply owned_kept, kept_expiry.
  - apply discard_kept. unfold task_monitor_tick, monitor_tick. keep.
  - apply discard_kept. unfold shard_monitor_tick, monitor_tick. keep.
  - apply discard_kept, kept_ExtendTaskLock.
  - apply discard_kept. unfold handleFileUpload, UploadFile. keep.
  - apply discard_kept. unfold handleListFiles. keep. apply kept_get_all, kept_GetFile.
  - apply discard_kept. unfold handleGetFile. keep.
  - apply discard_kept. unfold handleDeleteFile. keep.
  - apply discard_kept. unfold GetFileContentHandler, GetObjectContent. keep.
  - by apply owned_seq; [apply owned_create|].
  - apply discard_kept. unfold handleListBatchTasks. keep. apply kept_get_all, kept_GetTask.
  - apply discard_kept. unfold GetBatchTaskHandler. keep.
  - apply discard_kept, kept_cancel_handler.
Qed.
End programs.

(** ** One effect on the status sets *)

Definition in_status (db : keyspace) (id : string) (s : BatchTaskStatus) : Prop := s <> all_name /\ id ∈ tasks_in db s.

(** The same cases as [change], task by task. *)
Lemma change_cases O db db' :
  change O db db' ->
  (forall x s, in_status db' x s <-> in_status db x s) \/
  (exists id from to, edge from to /\ from <> to /\ in_status db id from /\
     forall x s, in_status db' x s <-> x = id /\ s = to \/ in_status db x s /\ ~ (x = id /\ s = from)) \/
  (exists id, forall x s, in_status db' x s <-> in_status db x s /\ ~ (x = id /\ s = StatusExpired)) \/
  (exists id, id ∈ O /\ forall x s, in_status db' x s <-> x = id /\ s = StatusPending \/ in_status db x s).
Proof.
  intros [H|id from to He Hne Hin H|id H|id Hid H].
  - left. intros x s. unfold in_status. split; intros [Hs Hx]; (split; [done|]); [by rewrite <- H|by rewrite H].
  - right; left. destruct (edge_names _ _ He) as [Hf Ht]. exists id, from, to. do 3 (split; [done|]). intros x s. unfold in_status.
    destruct (decide (s = all_name)) as [->|Hs]; [naive_solver|]. rewrite H by done.
    destruct (decide (s = to)) as [->|]; [set_solver|]. destruct (decide (s = from)) as [->|]; set_solver.
  - right; right; left. exists id. intros x s. unfold in_status.
    destruct (decide (s = all_name)) as [->|Hs]; [naive_solver|]. rewrite H by done.
    destruct (decide (s = StatusExpired)); set_solver.
  - right; right; right. exists id. split; [done|]. intros x s. unfold in_status.
    destruct (decide (s = all_name)) as [->|Hs]; [naive_solver|]. rewrite H by done.
    destruct (decide (s = StatusPending)); set_solver.
Qed.

Definition one_set (db : keyspace) : Prop := forall id s1 s2, in_status db id s1 -> in_status db id s2 -> s1 = s2.
Definition absent (db : keyspace) (id : string) : Prop := forall s, ~ in_status db id s.

Lemma change_one_set O db db' :
  change O db db' -> (forall id, id ∈ O -> absent db id) -> one_set db -> one_set db'.
Proof.
  intros [H|[(id & from & to & He & Hne & Hin & H)|[(id & H)|(id & Hid & H)]]]%change_cases Ha Ho x s1 s2; rewrite !H.
  - apply Ho.
  - intros [[-> ->]|[H1 H1']] [[E ->]|[H2 H2']]; subst; try done; [destruct H2'|destruct H1'|by apply (Ho x)];
      (split; [done|]); by apply (Ho id).
  - intros [H1 _] [H2 _]. by apply (Ho x).
  - intros [[-> ->]|H1] [[E ->]|H2]; subst; try done; [by apply Ha in H2|by apply Ha in H1|by apply (Ho x)].
Qed.

(** What happens to a task that is in a set. *)
Lemma change_outcome O db db' id s :
  change O db db' -> (forall x, x ∈ O -> absent db x) -> one_set db -> in_status db id s ->
  (exists s', in_status db' id s' /\ rtc edge s s') \/ s = StatusExpired /\ absent db' id.
Proof.
  intros [H|[(m & from & to & He & Hne & Hin & H)|[(m & H)|(m & Hid & H)]]]%change_cases Ha Ho Hs.
  - left. exists s. by rewrite H.
  - left. destruct (decide (id = m /\ s = from)) as [[-> ->]|Hn].
    + exists to. rewrite H. split; [by left|by apply rtc_once].
    + exists s. rewrite H. split; [by right|done].
  - destruct (decide (id = m /\ s = StatusExpired)) as [[-> ->]|Hn].
    + right. split; [done|]. intros s'. rewrite H. intros [Hs' []]. split; [done|]. by apply (Ho m).
    + left. exists s. rewrite H. by split.
  - left. exists s. rewrite H. split; [by right|done].
Qed.

Lemma change_absent O db db' id : change O db db' -> id ∉ O -> absent db id -> absent db' id.
Proof.
  intros [H|[(m & from & to & He & Hne & Hin & H)|[(m & H)|(m & Hid & H)]]]%change_cases HO Ha s; rewrite H.
  - apply Ha.
  - intros [[-> _]|[Hs _]]; [by apply Ha in Hin|by apply Ha in Hs].
  - intros [Hs _]. by apply Ha in Hs.
  - intros [[-> _]|Hs]; [done|by apply Ha in Hs].
Qed.

Lemma change_settled O db db' id s : change O db db' -> in_status db' id s -> id ∈ O \/ exists s0, in_status db id s0.
Proof.
  intros [H|[(m & from & to & He & Hne & Hin & H)|[(m & H)|(m & Hid & H)]]]%change_cases; rewrite H.
  - eauto.
  - intros [[-> _]|[Hs _]]; eauto.
  - intros [Hs _]. eauto.
  - intros [[-> _]|Hs]; eauto.
Qed.

(** ** Runs of the service *)

(** The time of the server, its keys, the identifiers that were drawn and the running programs. *)
Record world := mkWorld {
  w_now : Z;
  w_db : keyspace;
  w_drawn : gset string;
  w_pool : gmap nat (prog unit)
}.

(** The answers of the services: the clocks of gateways, the object store, the HTTP
    server and the channels may answer anything, and a UUID is drawn once. *)
Definition eff_answers {X} (e : eff X) (w : world) : X -> keyspace -> gset string -> Prop :=
  match e in eff X return X -> keyspace -> gset string -> Prop with
  | Redis c => fun r db' drawn' => client_sees r (call_result c (w_now w) (w_db w)) (w_db w) db' /\ drawn' = w_drawn w
  | Eval s => fun r db' drawn' => client_sees r (lua_answers s (w_now w) (w_db w)) (w_db w) db' /\ drawn' = w_drawn w
  | Uuid => fun x db' drawn' => (x ∉ w_drawn w) /\ db' = w_db w /\ drawn' = {[x]} ∪ w_drawn w
  | Shuffle l => fun l' db' drawn' => (l' ≡ₚ l) /\ db' = w_db w /\ drawn' = w_drawn w
  | _ => fun _ db' drawn' => db' = w_db w /\ drawn' = w_drawn w
  end.

Lemma change_refl O db : change O db db.
Proof. by apply Same. Qed.

Lemma frame_change {X} (c : call X) now db x db' O :
  call_allowed c -> ordered_db db -> call_answers c now db x db' -> ordered_db db' /\ change O db db'.
Proof.
  intros Hc [Hp Hs] H. destruct (call_frame c now db x db' Hc Hs H) as (F & S & _).
  split; [split; [by eapply same_tasks_plain|done]|]. apply Same. intros s Hne. by apply same_tasks_in.
Qed.

Lemma call_result_change {X} (c : call X) now db r db' O :
  (forall x, call_answers c now db x db' -> ordered_db db' /\ change O db db') ->
  ordered_db db -> call_result c now db r db' -> ordered_db db' /\ change O db db'.
Proof.
  unfold call_result. intros Hc Ho. destruct (wrong_type c now db); [intros [_ ->]; by split; [|apply change_refl]|].
  intros (x & _ & H). by eapply Hc.
Qed.

Lemma client_call_change {X} (c : call X) now db r db' O :
  (forall x db', call_answers c now db x db' -> ordered_db db' /\ change O db db') ->
  ordered_db db -> client_sees r (call_result c now db) db db' -> ordered_db db' /\ change O db db'.
Proof.
  intros Hc Ho [H|[_ [->|[r' H]]]]; [|by split; [|apply change_refl]|]; (eapply call_result_change; [|done|exact H]); intros x; apply Hc.
Qed.

Lemma publish_change now db id x db' O :
  id ∈ O -> ordered_db db -> call_answers (SADD (getTaskSetKey StatusPending) id) now db x db' -> ordered_db db' /\ change O db db'.
Proof.
  intros Hid Ho [-> _]. rewrite (set_at_tasks now db StatusPending (proj1 Ho)) by done.
  destruct (ordered_put_set now db StatusPending ({[id]} ∪ tasks_in db StatusPending) Ho) as [Ho' E]; [done|].
  split; [done|]. apply Published with id; [done|]. intros s Hs. rewrite E by done. by case_decide; subst.
Qed.

Lemma eval_change {A} (s : lua A) now db r db' O :
  script_allowed s \/ move_allowed s -> ordered_db db -> lua_answers s now db r db' -> ordered_db db' /\ change O db db'.
Proof.
  intros [Hs|(id & from & to & rest & -> & He & Hr)] Ho H; [|by eapply move_change].
  destruct (script_ordered s now db r db' Hs Ho H) as [Ho' E]. split; [done|]. by apply Same.
Qed.

(** One effect of a program: the keys stay in order, the answer is as promised, and only
    tasks that the program owned and gives up are new. *)
Lemma eff_change {X} O (e : eff X) w x db' drawn' :
  eff_allowed e \/ publishes O e -> ordered_db (w_db w) -> eff_answers e w x db' drawn' ->
  eff_promise e x /\ ordered_db db' /\ change (O ∖ after O e x) (w_db w) db'.
Proof.
  intros Hal Ho H. destruct e as [Y c|Y s| | | | | | | | | | ]; cbn in H; try (destruct H as [-> _]; by split_and!; [..|apply change_refl]).
  - destruct H as [H _]. split.
    + destruct x as [y|e]; [|done]. destruct H as [H|[[e [=]] _]]. unfold call_result in H.
      destruct (wrong_type c _ _); [destruct H as [[e [=]] _]|]. destruct H as (y' & [= <-] & H).
      destruct Hal as [Hc|Hpub]; [by destruct (call_frame _ _ _ _ _ Hc (proj2 Ho) H) as (_ & _ & ?)|by destruct c].
    + destruct Hal as [Hc|Hpub]; [eapply client_call_change; [|done|done]; intros; by eapply frame_change|].
      destruct c; try done. destruct Hpub as [-> Hid]. eapply client_call_change; [|done|done].
      intros n db1. apply publish_change; [|done]. cbn [after]. rewrite decide_True by done. set_solver.
  - destruct H as [H _]. split; [done|]. destruct Hal as [Hs|[]]. cbn in Hs.
    destruct H as [H|[_ [->|[r' H]]]]; [by eapply eval_change|by split; [|apply change_refl]|by eapply eval_change].
  - destruct H as (_ & -> & _). by split_and!; [..|apply change_refl].
  - destruct H as (_ & -> & _). by split_and!; [..|apply change_refl].
Qed.

Section runs.
Context {J : Json} {LJ : LineJson}.

Inductive step : world -> world -> Prop :=
  | Start now db drawn pool i p : service_program p -> pool !! i = None ->
      step (mkWorld now db drawn pool) (mkWorld now db drawn (<[i := p]> pool))
  | Effect w i X (e : eff X) k x db' drawn' :
      w_pool w !! i = Some (Do e k) -> eff_answers e w x db' drawn' ->
      step w (mkWorld (w_now w) db' drawn' (<[i := k x]> (w_pool w)))
  | Stop now db drawn pool i : step (mkWorld now db drawn pool) (mkWorld now db drawn (delete i pool))
  | Wait now now' db drawn pool : now <= now' -> step (mkWorld now db drawn pool) (mkWorld now' db drawn pool).

Definition initial (w : world) : Prop := w_db w = ∅ /\ w_pool w = ∅ /\ w_drawn w = ∅.

Definition known (w : world) (id : string) : Prop := exists x, x ∈ w_drawn w /\ id = "batch_" +:+ x.

(** [own i] are the identifiers that program [i] may still publish. *)
Record inv (w : world) (own : nat -> gset string) : Prop := mkInv {
  inv_db : ordered_db (w_db w);
  inv_owned i p : w_pool w !! i = Some p -> owned (own i) p;
  inv_one : one_set (w_db w);
  inv_known id s : in_status (w_db w) id s -> known w id;
  inv_own i id : id ∈ own i -> known w id /\ absent (w_db w) id;
  inv_disjoint i j id : id ∈ own i -> id ∈ own j -> i = j
}.

(** Identifiers that were drawn and that no program may publish any more. *)
Definition settled (w : world) (own : nat -> gset string) (id : string) : Prop := known w id /\ forall i, id ∉ own i.

Lemma inv_settled w own id s : inv w own -> in_status (w_db w) id s -> settled w own id.
Proof.
  intros Hi Hs. split; [by eapply inv_known|]. intros i Hid. by destruct (inv_own _ _ Hi i id Hid) as [_ Ha]; apply Ha in Hs.
Qed.

Definition override (own : nat -> gset string) (i : nat) (O : gset string) (j : nat) : gset string :=
  if decide (j = i) then O else own j.

Lemma tasks_empty s : tasks_in ∅ s = ∅.
Proof. done. Qed.

Lemma inv_initial w : initial w -> inv w (fun _ => ∅).
Proof.
  intros (Hd & Hp & Hx). split; rewrite ?Hd, ?Hp; try done.
  - split; [by left|done].
  - intros id s1 s2 [_ H]. by rewrite tasks_empty in H.
  - intros id s [_ H]. by rewrite tasks_empty in H.
Qed.

Lemma eff_drawn {X} (e : eff X) w x db' drawn' O id :
  eff_answers e w x db' drawn' -> w_drawn w ⊆ drawn' /\
  (id ∈ after O e x -> id ∈ O \/ exists u, (u ∉ w_drawn w) /\ u ∈ drawn' /\ id = "batch_" +:+ u).
Proof.
  destruct e as [Y c|Y s| | | | | | | | | | ]; cbn; intros H; try (destruct H as [_ ->]; split; [done|by left]).
  - destruct H as [_ ->]. split; [done|]. destruct c; cbn; try by left. case_decide; [set_solver|by left].
  - destruct H as (Hx & _ & ->). split; [set_solver|]. intros [->%elem_of_singleton|Hid]%elem_of_union; [|by left].
    right. exists x. set_solver.
  - destruct H as (_ & _ & ->). split; [done|by left].
Qed.

(** What a step does to an identifier that no program may publish. *)
Definition fate (db db' : keyspace) (id : string) : Prop :=
  (absent db id -> absent db' id) /\
  forall s, in_status db id s -> (exists s', in_status db' id s' /\ rtc edge s s') \/ s = StatusExpired /\ absent db' id.

Lemma fate_refl db id : fate db db id.
Proof. split; [done|]. intros s Hs. left. by exists s. Qed.

Lemma known_mono w w' id : w_drawn w ⊆ w_drawn w' -> known w id -> known w' id.
Proof. intros Hd (x & Hx & ->). exists x. split; [set_solver|done]. Qed.

Lemma fresh_unknown w u : u ∉ w_drawn w -> ~ known w ("batch_" +:+ u).
Proof. by intros Hu (x & Hx & <-%(inj (String.append "batch_"))). Qed.

Lemma elem_override own i O j id : id ∈ override own i O j <-> j = i /\ id ∈ O \/ j <> i /\ id ∈ own j.
Proof. unfold override. case_decide; naive_solver. Qed.

(** The identifiers that program [i] owns after an effect. *)
Lemma owned_after w own i X (e : eff X) x db' drawn' id :
  inv w own -> eff_answers e w x db' drawn' -> id ∈ after (own i) e x ->
  (id ∈ own i \/ ~ known w id) /\ (exists u, u ∈ drawn' /\ id = "batch_" +:+ u) /\ absent (w_db w) id.
Proof.
  intros Hi Hx Hid. destruct (eff_drawn e w x db' drawn' (own i) id Hx) as [Hd Ha].
  destruct (Ha Hid) as [Ho|(u & Hu & Hu' & ->)].
  - destruct (inv_own _ _ Hi i id Ho) as [(u & Hu & ->) Hab]. split; [by left|]. split; [exists u; split; [set_solver|done]|done].
  - assert (~ known w ("batch_" +:+ u)) as Hk by by apply fresh_unknown.
    split; [by right|]. split; [by exists u|]. intros s Hs. by apply Hk, (inv_known _ _ Hi _ s).
Qed.

Lemma effect_inv w own i X (e : eff X) k x db' drawn' :
  inv w own -> w_pool w !! i = Some (Do e k) -> eff_answers e w x db' drawn' ->
  inv (mkWorld (w_now w) db' drawn' (<[i := k x]> (w_pool w))) (override own i (after (own i) e x)).
Proof.
  intros Hi Hp Hx. destruct (inv_owned _ _ Hi i _ Hp) as [Hal Hk].
  destruct (eff_change (own i) e w x db' drawn' Hal (inv_db _ _ Hi) Hx) as (Hpr & Ho & Hc).
  destruct (eff_drawn e w x db' drawn' (own i) "" Hx) as [Hd _].
  assert (forall id, id ∈ own i ∖ after (own i) e x -> absent (w_db w) id) as Hab.
  { intros id Hid. apply (inv_own _ _ Hi i). set_solver. }
  split; cbn.
  - done.
  - intros j p. unfold override. case_decide as Hj; [subst j; rewrite lookup_insert_eq; intros [= <-]; by apply Hk|].
    rewrite lookup_insert_ne by done. apply (inv_owned _ _ Hi).
  - by eapply change_one_set; [| |apply (inv_one _ _ Hi)].
  - intros id s Hs. apply (known_mono w); [done|].
    destruct (change_settled _ _ _ _ _ Hc Hs) as [Hid|[s0 Hs0]]; [|by apply (inv_known _ _ Hi _ s0)].
    apply (inv_own _ _ Hi i). set_solver.
  - intros j id [[-> Hid]|[Hj Hid]]%elem_override.
    + destruct (owned_after w own i X e x db' drawn' id Hi Hx Hid) as (_ & Hkn & Ha). split; [done|].
      eapply change_absent; [done| |done]. set_solver.
    + destruct (inv_own _ _ Hi j id Hid) as [Hkn Ha]. split; [by apply (known_mono w)|].
      eapply change_absent; [done| |done]. intros Hid'. apply Hj. apply (inv_disjoint _ _ Hi _ _ id); [done|set_solver].
  - intros j1 j2 id [[-> H1]|[Hj1 H1]]%elem_override [[-> H2]|[Hj2 H2]]%elem_override; [done| | |by apply (inv_disjoint _ _ Hi _ _ id)].
    + destruct (owned_after w own i X e x db' drawn' id Hi Hx H1) as ([Hid|Hn] & _); [by apply (inv_disjoint _ _ Hi _ _ id)|].
      destruct Hn. by apply (inv_own _ _ Hi j2).
    + destruct (owned_after w own i X e x db' drawn' id Hi Hx H2) as ([Hid|Hn] & _); [by apply (inv_disjoint _ _ Hi _ _ id)|].
      destruct Hn. by apply (inv_own _ _ Hi j1).
Qed.

Lemma effect_fate w own i X (e : eff X) k x db' drawn' id :
  inv w own -> w_pool w !! i = Some (Do e k) -> eff_answers e w x db' drawn' -> settled w own id ->
  fate (w_db w) db' id /\
  settled (mkWorld (w_now w) db' drawn' (<[i := k x]> (w_pool w))) (override own i (after (own i) e x)) id.
Proof.
  intros Hi Hp Hx [Hkn Hno]. destruct (inv_owned _ _ Hi i _ Hp) as [Hal _].
  destruct (eff_change (own i) e w x db' drawn' Hal (inv_db _ _ Hi) Hx) as (_ & _ & Hc).
  destruct (eff_drawn e w x db' drawn' (own i) "" Hx) as [Hd _]. split; [split|split].
  - intros Ha. eapply change_absent; [done| |done]. specialize (Hno i). set_solver.
  - intros s Hs. eapply change_outcome; [done| |apply (inv_one _ _ Hi)|done].
    intros y Hy. apply (inv_own _ _ Hi i). set_solver.
  - by apply (known_mono w).
  - intros j [[-> Hid]|[Hj Hid]]%elem_override; [|by apply Hno in Hid].
    destruct (owned_after w own i X e x db' drawn' id Hi Hx Hid) as ([Ho|Hn] & _); [by apply Hno in Ho|done].
Qed.

Lemma step_inv w w' own :
  inv w own -> step w w' ->
  exists own', inv w' own' /\ forall id, settled w own id -> fate (w_db w) (w_db w') id /\ settled w' own' id.
Proof.
  intros Hi Hs. destruct Hs as [now db drawn pool i p Hp Hn|w i X e k x db' drawn' Hp Hx|now db drawn pool i|now now' db drawn pool Hn].
  - exists (override own i ∅). split; [|intros id [Hk Hno]; split; [apply fate_refl|]; split; [done|];
      intros j [[_ H]|[_ H]]%elem_override; [set_solver|by apply Hno in H]].
    destruct Hi as [Hd Ho H1 Hk Hw Hj]. split; cbn in *; try done.
    + intros j q. unfold override. case_decide as E; [subst j; rewrite lookup_insert_eq; intros [= <-]; by apply service_owned|].
      rewrite lookup_insert_ne by done. apply Ho.
    + intros j id [[_ H]|[_ H]]%elem_override; [set_solver|by apply (Hw j)].
    + intros j1 j2 id [[_ A]|[_ A]]%elem_override [[_ B]|[_ B]]%elem_override; [set_solver..|by apply (Hj _ _ id)].
  - exists (override own i (after (own i) e x)). split; [by apply effect_inv|]. intros id. by apply effect_fate.
  - exists own. split; [|intros id Hs; split; [apply fate_refl|done]].
    destruct Hi as [Hd Ho H1 Hk Hw Hj]. split; cbn in *; try done. intros j q (_ & Hq)%lookup_delete_Some. by apply Ho.
  - exists own. split; [|intros id Hs; split; [apply fate_refl|done]].
    by destruct Hi as [Hd Ho H1 Hk Hw Hj].
Qed.

Lemma steps_inv w w' own :
  inv w own -> rtc step w w' -> exists own', inv w' own' /\ forall id, settled w own id -> settled w' own' id.
Proof.
  intros Hi Hr. revert own Hi. induction Hr as [w|w u v Hs Hr IH]; intros own Hi; [by exists own|].
  destruct (step_inv w u own Hi Hs) as (own1 & Hi1 & F). destruct (IH own1 Hi1) as (own2 & Hi2 & G).
  exists own2. split; [done|]. intros id Hid. by apply G, F.
Qed.

Lemma reach_inv w0 w : initial w0 -> rtc step w0 w -> exists own, inv w own.
Proof. intros H0 Hr. destruct (steps_inv w0 w _ (inv_initial w0 H0) Hr) as (own & Hi & _). by exists own. Qed.

Lemma steps_absent w w' own id :
  inv w own -> rtc step w w' -> settled w own id -> absent (w_db w) id -> absent (w_db w') id.
Proof.
  intros Hi Hr. revert own Hi. induction Hr as [w|w u v Hs Hr IH]; intros own Hi Hid Ha; [done|].
  destruct (step_inv w u own Hi Hs) as (own1 & Hi1 & F). destruct (F id Hid) as [[F1 _] F2]. by apply (IH own1 Hi1 F2), F1.
Qed.

(** The edges other than the loop at expired go up. *)
Definition rank (s : BatchTaskStatus) : nat :=
  if decide (s = StatusPending) then 0 else if decide (s = StatusValidating) then 1 else if decide (s = StatusInProgress) then 2
  else if decide (s = StatusFinalizing) then 3 else if decide (s = StatusFinalize) then 4
  else if decide (s = StatusCancelling) then 5 else if decide (s = StatusExpired) then 7 else 6.

Lemma edge_rank s s' : edge s s' -> s = s' \/ (rank s < rank s')%nat.
Proof.
  intros [H|[_ ->]].
  - right. assert (Forall (fun e => rank e.1 < rank e.2)%nat lifecycle) as Hl by (repeat constructor; vm_compute; lia).
    rewrite Forall_forall in Hl. by apply (Hl (s, s')), list_elem_of_In.
  - destruct (decide (s = StatusExpired)) as [->|Hs]; [by left|right]. unfold rank. repeat case_decide; done || lia.
Qed.

Lemma edges_rank s s' : rtc edge s s' -> s = s' \/ (rank s < rank s')%nat.
Proof. induction 1 as [s|s t u [->|He]%edge_rank _ [->|IH]]; auto; right; lia. Qed.

Lemma edges_acyclic s s' : rtc edge s s' -> s <> s' -> ~ rtc edge s' s.
Proof. intros [?|H1]%edges_rank Hne [?|H2]%edges_rank; subst; try done. lia. Qed.

(** C17. In every run of any number of gateways, with crashes, lost answers and failing
    calls at any point: a task is in at most one status set, it only moves along the edges of
    the life cycle and never back, and it is never lost, except that a task that was in the expired set
    may end up in no set. *)
Theorem batch_lifecycle w0 w w' id s :
  initial w0 -> rtc step w0 w -> rtc step w w' -> in_status (w_db w) id s ->
  (forall s', in_status (w_db w) id s' -> s' = s) /\
  ((exists s', in_status (w_db w') id s' /\ rtc edge s s' /\ (s <> s' -> ~ rtc edge s' s)) \/
   (exists u, rtc step w u /\ rtc step u w' /\ in_status (w_db u) id StatusExpired) /\ absent (w_db w') id).
Proof.
  intros H0 Hr Hr' Hs. destruct (reach_inv w0 w H0 Hr) as [own Hi]. split; [intros s' Hs'; by apply (inv_one _ _ Hi id)|].
  cut ((exists s', in_status (w_db w') id s' /\ rtc edge s s') \/
    (exists u, rtc step w u /\ rtc step u w' /\ in_status (w_db u) id StatusExpired) /\ absent (w_db w') id).
  { intros [(s' & Hs' & He)|H]; [left|by right]. exists s'. split; [done|]. split; [done|]. by apply edges_acyclic. }
  clear H0 Hr w0. revert s own Hi Hs. induction Hr' as [w|w u v Hst Hr IH]; intros s own Hi Hs; [left; by exists s|].
  destruct (step_inv w u own Hi Hst) as (own1 & Hi1 & F). destruct (F id) as [[_ Ff] Fs]; [by eapply inv_settled|].
  destruct (Ff s Hs) as [(s1 & Hs1 & He)|[-> Ha]].
  - destruct (IH s1 own1 Hi1 Hs1) as [(s2 & Hs2 & He2)|[(u' & Hu & Hu' & Hx) Ha]].
    + left. exists s2. split; [done|]. by etrans.
    + right. split; [|done]. exists u'. split; [by eapply rtc_l|done].
  - right. split; [|by eapply steps_absent]. exists w. split; [done|]. split; [by eapply rtc_l|done].
Qed.
End runs.
