(* ===== verification/BatchRun.v ===== *)
(** * A gateway beside a server that answers

    [machine] is one Redis server, one object store and one backend that behave as
    documented; [play] runs programs of the batch service on it, one after the other. Its
    runs are runs of the service in the sense of [step]. *)

From Stdlib Require Import Ascii.
From stdpp Require Import base gmap sets list strings numbers pretty.
From S2P Require Import Prelude GoStrings Types Programs Effects RedisSem BatchStore BatchOss BatchReactor BatchHandlers BatchSpec BatchLife.

Local Open Scope Z_scope.

Record machine := mkMachine {
  m_now : Z;                              (* nanoseconds *)
  m_db : keyspace;
  m_objects : gmap string string;
  m_next : nat                            (* identifiers drawn so far *)
}.

Definition with_db (db : keyspace) (m : machine) : machine := mkMachine (m_now m) db (m_objects m) (m_next m).
Definition with_objects (o : gmap string string) (m : machine) : machine := mkMachine (m_now m) (m_db m) o (m_next m).

Definition uuid (n : nat) : string := Itoa (Z.of_nat n).

(** The object store: appending is refused at a position other than the length. *)
Definition append_at (path content : string) (position : Z) (m : machine) : result Z * machine :=
  let old := default "" (m_objects m !! path) in
  if decide (position = Z.of_nat (String.length old))
  then (Ok (position + Z.of_nat (String.length content)), with_objects (<[path := old +:+ content]> (m_objects m)) m)
  else (Err (ErrorOther "PositionNotEqualToLength"), m).

Definition serve (backend : http_request -> result (Z * result string)) : handler machine := fun X e =>
  match e in eff X return machine -> X * machine with
  | Redis c => fun m => let '(r, db) := redis_exec c (m_now m) (m_db m) in (r, with_db db m)
  | Eval s => fun m => let '(r, db) := lua_exec s (m_now m) (m_db m) in (r, with_db db m)
  | OssGet p => fun m => (match m_objects m !! p with Some c => Ok c | None => Err no_such_key end, m)
  | OssPut p c => fun m => (Ok tt, with_objects (<[p := c]> (m_objects m)) m)
  | OssDelete ps => fun m => (Ok ps, with_objects (filter (fun kv => kv.1 ∉ ps) (m_objects m)) m)
  | OssList prefix _ => fun m => (Ok (filter (fun p => HasPrefix p prefix = true) (map_to_list (m_objects m)).*1, None), m)
  | OssAppend p c n => append_at p c n
  | HttpDo r => fun m => (backend r, m)
  | Now => fun m => (m_now m, m)
  | Uuid => fun m => (uuid (m_next m), mkMachine (m_now m) (m_db m) (m_objects m) (S (m_next m)))
  | Shuffle l => fun m => (l, m)
  | Poll => fun m => (false, m)
  end.

(** ** Its runs are runs of the service *)

Definition drawn_by (n : nat) : gset string := list_to_set (uuid <$> seq 0 n).

Definition world_of (m : machine) (pool : gmap nat (prog unit)) : world := mkWorld (m_now m) (m_db m) (drawn_by (m_next m)) pool.

Lemma uuid_inj n n' : uuid n = uuid n' -> n = n'.
Proof. unfold uuid, Itoa. intros H. apply (inj pretty) in H. lia. Qed.

Lemma uuid_fresh n : uuid n ∉ drawn_by n.
Proof. unfold drawn_by. rewrite elem_of_list_to_set, list_elem_of_fmap. intros (k & ->%uuid_inj & Hk%elem_of_seq). lia. Qed.

Lemma drawn_by_S n : drawn_by (S n) = {[uuid n]} ∪ drawn_by n.
Proof. unfold drawn_by. rewrite seq_S, fmap_app, list_to_set_app_L. cbn. set_solver. Qed.

Lemma serve_answers backend X (e : eff X) m pool :
  let w := world_of m pool in let '(x, m') := serve backend X e m in
  m_now m' = m_now m /\ eff_answers e w x (m_db m') (drawn_by (m_next m')).
Proof.
  destruct e as [Y c|Y s| | | | | | | | | | ]; cbn; try done.
  - pose proof (redis_exec_result c (m_now m) (m_db m)) as H. destruct (redis_exec _ _ _) as [r db]. cbn in *.
    split; [done|]. split; [by left|done].
  - pose proof (lua_exec_answers s (m_now m) (m_db m)) as H. destruct (lua_exec _ _ _) as [r db]. cbn in *.
    split; [done|]. split; [by left|done].
  - unfold append_at. by case_decide.
  - split; [done|]. split; [apply uuid_fresh|]. split; [done|]. apply drawn_by_S.
Qed.

Section play.
Context {J : Json} {LJ : LineJson} (backend : http_request -> result (Z * result string)).

Lemma run_steps p m i pool :
  exists q, rtc step (world_of m (<[i := p]> pool)) (world_of (run (serve backend) p m).2 (<[i := q]> pool)).
Proof.
  revert m. induction p as [a| | |X e k IH]; intros m; cbn; [by eexists..|].
  pose proof (serve_answers backend X e m (<[i := Do e k]> pool)) as H. destruct (serve backend X e m) as [x m']. cbn in H.
  destruct H as [Hn H]. destruct (IH x m') as [q Hq]. exists q. eapply rtc_l; [|exact Hq].
  pose proof (Effect (world_of m (<[i := Do e k]> pool)) i X e k x _ _ (lookup_insert_eq _ _ _) H) as Hs. cbn in Hs.
  unfold world_of at 2. rewrite Hn. by rewrite insert_insert_eq in Hs.
Qed.

(** A program runs to its end or stops, or time passes. *)
Inductive action := Run (p : prog unit) | Sleep (ns : N).

Definition play1 (m : machine) (a : action) : machine :=
  match a with
  | Run p => (run (serve backend) p m).2
  | Sleep ns => mkMachine (m_now m + Z.of_N ns) (m_db m) (m_objects m) (m_next m)
  end.

Definition play (l : list action) (m : machine) : machine := foldl play1 m l.

Definition action_ok (a : action) : Prop := match a with Run p => service_program p | Sleep _ => True end.

Lemma play1_steps m a : action_ok a -> rtc step (world_of m ∅) (world_of (play1 m a) ∅).
Proof.
  destruct a as [p|ns]; cbn; intros Ha; [|apply rtc_once, (Wait (m_now m) (m_now m + Z.of_N ns)); lia].
  eapply rtc_l; [by apply (Start _ _ _ _ 0%nat p)|]. destruct (run_steps p m 0%nat ∅) as [q Hq].
  etrans; [exact Hq|]. apply rtc_once. replace (world_of _ ∅) with (world_of (run (serve backend) p m).2 (delete 0%nat (<[0%nat := q]> ∅))).
  - apply Stop.
  - by rewrite delete_insert_id.
Qed.

Lemma play_steps l m : Forall action_ok l -> rtc step (world_of m ∅) (world_of (play l m) ∅).
Proof.
  revert m. induction l as [|a l IH]; intros m Hl; [done|]. apply Forall_cons_iff in Hl as [Ha Hl].
  etrans; [by apply play1_steps|by apply IH].
Qed.
End play.

(** ** A small installation

    Enough of JSON for the examples: counts as numbers with commas between, a line as
    its identifier, and responses by their identifier and body. *)

Definition read_Z (s : string) : option Z :=
  match s with String "-"%char s => Z.opp <$> digits_value 0 s | _ => digits_value 0 s end.

Definition small_json : Json := {|
  marshal_counts c := Itoa (Total c) +:+ "," +:+ Itoa (Completed c) +:+ "," +:+ Itoa (Failed c);
  unmarshal_counts v :=
    match read_Z <$> Split v "," with [Some a; Some b; Some c] => Some (mkCounts a b c) | _ => None end;
  marshal_usage u := Itoa (TotalTokens u);
  unmarshal_usage v := (fun n => mkUsage 0 None 0 None n) <$> Atoi v;
  marshal_errors es := Join (be_Message <$> es) ";";
  unmarshal_errors v := Some ((fun msg => mkBatchError "" 0 msg "") <$> Split v ";");
  marshal_expires e := Itoa (Seconds e);
  unmarshal_expires v := (fun n => mkExpiresAfter "created_at" n) <$> Atoi v;
  marshal_metadata m := Join ((fun kv => kv.1 +:+ "=" +:+ kv.2) <$> map_to_list m) ";";
  unmarshal_metadata v := (∅, true)
|}.

Definition small_lines : LineJson := {|
  unmarshal_line line := Some (mkLineRequest line "POST" "/v1/completions" (Some line));
  unmarshal_custom_id line := Some line;
  marshal_response r := Some (lr_CustomID r +:+ "=" +:+ default "" (lr_Response r ≫= rd_Body));
  valid_url _ := true
|}.

Definition gateway : TaskReactor := mkReactor "gw1" "batch" 2 3 8089 10.
Definition echo (r : http_request) : result (Z * result string) := Ok (200, Ok (hr_body r +:+ "!")).

Definition empty_machine : machine := mkMachine 0 ∅ ∅ 0.

Section installation.
#[local] Existing Instance small_json.
#[local] Existing Instance small_lines.

Definition upload_and_create (content : string) : list action :=
  [Run (discard (handleFileUpload gateway (Some (mkUpload content (Z.of_nat (String.length content)) "in.jsonl" "batch" "" ""))));
   Run (discard (handleCreateBatchTask elements "Bearer t" (Some (mkCreate "batch_input_0" "/v1/completions" "m" "24h" ∅ None))))].

Definition work : list action :=
  [Run (processSingleValidatingTask gateway); Run (processSingleInProgressTask gateway "w1");
   Run (processSingleInProgressTask gateway "w1"); Run (processSingleFinalizingTask gateway)].

Definition three_lines : string := "a" +:+ newline +:+ " b " +:+ newline +:+ newline +:+ "c" +:+ newline.

Lemma upload_and_create_ok content : Forall action_ok (upload_and_create content).
Proof. repeat constructor. Qed.

Lemma work_ok : Forall action_ok work.
Proof. repeat constructor. Qed.

Definition created : machine := play echo (upload_and_create three_lines) empty_machine.
Definition finished : machine := play echo work created.

Lemma created_pending : in_status (w_db (world_of created ∅)) "batch_1" StatusPending.
Proof. split; [done|]. refine (bool_decide_unpack _ _). vm_compute. exact I. Qed.

Lemma finished_completed : in_status (w_db (world_of finished ∅)) "batch_1" StatusCompleted.
Proof. split; [done|]. refine (bool_decide_unpack _ _). vm_compute. exact I. Qed.

Lemma created_reached : rtc step (world_of empty_machine ∅) (world_of created ∅).
Proof. apply play_steps, upload_and_create_ok. Qed.

Lemma finished_reached : rtc step (world_of created ∅) (world_of finished ∅).
Proof. apply play_steps, work_ok. Qed.

(** A task goes from pending to completed. *)
Lemma batch_lifecycle_witness :
  in_status (w_db (world_of finished ∅)) "batch_1" StatusCompleted /\
  forall s', in_status (w_db (world_of created ∅)) "batch_1" s' -> s' = StatusPending.
Proof.
  split; [exact finished_completed|].
  exact (proj1 (batch_lifecycle (world_of empty_machine ∅) (world_of created ∅) (world_of finished ∅) "batch_1" StatusPending
    (conj eq_refl (conj eq_refl eq_refl)) created_reached finished_reached created_pending)).
Defined.
End installation.
