(* ===== verification/BatchFiles.v ===== *)
(** * Files of the batch service

    Lines and files of lines, object paths, the validation of an input file, and its
    cutting into shards. *)

From Stdlib Require Import Ascii.
From stdpp Require Import base gmap sets list strings numbers pretty.
From S2P Require Import Prelude GoStrings Types Programs Effects RedisSem BatchStore BatchOss BatchReactor.

Local Open Scope Z_scope.

(** ** Pieces of strings *)

Lemma sNotIn_stake c n s : sNotIn c s -> sNotIn c (stake n s).
Proof. revert s. induction n as [|n IH]; intros [|d s]; cbn; try done. intros [Hd Hs]. split; [done|by apply IH]. Qed.

Lemma sNotIn_sdrop c n s : sNotIn c s -> sNotIn c (sdrop n s).
Proof. revert s. induction n as [|n IH]; intros [|d s]; cbn; try done. intros [Hd Hs]. by apply IH. Qed.

Lemma Index_before c s i : Index s (String c "") = Some i -> sNotIn c (stake i s).
Proof.
  revert i. induction s as [|d s IH]; intros i; cbn; [done|].
  destruct (Ascii.ascii_dec c d) as [->|Hd].
  - by destruct s; cbn; intros [= <-].
  - destruct (Index s (String c "")) as [j|] eqn:E; cbn; [|done]. intros [= <-]. cbn. split; [done|]. by apply IH.
Qed.

Lemma Index_None_sNotIn c s : Index s (String c "") = None -> sNotIn c s.
Proof.
  induction s as [|d s IH]; cbn; [done|]. destruct (Ascii.ascii_dec c d) as [->|Hd]; [by destruct s|].
  destruct (Index s (String c "")); cbn; [done|]. intros _. split; [done|by apply IH].
Qed.

Lemma Split_sNotIn c s : Forall (sNotIn c) (Split s (String c "")).
Proof.
  unfold Split. assert (String.length s <= String.length s)%nat as Hf by done. revert Hf.
  generalize (String.length s) at 2 3. intros fuel. revert s. induction fuel as [|fuel IH]; intros s Hf; cbn [split_fuel].
  - destruct s; [|cbn in Hf; lia]. by repeat constructor.
  - destruct (Index s (String c "")) as [i|] eqn:E.
    + apply Forall_cons_iff. split; [by eapply Index_before|]. apply IH. rewrite slength_sdrop. cbn [String.length]. lia.
    + apply Forall_cons_iff. split; [by apply Index_None_sNotIn|done].
Qed.

(** ** Files of lines *)

Abbreviation one_line := (sNotIn (ascii_of_nat 10)) (only parsing).

Definition file_of (lines : list string) : string := Join lines newline +:+ newline.

Lemma lines_of_file lines : lines <> [] -> Forall one_line lines -> lines_of (file_of lines) = lines.
Proof.
  intros Hne Hl. assert (file_of lines = Join (lines ++ [""]) newline) as ->.
  { rewrite Join_app by done. cbn [Join]. by rewrite sapp_nil_r. }
  unfold lines_of, newline. rewrite Split_Join; [|by destruct lines|apply Forall_app; by repeat constructor].
  rewrite decide_True by by rewrite last_snoc. rewrite length_app. cbn [length]. replace (_ - 1)%nat with (length lines) by lia.
  by rewrite take_app_length.
Qed.

Lemma lines_of_one_line content : Forall one_line (lines_of content).
Proof.
  unfold lines_of. pose proof (Split_sNotIn (ascii_of_nat 10) content) as H. case_decide; [|done]. by apply Forall_take.
Qed.

Lemma trim_one_line s : one_line s -> one_line (bytes_TrimSpace s).
Proof.
  intros Hs. unfold bytes_TrimSpace. set (l := trim_left_fuel _ s). assert (one_line l) as Hl.
  { subst l. generalize (String.length s). intros fuel. revert s Hs. induction fuel as [|fuel IH]; intros s Hs; cbn [trim_left_fuel]; [done|].
    destruct (leading_space s); [|done]. by apply IH, sNotIn_sdrop. }
  clearbody l. generalize (String.length l). intros fuel. revert l Hl. induction fuel as [|fuel IH]; intros l Hl; cbn [trim_right_fuel]; [done|].
  destruct (trailing_space l); [|done]. by apply IH, sNotIn_stake.
Qed.

(** The requests of a file: its lines without the blanks around them, and without blank lines. *)
Definition payload (lines : list string) : list string := filter (fun l => l <> "") (bytes_TrimSpace <$> lines).

Lemma payload_cons line lines :
  payload (line :: lines) = if decide (bytes_TrimSpace line = "") then payload lines else bytes_TrimSpace line :: payload lines.
Proof. unfold payload. cbn. case_decide; by case_decide. Qed.

Lemma payload_one_line lines : Forall one_line lines -> Forall one_line (payload lines).
Proof.
  intros H. induction H as [|l ls Hl Hls IH]; [done|]. rewrite payload_cons. case_decide; [done|].
  apply Forall_cons_iff. split; [by apply trim_one_line|done].
Qed.

(** ** Validation *)

Section validation.
Context {LJ : LineJson}.

Lemma validate_lines_spec n lines :
  validate_lines n lines = None <->
  Forall (fun l => line_error l = None) (payload lines) /\ n + Z.of_nat (length (payload lines)) <= Z.max max_lines n.
Proof.
  revert n. induction lines as [|line lines IH]; intros n; cbn [validate_lines].
  - cbn. split; [|done]. intros _. split; [done|lia].
  - rewrite payload_cons. case_decide as He; [apply IH|]. cbn [length]. rewrite Forall_cons_iff.
    case_decide as Hn; [split; [done|]; lia|].
    destruct (line_error (bytes_TrimSpace line)) as [e|]; [split; [done|naive_solver]|]. rewrite IH. unfold max_lines in *.
    split; intros [H1 H2]; (split; [naive_solver|lia]).
Qed.
End validation.

(** ** Object paths *)

Definition plain (e : string) : Prop := e <> "" /\ e <> "." /\ e <> ".." /\ sNotIn "/" e.

Lemma plain_no_slash es : Forall plain es -> Forall (sNotIn "/") es.
Proof. intros H. eapply Forall_impl; [exact H|]. by intros e (_ & _ & _ & ?). Qed.

Lemma clean_plain rooted acc es : Forall plain es -> clean_elements rooted acc es = reverse es ++ acc.
Proof.
  intros H. revert acc. induction H as [|e es (H1 & H2 & H3 & _) _ IH]; intros acc; cbn [clean_elements]; [done|].
  rewrite decide_False by by intros [?|?]. rewrite decide_False by done. rewrite IH, reverse_cons. by rewrite <- app_assoc.
Qed.

Lemma Join_head_plain es : es <> [] -> Forall plain es -> HasPrefix (Join es "/") "/" = false /\ Join es "/" <> "".
Proof.
  intros Hne H. destruct H as [|e es (H1 & _ & _ & H4) _]; [done|]. destruct e as [|d e]; [done|]. destruct H4 as [Hd _].
  assert (exists t, Join (String d e :: es) "/" = String d t) as [t ->] by (destruct es; eexists; cbn; reflexivity).
  split; [|done]. unfold HasPrefix. cbn [String.prefix]. by destruct (Ascii.ascii_dec "/" d) as [E|]; [destruct Hd|].
Qed.

Lemma path_Clean_plain es : es <> [] -> Forall plain es -> path_Clean (Join es "/") = Join es "/".
Proof.
  intros Hne H. unfold path_Clean. destruct (Join_head_plain es Hne H) as [-> Hb].
  rewrite Split_Join by (done || by apply plain_no_slash). rewrite clean_plain by done. rewrite app_nil_r, reverse_involutive.
  by rewrite decide_False.
Qed.

(** A prefix of plain elements (or none) followed by plain elements. *)
Lemma path_Join_plain ps es : Forall plain ps -> Forall plain es -> es <> [] -> path_Join (Join ps "/" :: es) = Join (ps ++ es) "/".
Proof.
  intros Hps Hes Hne. unfold path_Join.
  assert (filter (fun e => e <> "") es = es) as Hf.
  { clear Hne. induction Hes as [|e es (He & _) _ IH]; [done|]. by rewrite filter_cons_True, IH. }
  destruct ps as [|p ps].
  - rewrite filter_cons_False by by intros []. rewrite Hf. destruct es; [done|]. by apply path_Clean_plain.
  - destruct (Join_head_plain (p :: ps)) as [_ Hj]; [done..|]. rewrite filter_cons_True by done. rewrite Hf.
    replace (Join (Join (p :: ps) "/" :: es) "/") with (Join ((p :: ps) ++ es) "/").
    + apply path_Clean_plain; [done|by apply Forall_app].
    + rewrite Join_app by done. by rewrite (Join_cons (Join (p :: ps) "/") es).
Qed.

Lemma Join_inj es es' : es <> [] -> es' <> [] -> Forall plain es -> Forall plain es' -> Join es "/" = Join es' "/" -> es = es'.
Proof.
  intros H1 H2 P1 P2 H. rewrite <- (Split_Join "/" es), <- (Split_Join "/" es') by (done || by apply plain_no_slash). by rewrite H.
Qed.

(** ** Shards

    [cut k] is the code's loop without its effects. *)

Fixpoint cut (k : Z) (current lines : list string) : list (list string) :=
  match lines with
  | [] => if decide (current = []) then [] else [current]
  | line :: lines =>
      if bool_decide (k <= Z.of_nat (length (current ++ [line]))) then (current ++ [line]) :: cut k [] lines
      else cut k (current ++ [line]) lines
  end.

Lemma cut_concat k current lines : concat (cut k current lines) = current ++ lines.
Proof.
  revert current. induction lines as [|line lines IH]; intros current; cbn [cut].
  - case_decide; subst; [done|]. cbn. by rewrite !app_nil_r.
  - case_bool_decide; [cbn [concat]; rewrite IH; by rewrite <- app_assoc|]. rewrite IH. by rewrite <- app_assoc.
Qed.

(** Every shard is full but the last, which is not empty. *)
Definition full (k : Z) (shard : list string) : Prop := Z.of_nat (length shard) = Z.max 1 k.

Lemma cut_sizes k current lines :
  Z.of_nat (length current) < Z.max 1 k ->
  Forall (fun s => 1 <= Z.of_nat (length s) <= Z.max 1 k) (cut k current lines) /\
  forall s ss, cut k current lines = ss ++ [s] -> Forall (full k) ss.
Proof.
  revert current. induction lines as [|line lines IH]; intros current Hc; cbn [cut].
  - case_decide as Hd; [split; [done|]; by intros s []|]. destruct current as [|c current]; [done|]. cbn [length] in Hc. split.
    + apply Forall_cons_iff. split; [cbn [length]; lia|done].
    + intros s [|s' ss]; [done|]. cbn. intros [= _ H]. by destruct ss.
  - rewrite length_app. cbn [length]. case_bool_decide as Hk.
    + destruct (IH []) as [I1 I2]; [cbn; lia|]. assert (full k (current ++ [line])) as Hf by (unfold full; rewrite length_app; cbn; lia).
      split; [apply Forall_cons_iff; split; [unfold full in Hf; lia|done]|].
      intros s [|s' ss]; [done|]. cbn. intros [= <- H]. apply Forall_cons_iff. split; [done|]. by apply (I2 s).
    + apply IH. rewrite length_app. cbn [length]. lia.
Qed.

(** The number of shards is the quotient rounded up. *)
Lemma cut_count k lines :
  Z.of_nat (length (cut k [] lines)) = (Z.of_nat (length lines) + Z.max 1 k - 1) / Z.max 1 k.
Proof.
  destruct (cut_sizes k [] lines) as [H1 H2]; [cbn; lia|]. pose proof (cut_concat k [] lines) as Hc. cbn in Hc. revert H1 H2 Hc.
  generalize (cut k [] lines). intros cs H1 H2 <-. destruct cs as [|s ss _] using rev_ind; [cbn; symmetry; apply Z.div_small; lia|].
  specialize (H2 s ss eq_refl). apply Forall_app in H1 as [_ [H1 _]%Forall_cons_iff].
  assert (Z.of_nat (length (concat ss)) = Z.of_nat (length ss) * Z.max 1 k) as Hl.
  { clear -H2. induction H2 as [|x l Hx _ IH]; [done|]. cbn [concat length]. rewrite length_app. unfold full in Hx. lia. }
  rewrite concat_app, !length_app. cbn [concat length]. rewrite app_nil_r. apply (Z.div_unique _ _ _ (Z.of_nat (length s) - 1)); [lia|]. rewrite !Nat2Z.inj_add, Hl. cbn [length]. lia.
Qed.
