(* ===== verification/BatchView.v ===== *)
(** * What the machine shows of one task

    Triples for runs of programs on [BatchRun.machine] at a fixed time, stated on the
    keys of one batch task. [views db V] says what each key of the task holds. *)

From stdpp Require Import base gmap sets list strings numbers.
From S2P Require Import Prelude GoStrings Types Programs Effects RedisSem BatchStore BatchOss BatchReactor BatchRun.

Local Open Scope Z_scope.

(** The keys of one task, and the sets and files that it shares with others. *)
Inductive bkey :=
  | KTask | KTaskLock | KShards (st : ShardStatus) | KShard (sid : string) | KShardLock (sid : string)
  | KTasks (s : BatchTaskStatus) | KFile (f : string) | KFiles.

#[export] Instance bkey_eq_dec : EqDecision bkey.
Proof. solve_decision. Defined.

Section view.
Context {J : Json} (u : string) (now : Z) (backend : http_request -> result (Z * result string)).

Definition task_id : string := "batch_" +:+ u.

Definition render (k : bkey) : string :=
  match k with
  | KTask => getTaskKey task_id
  | KTaskLock => getTaskLockKey task_id
  | KShards st => getShardSetKey task_id st
  | KShard sid => getShardKey task_id sid
  | KShardLock sid => getShardLockKey task_id sid
  | KTasks s => getTaskSetKey s
  | KFile f => getFileKey f
  | KFiles => getFileSetKey
  end.

Lemma append_longer (s t : string) : t <> "" -> s <> s +:+ t.
Proof.
  intros Ht H. apply (f_equal String.length) in H. rewrite slength_app in H. destruct t; [done|]. cbn in H. lia.
Qed.

Lemma render_inj k k' : render k = render k' -> k = k'.
Proof.
  unfold render, getTaskKey, getTaskLockKey, getShardSetKey, getShardKey, getShardLockKey, getTaskSetKey, getFileKey, getFileSetKey, task_id.
  destruct k, k'; cbn; intros H; simplify_eq; try done.
  all: try (symmetry in H; by apply append_longer in H); try (by apply append_longer in H).
  all: f_equal; by repeat (apply (inj (String.append _)) in H; simplify_eq/=).
Qed.

Implicit Types V : bkey -> option rvalue.

Definition upd (k : bkey) (v : option rvalue) V (k' : bkey) : option rvalue := if decide (k' = k) then v else V k'.

Definition views (db : keyspace) V : Prop := forall k, value now db (render k) = V k.

Lemma value_insert_ne k k' v db : k <> k' -> value now (<[render k := v]> db) (render k') = value now db (render k').
Proof. intros Hk. unfold value, live. rewrite lookup_insert_ne; [done|]. by intros ?%render_inj. Qed.

Lemma value_delete_ne k k' db : k <> k' -> value now (delete (render k) db) (render k') = value now db (render k').
Proof. intros Hk. unfold value, live. rewrite lookup_delete_ne; [done|]. by intros ?%render_inj. Qed.

Lemma views_delete k db V : views db V -> views (delete (render k) db) (upd k None V).
Proof.
  intros Hv k'. unfold upd. case_decide as E; [|rewrite value_delete_ne by done; apply Hv].
  subst. unfold value, live. by rewrite lookup_delete_eq.
Qed.

Lemma views_insert k v e db V :
  (match e with Some e => now < e | None => True end) -> views db V -> views (<[render k := (v, e)]> db) (upd k (Some v) V).
Proof.
  intros He Hv k'. unfold upd. case_decide as E; [|rewrite value_insert_ne by done; apply Hv].
  subst. unfold value, live. rewrite lookup_insert_eq. destruct e as [e|]; [|done]. rewrite bool_decide_eq_false_2 by lia. done.
Qed.

Lemma expiry_later db key : match expiry now db key with Some e => now < e | None => True end.
Proof.
  unfold expiry, live. destruct (db !! key) as [[v [e|]]|]; cbn; [|done..]. case_bool_decide; cbn; [done|lia].
Qed.

(** Values of sets and hashes; a missing key is an empty one. *)
Definition set_view (v : option rvalue) (s : gset string) : Prop := v = Some (RSet s) \/ v = None /\ s = ∅.
Definition hash_view (v : option rvalue) (h : gmap string string) : Prop := v = Some (RHash h) \/ v = None /\ h = ∅.
Definition set_val (s : gset string) : option rvalue := if decide (s = ∅) then None else Some (RSet s).

Lemma set_view_val s : set_view (set_val s) s.
Proof. unfold set_view, set_val. case_decide; auto. Qed.

Lemma views_put_set k s db V : views db V -> views (put_set now (render k) s db) (upd k (set_val s) V).
Proof.
  intros Hv. unfold put_set, set_val. case_decide; [by apply views_delete|]. apply views_insert; [apply expiry_later|done].
Qed.

Lemma set_at_view db V k s : views db V -> set_view (V k) s -> set_at now db (render k) = s.
Proof. intros Hv Hs. unfold set_at. rewrite Hv. by destruct Hs as [->|[-> ->]]. Qed.

Lemma hash_at_view db V k h : views db V -> hash_view (V k) h -> hash_at now db (render k) = h.
Proof. intros Hv Hs. unfold hash_at. rewrite Hv. by destruct Hs as [->|[-> ->]]. Qed.

(** ** Calls *)

Definition calls V {X} (c : call X) (x : X) V' : Prop :=
  forall db, views db V -> wrong_type c now db = false /\ (call_exec c now db).1 = x /\ views (call_exec c now db).2 V'.

Lemma right_set {X} (c : call X) V k s db :
  wants c = Some (render k, KSet) -> set_view (V k) s -> views db V -> wrong_type c now db = false.
Proof. intros Hw Hs Hv. unfold wrong_type. rewrite Hw, Hv. by destruct Hs as [->|[-> ->]]. Qed.

Lemma right_hash {X} (c : call X) V k h db :
  wants c = Some (render k, KHash) -> hash_view (V k) h -> views db V -> wrong_type c now db = false.
Proof. intros Hw Hs Hv. unfold wrong_type. rewrite Hw, Hv. by destruct Hs as [->|[-> ->]]. Qed.

Lemma calls_hset V k fields h : hash_view (V k) h -> calls V (HSET (render k) fields) tt (upd k (Some (RHash (fields ∪ h))) V).
Proof.
  intros Hh db Hv. split; [by eapply right_hash|]. split; [done|]. cbn [call_exec snd]. rewrite (hash_at_view db V k h) by done.
  apply views_insert; [apply expiry_later|done].
Qed.

Lemma calls_hget V k h f : hash_view (V k) h -> calls V (HGET (render k) f) (h !! f) V.
Proof. intros Hh db Hv. split; [by eapply right_hash|]. cbn [call_exec fst snd]. by rewrite (hash_at_view db V k h). Qed.

Lemma calls_hgetall V k h : hash_view (V k) h -> calls V (HGETALL (render k)) h V.
Proof. intros Hh db Hv. split; [by eapply right_hash|]. cbn [call_exec fst snd]. by rewrite (hash_at_view db V k h). Qed.

Lemma calls_sadd V k s x :
  set_view (V k) s -> calls V (SADD (render k) x) (if decide (x ∈ s) then 0 else 1) (upd k (set_val ({[x]} ∪ s)) V).
Proof.
  intros Hs db Hv. split; [by eapply right_set|]. cbn [call_exec fst snd]. rewrite (set_at_view db V k s) by done.
  split; [done|]. by apply views_put_set.
Qed.

Lemma calls_srem V k s x :
  set_view (V k) s -> calls V (SREM (render k) x) (if decide (x ∈ s) then 1 else 0) (upd k (set_val (s ∖ {[x]})) V).
Proof.
  intros Hs db Hv. split; [by eapply right_set|]. cbn [call_exec fst snd]. rewrite (set_at_view db V k s) by done.
  split; [done|]. by apply views_put_set.
Qed.

Lemma calls_smembers V k s : set_view (V k) s -> calls V (SMEMBERS (render k)) (elements s) V.
Proof. intros Hs db Hv. split; [by eapply right_set|]. cbn [call_exec fst snd]. by rewrite (set_at_view db V k s). Qed.

Lemma calls_sismember V k s x : set_view (V k) s -> calls V (SISMEMBER (render k) x) (bool_decide (x ∈ s)) V.
Proof. intros Hs db Hv. split; [by eapply right_set|]. cbn [call_exec fst snd]. by rewrite (set_at_view db V k s). Qed.

Lemma calls_srandmember V k s : set_view (V k) s -> calls V (SRANDMEMBER (render k)) (take 1 (elements s)) V.
Proof. intros Hs db Hv. split; [by eapply right_set|]. cbn [call_exec fst snd]. by rewrite (set_at_view db V k s). Qed.

Lemma calls_setnx V k v n : 0 < n -> V k = None -> calls V (SETNX (render k) v n) true (upd k (Some (RString v)) V).
Proof.
  intros Hn Hk db Hv. split; [done|]. cbn [call_exec]. rewrite Hv, Hk. cbn. split; [done|]. apply views_insert; [unfold seconds; lia|done].
Qed.

Lemma calls_get V k v : V k = Some (RString v) -> calls V (GET (render k)) (Some v) V.
Proof.
  intros Hk db Hv. unfold wrong_type, string_at. cbn [wants call_exec fst snd]. unfold string_at. by rewrite Hv, Hk.
Qed.

Lemma calls_del1 V k v : V k = Some v -> calls V (DEL [render k]) 1 (upd k None V).
Proof.
  intros Hk db Hv. split; [done|]. cbn [call_exec fst snd]. split.
  - replace (remove_dups [render k]) with [render k] by done. rewrite filter_cons_True; [done|]. rewrite Hv, Hk. by eexists.
  - intros k'. unfold upd. rewrite <- Hv. unfold value, live. rewrite map_lookup_filter.
    case_decide as E; [subst|].
    + destruct (db !! render k); [|done]. cbn. rewrite option_guard_False; [done|]. intros H. apply H. by left.
    + destruct (db !! render k') as [[v' e]|]; [|done]. cbn. rewrite option_guard_True; [done|].
      intros [H|H]%elem_of_cons; [by apply render_inj in H|by apply not_elem_of_nil in H].
Qed.

(** ** Scripts *)

Definition scripts V {A} (s : lua A) (r : result A) V' : Prop :=
  forall db, views db V -> exists db', lua_exec s now db = (r, db') /\ views db' V'.

Lemma scripts_ret {A} V (a : A) : scripts V (LRet a) (Ok a) V.
Proof. intros db Hv. by exists db. Qed.

Lemma scripts_call {A X} V (c : call X) x V1 (k : X -> lua A) r V2 :
  calls V c x V1 -> scripts V1 (k x) r V2 -> scripts V (LCall c k) r V2.
Proof.
  intros Hc Hk db Hv. destruct (Hc db Hv) as (Hw & Hx & Hv1). cbn. rewrite Hw.
  destruct (call_exec c now db) as [y db1]. cbn in *. subst. by apply Hk.
Qed.

Lemma views_same db V V' : (forall k, V k = V' k) -> views db V -> views db V'.
Proof. intros H Hv k. by rewrite Hv. Qed.

Lemma scripts_same {A} V (s : lua A) r V1 V2 : (forall k, V1 k = V2 k) -> scripts V s r V1 -> scripts V s r V2.
Proof. intros H Hs db Hv. destruct (Hs db Hv) as (db' & E & Hv'). exists db'. split; [done|by eapply views_same]. Qed.

Definition moved (from to : bkey) (a b : gset string) (x : string) V : bkey -> option rvalue :=
  upd from (set_val (a ∖ {[x]})) (upd to (set_val ({[x]} ∪ b)) V).

Lemma scripts_move {A} V from to a b x (rest : lua A) r V' :
  from <> to -> set_view (V from) a -> set_view (V to) b -> x ∈ a ->
  scripts (moved from to a b x V) rest r V' -> scripts V (move_script (render from) (render to) x rest) r V'.
Proof.
  intros Hne Ha Hb Hx Hr. eapply scripts_call; [by apply calls_sadd|]. cbv beta.
  eapply scripts_call; [apply (calls_srem _ from a); unfold upd; by rewrite decide_False|].
  rewrite (decide_True (P := x ∈ a)) by done. exact Hr.
Qed.

Lemma scripts_set_field {A} V k h name v (rest : lua A) r V' :
  hash_view (V k) h -> scripts (upd k (Some (RHash (<[name := v]> h))) V) rest r V' -> scripts V (set_field (render k) name v rest) r V'.
Proof.
  intros Hh Hr. eapply scripts_call; [by apply calls_hset|]. by rewrite <- insert_union_singleton_l.
Qed.

(** ** Programs *)

Record shown := mkShown { sV : bkey -> option rvalue; sO : gmap string string; sN : nat }.

Definition looks (m : machine) (w : shown) : Prop :=
  m_now m = now /\ views (m_db m) (sV w) /\ m_objects m = sO w /\ m_next m = sN w.

Definition triple {A} (w : shown) (p : prog A) (r : A) (w' : shown) : Prop :=
  forall m, looks m w -> exists m', run (serve backend) p m = (Done r, m') /\ looks m' w'.

Lemma t_ret {A} w (a : A) : triple w (Ret a) a w.
Proof. intros m Hm. by exists m. Qed.

Lemma t_bind {A B} w p (a : A) w1 (f : A -> prog B) b w2 :
  triple w p a w1 -> triple w1 (f a) b w2 -> triple w (p ≫= f) b w2.
Proof.
  intros Hp Hf m Hm. rewrite run_bind. destruct (Hp m Hm) as (m1 & -> & Hm1). by apply Hf.
Qed.

Lemma t_try {A B} w p (a : A) w1 (f : A -> prog (result B)) b w2 :
  triple w p (Ok a) w1 -> triple w1 (f a) b w2 -> triple w (try_bind p f) b w2.
Proof. intros Hp Hf. by eapply t_bind; [exact Hp|]. Qed.

Lemma t_wrap {A} w what (p : prog (result A)) a w1 : triple w p (Ok a) w1 -> triple w (wrap_err what p) (Ok a) w1.
Proof. intros Hp. eapply t_bind; [exact Hp|apply t_ret]. Qed.

Lemma t_void {X} w (p : prog (result X)) x w1 : triple w p (Ok x) w1 -> triple w (void p) (Ok tt) w1.
Proof. intros Hp. eapply t_try; [exact Hp|apply t_ret]. Qed.

Lemma t_finally {A B} w (p : prog A) a w1 (q : prog B) b w2 :
  triple w p a w1 -> triple w1 q b w2 -> triple w (finally p q) a w2.
Proof.
  intros Hp Hq m Hm. rewrite run_finally. destruct (Hp m Hm) as (m1 & -> & Hm1). destruct (Hq m1 Hm1) as (m2 & -> & Hm2). by exists m2.
Qed.

Lemma t_same {A} w (p : prog A) a w1 w2 :
  (forall k, sV w1 k = sV w2 k) -> sO w1 = sO w2 -> sN w1 = sN w2 -> triple w p a w1 -> triple w p a w2.
Proof.
  intros HV HO HN Hp m Hm. destruct (Hp m Hm) as (m1 & E & H1 & H2 & H3 & H4). exists m1. split; [done|].
  split; [done|]. split; [by eapply views_same|]. by rewrite H3, H4.
Qed.

Lemma t_redis {X} w (c : call X) x V' :
  calls (sV w) c x V' -> triple w (perform (Redis c)) (Ok x) (mkShown V' (sO w) (sN w)).
Proof.
  intros Hc m (H1 & H2 & H3 & H4). rewrite run_perform. cbn [serve]. unfold redis_exec. rewrite H1.
  destruct (Hc _ H2) as (Hw & Hx & Hv). rewrite Hw. destruct (call_exec c now (m_db m)) as [y db]. cbn in *. subst.
  eexists. split; [reflexivity|]. by split.
Qed.

Lemma t_eval {X} w (s : lua X) x V' :
  scripts (sV w) s (Ok x) V' -> triple w (perform (Eval s)) (Ok x) (mkShown V' (sO w) (sN w)).
Proof.
  intros Hc m (H1 & H2 & H3 & H4). rewrite run_perform. cbn. rewrite H1. destruct (Hc _ H2) as (db' & -> & Hv). cbn.
  eexists. split; [done|]. split; [exact H1|]. by split.
Qed.

Lemma t_now w : triple w now_unix (Unix now) w.
Proof. intros m Hm. exists m. split; [|done]. destruct Hm as (H1 & _). cbn. by rewrite H1. Qed.

Lemma t_poll w : triple w (perform Poll) false w.
Proof. intros m Hm. by exists m. Qed.

Lemma t_put w p c : triple w (perform (OssPut p c)) (Ok tt) (mkShown (sV w) (<[p := c]> (sO w)) (sN w)).
Proof. intros m (H1 & H2 & <- & H4). eexists. split; [reflexivity|]. by repeat split. Qed.

Lemma t_get w p c : sO w !! p = Some c -> triple w (perform (OssGet p)) (Ok c) w.
Proof. intros Hp m Hm. exists m. split; [|done]. destruct Hm as (_ & _ & H3 & _). cbn. by rewrite H3, Hp. Qed.

Lemma t_uuid w : triple w (perform Uuid) (uuid (sN w)) (mkShown (sV w) (sO w) (S (sN w))).
Proof. intros m (H1 & H2 & H3 & <-). eexists. split; [reflexivity|]. by repeat split. Qed.

(** Deleting at most 1000 objects takes one request. *)
Lemma t_delete w fuel ps :
  (0 < fuel)%nat -> (length ps <= maxObjectsPerRequest)%nat ->
  triple w (DeleteFiles fuel ps) (Ok tt) (mkShown (sV w) (filter (fun kv => kv.1 ∉ ps) (sO w)) (sN w)).
Proof.
  intros Hf Hl m (H1 & H2 & <- & H4). destruct fuel as [|fuel]; [lia|]. destruct ps as [|p ps].
  - exists m. split; [done|]. split; [done|]. split; [done|]. split; [|done]. cbn. symmetry. apply map_filter_id. intros k v _. apply not_elem_of_nil.
  - cbn [DeleteFiles]. rewrite take_ge by done. eexists. unfold try_bind. rewrite run_bind, run_perform. cbn [serve fst snd].
    rewrite drop_ge by done. split; [by destruct fuel|]. by repeat split.
Qed.
End view.
