(* ===== verification/BatchOps.v ===== *)
(** * The store's operations on the machine

    What each operation of the store and each step of the reactors does to the keys and
    objects of one task, as triples of [BatchView]. *)

From stdpp Require Import base gmap sets list strings numbers pretty.
From S2P Require Import Prelude GoStrings Types Programs Effects RedisSem BatchStore BatchOss BatchReactor BatchRun BatchFiles BatchView.

Local Open Scope Z_scope.

Definition withV (w : shown) (V : bkey -> option rvalue) : shown := mkShown V (sO w) (sN w).
Definition withO (w : shown) (O : gmap string string) : shown := mkShown (sV w) O (sN w).

Lemma upd_eq k v V : upd k v V k = v.
Proof. unfold upd. by rewrite decide_True. Qed.
Lemma upd_ne k k' v V : k' <> k -> upd k v V k' = V k'.
Proof. intros H. unfold upd. by rewrite decide_False. Qed.

(** Looks through updates of other keys. *)
Ltac looks := repeat first [rewrite upd_eq | rewrite upd_ne by (congruence || done)].

Section ops.
Context {J : Json} {LJ : LineJson} (u : string) (now : Z) (backend : http_request -> result (Z * result string)).

#[local] Abbreviation triple := (triple u now backend).
#[local] Abbreviation task := (task_id u).

Lemma t_random w k what s x rest :
  set_view (sV w k) s -> elements s = x :: rest -> triple w (random_member (render u k) what) (Ok x) w.
Proof.
  intros Hs He. eapply t_try; [apply t_redis; by apply calls_srandmember|]. rewrite He. destruct w. apply t_ret.
Qed.

Lemma t_random_none w k what :
  set_view (sV w k) ∅ -> triple w (random_member (render u k) what) (Err (ErrorOther what)) w.
Proof.
  intros Hs. eapply t_try; [apply t_redis; by apply calls_srandmember|]. rewrite elements_empty. destruct w. apply t_ret.
Qed.

Lemma t_members w k s : set_view (sV w k) s -> triple w (perform (Redis (SMEMBERS (render u k)))) (Ok (elements s)) w.
Proof. intros Hs. destruct w. by apply t_redis, calls_smembers. Qed.

Lemma t_ismember w k s x : set_view (sV w k) s -> triple w (perform (Redis (SISMEMBER (render u k) x))) (Ok (bool_decide (x ∈ s))) w.
Proof. intros Hs. destruct w. by apply t_redis, calls_sismember. Qed.

(** *** Locks *)

Lemma scripts_release V k i : V k = Some (RString i) -> scripts u now V (release_script (render u k) i) (Ok 1) (upd k None V).
Proof.
  intros Hk. eapply scripts_call; [by apply calls_get|]. cbv beta match. rewrite decide_True by done.
  eapply scripts_call; [by eapply calls_del1|]. apply scripts_ret.
Qed.

Lemma t_lock w k i n : 0 < n -> sV w k = None ->
  triple w (perform (Redis (SETNX (render u k) i n))) (Ok true) (withV w (upd k (Some (RString i)) (sV w))).
Proof. intros Hn Hk. by apply t_redis, calls_setnx. Qed.

Lemma t_unlock w k i : sV w k = Some (RString i) ->
  triple w (void (perform (Eval (release_script (render u k) i)))) (Ok tt) (withV w (upd k None (sV w))).
Proof. intros Hk. eapply t_void, t_eval. by apply scripts_release. Qed.

(** A program under a lock that was free: the lock is free again. *)
Lemma t_locked {A} w k i (p : prog A) a w1 :
  sV w k = None -> sV w1 k = Some (RString i) ->
  triple (withV w (upd k (Some (RString i)) (sV w))) p a w1 ->
  triple (withV w (upd k (Some (RString i)) (sV w))) (finally p (void (perform (Eval (release_script (render u k) i))))) a
    (withV w1 (upd k None (sV w1))).
Proof. intros Hk H1 Hp. eapply t_finally; [exact Hp|]. by apply t_unlock. Qed.

(** *** Moves *)

Lemma t_move w from to a b x :
  from <> to -> set_view (sV w from) a -> set_view (sV w to) b -> x ∈ a ->
  triple w (void (perform (Eval (move_script (render u from) (render u to) x (LRet 1))))) (Ok tt) (withV w (moved from to a b x (sV w))).
Proof. intros. eapply t_void, t_eval. eapply scripts_move; [done..|]. apply scripts_ret. Qed.

(** The fields that a move with its status change may write. *)
Definition stamps : list string :=
  ["status"; "updated_at"; "in_progress_at"; "finalizing_at"; "completed_at"; "failed_at"; "expired_at"; "cancelling_at"; "cancelled_at"].

Definition restamped (to : string) (h h' : gmap string string) : Prop :=
  (forall f, f ∉ stamps -> h' !! f = h !! f) /\ h' !! "status" = Some to /\ h' !! "updated_at" = Some (Itoa (Unix now)).

Lemma restamped_step to h h' name v :
  restamped to h h' -> name ∈ stamps -> name <> "status" -> name <> "updated_at" -> restamped to h (<[name := v]> h').
Proof.
  intros (H1 & H2 & H3) Hn Hs Hu. split; [|by rewrite !lookup_insert_ne].
  intros f Hf. rewrite lookup_insert_ne; [by apply H1|]. by intros ->.
Qed.

Lemma restamped_base to h : restamped to h (<["updated_at" := Itoa (Unix now)]> (<["status" := to]> h)).
Proof.
  split; [|by rewrite lookup_insert_ne, !lookup_insert_eq by done].
  intros f Hf. rewrite !lookup_insert_ne; [done|..]; intros <-; apply Hf; refine (bool_decide_unpack _ _); vm_compute; exact I.
Qed.

Lemma scripts_stamp V h h' name to :
  V KTask = Some (RHash h') -> restamped to h h' -> name ∈ stamps -> name <> "status" -> name <> "updated_at" ->
  exists h'', scripts u now V (set_field (getTaskKey task) name (Itoa (Unix now)) (LRet 1)) (Ok 1) (upd KTask (Some (RHash h'')) V) /\
    restamped to h h''.
Proof.
  intros HV Hr Hn H1 H2. exists (<[name := Itoa (Unix now)]> h'). split; [|by apply restamped_step].
  apply (scripts_set_field u now V KTask h'); [by left|apply scripts_ret].
Qed.

Lemma upd_upd k v v' V k' : upd k v (upd k v' V) k' = upd k v V k'.
Proof. unfold upd. by case_decide. Qed.

(** The end of the script, after the status and the update time. *)
Definition time_script (to t : string) : lua Z :=
  if decide (to = "in_progress") then
    LCall (HGET (getTaskKey task) "in_progress_at") (fun v =>
      match v with None => set_field (getTaskKey task) "in_progress_at" t (LRet 1) | Some _ => LRet 1 end)
  else if decide (to = "finalizing") then set_field (getTaskKey task) "finalizing_at" t (LRet 1)
  else if decide (to = "completed") then set_field (getTaskKey task) "completed_at" t (LRet 1)
  else if decide (to = "failed") then set_field (getTaskKey task) "failed_at" t (LRet 1)
  else if decide (to = "expired") then set_field (getTaskKey task) "expired_at" t (LRet 1)
  else if decide (to = "cancelling") then set_field (getTaskKey task) "cancelling_at" t (LRet 1)
  else if decide (to = "cancelled") then set_field (getTaskKey task) "cancelled_at" t (LRet 1)
  else LRet 1.

Lemma scripts_time V h h2 to :
  V KTask = Some (RHash h2) -> restamped to h h2 ->
  exists h', restamped to h h' /\ scripts u now V (time_script to (Itoa (Unix now))) (Ok 1) (upd KTask (Some (RHash h')) V).
Proof.
  intros HV Hr.
  assert (exists h', restamped to h h' /\ scripts u now V (LRet 1) (Ok 1) (upd KTask (Some (RHash h')) V)) as Hret.
  { exists h2. split; [done|]. eapply scripts_same; [|apply scripts_ret]. intros k. unfold upd. by case_decide; subst. }
  assert (forall name, name ∈ stamps -> name <> "status" -> name <> "updated_at" ->
    exists h', restamped to h h' /\
      scripts u now V (set_field (getTaskKey task) name (Itoa (Unix now)) (LRet 1)) (Ok 1) (upd KTask (Some (RHash h')) V)) as Hset.
  { intros name H1 H2 H3. destruct (scripts_stamp V h h2 name to HV Hr H1 H2 H3) as (h' & Hs & Hr'). by exists h'. }
  unfold time_script. repeat case_decide; try (apply Hset; [refine (bool_decide_unpack _ _); vm_compute; exact I|done..]); [|done].
  destruct (h2 !! "in_progress_at") as [v|] eqn:E.
  - destruct Hret as (h' & Hr' & Hs). exists h'. split; [done|].
    eapply scripts_call; [apply (calls_hget u now V KTask h2); by left|]. by rewrite E.
  - destruct (Hset "in_progress_at") as (h' & Hr' & Hs); [refine (bool_decide_unpack _ _); vm_compute; exact I|done..|].
    exists h'. split; [done|]. eapply scripts_call; [apply (calls_hget u now V KTask h2); by left|]. by rewrite E.
Qed.

(** A move along the status sets with the record. *)
Lemma t_move_status w from to a b h :
  from <> to -> set_view (sV w (KTasks from)) a -> set_view (sV w (KTasks to)) b -> task ∈ a -> sV w KTask = Some (RHash h) ->
  exists h', restamped to h h' /\
    triple w (MoveTaskAndUpdateStatusAtomically task from to) (Ok tt)
      (withV w (upd KTask (Some (RHash h')) (moved (KTasks from) (KTasks to) a b task (sV w)))).
Proof.
  intros Hne Ha Hb Hin Hh. set (V1 := moved (KTasks from) (KTasks to) a b task (sV w)).
  assert (V1 KTask = Some (RHash h)) as H1 by (unfold V1, moved; by looks).
  set (h2 := <["updated_at" := Itoa (Unix now)]> (<["status" := to]> h)).
  set (V2 := upd KTask (Some (RHash h2)) (upd KTask (Some (RHash (<["status" := to]> h))) V1)).
  destruct (scripts_time V2 h h2 to) as (h' & Hr & Hs); [unfold V2; by looks|apply restamped_base|].
  exists h'. split; [done|]. eapply t_bind; [apply t_now|]. eapply t_void, t_eval.
  apply (scripts_move u now (sV w) (KTasks from) (KTasks to) a b); [congruence|done..|].
  apply (scripts_set_field u now _ KTask h); [by left|].
  apply (scripts_set_field u now _ KTask (<["status" := to]> h)); [by left; looks|].
  eapply scripts_same; [|exact Hs]. intros k. unfold V2. by rewrite !upd_upd.
Qed.

(** *** Records *)

Definition parses (h : gmap string string) (name : string) : Prop := exists z, Atoi (field h name) = Some z.

(** The record of a task with its input file, endpoint and token. *)
Record record_ok (file endpoint : string) (token : option string) (h : gmap string string) : Prop := mkRecordOk {
  ro_file : field h "input_file_id" = file;
  ro_endpoint : field h "endpoint" = endpoint;
  ro_token : opt_string h "token" = token;
  ro_created : parses h "created_at";
  ro_expires : parses h "expires_at";
  ro_updated : parses h "updated_at";
  ro_counts v : opt_string h "request_counts" = Some v -> exists q, unmarshal_counts v = Some q;
  ro_usage : opt_string h "usage" = None
}.

Definition task_like (file endpoint : string) (token : option string) (h : gmap string string) (t : BatchTask) : Prop :=
  t_InputFileID t = file /\ t_Endpoint t = endpoint /\ t_Token t = token /\ t_Status t = field h "status" /\ t_Usage t = None.

Lemma parses_not_empty h name : parses h name -> size h <> 0%nat.
Proof. intros [z Hz] Hs%map_size_empty_inv. subst. done. Qed.

Lemma t_GetTask w h file endpoint token :
  sV w KTask = Some (RHash h) -> record_ok file endpoint token h ->
  exists t, triple w (GetTask task) (Ok t) w /\ task_like file endpoint token h t.
Proof.
  intros Hh Hr. destruct (ro_created _ _ _ _ Hr) as [c Hc], (ro_expires _ _ _ _ Hr) as [e He], (ro_updated _ _ _ _ Hr) as [d Hd].
  assert (exists q, forall w, triple w (parse_json unmarshal_counts "request_counts" (opt_string h "request_counts")) (Ok q) w) as [q Hq].
  { destruct (opt_string h "request_counts") as [v|] eqn:E; [|eexists; intros; apply t_ret].
    destruct (ro_counts _ _ _ _ Hr v E) as [q Hq]. exists (Some q). intros w'. cbn. rewrite Hq. apply t_ret. }
  eexists. split.
  - destruct w as [V O N]. eapply t_try; [apply t_redis, (calls_hgetall u now V KTask h); by left|].
    rewrite decide_False by by eapply parses_not_empty, ro_created.
    unfold parse_int. rewrite Hc, He, Hd, (ro_usage _ _ _ _ Hr).
    do 3 (eapply t_try; [apply t_ret|]). eapply t_try; [apply Hq|]. eapply t_try; [apply t_ret|]. apply t_ret.
  - unfold task_like. cbn. rewrite (ro_file _ _ _ _ Hr), (ro_endpoint _ _ _ _ Hr), (ro_token _ _ _ _ Hr). done.
Qed.

Lemma field_eq h h' name : h' !! name = h !! name -> field h' name = field h name /\ opt_string h' name = opt_string h name.
Proof. intros H. unfold field, opt_string. by rewrite H. Qed.

Hypothesis in_range : MinInt64 <= Unix now <= MaxInt64.

Lemma parses_now h name : h !! name = Some (Itoa (Unix now)) -> parses h name.
Proof. intros H. exists (Unix now). unfold field. rewrite H. cbn. by apply Atoi_Itoa. Qed.

Lemma restamped_ok file endpoint token to h h' :
  restamped to h h' -> record_ok file endpoint token h -> record_ok file endpoint token h'.
Proof.
  intros (Hf & _ & Hu) Hr.
  assert (forall name, bool_decide (name ∈ stamps) = false -> field h' name = field h name /\ opt_string h' name = opt_string h name) as F.
  { intros name Hn. apply field_eq, Hf. by apply bool_decide_eq_false in Hn. }
  split.
  - destruct (F "input_file_id") as [-> _]; [done|]. apply Hr.
  - destruct (F "endpoint") as [-> _]; [done|]. apply Hr.
  - destruct (F "token") as [_ ->]; [done|]. apply Hr.
  - unfold parses. destruct (F "created_at") as [-> _]; [done|]. apply Hr.
  - unfold parses. destruct (F "expires_at") as [-> _]; [done|]. apply Hr.
  - by apply parses_now.
  - intros v. destruct (F "request_counts") as [_ ->]; [done|]. apply Hr.
  - destruct (F "usage") as [_ ->]; [done|]. apply Hr.
Qed.

(** JSON of counts can be read back, and is not empty. *)
Hypothesis counts_read : forall q, unmarshal_counts (marshal_counts q) = Some q.
Hypothesis counts_text : forall q, marshal_counts q <> "".

Definition update_fields (t : BatchTask) (updatedAt : Z) : gmap string string :=
  add_times t (<["status" := t_Status t]> (add_json t (add_files t {["updated_at" := Itoa updatedAt]}))).

Lemma lookup_add_opt_ne name name' v fields : name <> name' -> add_opt name v fields !! name' = fields !! name'.
Proof. intros Hn. unfold add_opt. destruct v; [|done]. by rewrite lookup_insert_ne. Qed.

Lemma lookup_add_opt_eq name v fields : fields !! name = None -> add_opt name v fields !! name = v.
Proof. intros Hn. unfold add_opt. destruct v; [by rewrite lookup_insert_eq|done]. Qed.

Ltac look_fields :=
  unfold update_fields, add_times, add_json, add_files;
  repeat first [rewrite lookup_add_opt_ne by done | rewrite lookup_insert_ne by done | rewrite lookup_insert_eq].

Lemma update_fields_other t z name :
  name ∈ ["input_file_id"; "endpoint"; "token"; "created_at"; "expires_at"] -> update_fields t z !! name = None.
Proof.
  intros Hn. repeat (apply elem_of_cons in Hn as [->|Hn]; [look_fields; by rewrite lookup_singleton_ne|]).
  by apply not_elem_of_nil in Hn.
Qed.

Lemma update_fields_at t z :
  update_fields t z !! "status" = Some (t_Status t) /\ update_fields t z !! "updated_at" = Some (Itoa z) /\
  update_fields t z !! "request_counts" = marshal_counts <$> t_RequestCounts t /\
  update_fields t z !! "usage" = marshal_usage <$> t_Usage t /\ update_fields t z !! "output_file_id" = t_OutputFileID t /\
  update_fields t z !! "error_file_id" = t_ErrorFileID t.
Proof.
  split_and!.
  - by look_fields.
  - look_fields. by rewrite lookup_singleton_eq.
  - look_fields. apply lookup_add_opt_eq. look_fields. by rewrite lookup_singleton_ne.
  - look_fields. apply lookup_add_opt_eq. look_fields. by rewrite lookup_singleton_ne.
  - look_fields. apply lookup_add_opt_eq. by rewrite lookup_singleton_ne.
  - look_fields. apply lookup_add_opt_eq. look_fields. by rewrite lookup_singleton_ne.
Qed.

Lemma updated_ok file endpoint token h t q :
  record_ok file endpoint token h -> t_RequestCounts t = Some q -> t_Usage t = None ->
  record_ok file endpoint token (update_fields t (Unix now) ∪ h).
Proof.
  intros Hr Hq Hu. destruct (update_fields_at t (Unix now)) as (_ & Eu & Ec & Eg & _). rewrite Hq in Ec. rewrite Hu in Eg.
  assert (forall name, update_fields t (Unix now) !! name = None ->
    field (update_fields t (Unix now) ∪ h) name = field h name /\ opt_string (update_fields t (Unix now) ∪ h) name = opt_string h name) as F.
  { intros name Hn. apply field_eq. by rewrite lookup_union_r. }
  assert (forall name, bool_decide (name ∈ ["input_file_id"; "endpoint"; "token"; "created_at"; "expires_at"]) = true ->
    update_fields t (Unix now) !! name = None) as G by (intros name Hn; apply update_fields_other; by apply bool_decide_eq_true in Hn).
  split.
  - destruct (F "input_file_id") as [-> _]; [by apply G|]. apply Hr.
  - destruct (F "endpoint") as [-> _]; [by apply G|]. apply Hr.
  - destruct (F "token") as [_ ->]; [by apply G|]. apply Hr.
  - unfold parses. destruct (F "created_at") as [-> _]; [by apply G|]. apply Hr.
  - unfold parses. destruct (F "expires_at") as [-> _]; [by apply G|]. apply Hr.
  - apply parses_now. by rewrite (lookup_union_Some_l _ _ _ _ Eu).
  - intros v. unfold opt_string. rewrite (lookup_union_Some_l _ _ _ _ Ec). cbn. rewrite decide_False by done. intros [= <-]. by exists q.
  - destruct (F "usage") as [_ ->]; [done|]. apply Hr.
Qed.

Lemma t_UpdateTaskFields w t h :
  sV w KTask = Some (RHash h) -> t_UpdatedAt t = Some (Unix now) ->
  triple w (UpdateTaskFields task t) (Ok tt) (withV w (upd KTask (Some (RHash (update_fields t (Unix now) ∪ h))) (sV w))).
Proof.
  intros Hh Ht. unfold UpdateTaskFields. rewrite Ht. apply t_redis. apply (calls_hset u now _ KTask). by left.
Qed.

(** *** Shard records *)

Record shard_ok (q : RequestCounts) (h : gmap string string) : Prop := mkShardOk {
  so_created : h !! "created_at" = Some (Itoa (Unix now));
  so_updated : parses h "updated_at";
  so_counts : h !! "request_counts" = Some (marshal_counts q)
}.

Definition shard_fields (s : FileShard) : gmap string string :=
  add_opt "request_counts" (marshal_counts <$> s_RequestCounts s)
    (list_to_map [("id", s_ID s); ("created_at", Itoa (Unix now)); ("updated_at", Itoa (Unix now))]).

Lemma shard_fields_ok s q h : s_RequestCounts s = Some q -> shard_ok q (shard_fields s ∪ h).
Proof.
  intros Hq. unfold shard_fields. rewrite Hq. cbn [fmap option_fmap option_map add_opt]. split.
  - eapply lookup_union_Some_l. rewrite lookup_insert_ne by done. cbn. rewrite lookup_insert_ne by done. apply lookup_insert_eq.
  - apply parses_now. eapply lookup_union_Some_l. rewrite lookup_insert_ne by done. cbn. rewrite !lookup_insert_ne by done. apply lookup_insert_eq.
  - eapply lookup_union_Some_l. apply lookup_insert_eq.
Qed.

Lemma t_put_shard w sid s h :
  hash_view (sV w (KShard sid)) h -> s_CreatedAt s = Some (Unix now) -> s_UpdatedAt s = Some (Unix now) ->
  triple w (CreateOrUpdateFileShard task sid s) (Ok tt) (withV w (upd (KShard sid) (Some (RHash (shard_fields s ∪ h))) (sV w))).
Proof.
  intros Hh Hc Hu. unfold CreateOrUpdateFileShard. rewrite Hc, Hu. apply t_redis. by apply (calls_hset u now _ (KShard sid)).
Qed.

Lemma t_GetFileShard w sid q h :
  sV w (KShard sid) = Some (RHash h) -> shard_ok q h ->
  exists s, triple w (GetFileShard task sid) (Ok s) w /\ s_RequestCounts s = Some q /\ s_CreatedAt s = Some (Unix now).
Proof.
  intros Hh [Hc [d Hd] Hq]. eexists. split.
  - destruct w as [V O N]. eapply t_try; [apply t_redis, (calls_hgetall u now V (KShard sid) h); by left|].
    unfold parse_int. replace (Atoi (field h "created_at")) with (Some (Unix now)) by (unfold field; rewrite Hc; cbn; by rewrite Atoi_Itoa).
    rewrite Hd. do 2 (eapply t_try; [apply t_ret|]).
    unfold opt_string. rewrite Hq. cbn. rewrite decide_False by done. cbn. rewrite counts_read. apply t_ret.
  - done.
Qed.
End ops.
