(* ===== verification/BatchLive.v ===== *)
(** * A batch task that gets through

    On a machine whose services answer, a task with a valid input file is validated, its
    shards are processed, and it is completed with an answer to every request. *)

From Stdlib Require Import Ascii.
From stdpp Require Import base gmap sets list strings numbers pretty.
From S2P Require Import Prelude GoStrings Types Programs Effects RedisSem BatchStore BatchOss BatchReactor BatchRun BatchFiles BatchView BatchOps.

Local Open Scope Z_scope.

(** ** Shard identifiers and paths *)

Definition sid (i : nat) : string := Itoa (Z.of_nat i).

Lemma sid_inj i j : sid i = sid j -> i = j.
Proof. apply uuid_inj. Qed.

Lemma sid_head i : exists c s d, sid i = String c s /\ digit_of c = Some d.
Proof. unfold sid, Itoa. destruct (Z.of_nat i) as [|p|p] eqn:E; [exact (pretty_N_head 0)|exact (pretty_N_head (N.pos p))|lia]. Qed.

Lemma plain_sid i : plain (sid i).
Proof.
  destruct (sid_head i) as (c & s & d & E & Hd). split; [by rewrite E|].
  assert (c <> "."%char) as Hc by by intros ->. split; [rewrite E; congruence|]. split; [rewrite E; congruence|].
  by apply Itoa_sNotIn.
Qed.

Lemma plain_err i : plain ("err_" +:+ sid i).
Proof.
  split; [done|]. split; [done|]. split; [done|]. apply sNotIn_app. split; [by repeat split|]. apply plain_sid.
Qed.

Lemma sid_not_err i j : sid i <> "err_" +:+ sid j.
Proof. destruct (sid_head i) as (c & s & d & E & Hd). rewrite E. intros H. injection H as Hc _. by subst c. Qed.

Lemma plain_input : plain "input".
Proof. by repeat split. Qed.
Lemma plain_output : plain "output".
Proof. by repeat split. Qed.

#[export] Hint Resolve plain_sid plain_err plain_input plain_output Forall_nil_2 Forall_cons_2 : prog.
Ltac plains := solve [auto 8 with prog nocore].

Section paths.
Context (tr : TaskReactor) (ps : list string) (task : string).
Hypothesis prefix_plain : Forall plain ps.
Hypothesis prefix_is : ossPrefix tr = Join ps "/".
Hypothesis task_plain : plain task.

Definition path (es : list string) : string := Join (ps ++ es) "/".

Lemma plain_list es : Forall plain es -> Forall plain (ps ++ es).
Proof. intros H. by apply Forall_app. Qed.

Lemma app_not_nil {A} (l l' : list A) : l' <> [] -> l ++ l' <> [].
Proof. by intros H [_ ?]%app_nil. Qed.

Lemma path_inj es es' : es <> [] -> es' <> [] -> Forall plain es -> Forall plain es' -> path es = path es' -> es = es'.
Proof.
  intros H1 H2 P1 P2 H. apply Join_inj in H; [by apply app_inv_head in H|by apply app_not_nil..|by apply plain_list|by apply plain_list].
Qed.

Lemma file_path f : plain f -> getFileOSSPath tr f = path [f].
Proof. intros Hf. unfold getFileOSSPath. rewrite prefix_is. apply path_Join_plain; [done|plains|done]. Qed.

Lemma input_prefix : getShardFileInputOSSPrefix tr task = path [task; "input"].
Proof. unfold getShardFileInputOSSPrefix. rewrite prefix_is. apply path_Join_plain; [done|plains|done]. Qed.

Lemma output_prefix : getShardFileOutputOSSPrefix tr task = path [task; "output"].
Proof. unfold getShardFileOutputOSSPrefix. rewrite prefix_is. apply path_Join_plain; [done|plains|done]. Qed.

Lemma under_path d e : plain d -> plain e -> path_Join [path [task; d]; e] = path [task; d; e].
Proof.
  intros Hd He. unfold path. rewrite (path_Join_plain (ps ++ [task; d]) [e]); [by rewrite <- app_assoc|..]; [|plains|done]. apply plain_list. plains.
Qed.

Lemma input_path i : getShardFileInputOSSPath tr task (sid i) = path [task; "input"; sid i].
Proof. unfold getShardFileInputOSSPath. rewrite input_prefix. apply under_path; plains. Qed.

Lemma output_path i : getShardFileOutputOSSPath tr task (sid i) = path [task; "output"; sid i].
Proof. unfold getShardFileOutputOSSPath. rewrite output_prefix. apply under_path; plains. Qed.

Lemma error_path i : getShardFileOutputErrorOSSPath tr task (sid i) = path [task; "output"; "err_" +:+ sid i].
Proof. unfold getShardFileOutputErrorOSSPath. rewrite output_prefix. apply under_path; plains. Qed.

(** Shard files have the prefix of their task, other files have not. *)
Lemma prefix_path d e : HasPrefix (path [task; d; e]) (path [task; d]) = true.
Proof.
  unfold path. replace (ps ++ [task; d; e]) with ((ps ++ [task; d]) ++ [e]) by by rewrite <- app_assoc.
  rewrite Join_app by (done || by apply app_not_nil). apply HasPrefix_app.
Qed.

Lemma no_prefix_path f d : plain f -> HasPrefix (path [f]) (path [task; d]) = false.
Proof.
  intros Hf. destruct (HasPrefix _ _) eqn:E; [|done]. exfalso. apply prefix_true in E. unfold path in E.
  revert E. generalize (sdrop (String.length (Join (ps ++ [task; d]) "/")) (Join (ps ++ [f]) "/")). intros rest E.
  assert (f = (task +:+ "/" +:+ d) +:+ rest) as Hs.
  { destruct (decide (ps = [])) as [->|Hne]; [done|]. rewrite !Join_app in E by done. cbn [Join] in E. rewrite <- !sapp_assoc in E.
    do 2 apply (inj (String.append _)) in E. by rewrite <- !sapp_assoc. }
  destruct Hf as (_ & _ & _ & Hf). rewrite Hs, !sNotIn_app in Hf. destruct Hf as [[_ [[Hf _] _]] _]. done.
Qed.
End paths.

Lemma plain_task u : sNotIn "/" u -> plain (task_id u).
Proof. intros Hu. split; [done|]. split; [done|]. split; [done|]. apply sNotIn_app. split; [by repeat split|done]. Qed.

Section live.
Context {J : Json} {LJ : LineJson} (tr : TaskReactor) (ps : list string) (u : string) (now : Z)
  (backend : http_request -> result (Z * result string)) (file endpoint : string) (token : option string).

(** The prefix is a path of plain elements, the identifier of the task is one; times are machine integers. *)
Hypothesis prefix_plain : Forall plain ps.
Hypothesis prefix_is : ossPrefix tr = Join ps "/".
Hypothesis u_plain : sNotIn "/" u.
Hypothesis file_plain : plain file.
Hypothesis in_range : MinInt64 <= Unix now <= MaxInt64.
Hypothesis counts_read : forall q, unmarshal_counts (marshal_counts q) = Some q.
Hypothesis counts_text : forall q, marshal_counts q <> "".
Hypothesis some_fuel : (0 < oss_fuel tr)%nat.
Hypothesis some_attempt : 0 <= BatchRequestRetryTimes tr.

#[local] Abbreviation triple := (triple u now backend).
#[local] Abbreviation task := (task_id u).
#[local] Abbreviation path := (path ps).
#[local] Abbreviation in_path i := (path [task; "input"; sid i]).
#[local] Abbreviation out_path i := (path [task; "output"; sid i]).
#[local] Abbreviation err_path i := (path [task; "output"; "err_" +:+ sid i]).

Lemma task_plain : plain task.
Proof. by apply plain_task. Qed.

Lemma path_neq es es' : es <> es' -> es <> [] -> es' <> [] -> Forall plain es -> Forall plain es' -> path es <> path es'.
Proof. intros Hne H1 H2 P1 P2 H. by apply path_inj in H. Qed.

(** ** Validation *)

(** What storing the shards [cs], numbered from [i], changes. *)
Record added (w w' : shown) (i : nat) (cs : list (list string)) (P : gset string) : Prop := mkAdded {
  ad_next : sN w' = sN w;
  ad_set : set_view (sV w' (KShards ShardStatusPending)) (P ∪ list_to_set (sid <$> seq i (length cs)));
  ad_keys k : (forall j, k <> KShard (sid j)) -> k <> KShards ShardStatusPending -> sV w' k = sV w k;
  ad_shards j c : cs !! j = Some c -> exists q h, sV w' (KShard (sid (i + j))) = Some (RHash h) /\ shard_ok now q h;
  ad_files j c : cs !! j = Some c -> sO w' !! in_path (i + j) = Some (file_of c);
  ad_objects p : (forall j, p <> in_path j) -> sO w' !! p = sO w !! p;
  ad_others j : (j < i \/ i + length cs <= j)%nat -> sV w' (KShard (sid j)) = sV w (KShard (sid j)) /\ sO w' !! in_path j = sO w !! in_path j
}.

Lemma in_path_inj i j : in_path i = in_path j -> i = j.
Proof.
  intros H. apply path_inj in H; [|done|done|done|..]; [|pose proof task_plain; plains..]. injection H as H. by apply sid_inj.
Qed.

Lemma t_createFileShard w i c P :
  set_view (sV w (KShards ShardStatusPending)) P -> sV w (KShard (sid i)) = None ->
  exists w', triple w (createFileShard tr task (sid i) c) (Ok tt) w' /\ added w w' i [c] P.
Proof.
  intros HP Hi. unfold createFileShard. rewrite (input_path tr ps task prefix_plain prefix_is task_plain).
  set (q := mkCounts (Z.of_nat (length c)) 0 0). set (s := mkShard (sid i) (Some (Unix now)) (Some q) (Some (Unix now))).
  eexists. split.
  - eapply t_try; [eapply t_wrap, t_put|]. eapply t_bind; [apply t_now|].
    eapply t_try; [eapply t_wrap, (t_put_shard u now backend _ (sid i) s ∅); [by right|done..]|].
    eapply t_wrap, t_void, t_redis, (calls_sadd u now _ (KShards ShardStatusPending) P). by cbn; looks.
  - split; cbn [sV sO sN withV]; [done| | | | | |].
    + looks. cbn. rewrite union_empty_r_L, (union_comm_L P). apply set_view_val.
    + intros k Hk Hk'. by rewrite !upd_ne by auto.
    + intros [|j] c' Hc; [|done]. cbn in Hc. injection Hc as <-. replace (i + 0)%nat with i by lia. looks.
      eexists q, _. split; [done|]. by apply shard_fields_ok.
    + intros [|j] c' Hc; [|done]. cbn in Hc. injection Hc as <-. replace (i + 0)%nat with i by lia. by rewrite lookup_insert_eq.
    + intros p Hp. by rewrite lookup_insert_ne.
    + cbn [length]. intros j Hj. rewrite !upd_ne; [|intros [= H%sid_inj]; lia|done]. split; [done|].
      rewrite lookup_insert_ne; [done|]. intros H%in_path_inj. lia.
Qed.

(** Storing a shard and then the following ones. *)
Lemma added_cons w w1 w2 i c cs P :
  added w w1 i [c] P -> added w1 w2 (S i) cs (P ∪ {[sid i]}) -> added w w2 i (c :: cs) P.
Proof.
  intros A B. split.
  - by rewrite (ad_next _ _ _ _ _ B), (ad_next _ _ _ _ _ A).
  - pose proof (ad_set _ _ _ _ _ B) as H. cbn [length seq fmap list_fmap list_to_set]. by rewrite union_assoc_L.
  - intros k Hk Hk'. by rewrite (ad_keys _ _ _ _ _ B), (ad_keys _ _ _ _ _ A).
  - intros [|j] c' Hc.
    + cbn in Hc. injection Hc as <-. replace (i + 0)%nat with i by lia.
      destruct (ad_others _ _ _ _ _ B i) as [-> _]; [lia|]. pose proof (ad_shards _ _ _ _ _ A 0%nat c eq_refl) as H.
      by replace (i + 0)%nat with i in H by lia.
    + replace (i + S j)%nat with (S i + j)%nat by lia. by apply (ad_shards _ _ _ _ _ B j c').
  - intros [|j] c' Hc.
    + cbn in Hc. injection Hc as <-. replace (i + 0)%nat with i by lia.
      destruct (ad_others _ _ _ _ _ B i) as [_ ->]; [lia|]. pose proof (ad_files _ _ _ _ _ A 0%nat c eq_refl) as H.
      by replace (i + 0)%nat with i in H by lia.
    + replace (i + S j)%nat with (S i + j)%nat by lia. by apply (ad_files _ _ _ _ _ B j c').
  - intros p Hp. by rewrite (ad_objects _ _ _ _ _ B), (ad_objects _ _ _ _ _ A).
  - cbn [length]. intros j Hj. destruct (ad_others _ _ _ _ _ B j) as [-> ->]; [lia|]. apply (ad_others _ _ _ _ _ A). cbn. lia.
Qed.

Lemma added_nil w i P : set_view (sV w (KShards ShardStatusPending)) P -> added w w i [] P.
Proof. intros HP. split; try done. cbn. by rewrite union_empty_r_L. Qed.

Lemma t_shard_loop lines cur i n w P :
  set_view (sV w (KShards ShardStatusPending)) P -> (forall j, (i <= j)%nat -> sV w (KShard (sid j)) = None) ->
  let cs := cut (BatchLinesPerShard tr) cur (payload lines) in
  exists w', triple w (shard_loop tr task lines cur i n) (Ok (n + Z.of_nat (length (payload lines)), (i + length cs)%nat)) w' /\ added w w' i cs P.
Proof.
  revert cur i n w P. induction lines as [|line lines IH]; intros cur i n w P HP Hi cs; cbn [shard_loop].
  - subst cs. cbn [payload fmap list_fmap filter list_filter cut length]. replace (n + Z.of_nat 0) with n by lia. case_decide.
    + exists w. replace (i + length _)%nat with i by (cbn; lia). split; [apply t_ret|by apply added_nil].
    + destruct (t_createFileShard w i cur P HP (Hi i (le_n i))) as (w' & Ht & Ha). exists w'. split; [|done].
      replace (i + length _)%nat with (S i) by (cbn; lia). eapply t_try; [exact Ht|apply t_ret].
  - subst cs. rewrite payload_cons. case_decide; [by apply IH|]. cbn [length cut].
    set (cur' := cur ++ [bytes_TrimSpace line]). replace (n + Z.of_nat (S (length (payload lines)))) with (n + 1 + Z.of_nat (length (payload lines))) by lia.
    case_bool_decide as Hk.
    + destruct (t_createFileShard w i cur' P HP (Hi i (le_n i))) as (w1 & Ht1 & Ha1).
      destruct (IH [] (S i) (n + 1) w1 (P ∪ {[sid i]})) as (w2 & Ht2 & Ha2).
      * pose proof (ad_set _ _ _ _ _ Ha1) as HS. cbn in HS. by rewrite union_empty_r_L in HS.
      * intros j Hj. destruct (ad_others _ _ _ _ _ Ha1 j) as [-> _]; [cbn; lia|]. apply Hi. lia.
      * exists w2. split; [|by eapply added_cons]. eapply t_bind; [apply t_poll|]. cbv beta match.
        eapply t_try; [exact Ht1|]. cbn [length]. by rewrite Nat.add_succ_r.
    + destruct (IH cur' i (n + 1) w P HP Hi) as (w2 & Ht2 & Ha2). exists w2. split; [|done].
      eapply t_bind; [apply t_poll|]. exact Ht2.
Qed.

(** ** The state between the rounds *)

(** Response lines with their error flags. *)
Definition outs (rs : list (string * bool)) : list string := fst <$> filter (fun r => r.2 = false) rs.
Definition errs (rs : list (string * bool)) : list string := fst <$> filter (fun r => r.2 = true) rs.
Definition counts_of (rs : list (string * bool)) : RequestCounts :=
  mkCounts (Z.of_nat (length rs)) (Z.of_nat (length (outs rs))) (Z.of_nat (length (errs rs))).
Definition file_opt (lines : list string) : option string := if decide (lines = []) then None else Some (file_of lines).

(** The answer to a line whose request has the identifier [uuid n]. *)
Definition respond (n : nat) (line : string) : string * bool :=
  let finish customID status respBody errMessage :=
    let '(responseLine, batchError) := createResponse task customID (uuid n) status respBody errMessage in
    (responseLine, match batchError with Some _ => true | None => false end) in
  match unmarshal_line line with
  | None => finish (default "" (unmarshal_custom_id line)) None None "unexpected parsing error"
  | Some request =>
      let url := "http://127.0.0.1:" +:+ Itoa (Port_ tr) +:+ endpoint in
      if valid_url url then
        match backend (mkHttp url (default "" (Body request)) (uuid n) ((fun t => "Bearer " +:+ t) <$> token)) with
        | Err e => finish (CustomID request) None None (error_text e)
        | Ok (status, body) =>
            if bool_decide (500 <= status) then finish (CustomID request) (Some status) None "server error"
            else match body with
                 | Err _ => finish (CustomID request) (Some status) None "failed to read response"
                 | Ok b => finish (CustomID request) (Some status) (Some b) ""
                 end
        end
      else finish (CustomID request) None None "failed to create request"
  end.

Definition answers (lines : list string) (rs : list (string * bool)) : Prop := Forall2 (fun line r => exists n, r = respond n line) lines rs.

Definition phases : list BatchTaskStatus := [StatusPending; StatusValidating; StatusInProgress; StatusFinalizing; StatusFinalize].

(** The task is in status [s]; its shards [cs] are pending ([P]) or processed ([D]) with the responses [R]. *)
Record stage (cs : list (list string)) (s : BatchTaskStatus) (P D : gset string) (R : string -> list (string * bool)) (w : shown) : Prop := mkStage {
  sg_lock : sV w KTaskLock = None;
  sg_locks x : sV w (KShardLock x) = None;
  sg_status s' : s' ∈ phases -> set_view (sV w (KTasks s')) (if decide (s' = s) then {[task]} else ∅);
  sg_done : exists X, set_view (sV w (KTasks StatusCompleted)) X;
  sg_record : exists h, sV w KTask = Some (RHash h) /\ record_ok file endpoint token h;
  sg_pending : set_view (sV w (KShards ShardStatusPending)) P;
  sg_working : set_view (sV w (KShards ShardStatusInProgress)) ∅;
  sg_completed : set_view (sV w (KShards ShardStatusCompleted)) D;
  sg_all : P ∪ D = list_to_set (sid <$> seq 0 (length cs));
  sg_disjoint : P ## D;
  sg_input i c : cs !! i = Some c -> sid i ∈ P -> sO w !! in_path i = Some (file_of c);
  sg_shard i c : cs !! i = Some c -> exists q h, sV w (KShard (sid i)) = Some (RHash h) /\ shard_ok now q h /\ (sid i ∈ D -> q = counts_of (R (sid i)));
  sg_out i c : cs !! i = Some c -> sid i ∈ D -> sO w !! out_path i = file_opt (outs (R (sid i))) /\ sO w !! err_path i = file_opt (errs (R (sid i)));
  sg_answers i c : cs !! i = Some c -> sid i ∈ D -> answers c (R (sid i));
  sg_files : exists X, set_view (sV w KFiles) X;
  sg_file f : exists h, hash_view (sV w (KFile f)) h
}.

(** A created task: pending, with its record, no shards and no locks. *)
Record fresh (w : shown) : Prop := mkFresh {
  fr_lock : sV w KTaskLock = None;
  fr_locks x : sV w (KShardLock x) = None;
  fr_status s' : s' ∈ phases -> set_view (sV w (KTasks s')) (if decide (s' = StatusPending) then {[task]} else ∅);
  fr_done : exists X, set_view (sV w (KTasks StatusCompleted)) X;
  fr_record : exists h, sV w KTask = Some (RHash h) /\ record_ok file endpoint token h /\ field h "status" = StatusPending;
  fr_sets st : set_view (sV w (KShards st)) ∅;
  fr_shards x : sV w (KShard x) = None;
  fr_files : exists X, set_view (sV w KFiles) X;
  fr_file f : exists h, hash_view (sV w (KFile f)) h
}.

Definition unlocked (w : shown) : shown := withV w (upd KTaskLock None (sV w)).

Lemma set_view_inj v a b : set_view v a -> set_view v b -> a = b.
Proof. intros [->|[-> ->]] [H|[H ->]]; congruence. Qed.

Lemma moved_from from to a b x V : moved from to a b x V from = set_val (a ∖ {[x]}).
Proof. apply upd_eq. Qed.
Lemma moved_to from to a b x V : from <> to -> moved from to a b x V to = set_val ({[x]} ∪ b).
Proof. intros H. unfold moved. rewrite upd_ne by congruence. apply upd_eq. Qed.
Lemma moved_ne from to a b x V k : k <> from -> k <> to -> moved from to a b x V k = V k.
Proof. intros H1 H2. unfold moved. by rewrite !upd_ne. Qed.

(** The status sets after the task [x] has moved. *)
Lemma moved_status V V' from to x :
  from <> to ->
  (forall s, s ∈ phases -> set_view (V (KTasks s)) (if decide (s = from) then {[x]} else ∅)) ->
  (forall s, V' (KTasks s) = moved (KTasks from) (KTasks to) {[x]} ∅ x V (KTasks s)) ->
  forall s, s ∈ phases -> set_view (V' (KTasks s)) (if decide (s = to) then {[x]} else ∅).
Proof.
  intros Hne HV HV' s Hs. rewrite HV'. destruct (decide (s = to)) as [->|Ht].
  - rewrite moved_to by congruence. rewrite union_empty_r_L. apply set_view_val.
  - destruct (decide (s = from)) as [->|Hf].
    + rewrite moved_from. rewrite difference_diag_L. apply set_view_val.
    + rewrite moved_ne by congruence. specialize (HV s Hs). by rewrite decide_False in HV.
Qed.

Ltac phase := refine (bool_decide_unpack _ _); vm_compute; exact I.

(** From the validating set: shards, counts, and the move to in_progress. *)
Lemma t_shard_phase w h t lines :
  (forall s', s' ∈ phases -> set_view (sV w (KTasks s')) (if decide (s' = StatusValidating) then {[task]} else ∅)) ->
  set_view (sV w (KShards ShardStatusPending)) ∅ -> (forall x, sV w (KShard x) = None) ->
  sV w KTask = Some (RHash h) -> record_ok file endpoint token h -> t_Usage t = None ->
  let cs := cut (BatchLinesPerShard tr) [] (payload lines) in
  exists w3 h3 V5,
    triple w (r ← shardInputFile tr task lines;
      match r with
      | Err e => Ret (if decide (e = errTaskStatusChanged) then Ok tt else Err (failed_to "shard input file"))
      | Ok (lineCount, _) =>
          now ← now_unix;
          _ ← UpdateTaskFields task (with_counts (mkCounts lineCount 0 0) now t);
          wrap_err "move task to in_progress" (MoveTaskAndUpdateStatusAtomically task StatusValidating StatusInProgress)
      end) (Ok tt) (mkShown V5 (sO w3) (sN w3)) /\
    added w w3 0 cs ∅ /\ record_ok file endpoint token h3 /\ V5 KTask = Some (RHash h3) /\
    (forall s', s' ∈ phases -> set_view (V5 (KTasks s')) (if decide (s' = StatusInProgress) then {[task]} else ∅)) /\
    (forall k, k <> KTask -> k <> KTasks StatusValidating -> k <> KTasks StatusInProgress -> V5 k = sV w3 k).
Proof.
  intros Hst HP Hsh Hh Hok Hu cs. destruct (t_shard_loop lines [] 0 0 w ∅ HP (fun j _ => Hsh (sid j))) as (w3 & Hs3 & Ha). fold cs in Hs3, Ha.
  assert (sV w3 KTask = Some (RHash h)) as Hh3 by by rewrite (ad_keys _ _ _ _ _ Ha).
  set (q := mkCounts (0 + Z.of_nat (length (payload lines))) 0 0). set (t' := with_counts q (Unix now) t).
  pose proof (t_UpdateTaskFields u now backend w3 t' h Hh3 eq_refl) as Hup. set (w4 := withV w3 _) in Hup.
  assert (forall s, sV w4 (KTasks s) = sV w (KTasks s)) as Hk by (intros s; cbn; looks; by apply (ad_keys _ _ _ _ _ Ha)).
  destruct (t_move_status u now backend w4 StatusValidating StatusInProgress {[task]} ∅ (update_fields t' (Unix now) ∪ h))
    as (h3 & Hr3 & Hm3); [done|rewrite Hk; exact (Hst StatusValidating ltac:(phase))|rewrite Hk; exact (Hst StatusInProgress ltac:(phase))|set_solver|by cbn; looks|].
  exists w3, h3. eexists. split_and!.
  - eapply t_bind; [exact Hs3|]. cbv beta match. eapply t_bind; [apply t_now|]. eapply t_bind; [exact Hup|]. eapply t_wrap. exact Hm3.
  - done.
  - eapply restamped_ok; [done|exact Hr3|]. by eapply (updated_ok now); [..|exact Hok|reflexivity|].
  - by looks.
  - apply (moved_status (sV w) _ StatusValidating StatusInProgress); [done..|]. intros s. looks. unfold moved, upd. by rewrite Hk.
  - intros k H1 H2 H3. looks. rewrite moved_ne by done. cbn. by looks.
Qed.

Lemma stage_start w w2 w3 V5 h3 cs R :
  fresh (unlocked w) -> added w2 w3 0 cs ∅ ->
  (forall k, k <> KTask -> (forall s, k <> KTasks s) -> (forall x, k <> KShard (sid x)) -> k <> KShards ShardStatusPending -> V5 k = sV w k) ->
  V5 (KTasks StatusCompleted) = sV w (KTasks StatusCompleted) ->
  (forall s', s' ∈ phases -> set_view (V5 (KTasks s')) (if decide (s' = StatusInProgress) then {[task]} else ∅)) ->
  V5 KTask = Some (RHash h3) -> record_ok file endpoint token h3 ->
  (forall x, V5 (KShard x) = sV w3 (KShard x)) -> V5 (KShards ShardStatusPending) = sV w3 (KShards ShardStatusPending) ->
  stage cs StatusInProgress (list_to_set (sid <$> seq 0 (length cs))) ∅ R (unlocked (mkShown V5 (sO w3) (sN w3))).
Proof.
  intros [_ Flocks _ Fdone _ Fsets _ Ffiles Ffile] Ha K Kd Hst Hh Hok KS KP. cbn [unlocked withV sV] in *.
  split; cbn [unlocked withV sV sO]; looks; rewrite ?KP.
  - done.
  - intros x. looks. rewrite K by done. specialize (Flocks x). by rewrite upd_ne in Flocks.
  - intros s Hs. looks. by apply Hst.
  - rewrite Kd. destruct Fdone as [X HX]. exists X. by rewrite upd_ne in HX.
  - by exists h3.
  - pose proof (ad_set _ _ _ _ _ Ha) as H. by rewrite union_empty_l_L in H.
  - rewrite K by done. specialize (Fsets ShardStatusInProgress). by rewrite upd_ne in Fsets.
  - rewrite K by done. specialize (Fsets ShardStatusCompleted). by rewrite upd_ne in Fsets.
  - by rewrite union_empty_r_L.
  - by apply disjoint_empty_r.
  - intros i c Hc _. by apply (ad_files _ _ _ _ _ Ha).
  - intros i c Hc. destruct (ad_shards _ _ _ _ _ Ha i c Hc) as (q & h & Hq & Hs). exists q, h. looks. rewrite KS. split; [done|]. split; [done|]. by intros []%not_elem_of_empty.
  - by intros i c _ []%not_elem_of_empty.
  - by intros i c _ []%not_elem_of_empty.
  - rewrite K by done. destruct Ffiles as [X HX]. exists X. by rewrite upd_ne in HX.
  - intros f. looks. rewrite K by done. destruct (Ffile f) as [h HX]. exists h. by rewrite upd_ne in HX.
Qed.

Lemma t_processValidating w content :
  fresh (unlocked w) -> sO w !! path [file] = Some content -> ValidateBatchFile (lines_of content) = None ->
  let cs := cut (BatchLinesPerShard tr) [] (payload (lines_of content)) in
  exists w', triple w (processValidatingTask tr task) (Ok tt) w' /\ sV w' KTaskLock = sV w KTaskLock /\
    forall R, stage cs StatusInProgress (list_to_set (sid <$> seq 0 (length cs))) ∅ R (unlocked w').
Proof.
  intros F HO Hvalid cs. pose proof F as [_ _ Fstatus _ (h & Hh & Hok & Hst) Fsets Fshards _ _]. cbn [unlocked withV sV] in *.
  assert (forall k, k <> KTaskLock -> upd KTaskLock None (sV w) k = sV w k) as U by (intros; by apply upd_ne).
  assert (forall s, s ∈ phases -> set_view (sV w (KTasks s)) (if decide (s = StatusPending) then {[task]} else ∅)) as Fst
    by (intros s Hs; rewrite <- U by done; by apply Fstatus).
  rewrite U in Hh by done. destruct (t_GetTask u now backend w h file endpoint token Hh Hok) as (t & Ht & Tf & Te & Tt & Ts & Tu).
  destruct (t_move_status u now backend w StatusPending StatusValidating {[task]} ∅ h) as (h1 & Hr1 & Hm1);
    [done|exact (Fst StatusPending ltac:(phase))|exact (Fst StatusValidating ltac:(phase))|set_solver|done|].
  set (w2 := withV w _) in Hm1.
  assert (forall k, k <> KTask -> k <> KTasks StatusPending -> k <> KTasks StatusValidating -> sV w2 k = sV w k) as K2
    by (intros; cbn; looks; by rewrite moved_ne).
  destruct (t_shard_phase w2 h1 t (lines_of content)) as (w3 & h3 & V5 & Hs & Ha & Hok3 & Hh3 & Hst3 & Hk); [..|done|].
  - apply (moved_status (sV w) _ StatusPending StatusValidating); [done..|]. intros s. cbn. by looks.
  - rewrite K2 by done. rewrite <- U by done. apply Fsets.
  - intros x. rewrite K2 by done. rewrite <- U by done. apply Fshards.
  - cbn. by looks.
  - by eapply restamped_ok.
  - fold cs in Ha. assert (forall k, k <> KTask -> (forall s, k <> KTasks s) -> (forall x, k <> KShard (sid x)) -> k <> KShards ShardStatusPending ->
      V5 k = sV w k) as K.
    { intros k H1 H2 H3 H4. rewrite Hk by done. rewrite (ad_keys _ _ _ _ _ Ha) by done. by apply K2. }
    eexists. split_and!.
    + eapply t_try; [eapply t_wrap; exact Ht|]. rewrite Ts, Hst. rewrite decide_True by done.
      eapply t_try; [eapply t_wrap; exact Hm1|]. rewrite Tf, (file_path tr ps prefix_plain prefix_is) by done.
      eapply t_try; [eapply t_try; [by apply t_get|apply t_ret]|]. unfold validateInputFile. rewrite Hvalid.
      eapply t_try; [apply t_ret|]. exact Hs.
    + by apply K.
    + intros R. eapply stage_start; [exact F|exact Ha|exact K|..]; try done.
      * rewrite Hk by done. rewrite (ad_keys _ _ _ _ _ Ha) by done. by apply K2.
      * intros x. by apply Hk.
      * by apply Hk.
Qed.

Lemma fresh_same w w' : (forall k, sV w k = sV w' k) -> fresh w -> fresh w'.
Proof. intros H [F1 F2 F3 F4 F5 F6 F7 F8 F9]. split; intros; rewrite <- ?H; auto. all: try (setoid_rewrite <- H; auto). Qed.

Lemma relocked w v k : sV w KTaskLock = None -> upd KTaskLock None (upd KTaskLock v (sV w)) k = sV w k.
Proof. intros H. rewrite upd_upd. unfold upd. by case_decide; subst. Qed.

(** The round of the validating reactor. *)
Lemma t_validating w content :
  fresh w -> sO w !! path [file] = Some content -> ValidateBatchFile (lines_of content) = None ->
  let cs := cut (BatchLinesPerShard tr) [] (payload (lines_of content)) in
  exists w', triple w (processSingleValidatingTask tr) tt w' /\
    forall R, stage cs StatusInProgress (list_to_set (sid <$> seq 0 (length cs))) ∅ R w'.
Proof.
  intros F HO Hv cs. set (w1 := withV w (upd KTaskLock (Some (RString (instanceID tr))) (sV w))).
  destruct (t_processValidating w1 content) as (w2 & Ht & Hl & Hs); [|done..|].
  { eapply fresh_same; [|exact F]. intros k. cbn. symmetry. apply relocked, F. }
  exists (unlocked w2). split; [|exact Hs]. pose proof (fr_status _ F StatusPending ltac:(phase)) as Hp.
  eapply t_bind; [eapply (t_random u now backend w (KTasks StatusPending)); [exact Hp|apply elements_singleton]|]. cbv beta match.
  eapply t_bind; [apply (t_lock u now backend w KTaskLock); [done|apply F]|]. cbv beta match.
  eapply t_bind; [eapply t_finally; [exact Ht|]|apply t_ret]. apply (t_unlock u now backend w2 KTaskLock). rewrite Hl. cbn. by looks.
Qed.

(** ** Processing *)

Lemma t_attempts w n req : triple w (attempts (S n) req) (Some (backend req)) w.
Proof.
  induction n as [|n IH]; intros m Hm.
  - exists m. split; [|done]. cbn. by destruct (match backend req with Ok (status, _) => bool_decide (500 <= status) | Err _ => true end).
  - change (attempts (S (S n)) req) with (r ← perform (HttpDo req);
      match (match r with Ok (status, _) => bool_decide (500 <= status) | Err _ => true end) with
      | true => attempts (S n) req | false => Ret (Some r) end).
    rewrite run_bind, run_perform. cbn [serve fst snd].
    destruct (match backend req with Ok (status, _) => bool_decide (500 <= status) | Err _ => true end); [by apply IH|by exists m].
Qed.

Lemma t_processRequest w line h t :
  task_like file endpoint token h t ->
  triple w (processRequest tr line t task) (respond (sN w) line) (mkShown (sV w) (sO w) (S (sN w))).
Proof.
  intros (_ & He & Ht & _). unfold processRequest, respond. rewrite He, Ht. eapply t_bind; [apply t_uuid|].
  replace (Z.to_nat (BatchRequestRetryTimes tr + 1)) with (S (Z.to_nat (BatchRequestRetryTimes tr))) by lia.
  destruct (unmarshal_line line) as [request|]; [|destruct (createResponse _ _ _ _ _ _); apply t_ret].
  destruct (valid_url _); [|destruct (createResponse _ _ _ _ _ _); apply t_ret].
  eapply t_bind; [apply t_attempts|]. cbv beta match.
  destruct (backend _) as [[status body]|e]; [|destruct (createResponse _ _ _ _ _ _); apply t_ret].
  destruct (bool_decide _); [destruct (createResponse _ _ _ _ _ _); apply t_ret|].
  destruct body; destruct (createResponse _ _ _ _ _ _); apply t_ret.
Qed.

Lemma t_process_lines w lines h t out err :
  task_like file endpoint token h t -> Forall (fun l => l <> "") lines ->
  exists rs, answers lines rs /\
    triple w (process_lines tr lines t task out err) (Ok (out ++ outs rs, err ++ errs rs)) (mkShown (sV w) (sO w) (sN w + length lines)).
Proof.
  intros Ht Hl. revert w out err. induction Hl as [|line lines Hne _ IH]; intros w out err.
  - exists []. split; [constructor|]. cbn [process_lines outs errs filter list_filter fmap list_fmap length]. rewrite !app_nil_r, Nat.add_0_r. destruct w. apply t_ret.
  - set (w1 := mkShown (sV w) (sO w) (S (sN w))). set (r := respond (sN w) line).
    destruct (IH w1 (if r.2 then out else out ++ [r.1]) (if r.2 then err ++ [r.1] else err)) as (rs & Ha & Hr).
    exists (r :: rs). split; [constructor; [by eexists|done]|]. cbn [process_lines length].
    eapply t_bind; [apply t_poll|]. cbv beta match. rewrite decide_False by done.
    eapply t_bind; [by eapply t_processRequest|]. fold r. rewrite Nat.add_succ_r. cbn [sN w1] in Hr.
    unfold outs, errs in *. rewrite !filter_cons. destruct r as [l b]. cbn [fst snd] in *. destruct b; cbn [fmap list_fmap] in *.
    + rewrite decide_False, decide_True by done. cbn [fmap list_fmap fst]. by rewrite <- app_assoc in Hr.
    + rewrite decide_True, decide_False by done. cbn [fmap list_fmap fst]. by rewrite <- app_assoc in Hr.
Qed.

Definition put_opt (p : string) (c : option string) (O : gmap string string) : gmap string string :=
  match c with Some c => <[p := c]> O | None => O end.

Lemma t_write_unless_empty w p lines :
  triple w (write_unless_empty p lines) (Ok tt) (withO w (put_opt p (file_opt lines) (sO w))).
Proof.
  unfold write_unless_empty, file_opt. case_decide; [destruct w; apply t_ret|]. apply t_put.
Qed.

Lemma lookup_put_opt_ne p p' c O : p <> p' -> put_opt p c O !! p' = O !! p'.
Proof. intros H. destruct c; [|done]. by apply lookup_insert_ne. Qed.

Lemma lookup_put_opt_eq p c O : O !! p = None -> put_opt p c O !! p = c.
Proof. intros H. destruct c; [by apply lookup_insert_eq|done]. Qed.

Lemma outs_errs_length rs : (length (outs rs) + length (errs rs) = length rs)%nat.
Proof.
  unfold outs, errs. rewrite !length_fmap. induction rs as [|[l b] rs IH]; [done|]. rewrite !filter_cons.
  destruct b; cbn [snd]; [rewrite decide_False, decide_True by done|rewrite decide_True, decide_False by done]; cbn [length]; lia.
Qed.

Lemma lookup_filter_out (ps' : list string) (O : gmap string string) p :
  filter (fun kv : string * string => kv.1 ∉ ps') O !! p = if decide (p ∈ ps') then None else O !! p.
Proof.
  rewrite map_lookup_filter. destruct (O !! p) as [v|]; cbn; [|by case_decide].
  case_decide; [by rewrite option_guard_False by (intros H'; by apply H')|by rewrite option_guard_True].
Qed.

Lemma out_err_path i : out_path i <> err_path i.
Proof. apply path_neq; [|done|done|pose proof task_plain; plains..]. intros [= H]. by apply sid_not_err in H. Qed.

(** The store of the results after the old files were deleted. *)
Lemma t_store_results w i rs q hs :
  sV w (KShard (sid i)) = Some (RHash hs) -> shard_ok now q hs ->
  exists hs', shard_ok now (counts_of rs) hs' /\
    triple w (store_results tr task (sid i) (outs rs) (errs rs)) (Ok tt)
      (mkShown (upd (KShard (sid i)) (Some (RHash hs')) (sV w))
        (put_opt (err_path i) (file_opt (errs rs)) (put_opt (out_path i) (file_opt (outs rs)) (sO w))) (sN w)).
Proof.
  intros Hs Hok. unfold store_results.
  rewrite (output_path tr ps task prefix_plain prefix_is task_plain), (error_path tr ps task prefix_plain prefix_is task_plain).
  set (w1 := mkShown (sV w) (put_opt (err_path i) (file_opt (errs rs)) (put_opt (out_path i) (file_opt (outs rs)) (sO w))) (sN w)).
  destruct (t_GetFileShard u now backend in_range counts_read counts_text w1 (sid i) q hs Hs Hok) as (sh & Ht & _ & Hc).
  set (sh' := mkShard (s_ID sh) (s_CreatedAt sh) (Some (mkCounts (Z.of_nat (length (outs rs)) + Z.of_nat (length (errs rs)))
    (Z.of_nat (length (outs rs))) (Z.of_nat (length (errs rs))))) (Some (Unix now))).
  exists (shard_fields now sh' ∪ hs). split.
  - apply shard_fields_ok; [done|]. unfold sh', counts_of. cbn. do 2 f_equal. pose proof (outs_errs_length rs). lia.
  - eapply t_try; [apply t_wrap, t_write_unless_empty|]. eapply t_try; [apply t_wrap, t_write_unless_empty|].
    eapply t_try; [apply t_wrap, Ht|]. eapply t_bind; [apply t_now|]. apply t_wrap.
    exact (t_put_shard u now backend w1 (sid i) sh' hs (or_introl Hs) Hc eq_refl).
Qed.

Lemma t_processShard w i c h hs q :
  set_view (sV w (KTasks StatusInProgress)) {[task]} -> sV w KTask = Some (RHash h) -> record_ok file endpoint token h ->
  sO w !! in_path i = Some (file_of c) -> c <> [] -> Forall (sNotIn (ascii_of_nat 10)) c -> Forall (fun l => l <> "") c ->
  sV w (KShard (sid i)) = Some (RHash hs) -> shard_ok now q hs ->
  exists rs hs' O', answers c rs /\ shard_ok now (counts_of rs) hs' /\
    triple w (processShard tr task (sid i)) (Ok tt) (mkShown (upd (KShard (sid i)) (Some (RHash hs')) (sV w)) O' (sN w + length c)) /\
    O' !! out_path i = file_opt (outs rs) /\ O' !! err_path i = file_opt (errs rs) /\
    forall p, p <> out_path i -> p <> err_path i -> O' !! p = sO w !! p.
Proof.
  intros Hset Hh Hok Hin Hne Hlines Hnb Hs Hsok. destruct (t_GetTask u now backend w h file endpoint token Hh Hok) as (t & Ht & Hlike).
  set (O1 := filter (fun kv : string * string => kv.1 ∉ [out_path i; err_path i]) (sO w)).
  destruct (t_process_lines (withO w O1) c h t [] [] Hlike Hnb) as (rs & Ha & Hp).
  destruct (t_store_results (mkShown (sV w) O1 (sN w + length c)) i rs q hs Hs Hsok) as (hs' & Hq & Hst).
  assert (forall p, p <> out_path i -> p <> err_path i -> O1 !! p = sO w !! p) as HO1.
  { intros p H1 H2. unfold O1. rewrite lookup_filter_out, decide_False; [done|]. intros H. set_solver. }
  assert (in_path i <> out_path i /\ in_path i <> err_path i) as [Ho He].
  { split; (apply path_neq; [done..|pose proof task_plain; plains|pose proof task_plain; plains]). }
  exists rs, hs'. eexists. split; [done|]. split; [done|]. split_and!.
  - unfold processShard. eapply t_try; [apply t_wrap, (t_ismember u now backend w (KTasks StatusInProgress) {[task]}); done|].
    rewrite bool_decide_eq_true_2 by set_solver. cbn [negb]. eapply t_try; [apply t_wrap, Ht|].
    rewrite (output_path tr ps task prefix_plain prefix_is task_plain), (error_path tr ps task prefix_plain prefix_is task_plain),
      (input_path tr ps task prefix_plain prefix_is task_plain).
    eapply t_try; [apply t_wrap, t_delete; [done|unfold maxObjectsPerRequest; cbn; lia]|].
    eapply t_try; [apply t_wrap; eapply t_try; [apply (t_get u now backend _ (in_path i) (file_of c)); cbn [sO]; fold O1; by rewrite HO1|apply t_ret]|].
    rewrite lines_of_file by done. eapply t_try; [exact Hp|]. exact Hst.
  - cbn [sO]. rewrite lookup_put_opt_ne by (intros E; by apply (out_err_path i)). apply lookup_put_opt_eq.
    unfold O1. rewrite lookup_filter_out, decide_True; [done|set_solver].
  - cbn [sO]. apply lookup_put_opt_eq. rewrite lookup_put_opt_ne by apply out_err_path.
    unfold O1. rewrite lookup_filter_out, decide_True; [done|set_solver].
  - intros p H1 H2. cbn [sO]. rewrite !lookup_put_opt_ne by congruence. by apply HO1.
Qed.

Definition good_shard (c : list string) : Prop := c <> [] /\ Forall (sNotIn (ascii_of_nat 10)) c /\ Forall (fun l => l <> "") c.

Lemma stage_sid cs s P D R w x : stage cs s P D R w -> x ∈ P ∪ D -> exists i c, x = sid i /\ cs !! i = Some c.
Proof.
  intros Hs Hx. rewrite (sg_all _ _ _ _ _ _ Hs), elem_of_list_to_set, list_elem_of_fmap in Hx. destruct Hx as (i & -> & Hi%elem_of_seq).
  destruct (lookup_lt_is_Some_2 cs i) as [c Hc]; [lia|]. by exists i, c.
Qed.

Definition record_result (R : string -> list (string * bool)) (x : string) (rs : list (string * bool)) (y : string) : list (string * bool) :=
  if decide (y = x) then rs else R y.

(** The state after a shard was processed. *)
Lemma stage_done cs P D R w w' i c rs hs' :
  stage cs StatusInProgress P D R w -> cs !! i = Some c -> sid i ∈ P -> answers c rs -> shard_ok now (counts_of rs) hs' ->
  (forall k, k <> KShardLock (sid i) -> (forall st, k <> KShards st) -> k <> KShard (sid i) -> sV w' k = sV w k) ->
  sV w' (KShardLock (sid i)) = None -> sV w' (KShard (sid i)) = Some (RHash hs') ->
  set_view (sV w' (KShards ShardStatusPending)) (P ∖ {[sid i]}) -> set_view (sV w' (KShards ShardStatusInProgress)) ∅ ->
  set_view (sV w' (KShards ShardStatusCompleted)) ({[sid i]} ∪ D) ->
  sO w' !! out_path i = file_opt (outs rs) -> sO w' !! err_path i = file_opt (errs rs) ->
  (forall p, p <> out_path i -> p <> err_path i -> sO w' !! p = sO w !! p) ->
  stage cs StatusInProgress (P ∖ {[sid i]}) ({[sid i]} ∪ D) (record_result R (sid i) rs) w'.
Proof.
  intros [S1 S2 S3 S4 S5 S6 S7 S8 S9 S10 S11 S12 S13 S14 S15 S16] Hc Hi Hans Hq K Hlock Hshard HP HI HD HO HE HK.
  assert (forall j, j <> i -> in_path j <> out_path i /\ in_path j <> err_path i /\ out_path j <> out_path i /\ out_path j <> err_path i /\
    err_path j <> out_path i /\ err_path j <> err_path i) as Hpaths.
  { intros j Hj. split_and!; (apply path_neq; [|done|done|pose proof task_plain; plains|pose proof task_plain; plains]); intros [= H]; try done.
    - by apply sid_inj in H.
    - by apply sid_not_err in H.
    - symmetry in H. by apply sid_not_err in H.
    - by apply sid_inj in H. }
  assert (forall j, sid j ∈ P ∖ {[sid i]} \/ sid j ∈ D -> j <> i) as Hji.
  { intros j [H|H] ->; set_solver. }
  split; try done.
  - by rewrite K.
  - intros x. destruct (decide (x = sid i)) as [->|Hx]; [done|]. by rewrite K by congruence.
  - intros s Hs. rewrite K by done. by apply S3.
  - destruct S4 as [X HX]. exists X. by rewrite K.
  - destruct S5 as (h & Hh & Hok). exists h. by rewrite K.
  - rewrite <- S9. apply set_eq. intros y. destruct (decide (y = sid i)); set_solver.
  - set_solver.
  - intros j c' Hc' Hj. rewrite HK; [apply (S11 j c' Hc'); set_solver|apply Hpaths, Hji; by left..].
  - intros j c' Hc'. destruct (decide (j = i)) as [->|Hj].
    + exists (counts_of rs), hs'. split; [done|]. split; [done|]. intros _. unfold record_result. by rewrite decide_True.
    + destruct (S12 j c' Hc') as (q & h & Hh & Hok & HDj). exists q, h. rewrite K by (congruence || (intros [= E%sid_inj]; done)).
      split; [done|]. split; [done|]. unfold record_result. rewrite decide_False by by intros ?%sid_inj. intros Hin.
      apply HDj. apply elem_of_union in Hin as [E%elem_of_singleton|]; [|done]. by apply sid_inj in E.
  - intros j c' Hc' Hin. unfold record_result. destruct (decide (j = i)) as [->|Hj]; [by rewrite decide_True|].
    rewrite decide_False by by intros ?%sid_inj. rewrite !HK by apply (Hpaths j Hj).
    apply (S13 j c' Hc'). apply elem_of_union in Hin as [E%elem_of_singleton|]; [|done]. by apply sid_inj in E.
  - intros j c' Hc' Hin. unfold record_result. destruct (decide (j = i)) as [->|Hj].
    + rewrite decide_True by done. by simplify_eq.
    + rewrite decide_False by by intros ?%sid_inj. apply (S14 j c' Hc').
      apply elem_of_union in Hin as [E%elem_of_singleton|]; [|done]. by apply sid_inj in E.
  - destruct S15 as [X HX]. exists X. by rewrite K.
  - intros f. destruct (S16 f) as [h Hf]. exists h. by rewrite K.
Qed.

(** A worker takes a pending shard and completes it. *)
Lemma t_shard_round cs P D R w worker :
  stage cs StatusInProgress P D R w -> Forall good_shard cs -> P <> ∅ ->
  exists x rs w', x ∈ P /\ triple w (processTaskShards tr task worker) (Ok tt) w' /\
    stage cs StatusInProgress (P ∖ {[x]}) ({[x]} ∪ D) (record_result R x rs) w'.
Proof.
  intros Hs Hgood HP. destruct (elements P) as [|x rest] eqn:He.
  { apply elements_empty_iff, leibniz_equiv in He. done. }
  assert (x ∈ P) as Hx by (apply elem_of_elements; rewrite He; by left).
  destruct (stage_sid _ _ _ _ _ _ x Hs) as (i & c & -> & Hc); [set_solver|].
  assert (good_shard c) as (G1 & G2 & G3) by (rewrite Forall_forall in Hgood; apply Hgood; by eapply list_elem_of_lookup_2).
  destruct (sg_shard _ _ _ _ _ _ Hs i c Hc) as (q & hs & Hhs & Hq & _). destruct (sg_record _ _ _ _ _ _ Hs) as (h & Hh & Hok).
  set (owner := shard_owner (instanceID tr) worker). set (w1 := withV w (upd (KShardLock (sid i)) (Some (RString owner)) (sV w))).
  set (w2 := withV w1 (moved (KShards ShardStatusPending) (KShards ShardStatusInProgress) P ∅ (sid i) (sV w1))).
  destruct (t_processShard w2 i c h hs q) as (rs & hs' & O' & Hans & Hq' & Hp & HO1 & HO2 & HO3); try done.
  { cbn. rewrite moved_ne by done. looks. pose proof (sg_status _ _ _ _ _ _ Hs StatusInProgress ltac:(phase)) as H. by rewrite decide_True in H. }
  { by apply (sg_input _ _ _ _ _ _ Hs). }
  set (w3 := mkShown _ O' _) in Hp.
  set (w4 := withV w3 (moved (KShards ShardStatusInProgress) (KShards ShardStatusCompleted) {[sid i]} D (sid i) (sV w3))).
  exists (sid i), rs, (withV w4 (upd (KShardLock (sid i)) None (sV w4))). split; [done|]. split.
  - eapply t_bind; [eapply (t_random u now backend w (KShards ShardStatusPending)); [apply Hs|exact He]|]. cbv beta match.
    eapply t_bind; [apply (t_lock u now backend w (KShardLock (sid i))); [done|apply Hs]|]. cbv beta match.
    eapply t_bind; [apply (t_move u now backend w1 (KShards ShardStatusPending) (KShards ShardStatusInProgress) P ∅);
      [done|cbn; looks; apply Hs|cbn; looks; apply Hs|done]|]. cbv beta match.
    eapply t_finally; [|apply (t_unlock u now backend w4 (KShardLock (sid i)))].
    + eapply t_bind; [exact Hp|]. cbv beta match. apply t_wrap.
      apply (t_move u now backend w3 (KShards ShardStatusInProgress) (KShards ShardStatusCompleted)); [done|..|set_solver].
      * cbn. looks. rewrite moved_to by done. rewrite union_empty_r_L. apply set_view_val.
      * cbn. looks. rewrite moved_ne by done. looks. apply Hs.
    + cbn. rewrite moved_ne by done. looks. rewrite moved_ne by done. by looks.
  - eapply (stage_done cs P D R w); try done; cbn.
    + intros k H1 H2 H3. looks. rewrite moved_ne by done. looks. rewrite moved_ne by done. by looks.
    + by looks.
    + looks. rewrite moved_ne by done. by looks.
    + looks. rewrite moved_ne by done. looks. rewrite moved_from. apply set_view_val.
    + looks. rewrite moved_from. rewrite difference_diag_L. apply set_view_val.
    + looks. rewrite moved_to by done. apply set_view_val.
Qed.

Lemma completed_no_phase : StatusCompleted ∉ phases.
Proof. phase. Qed.

(** A move of the task to the next status. *)
Lemma stage_move cs s s' P D R w w' h' :
  stage cs s P D R w -> s <> s' -> s ∈ phases -> s' ∈ phases -> sO w' = sO w ->
  sV w' KTask = Some (RHash h') -> record_ok file endpoint token h' ->
  (forall t, sV w' (KTasks t) = moved (KTasks s) (KTasks s') {[task]} ∅ task (sV w) (KTasks t)) ->
  (forall k, k <> KTask -> (forall t, k <> KTasks t) -> sV w' k = sV w k) ->
  stage cs s' P D R w'.
Proof.
  intros [S1 S2 S3 S4 S5 S6 S7 S8 S9 S10 S11 S12 S13 S14 S15 S16] Hne Hs Hs' HO Hh Hok Hm K.
  split; rewrite ?HO; try done; try (rewrite K by done; done).
  - intros x. by rewrite K.
  - by apply (moved_status (sV w) (sV w') s s').
  - destruct S4 as [X HX]. exists X. rewrite Hm, moved_ne; [done|..]; intros [= <-]; by apply completed_no_phase.
  - by exists h'.
  - intros i c Hc. destruct (S12 i c Hc) as (q & h & H1 & H2). exists q, h. by rewrite K.
  - intros f. destruct (S16 f) as [h Hf]. exists h. by rewrite K.
Qed.

Lemma stage_same cs s P D R w w' :
  (forall k, sV w k = sV w' k) -> sO w = sO w' -> stage cs s P D R w -> stage cs s P D R w'.
Proof.
  intros H HO [S1 S2 S3 S4 S5 S6 S7 S8 S9 S10 S11 S12 S13 S14 S15 S16].
  split; intros; rewrite <- ?H, <- ?HO; eauto; try (setoid_rewrite <- H; eauto).
Qed.

Lemma t_all_done w P :
  set_view (sV w (KShards ShardStatusPending)) P -> set_view (sV w (KShards ShardStatusInProgress)) ∅ ->
  triple w (CheckIfAllShardsAreCompleted task) (Ok (bool_decide (P = ∅))) w.
Proof.
  intros HP HI. destruct w as [V O N]. set (r := if bool_decide (P = ∅) then 1 else 0).
  assert (bool_decide (P = ∅) = bool_decide (r = 1)) as -> by (unfold r; by destruct (bool_decide (P = ∅))).
  eapply t_try; [apply (t_eval u now backend (mkShown V O N) _ r V)|apply t_ret]. cbn [sV].
  eapply scripts_call; [by apply (calls_smembers u now V (KShards ShardStatusPending) P)|].
  eapply scripts_call; [by apply (calls_smembers u now V (KShards ShardStatusInProgress) ∅)|]. cbv beta.
  rewrite elements_empty. unfold r. case_bool_decide as HPe.
  - subst. rewrite elements_empty, decide_True by done. apply scripts_ret.
  - rewrite decide_False; [apply scripts_ret|]. intros [He _]. apply elements_empty_iff, leibniz_equiv in He. done.
Qed.

(** When no shard is left the task moves on. *)
Lemma t_check_all cs D R w :
  stage cs StatusInProgress ∅ D R w ->
  exists w', triple w (CheckShardsAndMoveToFinalizing tr task) (Ok true) w' /\ stage cs StatusFinalizing ∅ D R w'.
Proof.
  intros Hs. set (w1 := withV w (upd KTaskLock (Some (RString (instanceID tr))) (sV w))).
  destruct (sg_record _ _ _ _ _ _ Hs) as (h & Hh & Hok).
  assert (forall s, s ∈ phases -> set_view (sV w1 (KTasks s)) (if decide (s = StatusInProgress) then {[task]} else ∅)) as Hst.
  { intros s Hin. cbn. looks. by apply Hs. }
  destruct (t_move_status u now backend w1 StatusInProgress StatusFinalizing {[task]} ∅ h) as (h' & Hr & Hm);
    [done|exact (Hst StatusInProgress ltac:(phase))|exact (Hst StatusFinalizing ltac:(phase))|set_solver|by cbn; looks|].
  eexists. split.
  - eapply t_try; [apply (t_all_done w ∅); apply Hs|]. rewrite bool_decide_eq_true_2 by done. cbn [negb].
    eapply t_bind; [apply (t_lock u now backend w KTaskLock); [done|apply Hs]|]. cbv beta match.
    eapply t_finally; [eapply t_try; [exact Hm|apply t_ret]|]. apply (t_unlock u now backend _ KTaskLock). cbn. looks. rewrite moved_ne by done. by looks.
  - eapply (stage_move cs StatusInProgress StatusFinalizing ∅ D R w); try done; try phase; cbn.
    + by eapply restamped_ok.
    + intros k H1 H2. destruct (decide (k = KTaskLock)) as [->|H3]; looks; [symmetry; apply Hs|]. rewrite moved_ne by done. by looks.
Qed.

(** The round of a worker. *)
Lemma t_round cs P D R w worker :
  stage cs StatusInProgress P D R w -> Forall good_shard cs -> P <> ∅ ->
  exists x rs w', x ∈ P /\ triple w (processSingleInProgressTask tr worker) tt w' /\
    stage cs (if decide (P ∖ {[x]} = ∅) then StatusFinalizing else StatusInProgress) (P ∖ {[x]}) ({[x]} ∪ D) (record_result R x rs) w'.
Proof.
  intros Hs Hg HP. destruct (t_shard_round cs P D R w worker Hs Hg HP) as (x & rs & w1 & Hx & Ht & Hs1).
  assert (forall w', triple w1 (CheckShardsAndMoveToFinalizing tr task) (Ok (bool_decide (P ∖ {[x]} = ∅))) w' ->
    triple w (processSingleInProgressTask tr worker) tt w') as Hround.
  { intros w' Hc. pose proof (sg_status _ _ _ _ _ _ Hs StatusInProgress ltac:(phase)) as H1.
    pose proof (sg_status _ _ _ _ _ _ Hs StatusValidating ltac:(phase)) as H2. rewrite decide_True in H1 by done. rewrite decide_False in H2 by done.
    eapply t_bind; [eapply (t_random u now backend w (KTasks StatusInProgress)); [exact H1|apply elements_singleton]|]. cbv beta match.
    eapply t_bind; [apply (t_ismember u now backend w (KTasks StatusValidating) ∅); exact H2|]. rewrite bool_decide_eq_false_2 by set_solver.
    eapply t_bind; [exact Ht|]. cbv beta match. eapply t_bind; [exact Hc|apply t_ret]. }
  destruct (decide (P ∖ {[x]} = ∅)) as [He|He].
  - rewrite He in Hs1. destruct (t_check_all cs _ _ w1 Hs1) as (w2 & Hc & Hs2). exists x, rs, w2. split; [done|].
    split; [apply Hround; by rewrite bool_decide_eq_true_2|]. rewrite decide_True by done. by rewrite He.
  - exists x, rs, w1. split; [done|]. split; [|by rewrite decide_False]. apply Hround. rewrite bool_decide_eq_false_2 by done.
    eapply t_try; [apply (t_all_done w1 (P ∖ {[x]})); apply Hs1|]. rewrite bool_decide_eq_false_2 by done. apply t_ret.
Qed.

(** A file without requests has no shards; the first round moves the task on. *)
Lemma t_round_none cs D R w worker :
  stage cs StatusInProgress ∅ D R w ->
  exists w', triple w (processSingleInProgressTask tr worker) tt w' /\ stage cs StatusFinalizing ∅ D R w'.
Proof.
  intros Hs. destruct (t_check_all cs D R w Hs) as (w' & Hc & Hs'). exists w'. split; [|done].
  pose proof (sg_status _ _ _ _ _ _ Hs StatusInProgress ltac:(phase)) as H1.
  pose proof (sg_status _ _ _ _ _ _ Hs StatusValidating ltac:(phase)) as H2. rewrite decide_True in H1 by done. rewrite decide_False in H2 by done.
  eapply t_bind; [eapply (t_random u now backend w (KTasks StatusInProgress)); [exact H1|apply elements_singleton]|]. cbv beta match.
  eapply t_bind; [apply (t_ismember u now backend w (KTasks StatusValidating) ∅); exact H2|]. rewrite bool_decide_eq_false_2 by set_solver.
  refine (t_bind u now backend w _ (Ok tt) w _ tt w' _ _); [|eapply t_bind; [exact Hc|apply t_ret]].
  eapply t_bind; [apply (t_random_none u now backend w (KShards ShardStatusPending)), Hs|]. cbv beta match.
  refine (t_bind u now backend w _ (Ok "") w _ (Ok tt) w _ _); [|apply t_ret].
  eapply t_try; [apply t_wrap, (t_members u now backend w (KShards ShardStatusInProgress) ∅), Hs|]. rewrite elements_empty.
  eapply t_bind; [intros m Hm; by exists m|]. eapply t_bind; apply t_ret.
Qed.

Lemma looks_run m w p w' : triple w p tt w' -> looks u now m w -> looks u now (play1 backend m (Run p)) w'.
Proof. intros Ht Hm. destruct (Ht m Hm) as (m' & E & Hm'). cbn. by rewrite E. Qed.

(** The workers' rounds, one for each pending shard. *)
Lemma rounds cs P D R w worker n m :
  stage cs StatusInProgress P D R w -> Forall good_shard cs -> size P = S n -> looks u now m w ->
  exists R' w', looks u now (play backend (repeat (Run (processSingleInProgressTask tr worker)) (S n)) m) w' /\
    stage cs StatusFinalizing ∅ (P ∪ D) R' w'.
Proof.
  revert P D R w m. induction n as [|n IH]; intros P D R w m Hs Hg HP Hm.
  - destruct (t_round cs P D R w worker Hs Hg) as (x & rs & w' & Hx & Ht & Hs'); [intros ->; by rewrite size_empty in HP|].
    assert (P = {[x]}) as ->. { apply size_1_elem_of in HP as [y Hy]. set_solver. }
    rewrite difference_diag_L, decide_True in Hs' by done. eexists _, w'. split; [|exact Hs']. by apply (looks_run m w).
  - destruct (t_round cs P D R w worker Hs Hg) as (x & rs & w' & Hx & Ht & Hs'); [intros ->; by rewrite size_empty in HP|].
    assert (size (P ∖ {[x]}) = S n) as HP'. { rewrite size_difference by set_solver. rewrite size_singleton. lia. }
    rewrite decide_False in Hs' by by intros E; rewrite E, size_empty in HP'.
    destruct (IH _ _ _ w' (play1 backend m (Run (processSingleInProgressTask tr worker))) Hs' Hg HP') as (R' & w'' & Hl & Hs'');
      [by apply (looks_run m w)|]. exists R', w''. split; [exact Hl|].
    replace (P ∪ D) with (P ∖ {[x]} ∪ ({[x]} ∪ D)); [done|]. apply set_eq. intros y. destruct (decide (y = x)); set_solver.
Qed.

(** ** Finalization *)

Fixpoint text (lines : list string) : string :=
  match lines with [] => "" | l :: lines => l +:+ newline +:+ text lines end.

Lemma text_app ls ls' : text (ls ++ ls') = text ls +:+ text ls'.
Proof. induction ls as [|l ls IH]; cbn [text app]; [by rewrite sapp_nil_l|]. rewrite IH. by rewrite !sapp_assoc. Qed.

Lemma file_of_text ls : ls <> [] -> file_of ls = text ls.
Proof.
  induction ls as [|l ls IH]; [done|]. intros _. destruct ls as [|l2 ls]; [unfold file_of; cbn [Join text]; by rewrite sapp_nil_r|].
  unfold file_of in *. rewrite Join_cons by done. cbn [text]. rewrite <- !sapp_assoc. f_equal. f_equal. by apply IH.
Qed.

(** A file to which lines are appended, if there are any. *)
Definition appended (o : option string) (ls : list string) : option string :=
  if decide (ls = []) then o else Some (default "" o +:+ text ls).

Lemma appended_app o ls ls' : appended (appended o ls) ls' = appended o (ls ++ ls').
Proof.
  unfold appended. destruct (decide (ls = [])) as [->|H1]; [done|]. destruct (decide (ls' = [])) as [->|H2]; [by rewrite app_nil_r, decide_False|].
  rewrite decide_False by (intros [? ?]%app_nil; done). cbn [default]. by rewrite text_app, sapp_assoc.
Qed.

Lemma appended_none ls : appended None ls = file_opt ls.
Proof. unfold appended, file_opt. case_decide; [done|]. cbn [default]. by rewrite sapp_nil_l, file_of_text. Qed.

Definition position (o : option string) : Z := Z.of_nat (String.length (default "" o)).

Lemma position_some s : position (Some s) = Z.of_nat (String.length s).
Proof. done. Qed.

Lemma t_append_if w src dst ls :
  sO w !! src = file_opt ls -> src <> dst ->
  exists O', triple w (append_if (bool_decide (ls <> [])) src dst (position (sO w !! dst))) (Ok (position (O' !! dst))) (withO w O') /\
    O' !! dst = appended (sO w !! dst) ls /\ forall p, p <> dst -> O' !! p = sO w !! p.
Proof.
  intros Hs Hne. unfold file_opt in Hs. destruct (decide (ls = [])) as [->|Hl].
  - exists (sO w). split; [|done]. rewrite bool_decide_eq_false_2 by (intros H; by apply H). destruct w. apply t_ret.
  - rewrite bool_decide_eq_true_2 by done. exists (<[dst := default "" (sO w !! dst) +:+ file_of ls]> (sO w)). rewrite lookup_insert_eq. split_and!.
    + apply t_wrap. eapply t_bind; [by apply t_get|]. cbv beta match. intros m (H1 & H2 & H3 & H4). eexists.
      rewrite run_perform. cbn. unfold append_at. rewrite H3, decide_True by done. cbn [fst snd].
      assert (position (Some (default "" (sO w !! dst) +:+ file_of ls)) = position (sO w !! dst) + Z.of_nat (String.length (file_of ls))) as ->
        by (rewrite position_some, slength_app; unfold position; lia). split; [reflexivity|]. by split_and!.
    + unfold appended. rewrite decide_False by done. by rewrite file_of_text.
    + intros p Hp. by rewrite lookup_insert_ne.
Qed.

Lemma t_list w fuel prefix marker : (0 < fuel)%nat ->
  triple w (list_pages fuel prefix marker) (Ok (filter (fun p => HasPrefix p prefix = true) (map_to_list (sO w)).*1)) w.
Proof.
  intros Hf m Hm. exists m. split; [|done]. destruct fuel as [|fuel]; [lia|]. destruct Hm as (_ & _ & H3 & _). cbn. by rewrite H3.
Qed.

Lemma elem_of_listed (O : gmap string string) p prefix :
  HasPrefix p prefix = true -> p ∈ filter (fun p => HasPrefix p prefix = true) (map_to_list O).*1 <-> is_Some (O !! p).
Proof.
  intros Hp. rewrite list_elem_of_filter, list_elem_of_fmap. split.
  - intros [_ ([k v] & -> & Hk%elem_of_map_to_list)]. by exists v.
  - intros [v Hv]. split; [done|]. exists (p, v). split; [done|]. by apply elem_of_map_to_list.
Qed.

Lemma outs_app a b : outs (a ++ b) = outs a ++ outs b.
Proof. unfold outs. by rewrite filter_app, fmap_app. Qed.
Lemma errs_app a b : errs (a ++ b) = errs a ++ errs b.
Proof. unfold errs. by rewrite filter_app, fmap_app. Qed.

Lemma counts_of_app a b :
  Z.of_nat (length (a ++ b)) <= MaxInt64 ->
  mkCounts (int64 (Total (counts_of a) + Total (counts_of b))) (int64 (Completed (counts_of a) + Completed (counts_of b)))
    (int64 (Failed (counts_of a) + Failed (counts_of b))) = counts_of (a ++ b).
Proof.
  intros H. unfold counts_of. cbn. rewrite outs_app, errs_app, !length_app in *. pose proof (outs_errs_length a). pose proof (outs_errs_length b).
  f_equal; rewrite int64_small by (unfold MinInt64, MaxInt64 in *; lia); lia.
Qed.

Lemma file_paths f i : plain f ->
  path [f] <> out_path i /\ path [f] <> err_path i /\ path [f] <> in_path i.
Proof. intros Hf. split_and!; (apply path_neq; [done..|plains|pose proof task_plain; plains]). Qed.

(** The shards [L] are appended to the two files; [acc] are the responses before. *)
Lemma t_merge w (listed : list string) f g L R acc :
  plain f -> plain g -> f <> g ->
  (forall x, x ∈ L -> exists i, x = sid i /\ sO w !! out_path i = file_opt (outs (R x)) /\ sO w !! err_path i = file_opt (errs (R x)) /\
     bool_decide (out_path i ∈ listed) = bool_decide (outs (R x) <> []) /\ bool_decide (err_path i ∈ listed) = bool_decide (errs (R x) <> []) /\
     exists h, sV w (KShard x) = Some (RHash h) /\ shard_ok now (counts_of (R x)) h) ->
  Z.of_nat (length (acc ++ concat (R <$> L))) <= MaxInt64 ->
  exists O', triple w (merge_shards tr task listed (path [f]) (path [g]) L
      (mkMerge (position (sO w !! path [f])) (position (sO w !! path [g])) (counts_of acc)))
    (Ok (Some (mkMerge (position (O' !! path [f])) (position (O' !! path [g])) (counts_of (acc ++ concat (R <$> L)))))) (withO w O') /\
    O' !! path [f] = appended (sO w !! path [f]) (outs (concat (R <$> L))) /\
    O' !! path [g] = appended (sO w !! path [g]) (errs (concat (R <$> L))) /\
    forall p, p <> path [f] -> p <> path [g] -> O' !! p = sO w !! p.
Proof.
  intros Hf Hg Hfg. assert (path [f] <> path [g]) as Hp by (apply path_neq; [congruence|done..|plains|plains]).
  revert w acc. induction L as [|x L IH]; intros w acc HL Hb.
  - exists (sO w). cbn [merge_shards fmap list_fmap concat]. rewrite app_nil_r. split; [|done]. destruct w. apply t_ret.
  - destruct (HL x) as (i & -> & Ho & He & Lo & Le & h & Hh & Hq); [by left|]. destruct (file_paths f i Hf) as (F1 & F2 & _), (file_paths g i Hg) as (G1 & G2 & _).
    destruct (t_append_if w (out_path i) (path [f]) (outs (R (sid i))) Ho) as (O1 & T1 & E1 & K1); [congruence|].
    destruct (t_append_if (withO w O1) (err_path i) (path [g]) (errs (R (sid i)))) as (O2 & T2 & E2 & K2); [cbn; by rewrite K1 by congruence|congruence|].
    cbn [sO withO] in *. rewrite (K1 (path [g])) in T2, E2 by congruence.
    destruct (t_GetFileShard u now backend in_range counts_read counts_text (withO (withO w O1) O2) (sid i) (counts_of (R (sid i))) h Hh Hq) as (sh & T3 & Hc & _).
    destruct (IH (withO w O2) (acc ++ R (sid i))) as (O' & T4 & A1 & A2 & A3).
    { intros y Hy. destruct (HL y) as (j & -> & H1 & H2 & H3); [by right|]. exists j. destruct (file_paths f j Hf) as (J1 & J2 & _), (file_paths g j Hg) as (J3 & J4 & _).
      cbn [sO sV withO]. rewrite !K2, !K1 by congruence. by rewrite H1, H2. }
    { cbn [fmap list_fmap concat] in Hb. by rewrite <- app_assoc. }
    exists O'. cbn [sO withO fmap list_fmap concat] in *. assert (O2 !! path [f] = O1 !! path [f]) as E3 by by apply K2.
    rewrite outs_app, errs_app, <- !appended_app, <- E1, <- E2, <- E3. split_and!; [|done|done|].
    + cbn [merge_shards]. eapply t_bind; [apply t_poll|]. cbv beta match.
      rewrite (output_path tr ps task prefix_plain prefix_is task_plain), (error_path tr ps task prefix_plain prefix_is task_plain), Lo, Le.
      eapply t_try; [exact T1|]. eapply t_try; [exact T2|]. eapply t_bind; [exact T3|]. destruct sh as [sx sc sr su]. cbn in Hc. subst sr. cbn [requestCounts].
      rewrite counts_of_app; [|rewrite app_assoc, length_app in Hb; lia]. rewrite app_assoc, <- E3. exact T4.
    + intros p P1 P2. rewrite A3, K2, K1 by done. done.
Qed.

Lemma t_CreateFile w fl X h :
  set_view (sV w KFiles) X -> hash_view (sV w (KFile (f_ID fl))) h ->
  triple w (CreateFile fl) (Ok tt)
    (withV w (upd KFiles (set_val ({[f_ID fl]} ∪ X)) (upd (KFile (f_ID fl)) (Some (RHash (file_fields fl ∪ h))) (sV w)))).
Proof.
  intros HX Hh. set (w1 := withV w (upd (KFile (f_ID fl)) (Some (RHash (file_fields fl ∪ h))) (sV w))).
  eapply (t_try u now backend w _ tt w1); [apply t_redis, (calls_hset u now _ (KFile (f_ID fl)) _ h Hh)|].
  eapply t_void, (t_redis u now backend w1), (calls_sadd u now _ KFiles X). by cbn; looks.
Qed.

(** The end of a finalization: file records, the task record and the last move. *)
Lemma t_complete w f g t mst h q :
  (forall s, s ∈ phases -> set_view (sV w (KTasks s)) (if decide (s = StatusFinalize) then {[task]} else ∅)) ->
  (exists X, set_view (sV w (KTasks StatusCompleted)) X) -> (exists X, set_view (sV w KFiles) X) ->
  (forall f, exists h, hash_view (sV w (KFile f)) h) -> sV w KTask = Some (RHash h) -> requestCounts mst = q ->
  let ct := completed_task f (if bool_decide (0 < errorPosition mst) then Some g else None) q (Unix now) t in
  exists w', triple w (complete_task task f g t mst) (Ok tt) w' /\ sO w' = sO w /\ sN w' = sN w /\
    sV w' KTask = Some (RHash (update_fields ct (Unix now) ∪ h)) /\
    (forall s, s ∈ phases -> set_view (sV w' (KTasks s)) ∅) /\
    (exists X, task ∈ X /\ set_view (sV w' (KTasks StatusCompleted)) X) /\ sV w' KTaskLock = sV w KTaskLock.
Proof.
  intros Hst [X HX] [Y HY] Hf Hh <- ct. unfold complete_task.
  set (expires := match t_OutputExpiresAfter t with Some e => int64 (Unix now + Seconds e) | None => 0 end).
  set (fl := mkFile f "file" (outputPosition mst) (Unix now) expires "output.jsonl" "batch_output").
  destruct (Hf f) as [h1 H1]. pose proof (t_CreateFile w fl Y h1 HY H1) as T1. set (w1 := withV w _) in T1.
  assert (exists w2, triple w1 (if bool_decide (0 < errorPosition mst) then wrap_err "create error file record"
      (CreateFile (mkFile g "file" (errorPosition mst) (Unix now) expires "error.jsonl" "batch_output")) else Ret (Ok tt)) (Ok tt) w2 /\
    sO w2 = sO w /\ sN w2 = sN w /\ forall k, k <> KFiles -> (forall f, k <> KFile f) -> sV w2 k = sV w k) as (w2 & T2 & O2 & N2 & K2).
  { destruct (bool_decide _).
    - destruct (Hf g) as [h2 H2]. assert (exists h2, hash_view (sV w1 (KFile g)) h2) as [h3 H3].
      { cbn. looks. unfold upd. case_decide; [eexists; by left|by eexists]. }
      eexists. split; [apply t_wrap, (t_CreateFile w1 _ ({[f]} ∪ Y) h3); [cbn; looks; apply set_view_val|exact H3]|].
      split_and!; [done..|]. intros k A B. cbn. by looks.
    - exists w1. split; [apply t_ret|]. split_and!; [done..|]. intros k A B. cbn. by looks. }
  pose proof (t_UpdateTaskFields u now backend w2 ct h) as T3. rewrite K2 in T3 by done. specialize (T3 Hh eq_refl). set (w3 := withV w2 _) in T3.
  eexists. split_and!.
  - eapply t_bind; [apply t_now|]. eapply t_try; [apply t_wrap, T1|]. eapply t_try; [exact T2|]. eapply t_try; [apply t_wrap, T3|].
    eapply t_bind; [|apply t_ret]. apply (t_move u now backend w3 (KTasks StatusFinalize) (KTasks StatusCompleted) {[task]} X); [done| | |set_solver].
    + cbn. looks. rewrite K2 by done. exact (Hst StatusFinalize ltac:(phase)).
    + cbn. looks. by rewrite K2.
  - done.
  - done.
  - cbn. rewrite moved_ne by done. by looks.
  - intros s Hs. cbn. destruct (decide (s = StatusFinalize)) as [->|Hne].
    + rewrite moved_from, difference_diag_L. apply set_view_val.
    + rewrite moved_ne; [|congruence|intros [= ->]; by apply completed_no_phase]. looks. rewrite K2 by done.
      specialize (Hst s Hs). by rewrite decide_False in Hst.
  - exists ({[task]} ∪ X). split; [set_solver|]. cbn. rewrite moved_to by done. apply set_view_val.
  - cbn. rewrite moved_ne by done. looks. by apply K2.
Qed.

Lemma plain_output_id n : plain ("batch_output_" +:+ uuid n).
Proof. split; [done|]. split; [done|]. split; [done|]. apply sNotIn_app. split; [by repeat split|apply plain_sid]. Qed.
Lemma plain_error_id n : plain ("batch_error_" +:+ uuid n).
Proof. split; [done|]. split; [done|]. split; [done|]. apply sNotIn_app. split; [by repeat split|apply plain_sid]. Qed.

(** A completed task with the responses [rs] in the files [f] and [g]. *)
Record finished (f g : string) (rs : list (string * bool)) (V : bkey -> option rvalue) (O : gmap string string) : Prop := mkFinished {
  fi_record : exists h, V KTask = Some (RHash h) /\ h !! "status" = Some StatusCompleted /\ h !! "output_file_id" = Some f /\
    h !! "request_counts" = Some (marshal_counts (counts_of rs)) /\ (errs rs <> [] -> h !! "error_file_id" = Some g);
  fi_status s : s ∈ phases -> set_view (V (KTasks s)) ∅;
  fi_completed : exists X, task ∈ X /\ set_view (V (KTasks StatusCompleted)) X;
  fi_output : O !! path [f] = file_opt (outs rs);
  fi_errors : O !! path [g] = file_opt (errs rs)
}.

Lemma errors_position ls : bool_decide (0 < position (file_opt ls)) = bool_decide (ls <> []).
Proof.
  unfold file_opt. destruct (decide (ls = [])) as [->|Hne]; [done|]. rewrite position_some. unfold file_of. rewrite slength_app.
  apply bool_decide_ext. split; [done|]. intros _. cbn. lia.
Qed.

Lemma listed_spec cs D R w i c :
  stage cs StatusFinalizing ∅ D R w -> cs !! i = Some c -> sid i ∈ D ->
  let listed := filter (fun p => HasPrefix p (path [task; "output"]) = true) (map_to_list (sO w)).*1 in
  bool_decide (out_path i ∈ listed) = bool_decide (outs (R (sid i)) <> []) /\ bool_decide (err_path i ∈ listed) = bool_decide (errs (R (sid i)) <> []).
Proof.
  intros Hs Hc Hi listed. destruct (sg_out _ _ _ _ _ _ Hs i c Hc Hi) as [Ho He].
  assert (forall p ls, HasPrefix p (path [task; "output"]) = true -> sO w !! p = file_opt ls -> bool_decide (p ∈ listed) = bool_decide (ls <> [])) as H.
  { intros p ls Hp Hl. apply bool_decide_ext. unfold listed. rewrite elem_of_listed by done. rewrite Hl. unfold file_opt.
    destruct (decide (ls = [])) as [->|E]; [by split; [intros []|]|]. split; [done|]. by eexists. }
  split; (apply H; [apply prefix_path|done]).
Qed.

Lemma t_processFinalizing cs D R w :
  stage cs StatusFinalizing ∅ D R (unlocked w) -> Z.of_nat (length (concat (R <$> elements D))) <= MaxInt64 ->
  let f := "batch_output_" +:+ uuid (sN w) in let g := "batch_error_" +:+ uuid (S (sN w)) in
  exists w', triple w (processFinalizingTask tr task) (Ok tt) w' /\ finished f g (concat (R <$> elements D)) (sV w') (sO w') /\
    sV w' KTaskLock = sV w KTaskLock.
Proof.
  intros Hs Hb f g. destruct (sg_record _ _ _ _ _ _ Hs) as (h & Hh & Hok). pose proof (plain_output_id (sN w)) as Pf. pose proof (plain_error_id (S (sN w))) as Pg.
  assert (forall k, k <> KTaskLock -> sV w k = sV (unlocked w) k) as U by (intros; cbn; by looks).
  assert (forall s, s ∈ phases -> set_view (sV w (KTasks s)) (if decide (s = StatusFinalizing) then {[task]} else ∅)) as Hst
    by (intros; rewrite U by done; by apply Hs).
  rewrite <- U in Hh by done.
  destruct (t_move_status u now backend w StatusFinalizing StatusFinalize {[task]} ∅ h) as (h1 & Hr & T1);
    [done|exact (Hst StatusFinalizing ltac:(phase))|exact (Hst StatusFinalize ltac:(phase))|set_solver|done|].
  set (w1 := withV w _) in T1. assert (forall k, k <> KTask -> (forall s, k <> KTasks s) -> sV w1 k = sV w k) as K1 by (intros; cbn; looks; by rewrite moved_ne).
  destruct (t_GetTask u now backend w1 h1 file endpoint token) as (t & T2 & _); [cbn; by looks|by eapply restamped_ok|].
  set (w2 := mkShown (sV w1) (filter (fun kv : string * string => kv.1 ∉ [path [f]; path [g]]) (sO w)) (S (S (sN w)))).
  set (listed := filter (fun p => HasPrefix p (path [task; "output"]) = true) (map_to_list (sO w)).*1).
  destruct (t_merge w2 listed f g (elements D) R []) as (O3 & T3 & E1 & E2 & _); [done..| | |].
  { intros x Hx%elem_of_elements. destruct (stage_sid _ _ _ _ _ _ x Hs) as (i & c & -> & Hc); [set_solver|]. exists i.
    destruct (sg_out _ _ _ _ _ _ Hs i c Hc Hx) as [Ho He]. destruct (listed_spec _ _ _ _ i c Hs Hc Hx) as [L1 L2].
    destruct (sg_shard _ _ _ _ _ _ Hs i c Hc) as (q & hs & Hhs & Hq & HqD). destruct (file_paths f i Pf) as (F1 & F2 & _), (file_paths g i Pg) as (G1 & G2 & _).
    split; [done|]. cbn [sO w2 sV]. rewrite !lookup_filter_out, !decide_False by set_solver. do 4 (split; [done|]).
    exists hs. rewrite K1 by done. rewrite U by done. split; [done|]. by rewrite HqD in Hq. }
  { done. }
  cbn [app] in T3. assert (sO w2 !! path [f] = None /\ sO w2 !! path [g] = None) as [Z1 Z2].
  { cbn [sO w2]. rewrite !lookup_filter_out, !decide_True by set_solver. done. }
  rewrite Z1, appended_none in E1. rewrite Z2, appended_none in E2. rewrite Z1, Z2, E1, E2 in T3.
  set (all := concat (R <$> elements D)) in *. set (mst := mkMerge _ _ (counts_of all)) in T3.
  destruct (t_complete (withO w2 O3) f g t mst h1 (counts_of all)) as (w4 & T4 & O4 & N4 & Hk4 & Hs4 & Hc4 & Hl4); [..|done| |].
  { apply (moved_status (sV w) _ StatusFinalizing StatusFinalize); [done..|]. intros s. cbn. by looks. }
  { destruct (sg_done _ _ _ _ _ _ Hs) as [X HX]. exists X. cbn. looks. rewrite moved_ne by done. by rewrite U. }
  { destruct (sg_files _ _ _ _ _ _ Hs) as [X HX]. exists X. cbn [sV withO w2]. rewrite K1 by done. by rewrite U. }
  { intros y. destruct (sg_file _ _ _ _ _ _ Hs y) as [X HX]. exists X. cbn [sV withO w2]. rewrite K1 by done. by rewrite U. }
  { cbn. by looks. }
  exists w4. split_and!.
  - eapply t_try; [apply t_wrap, T1|]. eapply t_try; [apply t_wrap, T2|].
    eapply t_try; [apply t_wrap, (t_members u now backend w1 (KShards ShardStatusCompleted) D); rewrite K1, U by done; apply Hs|].
    rewrite (output_prefix tr ps task prefix_plain prefix_is task_plain).
    eapply t_try; [apply t_wrap, (t_list w1 (oss_fuel tr) (path [task; "output"]) ""); done|].
    eapply t_bind; [apply t_uuid|]. eapply t_bind; [apply t_uuid|]. cbn [sN].
    rewrite !(file_path tr ps prefix_plain prefix_is) by done.
    eapply t_bind; [apply t_delete; [done|unfold maxObjectsPerRequest; cbn; lia]|]. cbv beta match.
    eapply t_try; [apply t_ret|]. eapply t_try; [exact T3|]. cbv beta match.
    eapply t_bind; [apply t_poll|]. exact T4.
  - destruct (update_fields_at (completed_task f (if bool_decide (0 < errorPosition mst) then Some g else None) (counts_of all) (Unix now) t) (Unix now))
      as (A1 & _ & A3 & _ & A5 & A6). split.
    + eexists. split; [exact Hk4|]. rewrite (lookup_union_Some_l _ _ _ _ A1), (lookup_union_Some_l _ _ _ _ A3), (lookup_union_Some_l _ _ _ _ A5).
      split_and!; [done..|]. intros He. eapply lookup_union_Some_l. rewrite A6. cbn [completed_task t_ErrorFileID errorPosition mst].
      by rewrite errors_position, bool_decide_eq_true_2.
    + done.
    + done.
    + by rewrite O4.
    + by rewrite O4.
  - rewrite Hl4. cbn [sV withO w2]. by apply K1.
Qed.

(** ** Clean-up

    It touches only the shard keys and the objects below the two prefixes of the task. *)

Definition shard_key (key : string) : Prop := (exists x, key = render u (KShard x)) \/ (exists st, key = render u (KShards st)).
Definition below (p : string) : Prop := HasPrefix p (path [task; "input"]) = true \/ HasPrefix p (path [task; "output"]) = true.

Definition quiet_allowed {X} (e : eff X) : Prop :=
  match e with
  | Redis (SMEMBERS _) | OssList _ _ => True
  | Redis (DEL keys) => Forall shard_key keys
  | OssDelete paths => Forall below paths
  | _ => False
  end.

Definition quiet_promise {X} (e : eff X) : X -> Prop :=
  match e in eff X return X -> Prop with
  | OssList prefix _ => fun r => match r with Ok (objects, _) => Forall (fun p => HasPrefix p prefix = true) objects | Err _ => True end
  | _ => fun _ => True
  end.

Definition quiet : contract := mkContract (@quiet_allowed) (@quiet_promise).

Definition untouched (V : bkey -> option rvalue) (O : gmap string string) (m : machine) : Prop :=
  m_now m = now /\ (forall k, ~ shard_key (render u k) -> value now (m_db m) (render u k) = V k) /\
  forall p, ~ below p -> m_objects m !! p = O !! p.

Lemma quiet_serve V O X (e : eff X) m :
  quiet_allowed e -> untouched V O m -> quiet_promise e (serve backend X e m).1 /\ untouched V O (serve backend X e m).2.
Proof.
  intros He (H1 & H2 & H3). destruct e as [Y c| | | | | | | | | | |]; try done; [destruct c; try done|..].
  - cbn. unfold redis_exec. destruct (wrong_type _ _ _); (split; [done|]); by split_and!.
  - cbn in He |- *. split; [done|]. split; [done|]. split; [|done]. intros k Hk. cbn. rewrite <- H2 by done.
    unfold value, live. rewrite map_lookup_filter. destruct (m_db m !! render u k) as [v|]; [|done]. cbn. rewrite option_guard_True; [done|].
    intros Hin. apply Hk. rewrite Forall_forall in He. by apply He.
  - cbn in He |- *. split; [done|]. split; [done|]. split; [done|]. intros p Hp. cbn. rewrite lookup_filter_out, decide_False; [by apply H3|].
    intros Hin. apply Hp. rewrite Forall_forall in He. by apply He.
  - cbn. split; [|done]. apply Forall_forall. intros p [Hp _]%list_elem_of_filter. done.
Qed.

Lemma quiet_DeleteFiles fuel ps' : Forall below ps' -> wp quiet (DeleteFiles fuel ps') (fun _ => True).
Proof.
  revert ps'. induction fuel as [|fuel IH]; intros [|p ps'] Hps; cbn [DeleteFiles]; try done. apply wp_try, wp_perform.
  - by apply Forall_take.
  - intros [l|e] _; [|done]. apply IH. by apply Forall_drop.
Qed.

Lemma quiet_list fuel prefix marker :
  wp quiet (list_pages fuel prefix marker) (fun r => match r with Ok l => Forall (fun p => HasPrefix p prefix = true) l | Err _ => True end).
Proof.
  revert marker. induction fuel as [|fuel IH]; intros marker; cbn [list_pages]; [done|]. apply wp_try, wp_perform; [done|].
  intros [[objects [tok|]]|e] Hr; [|done..]. apply wp_try. eapply wp_mono; [apply IH|]. intros [rest|e] Hrest; [|done].
  apply wp_ret. by apply Forall_app.
Qed.

Lemma quiet_wrap {A} what (p : prog (result A)) (Q : A -> Prop) :
  wp quiet p (fun r => match r with Ok a => Q a | Err _ => True end) ->
  wp quiet (wrap_err what p) (fun r => match r with Ok a => Q a | Err _ => True end).
Proof. intros Hp. apply wp_bind. eapply wp_mono; [exact Hp|]. by intros [a|e]. Qed.

Lemma quiet_RemoveShardInfo st : wp quiet (RemoveShardInfo task st) (fun _ => True).
Proof.
  apply wp_try, wp_perform; [done|]. intros [ids|e] _; [|done]. apply keeps_try; [|done..]. apply wp_perform; [|done].
  apply Forall_app. split; [|apply Forall_cons; split; [right; by exists st|done]].
  apply Forall_forall. intros k (x & -> & _)%list_elem_of_fmap. left. by exists x.
Qed.

Lemma quiet_cleanup : wp quiet (cleanupTaskShardMeta tr task) (fun _ => True).
Proof.
  unfold cleanupTaskShardMeta. apply keeps_try; [|intros _|done].
  - unfold cleanupShardOSSFiles, ListObjectsWithPrefix. apply wp_try. eapply wp_mono; [apply quiet_wrap, quiet_list|]. intros [l1|e] H1; [|done].
    apply wp_try. eapply wp_mono; [apply quiet_wrap, quiet_list|]. intros [l2|e] H2; [|done].
    apply keeps_bind; [|done]. apply quiet_DeleteFiles, Forall_app.
    rewrite (input_prefix tr ps task prefix_plain prefix_is task_plain) in H1. rewrite (output_prefix tr ps task prefix_plain prefix_is task_plain) in H2.
    split; [eapply Forall_impl; [exact H1|]; by left|eapply Forall_impl; [exact H2|]; by right].
  - apply keeps_bind; [|done]. repeat (apply keeps_try; [apply quiet_RemoveShardInfo|intros _|done]). apply quiet_RemoveShardInfo.
Qed.

(** What a machine shows of the task. *)
Definition view (m : machine) (k : bkey) : option rvalue := value now (m_db m) (render u k).

Lemma looks_self m : m_now m = now -> looks u now m (mkShown (view m) (m_objects m) (m_next m)).
Proof. intros H. split; [done|]. split; [done|]. by split. Qed.

Lemma not_shard_key k : (forall x, k <> KShard x) -> (forall st, k <> KShards st) -> ~ shard_key (render u k).
Proof. intros H1 H2 [[x Hx%render_inj]|[st Hst%render_inj]]; [by apply (H1 x)|by apply (H2 st)]. Qed.

Lemma not_below f : plain f -> ~ below (path [f]).
Proof. intros Hf [H|H]; by rewrite (no_prefix_path tr ps task prefix_plain prefix_is f _ Hf) in H. Qed.

(** Being finished does not depend on the shards, their files and the lock. *)
Lemma finished_untouched f g rs V O m :
  plain f -> plain g -> finished f g rs V O -> untouched V O m -> finished f g rs (view m) (m_objects m).
Proof.
  intros Hf Hg [F1 F2 F3 F4 F5] (_ & HV & HO). split.
  - destruct F1 as (h & H1 & H2). exists h. split; [|done]. unfold view. rewrite HV; [done|]. by apply not_shard_key.
  - intros s Hs. unfold view. rewrite HV; [by apply F2|]. by apply not_shard_key.
  - destruct F3 as (X & H1 & H2). exists X. split; [done|]. unfold view. rewrite HV; [done|]. by apply not_shard_key.
  - rewrite HO; [done|]. by apply not_below.
  - rewrite HO; [done|]. by apply not_below.
Qed.

Lemma finished_same f g rs V V' O : (forall k, k <> KTaskLock -> V k = V' k) -> finished f g rs V O -> finished f g rs V' O.
Proof.
  intros H [F1 F2 F3 F4 F5]. split; intros; rewrite <- ?H by done; auto; destruct F3 as (X & H1 & H2) || idtac; setoid_rewrite <- H; eauto.
Qed.

(** The round of the finalizing reactor. *)
Lemma finalize_round cs D R w m :
  stage cs StatusFinalizing ∅ D R w -> Z.of_nat (length (concat (R <$> elements D))) <= MaxInt64 -> looks u now m w ->
  exists f g, finished f g (concat (R <$> elements D)) (view (play1 backend m (Run (processSingleFinalizingTask tr))))
    (m_objects (play1 backend m (Run (processSingleFinalizingTask tr)))).
Proof.
  intros Hs Hb Hm. set (w1 := withV w (upd KTaskLock (Some (RString (instanceID tr))) (sV w))).
  destruct (t_processFinalizing cs D R w1) as (w2 & T2 & Hf & Hl); [|done|].
  { apply (stage_same _ _ _ _ _ w); [|done|exact Hs]. intros k. cbn. symmetry. apply relocked, Hs. }
  exists ("batch_output_" +:+ uuid (sN w1)), ("batch_error_" +:+ uuid (S (sN w1))).
  pose proof (sg_status _ _ _ _ _ _ Hs StatusFinalizing ltac:(phase)) as Hst. rewrite decide_True in Hst by done.
  cbn [play1]. unfold processSingleFinalizingTask. rewrite run_bind.
  destruct (t_random u now backend w (KTasks StatusFinalizing) "no tasks in set" {[task]} task [] Hst (elements_singleton _) m Hm) as (m0 & E0 & Hm0).
  change (GetTaskInStatus StatusFinalizing) with (random_member (render u (KTasks StatusFinalizing)) "no tasks in set"). rewrite E0. rewrite run_bind.
  destruct (t_lock u now backend w KTaskLock (instanceID tr) DefaultLockExpiration eq_refl (sg_lock _ _ _ _ _ _ Hs) m0 Hm0) as (m1 & E1 & Hm1).
  change (AcquireTaskLock task (instanceID tr) DefaultLockExpiration)
    with (perform (Redis (SETNX (render u KTaskLock) (instanceID tr) DefaultLockExpiration))). rewrite E1.
  unfold with_task_lock. rewrite run_bind, run_finally, run_bind. destruct (T2 m1 Hm1) as (m2 & -> & Hm2).
  destruct Hm2 as (N2 & V2 & O2 & _).
  assert (untouched (sV w2) (sO w2) m2) as Hun by (split; [done|]; split; [intros k _; apply V2|by rewrite O2]).
  destruct (run_wp (serve backend) quiet (untouched (sV w2) (sO w2)) (cleanupTaskShardMeta tr task) (fun _ => True) m2
    (quiet_serve (sV w2) (sO w2)) quiet_cleanup Hun) as [Hun3 _].
  destruct (run (serve backend) (cleanupTaskShardMeta tr task) m2) as [o m3]. cbn [snd] in Hun3.
  assert (finished ("batch_output_" +:+ uuid (sN w1)) ("batch_error_" +:+ uuid (S (sN w1))) (concat (R <$> elements D)) (view m3) (m_objects m3)) as Hf3.
  { eapply finished_untouched; [apply plain_output_id|apply plain_error_id|exact Hf|done]. }
  destruct (t_unlock u now backend (mkShown (view m3) (m_objects m3) (m_next m3)) KTaskLock (instanceID tr)) with (m := m3) as (m4 & E4 & Hm4).
  { cbn [sV]. unfold view. destruct Hun3 as (_ & HV & _). rewrite HV; [rewrite Hl; cbn; by looks|]. by apply not_shard_key. }
  { apply looks_self, Hun3. }
  assert (finished ("batch_output_" +:+ uuid (sN w1)) ("batch_error_" +:+ uuid (S (sN w1))) (concat (R <$> elements D)) (view m4) (m_objects m4)) as Hf4.
  { destruct Hm4 as (_ & V4 & -> & _). eapply finished_same; [|exact Hf3]. intros k Hk. unfold view at 2. rewrite V4. cbn. by rewrite upd_ne. }
  change (ReleaseTaskLock task (instanceID tr)) with (void (perform (Eval (release_script (render u KTaskLock) (instanceID tr))))).
  destruct o; cbn beta match; rewrite ?E4; exact Hf4 || exact Hf3.
Qed.

(** ** The whole way *)

Lemma answers_concat cs (F : nat -> list (string * bool)) k :
  (forall i c, cs !! i = Some c -> answers c (F (k + i)%nat)) -> answers (concat cs) (concat (F <$> seq k (length cs))).
Proof.
  revert k. induction cs as [|c cs IH]; intros k H; [constructor|]. cbn. apply Forall2_app.
  - pose proof (H 0%nat c eq_refl) as H0. by rewrite Nat.add_0_r in H0.
  - apply IH. intros i c' Hc. replace (S k + i)%nat with (k + S i)%nat by lia. by apply H.
Qed.

Lemma concat_perm {A} (F : string -> list A) l l' : l ≡ₚ l' -> concat (F <$> l) ≡ₚ concat (F <$> l').
Proof. intros H. change (concat (map F l) ≡ₚ concat (map F l')). rewrite <- !flat_map_concat_map. by apply Permutation_flat_map. Qed.

Lemma stage_answers cs D R w :
  stage cs StatusFinalizing ∅ D R w ->
  exists rs, answers (concat cs) rs /\ concat (R <$> elements D) ≡ₚ rs.
Proof.
  intros Hs. exists (concat ((fun i => R (sid i)) <$> seq 0 (length cs))). pose proof (sg_all _ _ _ _ _ _ Hs) as HD. rewrite union_empty_l_L in HD. split.
  - apply (answers_concat cs (fun i => R (sid i)) 0). intros i c Hc. apply (sg_answers _ _ _ _ _ _ Hs i c Hc).
    rewrite HD, elem_of_list_to_set. apply list_elem_of_fmap. exists i. split; [done|]. apply elem_of_seq. apply lookup_lt_Some in Hc. lia.
  - rewrite HD. transitivity (concat (R <$> (sid <$> seq 0 (length cs)))).
    + apply concat_perm, elements_list_to_set. apply NoDup_fmap; [intros i j; apply sid_inj|apply NoDup_seq].
    + by rewrite <- list_fmap_compose.
Qed.

Lemma cut_good k lines : Forall (sNotIn (ascii_of_nat 10)) lines -> Forall good_shard (cut k [] (payload lines)).
Proof.
  intros Hl. destruct (cut_sizes k [] (payload lines)) as [Hsz _]; [cbn; lia|]. apply Forall_forall. intros c Hc.
  assert (forall l, l ∈ c -> l ∈ payload lines) as Hin.
  { intros l Hlc. change (l ∈ [] ++ payload lines). rewrite <- (cut_concat k []). apply list_elem_of_In, in_concat. exists c. by split; apply list_elem_of_In. }
  rewrite Forall_forall in Hsz. specialize (Hsz c Hc). split; [intros ->; cbn in Hsz; lia|]. split; apply Forall_forall; intros l Hlc.
  - pose proof (payload_one_line lines Hl) as Hp. rewrite Forall_forall in Hp. by apply Hp, Hin.
  - apply Hin in Hlc. unfold payload in Hlc. by apply list_elem_of_filter in Hlc as [? _].
Qed.

(** C19. A created task that is the only active one, with a valid input file, free locks and no
    shards yet, on services that answer and a clock that stands still, with plain paths, at least
    one read of an object per turn and counts that their JSON carries over, is completed by one
    round of the validating reactor, one worker round for each shard (at least one) and one round of
    the finalizing reactor: the record says completed, and the output and error files hold an answer
    to each request exactly once, with matching counts. *)
Theorem batch_completes worker m w content :
  looks u now m w -> fresh w -> sO w !! path [file] = Some content -> ValidateBatchFile (lines_of content) = None ->
  let shards := length (cut (BatchLinesPerShard tr) [] (payload (lines_of content))) in
  let m' := play backend (Run (processSingleValidatingTask tr) :: repeat (Run (processSingleInProgressTask tr worker)) (Nat.max 1 shards)
    ++ [Run (processSingleFinalizingTask tr)]) m in
  exists f g rs rs', answers (payload (lines_of content)) rs /\ rs' ≡ₚ rs /\ finished f g rs' (view m') (m_objects m').
Proof.
  intros Hm Hfresh HO Hvalid shards m'. destruct (t_validating w content Hfresh HO Hvalid) as (w1 & T1 & S1).
  set (cs := cut (BatchLinesPerShard tr) [] (payload (lines_of content))) in *. specialize (S1 (fun _ => [])).
  pose proof (looks_run m w _ w1 T1 Hm) as Hm1. set (m1 := play1 backend m _) in Hm1.
  assert (Forall good_shard cs) as Hg by apply cut_good, lines_of_one_line.
  assert (exists R w2 D, looks u now (play backend (repeat (Run (processSingleInProgressTask tr worker)) (Nat.max 1 shards)) m1) w2 /\
    stage cs StatusFinalizing ∅ D R w2) as (R & w2 & D & Hm2 & S2).
  { destruct shards as [|n] eqn:En.
    - unfold shards in En. rewrite En in S1. destruct (t_round_none cs ∅ _ w1 worker S1) as (w2 & T2 & S2).
      eexists _, w2, ∅. split; [by apply (looks_run m1 w1)|exact S2].
    - destruct (rounds cs _ ∅ _ w1 worker n m1 S1 Hg) as (R & w2 & Hm2 & S2); [|done|by eexists _, w2, _].
      rewrite size_list_to_set by (apply NoDup_fmap; [intros i j; apply sid_inj|apply NoDup_seq]). by rewrite length_fmap, length_seq. }
  destruct (stage_answers cs D R w2 S2) as (rs & Ha & Hp). unfold cs in Ha. rewrite cut_concat in Ha. cbn [app] in Ha.
  assert (Z.of_nat (length (concat (R <$> elements D))) <= MaxInt64) as Hb.
  { rewrite Hp, <- (Forall2_length _ _ _ Ha). apply validate_lines_spec in Hvalid as [_ Hv]. unfold max_lines, MaxInt64 in *. lia. }
  destruct (finalize_round cs D R w2 _ S2 Hb Hm2) as (f & g & Hf). exists f, g, rs, (concat (R <$> elements D)). split; [done|]. split; [done|].
  unfold m', play. cbn [foldl]. rewrite foldl_app. exact Hf.
Qed.

(** Splitting a valid input file loses nothing and respects the shard size: after one round of the validating reactor the task is in progress,
    its pending shards are numbered from zero, and the stored shard files, read in order, hold exactly the non-blank lines of the input;
    each holds between one and [BatchLinesPerShard] lines, all but the last exactly that many, so that their number is the quotient rounded up. *)
Theorem shards_exact m w content :
  looks u now m w -> fresh w -> sO w !! path [file] = Some content -> ValidateBatchFile (lines_of content) = None ->
  let size := Z.max 1 (BatchLinesPerShard tr) in let total := Z.of_nat (length (payload (lines_of content))) in
  let m' := play1 backend m (Run (processSingleValidatingTask tr)) in
  exists shards : list (list string),
    (forall i shard, shards !! i = Some shard -> exists stored, m_objects m' !! in_path i = Some stored /\ lines_of stored = shard) /\
    concat shards = payload (lines_of content) /\ Z.of_nat (length shards) = (total + size - 1) / size /\
    Forall (fun shard => 1 <= Z.of_nat (length shard) <= size) shards /\
    (forall s ss, shards = ss ++ [s] -> Forall (fun shard => Z.of_nat (length shard) = size) ss) /\
    set_view (view m' (KShards ShardStatusPending)) (list_to_set (sid <$> seq 0 (length shards))) /\
    set_view (view m' (KTasks StatusInProgress)) {[task]}.
Proof.
  intros Hm Hfresh HO Hvalid size total m'. destruct (t_validating w content Hfresh HO Hvalid) as (w1 & T1 & S1).
  set (cs := cut (BatchLinesPerShard tr) [] (payload (lines_of content))) in *. specialize (S1 (fun _ => [])).
  destruct (looks_run m w _ w1 T1 Hm) as (Hn & Hv & Hob & _). fold m' in Hn, Hv, Hob.
  destruct (cut_sizes (BatchLinesPerShard tr) [] (payload (lines_of content))) as [Hs1 Hs2]; [cbn; lia|].
  assert (Forall good_shard cs) as Hg by apply cut_good, lines_of_one_line.
  exists cs. split_and!; [|apply cut_concat|apply cut_count|done|done| |].
  - intros i c Hc. exists (file_of c). rewrite Hob. pose proof (Forall_lookup_1 _ _ _ _ Hg Hc) as (G1 & G2 & _). split; [|by apply lines_of_file].
    apply (sg_input _ _ _ _ _ _ S1 i c Hc). apply elem_of_list_to_set, list_elem_of_fmap_2, elem_of_seq. apply lookup_lt_Some in Hc. lia.
  - unfold view. rewrite Hv. apply (sg_pending _ _ _ _ _ _ S1).
  - unfold view. rewrite Hv. pose proof (sg_status _ _ _ _ _ _ S1 StatusInProgress ltac:(phase)) as H. by rewrite decide_True in H.
Qed.
End live.

(** ** An installation in which the hypotheses hold *)

Lemma read_Z_Itoa z : read_Z (Itoa z) = Some z.
Proof.
  unfold Itoa. destruct z as [|p|p].
  - done.
  - destruct (pretty_N_head (N.pos p)) as (c & s & d & E & Hd). change (pretty (Z.pos p)) with (pretty (N.pos p)). unfold read_Z. rewrite E.
    assert (c <> "-"%char) as Hc by by intros ->. pose proof (digits_value_pretty_N (N.pos p)) as H. rewrite E in H. cbn in H |- *.
    by destruct c as [[] [] [] [] [] [] [] []].
  - change (read_Z (String "-"%char (pretty (N.pos p))) = Some (Z.neg p)). cbn [read_Z]. by rewrite digits_value_pretty_N.
Qed.

Lemma small_counts_read (q : RequestCounts) : @unmarshal_counts small_json (@marshal_counts small_json q) = Some q.
Proof.
  destruct q as [a b c]. cbn [unmarshal_counts marshal_counts small_json Total Completed Failed].
  change (Itoa a +:+ "," +:+ Itoa b +:+ "," +:+ Itoa c) with (Join [Itoa a; Itoa b; Itoa c] ",").
  rewrite Split_Join; [|done|]; [|repeat constructor; by apply Itoa_sNotIn]. cbn. by rewrite !read_Z_Itoa.
Qed.

Lemma small_counts_text (q : RequestCounts) : @marshal_counts small_json q <> "".
Proof. destruct q as [a b c]. intros H. apply (f_equal String.length) in H. cbn in H. rewrite !slength_app in H. cbn in H. lia. Qed.

Definition small_record : gmap string string :=
  list_to_map [("status", "pending"); ("input_file_id", "in"); ("endpoint", "/v1/completions"); ("created_at", "0"); ("expires_at", "86400"); ("updated_at", "0")].

Definition small_V : bkey -> option rvalue :=
  upd (KTasks StatusPending) (Some (RSet {["batch_7"]})) (upd KTask (Some (RHash small_record)) (fun _ => None)).

Definition small_machine : machine :=
  mkMachine 0 (<[getTaskSetKey StatusPending := (RSet {["batch_7"]}, None)]> (<["task:batch_7" := (RHash small_record, None)]> ∅))
    {["batch/in" := three_lines]} 0.
Definition small_shown : shown := mkShown small_V {["batch/in" := three_lines]} 0.

Lemma small_looks : looks "7" 0 small_machine small_shown.
Proof.
  split; [done|]. split; [|done]. cbn. apply (views_insert "7" 0 (KTasks StatusPending)); [done|].
  apply (views_insert "7" 0 KTask); [done|]. intros k. unfold value, live. by rewrite lookup_empty.
Qed.

Section small.
#[local] Existing Instance small_json.
#[local] Existing Instance small_lines.

Lemma small_fresh : fresh "7" "in" "/v1/completions" None small_shown.
Proof.
  split; cbn [sV small_shown]; unfold small_V.
  - by looks.
  - intros x. by looks.
  - intros s _. destruct (decide (s = StatusPending)) as [->|Hs]; looks; [by left|by right].
  - exists ∅. looks. by right.
  - exists small_record. looks. split; [done|]. split; [|done]. split; try done; try by (eexists; vm_compute; reflexivity).
  - intros st. looks. by right.
  - intros x. by looks.
  - exists ∅. looks. by right.
  - intros f. exists ∅. looks. by right.
Qed.

Definition small_play : machine :=
  play echo (Run (processSingleValidatingTask gateway) :: repeat (Run (processSingleInProgressTask gateway "w1")) 2 ++
    [Run (processSingleFinalizingTask gateway)]) small_machine.

(** Three requests in two shards. *)
Lemma batch_completes_witness :
  exists f g rs rs', answers gateway "7" echo "/v1/completions" None (payload (lines_of three_lines)) rs /\ rs' ≡ₚ rs /\
    finished ["batch"] "7" f g rs' (view "7" 0 small_play) (m_objects small_play).
Proof.
  refine (batch_completes gateway ["batch"] "7" 0 echo "in" "/v1/completions" None _ _ _ _ _ small_counts_read small_counts_text _ _ "w1"
    small_machine small_shown three_lines small_looks small_fresh _ _).
  - repeat constructor; by repeat split.
  - done.
  - by repeat split.
  - by repeat split.
  - done.
  - cbn. lia.
  - done.
  - done.
  - vm_compute. reflexivity.
Defined.

Definition small_split : machine := play1 echo small_machine (Run (processSingleValidatingTask gateway)).

Lemma shards_exact_witness :
  let size := Z.max 1 (BatchLinesPerShard gateway) in let total := Z.of_nat (length (payload (lines_of three_lines))) in
  exists shards : list (list string),
    (forall i shard, shards !! i = Some shard ->
      exists stored, m_objects small_split !! path ["batch"] ["batch_7"; "input"; sid i] = Some stored /\ lines_of stored = shard) /\
    concat shards = payload (lines_of three_lines) /\ Z.of_nat (length shards) = (total + size - 1) / size /\
    Forall (fun shard => 1 <= Z.of_nat (length shard) <= size) shards /\
    (forall s ss, shards = ss ++ [s] -> Forall (fun shard => Z.of_nat (length shard) = size) ss) /\
    set_view (view "7" 0 small_split (KShards ShardStatusPending)) (list_to_set (sid <$> seq 0 (length shards))) /\
    set_view (view "7" 0 small_split (KTasks StatusInProgress)) {["batch_7"]}.
Proof.
  refine (shards_exact gateway ["batch"] "7" 0 echo "in" "/v1/completions" None _ _ _ _ _ small_counts_read small_counts_text _ _
    small_machine small_shown three_lines small_looks small_fresh _ _).
  - repeat constructor; by repeat split.
  - done.
  - by repeat split.
  - by repeat split.
  - done.
  - cbn. lia.
  - done.
  - done.
  - vm_compute. reflexivity.
Defined.
End small.
