(* ===== verification/BatchRecord.v ===== *)
(** * Task records

    A task that is stored is read back unchanged. *)

From Stdlib Require Import Ascii.
From stdpp Require Import base gmap sets list strings numbers pretty.
From S2P Require Import Prelude GoStrings Types Programs Effects RedisSem BatchStore BatchOss BatchReactor BatchHandlers BatchRun BatchFiles.

Local Open Scope Z_scope.

(** ** Fields of a stored task *)

Section record.
Context {J : Json} (t : BatchTask) (fields : gmap string string).
Hypothesis stored : task_fields t = Some fields.

Lemma look_opt_ne name name' v h : name <> name' -> add_opt name v h !! name' = h !! name'.
Proof. intros Hn. unfold add_opt. destruct v; [|done]. by rewrite lookup_insert_ne. Qed.

Lemma look_opt_eq name v h : h !! name = None -> add_opt name v h !! name = v.
Proof. intros Hn. unfold add_opt. destruct v; [by rewrite lookup_insert_eq|done]. Qed.

Definition base_fields (c d : Z) : gmap string string :=
  list_to_map [("id", t_ID t); ("object", t_Object t); ("endpoint", t_Endpoint t);
    ("model", t_Model t); ("errors", marshalBatchErrors (t_Errors t)); ("input_file_id", t_InputFileID t);
    ("completion_window", t_CompletionWindow t); ("status", t_Status t); ("created_at", Itoa c);
    ("expires_at", Itoa (t_ExpiresAt t)); ("updated_at", Itoa d)].

Definition opt_fields (base : gmap string string) : gmap string string :=
  add_opt "token" (t_Token t)
    (add_json t
      (add_opt "metadata" (if decide (size (t_Metadata t) = 0%nat) then None else Some (marshal_metadata (t_Metadata t)))
        (add_times t (add_files t base)))).

Lemma stored_eq : exists c d, t_CreatedAt t = Some c /\ t_UpdatedAt t = Some d /\ fields = opt_fields (base_fields c d).
Proof.
  pose proof stored as H. unfold task_fields in H. destruct (t_CreatedAt t) as [c|]; [|done]. destruct (t_UpdatedAt t) as [d|]; [|done].
  exists c, d. split; [done|]. split; [done|]. cbn in H. by injection H as <-.
Qed.

Ltac look := unfold opt_fields, add_json, add_times, add_files; repeat rewrite look_opt_ne by done.

(** The optional fields, by name. *)
Lemma opt_fields_at c d :
  let h := opt_fields (base_fields c d) in
  h !! "token" = t_Token t /\ h !! "output_expires_after" = marshal_expires <$> t_OutputExpiresAfter t /\
  h !! "usage" = marshal_usage <$> t_Usage t /\ h !! "request_counts" = marshal_counts <$> t_RequestCounts t /\
  h !! "metadata" = (if decide (size (t_Metadata t) = 0%nat) then None else Some (marshal_metadata (t_Metadata t))) /\
  h !! "cancelled_at" = Itoa <$> t_CancelledAt t /\ h !! "cancelling_at" = Itoa <$> t_CancellingAt t /\
  h !! "expired_at" = Itoa <$> t_ExpiredAt t /\ h !! "failed_at" = Itoa <$> t_FailedAt t /\
  h !! "completed_at" = Itoa <$> t_CompletedAt t /\ h !! "finalizing_at" = Itoa <$> t_FinalizingAt t /\
  h !! "in_progress_at" = Itoa <$> t_InProgressAt t /\ h !! "error_file_id" = t_ErrorFileID t /\ h !! "output_file_id" = t_OutputFileID t.
Proof. intros h. unfold h. split_and!; look; apply look_opt_eq; look; done. Qed.

Definition base_names : list string :=
  ["id"; "object"; "endpoint"; "model"; "errors"; "input_file_id"; "completion_window"; "status"; "created_at"; "expires_at"; "updated_at"].

Lemma base_fields_at c d name :
  bool_decide (name ∈ base_names) = true -> opt_fields (base_fields c d) !! name = base_fields c d !! name.
Proof. intros Hn%bool_decide_eq_true. repeat (apply elem_of_cons in Hn as [->|Hn]; [by look|]). by apply not_elem_of_nil in Hn. Qed.
End record.

(** ** Values that survive *)

Definition survives {X} (marshal : X -> string) (unmarshal : string -> option X) (v : option X) : Prop :=
  forall x, v = Some x -> marshal x <> "" /\ unmarshal (marshal x) = Some x.

Definition int64_range (v : option Z) : Prop := forall z, v = Some z -> MinInt64 <= z <= MaxInt64.

Lemma opt_string_of h name v : h !! name = v -> v <> Some "" -> opt_string h name = v.
Proof. intros H Hv. unfold opt_string. rewrite H. destruct v as [s|]; [|done]. cbn. by rewrite decide_False by congruence. Qed.

Lemma Itoa_not_empty z : Itoa z <> "".
Proof.
  intros H. assert (z = 0 \/ z <> 0) as [->|Hz] by lia; [done|]. unfold Itoa in H.
  assert (pretty z = pretty z) as _ by done. destruct z as [|p|p]; [done| |done].
  destruct (pretty_N_head (N.pos p)) as (c & s & d & E & _). change (pretty (Z.pos p)) with (pretty (N.pos p)) in H. by rewrite E in H.
Qed.

Lemma survives_Itoa v : int64_range v -> survives Itoa Atoi v.
Proof. intros Hv z Hz. split; [apply Itoa_not_empty|]. apply Atoi_Itoa. by apply Hv. Qed.

Lemma opt_survives {X} (marshal : X -> string) unmarshal h name v :
  h !! name = marshal <$> v -> survives marshal unmarshal v -> opt_string h name ≫= unmarshal = v.
Proof.
  intros H Hs. unfold opt_string. rewrite H. destruct v as [x|]; [|done]. destruct (Hs x eq_refl) as [Hne Hr]. cbn. by rewrite decide_False.
Qed.

Section roundtrip.
Context {J : Json} (backend : http_request -> result (Z * result string)).

(** What must hold of a task: numbers of the machine, no empty optional strings, and values whose JSON can be read back. *)
Record storable (t : BatchTask) : Prop := mkStorable {
  sb_created : exists c, t_CreatedAt t = Some c;
  sb_updated : exists d, t_UpdatedAt t = Some d;
  sb_times : Forall int64_range [t_CreatedAt t; t_UpdatedAt t; Some (t_ExpiresAt t); t_InProgressAt t; t_FinalizingAt t; t_CompletedAt t;
    t_FailedAt t; t_ExpiredAt t; t_CancellingAt t; t_CancelledAt t];
  sb_strings : Forall (fun v => v <> Some "") [t_Token t; t_OutputFileID t; t_ErrorFileID t];
  sb_counts : survives marshal_counts unmarshal_counts (t_RequestCounts t);
  sb_usage : survives marshal_usage unmarshal_usage (t_Usage t);
  sb_errors : survives marshal_errors unmarshal_errors (t_Errors t);
  sb_expires : survives marshal_expires unmarshal_expires (t_OutputExpiresAfter t);
  sb_metadata : size (t_Metadata t) <> 0%nat ->
    marshal_metadata (t_Metadata t) <> "" /\ unmarshal_metadata (marshal_metadata (t_Metadata t)) = (t_Metadata t, true)
}.

Lemma parse_json_survives {X S} (h : handler S) (marshal : X -> string) unmarshal what values name v (k : option X -> prog (result BatchTask)) s :
  values !! name = marshal <$> v -> survives marshal unmarshal v ->
  run h (try_bind (parse_json unmarshal what (opt_string values name)) k) s = run h (k v) s.
Proof.
  intros H Hs. unfold opt_string. rewrite H. destruct v as [x|]; [|done]. destruct (Hs x eq_refl) as [Hne Hr]. cbn. rewrite decide_False by done. cbn. by rewrite Hr.
Qed.

(** The record of a task, rebuilt from the fields that stand for it. *)
Lemma parse_errors_survives values v :
  values !! "errors" = Some (marshalBatchErrors v) -> survives marshal_errors unmarshal_errors v -> parse_errors values = v.
Proof.
  intros H Hs. unfold parse_errors, opt_string. rewrite H. destruct v as [e|]; [|done]. destruct (Hs e eq_refl) as [Hne Hr].
  cbn. rewrite decide_False by done. cbn. by rewrite Hr.
Qed.

Lemma parse_metadata_survives values (md : gmap string string) :
  values !! "metadata" = (if decide (size md = 0%nat) then None else Some (marshal_metadata md)) ->
  (size md <> 0%nat -> marshal_metadata md <> "" /\ unmarshal_metadata (marshal_metadata md) = (md, true)) -> parse_metadata values = md.
Proof.
  intros H Hm. unfold parse_metadata, opt_string. rewrite H. destruct (decide (size md = 0%nat)) as [E|E].
  - cbn. symmetry. by apply map_size_empty_iff.
  - destruct (Hm E) as [Hne Hr]. cbn. rewrite decide_False by done. cbn. by rewrite Hr.
Qed.

Lemma parse_int_of {S} (h : handler S) values what name z (k : Z -> prog (result BatchTask)) s :
  values !! name = Some (Itoa z) -> int64_range (Some z) ->
  run h (try_bind (parse_int what (field values name)) k) s = run h (k z) s.
Proof. intros H Hz. unfold field. rewrite H. cbn. by rewrite Atoi_Itoa by (apply Hz; done). Qed.

Lemma field_of values name v : values !! name = Some v -> field values name = v.
Proof. unfold field. by intros ->. Qed.

Lemma GetTask_fields t fields m :
  storable t -> task_fields t = Some fields -> value (m_now m) (m_db m) (getTaskKey (t_ID t)) = Some (RHash fields) ->
  run (serve backend) (GetTask (t_ID t)) m = (Done (Ok t), m).
Proof.
  intros [_ _ Ht Hstr Hq Hu He Hx Hm] Hf Hv. destruct (stored_eq t fields Hf) as (c & d & Hc & Hd & Hfields).
  destruct (opt_fields_at t c d) as (E1 & E2 & E3 & E4 & E5 & E6 & E7 & E8 & E9 & E10 & E11 & E12 & E13 & E14).
  pose proof (base_fields_at t c d) as Hb. rewrite <- Hfields in *.
  rewrite !Forall_cons_iff in Ht. destruct Ht as (T1 & T2 & T3 & T4 & T5 & T6 & T7 & T8 & T9 & T10 & _). rewrite Hc in T1. rewrite Hd in T2.
  rewrite !Forall_cons_iff in Hstr. destruct Hstr as (S1 & S2 & S3 & _).
  unfold GetTask. rewrite run_try, run_perform. cbn [serve fst snd]. unfold redis_exec, wrong_type. cbn [wants]. rewrite Hv. cbn [kind_ok negb call_exec fst snd].
  unfold hash_at. rewrite Hv. replace (with_db (m_db m) m) with m by (by destruct m).
  rewrite decide_False.
  2: { intros E%map_size_empty_iff. specialize (Hb "id" eq_refl). by rewrite E in Hb. }
  rewrite (parse_int_of _ _ _ _ c), (parse_int_of _ _ _ _ (t_ExpiresAt t)), (parse_int_of _ _ _ _ d) by (done || (rewrite Hb by reflexivity; done)).
  rewrite (parse_json_survives _ _ _ _ _ _ _ _ _ E4 Hq), (parse_json_survives _ _ _ _ _ _ _ _ _ E3 Hu). cbn [run].
  unfold opt_int. rewrite (parse_errors_survives _ _ (Hb "errors" eq_refl) He), (parse_metadata_survives _ _ E5 Hm).
  rewrite (opt_survives _ _ _ _ _ E2 Hx), (opt_string_of _ _ _ E1 S1), (opt_string_of _ _ _ E13 S3), (opt_string_of _ _ _ E14 S2).
  rewrite (opt_survives _ _ _ _ _ E6), (opt_survives _ _ _ _ _ E7), (opt_survives _ _ _ _ _ E8), (opt_survives _ _ _ _ _ E9),
    (opt_survives _ _ _ _ _ E10), (opt_survives _ _ _ _ _ E11), (opt_survives _ _ _ _ _ E12) by (by apply survives_Itoa).
  rewrite <- Hc, <- Hd.
  rewrite (field_of _ _ _ (Hb "id" eq_refl)), (field_of _ _ _ (Hb "object" eq_refl)), (field_of _ _ _ (Hb "endpoint" eq_refl)),
    (field_of _ _ _ (Hb "model" eq_refl)), (field_of _ _ _ (Hb "input_file_id" eq_refl)),
    (field_of _ _ _ (Hb "completion_window" eq_refl)), (field_of _ _ _ (Hb "status" eq_refl)).
  by destruct t.
Qed.

Lemma value_put now db k v : value now (<[k := (v, expiry now db k)]> db) k = Some v.
Proof.
  unfold value, expiry. unfold live at 1. rewrite lookup_insert_eq. destruct (live now db k) as [[v' [e|]]|] eqn:E; cbn; [|done..].
  rewrite bool_decide_eq_false_2; [done|]. unfold live in E. destruct (db !! k) as [[v'' [e'|]]|]; [|done..].
  case_bool_decide; [done|]. by simplify_eq.
Qed.

Lemma value_put_ne now db k k' x : k <> k' -> value now (<[k := x]> db) k' = value now db k'.
Proof. intros Hk. unfold value, live. by rewrite lookup_insert_ne. Qed.

(** A member added to a set. *)
Lemma run_sadd key x m :
  kind_ok KSet (value (m_now m) (m_db m) key) = true ->
  exists db, run (serve backend) (void (perform (Redis (SADD key x)))) m = (Done (Ok tt), with_db db m) /\
    x ∈ set_at (m_now m) db key /\ (forall k, k <> key -> value (m_now m) db k = value (m_now m) (m_db m) k).
Proof.
  intros Hk. unfold void. rewrite run_try, run_perform. cbn [serve fst snd]. unfold redis_exec, wrong_type. cbn [wants]. rewrite Hk.
  cbn [negb call_exec fst snd run]. unfold put_set. rewrite decide_False by set_solver. eexists. split; [done|]. split.
  - unfold set_at at 1. rewrite value_put. set_solver.
  - intros k Hne. by rewrite value_put_ne.
Qed.

(** C39. A batch task that [CreateTask] stores is the task that [GetTask] reads back, field by field, and from then on its id is a member of
    the set of pending tasks and of the set of all tasks, with every other key of the store as it was. It takes a task whose times fit 64 bits,
    whose optional strings are not empty and whose counts, usage, errors, expiry policy and metadata the JSON encoding carries over. *)
Theorem task_roundtrip t m :
  storable t -> value (m_now m) (m_db m) (getTaskKey (t_ID t)) = None ->
  kind_ok KSet (value (m_now m) (m_db m) getGlobalTaskSetKey) = true ->
  kind_ok KSet (value (m_now m) (m_db m) (getTaskSetKey StatusPending)) = true ->
  exists m', run (serve backend) (CreateTask t) m = (Done (Ok tt), m') /\ run (serve backend) (GetTask (t_ID t)) m' = (Done (Ok t), m') /\
    t_ID t ∈ set_at (m_now m') (m_db m') (getTaskSetKey StatusPending) /\ t_ID t ∈ set_at (m_now m') (m_db m') getGlobalTaskSetKey /\
    forall k, k ∉ [getTaskKey (t_ID t); getGlobalTaskSetKey; getTaskSetKey StatusPending] ->
      value (m_now m') (m_db m') k = value (m_now m) (m_db m) k.
Proof.
  intros Hst Hn Hg Hp. pose proof Hst as [[c Hc] [d Hd] _ _ _ _ _ _ _]. destruct (task_fields t) as [fields|] eqn:Hf.
  2: { unfold task_fields in Hf. by rewrite Hc, Hd in Hf. }
  unfold CreateTask. rewrite Hf, run_try, run_perform. cbn [serve fst snd]. unfold redis_exec, wrong_type. cbn [wants]. rewrite Hn.
  cbn [kind_ok negb call_exec fst snd]. unfold hash_at. rewrite Hn, (right_id_L ∅ (∪)).
  set (m1 := with_db _ m). rewrite run_try. unfold AddTaskToGlobalSet.
  assert (getTaskKey (t_ID t) <> getGlobalTaskSetKey) as N1 by done. assert (getTaskKey (t_ID t) <> getTaskSetKey StatusPending) as N2 by done.
  assert (getGlobalTaskSetKey <> getTaskSetKey StatusPending) as N3 by done.
  destruct (run_sadd getGlobalTaskSetKey (t_ID t) m1) as (db2 & -> & Hin2 & Ho2); [cbn; by rewrite value_put_ne|].
  destruct (run_sadd (getTaskSetKey StatusPending) (t_ID t) (with_db db2 m1)) as (db3 & -> & Hin3 & Ho3).
  { cbn. cbn in Ho2. rewrite Ho2 by done. by rewrite value_put_ne. }
  cbn in Hin2, Ho2, Hin3, Ho3. eexists. split; [done|]. split_and!.
  - apply (GetTask_fields t fields); [done..|]. cbn. rewrite Ho3, Ho2 by done. apply value_put.
  - done.
  - cbn. unfold set_at. rewrite Ho3 by done. done.
  - intros k Hk. cbn. rewrite Ho3, Ho2 by set_solver. rewrite value_put_ne by set_solver. done.
Qed.
End roundtrip.

(** A task with every optional field but the metadata. *)
Definition full_task : BatchTask :=
  mkTask "batch_7" "batch" "/v1/completions" "m" (Some [mkBatchError "" 0 "line 3 is empty" ""]) "batch_input_0" "24h" StatusFailed
    (Some "out") (Some "err") (Some 1000) (Some 1010) 87400 (Some 1020) None (Some 1030) None None None
    (Some (mkCounts 3 1 2)) (Some (mkUsage 0 None 0 None 42)) ∅ (Some (mkExpiresAfter "created_at" 3600)) (Some 1030) (Some "Bearer t").

Lemma full_task_storable : @storable small_json full_task.
Proof.
  assert (forall z, (MinInt64 <=? z) = true -> (z <=? MaxInt64) = true -> int64_range (Some z)) as Hz.
  { intros z H1 H2 z' [= <-]. split; by apply Z.leb_le. }
  assert (int64_range None) by done.
  split; try (by eexists); try (by intros x [= <-]); try (by intros []).
  - repeat apply Forall_cons_2; try apply Forall_nil_2; (by apply Hz) || done.
  - repeat apply Forall_cons_2; done.
Qed.

Lemma task_roundtrip_witness :
  exists m', run (serve echo) (@CreateTask small_json full_task) empty_machine = (Done (Ok tt), m') /\
    run (serve echo) (@GetTask small_json "batch_7") m' = (Done (Ok full_task), m') /\
    "batch_7" ∈ set_at (m_now m') (m_db m') (getTaskSetKey StatusPending) /\ "batch_7" ∈ set_at (m_now m') (m_db m') getGlobalTaskSetKey /\
    forall k, k ∉ [getTaskKey "batch_7"; getGlobalTaskSetKey; getTaskSetKey StatusPending] -> value (m_now m') (m_db m') k = value 0 ∅ k.
Proof. exact (@task_roundtrip small_json echo full_task empty_machine full_task_storable eq_refl eq_refl eq_refl). Defined.
