(* ===== verification/BatchLock.v ===== *)
(** * Locks of the batch service

    The seven lock operations of the store, in any order, at any time and by any
    worker: a lock that was handed out stays with its owner until the owner releases it
    or its time is nearly over. *)

From Stdlib Require Import Ascii.
From stdpp Require Import base gmap sets list strings numbers pretty.
From S2P Require Import Prelude GoStrings Types Programs Effects RedisSem BatchStore.

Local Open Scope prog_scope.
Local Open Scope Z_scope.

Section locks.
(** ** Calls *)

Inductive lock_call :=
| CallAcquireTask (taskID instanceID : string)
| CallExtendTask (taskID instanceID : string)
| CallReleaseTask (taskID instanceID : string)
| CallAcquireShard (taskID shardID instanceID workerID : string)
| CallRecoverShard (taskID shardID instanceID workerID : string)
| CallExtendShard (taskID shardID instanceID workerID : string)
| CallReleaseShard (taskID shardID instanceID workerID : string).

(** The program of a call: whether it hands out the lock. *)
Definition lock_program (c : lock_call) : prog (result bool) :=
  match c with
  | CallAcquireTask t i => AcquireTaskLock t i DefaultLockExpiration
  | CallExtendTask t i => ExtendTaskLock t i DefaultLockExpiration ;;? Ret (Ok false)
  | CallReleaseTask t i => ReleaseTaskLock t i ;;? Ret (Ok false)
  | CallAcquireShard t s i w => AcquireShardLock t s i w DefaultLockExpiration
  | CallRecoverShard t s i w => AcquireOrRecoverShardLock t s i w DefaultLockExpiration
  | CallExtendShard t s i w => ExtendShardLock t s i w DefaultLockExpiration ;;? Ret (Ok false)
  | CallReleaseShard t s i w => ReleaseShardLock t s i w ;;? Ret (Ok false)
  end.

Definition call_key (c : lock_call) : string :=
  match c with
  | CallAcquireTask t _ | CallExtendTask t _ | CallReleaseTask t _ => getTaskLockKey t
  | CallAcquireShard t s _ _ | CallRecoverShard t s _ _ | CallExtendShard t s _ _ | CallReleaseShard t s _ _ => getShardLockKey t s
  end.

Definition call_owner (c : lock_call) : string :=
  match c with
  | CallAcquireTask _ i | CallExtendTask _ i | CallReleaseTask _ i => i
  | CallAcquireShard _ _ i w | CallRecoverShard _ _ i w | CallExtendShard _ _ i w | CallReleaseShard _ _ i w => shard_owner i w
  end.

Definition releases (c : lock_call) : bool :=
  match c with CallReleaseTask _ _ | CallReleaseShard _ _ _ _ => true | _ => false end.

(** ** Runs against the server *)

Definition saw {X} (e : eff X) (now : Z) (db : keyspace) : X -> keyspace -> Prop :=
  match e in eff X return X -> keyspace -> Prop with
  | Redis c => fun r db' => client_sees r (call_result c now db) db db'
  | Eval s => fun r db' => client_sees r (lua_answers s now db) db db'
  | _ => fun _ _ => False
  end.

(** A program of calls and scripts returns [a] and leaves the keys [db']. *)
Fixpoint returns (now : Z) {A} (p : prog A) (db : keyspace) (a : A) (db' : keyspace) : Prop :=
  match p with
  | Ret b => a = b /\ db' = db
  | Panic | Hang => False
  | Do e k => exists x db1, saw e now db x db1 /\ returns now (k x) db1 a db'
  end.

(** Calls at growing times, with their answers. *)
Inductive history : Z -> keyspace -> list (lock_call * result bool) -> Z -> keyspace -> Prop :=
| history_nil now now' db : now <= now' -> history now db [] now' db
| history_cons now now1 now2 c r log db db1 db2 :
    now <= now1 -> returns now1 (lock_program c) db r db1 -> history now1 db1 log now2 db2 -> history now db ((c, r) :: log) now2 db2.

(** ** A lock that is held *)

Definition held (key owner : string) (until : Z) (db : keyspace) : Prop :=
  exists e, until <= e /\ db !! key = Some (RString owner, Some e).

Lemma held_value key owner until db now : held key owner until db -> now < until -> value now db key = Some (RString owner).
Proof. intros (e & He & H) Hn. unfold value, live. rewrite H. rewrite bool_decide_eq_false_2 by lia. done. Qed.

Lemma held_same key owner until db db' : db' !! key = db !! key -> held key owner until db -> held key owner until db'.
Proof. intros E (e & He & H). exists e. by rewrite E. Qed.

(** What an effect on the key [k] for the owner [o] may do while [owner] holds [key]. *)
Definition respects (key owner : string) (until : Z) (k o : string) (granted : Prop) (db db' : keyspace) : Prop :=
  held key owner until db -> held key owner until db' /\ (k = key -> o <> owner -> ~ granted).

Section held.
Context (key owner : string) (until now : Z).
Hypothesis early : now + 10 ^ 9 <= until.
Hypothesis late : until <= now + seconds DefaultLockExpiration.

Lemma held_at db : held key owner until db -> value now db key = Some (RString owner).
Proof. intros H. apply (held_value _ _ _ _ _ H). lia. Qed.

Lemma setnx_respects k o r db db' :
  call_result (SETNX k o DefaultLockExpiration) now db r db' -> respects key owner until k o (r = Ok true) db db'.
Proof.
  unfold call_result, wrong_type. cbn. intros (x & -> & H) Hh. destruct (decide (k = key)) as [->|Hk].
  - rewrite (held_at db Hh) in H. by destruct H as [-> ->].
  - split; [|done]. apply (held_same _ _ _ db); [|done]. destruct (value now db k); destruct H as [-> _]; [done|]. by rewrite lookup_insert_ne.
Qed.

(** The common start of the three scripts. *)
Lemma script_get {A} k (f : option string -> lua A) r db db' :
  lua_answers (LCall (GET k) f) now db r db' ->
  (db' = db /\ exists e, r = Err e) \/ lua_answers (f (string_at now db k)) now db r db'.
Proof. cbn. intros [(_ & He & ->)|(_ & x & db1 & [-> ->] & H)]; [by left|by right]. Qed.

Lemma script_expire {A} k n (f : Z -> lua A) r db db' :
  lua_answers (LCall (EXPIRE k n) f) now db r db' ->
  exists x, lua_answers (f x) now
    match value now db k with None => db | Some v => <[k := (v, Some (now + seconds n))]> db end r db'.
Proof.
  cbn. unfold wrong_type. cbn. intros [[? _]|(_ & x & db1 & H & H')]; [done|]. exists x. by destruct (value now db k); destruct H as [<- _].
Qed.

Lemma extend_respects k o r db db' :
  lua_answers (extend_script k o DefaultLockExpiration) now db r db' -> respects key owner until k o False db db'.
Proof.
  intros H Hh. split; [|tauto]. apply script_get in H as [[-> _]|H]; [done|]. case_decide as E.
  - apply script_expire in H as [x [_ ->]]. destruct (decide (k = key)) as [->|Hk].
    + rewrite (held_at db Hh). exists (now + seconds DefaultLockExpiration). split; [done|apply lookup_insert_eq].
    + destruct (value now db k); [|done]. apply (held_same _ _ _ db); [by rewrite lookup_insert_ne|done].
  - by destruct H as [_ ->].
Qed.

Lemma string_held db : held key owner until db -> string_at now db key = Some owner.
Proof. intros H. unfold string_at. by rewrite (held_at db H). Qed.

Lemma release_respects k o r db db' :
  (k = key -> o <> owner) -> lua_answers (release_script k o) now db r db' -> respects key owner until k o False db db'.
Proof.
  intros Hno H Hh. split; [|tauto]. apply script_get in H as [[-> _]|H]; [done|].
  destruct (string_at now db k) as [c|] eqn:E; [|by destruct H as [_ ->]]. case_decide as Ec; [|by destruct H as [_ ->]]. subst c.
  destruct H as [(_ & _ & ->)|(_ & x & db1 & [-> _] & [_ ->])]; [done|]. apply (held_same _ _ _ db); [|done].
  destruct (decide (k = key)) as [->|Hk]; [rewrite (string_held db Hh) in E; by destruct (Hno eq_refl); simplify_eq|].
  rewrite map_lookup_filter. destruct (db !! key); [|done]. cbn. by rewrite option_guard_True by set_solver.
Qed.

Lemma setex_other k o r db db' :
  k <> key -> lua_answers (LCall (SETEX k o DefaultLockExpiration) (fun _ => LRet 1)) now db r db' ->
  held key owner until db -> held key owner until db'.
Proof.
  intros Hk [(_ & _ & ->)|(_ & x & db1 & E & [_ ->])]; [done|]. cbn in E. subst db1. apply held_same. by rewrite lookup_insert_ne.
Qed.

(** More than a second is left: the owner of another id is turned away. *)
Lemma recover_held o r db db' :
  lua_answers (recover_script key o DefaultLockExpiration) now db r db' -> held key owner until db ->
  held key owner until db' /\ (o <> owner -> r <> Ok 1).
Proof.
  intros H Hh. apply script_get in H as [[-> [e ->]]|H]; [done|]. rewrite (string_held db Hh) in H. case_decide as E.
  - subst o. split; [|done]. apply script_expire in H as [x [_ ->]]. rewrite (held_at db Hh).
    exists (now + seconds DefaultLockExpiration). split; [done|apply lookup_insert_eq].
  - destruct H as [(_ & [e ->] & ->)|(_ & ttl & db1 & [-> Ht] & H)]; [done|]. rewrite (held_at db Hh) in Ht.
    destruct Hh as (e & He & Hd). unfold expiry, live in Ht. rewrite Hd, bool_decide_eq_false_2 in Ht by lia. cbn in Ht.
    rewrite decide_False in H by lia. destruct H as [-> ->]. split; [by exists e|done].
Qed.

Lemma recover_respects k o r db db' :
  lua_answers (recover_script k o DefaultLockExpiration) now db r db' -> respects key owner until k o (r = Ok 1) db db'.
Proof.
  intros H Hh. destruct (decide (k = key)) as [->|Hk]; [by destruct (recover_held o r db db' H Hh); split; [|intros _]|]. split; [|done].
  apply script_get in H as [[-> _]|H]; [done|]. destruct (string_at now db k) as [c|]; [|by apply (setex_other _ _ _ _ _ Hk H)]. case_decide.
  - apply script_expire in H as [x [_ ->]]. destruct (value now db k); [|done]. apply (held_same _ _ _ db); [by rewrite lookup_insert_ne|done].
  - destruct H as [(_ & _ & ->)|(_ & ttl & db1 & [-> _] & H)]; [done|]. case_decide; [by apply (setex_other _ _ _ _ _ Hk H)|by destruct H as [_ ->]].
Qed.

(** An effect seen through a client that may lose the answer. *)
Lemma seen_respects {A} (exec : result A -> keyspace -> Prop) k o (P : result A -> Prop) r db db' :
  (forall r db', exec r db' -> respects key owner until k o (P r) db db') -> (forall e, ~ P (Err e)) ->
  client_sees r exec db db' -> respects key owner until k o (P r) db db'.
Proof.
  intros He Hn [H|[[e ->] [->|[r' H]]]]; [by apply He|done|]. intros Hh. split; [by destruct (He r' db' H Hh)|done].
Qed.

(** The programs of the calls: one effect each. *)
Lemma returns_perform {A B} (e : eff (result A)) (f : A -> prog (result B)) r db db' :
  returns now (x ←? perform e; f x) db r db' ->
  exists x db1, saw e now db x db1 /\ match x with Ok a => returns now (f a) db1 r db' | Err err => r = Err err /\ db' = db1 end.
Proof. intros (x & db1 & Hs & H). exists x, db1. split; [done|]. by destruct x. Qed.

Lemma returns_void_eval (sc : lua Z) (b : bool) r db db' :
  returns now (void (perform (Eval sc)) ;;? Ret (Ok b)) db r db' ->
  exists x, client_sees x (lua_answers sc now db) db db' /\ (r = Ok b \/ exists e, r = Err e).
Proof.
  intros (x & db1 & Hs & H). exists x. destruct x as [z|e]; destruct H as [-> ->]; eauto.
Qed.

Lemma weaken_respects k o (P Q : Prop) db db' : (Q -> P) -> respects key owner until k o P db db' -> respects key owner until k o Q db db'.
Proof. intros HPQ H Hh. destruct (H Hh) as [H1 H2]. split; [done|]. intros E No HQ. by apply (H2 E No), HPQ. Qed.

Lemma not_true (r : result bool) : r = Ok false \/ (exists e, r = Err e) -> r = Ok true -> False.
Proof. by intros [->|[e ->]]. Qed.

Lemma acquire_respects k o r db db' :
  returns now (perform (Redis (SETNX k o DefaultLockExpiration))) db r db' -> respects key owner until k o (r = Ok true) db db'.
Proof.
  intros (x & db1 & Hs & [-> ->]). apply (seen_respects _ k o (fun r => r = Ok true) x db db1 (fun r db' => setnx_respects k o r db db')); [done|exact Hs].
Qed.

Lemma extends_respects k o r db db' :
  returns now (void (perform (Eval (extend_script k o DefaultLockExpiration))) ;;? Ret (Ok false)) db r db' ->
  respects key owner until k o (r = Ok true) db db'.
Proof.
  intros (x & Hs & Hr)%returns_void_eval. apply (weaken_respects _ _ False); [by apply not_true|].
  apply (seen_respects _ k o (fun _ => False) x db db' (fun r db' => extend_respects k o r db db')); [auto|exact Hs].
Qed.

Lemma releases_respects k o r db db' :
  (k = key -> o <> owner) -> returns now (void (perform (Eval (release_script k o))) ;;? Ret (Ok false)) db r db' ->
  respects key owner until k o (r = Ok true) db db'.
Proof.
  intros Hno (x & Hs & Hr)%returns_void_eval. apply (weaken_respects _ _ False); [by apply not_true|].
  apply (seen_respects _ k o (fun _ => False) x db db' (fun r db' => release_respects k o r db db' Hno)); [auto|exact Hs].
Qed.

(** One call of the store. *)
Lemma call_respects c r db db' :
  (releases c = true -> call_key c = key -> call_owner c <> owner) -> returns now (lock_program c) db r db' ->
  respects key owner until (call_key c) (call_owner c) (r = Ok true) db db'.
Proof.
  intros Hr. destruct c; cbn [lock_program call_key call_owner].
  - apply acquire_respects.
  - apply extends_respects.
  - apply releases_respects. auto.
  - apply acquire_respects.
  - intros (x & db1 & Hs & H)%returns_perform. apply (weaken_respects _ _ (x = Ok 1)).
    { destruct x as [z|e]; destruct H as [-> _]; [|done]. intros [= Hz%bool_decide_eq_true]. by subst. }
    assert (db' = db1) as -> by (by destruct x; destruct H).
    apply (seen_respects _ _ _ (fun x => x = Ok 1) x db db1 (fun r db' => recover_respects _ _ r db db')); [done|exact Hs].
  - apply extends_respects.
  - apply releases_respects. auto.
Qed.
End held.

(** ** The calls that hand out a lock *)

Lemma setnx_grants now key owner db db' :
  client_sees (Ok true) (call_result (SETNX key owner DefaultLockExpiration) now db) db db' ->
  held key owner (now + seconds DefaultLockExpiration) db'.
Proof.
  intros [H|[[e [=]] _]]. unfold call_result, wrong_type in H. cbn in H. destruct H as (x & [= <-] & H).
  destruct (value now db key); destruct H as [-> [=]]. eexists. split; [|apply lookup_insert_eq]. lia.
Qed.

Lemma recover_grants now key owner db db' :
  client_sees (Ok 1) (lua_answers (recover_script key owner DefaultLockExpiration) now db) db db' ->
  held key owner (now + seconds DefaultLockExpiration) db'.
Proof.
  intros [H|[[e [=]] _]]. apply script_get in H as [[_ [e [=]]]|H].
  assert (forall db0, lua_answers (LCall (SETEX key owner DefaultLockExpiration) (fun _ => LRet 1)) now db0 (Ok 1) db' ->
    held key owner (now + seconds DefaultLockExpiration) db') as Hset.
  { intros db0 [(_ & [e [=]] & _)|(_ & x & db1 & E & [_ ->])]. cbn in E. subst db1. eexists. split; [|apply lookup_insert_eq]. lia. }
  destruct (string_at now db key) as [c|] eqn:E; [|by apply Hset in H]. case_decide as Ec.
  - subst c. apply script_expire in H as [x [_ ->]]. unfold string_at in E. destruct (value now db key) as [[s| |]|]; simplify_eq.
    eexists. split; [|apply lookup_insert_eq]. lia.
  - destruct H as [(_ & [e [=]] & _)|(_ & ttl & db1 & [-> _] & H)]. case_decide; [by apply Hset in H|by destruct H as [[=] _]].
Qed.

Lemma grants now c db db' :
  returns now (lock_program c) db (Ok true) db' -> held (call_key c) (call_owner c) (now + seconds DefaultLockExpiration) db'.
Proof.
  destruct c; cbn [lock_program call_key call_owner].
  - intros (x & db1 & Hs & [<- ->]). by apply (setnx_grants _ _ _ db).
  - by intros (x & _ & [[=]|[e [=]]])%returns_void_eval.
  - by intros (x & _ & [[=]|[e [=]]])%returns_void_eval.
  - intros (x & db1 & Hs & [<- ->]). by apply (setnx_grants _ _ _ db).
  - intros (x & db1 & Hs & H)%returns_perform. destruct x as [z|e]; [|by destruct H]. destruct H as [[= Hz] ->]. symmetry in Hz.
    apply bool_decide_eq_true in Hz as ->. by apply (recover_grants _ _ _ db).
  - by intros (x & _ & [[=]|[e [=]]])%returns_void_eval.
  - by intros (x & _ & [[=]|[e [=]]])%returns_void_eval.
Qed.

Lemma history_held key owner until now db log now' db' :
  history now db log now' db' -> until <= now + seconds DefaultLockExpiration -> now' + 10 ^ 9 <= until ->
  Forall (fun '(c, _) => releases c = true -> call_key c = key -> call_owner c <> owner) log ->
  held key owner until db ->
  held key owner until db' /\ Forall (fun '(c, r) => call_key c = key -> call_owner c <> owner -> r <> Ok true) log /\ now <= now'.
Proof.
  induction 1 as [|now now1 now2 c r log db db1 db2 Hle Hr Hh IH]; intros Hl He Hrel Hheld; [by split_and!|].
  apply Forall_cons_iff in Hrel as [Hc Hrel].
  assert (now1 <= now2) as Hle2 by (clear -Hh; induction Hh; lia).
  destruct (call_respects key owner until now1 ltac:(lia) ltac:(lia) c r db db1 Hc Hr Hheld) as [Hheld1 Hno].
  destruct (IH ltac:(lia) He Hrel Hheld1) as (H1 & H2 & H3). split; [done|]. split; [|lia]. by apply Forall_cons_iff.
Qed.

(** C22. Whoever is handed a task or shard lock of the batch service keeps it: from the moment the acquisition or recovery succeeds until one
    second before its five minutes are over, whatever calls the workers of all replicas make on any locks, in any order and with answers lost on the
    way, every attempt of another owner to acquire or recover that lock fails, and the key still names the holder, as long as the holder does not release it. *)
Theorem lock_exclusive now now' c db db1 log db' :
  returns now (lock_program c) db (Ok true) db1 -> history now db1 log now' db' ->
  Forall (fun '(c', _) => releases c' = true -> call_key c' = call_key c -> call_owner c' <> call_owner c) log ->
  now' + 10 ^ 9 <= now + seconds DefaultLockExpiration ->
  Forall (fun '(c', r) => call_key c' = call_key c -> call_owner c' <> call_owner c -> r <> Ok true) log /\
  string_at now' db' (call_key c) = Some (call_owner c).
Proof.
  intros Hg Hh Hr Ht. apply grants in Hg. destruct (history_held _ _ _ _ _ _ _ _ Hh (Z.le_refl _) Ht Hr Hg) as (H & Hlog & _).
  split; [done|]. by apply (string_held _ _ (now + seconds DefaultLockExpiration)).
Qed.

End locks.

(** A worker of one replica takes a shard, one of another replica asks for it twice, the first worker extends its time. *)
Definition lock_a : lock_call := CallAcquireShard "t" "s" "a" "1".
Definition lock_log : list (lock_call * result bool) :=
  [(CallAcquireShard "t" "s" "b" "1", Ok false); (CallRecoverShard "t" "s" "b" "1", Ok false); (CallExtendShard "t" "s" "a" "1", Ok false)].

Definition lock_db (e : Z) : keyspace := {["shard:lock:t:s" := (RString "a:1", Some e)]}.

Lemma lock_exclusive_witness :
  Forall (fun '(c', r) => call_key c' = call_key lock_a -> call_owner c' <> call_owner lock_a -> r <> Ok true) lock_log /\
  string_at (seconds 20) (lock_db (seconds 320)) (call_key lock_a) = Some (call_owner lock_a).
Proof.
  apply (lock_exclusive 0 (seconds 20) lock_a ∅ (lock_db (seconds 300)) lock_log (lock_db (seconds 320))).
  - exists (Ok true), (lock_db (seconds 300)). split; [|by split]. left. exists true. by split.
  - apply history_cons with (seconds 10) (lock_db (seconds 300)); [done| |].
    { exists (Ok false), (lock_db (seconds 300)). split; [|by split]. left. exists false. by split. }
    apply history_cons with (seconds 10) (lock_db (seconds 300)); [done| |].
    { exists (Ok 0), (lock_db (seconds 300)). split; [|by split]. left. right. split; [done|]. exists (Some "a:1"), (lock_db (seconds 300)). split; [done|].
      right. split; [done|]. exists 290, (lock_db (seconds 300)). split; [split; [done|]|by split]. assert (value (seconds 10) (lock_db (seconds 300)) "shard:lock:t:s" = Some (RString "a:1")) as E by done.
      change (getShardLockKey "t" "s") with "shard:lock:t:s". rewrite E. assert (expiry (seconds 10) (lock_db (seconds 300)) "shard:lock:t:s" = Some (seconds 300)) as -> by done. by vm_compute. }
    apply history_cons with (seconds 20) (lock_db (seconds 320)); [done| |by apply history_nil].
    exists (Ok 1), (lock_db (seconds 320)). split; [|by split]. left. right. split; [done|]. exists (Some "a:1"), (lock_db (seconds 300)). split; [done|].
    right. split; [done|]. exists 1, (lock_db (seconds 320)). split; [by split|by split].
  - repeat apply Forall_cons_2; done.
  - by vm_compute.
Defined.
