(* ===== verification/GatewayErrors.v ===== *)
(** * Errors of the gateway

    The error values that travel through the gateway ([pkg/consts/error.go]): the
    sentinels of [Types], upstream and network errors, errors of the request's context,
    and errors that wrap another one. *)

From Stdlib Require Import Ascii.
From stdpp Require Import base list strings numbers.
From S2P Require Import Prelude GoStrings Types.

Local Open Scope Z_scope.

Inductive gerror :=
  | Sentinel (e : error)
  | UpstreamError (StatusCode : Z) (Body URL InstanceID : string)
  | NetworkError (URL : string) (Err : option gerror) (InstanceID : string)
  | Wrapped (msg : string) (cause : gerror)
  | ContextCanceled
  | DeadlineExceeded
  | EOF.

#[export] Instance gerror_eq_dec : EqDecision gerror.
Proof.
  refine (fix go (x y : gerror) {struct x} : Decision (x = y) :=
    match x, y with
    | Sentinel e, Sentinel e' => cast_if (decide (e = e'))
    | UpstreamError c b u i, UpstreamError c' b' u' i' => cast_if (decide ((c, b, u, i) = (c', b', u', i')))
    | NetworkError u (Some e) i, NetworkError u' (Some e') i' => cast_if_and (go e e') (decide ((u, i) = (u', i')))
    | NetworkError u None i, NetworkError u' None i' => cast_if (decide ((u, i) = (u', i')))
    | Wrapped m e, Wrapped m' e' => cast_if_and (go e e') (decide (m = m'))
    | ContextCanceled, ContextCanceled => left eq_refl
    | DeadlineExceeded, DeadlineExceeded => left eq_refl
    | EOF, EOF => left eq_refl
    | _, _ => right _
    end); abstract congruence.
Defined.

Definition errorf (msg : string) : gerror := Sentinel (ErrorOther msg).

(** [errors.As] and [errors.Is] follow the chain of wrapped errors. *)
Fixpoint chain (e : gerror) : list gerror :=
  e :: match e with NetworkError _ (Some e) _ => chain e | Wrapped _ e => chain e | _ => [] end.

Definition errors_Is (e target : gerror) : bool := bool_decide (target ∈ chain e).

(** The status code and body of the first upstream error of the chain. *)
Definition as_upstream (e : gerror) : option (Z * string) :=
  head (omap (fun e => match e with UpstreamError c b _ _ => Some (c, b) | _ => None end) (chain e)).

(** [errors.As(err, &retryableErr)]: the first upstream or network error of the chain. *)
Definition as_retryable (e : gerror) : option gerror :=
  head (omap (fun e => match e with UpstreamError _ _ _ _ | NetworkError _ _ _ => Some e | _ => None end) (chain e)).

Definition IsRetryable (e : gerror) : bool :=
  match e with
  | UpstreamError c _ _ _ => bool_decide (500 <= c)
  | NetworkError _ None _ => false
  | NetworkError _ (Some e) _ => negb (errors_Is e ContextCanceled) && negb (errors_Is e DeadlineExceeded)
  | _ => false
  end.

Definition FailedInstanceID (e : gerror) : string :=
  match e with UpstreamError _ _ _ i | NetworkError _ _ i => i | _ => "" end.

(** Whether the gateway may try again after this error. *)
Definition retryable (e : gerror) : bool := match as_retryable e with Some e => IsRetryable e | None => false end.

(** pkg/gateway/queue/ratelimit_retry_queue.go *)
Definition IsRateLimitError (e : gerror) : bool :=
  match as_upstream e with Some (c, _) => bool_decide (c = 429) | None => false end.

(** A Go [(T, error)] pair. *)
Inductive gresult (A : Type) := GOk (a : A) | GErr (e : gerror).
Arguments GOk {A} a.
Arguments GErr {A} e.
