(* ===== verification/Queue.v ===== *)
(** * The request buffer of the gateway

    [pkg/gateway/queue]: the priority queue, the pool of workers that serves it and the
    queue that retries rate-limited requests. Each operation of the priority queue runs
    under its mutex; a worker that waits on the condition variable is a call of
    [WaitPop] that does not return yet. *)

From Stdlib Require Import Ascii.
From stdpp Require Import base list strings numbers.
From S2P Require Import Prelude GoStrings Types GoHeap GatewayErrors.

Local Open Scope Z_scope.

(** ** priority_queue.go *)

Section priority_queue.
Context {Task : Type}.

Record Item := mkItem { priority : Z; index : Z; task : Task }.

Definition LessCompare (x y : Item) : bool :=
  if decide (priority x <> priority y) then bool_decide (priority x < priority y) else bool_decide (index x < index y).

Record PriorityQueue := mkPQ { h : list Item; ready : bool; nextIndex : Z }.

Definition NewPriorityQueue : PriorityQueue := mkPQ [] true 0.

Definition Push (t : Task) (isHigherPriority : bool) (pq : PriorityQueue) : PriorityQueue :=
  mkPQ (heap_Push LessCompare (mkItem (if isHigherPriority then 0 else 1) (nextIndex pq) t) (h pq)) (ready pq) (int64 (nextIndex pq + 1)).

(** [Some t]: the task; [None]: nil. *)
Definition TryPop (pq : PriorityQueue) : option Task * PriorityQueue :=
  if negb (ready pq) || bool_decide (length (h pq) = 0%nat) then (None, pq)
  else match heap_Pop LessCompare (h pq) with
       | Some (item, h') => (Some (task item), mkPQ h' (ready pq) (nextIndex pq))
       | None => (None, pq)
       end.

(** [None]: the caller waits on. *)
Definition WaitPop (pq : PriorityQueue) : option (option Task * PriorityQueue) :=
  if ready pq && bool_decide (length (h pq) = 0%nat) then None
  else if negb (ready pq) then Some (None, pq)
  else match heap_Pop LessCompare (h pq) with
       | Some (item, h') => Some (Some (task item), mkPQ h' (ready pq) (nextIndex pq))
       | None => None
       end.

Definition Len (pq : PriorityQueue) : nat := length (h pq).
Definition Close (pq : PriorityQueue) : PriorityQueue := mkPQ (h pq) false (nextIndex pq).

(** ** What the queue promises: two queues in order of arrival *)

Record spec := mkSpec { high : list Task; normal : list Task; open : bool }.

Definition spec_Push (t : Task) (isHigherPriority : bool) (s : spec) : spec :=
  if isHigherPriority then mkSpec (high s ++ [t]) (normal s) (open s) else mkSpec (high s) (normal s ++ [t]) (open s).

Definition spec_next (s : spec) : option (Task * spec) :=
  match high s, normal s with
  | t :: hs, _ => Some (t, mkSpec hs (normal s) (open s))
  | [], t :: ns => Some (t, mkSpec [] ns (open s))
  | [], [] => None
  end.

Definition spec_TryPop (s : spec) : option Task * spec :=
  if open s then match spec_next s with Some (t, s') => (Some t, s') | None => (None, s) end else (None, s).

Definition spec_WaitPop (s : spec) : option (option Task * spec) :=
  if open s then match spec_next s with Some (t, s') => Some (Some t, s') | None => None end else Some (None, s).

Definition spec_Close (s : spec) : spec := mkSpec (high s) (normal s) false.

(** ** The order of items *)

Lemma LessCompare_spec x y :
  LessCompare x y = true <-> priority x < priority y \/ priority x = priority y /\ index x < index y.
Proof. unfold LessCompare. case_decide; rewrite bool_decide_eq_true; lia. Qed.

Lemma LessCompare_false x y :
  LessCompare x y = false <-> priority y < priority x \/ priority x = priority y /\ index y <= index x.
Proof. rewrite <- not_true_iff_false, LessCompare_spec. lia. Qed.

Lemma LessCompare_asym x y : LessCompare x y = true -> LessCompare y x = false.
Proof. rewrite LessCompare_spec, LessCompare_false. lia. Qed.

Lemma LessCompare_neg_trans x y z : LessCompare y x = false -> LessCompare z y = false -> LessCompare z x = false.
Proof. rewrite !LessCompare_false. lia. Qed.

(** ** Refinement *)

Definition rising (items : list Item) : Prop := forall i j x y, (i < j)%nat -> items !! i = Some x -> items !! j = Some y -> index x < index y.

Record lane (p : Z) (next : Z) (items : list Item) (tasks : list Task) : Prop := mkLane {
  ln_tasks : tasks = task <$> items;
  ln_priority : Forall (fun x => priority x = p) items;
  ln_index : Forall (fun x => index x < next) items;
  ln_rising : rising items
}.

Record implements (pq : PriorityQueue) (s : spec) : Prop := mkImplements {
  im_ready : ready pq = open s;
  im_heap : is_heap LessCompare (h pq);
  im_lanes : exists hs ns, h pq ≡ₚ hs ++ ns /\ lane 0 (nextIndex pq) hs (high s) /\ lane 1 (nextIndex pq) ns (normal s)
}.

Lemma lane_push p next items tasks t :
  lane p next items tasks -> lane p (next + 1) (items ++ [mkItem p next t]) (tasks ++ [t]).
Proof.
  intros [-> Hp Hi Hr]. split.
  - by rewrite fmap_app.
  - apply Forall_app. split; [done|]. by apply Forall_singleton.
  - apply Forall_app. split; [|apply Forall_singleton; cbn; lia]. eapply Forall_impl; [|exact Hi]. cbn. lia.
  - intros i j x y Hij Hx Hy. apply lookup_lt_Some in Hy as Hlt. rewrite length_app in Hlt. cbn in Hlt.
    rewrite lookup_app_l in Hx by lia. destruct (decide (j = length items)) as [->|Nj].
    + rewrite lookup_app_r, Nat.sub_diag in Hy by lia. injection Hy as <-. cbn. by apply (Forall_lookup_1 _ _ _ _ Hi Hx).
    + rewrite lookup_app_l in Hy by lia. by apply (Hr i j).
Qed.

Lemma lane_weaken p next items tasks : lane p next items tasks -> lane p (next + 1) items tasks.
Proof. intros [-> Hp Hi Hr]. split; [done..| |done]. eapply Forall_impl; [|exact Hi]. cbn. lia. Qed.

Lemma lane_tail p next x items tasks : lane p next (x :: items) tasks -> lane p next items (tail tasks).
Proof.
  intros [-> Hp Hi Hr]. apply Forall_cons_iff in Hp as [_ Hp]. apply Forall_cons_iff in Hi as [_ Hi]. split; [done..|].
  intros i j y z Hij. apply (Hr (S i) (S j)). lia.
Qed.

(** The first item of a lane comes before the others. *)
Lemma lane_first p next x items tasks y : lane p next (x :: items) tasks -> y ∈ items -> LessCompare x y = true.
Proof.
  intros [_ Hp _ Hr] [k Hk]%list_elem_of_lookup. apply LessCompare_spec. right. split; [|by apply (Hr 0%nat (S k)); [lia|..]].
  apply Forall_cons_iff in Hp as [-> Hp]. symmetry. by apply (Forall_lookup_1 _ _ _ _ Hp Hk).
Qed.

Lemma lanes_differ next hs ns th tn x y :
  lane 0 next hs th -> lane 1 next ns tn -> x ∈ hs -> y ∈ ns -> LessCompare x y = true.
Proof.
  intros [_ H0 _ _] [_ H1 _ _] Hx Hy. rewrite List.Forall_forall in H0, H1. apply list_elem_of_In in Hx, Hy. apply LessCompare_spec. left. rewrite (H0 x Hx), (H1 y Hy). lia.
Qed.

Lemma implements_push pq s t b : implements pq s -> nextIndex pq < MaxInt64 -> 0 <= nextIndex pq -> implements (Push t b pq) (spec_Push t b s).
Proof.
  intros [Hr Hh (hs & ns & Hp & Lh & Ln)] Hn H0. unfold Push. rewrite int64_small by (unfold MaxInt64, MinInt64 in *; lia).
  set (x := mkItem (if b then 0 else 1) (nextIndex pq) t).
  destruct (Push_heap LessCompare LessCompare_asym LessCompare_neg_trans x (h pq) Hh) as [Hh' Hp']. split; cbn [h ready nextIndex].
  - by destruct b.
  - done.
  - destruct b; cbn [spec_Push high normal].
    + exists (hs ++ [x]), ns. split; [|split; [by apply lane_push|by apply lane_weaken]]. rewrite Hp', Hp. rewrite <- app_assoc. apply Permutation_middle.
    + exists hs, (ns ++ [x]). split; [|split; [by apply lane_weaken|by apply lane_push]]. rewrite Hp', Hp, app_assoc. apply Permutation_cons_append.
Qed.

(** Popping returns the item that comes before all others. *)
Lemma pop_first q a rest :
  is_heap LessCompare q -> q ≡ₚ a :: rest -> (forall y, y ∈ rest -> LessCompare a y = true) ->
  exists q', heap_Pop LessCompare q = Some (a, q') /\ is_heap LessCompare q' /\ q' ≡ₚ rest.
Proof.
  intros Hh Hp Hfirst. destruct (Pop_heap LessCompare LessCompare_asym LessCompare_neg_trans q Hh) as (x & q' & E & Hh' & Hp' & Hmin).
  { intros ->. by apply Permutation_nil_l in Hp. }
  assert (x ∈ a :: rest) as Hx by (rewrite <- Hp, Hp'; by left). assert (x = a) as ->.
  { apply elem_of_cons in Hx as [->|Hx]; [done|]. assert (le LessCompare x a) as Hl by (apply Hmin; rewrite Hp; by left).
    unfold le in Hl. by rewrite (Hfirst x Hx) in Hl. }
  exists q'. split; [done|]. split; [done|]. rewrite Hp' in Hp. by apply Permutation_cons_inv in Hp.
Qed.

Lemma implements_pop pq s : implements pq s ->
  match spec_next s with
  | None => h pq = []
  | Some (t, s') => exists x h', heap_Pop LessCompare (h pq) = Some (x, h') /\ task x = t /\ implements (mkPQ h' (ready pq) (nextIndex pq)) s' /\ h pq <> []
  end.
Proof.
  intros [Hr Hh (hs & ns & Hp & Lh & Ln)]. unfold spec_next. rewrite (ln_tasks _ _ _ _ Lh), (ln_tasks _ _ _ _ Ln).
  destruct hs as [|a hs]; [destruct ns as [|a ns]|]; cbn [app fmap list_fmap] in *.
  - by apply Permutation_nil_r in Hp.
  - destruct (pop_first _ _ _ Hh Hp) as (h' & E & Hh' & Hp'); [by intros y; apply (lane_first _ _ _ _ _ _ Ln)|].
    exists a, h'. split; [done|]. split; [done|]. split; [|intros E'; rewrite E' in Hp; by apply Permutation_nil_l in Hp]. split; [done..|].
    exists [], ns. split; [done|]. split; [by rewrite (ln_tasks _ _ _ _ Lh) in Lh|]. pose proof (lane_tail _ _ _ _ _ Ln) as L. by rewrite (ln_tasks _ _ _ _ Ln) in L.
  - destruct (pop_first _ _ _ Hh Hp) as (h' & E & Hh' & Hp').
    { intros y [Hy|Hy]%elem_of_app; [by apply (lane_first _ _ _ _ _ _ Lh)|]. apply (lanes_differ _ _ _ _ _ _ _ Lh Ln); [by left|done]. }
    exists a, h'. split; [done|]. split; [done|]. split; [|intros E'; rewrite E' in Hp; by apply Permutation_nil_l in Hp]. split; [done..|].
    exists hs, ns. split; [done|]. pose proof (lane_tail _ _ _ _ _ Lh) as L. rewrite (ln_tasks _ _ _ _ Lh) in L. split; [done|]. by rewrite (ln_tasks _ _ _ _ Ln) in Ln.
Qed.

(** ** Runs *)

Inductive pq_op := OpPush (t : Task) (isHigherPriority : bool) | OpTryPop | OpWaitPop | OpLen | OpClose.
Inductive seen := SeenNothing | SeenTask (t : option Task) | SeenWaiting | SeenLen (n : nat).

Definition pq_step (pq : PriorityQueue) (o : pq_op) : seen * PriorityQueue :=
  match o with
  | OpPush t b => (SeenNothing, Push t b pq)
  | OpTryPop => let '(t, pq) := TryPop pq in (SeenTask t, pq)
  | OpWaitPop => match WaitPop pq with Some (t, pq) => (SeenTask t, pq) | None => (SeenWaiting, pq) end
  | OpLen => (SeenLen (Len pq), pq)
  | OpClose => (SeenNothing, Close pq)
  end.

Definition spec_step (s : spec) (o : pq_op) : seen * spec :=
  match o with
  | OpPush t b => (SeenNothing, spec_Push t b s)
  | OpTryPop => let '(t, s) := spec_TryPop s in (SeenTask t, s)
  | OpWaitPop => match spec_WaitPop s with Some (t, s) => (SeenTask t, s) | None => (SeenWaiting, s) end
  | OpLen => (SeenLen (length (high s) + length (normal s)), s)
  | OpClose => (SeenNothing, spec_Close s)
  end.

Fixpoint observe {S} (step : S -> pq_op -> seen * S) (s : S) (ops : list pq_op) : list seen :=
  match ops with [] => [] | o :: ops => let '(x, s') := step s o in x :: observe step s' ops end.

Lemma implements_len pq s : implements pq s -> Len pq = (length (high s) + length (normal s))%nat.
Proof.
  intros [_ _ (hs & ns & Hp & Lh & Ln)]. unfold Len. rewrite (Permutation_length Hp), length_app, (ln_tasks _ _ _ _ Lh), (ln_tasks _ _ _ _ Ln).
  by rewrite !length_fmap.
Qed.

Lemma implements_step pq s o :
  implements pq s -> 0 <= nextIndex pq < MaxInt64 ->
  (pq_step pq o).1 = (spec_step s o).1 /\ implements (pq_step pq o).2 (spec_step s o).2 /\
  nextIndex pq <= nextIndex (pq_step pq o).2 <= nextIndex pq + 1.
Proof.
  intros Hi Hn. pose proof (implements_pop _ _ Hi) as Hpop. pose proof (im_ready _ _ Hi) as Hr. destruct o; cbn [pq_step spec_step].
  - split; [done|]. split; [apply implements_push; (done || lia)|]. cbn. rewrite int64_small by (unfold MaxInt64, MinInt64 in *; lia). lia.
  - unfold TryPop, spec_TryPop. rewrite Hr. destruct (open s); cbn [negb orb]; [|split_and!; (done || (cbn; lia))].
    destruct (spec_next s) as [[t s']|].
    + destruct Hpop as (x & h' & E & Ht & Hi' & Hne). rewrite bool_decide_eq_false_2 by (by destruct (h pq)). rewrite E, Ht, <- Hr. cbn. split_and!; (done || (cbn; lia)).
    + rewrite Hpop, bool_decide_eq_true_2 by done. split_and!; (done || (cbn; lia)).
  - unfold WaitPop, spec_WaitPop. rewrite Hr. destruct (open s); cbn [negb andb]; [|split_and!; (done || (cbn; lia))].
    destruct (spec_next s) as [[t s']|].
    + destruct Hpop as (x & h' & E & Ht & Hi' & Hne). rewrite bool_decide_eq_false_2 by (by destruct (h pq)). rewrite E, Ht, <- Hr. cbn. split_and!; (done || (cbn; lia)).
    + rewrite Hpop, bool_decide_eq_true_2 by done. split_and!; (done || (cbn; lia)).
  - cbn. rewrite (implements_len _ _ Hi). split_and!; (done || (cbn; lia)).
  - cbn. split_and!; [done| |lia|lia]. by destruct Hi.
Qed.

(** C2. The priority queue behaves as two queues in order of arrival: for every sequence of pushes, pops that wait or do not, length queries and closings,
    fewer than 2^63 of them, it answers what two plain queues answer of which the one with higher priority is served first. *)
Theorem queue_refines ops :
  Z.of_nat (length ops) < MaxInt64 -> observe pq_step NewPriorityQueue ops = observe spec_step (mkSpec [] [] true) ops.
Proof.
  intros Hlen. assert (implements NewPriorityQueue (mkSpec [] [] true)) as Hi.
  { split; [done|by intros k Hk; cbn in Hk; lia|]. exists [], []. split; [done|]. split; by split; [..|done|intros ????? [=]]. }
  assert (0 <= nextIndex NewPriorityQueue) as H0 by (cbn; lia). assert (nextIndex NewPriorityQueue + Z.of_nat (length ops) < MaxInt64) as Hn by (cbn; lia).
  revert Hi H0 Hn. generalize (mkSpec [] [] true). generalize NewPriorityQueue. clear Hlen.
  induction ops as [|o ops IH]; intros pq s Hi H0 Hn; [done|]. cbn [observe length] in *.
  destruct (implements_step pq s o Hi ltac:(lia)) as (E & Hi' & Hb). destruct (pq_step pq o) as [x pq'], (spec_step s o) as [x' s']. cbn in *. subst x'.
  f_equal. apply IH; [done|lia|lia].
Qed.
End priority_queue.
Arguments Item : clear implicits.
Arguments PriorityQueue : clear implicits.
Arguments spec : clear implicits.

Lemma queue_refines_witness :
  observe pq_step NewPriorityQueue [OpPush "a" false; OpPush "b" true; OpPush "c" true; OpLen; OpWaitPop; OpTryPop; OpTryPop; OpTryPop; OpWaitPop; OpClose; OpWaitPop]
  = [SeenNothing; SeenNothing; SeenNothing; SeenLen 3; SeenTask (Some "b"); SeenTask (Some "c"); SeenTask (Some "a"); SeenTask None; SeenWaiting; SeenNothing; SeenTask None].
Proof. rewrite queue_refines; [reflexivity|]. by vm_compute. Defined.
