(* ===== verification/WorkerPool.v ===== *)
(** * Worker pools and rate-limit retries

    [worker_pool.go] and [ratelimit_retry_queue.go] of [pkg/gateway/queue]. The pool is
    a transition system: dispatchers, workers and a call of [Stop] take their steps in
    any order, where a step is what runs under the queue's mutex or on one atomic. *)

From Stdlib Require Import Ascii.
From stdpp Require Import base gmap list strings numbers relations.
From S2P Require Import Prelude GoStrings Types Programs GoHeap GatewayErrors Queue.

Local Open Scope Z_scope.

Section pool.
Context {Task : Type}.

(** ** worker_pool.go *)

Record QueueWorkerPool := mkPool {
  priorityQueue : PriorityQueue Task;
  capacity : Z;
  started : bool;
  workerSize : Z;
  busyWorkers : Z
}.

Definition NewQueueWorkerPool (cap workers : Z) : QueueWorkerPool := mkPool NewPriorityQueue cap false workers 0.

Definition set_queue (pq : PriorityQueue Task) (wp : QueueWorkerPool) : QueueWorkerPool :=
  mkPool pq (capacity wp) (started wp) (workerSize wp) (busyWorkers wp).
Definition set_started (b : bool) (wp : QueueWorkerPool) : QueueWorkerPool :=
  mkPool (priorityQueue wp) (capacity wp) b (workerSize wp) (busyWorkers wp).
Definition add_busy (d : Z) (wp : QueueWorkerPool) : QueueWorkerPool :=
  mkPool (priorityQueue wp) (capacity wp) (started wp) (workerSize wp) (int32 (busyWorkers wp + d)).

Definition Length (wp : QueueWorkerPool) : Z := Z.of_nat (Len (priorityQueue wp)).

(** [Dispatch] first looks at the pool and then pushes; nothing is locked in between. *)
Definition may_dispatch (wp : QueueWorkerPool) : bool := started wp && negb (bool_decide (capacity wp <= Length wp)).
Definition dispatch_push (t : Task) (isHighPriority : bool) (wp : QueueWorkerPool) : QueueWorkerPool :=
  set_queue (Push t isHighPriority (priorityQueue wp)) wp.

Definition Dispatch (t : Task) (isHighPriority : bool) (wp : QueueWorkerPool) : bool * QueueWorkerPool :=
  if may_dispatch wp then (true, dispatch_push t isHighPriority wp) else (false, wp).

(** ** The system of dispatchers and workers *)

Record system := mkSystem {
  pool : QueueWorkerPool;
  checked : list (Task * bool);
  waiting : nat;
  taken : list Task;
  running : list Task;
  panicked : list Task;
  finished : list Task;
  lost : list Task;
  exited : nat;
  accepted : list Task
}.

(** [Start] on a new pool. *)
Definition Start (wp : QueueWorkerPool) : system :=
  mkSystem (set_started true wp) [] (Z.to_nat (workerSize wp)) [] [] [] [] [] 0 [].

(** A dispatcher that found the pool started may look at the length and push when the pool
    is stopped already; a worker pops a task, then looks whether the pool is started. *)
Inductive step : system -> system -> Prop :=
| StepCheck s t b : Length (pool s) < capacity (pool s) ->
    step s (mkSystem (pool s) ((t, b) :: checked s) (waiting s) (taken s) (running s) (panicked s) (finished s) (lost s) (exited s) (accepted s))
| StepPush s t b cs : checked s ≡ₚ (t, b) :: cs ->
    step s (mkSystem (dispatch_push t b (pool s)) cs (waiting s) (taken s) (running s) (panicked s) (finished s) (lost s) (exited s) (t :: accepted s))
| StepTake s w t pq : waiting s = S w -> WaitPop (priorityQueue (pool s)) = Some (Some t, pq) ->
    step s (mkSystem (set_queue pq (pool s)) (checked s) w (t :: taken s) (running s) (panicked s) (finished s) (lost s) (exited s) (accepted s))
| StepRun s t ts : taken s ≡ₚ t :: ts -> started (pool s) = true ->
    step s (mkSystem (add_busy 1 (pool s)) (checked s) (waiting s) ts (t :: running s) (panicked s) (finished s) (lost s) (exited s) (accepted s))
| StepDrop s t ts : taken s ≡ₚ t :: ts -> started (pool s) = false ->
    step s (mkSystem (pool s) (checked s) (waiting s) ts (running s) (panicked s) (finished s) (t :: lost s) (S (exited s)) (accepted s))
| StepExit s w pq : waiting s = S w -> WaitPop (priorityQueue (pool s)) = Some (None, pq) ->
    step s (mkSystem (set_queue pq (pool s)) (checked s) w (taken s) (running s) (panicked s) (finished s) (lost s) (S (exited s)) (accepted s))
| StepDone s t rs : running s ≡ₚ t :: rs ->
    step s (mkSystem (add_busy (-1) (pool s)) (checked s) (S (waiting s)) (taken s) rs (panicked s) (t :: finished s) (lost s) (exited s) (accepted s))
| StepPanic s t rs : running s ≡ₚ t :: rs ->
    step s (mkSystem (pool s) (checked s) (S (waiting s)) (taken s) rs (t :: panicked s) (finished s) (lost s) (exited s) (accepted s))
| StepStop s : step s (mkSystem (set_started false (pool s)) (checked s) (waiting s) (taken s) (running s) (panicked s) (finished s) (lost s) (exited s) (accepted s))
| StepClose s : started (pool s) = false ->
    step s (mkSystem (set_queue (Close (priorityQueue (pool s))) (pool s)) (checked s) (waiting s) (taken s) (running s) (panicked s) (finished s) (lost s) (exited s) (accepted s)).

(** A run in which at most [k] dispatchers are between their look at the pool and their push. *)
Definition busy_step (k : nat) (s s' : system) : Prop := step s s' /\ (length (checked s') <= k)%nat.

(** ** What holds in every reachable state *)

Definition queued (s : system) : list Task := task <$> h (priorityQueue (pool s)).

Record pool_inv (k : nat) (cap workers : Z) (s : system) : Prop := mkPoolInv {
  pi_capacity : capacity (pool s) = cap;
  pi_heap : is_heap LessCompare (h (priorityQueue (pool s)));
  pi_ready : started (pool s) = true -> ready (priorityQueue (pool s)) = true;
  pi_length : Length (pool s) + Z.of_nat (length (checked s)) <= Z.max 0 (cap + Z.of_nat k - 1);
  pi_busy : busyWorkers (pool s) = int32 (Z.of_nat (length (running s) + length (panicked s)));
  pi_workers : (waiting s + length (taken s) + length (running s) + exited s = Z.to_nat workers)%nat;
  pi_tasks : accepted s ≡ₚ queued s ++ taken s ++ running s ++ panicked s ++ finished s ++ lost s;
  pi_started : started (pool s) = true -> exited s = 0%nat /\ lost s = []
}.

Lemma Push_tasks t b (pq : PriorityQueue Task) :
  is_heap LessCompare (h pq) -> is_heap LessCompare (h (Push t b pq)) /\ task <$> h (Push t b pq) ≡ₚ t :: (task <$> h pq).
Proof.
  intros Hh. unfold Push. cbn [h].
  destruct (Push_heap LessCompare LessCompare_asym LessCompare_neg_trans (mkItem (if b then 0 else 1) (nextIndex pq) t) (h pq) Hh) as [H1 H2].
  split; [done|]. by rewrite H2.
Qed.

Lemma WaitPop_tasks (pq : PriorityQueue Task) t pq' :
  is_heap LessCompare (h pq) -> WaitPop pq = Some (Some t, pq') ->
  is_heap LessCompare (h pq') /\ task <$> h pq ≡ₚ t :: (task <$> h pq') /\ ready pq' = ready pq.
Proof.
  intros Hh. unfold WaitPop. destruct (ready pq) eqn:Hr; cbn [andb negb]; [|done]. case_bool_decide as Hl; [done|].
  destruct (Pop_heap LessCompare LessCompare_asym LessCompare_neg_trans (h pq) Hh) as (x & h' & E & Hh' & Hp & _); [by destruct (h pq)|].
  rewrite E. intros [= <- <-]. split; [done|]. split; [|done]. cbn. by rewrite Hp.
Qed.

Lemma WaitPop_closed (pq pq' : PriorityQueue Task) : WaitPop pq = Some (None, pq') -> pq' = pq /\ ready pq = false.
Proof.
  unfold WaitPop. destruct (ready pq) eqn:Hr; cbn [andb negb]; [|by intros [= <-]]. case_bool_decide; [done|]. by destruct (heap_Pop _ _) as [[]|].
Qed.

Lemma Length_queued s : Length (pool s) = Z.of_nat (length (queued s)).
Proof. unfold queued. by rewrite length_fmap. Qed.

Lemma Start_inv k cap workers : pool_inv k cap workers (Start (NewQueueWorkerPool cap workers)).
Proof. split; [done|intros j Hj; cbn in Hj; lia|done|change (0 + 0 <= Z.max 0 (cap + Z.of_nat k - 1)); lia|done|cbn; lia|done|done]. Qed.

Lemma dispatch_inv k cap workers s t b cs :
  checked s ≡ₚ (t, b) :: cs -> pool_inv k cap workers s ->
  pool_inv k cap workers (mkSystem (dispatch_push t b (pool s)) cs (waiting s) (taken s) (running s) (panicked s) (finished s) (lost s) (exited s) (t :: accepted s)).
Proof.
  intros Hc [Hcap Hh Hr Hl Hb Hw Ht Hs]. destruct (Push_tasks t b _ Hh) as [H1 H2]. pose proof (Permutation_length Hc) as Hlc. cbn in Hlc.
  split; cbn -[Push] in *; try done.
  - assert (Length (dispatch_push t b (pool s)) = Length (pool s) + 1) as ->.
    { unfold Length, Len, dispatch_push, set_queue. cbn [priorityQueue]. pose proof (Permutation_length H2) as E. cbn [length] in E. rewrite !length_fmap in E. lia. }
    lia.
  - unfold queued in *. cbn [pool dispatch_push set_queue priorityQueue]. rewrite H2. cbn. by rewrite Ht.
Qed.

Lemma take_inv k cap workers s w t pq :
  waiting s = S w -> WaitPop (priorityQueue (pool s)) = Some (Some t, pq) -> pool_inv k cap workers s ->
  pool_inv k cap workers (mkSystem (set_queue pq (pool s)) (checked s) w (t :: taken s) (running s) (panicked s) (finished s) (lost s) (exited s) (accepted s)).
Proof.
  intros Hwt Hp [Hcap Hh Hr Hl Hb Hw Ht Hs]. destruct (WaitPop_tasks _ _ _ Hh Hp) as (H1 & H2 & H3).
  assert (Z.of_nat (Len pq) + 1 = Length (pool s)) as Hlen.
  { pose proof (Permutation_length H2) as E. cbn [length] in E. rewrite !length_fmap in E. unfold Length, Len. lia. }
  unfold queued in Ht. rewrite H2 in Ht. split; cbn in *; try done; unfold Length in *; cbn; try lia.
  - intros Hst. rewrite H3. by apply Hr.
  - unfold queued. cbn. rewrite Ht. solve_Permutation.
Qed.

(** A worker that took a task runs it, or drops it when the pool was stopped in between. *)
Lemma run_inv k cap workers s t ts :
  taken s ≡ₚ t :: ts -> pool_inv k cap workers s ->
  pool_inv k cap workers (mkSystem (add_busy 1 (pool s)) (checked s) (waiting s) ts (t :: running s) (panicked s) (finished s) (lost s) (exited s) (accepted s)) /\
  (started (pool s) = false ->
   pool_inv k cap workers (mkSystem (pool s) (checked s) (waiting s) ts (running s) (panicked s) (finished s) (t :: lost s) (S (exited s)) (accepted s))).
Proof.
  intros Hts [Hcap Hh Hr Hl Hb Hw Ht Hs]. pose proof (Permutation_length Hts) as E. cbn in E. rewrite Hts in Ht.
  split; [|intros Hst]; split; cbn in *; try done; try lia.
  - rewrite Hb, int32_add_l. f_equal. lia.
  - unfold queued in *. cbn. rewrite Ht. solve_Permutation.
  - unfold queued in *. cbn. rewrite Ht. solve_Permutation.
  - by rewrite Hst.
Qed.

(** A task ends, by returning or by a panic. *)
Lemma end_inv k cap workers s t rs :
  running s ≡ₚ t :: rs -> pool_inv k cap workers s ->
  pool_inv k cap workers (mkSystem (add_busy (-1) (pool s)) (checked s) (S (waiting s)) (taken s) rs (panicked s) (t :: finished s) (lost s) (exited s) (accepted s)) /\
  pool_inv k cap workers (mkSystem (pool s) (checked s) (S (waiting s)) (taken s) rs (t :: panicked s) (finished s) (lost s) (exited s) (accepted s)).
Proof.
  intros Hrs [Hcap Hh Hr Hl Hb Hw Ht Hs]. pose proof (Permutation_length Hrs) as E. cbn in E. rewrite Hrs in Ht.
  split; split; cbn in *; try done; try lia.
  - rewrite Hb, int32_add_l. f_equal. lia.
  - unfold queued in *. cbn. rewrite Ht. solve_Permutation.
  - rewrite Hb. f_equal. lia.
  - unfold queued in *. cbn. rewrite Ht. solve_Permutation.
Qed.

Lemma pool_step_inv k cap workers s s' : busy_step k s s' -> pool_inv k cap workers s -> pool_inv k cap workers s'.
Proof.
  intros [Hstep Hk] Hi. pose proof Hi as [Hcap Hh Hr Hl Hb Hw Ht Hs].
  destruct Hstep as [s t b Hd|s t b cs Hc|s w t pq Hwt Hp|s t ts Hts Hst|s t ts Hts Hst|s w pq Hwt Hp|s t rs Hrs|s t rs Hrs|s|s Hst].
  - split; cbn in *; try done. lia.
  - by apply dispatch_inv.
  - by apply take_inv.
  - by apply (run_inv k cap workers s t ts).
  - by apply (run_inv k cap workers s t ts).
  - apply WaitPop_closed in Hp as [-> Hcl]. split; cbn in *; try done; try lia. intros Hst. by rewrite (Hr Hst) in Hcl.
  - by apply (end_inv k cap workers s t rs).
  - by apply (end_inv k cap workers s t rs).
  - by split.
  - split; cbn in *; try done; by rewrite Hst.
Qed.

(** C25. In every state that a started pool can reach, with dispatchers, workers, crashing tasks and a stop in any order: each accepted task is queued,
    taken, running, crashed, finished or dropped, exactly one of them; none is dropped and no worker is gone before the stop; the workers that wait, hold or run a task are as
    many as were started; the queue is longer than its capacity by less than the number of simultaneous dispatchers; and the count of busy workers is
    the number of running tasks and of all tasks that ever crashed. *)
Theorem pool_safe_run k cap workers s :
  rtc (busy_step k) (Start (NewQueueWorkerPool cap workers)) s ->
  accepted s ≡ₚ queued s ++ taken s ++ running s ++ panicked s ++ finished s ++ lost s /\
  (started (pool s) = true -> lost s = [] /\ (waiting s + length (taken s) + length (running s) = Z.to_nat workers)%nat) /\
  Length (pool s) <= Z.max 0 (cap + Z.of_nat k - 1) /\
  busyWorkers (pool s) = int32 (Z.of_nat (length (running s) + length (panicked s))).
Proof.
  intros Hr. assert (pool_inv k cap workers s) as [Hcap Hh Hrd Hl Hb Hw Ht Hs].
  { remember (Start _) as s0 eqn:E. assert (pool_inv k cap workers s0) as H0 by (subst; apply Start_inv). clear E.
    induction Hr as [|s0 s1 s2 H1 _ IH]; [done|]. by apply IH, (pool_step_inv k cap workers s0). }
  split; [done|]. split; [|split; [lia|done]]. intros Hst. destruct (Hs Hst) as [He Hlost]. split; [done|lia].
Qed.

(** ** ratelimit_retry_queue.go *)

Record RateLimitRetryQueue := mkRetryQueue {
  maxQueueSize : Z;
  maxRetries : Z;
  initialDelay : Z;
  maxDelay : Z;
  workerPool : QueueWorkerPool;
  rq_started : bool
}.

Definition NewRateLimitRetryQueue (maxQueueSize workerSize maxRetries initialDelay maxDelay : Z) : RateLimitRetryQueue :=
  mkRetryQueue maxQueueSize maxRetries initialDelay maxDelay (NewQueueWorkerPool maxQueueSize workerSize) false.

Definition rq_Len (q : RateLimitRetryQueue) : Z := Length (workerPool q).

Definition set_pool (wp : QueueWorkerPool) (b : bool) (q : RateLimitRetryQueue) : RateLimitRetryQueue :=
  mkRetryQueue (maxQueueSize q) (maxRetries q) (initialDelay q) (maxDelay q) wp b.

Definition Stop (wp : QueueWorkerPool) : QueueWorkerPool := set_queue (Close (priorityQueue wp)) (set_started false wp).
Definition rq_Start (q : RateLimitRetryQueue) : RateLimitRetryQueue := set_pool (set_started true (workerPool q)) true q.
Definition rq_Stop (q : RateLimitRetryQueue) : RateLimitRetryQueue := set_pool (Stop (workerPool q)) false q.

(** [retry] is the closure that runs [retryLoop]. *)
Definition Enqueue (retry : Task) (q : RateLimitRetryQueue) : bool * RateLimitRetryQueue :=
  if negb (rq_started q) || bool_decide (maxRetries q = 0) then (false, q)
  else let '(dispatched, wp) := Dispatch retry false (workerPool q) in (dispatched, set_pool wp (rq_started q) q).

Fixpoint backoff_loop (n : nat) (delay maxDelay : Z) : Z :=
  match n with
  | O => if bool_decide (maxDelay < delay) then maxDelay else delay
  | S n =>
      let delay := int64 (delay * 2) in
      if bool_decide (maxDelay < delay) then maxDelay else backoff_loop n delay maxDelay
  end.

Definition backoffDelay (q : RateLimitRetryQueue) (retryCount : nat) : Z := backoff_loop retryCount (initialDelay q) (maxDelay q).

Definition ErrRateLimitRetryExhausted : gerror := errorf "rate limit retry exhausted: max retry count reached".

(** [retryLoop] over what it calls: the pause that the context can end, the queue's
    state, the context and [retryFn]. Its result is what it sends. *)
Section retry.
Context {E : Type -> Type} (pause : Z -> Prog E (option gerror)) (is_started : Prog E bool) (ctx_err : Prog E (option gerror)) (retryFn : Prog E (option gerror)).

Fixpoint retryLoop (fuel : nat) (q : RateLimitRetryQueue) (retryCount : nat) : Prog E (option gerror) :=
  match fuel with
  | O => Hang
  | S fuel =>
      let delay := backoffDelay q retryCount in
      paused ← (if bool_decide (0 < delay) then pause delay else Ret None);
      match paused with
      | Some e => Ret (Some e)
      | None =>
          started ← is_started;
          if negb started then Ret (Some ErrRateLimitRetryExhausted) else
          done ← ctx_err;
          match done with
          | Some e => Ret (Some e)
          | None =>
              err ← retryFn;
              match err with
              | None => Ret None
              | Some e =>
                  if negb (IsRateLimitError e) then Ret (Some e)
                  else if bool_decide (0 < maxRetries q) && bool_decide (maxRetries q <= Z.of_nat retryCount + 1)
                  then Ret (Some ErrRateLimitRetryExhausted) else retryLoop fuel q (S retryCount)
              end
          end
      end
  end.
End retry.

(** The loop on its own, over calls that anything can answer. *)
Inductive retry_call : Type -> Type :=
  | Paused (delay : Z) : retry_call (option gerror)
  | Started : retry_call bool
  | CtxDone : retry_call (option gerror)
  | Called : retry_call (option gerror).

Definition retries (fuel : nat) (q : RateLimitRetryQueue) (retryCount : nat) : Prog retry_call (option gerror) :=
  retryLoop (fun d => perform (Paused d)) (perform Started) (perform CtxDone) (perform Called) fuel q retryCount.

(** The documented delay. *)
Definition documented_delay (q : RateLimitRetryQueue) (i : nat) : Z := Z.min (initialDelay q * 2 ^ Z.of_nat i) (maxDelay q).

Lemma backoff_loop_exact n delay m : 0 <= delay < 2 ^ 62 -> 0 <= m < 2 ^ 62 -> backoff_loop n delay m = Z.min (delay * 2 ^ Z.of_nat n) m.
Proof.
  revert delay. induction n as [|n IH]; intros delay Hd Hm; cbn [backoff_loop].
  - case_bool_decide; rewrite Z.mul_1_r; lia.
  - rewrite Nat2Z.inj_succ, Z.pow_succ_r by lia. assert (0 < 2 ^ Z.of_nat n) by (apply Z.pow_pos_nonneg; lia).
    rewrite int64_small by (unfold MinInt64, MaxInt64; lia). case_bool_decide; [nia|]. rewrite IH by lia. f_equal. lia.
Qed.

(** What a watcher of the loop counts: the calls so far, the pauses, and whether the last
    call was refused with status 429. *)
Record retry_log := mkRetryLog { calls : nat; pauses : list Z; refused : nat }.

Definition retry_monitor : Monitor retry_call retry_log := mkMonitor (fun _ _ _ => True) (fun _ _ _ => True)
  (fun X (e : retry_call X) => match e in retry_call X return X -> retry_log -> retry_log with
    | Paused d => fun _ g => mkRetryLog (calls g) (pauses g ++ [d]) (refused g)
    | Started => fun _ g => g
    | CtxDone => fun _ g => g
    | Called => fun r g => mkRetryLog (S (calls g)) (pauses g)
        (if match r with Some e => IsRateLimitError e | None => false end then S (refused g) else refused g)
    end) (fun _ => False) (fun _ => False).

(** The pauses of the turns [i .. i + n). *)
Definition pauses_of (q : RateLimitRetryQueue) (i n : nat) : list Z := filter (fun d => 0 < d) (backoffDelay q <$> seq i n).

Lemma pauses_of_S q i n : pauses_of q i (S n) = (if bool_decide (0 < backoffDelay q i) then [backoffDelay q i] else []) ++ pauses_of q (S i) n.
Proof. unfold pauses_of. cbn [seq]. rewrite fmap_cons, filter_cons. case_decide; [by rewrite bool_decide_eq_true_2|by rewrite bool_decide_eq_false_2]. Qed.

Lemma retries_bounded fuel q i g :
  0 < maxRetries q -> (0 < fuel)%nat -> maxRetries q <= Z.of_nat (fuel + i) ->
  mwp retry_monitor (retries fuel q i) (fun _ g' => exists n, (0 < n <= fuel)%nat /\ (calls g + n - 1 <= calls g' <= calls g + n)%nat /\
    (refused g + n - 1 <= refused g')%nat /\ pauses g' = pauses g ++ pauses_of q i n) g.
Proof.
  intros Hm. revert i g. induction fuel as [|fuel IH]; intros i g Hf Hle; [lia|]. unfold retries. cbn [retryLoop]. apply mwp_bind.
  eapply (mwp_mono _ _ (fun _ g1 => pauses g1 = pauses g ++ (if bool_decide (0 < backoffDelay q i) then [backoffDelay q i] else []) /\ calls g1 = calls g /\ refused g1 = refused g)).
  { case_bool_decide; cbn; by rewrite ?app_nil_r. }
  intros r0 g1 (Hp & Hc & Hr).
  assert (exists n, (0 < n <= S fuel)%nat /\ (calls g + n - 1 <= calls g1 <= calls g + n)%nat /\ (refused g + n - 1 <= refused g1)%nat /\ pauses g1 = pauses g ++ pauses_of q i n) as Hend.
  { exists 1%nat. rewrite pauses_of_S, app_nil_r. repeat split; (done || lia). }
  destruct r0 as [e|]; [done|]. cbn. split; [done|]. intros started _. destruct started; cbn; [|done]. split; [done|]. intros [e|] _; cbn; [done|]. split; [done|]. intros err _.
  destruct err as [e|]; cbn.
  - destruct (IsRateLimitError e) eqn:E; cbn.
    + rewrite (bool_decide_eq_true_2 (0 < maxRetries q)) by done. cbn. destruct (bool_decide (maxRetries q <= _)) eqn:Hlast; [|apply bool_decide_eq_false in Hlast]; cbn.
      * exists 1%nat. rewrite pauses_of_S, app_nil_r. cbn. repeat split; (done || lia).
      * eapply mwp_mono; [apply IH; lia|]. cbn. intros _ g' (n & Hn & Hcs & Hrs & Hps). exists (S n). rewrite pauses_of_S, Hps, Hp, app_assoc. repeat split; (done || lia).
    + exists 1%nat. rewrite pauses_of_S, app_nil_r. cbn. repeat split; (done || lia).
  - exists 1%nat. rewrite pauses_of_S, app_nil_r. cbn. repeat split; (done || lia).
Qed.

(** With a positive retry limit the loop of a rate-limited request ends with a result, whatever the upstream, the context and the queue answer: it
    makes at most that many calls, all but perhaps the last turn are refused with status 429, and turn [i] waits [min (initialDelay * 2^i) maxDelay], where
    the arithmetic on durations does not overflow below 2^62 ns. *)
Theorem retry_loop_bounded q l o :
  0 < maxRetries q -> 0 <= initialDelay q < 2 ^ 62 -> 0 <= maxDelay q < 2 ^ 62 ->
  trace (retries (Z.to_nat (maxRetries q)) q 0) l o ->
  let g := observed retry_monitor l (mkRetryLog 0 [] 0) in
  (exists r, o = Done r) /\ Z.of_nat (calls g) <= maxRetries q /\
  exists n, (n - 1 <= calls g <= n)%nat /\ (n - 1 <= refused g)%nat /\ pauses g = filter (fun d => 0 < d) (documented_delay q <$> seq 0 n).
Proof.
  intros Hm Hi Hd Ht g. destruct (mwp_trace retry_monitor _ _ (mkRetryLog 0 [] 0) l o (retries_bounded (Z.to_nat (maxRetries q)) q 0 _ Hm ltac:(lia) ltac:(lia)) Ht (expected_any retry_monitor l (fun _ _ _ => I))) as [_ H].
  destruct o as [r| |]; [|done..]. destruct H as (n & Hn & Hc & Hr & Hp). fold g in Hc, Hr, Hp. cbn in Hc, Hr, Hp. split; [by eauto|]. split; [lia|].
  exists n. repeat split; [lia|lia|lia|]. rewrite Hp. unfold pauses_of. f_equal. apply list_fmap_ext. intros k x _. unfold backoffDelay, documented_delay. by rewrite backoff_loop_exact.
Qed.
End pool.
Arguments QueueWorkerPool : clear implicits.
Arguments system : clear implicits.
Arguments RateLimitRetryQueue : clear implicits.

Definition example_queue : RateLimitRetryQueue nat := NewRateLimitRetryQueue 8 2 4 100 300.
(** An upstream that refuses three times. *)
Definition example_upstream : Handler retry_call nat := fun X e n =>
  match e in retry_call X return X * nat with
  | Paused _ => (None, n)
  | Started => (true, n)
  | CtxDone => (None, n)
  | Called => (if bool_decide (n < 3)%nat then Some (UpstreamError 429 "" "http://a/v1" "") else None, S n)
  end.

Lemma retry_loop_bounded_witness :
  run example_upstream (retries 4 example_queue 0) 0%nat = (Done None, 4%nat) /\
  let g := observed retry_monitor (run_log example_upstream (retries 4 example_queue 0) 0%nat) (mkRetryLog 0 [] 0) in
  (exists r, (run example_upstream (retries 4 example_queue 0) 0%nat).1 = Done r) /\ Z.of_nat (calls g) <= 4 /\
  exists n, (n - 1 <= calls g <= n)%nat /\ (n - 1 <= refused g)%nat /\ pauses g = filter (fun d => 0 < d) (documented_delay example_queue <$> seq 0 n).
Proof.
  split; [vm_compute; reflexivity|].
  apply (retry_loop_bounded example_queue (run_log example_upstream (retries 4 example_queue 0) 0%nat) (run example_upstream (retries 4 example_queue 0) 0%nat).1);
    [vm_compute; reflexivity|vm_compute; split; congruence|vm_compute; split; congruence|apply run_trace].
Defined.

(** Two dispatchers meet on a pool with room for one task, and the task that runs crashes. *)
Definition example_pool (items : list (Item nat)) (next busy : Z) : QueueWorkerPool nat := mkPool (mkPQ items true next) 1 true 1 busy.
Definition example_states : list (system nat) :=
  let a := mkItem 1 0 7%nat in let b := mkItem 1 1 8%nat in
  [ mkSystem (example_pool [] 0 0) [(7%nat, false)] 1 [] [] [] [] [] 0 [];
    mkSystem (example_pool [] 0 0) [(8%nat, false); (7%nat, false)] 1 [] [] [] [] [] 0 [];
    mkSystem (example_pool [a] 1 0) [(8%nat, false)] 1 [] [] [] [] [] 0 [7%nat];
    mkSystem (example_pool [a; b] 2 0) [] 1 [] [] [] [] [] 0 [8%nat; 7%nat];
    mkSystem (example_pool [b] 2 0) [] 0 [7%nat] [] [] [] [] 0 [8%nat; 7%nat];
    mkSystem (example_pool [b] 2 1) [] 0 [] [7%nat] [] [] [] 0 [8%nat; 7%nat];
    mkSystem (example_pool [b] 2 1) [] 1 [] [] [7%nat] [] [] 0 [8%nat; 7%nat] ].
Definition example_end : system nat := mkSystem (example_pool [mkItem 1 1 8%nat] 2 1) [] 1 [] [] [7%nat] [] [] 0 [8%nat; 7%nat].

Lemma busy_step_eq k (s t t' : system nat) : step s t -> t = t' -> (length (checked t') <= k)%nat -> busy_step k s t'.
Proof. by intros Hs -> Hl. Qed.

Ltac pool_step i c := eapply (rtc_l _ _ (nth i example_states example_end)); [eapply busy_step_eq; [c|vm_compute; reflexivity|vm_compute; lia]|].

Lemma example_run : rtc (busy_step 2) (Start (NewQueueWorkerPool 1 1)) example_end.
Proof.
  pool_step 0%nat ltac:(by apply (StepCheck _ 7%nat false)).
  pool_step 1%nat ltac:(by apply (StepCheck _ 8%nat false)).
  pool_step 2%nat ltac:(apply (StepPush _ 7%nat false [(8%nat, false)]); vm_compute; apply Permutation_swap).
  pool_step 3%nat ltac:(apply (StepPush _ 8%nat false []); vm_compute; reflexivity).
  pool_step 4%nat ltac:(apply (StepTake _ 0 7%nat (mkPQ [mkItem 1 1 8%nat] true 2)); vm_compute; reflexivity).
  pool_step 5%nat ltac:(apply (StepRun _ 7%nat []); vm_compute; reflexivity).
  pool_step 6%nat ltac:(apply (StepPanic _ 7%nat []); vm_compute; reflexivity).
  apply rtc_refl.
Qed.

Lemma pool_safe_run_witness :
  accepted example_end ≡ₚ queued example_end ++ taken example_end ++ running example_end ++ panicked example_end ++ finished example_end ++ lost example_end /\
  (started (pool example_end) = true -> lost example_end = [] /\ (waiting example_end + length (taken example_end) + length (running example_end) = Z.to_nat 1)%nat) /\
  Length (pool example_end) <= Z.max 0 (1 + Z.of_nat 2 - 1) /\
  busyWorkers (pool example_end) = int32 (Z.of_nat (length (running example_end) + length (panicked example_end))).
Proof. exact (pool_safe_run 2 1 1 example_end example_run). Defined.

(** ** The pools of several models *)

Record ModelQueueWorkerPool := mkModelPools {
  enableMultiModel : bool;
  defaultSize : Z;
  currency : Z;
  workerPools : gmap string (QueueWorkerPool nat)
}.

Definition NewModelQueueWorkerPool (cap consumerCurrency : Z) (enableMultiModel : bool) : ModelQueueWorkerPool :=
  mkModelPools enableMultiModel cap consumerCurrency ∅.

Definition GetOrCreateModelQueueWorkerPool (model : string) (mwp : ModelQueueWorkerPool) : QueueWorkerPool nat * ModelQueueWorkerPool :=
  let model := if enableMultiModel mwp then model else ""%string in
  match workerPools mwp !! model with
  | Some q => (q, mwp)
  | None =>
      let newQ := pool (Start (NewQueueWorkerPool (defaultSize mwp) (currency mwp))) in
      (newQ, mkModelPools (enableMultiModel mwp) (defaultSize mwp) (currency mwp) (<[model := newQ]> (workerPools mwp)))
  end.

Definition model_Length (mwp : ModelQueueWorkerPool) : Z := map_fold (fun _ q n => int64 (n + Length q)) 0 (workerPools mwp).
Definition model_BusyWorkers (mwp : ModelQueueWorkerPool) : Z := map_fold (fun _ q n => int64 (n + busyWorkers q)) 0 (workerPools mwp).
