(* ===== verification/Router.v ===== *)
(** * The service router

    [pkg/gateway/router/service_router.go]: a request goes to the workers of the
    cluster or to an external endpoint, chosen by weight or by the prefix of the model's
    name; the configurations marked as fallback are tried one after the other when that
    fails. Of the request the router reads the model and keeps the number of fallbacks
    taken. [rand.Intn] is an argument; [None] is a panic. *)

From Stdlib Require Import Ascii.
From stdpp Require Import base list strings numbers.
From S2P Require Import Prelude GoStrings Types GatewayErrors.

Local Open Scope Z_scope.

Inductive RouteType := RouteUnknown | RouteInternal | RouteExternal.

#[export] Instance RouteType_eq_dec : EqDecision RouteType.
Proof. solve_decision. Defined.

Definition RouteType_String (rt : RouteType) : string :=
  match rt with RouteUnknown => "RouteUnknown" | RouteInternal => "RouteInternal" | RouteExternal => "RouteExternal" end.

Record RouteEndpoint := mkRouteEndpoint { re_URL : string; re_APIKey : string; re_Model : string }.

Record RouteConfig := mkRouteConfig {
  rc_URL : string;
  rc_APIKey : string;
  rc_Model : string;
  IsFallback : bool;
  Weight : Z;
  Prefix : string
}.

#[export] Instance RouteConfig_eq_dec : EqDecision RouteConfig.
Proof. solve_decision. Defined.

Definition RoutePolicyWeight : string := "weight".
Definition RoutePolicyPrefix : string := "prefix".
Definition RouteInternalURL : string := "local".

(** ** Joining a base address and a path

    The two regular expressions: a version at the end of the base, [/v\d+$], and one at
    the start of the path, [^/v\d+]. *)

Fixpoint drop_digits (s : string) : string :=
  match s with
  | String c s' => match digit_of c with Some _ => drop_digits s' | None => s end
  | EmptyString => ""
  end.

Definition starts_with_digit (s : string) : bool :=
  match s with String c _ => bool_decide (digit_of c <> None) | EmptyString => false end.

Definition base_has_version (base : string) : bool :=
  match LastIndex base "/v" with
  | Some i => let rest := sdrop (i + 2) base in starts_with_digit rest && bool_decide (drop_digits rest = "")
  | None => false
  end.

Definition drop_path_version (path : string) : string :=
  if HasPrefix path "/v" && starts_with_digit (sdrop 2 path) then drop_digits (sdrop 2 path) else path.

Definition JoinURL (re : RouteEndpoint) (path : string) : string :=
  let base := TrimSuffix (re_URL re) "/" in
  let path := if base_has_version base && HasPrefix path "/v" then drop_path_version path else path in
  base +:+ path.

(** ** The router *)

Record ServiceRouter := mkRouter {
  routingPolicy : string;
  routingConfigs : list RouteConfig;
  fallbackConfigs : list RouteConfig
}.

Definition setupFallbackConfigs (configs : list RouteConfig) : list RouteConfig :=
  filter (fun c => IsFallback c = true /\ rc_URL c <> RouteInternalURL) configs.

(** [setupRoutingConfigs] decodes a JSON array; [unmarshal] is the decoder. *)
Definition setupRoutingConfigs (unmarshal : string -> option (list RouteConfig)) (raw : string) : list RouteConfig :=
  if bool_decide (raw <> "") then default [] (unmarshal raw) else [].

Definition NewServiceRouter (unmarshal : string -> option (list RouteConfig)) (policy raw : string) : ServiceRouter :=
  let configs := setupRoutingConfigs unmarshal raw in
  mkRouter policy configs (setupFallbackConfigs configs).

Definition totalWeight (configs : list RouteConfig) : Z := fold_left (fun w c => int64 (w + Weight c)) configs 0.

(** The loop with its [break]; index 0 stays selected when no turn selects. *)
Fixpoint weight_loop (configs : list RouteConfig) (i : nat) (currentWeight randNum : Z) : nat :=
  match configs with
  | [] => 0
  | c :: configs =>
      let currentWeight := int64 (currentWeight + Weight c) in
      if bool_decide (randNum < currentWeight) then i else weight_loop configs (S i) currentWeight randNum
  end.

(** A selected configuration is internal or external. *)
Definition selected (c : RouteConfig) : option RouteConfig * RouteType :=
  if bool_decide (rc_URL c = RouteInternalURL) then (None, RouteInternal) else (Some c, RouteExternal).

Definition selectByWeight (intn : Z -> Z) (sr : ServiceRouter) : option (option RouteConfig * RouteType) :=
  let configs := routingConfigs sr in
  if bool_decide (configs = []) then Some (None, RouteUnknown) else
  let total := totalWeight configs in
  if bool_decide (total = 0) then Some (None, RouteUnknown) else
  if bool_decide (total < 0) then None else
  c ← configs !! weight_loop configs 0 0 (intn total);
  Some (selected c).

Fixpoint prefix_loop (configs : list RouteConfig) (model : string) (i : nat) (currentLength : Z) (sel : option nat) : option nat :=
  match configs with
  | [] => sel
  | c :: configs =>
      if HasSuffix (Prefix c) "*" then
        let prefix := TrimSuffix (Prefix c) "*" in
        if HasPrefix model prefix && bool_decide (currentLength < Z.of_nat (String.length prefix))
        then prefix_loop configs model (S i) (Z.of_nat (String.length prefix)) (Some i)
        else prefix_loop configs model (S i) currentLength sel
      else if bool_decide (model = Prefix c) then Some i
      else prefix_loop configs model (S i) currentLength sel
  end.

Definition selectByPrefix (model : string) (sr : ServiceRouter) : option (option RouteConfig * RouteType) :=
  if bool_decide (model = "") then Some (None, RouteInternal) else
  match prefix_loop (routingConfigs sr) model 0 (-1) None with
  | None => Some (None, RouteUnknown)
  | Some i => c ← routingConfigs sr !! i; Some (selected c)
  end.

Definition endpoint_of (c : RouteConfig) : RouteEndpoint := mkRouteEndpoint (rc_URL c) (rc_APIKey c) (rc_Model c).

Definition Route (intn : Z -> Z) (model : string) (sr : ServiceRouter) : option (option RouteEndpoint * RouteType) :=
  if bool_decide (routingConfigs sr = []) then Some (None, RouteInternal) else
  r ← (if bool_decide (routingPolicy sr = RoutePolicyWeight) then selectByWeight intn sr
       else if bool_decide (routingPolicy sr = RoutePolicyPrefix) then selectByPrefix model sr
       else None);
  match r with
  | (Some c, RouteExternal) => Some (Some (endpoint_of c), RouteExternal)
  | (_, rType) => Some (None, rType)
  end.

Definition CanFallback (fallbackAttempt : Z) (sr : ServiceRouter) : bool :=
  bool_decide (fallbackConfigs sr <> []) && bool_decide (fallbackAttempt < Z.of_nat (length (fallbackConfigs sr))).

(** The endpoint and the new count; a negative count would be an index out of range. *)
Definition Fallback (fallbackAttempt : Z) (sr : ServiceRouter) : option (gresult (RouteEndpoint * Z)) :=
  if bool_decide (fallbackConfigs sr = []) || bool_decide (Z.of_nat (length (fallbackConfigs sr)) <= fallbackAttempt)
  then Some (GErr (Sentinel ErrorNoAvailableEndpoint))
  else if bool_decide (fallbackAttempt < 0) then None
  else c ← fallbackConfigs sr !! Z.to_nat fallbackAttempt; Some (GOk (endpoint_of c, int64 (fallbackAttempt + 1))).

(** ** Choice by weight *)

Fixpoint weights (configs : list RouteConfig) : Z := match configs with [] => 0 | c :: configs => Weight c + weights configs end.

Lemma weights_nonneg configs : Forall (fun c => 0 <= Weight c) configs -> 0 <= weights configs.
Proof. induction 1; cbn; lia. Qed.

Lemma weights_take_S configs i c : configs !! i = Some c -> weights (take (S i) configs) = weights (take i configs) + Weight c.
Proof.
  revert i. induction configs as [|d l IH]; intros [|i] H; cbn in H; simplify_eq; [cbn; rewrite ?take_0; cbn; lia|].
  rewrite !firstn_cons. cbn [weights]. rewrite (IH i H). lia.
Qed.

Lemma totalWeight_exact configs :
  Forall (fun c => 0 <= Weight c) configs -> weights configs <= MaxInt64 -> totalWeight configs = weights configs.
Proof.
  intros Hp Hm. unfold totalWeight. assert (forall w, 0 <= w -> w + weights configs <= MaxInt64 -> fold_left (fun w c => int64 (w + Weight c)) configs w = w + weights configs) as H.
  { clear Hm. induction Hp as [|c l Hc Hl IH]; intros w H0 Hm; cbn in *; [lia|].
    pose proof (weights_nonneg l Hl). rewrite int64_small by (unfold MinInt64, MaxInt64 in *; lia). rewrite IH; lia. }
  rewrite H; lia.
Qed.

Lemma weight_loop_exact configs i j c w r :
  Forall (fun c => 0 <= Weight c) configs -> 0 <= w -> w + weights configs <= MaxInt64 ->
  configs !! i = Some c -> w + weights (take i configs) <= r < w + weights (take i configs) + Weight c -> weight_loop configs j w r = (j + i)%nat.
Proof.
  intros Hp. revert i j w. induction Hp as [|d l Hd Hl IH]; intros i j w H0 Hm Hi Hr; [done|].
  pose proof (weights_nonneg l Hl). cbn [weights] in Hm. cbn [weight_loop]. rewrite int64_small by (unfold MinInt64, MaxInt64 in *; lia).
  destruct i as [|i]; cbn in Hi, Hr; simplify_eq; case_bool_decide; try lia.
  - pose proof (weights_nonneg (take i l) (Forall_take _ _ _ Hl)). lia.
  - rewrite (IH i); try done; lia.
Qed.

(** What a request is routed to when the configuration [c] is selected. *)
Definition routed (c : RouteConfig) : option RouteEndpoint * RouteType :=
  if bool_decide (rc_URL c = RouteInternalURL) then (None, RouteInternal) else (Some (endpoint_of c), RouteExternal).

(** Routing by weight is exact: with weights that are not negative and whose sum fits an int, the random number decides by consecutive intervals,
    one per configuration and as long as its weight, that cover [0, total); so a configuration with weight zero is never taken and the others are taken in
    proportion to their weights. *)
Theorem weight_route_exact sr i c model r :
  routingPolicy sr = RoutePolicyWeight -> Forall (fun c => 0 <= Weight c) (routingConfigs sr) -> weights (routingConfigs sr) <= MaxInt64 ->
  routingConfigs sr !! i = Some c ->
  weights (take i (routingConfigs sr)) <= r < weights (take (S i) (routingConfigs sr)) ->
  0 <= r < weights (routingConfigs sr) /\ Route (fun _ => r) model sr = Some (routed c).
Proof.
  intros Hpol Hp Hm Hi Hr. rewrite (weights_take_S _ _ _ Hi) in Hr.
  pose proof (weights_nonneg _ (Forall_take _ i _ Hp)) as H1. pose proof (weights_nonneg _ (Forall_drop _ (S i) _ Hp)) as H2.
  assert (weights (routingConfigs sr) = weights (take i (routingConfigs sr)) + Weight c + weights (drop (S i) (routingConfigs sr))) as Hsum.
  { rewrite <- (weights_take_S _ _ _ Hi). clear. generalize (S i). intros n. revert n. induction (routingConfigs sr) as [|d l IH]; intros [|n]; cbn; rewrite ?(IH n); lia. }
  split; [lia|]. unfold Route. rewrite bool_decide_eq_false_2 by (intros E; by rewrite E in Hi). rewrite Hpol. cbn [mbind option_bind]. rewrite bool_decide_eq_true_2 by done.
  unfold selectByWeight. rewrite bool_decide_eq_false_2 by (intros E; by rewrite E in Hi). rewrite totalWeight_exact by done.
  rewrite !bool_decide_eq_false_2 by lia. rewrite (weight_loop_exact _ i 0 c) by (done || lia). cbn [Nat.add mbind option_bind]. rewrite Hi. cbn [mbind option_bind].
  unfold selected, routed. by case_bool_decide.
Qed.

(** ** Choice by prefix *)

Definition exact_match (model : string) (c : RouteConfig) : Prop := HasSuffix (Prefix c) "*" = false /\ Prefix c = model.
Definition wildcard_match (model : string) (c : RouteConfig) (n : nat) : Prop :=
  HasSuffix (Prefix c) "*" = true /\ HasPrefix model (TrimSuffix (Prefix c) "*") = true /\ String.length (TrimSuffix (Prefix c) "*") = n.

(** The configuration that a model should go to: the first one with its very name; without
    one, the first of those with the longest matching prefix. *)
Definition best_for (model : string) (configs : list RouteConfig) (i : nat) (c : RouteConfig) : Prop :=
  configs !! i = Some c /\
  ((exact_match model c /\ forall j d, (j < i)%nat -> configs !! j = Some d -> ~ exact_match model d) \/
   ((forall j d, configs !! j = Some d -> ~ exact_match model d) /\
    exists n, wildcard_match model c n /\ forall j d m, configs !! j = Some d -> wildcard_match model d m -> (m <= n)%nat /\ ((j < i)%nat -> (m < n)%nat))).

Definition matches (model : string) (c : RouteConfig) : Prop := exact_match model c \/ exists n, wildcard_match model c n.

(** What the loop knows after the configurations [pre]. *)
Definition best_so_far (model : string) (pre : list RouteConfig) (len : Z) (sel : option nat) : Prop :=
  (forall j d, pre !! j = Some d -> ~ exact_match model d) /\
  match sel with
  | None => len = -1 /\ forall j d m, pre !! j = Some d -> ~ wildcard_match model d m
  | Some k => exists c n, pre !! k = Some c /\ len = Z.of_nat n /\ wildcard_match model c n /\
      forall j d m, pre !! j = Some d -> wildcard_match model d m -> (m <= n)%nat /\ ((j < k)%nat -> (m < n)%nat)
  end.

Lemma lookup_snoc_inv {A} (l : list A) x j y : (l ++ [x]) !! j = Some y -> l !! j = Some y \/ (j = length l /\ y = x).
Proof. intros H. apply lookup_app_Some in H as [H|[Hj H]]; [by left|right]. apply list_lookup_singleton_Some in H as [? ->]. split; [lia|done]. Qed.

Lemma best_skip model pre len sel c :
  best_so_far model pre len sel -> ~ exact_match model c -> (forall m, wildcard_match model c m -> Z.of_nat m <= len) ->
  best_so_far model (pre ++ [c]) len sel.
Proof.
  intros [He Hs] Hc Hw. split.
  - intros j d [H|[_ ->]]%lookup_snoc_inv; [by eapply He|done].
  - destruct sel as [k|].
    + destruct Hs as (c' & n & Hk & -> & Hm & Hall). exists c', n. split; [by apply lookup_app_l_Some|]. split; [done|]. split; [done|].
      intros j d m [H|[-> ->]]%lookup_snoc_inv Hd; [by eapply Hall|]. apply lookup_lt_Some in Hk. apply Hw in Hd. lia.
    + destruct Hs as [-> Hn]. split; [done|]. intros j d m [H|[_ ->]]%lookup_snoc_inv Hd; [by eapply Hn|]. apply Hw in Hd. lia.
Qed.

Lemma best_take model pre len sel c n :
  best_so_far model pre len sel -> wildcard_match model c n -> len < Z.of_nat n -> best_so_far model (pre ++ [c]) (Z.of_nat n) (Some (length pre)).
Proof.
  intros [He Hs] Hw Hlt. split.
  - intros j d [H|[_ ->]]%lookup_snoc_inv; [by eapply He|]. intros [E _]. destruct Hw as [E' _]. congruence.
  - exists c, n. split; [by rewrite lookup_app_r, Nat.sub_diag by lia|]. split; [done|]. split; [done|].
    intros j d m [H|[-> ->]]%lookup_snoc_inv Hd.
    + destruct sel as [k|]; [|exfalso; by eapply (proj2 Hs)]. destruct Hs as (c' & n' & Hk & -> & Hm & Hall). destruct (Hall _ _ _ H Hd). lia.
    + destruct Hw as (_ & _ & <-), Hd as (_ & _ & <-). lia.
Qed.

Lemma prefix_loop_best model rest pre len sel :
  best_so_far model pre len sel ->
  match prefix_loop rest model (length pre) len sel with
  | None => forall j d, (pre ++ rest) !! j = Some d -> ~ matches model d
  | Some k => exists c, best_for model (pre ++ rest) k c
  end.
Proof.
  revert pre len sel. induction rest as [|c rest IH]; intros pre len sel Hb; cbn [prefix_loop].
  - rewrite app_nil_r. destruct sel as [k|], Hb as [He Hs].
    + destruct Hs as (c & n & Hk & -> & Hm & Hall). exists c. split; [done|right]. split; [done|]. by exists n.
    + destruct Hs as [_ Hn]. intros j d H [Hx|[m Hx]]; [by eapply He|by eapply Hn].
  - change (c :: rest) with ([c] ++ rest). rewrite app_assoc. replace (S (length pre)) with (length (pre ++ [c])) by (rewrite length_app; cbn; lia).
    destruct (HasSuffix (Prefix c) "*") eqn:Hsuf.
    + assert (~ exact_match model c) as Hx by (intros [E _]; congruence).
      destruct (HasPrefix _ _ && _) eqn:E.
      * apply andb_prop in E as [E1 E2%bool_decide_eq_true]. apply IH. by eapply best_take.
      * apply IH, best_skip; [done|done|]. intros m (_ & E1 & <-). rewrite E1 in E. by apply bool_decide_eq_false, Z.nlt_ge in E.
    + case_bool_decide as Hm.
      * exists c. split; [by rewrite lookup_app_l, lookup_app_r, Nat.sub_diag by (rewrite ?length_app; cbn; lia)|left].
        split; [done|]. intros j d Hj. rewrite lookup_app_l, lookup_app_l by (rewrite ?length_app; lia). apply Hb.
      * apply IH, best_skip; [done|intros [_ E]; congruence|]. intros m [E _]. congruence.
Qed.

(** Routing by the model's name takes the first configuration with that very name, and without one the first of those with the longest matching
    prefix; a model that matches nothing has an unknown route. *)
Theorem prefix_route_longest intn sr model :
  routingPolicy sr = RoutePolicyPrefix -> routingConfigs sr <> [] -> model <> "" ->
  (exists i c, best_for model (routingConfigs sr) i c /\ Route intn model sr = Some (routed c)) \/
  ((forall c, c ∈ routingConfigs sr -> ~ matches model c) /\ Route intn model sr = Some (None, RouteUnknown)).
Proof.
  intros Hpol Hne Hm. unfold Route. rewrite bool_decide_eq_false_2 by done. rewrite Hpol. rewrite (bool_decide_eq_false_2 (RoutePolicyPrefix = _)) by done.
  rewrite bool_decide_eq_true_2 by done. unfold selectByPrefix. rewrite bool_decide_eq_false_2 by done.
  assert (best_so_far model [] (-1) None) as Hb by (split; [done|]; split; [done|]; intros j d m H; by rewrite lookup_nil in H).
  pose proof (prefix_loop_best model (routingConfigs sr) [] (-1) None Hb) as H. change (length (@nil RouteConfig)) with 0%nat in H. cbn [app] in H.
  destruct (prefix_loop _ _ _ _ _) as [k|].
  - left. destruct H as [c Hc]. exists k, c. split; [done|]. destruct Hc as [Hk _]. rewrite Hk. cbn. unfold selected, routed. by case_bool_decide.
  - right. split; [|done]. intros c [j Hj]%list_elem_of_lookup. by eapply H.
Qed.

(** ** Witnesses *)

Definition example_configs : list RouteConfig :=
  [ mkRouteConfig "http://a/v1" "k" "m" true 3 "qwen*";
    mkRouteConfig "local" "" "" false 0 "llama-3";
    mkRouteConfig "http://b" "" "" true 2 "qwen3-*" ].

Lemma weight_route_exact_witness :
  0 <= 4 < 5 /\ Route (fun _ => 4) "" (mkRouter RoutePolicyWeight example_configs []) = Some (Some (mkRouteEndpoint "http://b" "" ""), RouteExternal).
Proof.
  apply (weight_route_exact (mkRouter RoutePolicyWeight example_configs []) 2 (mkRouteConfig "http://b" "" "" true 2 "qwen3-*") "" 4);
    [reflexivity|repeat constructor; cbn; lia|vm_compute; congruence|reflexivity|vm_compute; split; congruence].
Defined.

Lemma prefix_route_longest_witness :
  Route (fun _ => 0) "qwen3-8b" (mkRouter RoutePolicyPrefix example_configs []) = Some (Some (mkRouteEndpoint "http://b" "" ""), RouteExternal) /\
  ((exists i c, best_for "qwen3-8b" example_configs i c /\ Route (fun _ => 0) "qwen3-8b" (mkRouter RoutePolicyPrefix example_configs []) = Some (routed c)) \/
   ((forall c, c ∈ example_configs -> ~ matches "qwen3-8b" c) /\ Route (fun _ => 0) "qwen3-8b" (mkRouter RoutePolicyPrefix example_configs []) = Some (None, RouteUnknown))).
Proof. split; [vm_compute; reflexivity|]. apply (prefix_route_longest (fun _ => 0) (mkRouter RoutePolicyPrefix example_configs []) "qwen3-8b"); [reflexivity|discriminate|discriminate]. Defined.
