(* ===== verification/Reasoning.v ===== *)
(** * The reasoning parser

    [pkg/gateway/processor/reasoning-parser/reasoning_parser.go]: separates the text a
    model thinks between its tags from the text it answers, on a whole output and chunk
    by chunk. The detector is a state that each chunk changes. *)

From Stdlib Require Import Ascii.
From stdpp Require Import base list strings numbers relations.
From S2P Require Import Prelude GoStrings Types.

Local Open Scope nat_scope.

Record BaseReasoningFormatDetector := mkDetector {
  thinkStartTag : string;
  thinkEndTag : string;
  inReasoning : bool;
  streamReasoning : bool;
  buffer : string;
  strippedThinkStart : bool
}.

Definition NewBaseReasoningFormatDetector (startTag endTag : string) (forceReasoning streamReasoning : bool) : BaseReasoningFormatDetector :=
  mkDetector startTag endTag forceReasoning streamReasoning "" false.

Definition set_detector (inR : bool) (buf : string) (stripped : bool) (d : BaseReasoningFormatDetector) : BaseReasoningFormatDetector :=
  mkDetector (thinkStartTag d) (thinkEndTag d) inR (streamReasoning d) buf stripped.

Definition Reset (d : BaseReasoningFormatDetector) : BaseReasoningFormatDetector := set_detector false "" false d.

(** The reasoning and the content of a whole output. *)
Definition DetectAndParse (d : BaseReasoningFormatDetector) (modelOutput : string) : string * string :=
  if negb (inReasoning d || Contains modelOutput (thinkStartTag d)) then ("", modelOutput) else
  let processedText := TrimSpace (ReplaceAll modelOutput (thinkStartTag d) "") in
  match SplitN2 processedText (thinkEndTag d) with
  | [r; c] => (r, TrimSpace c)
  | _ => (processedText, "")
  end.

(** A prefix of a tag that is not the whole tag. *)
Definition partial_tag (tag text : string) : bool := HasPrefix tag text && bool_decide (tag <> text).

Definition ParseStreamingIncrement (newText : string) (d : BaseReasoningFormatDetector) : (string * string) * BaseReasoningFormatDetector :=
  let currentText := buffer d +:+ newText in
  let d := set_detector (inReasoning d) currentText (strippedThinkStart d) d in
  if partial_tag (thinkStartTag d) currentText || partial_tag (thinkEndTag d) currentText then (("", ""), d) else
  let '(currentText, d) :=
    if negb (strippedThinkStart d) && Contains currentText (thinkStartTag d)
    then (ReplaceAll currentText (thinkStartTag d) "", set_detector true (buffer d) true d)
    else (currentText, d) in
  if inReasoning d then
    match Index currentText (thinkEndTag d) with
    | Some endIdx => ((stake endIdx currentText, sdrop (endIdx + String.length (thinkEndTag d)) currentText), Reset d)
    | None =>
        if streamReasoning d then ((currentText, ""), set_detector (inReasoning d) "" (strippedThinkStart d) d)
        else (("", ""), d)
    end
  else (("", currentText), set_detector (inReasoning d) "" (strippedThinkStart d) d).

(** ** Choosing a detector *)

Definition NewDeepSeekR1Detector (streamReasoning : bool) : BaseReasoningFormatDetector :=
  NewBaseReasoningFormatDetector "<think>" "</think>" true streamReasoning.
Definition NewQwen3Detector (streamReasoning forceReasoning : bool) : BaseReasoningFormatDetector :=
  NewBaseReasoningFormatDetector "<think>" "</think>" forceReasoning streamReasoning.
Definition NewKimiDetector (streamReasoning : bool) : BaseReasoningFormatDetector :=
  NewBaseReasoningFormatDetector "◁think▷" "◁/think▷" false streamReasoning.

(** [strings.ToLower] on ASCII letters. *)
Definition lower_char (c : ascii) : ascii :=
  let n := nat_of_ascii c in if bool_decide (65 <= n <= 90) then ascii_of_nat (n + 32) else c.
Fixpoint ToLower (s : string) : string :=
  match s with String c s => String (lower_char c) (ToLower s) | EmptyString => "" end.

Definition one_of (s : string) (l : list string) : bool := existsb (String.eqb s) l.

Definition NewReasoningParser (reasoningParser : string) (streamReasoning forceReasoning : bool) : result BaseReasoningFormatDetector :=
  let mt := ToLower reasoningParser in
  if one_of mt ["deepseek-r1"; "kimi_k2"; "step3"; "deepseek"] then Ok (NewDeepSeekR1Detector streamReasoning)
  else if one_of mt ["qwen3"; "qwen3-thinking"; "deepseek-v3"; "minimax"; "glm45"] then Ok (NewQwen3Detector streamReasoning forceReasoning)
  else if one_of mt ["kimi"] then Ok (NewKimiDetector streamReasoning)
  else if one_of mt [""] then Ok (NewQwen3Detector true false)
  else Err (ErrorOther ("Unsupported reasoning parser: " +:+ reasoningParser)).

Definition ParseNonStream := DetectAndParse.
Definition ParseStreamChunk := ParseStreamingIncrement.

(** ** A stream of chunks *)

Fixpoint parse_stream (chunks : list string) (d : BaseReasoningFormatDetector) : list (string * string) * BaseReasoningFormatDetector :=
  match chunks with
  | [] => ([], d)
  | c :: chunks => let '(out, d) := ParseStreamChunk c d in let '(outs, d) := parse_stream chunks d in (out :: outs, d)
  end.

Fixpoint concat_text (l : list string) : string := match l with [] => "" | s :: l => s +:+ concat_text l end.

(** All the text of the outputs in order. *)
Definition emitted (outs : list (string * string)) : string := concat_text ((fun o => o.1 +:+ o.2) <$> outs).

(** [erased tags s t]: [t] is what is left of [s] after some occurrences of tags are cut out. *)
Definition erase1 (tags : list string) (s t : string) : Prop := exists a tag b, tag ∈ tags /\ s = a +:+ tag +:+ b /\ t = a +:+ b.
Definition erased (tags : list string) : string -> string -> Prop := rtc (erase1 tags).

Lemma erased_app_l tags a s t : erased tags s t -> erased tags (a +:+ s) (a +:+ t).
Proof.
  induction 1 as [|s t u (x & tag & y & Ht & -> & ->) _ IH]; [apply rtc_refl|].
  eapply rtc_l; [|exact IH]. exists (a +:+ x), tag, y. by rewrite !sapp_assoc.
Qed.

Lemma erased_app_r tags a s t : erased tags s t -> erased tags (s +:+ a) (t +:+ a).
Proof.
  induction 1 as [|s t u (x & tag & y & Ht & -> & ->) _ IH]; [apply rtc_refl|].
  eapply rtc_l; [|exact IH]. exists x, tag, (y +:+ a). by rewrite !sapp_assoc.
Qed.

Lemma erased_tag tags tag a b : tag ∈ tags -> erased tags (a +:+ tag +:+ b) (a +:+ b).
Proof. intros H. apply rtc_once. by exists a, tag, b. Qed.

Lemma erased_split tags sep fuel s : sep ∈ tags -> erased tags s (Join (split_fuel fuel s sep) "").
Proof.
  intros Hin. revert s. induction fuel as [|fuel IH]; intros s; cbn [split_fuel]; [apply rtc_refl|].
  destruct (Index s sep) as [i|] eqn:E; [|apply rtc_refl]. apply Index_Some in E. rewrite E at 1.
  assert (forall l, Join (stake i s :: l) "" = stake i s +:+ Join l "") as -> by (intros [|x l]; [by rewrite sapp_nil_r|done]).
  etransitivity; [by apply erased_tag|]. apply erased_app_l, IH.
Qed.

Lemma erased_replace tags s tag : tag ∈ tags -> erased tags s (ReplaceAll s tag "").
Proof. apply erased_split. Qed.

Definition tags_of (d : BaseReasoningFormatDetector) : list string := [thinkStartTag d; thinkEndTag d].

Lemma chunk_erased c d o d' :
  streamReasoning d = true -> ParseStreamChunk c d = (o, d') ->
  erased (tags_of d) (buffer d +:+ c) (o.1 +:+ o.2 +:+ buffer d') /\ tags_of d' = tags_of d /\ streamReasoning d' = true.
Proof.
  intros Hs. unfold ParseStreamChunk, ParseStreamingIncrement. cbn.
  destruct (_ || _); [intros [= <- <-]; split; [apply rtc_refl|done]|].
  destruct (negb _ && _) eqn:E; cbn -[Index ReplaceAll].
  - assert (erased (tags_of d) (buffer d +:+ c) (ReplaceAll (buffer d +:+ c) (thinkStartTag d) "")) as H by (apply erased_replace; left).
    destruct (Index _ _) as [i|] eqn:Hi; cbn -[ReplaceAll]; [|rewrite Hs]; intros [= <- <-]; cbn -[ReplaceAll]; rewrite ?sapp_nil_r; (split; [|done]).
    + etransitivity; [exact H|]. apply Index_Some in Hi. rewrite Hi at 1. apply erased_tag. right. left.
    + done.
  - destruct (inReasoning d); [|intros [= <- <-]; cbn; rewrite sapp_nil_r; split; [apply rtc_refl|done]].
    destruct (Index _ _) as [i|] eqn:Hi; cbn; [|rewrite Hs]; intros [= <- <-]; cbn; rewrite ?sapp_nil_r; (split; [|done]).
    + apply Index_Some in Hi. rewrite Hi at 1. apply erased_tag. right. left.
    + apply rtc_refl.
Qed.

(** C31. Streaming loses and invents no text: however the model's output is cut into chunks, the reasoning and the content that are sent, in order,
    followed by what is still buffered, are the output with nothing but tags cut out. *)
Theorem reasoning_stream_lossless chunks d outs d' :
  streamReasoning d = true -> parse_stream chunks d = (outs, d') ->
  erased (tags_of d) (buffer d +:+ concat_text chunks) (emitted outs +:+ buffer d').
Proof.
  revert d outs. induction chunks as [|c chunks IH]; intros d outs Hs; cbn [parse_stream].
  - intros [= <- <-]. cbn. rewrite sapp_nil_r. apply rtc_refl.
  - destruct (ParseStreamChunk c d) as [o d1] eqn:E. destruct (parse_stream chunks d1) as [outs1 d2] eqn:E2. intros [= <- <-].
    destruct (chunk_erased _ _ _ _ Hs E) as (H1 & Ht & Hs1). specialize (IH _ _ Hs1 E2). rewrite Ht in IH.
    unfold emitted. cbn. rewrite sapp_assoc, <- (sapp_assoc _ _ (buffer d2)). fold (emitted outs1).
    etransitivity; [apply erased_app_r; exact H1|]. rewrite sapp_assoc, <- (sapp_assoc _ (buffer d1)). by apply erased_app_l.
Qed.

(** ** A stream in which no chunk cuts a tag *)

Definition clean (d : BaseReasoningFormatDetector) (c : string) : Prop :=
  (c = "" /\ thinkStartTag d <> "") \/ (Index c (thinkStartTag d) = None /\ Index c (thinkEndTag d) = None /\ partial_tag (thinkStartTag d) c = false /\ partial_tag (thinkEndTag d) c = false).

Definition reasoning_text (outs : list (string * string)) : string := concat_text (fst <$> outs).
Definition content_text (outs : list (string * string)) : string := concat_text (snd <$> outs).

Lemma clean_chunk c d :
  streamReasoning d = true -> buffer d = "" -> clean d c ->
  ParseStreamChunk c d = ((if inReasoning d then (c, "") else ("", c)), d).
Proof.
  destruct d as [st en inR str buf strip]. cbn. intros -> -> [[-> Hst] | (H1 & H2 & H3 & H4)]; unfold ParseStreamChunk, ParseStreamingIncrement; cbn.
  - cbn in Hst. unfold partial_tag, HasPrefix. rewrite sapp_nil_l, bool_decide_eq_true_2 by done. by destruct st, inR.
  - cbn in H1, H2, H3, H4. rewrite sapp_nil_l, H3, H4. cbn. unfold Contains. rewrite H1, andb_false_r. cbn. destruct inR; [|done]. by rewrite H2.
Qed.

Lemma clean_stream chunks d outs d' :
  streamReasoning d = true -> buffer d = "" -> Forall (clean d) chunks -> parse_stream chunks d = (outs, d') ->
  d' = d /\ reasoning_text outs = (if inReasoning d then concat_text chunks else "") /\ content_text outs = (if inReasoning d then "" else concat_text chunks).
Proof.
  intros Hs Hb Hc. revert outs. induction Hc as [|c chunks H1 Hc IH]; intros outs; cbn [parse_stream]; [intros [= <- <-]; by destruct (inReasoning d)|].
  rewrite (clean_chunk _ _ Hs Hb H1). destruct (parse_stream chunks d) as [outs1 d1]. intros [= <- <-].
  destruct (IH _ eq_refl) as (-> & E1 & E2). unfold reasoning_text, content_text in *. cbn. rewrite E1, E2. by destruct (inReasoning d).
Qed.

Lemma parse_stream_app l1 l2 d outs d' :
  parse_stream (l1 ++ l2) d = (outs, d') ->
  exists outs1 outs2 d1, parse_stream l1 d = (outs1, d1) /\ parse_stream l2 d1 = (outs2, d') /\ outs = outs1 ++ outs2.
Proof.
  revert d outs. induction l1 as [|c l1 IH]; intros d outs; cbn [parse_stream app]; [intros H; by exists [], outs, d|].
  destruct (ParseStreamChunk c d) as [o d1]. destruct (parse_stream (l1 ++ l2) d1) as [os d2] eqn:E. intros [= <- <-].
  destruct (IH _ _ E) as (o1 & o2 & d3 & E1 & E2 & ->). exists (o :: o1), o2, d3. by rewrite E1.
Qed.

Lemma concat_text_app l1 l2 : concat_text (l1 ++ l2) = concat_text l1 +:+ concat_text l2.
Proof. induction l1 as [|s l1 IH]; cbn; [done|]. by rewrite IH, sapp_assoc. Qed.

(** The chunk that ends the reasoning. *)
Lemma end_chunk a b d :
  streamReasoning d = true -> inReasoning d = true -> buffer d = "" ->
  let c := a +:+ thinkEndTag d +:+ b in
  Index c (thinkStartTag d) = None -> Index c (thinkEndTag d) = Some (String.length a) ->
  partial_tag (thinkStartTag d) c = false -> partial_tag (thinkEndTag d) c = false ->
  ParseStreamChunk c d = ((a, b), Reset d).
Proof.
  destruct d as [st en inR str buf strip]. cbn. intros -> -> -> H1 H2 H3 H4. unfold ParseStreamChunk, ParseStreamingIncrement. cbn.
  rewrite sapp_nil_l, H3, H4. cbn. unfold Contains. rewrite H1, andb_false_r. cbn. rewrite H2.
  by rewrite stake_app, sapp_assoc, <- slength_app, sdrop_app.
Qed.

(** When no chunk cuts a tag, the split is the intended one whatever the chunks are: of a stream that is in its reasoning, the text before the end tag
    is sent as reasoning and the text after it as content, all of both and nothing else, and nothing stays buffered. *)
Theorem reasoning_stream_split d rs a b cs outs d' :
  streamReasoning d = true -> inReasoning d = true -> buffer d = "" ->
  Forall (clean d) rs -> Forall (clean d) cs ->
  Index (a +:+ thinkEndTag d +:+ b) (thinkStartTag d) = None -> Index (a +:+ thinkEndTag d +:+ b) (thinkEndTag d) = Some (String.length a) ->
  partial_tag (thinkStartTag d) (a +:+ thinkEndTag d +:+ b) = false -> partial_tag (thinkEndTag d) (a +:+ thinkEndTag d +:+ b) = false ->
  parse_stream (rs ++ (a +:+ thinkEndTag d +:+ b) :: cs) d = (outs, d') ->
  reasoning_text outs = concat_text rs +:+ a /\ content_text outs = b +:+ concat_text cs /\ buffer d' = "".
Proof.
  intros Hs Hr Hb Hrs Hcs H1 H2 H3 H4 E. apply parse_stream_app in E as (o1 & o2 & d1 & E1 & E2 & ->).
  apply (clean_stream _ _ _ _ Hs Hb Hrs) in E1 as (-> & R1 & C1). rewrite Hr in R1, C1.
  cbn [parse_stream] in E2. rewrite end_chunk in E2 by done. destruct (parse_stream cs (Reset d)) as [o3 d3] eqn:E3. injection E2 as <- <-.
  assert (Forall (clean (Reset d)) cs) as Hcs' by exact Hcs.
  apply (clean_stream cs (Reset d) o3 d3 Hs eq_refl Hcs') in E3 as (-> & R3 & C3). cbn in R3, C3.
  unfold reasoning_text, content_text in *. rewrite !fmap_app, !concat_text_app. cbn. by rewrite R1, C1, R3, C3, sapp_nil_r.
Qed.

Lemma reasoning_stream_lossless_witness :
  parse_stream ["<thi"; "nk>a"; "b</think>c"; "d"] (NewQwen3Detector true false) = ([("", ""); ("a", ""); ("b", "c"); ("", "d")], NewQwen3Detector true false) /\
  erased (tags_of (NewQwen3Detector true false)) ("" +:+ "<think>ab</think>cd") ("abcd" +:+ "").
Proof.
  split; [vm_compute; reflexivity|].
  apply (reasoning_stream_lossless ["<thi"; "nk>a"; "b</think>c"; "d"] (NewQwen3Detector true false) [("", ""); ("a", ""); ("b", "c"); ("", "d")] (NewQwen3Detector true false));
    [reflexivity|vm_compute; reflexivity].
Defined.

Lemma reasoning_stream_split_witness :
  reasoning_text [("let me", ""); (" see", "42"); ("", " it is")] = "let me" +:+ " see" /\
  content_text [("let me", ""); (" see", "42"); ("", " it is")] = "42" +:+ " it is" /\ buffer (Reset (NewDeepSeekR1Detector true)) = "".
Proof.
  apply (reasoning_stream_split (NewDeepSeekR1Detector true) ["let me"] " see" "42" [" it is"] _ (Reset (NewDeepSeekR1Detector true)));
    [reflexivity|reflexivity|reflexivity| | |vm_compute; reflexivity..].
  - constructor; [right; vm_compute; auto|constructor].
  - constructor; [right; vm_compute; auto|constructor].
Defined.

(** A chunk that cuts the end tag after other text: the tag goes out as reasoning and the
    answer after it as well. *)
Lemma cut_tag_is_missed :
  (parse_stream ["a</th"; "ink>b"] (NewDeepSeekR1Detector true)).1 = [("a</th", ""); ("ink>b", "")].
Proof. vm_compute. reflexivity. Qed.
