(* ===== verification/Protocol.v ===== *)
(** * The OpenAI protocol and the request context

    [pkg/gateway/protocol] (requests and responses of the two completion interfaces) and
    [pkg/types/request.go] (what the gateway keeps of a request). The records have the
    fields that the gateway's code reads or writes. A JSON text is the value it denotes,
    [json]; a number is an integer or the text of another number. A [float32] is its bits. *)

From Stdlib Require Import Ascii.
From stdpp Require Import base gmap list strings numbers.
From S2P Require Import Prelude GoStrings Types GatewayErrors Reasoning LrsClient.

Local Open Scope Z_scope.

Inductive json :=
  | JNull
  | JBool (b : bool)
  | JInt (z : Z)
  | JNum (text : string)
  | JString (s : string)
  | JArr (l : list json)
  | JObj (l : list (string * json)).

(** ** common.go, openai_chat.go, openai_completion.go *)

Inductive ProtocolType := OpenAIChatCompletion | OpenAICompletion | ProtocolOther (n : Z).

#[export] Instance ProtocolType_eq_dec : EqDecision ProtocolType.
Proof. solve_decision. Defined.

Definition ProtocolType_String (p : ProtocolType) : string :=
  match p with OpenAIChatCompletion => "chat" | OpenAICompletion => "completions" | ProtocolOther _ => "unknown" end.

Definition ChatCompletionsSuffix : string := "/chat/completions".
Definition CompletionsSuffix : string := "/completions".
Definition CompletionsPath : string := "/v1/completions".

Definition IsChatCompletionsURL (url : string) : bool :=
  bool_decide (String.length ChatCompletionsSuffix <= String.length url)%nat &&
  bool_decide (sdrop (String.length url - String.length ChatCompletionsSuffix) url = ChatCompletionsSuffix).
Definition IsCompletionsURL (url : string) : bool :=
  bool_decide (String.length CompletionsSuffix <= String.length url)%nat &&
  bool_decide (sdrop (String.length url - String.length CompletionsSuffix) url = CompletionsSuffix).

Record Usage := mkUsage {
  PromptTokens : Z;
  CompletionTokens : Z;
  TotalTokens : Z;
  ReasoningTokens : option Z;
  CachedTokens : option Z
}.

Record ToolCall := mkToolCall {
  tc_Index : option Z;
  tc_ID : string;
  tc_Type : string;
  tc_Name : string;
  tc_Arguments : string
}.

(** *** The prompt of a completion *)

Inductive PromptValue :=
  | PromptNil
  | PromptString (s : string)
  | PromptStrings (l : list string)
  | PromptUint32s (l : list Z)
  | PromptMatrix (l : list (list Z)).

Definition GetString (p : PromptValue) : option string := match p with PromptString s => Some s | _ => None end.
Definition GetStringSlice (p : PromptValue) : option (list string) := match p with PromptStrings l => Some l | _ => None end.
Definition GetUint32Slice (p : PromptValue) : option (list Z) := match p with PromptUint32s l => Some l | _ => None end.
Definition GetUint32Matrix (p : PromptValue) : option (list (list Z)) := match p with PromptMatrix l => Some l | _ => None end.

(** [json.Unmarshal] into a [uint32], a [string] and a slice; [null] leaves the zero value. *)
Definition as_uint32 (j : json) : option Z :=
  match j with JNull => Some 0 | JInt z => if bool_decide (0 <= z < 2 ^ 32) then Some z else None | _ => None end.
Definition as_string (j : json) : option string := match j with JNull => Some "" | JString s => Some s | _ => None end.
Definition as_slice {A} (elem : json -> option A) (j : json) : option (list A) :=
  match j with JNull => Some [] | JArr l => mapM elem l | _ => None end.

Definition PromptValue_UnmarshalJSON (j : json) : result PromptValue :=
  match j with
  | JString s => Ok (PromptString s)
  | JArr _ =>
      match as_slice as_uint32 j with
      | Some l => Ok (PromptUint32s l)
      | None =>
          match as_slice as_string j with
          | Some l => Ok (PromptStrings l)
          | None =>
              match as_slice (as_slice as_uint32) j with
              | Some l => Ok (PromptMatrix l)
              | None => Err (ErrorOther "array is not []string, []uint32 or [][]uint32")
              end
          end
      end
  | _ => Err (ErrorOther "unsupported prompt type: expected string or array")
  end.

Definition PromptValue_MarshalJSON (p : PromptValue) : json :=
  match p with
  | PromptNil => JNull
  | PromptString s => JString s
  | PromptStrings l => JArr (JString <$> l)
  | PromptUint32s l => JArr (JInt <$> l)
  | PromptMatrix l => JArr ((fun l => JArr (JInt <$> l)) <$> l)
  end.

(** *** Requests and responses *)

Record StreamOptions := mkStreamOptions { IncludeUsage : bool; ContinuousUsageStats : bool }.

Record CompletionRequest := mkCompletionRequest {
  cr_Id : string;
  cr_Rid : string;
  cr_Model : string;
  cr_Prompt : PromptValue;
  cr_FrequencyPenalty : Z;
  cr_MaxTokens : option Z;
  cr_N : Z;
  cr_PresencePenalty : Z;
  cr_Seed : option Z;
  cr_Stop : list string;
  cr_Stream : bool;
  cr_StreamOptions : option StreamOptions;
  cr_Temperature : option Z;
  cr_TopP : Z;
  cr_User : string;
  cr_KvTransferParams : option (gmap string json);
  cr_BootStrapHost : string;
  cr_BootStrapRoom : string
}.

Record ChatCompletionRequest := mkChatRequest {
  cc_Model : string;
  cc_MaxTokens : Z;
  cc_Temperature : option Z;
  cc_TopP : Z;
  cc_N : Z;
  cc_Stream : bool;
  cc_Stop : list string;
  cc_PresencePenalty : Z;
  cc_Seed : option Z;
  cc_FrequencyPenalty : Z;
  cc_User : string;
  cc_Tools : list json
}.

Record CompletionChoice := mkChoice { ch_Text : string; ch_Index : Z; ch_FinishReason : string }.

Record CompletionResponse := mkCompletionResponse {
  rs_ID : string;
  rs_Object : string;
  rs_Created : Z;
  rs_Model : string;
  rs_Choices : list CompletionChoice;
  rs_Usage : option Usage;
  rs_KvTransferParams : option (gmap string json);
  rs_SystemFingerprint : string
}.

Record ChatCompletionStreamChoice := mkStreamChoice {
  sc_Index : Z;
  sc_FinishReason : string;
  sc_Role : string;
  sc_Content : string;
  sc_ReasoningContent : string;
  sc_ToolCalls : list ToolCall
}.

Record ChatCompletionStreamResponse := mkStreamResponse {
  st_ID : string;
  st_Object : string;
  st_Created : Z;
  st_Model : string;
  st_SystemFingerprint : string;
  st_Choices : list ChatCompletionStreamChoice;
  st_Usage : option Usage
}.

(** The one choice of a chat response and its message. *)
Record ChatCompletionResponse := mkChatResponse {
  cp_ID : string;
  cp_Object : string;
  cp_Created : Z;
  cp_Model : string;
  cp_SystemFingerprint : string;
  cp_Role : string;
  cp_Content : string;
  cp_ReasoningContent : string;
  cp_ToolCalls : list ToolCall;
  cp_FinishReason : string;
  cp_Usage : option Usage
}.

(** ** pkg/types/request.go

    A time is [None] when it is zero, else a number of nanoseconds. *)

Record RequestTimes := mkTimes {
  HandleTime : option Z;
  EnQueueTime : option Z;
  DeQueueTime : option Z;
  BalanceTime : option Z;
  PrefillTime : option Z;
  DecodeBalanceTime : option Z;
  FirstTime : option Z;
  ProcessTime : option Z;
  PreprocessCost : Z;
  PostprocessCost : Z;
  ITLs : list Z
}.

Record RequestStats := mkStats {
  times : RequestTimes;
  InputTokensLen : Z;
  OutputTokensLen : Z;
  ReasoningTokensLen : Z;
  MaxTokensLimit : Z;
  HasToolCalls : bool;
  FallbackAttempt : Z;
  RetryCount : Z;
  FailedInstances : list string
}.

Definition NewRequestStats (now : Z) : RequestStats :=
  mkStats (mkTimes (Some now) None None None None None None None 0 0 []) 0 0 0 0 false 0 0 [].

Definition OutputExceedMaxTokens (s : RequestStats) : bool :=
  if bool_decide (MaxTokensLimit s = 0) then false
  else bool_decide (MaxTokensLimit s <= uint64 (OutputTokensLen s - ReasoningTokensLen s)).

Definition RecordFailedInstance (id : string) (s : RequestStats) : RequestStats :=
  mkStats (times s) (InputTokensLen s) (OutputTokensLen s) (ReasoningTokensLen s) (MaxTokensLimit s) (HasToolCalls s) (FallbackAttempt s)
    (RetryCount s) (FailedInstances s ++ [id]).

(** *** Latencies *)

Definition Avg (itls : list Z) : Z :=
  if bool_decide (itls = []) then 0 else Z.quot (fold_left (fun s i => int64 (s + i)) itls 0) (Z.of_nat (length itls)).

(** [t.Sub(u)] saturates, [Milliseconds] rounds toward zero. *)
Definition Sub (t u : Z) : Z := Z.max MinInt64 (Z.min MaxInt64 (t - u)).
Definition Milliseconds (d : Z) : Z := Z.quot d 1000000.

Definition between (t u : option Z) : option Z := t ← t; u ← u; Some (Milliseconds (Sub t u)).

Definition TTFT (m : RequestTimes) : Z := default 0 (between (FirstTime m) (BalanceTime m)).
Definition QueueTime (m : RequestTimes) : Z := default 0 (between (DeQueueTime m) (EnQueueTime m)).
Definition ScheduleTime (m : RequestTimes) : Z := default 0 (between (BalanceTime m) (DeQueueTime m)).
Definition PreprocessTime (m : RequestTimes) : Z := Milliseconds (PreprocessCost m).
Definition PostprocessTime (m : RequestTimes) : Z := Milliseconds (PostprocessCost m).

Definition cost (name : string) (t u : option Z) : list string :=
  match between t u with Some ms => [name +:+ ":" +:+ Itoa ms +:+ "ms"] | None => [] end.

Definition RequestStats_String (m : RequestTimes) : string :=
  Join (cost "RT" (ProcessTime m) (HandleTime m)
        ++ cost "TTFT" (FirstTime m) (BalanceTime m)
        ++ ["ITL:" +:+ Itoa (Avg (ITLs m)) +:+ "ms|" +:+ Itoa (Z.of_nat (length (ITLs m)))]
        ++ cost "QT" (DeQueueTime m) (EnQueueTime m)
        ++ cost "ST" (BalanceTime m) (DeQueueTime m)
        ++ ["PRE:" +:+ Itoa (PreprocessTime m) +:+ "ms"]
        ++ ["POST:" +:+ Itoa (PostprocessTime m) +:+ "ms"]
        ++ cost "PF" (PrefillTime m) (BalanceTime m)
        ++ cost "DST" (DecodeBalanceTime m) (PrefillTime m)
        ++ cost "FDT" (FirstTime m) (DecodeBalanceTime m)) ",".

(** *** The request *)

(** The tool parser of a request is third-party code: its state is what it was given so far. *)
Abbreviation tool_history := (list (string * string)) (only parsing).

Record LLMRequest := mkLLMRequest {
  lr_Model : string;
  RawData : string;
  Protocol : ProtocolType;
  ClientStream : bool;
  lr_ChatRequest : option ChatCompletionRequest;
  lr_ChatResponse : option ChatCompletionResponse;
  lr_ChatStreamResponse : option ChatCompletionStreamResponse;
  lr_CompletionRequest : option CompletionRequest;
  lr_CompletionResponse : option CompletionResponse;
  lr_ReasoningParser : option BaseReasoningFormatDetector;
  lr_ToolParser : option tool_history;
  BufferChatResp : option ChatCompletionResponse;
  LastChatStreamResp : option ChatCompletionStreamResponse;
  BufferCompletionResponse : option CompletionResponse
}.

Definition NewLLMRequest : LLMRequest :=
  mkLLMRequest "" "" OpenAIChatCompletion false None None None None None None None None None None.

(** [None] is the nil pointer of a missing request. *)
Definition Stream (r : LLMRequest) : option bool :=
  match Protocol r with
  | OpenAICompletion => cr_Stream <$> lr_CompletionRequest r
  | OpenAIChatCompletion => cc_Stream <$> lr_ChatRequest r
  | ProtocolOther _ => Some false
  end.

Definition GetPromptTokens (r : LLMRequest) : option (list Z) := cr ← lr_CompletionRequest r; GetUint32Slice (cr_Prompt cr).
Definition GetPromptString (r : LLMRequest) : option string := cr ← lr_CompletionRequest r; GetString (cr_Prompt cr).

Record SchedulingContext := mkSchedulingContext {
  SchedulingResults : SchedulingResult;
  sx_Mode : SchedulingMode;
  sx_Stage : SchedulingStage;
  sx_GatewayId : string;
  NotNeedScheduling : bool
}.

Definition NewSchedulingContext : SchedulingContext := mkSchedulingContext [] "" "" "" false.

Record RequestContext := mkRequestContext {
  req_Id : string;
  req_LLM : LLMRequest;
  req_Stats : RequestStats;
  req_TokenState : option RequestTokenState;
  req_Sched : SchedulingContext;
  ForwardSucceeded : bool
}.

(** [NewRequestContext]: the id is the header's, or a new one that is put into the header. *)
Definition NewRequestContext (header_id uuid : string) (now : Z) : RequestContext :=
  mkRequestContext (if bool_decide (header_id = "") then uuid else header_id) NewLLMRequest (NewRequestStats now) None NewSchedulingContext false.

Definition upd_llm (f : LLMRequest -> LLMRequest) (r : RequestContext) : RequestContext :=
  mkRequestContext (req_Id r) (f (req_LLM r)) (req_Stats r) (req_TokenState r) (req_Sched r) (ForwardSucceeded r).
Definition upd_stats (f : RequestStats -> RequestStats) (r : RequestContext) : RequestContext :=
  mkRequestContext (req_Id r) (req_LLM r) (f (req_Stats r)) (req_TokenState r) (req_Sched r) (ForwardSucceeded r).
Definition upd_sched (f : SchedulingContext -> SchedulingContext) (r : RequestContext) : RequestContext :=
  mkRequestContext (req_Id r) (req_LLM r) (req_Stats r) (req_TokenState r) (f (req_Sched r)) (ForwardSucceeded r).
Definition set_token_state (t : option RequestTokenState) (r : RequestContext) : RequestContext :=
  mkRequestContext (req_Id r) (req_LLM r) (req_Stats r) t (req_Sched r) (ForwardSucceeded r).
Definition set_succeeded (r : RequestContext) : RequestContext :=
  mkRequestContext (req_Id r) (req_LLM r) (req_Stats r) (req_TokenState r) (req_Sched r) true.

(** Assignments to single fields. *)
Definition set_cmpl_request (c : option CompletionRequest) (r : LLMRequest) : LLMRequest :=
  mkLLMRequest (lr_Model r) (RawData r) (Protocol r) (ClientStream r) (lr_ChatRequest r) (lr_ChatResponse r) (lr_ChatStreamResponse r) c
    (lr_CompletionResponse r) (lr_ReasoningParser r) (lr_ToolParser r) (BufferChatResp r) (LastChatStreamResp r) (BufferCompletionResponse r).
Definition set_client_stream (b : bool) (r : LLMRequest) : LLMRequest :=
  mkLLMRequest (lr_Model r) (RawData r) (Protocol r) b (lr_ChatRequest r) (lr_ChatResponse r) (lr_ChatStreamResponse r) (lr_CompletionRequest r)
    (lr_CompletionResponse r) (lr_ReasoningParser r) (lr_ToolParser r) (BufferChatResp r) (LastChatStreamResp r) (BufferCompletionResponse r).
Definition set_cmpl_response (c : option CompletionResponse) (r : LLMRequest) : LLMRequest :=
  mkLLMRequest (lr_Model r) (RawData r) (Protocol r) (ClientStream r) (lr_ChatRequest r) (lr_ChatResponse r) (lr_ChatStreamResponse r)
    (lr_CompletionRequest r) c (lr_ReasoningParser r) (lr_ToolParser r) (BufferChatResp r) (LastChatStreamResp r) (BufferCompletionResponse r).
Definition set_chat_response (c : option ChatCompletionResponse) (r : LLMRequest) : LLMRequest :=
  mkLLMRequest (lr_Model r) (RawData r) (Protocol r) (ClientStream r) (lr_ChatRequest r) c (lr_ChatStreamResponse r)
    (lr_CompletionRequest r) (lr_CompletionResponse r) (lr_ReasoningParser r) (lr_ToolParser r) (BufferChatResp r) (LastChatStreamResp r) (BufferCompletionResponse r).
Definition set_stream_response (c : option ChatCompletionStreamResponse) (r : LLMRequest) : LLMRequest :=
  mkLLMRequest (lr_Model r) (RawData r) (Protocol r) (ClientStream r) (lr_ChatRequest r) (lr_ChatResponse r) c
    (lr_CompletionRequest r) (lr_CompletionResponse r) (lr_ReasoningParser r) (lr_ToolParser r) (BufferChatResp r) (LastChatStreamResp r) (BufferCompletionResponse r).
Definition set_parsers (rp : option BaseReasoningFormatDetector) (tp : option tool_history) (r : LLMRequest) : LLMRequest :=
  mkLLMRequest (lr_Model r) (RawData r) (Protocol r) (ClientStream r) (lr_ChatRequest r) (lr_ChatResponse r) (lr_ChatStreamResponse r)
    (lr_CompletionRequest r) (lr_CompletionResponse r) rp tp (BufferChatResp r) (LastChatStreamResp r) (BufferCompletionResponse r).
Definition set_buffers (b : option ChatCompletionResponse) (l : option ChatCompletionStreamResponse) (c : option CompletionResponse) (r : LLMRequest) : LLMRequest :=
  mkLLMRequest (lr_Model r) (RawData r) (Protocol r) (ClientStream r) (lr_ChatRequest r) (lr_ChatResponse r) (lr_ChatStreamResponse r)
    (lr_CompletionRequest r) (lr_CompletionResponse r) (lr_ReasoningParser r) (lr_ToolParser r) b l c.

Definition set_tokens (input output reasoning limit : Z) (tools : bool) (s : RequestStats) : RequestStats :=
  mkStats (times s) input output reasoning limit tools (FallbackAttempt s) (RetryCount s) (FailedInstances s).
Definition set_input_tokens (n : Z) (s : RequestStats) : RequestStats := set_tokens n (OutputTokensLen s) (ReasoningTokensLen s) (MaxTokensLimit s) (HasToolCalls s) s.
Definition set_limit (n : Z) (s : RequestStats) : RequestStats := set_tokens (InputTokensLen s) (OutputTokensLen s) (ReasoningTokensLen s) n (HasToolCalls s) s.
Definition add_output_tokens (n : Z) (s : RequestStats) : RequestStats :=
  set_tokens (InputTokensLen s) (uint64 (OutputTokensLen s + n)) (ReasoningTokensLen s) (MaxTokensLimit s) (HasToolCalls s) s.
Definition add_reasoning_tokens (n : Z) (s : RequestStats) : RequestStats :=
  set_tokens (InputTokensLen s) (OutputTokensLen s) (uint64 (ReasoningTokensLen s + n)) (MaxTokensLimit s) (HasToolCalls s) s.
Definition set_tool_calls (s : RequestStats) : RequestStats :=
  set_tokens (InputTokensLen s) (OutputTokensLen s) (ReasoningTokensLen s) (MaxTokensLimit s) true s.
