(* ===== verification/Processor.v ===== *)
(** * Request conversion and response processing

    [pkg/gateway/processor]: a request is turned into a completion request on token ids
    ([request_completion_convertor.go]); the chunks that the inference engine streams back
    are turned into the responses of the interface that the client uses
    ([response_chunk_processor.go]). The tokenizer, the chat template and the tool parser
    are the third-party package sglang, the class [Sglang]. [None] is the panic of a nil
    pointer. *)

From Stdlib Require Import Ascii.
From stdpp Require Import base gmap list strings numbers.
From S2P Require Import Prelude GoStrings Types GatewayErrors Reasoning LrsClient Protocol.

Local Open Scope Z_scope.

(** What the tool parser found, and [None] where its text is no JSON of that form. *)
Record toolParseResult := mkToolResult { NormalText : string; ToolCalls : list ToolCall }.

Class Sglang := {
  Encode : string -> bool -> result (list Z);
  Decode : list Z -> result string;
  PreProcessChatRequest : string -> result (list Z * Z);
  ModelMaxLen : Z;
  NewToolParser : string -> result unit;
  ParseStreamIncremental : string -> tool_history -> string -> string -> result (option toolParseResult);
  MarshalTools : list json -> result string
}.

Section processor.
Context `{SG : Sglang}.

(** ** request_completion_convertor.go *)

Definition generateMaxTokens (maxTokens : Z) (s : RequestStats) : Z * RequestStats :=
  let limit := if bool_decide (maxTokens <> 0) then uint64 maxTokens else uint64 (ModelMaxLen - InputTokensLen s) in
  (limit, set_limit limit s).

Definition completion_of_chat (id : string) (c : ChatCompletionRequest) (maxTokens : Z) (tokenIds : list Z) : CompletionRequest :=
  mkCompletionRequest id "" (cc_Model c) (PromptUint32s tokenIds) (cc_PresencePenalty c) (Some maxTokens) (cc_N c) (cc_PresencePenalty c)
    (cc_Seed c) (cc_Stop c) true (Some (mkStreamOptions true true)) (cc_Temperature c) (cc_TopP c) (cc_User c) None "" "".

Definition set_stream_id (id : string) (c : CompletionRequest) : CompletionRequest :=
  mkCompletionRequest id (cr_Rid c) (cr_Model c) (cr_Prompt c) (cr_FrequencyPenalty c) (cr_MaxTokens c) (cr_N c) (cr_PresencePenalty c)
    (cr_Seed c) (cr_Stop c) true (cr_StreamOptions c) (cr_Temperature c) (cr_TopP c) (cr_User c) (cr_KvTransferParams c) (cr_BootStrapHost c) (cr_BootStrapRoom c).
Definition set_prompt (p : PromptValue) (c : CompletionRequest) : CompletionRequest :=
  mkCompletionRequest (cr_Id c) (cr_Rid c) (cr_Model c) p (cr_FrequencyPenalty c) (cr_MaxTokens c) (cr_N c) (cr_PresencePenalty c)
    (cr_Seed c) (cr_Stop c) (cr_Stream c) (cr_StreamOptions c) (cr_Temperature c) (cr_TopP c) (cr_User c) (cr_KvTransferParams c) (cr_BootStrapHost c) (cr_BootStrapRoom c).

(** The prompts of a batch, one after the other; the count grows until one fails. *)
Fixpoint encode_all (prompts : list string) (s : RequestStats) : option (list (list Z)) * RequestStats :=
  match prompts with
  | [] => (Some [], s)
  | p :: prompts =>
      match Encode p true with
      | Err _ => (None, s)
      | Ok ids =>
          let s := set_input_tokens (uint64 (InputTokensLen s + Z.of_nat (length ids))) s in
          let '(r, s) := encode_all prompts s in (cons ids <$> r, s)
      end
  end.

Definition PreProcess_completion (c : CompletionRequest) (req : RequestContext) : RequestContext * option gerror :=
  let req := upd_llm (set_client_stream (cr_Stream c)) req in
  let c := set_stream_id (req_Id req) c in
  let put c := upd_llm (set_cmpl_request (Some c)) in
  match cr_Prompt c with
  | PromptString prompt =>
      match Encode prompt true with
      | Err _ => (put c req, Some (errorf "tokenize prompt to ids failed"))
      | Ok ids => (upd_stats (set_input_tokens (uint64 (Z.of_nat (length ids)))) (put (set_prompt (PromptUint32s ids) c) req), None)
      end
  | PromptStrings prompts =>
      let '(r, s) := encode_all prompts (req_Stats req) in
      let req := upd_stats (fun _ => s) req in
      match r with
      | None => (put c req, Some (errorf "tokenize prompt to ids failed"))
      | Some allIds => (put (set_prompt (PromptMatrix allIds) c) req, None)
      end
  | PromptUint32s tokens => (upd_stats (set_input_tokens (uint64 (Z.of_nat (length tokens)))) (put c req), None)
  | PromptMatrix _ | PromptNil => (put c req, None)
  end.

Definition PreProcess_chat (c : ChatCompletionRequest) (req : RequestContext) : RequestContext * option gerror :=
  let req := upd_llm (set_client_stream (cc_Stream c)) req in
  match PreProcessChatRequest (RawData (req_LLM req)) with
  | Err _ => (req, Some (errorf "failed to apply tokenizer template"))
  | Ok (tokenIds, promptTokens) =>
      let req := upd_stats (set_input_tokens (uint64 promptTokens)) req in
      let '(maxTokens, s) := generateMaxTokens (cc_MaxTokens c) (req_Stats req) in
      (upd_llm (set_cmpl_request (Some (completion_of_chat (req_Id req) c maxTokens tokenIds))) (upd_stats (fun _ => s) req), None)
  end.

Definition PreProcess (req : RequestContext) : option (RequestContext * option gerror) :=
  match Protocol (req_LLM req) with
  | OpenAICompletion => (fun c => PreProcess_completion c req) <$> lr_CompletionRequest (req_LLM req)
  | OpenAIChatCompletion => (fun c => PreProcess_chat c req) <$> lr_ChatRequest (req_LLM req)
  | ProtocolOther _ => Some (req, Some (errorf "unsupported protocol"))
  end.

(** ** processor.go: a chain stops at the first error *)

Fixpoint Process {A} (chain : list (A -> option (A * option gerror))) (a : A) : option (A * option gerror) :=
  match chain with
  | [] => Some (a, None)
  | p :: chain => r ← p a; match r with (a, None) => Process chain a | (a, Some e) => Some (a, Some e) end
  end.

(** ** response_chunk_processor.go *)

Record ResponseChunkProcessor := mkChunkProcessor { rp_reasoningParser : string; rp_toolParser : string }.

Definition chatPrefix : string := "chatcmpl".
Definition completionsIdPrefix : string := "cmpl".
Definition chatChunkObjectString : string := "chat.completion.chunk".
Definition chatObjectString : string := "chat.completion".
Definition assistantRole : string := "assistant".

Definition getTokenLen (s : string) : Z :=
  if bool_decide (s = "") then 0 else match Encode s false with Ok ids => uint64 (Z.of_nat (length ids)) | Err _ => 0 end.

(** The text of the first [n] tokens, and the number of tokens. *)
Definition getFirstNTokensContent (s : string) (n : Z) : string * Z :=
  if bool_decide (n = 0) then ("", n) else
  match Encode s false with
  | Err _ => ("", n)
  | Ok ids =>
      let length := uint64 (Z.of_nat (length ids)) in
      if bool_decide (length < n) then (s, length) else
      match Decode (take (Z.to_nat n) ids) with
      | Err _ => (s, n)
      | Ok content => (content, length)
      end
  end.

Definition getToolString (r : LLMRequest) : string :=
  match lr_ChatRequest r with
  | None => ""
  | Some c => if bool_decide (0 < length (cc_Tools c))%nat then match MarshalTools (cc_Tools c) with Ok s => s | Err _ => "" end else ""
  end.

(** Appending to the arguments of the last call. *)
Definition add_arguments (args : string) (calls : list ToolCall) : list ToolCall :=
  alter (fun t => mkToolCall (tc_Index t) (tc_ID t) (tc_Type t) (tc_Name t) (tc_Arguments t +:+ args)) (length calls - 1)%nat calls.

Definition mergeToolCalls (toolCalls exts : list ToolCall) : list ToolCall :=
  fold_left (fun calls ext =>
    let calls := if bool_decide (tc_Name ext <> "") then calls ++ [ext] else calls in
    if bool_decide (tc_Arguments ext <> "") && bool_decide (0 < length calls)%nat then add_arguments (tc_Arguments ext) calls else calls)
    exts toolCalls.

(** [trySetParser]: the reasoning parser first; it stays when the tool parser fails. *)
Definition trySetParser (rp : ResponseChunkProcessor) (req : RequestContext) : RequestContext * option gerror :=
  let r := req_LLM req in
  match lr_ReasoningParser r with
  | None => match NewReasoningParser (rp_reasoningParser rp) true false with
            | Err e => (req, Some (Sentinel e))
            | Ok p => (upd_llm (set_parsers (Some p) (lr_ToolParser r)) req, None)
            end
  | Some _ => (req, None)
  end.
Definition trySetToolParser (rp : ResponseChunkProcessor) (req : RequestContext) : RequestContext * option gerror :=
  let r := req_LLM req in
  match lr_ToolParser r with
  | None => match NewToolParser (rp_toolParser rp) with
            | Err e => (req, Some (Sentinel e))
            | Ok _ => (upd_llm (set_parsers (lr_ReasoningParser r) (Some [])) req, None)
            end
  | Some _ => (req, None)
  end.

(** The text of a chunk through both parsers: reasoning, content and tool calls. [strict]
    is the stream's variant, that reports a tool result it cannot decode. *)
Definition parse_text (rp : ResponseChunkProcessor) (strict : bool) (text : string) (req : RequestContext)
    : option (RequestContext * gresult (string * toolParseResult)) :=
  d ← lr_ReasoningParser (req_LLM req);
  let '((reasoning, content), d) := ParseStreamChunk text d in
  let req := upd_llm (fun r => set_parsers (Some d) (lr_ToolParser r) r) req in
  match lr_ToolParser (req_LLM req) with
  | Some hist =>
      if bool_decide (content <> "") then
        let tools := getToolString (req_LLM req) in
        let req' := upd_llm (fun r => set_parsers (lr_ReasoningParser r) (Some (hist ++ [(content, tools)])) r) req in
        match ParseStreamIncremental (rp_toolParser rp) hist content tools with
        | Err _ => Some (req', GErr (errorf "failed to parse tool"))
        | Ok None => if strict then Some (req', GErr (errorf "failed to parse tool")) else None
        | Ok (Some r) => Some (req', GOk (reasoning, r))
        end
      else Some (req, GOk (reasoning, mkToolResult "" []))
  | None => Some (req, GOk (reasoning, mkToolResult content []))
  end.

Definition parse_choice (rp : ResponseChunkProcessor) (strict : bool) (choice : CompletionChoice) (req : RequestContext)
    : option (RequestContext * gresult (string * toolParseResult)) :=
  if bool_decide (ch_Text choice <> "") then parse_text rp strict (ch_Text choice) req else Some (req, GOk ("", mkToolResult "" [])).

(** Nothing to send yet: the parsers keep the text. *)
Definition buffering (choice : CompletionChoice) (reasoning : string) (r : toolParseResult) : bool :=
  bool_decide (ch_Text choice <> "") && bool_decide (reasoning = "") && bool_decide (NormalText r = "") && bool_decide (ToolCalls r = []).

Definition usage_of (s : RequestStats) : Usage :=
  mkUsage (InputTokensLen s) (OutputTokensLen s) (uint64 (InputTokensLen s + OutputTokensLen s)) (Some (ReasoningTokensLen s)) None.

Definition stream_response (c : CompletionResponse) (choice : ChatCompletionStreamChoice) (u : Usage) : ChatCompletionStreamResponse :=
  mkStreamResponse (ReplaceAll (rs_ID c) completionsIdPrefix chatPrefix) chatChunkObjectString (rs_Created c) (rs_Model c) "fp" [choice] (Some u).

(** The output of a chunk: the response that is sent now and the one that is kept for the end. *)
Definition chat_stream_chunk (cmpl : CompletionResponse) (choice : CompletionChoice) (reasoning : string) (pr : toolParseResult) (req : RequestContext)
    : RequestContext :=
  let req := upd_stats (fun s => let s := add_reasoning_tokens (getTokenLen reasoning) s in
                                 if bool_decide (ToolCalls pr <> []) then set_tool_calls s else s) req in
  let s := req_Stats req in
  let split := bool_decide (ch_FinishReason choice <> "") && bool_decide (ch_Text choice <> "") in
  let finish := if bool_decide (ch_FinishReason choice <> "") && bool_decide (ch_Text choice = "") && HasToolCalls s && bool_decide (ch_FinishReason choice = "stop")
                then "tool_calls"%string else ch_FinishReason choice in
  let out := mkStreamChoice (ch_Index choice) (if split then "" else finish) assistantRole (NormalText pr) reasoning (ToolCalls pr) in
  let last := mkStreamChoice 0 finish assistantRole "" "" [] in
  let req := if split then upd_llm (fun r => set_buffers (BufferChatResp r) (Some (stream_response cmpl last (usage_of s))) (BufferCompletionResponse r) r) req else req in
  upd_llm (set_stream_response (Some (stream_response cmpl out (usage_of s)))) req.

Definition ChatCompletionStreamProcess (rp : ResponseChunkProcessor) (done : bool) (req : RequestContext) : option (RequestContext * option gerror) :=
  match (if done then LastChatStreamResp (req_LLM req) else None) with
  | Some last => Some (upd_llm (set_stream_response (Some last)) req, None)
  | None =>
      cmpl ← lr_CompletionResponse (req_LLM req);
      match rs_Choices cmpl with
      | [] => Some (req, None)
      | choice :: _ =>
          let req := upd_stats (add_output_tokens (getTokenLen (ch_Text choice))) req in
          r ← parse_choice rp true choice req;
          match r with
          | (req, GErr e) => Some (req, Some e)
          | (req, GOk (reasoning, pr)) =>
              if buffering choice reasoning pr then Some (req, None) else Some (chat_stream_chunk cmpl choice reasoning pr req, None)
          end
      end
  end.

Definition new_chat_buffer (c : CompletionResponse) : ChatCompletionResponse :=
  mkChatResponse (ReplaceAll (rs_ID c) completionsIdPrefix chatPrefix) chatObjectString (rs_Created c) (rs_Model c) "fp" assistantRole "" "" [] "" (rs_Usage c).

Definition append_chat (b : ChatCompletionResponse) (reasoning : string) (pr : toolParseResult) (finish : string) (u : Usage) : ChatCompletionResponse :=
  mkChatResponse (cp_ID b) (cp_Object b) (cp_Created b) (cp_Model b) (cp_SystemFingerprint b) (cp_Role b)
    (cp_Content b +:+ NormalText pr) (cp_ReasoningContent b +:+ reasoning)
    (if bool_decide (ToolCalls pr <> []) then mergeToolCalls (cp_ToolCalls b) (ToolCalls pr) else cp_ToolCalls b) finish (Some u).

Definition set_chat_buffer (b : ChatCompletionResponse) (r : LLMRequest) : LLMRequest :=
  set_buffers (Some b) (LastChatStreamResp r) (BufferCompletionResponse r) r.

Definition ChatCompletionProcess (rp : ResponseChunkProcessor) (done : bool) (req : RequestContext) : option (RequestContext * option gerror) :=
  if done then Some (upd_llm (fun r => set_chat_response (BufferChatResp r) r) req, None) else
  cmpl ← lr_CompletionResponse (req_LLM req);
  let b := default (new_chat_buffer cmpl) (BufferChatResp (req_LLM req)) in
  let req := upd_llm (set_chat_buffer b) req in
  match rs_Choices cmpl with
  | [] => Some (req, None)
  | choice :: _ =>
      let req := upd_stats (add_output_tokens (getTokenLen (ch_Text choice))) req in
      r ← parse_choice rp false choice req;
      match r with
      | (req, GErr e) => Some (req, Some e)
      | (req, GOk (reasoning, pr)) =>
          if buffering choice reasoning pr then Some (req, None) else
          let req := upd_stats (add_reasoning_tokens (getTokenLen reasoning)) req in
          let finish := if bool_decide (ToolCalls pr <> []) then "tool_calls"%string else ch_FinishReason choice in
          Some (upd_llm (set_chat_buffer (append_chat b reasoning pr finish (usage_of (req_Stats req)))) req, None)
      end
  end.

(** The tokens of the choices up to the first that cannot be encoded. *)
Fixpoint count_choices (choices : list CompletionChoice) (s : RequestStats) : RequestStats :=
  match choices with
  | [] => s
  | c :: choices =>
      if bool_decide (ch_Text c <> "") then
        match Encode (ch_Text c) false with
        | Err _ => s
        | Ok tokens => count_choices choices (add_output_tokens (uint64 (Z.of_nat (length tokens))) s)
        end
      else count_choices choices s
  end.

Definition completionStreamProcess (req : RequestContext) : RequestContext * option gerror :=
  match lr_CompletionResponse (req_LLM req) with
  | None => (req, None)
  | Some c => (upd_stats (count_choices (rs_Choices c)) req, None)
  end.

Definition new_cmpl_buffer (c : CompletionResponse) : CompletionResponse :=
  mkCompletionResponse (ReplaceAll (rs_ID c) completionsIdPrefix chatPrefix) (rs_Object c) (rs_Created c) (rs_Model c) [mkChoice "" 0 ""] (rs_Usage c) None "".

(** One choice into the buffer's first one. *)
Definition append_choice (b : CompletionResponse) (c : CompletionChoice) : CompletionResponse :=
  mkCompletionResponse (rs_ID b) (rs_Object b) (rs_Created b) (rs_Model b)
    (match rs_Choices b with
     | d :: ds => mkChoice (ch_Text d +:+ ch_Text c) (ch_Index d) (ch_FinishReason c) :: ds
     | [] => []
     end) (rs_Usage b) (rs_KvTransferParams b) (rs_SystemFingerprint b).
Definition set_usage (u : option Usage) (b : CompletionResponse) : CompletionResponse :=
  mkCompletionResponse (rs_ID b) (rs_Object b) (rs_Created b) (rs_Model b) (rs_Choices b) u (rs_KvTransferParams b) (rs_SystemFingerprint b).

Definition count_choice (s : RequestStats) (c : CompletionChoice) : RequestStats :=
  if bool_decide (ch_Text c <> "") then match Encode (ch_Text c) false with Err _ => s | Ok tokens => add_output_tokens (uint64 (Z.of_nat (length tokens))) s end else s.

Definition completionProcess (done : bool) (req : RequestContext) : RequestContext * option gerror :=
  if done then (upd_llm (fun r => set_cmpl_response (BufferCompletionResponse r) r) req, None) else
  match lr_CompletionResponse (req_LLM req) with
  | None => (req, Some (errorf "completion response is empty"))
  | Some cmpl =>
      if bool_decide (1 < length (rs_Choices cmpl))%nat then (req, Some (errorf "completion response has more than one choice")) else
      let b := default (new_cmpl_buffer cmpl) (BufferCompletionResponse (req_LLM req)) in
      let req := upd_stats (fun s => fold_left count_choice (rs_Choices cmpl) s) req in
      let b := set_usage (rs_Usage cmpl) (fold_left append_choice (rs_Choices cmpl) b) in
      (upd_llm (fun r => set_cmpl_response None (set_buffers (BufferChatResp r) (LastChatStreamResp r) (Some b) r)) req, None)
  end.

Definition PostProcess (rp : ResponseChunkProcessor) (done : bool) (req : RequestContext) : option (RequestContext * option gerror) :=
  let r := req_LLM req in
  match Protocol r with
  | OpenAIChatCompletion =>
      match lr_CompletionResponse r with
      | None => Some (req, Some (errorf "chat completion response is empty"))
      | Some cmpl =>
          if bool_decide (1 < length (rs_Choices cmpl))%nat then Some (req, Some (errorf "chat completion response has more than one choice")) else
          match trySetParser rp req with
          | (req, Some e) => Some (req, Some e)
          | (req, None) =>
              match trySetToolParser rp req with
              | (req, Some e) => Some (req, Some e)
              | (req, None) => if ClientStream r then ChatCompletionStreamProcess rp done req else ChatCompletionProcess rp done req
              end
          end
      end
  | OpenAICompletion => Some (if ClientStream r then completionStreamProcess req else completionProcess done req)
  | ProtocolOther _ => Some (req, Some (errorf "Unknown protocol"))
  end.
End processor.
