(* ===== verification/GatewayEffects.v ===== *)
(** * The calls of the gateway

    A request in the gateway is served by a few goroutines: the HTTP handler, which at the
    end writes the responses to the client, a worker of the buffer queue, which dispatches
    the request, a goroutine that runs it, and the forwarder's. The last three are programs
    ([Programs]) over the calls below: messages for the client, the state that is shared with
    other goroutines, and HTTP requests to the scheduler, to engines and to external
    services. Everything about a call's answer is left open. *)

From stdpp Require Import base gmap list strings numbers.
From S2P Require Import Prelude GoStrings Types Programs GatewayErrors LrsClient Protocol.

Local Open Scope Z_scope.

(** A message to the client: a response that is marshalled, the end marker, or a text. *)
Inductive payload :=
  | PChatStream (r : ChatCompletionStreamResponse)
  | PChat (r : ChatCompletionResponse)
  | PCompletion (r : CompletionResponse)
  | PDone
  | PText (s : string).

Record ResponseMsg := mkMsg { msg_Err : option gerror; msg_Message : payload }.

(** What arrives on the stream of an engine: its events, with the length of their
    representation, then the end of the stream or an error. [too_long] is the library's error for
    an event beyond its limit, and [interrupted n] the error when the request's context ends, or
    the read timeout, before the [n]-th read returns. *)
Record sse_event := mkEvent { ev_data : string; ev_length : Z }.

Record sse_stream := mkStream {
  events : list sse_event;
  stream_end : option gerror;
  too_long : gerror;
  interrupted : nat -> option gerror
}.

(** A stream of short events that nothing interrupts. *)
Definition calm_stream (data : list string) : sse_stream :=
  mkStream ((fun d => mkEvent d (Z.of_nat (String.length d) + 8)) <$> data) None (errorf "token too long") (fun _ => None).

(** An HTTP request to an engine: an error of the transport (and whether it is a timeout),
    or the status, with the body read as a stream and read at once. *)
Inductive engine_answer :=
  | EngineError (e : gerror) (timeout : bool)
  | EngineResponse (status : Z) (stream : sse_stream) (body : gresult string).

Inductive external_answer := ExternalError (e : gerror) | ExternalResponse (status : Z) (body : list string).

Inductive scheduler_answer := SchedulerError | SchedulerBodyError | SchedulerResponse (status : Z) (body : option SchedulingRequest).

Inductive geff : Type -> Type :=
  (* the channel to the goroutine that writes to the client, and the client's connection *)
  | Send (m : ResponseMsg) : geff unit
  | CloseChan : geff unit
  | HeaderResponded : geff bool
  | SetHeaderResponded : geff unit
  | ClientHeader (status : Z) : geff unit
  | ClientWrite (s : string) : geff unit
  (* the context and time *)
  | CtxErr : geff (option gerror)
  | PauseOrDone (nanoseconds : Z) : geff (option gerror)
  | Now : geff Z
  | Sleep (nanoseconds : Z) : geff unit
  | RandIntn (n : Z) : geff Z
  (* other services *)
  | EngineDo (url : string) (body : CompletionRequest) : geff engine_answer
  | FirstFails : geff bool
  | ExternalDo (url apiKey body : string) : geff external_answer
  | RemoteReady : geff bool
  | LocalEndpoint : geff string
  | RemoteEndpoint : geff string
  | PostSchedule (url : string) (q : SchedulingRequest) : geff scheduler_answer
  | PostRelease (url : string) (q : SchedulingRequest) : geff bool
  (* state shared between requests *)
  | RoundRobin (pool : InferType) : geff (gresult LLMInstance)
  | TrackerReport (datas : list RequestReportData) : geff unit
  | TrackerAdd (rs : RequestTokenState) : geff unit
  | TrackerDelete (id : string) : geff unit
  | TokensTotal (id : string) (n : Z) : geff unit
  | TokensText (id text : string) : geff unit
  | EnqueueRetry : geff bool
  | RetryQueueStarted : geff bool
  | RetryAbandoned : geff bool.

Abbreviation gprog := (Prog geff) (only parsing).

(** A step on the request context that may fail or panic, as a program. *)
Definition lift {A} (o : option A) : gprog A := match o with Some a => Ret a | None => Panic end.

(** Answers of an environment in which nothing is there. *)
Definition no_answer (X : Type) (e : geff X) : X :=
  match e in geff X return X with
  | Send _ | CloseChan | SetHeaderResponded | ClientHeader _ | ClientWrite _ | Sleep _ => tt
  | TrackerReport _ | TrackerAdd _ | TrackerDelete _ | TokensTotal _ _ | TokensText _ _ => tt
  | HeaderResponded | FirstFails | RemoteReady | PostRelease _ _ | EnqueueRetry | RetryQueueStarted | RetryAbandoned => false
  | CtxErr | PauseOrDone _ => None
  | Now | RandIntn _ => 0
  | EngineDo _ _ => EngineError EOF false
  | ExternalDo _ _ _ => ExternalError EOF
  | LocalEndpoint | RemoteEndpoint => ""%string
  | PostSchedule _ _ => SchedulerError
  | RoundRobin _ => GErr (Sentinel ErrorNoAvailableEndpoint)
  end.
