(* ===== verification/Balancer.v ===== *)
(** * Load balancers

    [pkg/gateway/load-balancer]: the round-robin balancer over the instances that
    discovery reports, the client of the scheduler, and the balancer that combines them:
    the scheduler decides, and round robin serves while it cannot be reached. *)

From stdpp Require Import base gmap list strings numbers.
From S2P Require Import Prelude GoStrings Types Programs GatewayErrors LrsClient Protocol GatewayEffects.

Local Open Scope Z_scope.

(** ** roundrobin_balancer.go

    Every operation runs under the mutex. *)

Record RoundRobinBalancer := mkRoundRobin { currentIndex : Z; instances : list LLMInstance }.

Definition NewRoundRobinBalancer : RoundRobinBalancer := mkRoundRobin 0 [].

Definition rr_add (l : list LLMInstance) (b : RoundRobinBalancer) : RoundRobinBalancer := mkRoundRobin (currentIndex b) (instances b ++ l).

Fixpoint remove_first (id : string) (l : list LLMInstance) : list LLMInstance :=
  match l with
  | [] => []
  | w :: l => if bool_decide ((LLMInstance_Id w).1 = id) then l else w :: remove_first id l
  end.

Definition rr_del (l : list LLMInstance) (b : RoundRobinBalancer) : RoundRobinBalancer :=
  mkRoundRobin (currentIndex b) (fold_left (fun ws w => remove_first (LLMInstance_Id w).1 ws) l (instances b)).

Definition rr_Get (b : RoundRobinBalancer) : gresult LLMInstance * RoundRobinBalancer :=
  if bool_decide (instances b = []) then (GErr (Sentinel ErrorNoAvailableEndpoint), b) else
  let i := uint64 (currentIndex b + 1) in
  match instances b !! Z.to_nat (i mod Z.of_nat (length (instances b))) with
  | Some w => (GOk w, mkRoundRobin i (instances b))
  | None => (GErr (Sentinel ErrorNoAvailableEndpoint), b)
  end.

Fixpoint rr_Gets (n : nat) (b : RoundRobinBalancer) : list LLMInstance * RoundRobinBalancer :=
  match n with
  | O => ([], b)
  | S n =>
      let '(r, b) := rr_Get b in
      let '(l, b) := rr_Gets n b in
      (match r with GOk w => w :: l | GErr _ => l end, b)
  end.

(** ** scheduler_client.go *)

Record SchedulerClientConfig := mkClientConfig {
  ForwardTokens : bool;
  WaitSchedulingTimeout : Z;
  WaitSchedulingRetryInterval : Z
}.

Definition set_gateway_id (id : string) (s : SchedulingContext) : SchedulingContext :=
  mkSchedulingContext (SchedulingResults s) (sx_Mode s) (sx_Stage s) id (NotNeedScheduling s).

Definition createSchedulingRequest (cfg : SchedulerClientConfig) (req : RequestContext) : gprog (SchedulingRequest * RequestContext) :=
  local ← perform LocalEndpoint;
  let toks := GetPromptTokens (req_LLM req) in
  let q := mkSchedulingRequest (req_Id req) (lr_Model (req_LLM req)) local (sx_Mode (req_Sched req)) (sx_Stage (req_Sched req))
             (match toks with Some l => Z.of_nat (length l) | None => 0 end)
             (match toks with Some l => if ForwardTokens cfg then l else [] | None => [] end) [] in
  Ret (q, upd_sched (set_gateway_id local) req).

Definition handleResponse (body : option SchedulingRequest) : gresult SchedulingResult :=
  match body with
  | None => GErr (Sentinel ErrorEndpointNotFound)
  | Some q => if bool_decide (sr_SchedulingResult q = []) then GErr (Sentinel ErrorNoAvailableEndpoint) else GOk (sr_SchedulingResult q)
  end.

Definition doSchedule (cfg : SchedulerClientConfig) (req : RequestContext) : gprog (gresult SchedulingResult * RequestContext) :=
  ready ← perform RemoteReady;
  if negb ready then Ret (GErr (Sentinel ErrorSchedulerNotReady), req) else
  '(q, req) ← createSchedulingRequest cfg req;
  remote ← perform RemoteEndpoint;
  r ← perform (PostSchedule ("http://" +:+ remote +:+ "/schedule") q);
  Ret (match r with
       | SchedulerError | SchedulerBodyError => GErr (Sentinel ErrorMayNetworkBroken)
       | SchedulerResponse status body =>
           if bool_decide (status = 200) then handleResponse body
           else if bool_decide (status = 429) then GErr (Sentinel ErrorNoAvailableEndpoint)
           else GErr (Sentinel ErrorEndpointNotFound)
       end, req).

(** The loop waits while all endpoints are busy; [fuel] bounds its turns. *)
Fixpoint schedule_loop (fuel : nat) (cfg : SchedulerClientConfig) (tStart : Z) (req : RequestContext) : gprog (gresult SchedulingResult * RequestContext) :=
  match fuel with
  | O => Hang
  | S fuel =>
      '(r, req) ← doSchedule cfg req;
      match r with
      | GOk res => Ret (GOk res, req)
      | GErr e =>
          if errors_Is e (Sentinel ErrorNoAvailableEndpoint) then
            now ← perform Now;
            if bool_decide (WaitSchedulingTimeout cfg < now - tStart) then Ret (GErr e, req)
            else _ ← perform (Sleep (WaitSchedulingRetryInterval cfg)); schedule_loop fuel cfg tStart req
          else Ret (GErr (Sentinel ErrorSchedulerNotReady), req)
      end
  end.

Definition SchedulerClient_Get (fuel : nat) (cfg : SchedulerClientConfig) (req : RequestContext) : gprog (gresult SchedulingResult * RequestContext) :=
  tStart ← perform Now;
  ready ← perform RemoteReady;
  if negb ready then Ret (GErr (Sentinel ErrorSchedulerNotReady), req) else schedule_loop fuel cfg tStart req.

Definition releaseTryCount : nat := 3.

(** The answer of [PostRelease] is whether the request was delivered. *)
Fixpoint release_retry (retry : nat) (url : string) (q : SchedulingRequest) : gprog unit :=
  match retry with
  | O => Ret tt
  | S retry =>
      ok ← perform (PostRelease url q);
      if ok : bool then Ret tt
      else match retry with O => Ret tt | S _ => _ ← perform (Sleep 500000000); release_retry retry url q end
  end.

Definition createReleaseRequest (local : string) (req : RequestContext) (instance : LLMInstance) : SchedulingRequest :=
  mkSchedulingRequest (req_Id req) (lr_Model (req_LLM req)) local (sx_Mode (req_Sched req)) (sx_Stage (req_Sched req)) 0 [] [instance].

Definition SchedulerClient_Release (req : RequestContext) (instance : LLMInstance) : gprog unit :=
  local ← perform LocalEndpoint;
  ready ← perform RemoteReady;
  if bool_decide (local <> sx_GatewayId (req_Sched req)) || negb ready then Ret tt else
  local ← perform LocalEndpoint;
  remote ← perform RemoteEndpoint;
  release_retry releaseTryCount ("http://" +:+ remote +:+ "/release") (createReleaseRequest local req instance).

(** ** composite_balancer.go *)

Inductive balanceMode := LocalBalancer | PDLocalBalancer | RemoteBalancer | PDRemoteBalancer.

Record CompositeBalancer := mkComposite { cb_mode : balanceMode; cb_config : SchedulerClientConfig; cb_fuel : nat }.

Definition SchedulingPolicyRoundRobin : string := "round-robin".

(** [NewCompositeBalancer]: the mode follows from the configuration. *)
Definition NewCompositeBalancer (pdDisaggProtocol schedulingPolicy : string) (cfg : SchedulerClientConfig) (fuel : nat) : CompositeBalancer :=
  let rr := bool_decide (schedulingPolicy = SchedulingPolicyRoundRobin) in
  mkComposite (if bool_decide (pdDisaggProtocol <> "") then if rr then PDLocalBalancer else PDRemoteBalancer
               else if rr then LocalBalancer else RemoteBalancer) cfg fuel.

Definition rr_get (pool : InferType) : gprog (gresult SchedulingResult) :=
  r ← perform (RoundRobin pool); Ret (match r with GOk w => GOk [w] | GErr e => GErr e end).

Definition pdDisaggLocalGet (req : RequestContext) : gprog (gresult SchedulingResult) :=
  if bool_decide (sx_Mode (req_Sched req) = SchedulingModePDStaged) then
    if bool_decide (sx_Stage (req_Sched req) = SchedulingStagePrefill) then rr_get InferTypePrefill
    else if bool_decide (sx_Stage (req_Sched req) = SchedulingStageDecode) then rr_get InferTypeDecode
    else Ret (GErr (errorf ("invalid scheduling stage: " +:+ sx_Stage (req_Sched req))))
  else
    p ← rr_get InferTypePrefill;
    match p with
    | GErr e => Ret (GErr e)
    | GOk p => d ← rr_get InferTypeDecode; Ret (match d with GErr e => GErr e | GOk d => GOk (p ++ d) end)
    end.

Definition localGet (cb : CompositeBalancer) (req : RequestContext) : gprog (gresult SchedulingResult) :=
  match cb_mode cb with
  | LocalBalancer | RemoteBalancer => rr_get InferTypeNeutral
  | PDLocalBalancer | PDRemoteBalancer => pdDisaggLocalGet req
  end.

Definition getWithFallback (cb : CompositeBalancer) (req : RequestContext) : gprog (gresult SchedulingResult * RequestContext) :=
  '(r, req) ← SchedulerClient_Get (cb_fuel cb) (cb_config cb) req;
  match r with
  | GErr e =>
      if errors_Is e (Sentinel ErrorSchedulerNotReady) then
        match cb_mode cb with
        | RemoteBalancer => r ← rr_get InferTypeNeutral; Ret (r, req)
        | PDRemoteBalancer => r ← pdDisaggLocalGet req; Ret (r, req)
        | LocalBalancer | PDLocalBalancer => Panic
        end
      else Ret (GErr e, req)
  | GOk res => Ret (GOk res, req)
  end.

Definition Balancer_Get (cb : CompositeBalancer) (req : RequestContext) : gprog (gresult SchedulingResult * RequestContext) :=
  if NotNeedScheduling (req_Sched req) then r ← localGet cb req; Ret (r, req) else
  match cb_mode cb with
  | RemoteBalancer | PDRemoteBalancer => getWithFallback cb req
  | LocalBalancer => r ← rr_get InferTypeNeutral; Ret (r, req)
  | PDLocalBalancer => r ← pdDisaggLocalGet req; Ret (r, req)
  end.

Definition Balancer_Release (cb : CompositeBalancer) (req : RequestContext) (instance : LLMInstance) : gprog unit :=
  match cb_mode cb with
  | RemoteBalancer | PDRemoteBalancer => SchedulerClient_Release req instance
  | LocalBalancer | PDLocalBalancer => Ret tt
  end.

(** ** balancer.go: the interface that the gateway uses *)

Record Balancer := mkBalancer {
  Get : RequestContext -> gprog (gresult SchedulingResult * RequestContext);
  Release : RequestContext -> LLMInstance -> gprog unit
}.

Definition NewBalancer (cb : CompositeBalancer) : Balancer := mkBalancer (Balancer_Get cb) (Balancer_Release cb).

(** ** Round robin is fair *)

Definition rr_indexes (i n : Z) (k : nat) : list nat := (fun j => Z.to_nat ((i + j) mod n)) <$> seqZ 1 (Z.of_nat k).

Lemma rr_Get_some b :
  instances b <> [] -> 0 <= currentIndex b -> currentIndex b + 1 < 2 ^ 64 ->
  exists w, instances b !! Z.to_nat ((currentIndex b + 1) mod Z.of_nat (length (instances b))) = Some w /\
    rr_Get b = (GOk w, mkRoundRobin (currentIndex b + 1) (instances b)).
Proof.
  intros Hne H0 Hm. assert (0 < Z.of_nat (length (instances b))) as Hl by (destruct (instances b); [done|cbn; lia]).
  pose proof (Z.mod_pos_bound (currentIndex b + 1) _ Hl) as Hb.
  destruct (lookup_lt_is_Some_2 (instances b) (Z.to_nat ((currentIndex b + 1) mod Z.of_nat (length (instances b))))) as [w Hw]; [lia|].
  exists w. split; [done|]. unfold rr_Get. rewrite bool_decide_eq_false_2 by done. unfold uint64. rewrite (Z.mod_small (currentIndex b + 1)) by lia. by rewrite Hw.
Qed.

Lemma rr_Gets_indexes k b :
  instances b <> [] -> 0 <= currentIndex b -> currentIndex b + Z.of_nat k < 2 ^ 64 ->
  (rr_Gets k b).1 = omap (fun i => instances b !! i) (rr_indexes (currentIndex b) (Z.of_nat (length (instances b))) k).
Proof.
  revert b. induction k as [|k IH]; intros b Hne H0 Hm; [done|]. cbn [rr_Gets].
  destruct (rr_Get_some b) as (w & Hw & ->); [done|done|lia|].
  specialize (IH (mkRoundRobin (currentIndex b + 1) (instances b)) Hne). cbn in IH. specialize (IH ltac:(lia) ltac:(lia)).
  destruct (rr_Gets k _) as [l b']. cbn [fst] in *. subst l. unfold rr_indexes. rewrite (Nat2Z.inj_succ k), (seqZ_cons 1 (Z.succ (Z.of_nat k))) by lia. rewrite Z.pred_succ.
  rewrite fmap_cons. cbn [omap list_omap]. rewrite Hw. f_equal. change (Z.succ 1) with (1 + 1). rewrite <- fmap_add_seqZ, <- list_fmap_compose. f_equal.
  apply list_fmap_ext. intros j z _. cbn. f_equal. f_equal. lia.
Qed.

Lemma rr_indexes_round i n : (0 < n)%nat -> 0 <= i -> rr_indexes i (Z.of_nat n) n ≡ₚ seq 0 n.
Proof.
  intros Hn Hi. symmetry. apply submseteq_length_Permutation; [|unfold rr_indexes; rewrite length_fmap, length_seqZ, length_seq; lia].
  apply NoDup_submseteq; [apply NoDup_seq|]. intros x Hx%elem_of_seq. unfold rr_indexes. apply list_elem_of_fmap.
  pose proof (Z.mod_pos_bound (Z.of_nat x - i - 1) (Z.of_nat n) ltac:(lia)) as Hb.
  exists ((Z.of_nat x - i - 1) mod Z.of_nat n + 1). split.
  - rewrite Z.add_assoc. rewrite <- Zplus_mod_idemp_l, Zplus_mod_idemp_r. rewrite Zplus_mod_idemp_l.
    replace (i + (Z.of_nat x - i - 1) + 1) with (Z.of_nat x) by lia. rewrite Z.mod_small by lia. lia.
  - apply elem_of_seqZ. lia.
Qed.

Lemma omap_lookup_seq {A} (l : list A) : omap (fun i => l !! i) (seq 0 (length l)) = l.
Proof.
  induction l as [|x l IH]; [done|]. cbn. f_equal. rewrite <- fmap_S_seq. rewrite <- IH at 2. clear IH.
  induction (seq 0 (length l)) as [|n s IHs]; [done|]. cbn. destruct (l !! n); by rewrite IHs.
Qed.

(** Round robin is fair: as many consecutive picks as there are instances pick every instance exactly once, from whatever position, as long as the
    64-bit position does not wrap around. *)
Theorem round_robin_fair b :
  instances b <> [] -> 0 <= currentIndex b -> currentIndex b + Z.of_nat (length (instances b)) < 2 ^ 64 ->
  (rr_Gets (length (instances b)) b).1 ≡ₚ instances b.
Proof.
  intros Hne H0 Hm. rewrite rr_Gets_indexes by done. rewrite rr_indexes_round by (done || destruct (instances b); cbn; (done || lia)).
  by rewrite omap_lookup_seq.
Qed.

(** ** The client of the scheduler gives up in time *)

(** An environment with a clock that [Now] reads, that never runs backwards, and that a
    [Sleep] moves on by at least the time asked for. *)
Record clocked {S : Type} (h : Handler geff S) (clock : S -> Z) : Prop := mkClocked {
  clock_mono : forall X (e : geff X) s, clock s <= clock (h X e s).2;
  clock_now : forall s, clock s <= (h Z Now s).1 <= clock (h Z Now s).2;
  clock_sleep : forall d s, clock s + d <= clock (h unit (Sleep d) s).2
}.

Section clock.
Context {S : Type} (h : Handler geff S) (clock : S -> Z) (Hc : clocked h clock).

Lemma doSchedule_done cfg req s : exists r s', run h (doSchedule cfg req) s = (Done r, s') /\ clock s <= clock s'.
Proof.
  unfold doSchedule, createSchedulingRequest. cbn. pose proof (clock_mono h clock Hc _ RemoteReady s) as H1. destruct (h bool RemoteReady s) as [ready s1].
  destruct ready; cbn in *; [|by eauto].
  pose proof (clock_mono h clock Hc _ LocalEndpoint s1) as H2. destruct (h string LocalEndpoint s1) as [loc s2]. cbn in *.
  pose proof (clock_mono h clock Hc _ RemoteEndpoint s2) as H3. destruct (h string RemoteEndpoint s2) as [rem s3]. cbn in *.
  match goal with |- context [h _ (PostSchedule ?u ?q) s3] => pose proof (clock_mono h clock Hc _ (PostSchedule u q) s3) as H4; destruct (h _ (PostSchedule u q) s3) as [a s4] end.
  cbn in *. eexists _, s4. split; [done|lia].
Qed.

Lemma schedule_loop_ends fuel cfg tStart req s :
  0 <= WaitSchedulingRetryInterval cfg -> (0 < fuel)%nat ->
  WaitSchedulingTimeout cfg < clock s - tStart + (Z.of_nat fuel - 1) * WaitSchedulingRetryInterval cfg ->
  exists r s', run h (schedule_loop fuel cfg tStart req) s = (Done r, s').
Proof.
  intros Hi. revert req s. induction fuel as [|fuel IH]; intros req s Hf Ht; [lia|]. cbn [schedule_loop]. rewrite run_bind.
  destruct (doSchedule_done cfg req s) as ([r req1] & s1 & -> & H1). destruct r as [res|e]; [by eauto|].
  destruct (errors_Is e _); [|by eauto]. rewrite run_bind, run_perform. pose proof (clock_now h clock Hc s1) as H2. destruct (h Z Now s1) as [now s2]. cbn in *.
  case_bool_decide as Hnow; [by eauto|]. pose proof (clock_sleep h clock Hc (WaitSchedulingRetryInterval cfg) s2) as H3.
  cbn. destruct (h unit (Sleep _) s2) as [u s3]. cbn in *. destruct fuel as [|fuel]; [lia|]. apply IH; lia.
Qed.

(** C38. The client of the scheduler gives up in time: when all instances stay busy, asking again ends after at most timeout / interval + 2 turns, on any
    environment with a clock that does not run backwards and with sleeps that last. *)
Theorem scheduler_client_ends fuel cfg req s :
  0 < WaitSchedulingRetryInterval cfg -> 0 <= WaitSchedulingTimeout cfg ->
  WaitSchedulingTimeout cfg / WaitSchedulingRetryInterval cfg + 2 <= Z.of_nat fuel ->
  exists r s', run h (SchedulerClient_Get fuel cfg req) s = (Done r, s').
Proof.
  intros Hi Ht Hf. unfold SchedulerClient_Get. rewrite run_bind, run_perform. pose proof (clock_now h clock Hc s) as H1. destruct (h Z Now s) as [t s1]. cbn in *.
  pose proof (clock_mono h clock Hc _ RemoteReady s1) as H2. destruct (h bool RemoteReady s1) as [ready s2]. destruct ready; cbn in *; [|by eauto].
  pose proof (Z.div_pos (WaitSchedulingTimeout cfg) (WaitSchedulingRetryInterval cfg) Ht Hi) as Hq.
  apply schedule_loop_ends; [lia|lia|].
  pose proof (Z.mul_succ_div_gt (WaitSchedulingTimeout cfg) (WaitSchedulingRetryInterval cfg) Hi). nia.
Qed.
End clock.

(** A scheduler that is always busy, with a clock in milliseconds. *)
Definition busy_scheduler : Handler geff Z := fun X e t =>
  match e in geff X return X * Z with
  | Now => (t, t)
  | Sleep d => (tt, t + Z.max 0 d)
  | RemoteReady => (true, t)
  | PostSchedule _ _ => (SchedulerResponse 429 None, t)
  | e => (no_answer _ e, t)
  end.

Lemma busy_clocked : clocked busy_scheduler (fun t => t).
Proof. split; [intros X e s; destruct e; cbn; lia|intros s; cbn; lia|intros d s; cbn; lia]. Qed.

Definition example_client : SchedulerClientConfig := mkClientConfig true 5000 1000.
Definition example_request : RequestContext := NewRequestContext "r1" "" 0.

Lemma scheduler_client_ends_witness :
  (run busy_scheduler (SchedulerClient_Get 7 example_client example_request) 0).2 = 6000 /\
  exists r s', run busy_scheduler (SchedulerClient_Get 7 example_client example_request) 0 = (Done r, s').
Proof. split; [vm_compute; reflexivity|]. apply (scheduler_client_ends busy_scheduler (fun t => t) busy_clocked 7 example_client example_request 0); vm_compute; congruence. Defined.

Lemma round_robin_fair_witness :
  let w i := mkLLMInstance 0 i "" "neutral" (mkEndpoint "h" 1) "" 0 0 0 in
  (rr_Gets 3 (mkRoundRobin 7 [w "a"; w "b"; w "c"]%string)).1 = [w "c"; w "a"; w "b"]%string /\
  (rr_Gets 3 (mkRoundRobin 7 [w "a"; w "b"; w "c"]%string)).1 ≡ₚ [w "a"; w "b"; w "c"]%string.
Proof. intros w. split; [vm_compute; reflexivity|]. apply (round_robin_fair (mkRoundRobin 7 [w "a"; w "b"; w "c"]%string)); [discriminate|vm_compute; congruence|vm_compute; reflexivity]. Defined.
