(* ===== verification/Forwarder.v ===== *)
(** * Forwarders

    [pkg/gateway/forwarder]: a request is sent to the engines that were scheduled and the
    stream of events that comes back is handed on as chunks. A forwarder runs in a goroutine
    of its own; it touches the request context only before its first chunk, so its program
    is one that makes the engine's stream available and returns the chunks that the channel
    will carry. *)

From Stdlib Require Import Ascii.
From stdpp Require Import base gmap list strings numbers.
From S2P Require Import Prelude GoStrings Types Programs GatewayErrors LrsClient Protocol GatewayEffects Balancer.

Local Open Scope Z_scope.

(** ** sse_reader.go

    The reader's goroutine puts what the library reads into a channel: the events, and an
    error as the last item. The library ends with an error at an event beyond [MaxEventSize]. *)

Definition MaxEventSize : Z := 1024 * 1024.

Fixpoint processEvents (s : sse_stream) (evs : list sse_event) : list (gresult string) :=
  match evs with
  | [] => match stream_end s with Some e => [GErr e] | None => [] end
  | ev :: evs => if bool_decide (MaxEventSize < ev_length ev) then [GErr (too_long s)] else GOk (ev_data ev) :: processEvents s evs
  end.

Record SSEReader := mkSSEReader { resultCh : list (gresult string); pending : option string }.

Definition newSSEReader (s : sse_stream) : SSEReader :=
  mkSSEReader (processEvents s (events s)) None.

(** [Read] with a buffer of [size] bytes: bytes, or the size that is needed, or an error. *)
Inductive read_result := ReadBytes (data : string) | ShortBuffer (needed : nat) | ReadError (e : gerror).

Definition read_event (size : nat) (data : string) (r : SSEReader) : read_result * SSEReader :=
  if bool_decide (size < String.length data)%nat then (ShortBuffer (String.length data), mkSSEReader (resultCh r) (Some data))
  else (ReadBytes data, r).

Definition SSEReader_Read (size : nat) (r : SSEReader) : read_result * SSEReader :=
  match pending r with
  | Some data => read_event size data (mkSSEReader (resultCh r) None)
  | None =>
      match resultCh r with
      | [] => (ReadError EOF, r)
      | GErr e :: l => (ReadError e, mkSSEReader l None)
      | GOk data :: l => read_event size data (mkSSEReader l None)
      end
  end.

(** [TimeoutReader.Read]: [interrupt] is the error when the context or the timer is first. *)
Definition TimeoutReader_Read (interrupt : option gerror) (size : nat) (r : SSEReader) : read_result * SSEReader :=
  match interrupt with Some e => (ReadError e, r) | None => SSEReader_Read size r end.

(** ** utils.go *)

Record StreamChunk := mkChunk { chunk_Err : option gerror; chunk_Data : string }.

Definition ReadBufferSize : nat := Z.to_nat 8192.

(** [interrupt n] is what interrupts the [n]-th read. The result is the chunks and the error. *)
Fixpoint streamRead (fuel : nat) (interrupt : nat -> option gerror) (n size : nat) (r : SSEReader) : list StreamChunk * option gerror :=
  match fuel with
  | O => ([], None)
  | S fuel =>
      match TimeoutReader_Read (interrupt n) size r with
      | (ReadError e, _) => if bool_decide (e = EOF) then ([], None) else ([], Some e)
      | (ShortBuffer needed, r) => streamRead fuel interrupt (S n) needed r
      | (ReadBytes data, r) =>
          let '(chunks, e) := streamRead fuel interrupt (S n) size r in (mkChunk None data :: chunks, e)
      end
  end.

(** Two reads per event and one for the end are enough. *)
Definition read_fuel (s : sse_stream) : nat := 2 * length (events s) + 2.

Definition connectRetry : nat := 2.

Definition backend_url (instance : LLMInstance) : string := "http://" +:+ Endpoint_String (InstEndpoint instance) +:+ CompletionsPath.

(** [doRequest]: up to three attempts, none after a timeout. *)
Fixpoint do_attempts (retries : nat) (url : string) (body : CompletionRequest) : gprog (gresult (Z * sse_stream * gresult string)) :=
  a ← perform (EngineDo url body);
  match a with
  | EngineResponse status stream text => Ret (GOk (status, stream, text))
  | EngineError e timeout =>
      if timeout then Ret (GErr (NetworkError url (Some e) ""))
      else match retries with
           | O => Ret (GErr (NetworkError url (Some e) ""))
           | S retries => _ ← perform (Sleep 50000000); do_attempts retries url body
           end
  end.

Definition doRequest (url : string) (body : CompletionRequest) : gprog (gresult (sse_stream * gresult string)) :=
  r ← do_attempts connectRetry url body;
  Ret (match r with
       | GErr e => GErr e
       | GOk (status, stream, text) =>
           if bool_decide (status = 200) then GOk (stream, text)
           else GErr (UpstreamError status (match text with GOk t => t | GErr _ => "" end) url "")
       end).

(** The chunks of a stream; an error of the stream, or of a read that is interrupted, is the last
    one. *)
Definition stream_chunks (s : sse_stream) : list StreamChunk :=
  let '(chunks, e) := streamRead (read_fuel s) (interrupted s) 0 ReadBufferSize (newSSEReader s) in
  chunks ++ match e with Some e => [mkChunk (Some e) ""] | None => [] end.

Definition streamBackendResponse (body : CompletionRequest) (instance : LLMInstance) : gprog (list StreamChunk) :=
  r ← doRequest (backend_url instance) body;
  Ret (match r with GErr e => [mkChunk (Some e) ""] | GOk (stream, _) => stream_chunks stream end).

(** ** Scheduling of the decode stage ([gateway_service.go]) *)

Definition set_results (l : SchedulingResult) (s : SchedulingContext) : SchedulingContext :=
  mkSchedulingContext l (sx_Mode s) (sx_Stage s) (sx_GatewayId s) (NotNeedScheduling s).
Definition set_stage (st : SchedulingStage) (s : SchedulingContext) : SchedulingContext :=
  mkSchedulingContext (SchedulingResults s) (sx_Mode s) st (sx_GatewayId s) (NotNeedScheduling s).

Definition ScheduleDecode (cb : Balancer) (req : RequestContext) : gprog (gresult SchedulingResult * RequestContext) :=
  if bool_decide (sx_Mode (req_Sched req) <> SchedulingModePDStaged) then Ret (GErr (errorf "not in staged scheduling mode"), req) else
  let req := upd_sched (set_stage SchedulingStageDecode) req in
  '(r, req) ← Get cb req;
  match r with
  | GErr e => Ret (GErr e, req)
  | GOk results => Ret (GOk results, upd_sched (fun s => set_results (SchedulingResults s ++ results) s) req)
  end.

(** ** The forwarders *)

Inductive Forwarder :=
  | NeutralForwarder
  | PDDisaggVllmKvtForwarder (schedulingMode : SchedulingMode)
  | PDDisaggVllmMoonCakeForwarder (schedulingMode : SchedulingMode)
  | PDDisaggSglMoonCakeForwarder (schedulingMode : SchedulingMode).

Definition ForwarderTypeNeutral : string := "neutral".
Definition ForwarderTypeVllmKvt : string := "vllm-kvt".
Definition ForwarderTypeSglangMooncake : string := "sglang-mooncake".
Definition ForwarderTypeVllmMooncake : string := "vllm-mooncake".

(** The registry with the factories that the [init] functions register. *)
Definition BuildForwarder (forwarderType : string) (mode : SchedulingMode) : result Forwarder :=
  let unsupported := Err (ErrorOther ("unsupported scheduling mode: " +:+ mode)) in
  let pd := bool_decide (mode = SchedulingModePDBatch) || bool_decide (mode = SchedulingModePDStaged) in
  if bool_decide (forwarderType = ForwarderTypeNeutral) then Ok NeutralForwarder
  else if bool_decide (forwarderType = ForwarderTypeVllmKvt) then if pd then Ok (PDDisaggVllmKvtForwarder mode) else unsupported
  else if bool_decide (forwarderType = ForwarderTypeVllmMooncake) then if pd then Ok (PDDisaggVllmMoonCakeForwarder mode) else unsupported
  else if bool_decide (forwarderType = ForwarderTypeSglangMooncake)
  then if bool_decide (mode = SchedulingModePDBatch) then Ok (PDDisaggSglMoonCakeForwarder mode) else unsupported
  else Err (ErrorOther ("unknown forwarder type: " +:+ forwarderType)).

Class EngineJson := { Unmarshal_completion : string -> option CompletionResponse }.

Definition set_kv (kv : option (gmap string json)) (c : CompletionRequest) : CompletionRequest :=
  mkCompletionRequest (cr_Id c) (cr_Rid c) (cr_Model c) (cr_Prompt c) (cr_FrequencyPenalty c) (cr_MaxTokens c) (cr_N c) (cr_PresencePenalty c)
    (cr_Seed c) (cr_Stop c) (cr_Stream c) (cr_StreamOptions c) (cr_Temperature c) (cr_TopP c) (cr_User c) kv (cr_BootStrapHost c) (cr_BootStrapRoom c).
Definition prefill_only (stream : bool) (so : option StreamOptions) (c : CompletionRequest) : CompletionRequest :=
  mkCompletionRequest (cr_Id c) (cr_Rid c) (cr_Model c) (cr_Prompt c) (cr_FrequencyPenalty c) (Some 1) (cr_N c) (cr_PresencePenalty c)
    (cr_Seed c) (cr_Stop c) stream so (cr_Temperature c) (cr_TopP c) (cr_User c) (cr_KvTransferParams c) (cr_BootStrapHost c) (cr_BootStrapRoom c).
Definition set_bootstrap (rid host room : string) (c : CompletionRequest) : CompletionRequest :=
  mkCompletionRequest (cr_Id c) rid (cr_Model c) (cr_Prompt c) (cr_FrequencyPenalty c) (cr_MaxTokens c) (cr_N c) (cr_PresencePenalty c)
    (cr_Seed c) (cr_Stop c) (cr_Stream c) (cr_StreamOptions c) (cr_Temperature c) (cr_TopP c) (cr_User c) (cr_KvTransferParams c) host room.

Definition put_request (c : CompletionRequest) (req : RequestContext) : RequestContext := upd_llm (set_cmpl_request (Some c)) req.

(** The program of a forwarder: the request context it leaves, and an error of [Forward]
    itself or the chunks of the channel. *)
Abbreviation forwarded := (gprog (RequestContext * gresult (list StreamChunk))) (only parsing).

Definition chunks_of (req : RequestContext) (p : gprog (list StreamChunk)) : forwarded := l ← p; Ret (req, GOk l).
Definition failed (req : RequestContext) (e : gerror) : forwarded := Ret (req, GOk [mkChunk (Some e) ""]).

(** *** neutral_forwarder.go *)

Definition neutral_Forward (req : RequestContext) : forwarded :=
  match GetInstanceByInferType (SchedulingResults (req_Sched req)) InferTypeNeutral with
  | None => Ret (req, GErr (errorf "no available instance for infer type: neutral"))
  | Some instance => c ← lift (lr_CompletionRequest (req_LLM req)); chunks_of req (streamBackendResponse c instance)
  end.

(** The scheduled pair of a request. *)
Definition with_pair (req : RequestContext) (k : LLMInstance -> LLMInstance -> forwarded) : forwarded :=
  match GetInstanceByInferType (SchedulingResults (req_Sched req)) InferTypePrefill with
  | None => Ret (req, GErr (errorf ("[" +:+ req_Id req +:+ "] no scheduled prefill instance")))
  | Some p =>
      match GetInstanceByInferType (SchedulingResults (req_Sched req)) InferTypeDecode with
      | None => Ret (req, GErr (errorf ("[" +:+ req_Id req +:+ "] no scheduled decode instance")))
      | Some d => k p d
      end
  end.

(** *** forwarder.go: [stagedSchedulingForward] *)

Definition stagedSchedulingForward (cb : Balancer) (req : RequestContext)
    (doPrefill : RequestContext -> LLMInstance -> gprog (RequestContext * option gerror))
    (doDecode : RequestContext -> LLMInstance -> LLMInstance -> forwarded) : forwarded :=
  match GetInstanceByInferType (SchedulingResults (req_Sched req)) InferTypePrefill with
  | None => Ret (req, GErr (errorf ("[" +:+ req_Id req +:+ "] no scheduled prefill instance")))
  | Some pInstance =>
      '(req, err) ← doPrefill req pInstance;
      match err with
      | Some e => failed req e
      | None =>
          '(r, req) ← ScheduleDecode cb req;
          match r with
          | GErr e => failed req e
          | GOk results =>
              match GetInstanceByInferType results InferTypeDecode with
              | None => failed req (errorf "decode instance not found")
              | Some dInstance => doDecode req pInstance dInstance
              end
          end
      end
  end.

(** *** pd_vllm_kvt_forwarder.go *)

Definition buildTransferParams (mode : SchedulingMode) (p : LLMInstance) : gmap string json :=
  let m := <["remote_host" := JString (AuxIp p)]> (<["remote_port" := JInt (AuxPort p)]> ∅) in
  if bool_decide (mode = SchedulingModePDStaged) then <["do_remote_prefill" := JBool true]> m else m.

Definition kvt_batch (mode : SchedulingMode) (req : RequestContext) : forwarded :=
  with_pair req (fun p d =>
    c ← lift (lr_CompletionRequest (req_LLM req));
    let c := set_kv (Some (buildTransferParams mode p)) c in
    chunks_of (put_request c req) (streamBackendResponse c d)).

(** The copy of the request shares the map of its transfer parameters when there is one. *)
Definition kvt_buildPrefillRequestData (c : CompletionRequest) : CompletionRequest * CompletionRequest :=
  match cr_KvTransferParams c with
  | None => (set_kv (Some {["do_remote_decode" := JBool true]}) (prefill_only (cr_Stream c) (cr_StreamOptions c) c), c)
  | Some m =>
      let c := set_kv (Some (<["do_remote_decode" := JBool true]> m)) c in
      (prefill_only (cr_Stream c) (cr_StreamOptions c) c, c)
  end.

Definition kvt_doPrefill (req : RequestContext) (p : LLMInstance) : gprog (RequestContext * option gerror) :=
  c ← lift (lr_CompletionRequest (req_LLM req));
  let '(data, c) := kvt_buildPrefillRequestData c in
  let req := put_request c req in
  r ← doRequest (backend_url p) data;
  Ret (req, match r with GErr e => Some e | GOk (_, GErr e) => Some e | GOk (_, GOk _) => None end).

Definition kvt_buildDecodeRequestData (c : CompletionRequest) (p : LLMInstance) : CompletionRequest :=
  set_kv (Some (<["do_remote_prefill" := JBool true]> (<["remote_port" := JInt (AuxPort p)]> (<["remote_host" := JString (AuxIp p)]>
    (default ∅ (cr_KvTransferParams c)))))) c.

Definition kvt_doDecode (req : RequestContext) (p d : LLMInstance) : forwarded :=
  c ← lift (lr_CompletionRequest (req_LLM req));
  let c := kvt_buildDecodeRequestData c p in
  chunks_of (put_request c req) (streamBackendResponse c d).

Definition kvt_Forward (cb : Balancer) (mode : SchedulingMode) (req : RequestContext) : forwarded :=
  if bool_decide (mode = SchedulingModePDBatch) then kvt_batch mode req
  else if bool_decide (mode = SchedulingModePDStaged) then stagedSchedulingForward cb req kvt_doPrefill kvt_doDecode
  else Ret (req, GErr (errorf ("[" +:+ req_Id req +:+ "] unsupported scheduling mode: " +:+ mode))).

(** *** pd_vllm_mooncake_forwarder.go *)

Definition mooncake_params : gmap string json :=
  list_to_map [("do_remote_decode", JBool true); ("do_remote_prefill", JBool false); ("remote_engine_id", JNull); ("remote_block_ids", JNull);
               ("remote_host", JNull); ("remote_port", JNull)]%string.

Definition mooncake_buildPrefillRequestData (c : CompletionRequest) : CompletionRequest :=
  set_kv (Some mooncake_params) (prefill_only false None c).

Section mooncake.
Context `{EJ : EngineJson}.

Definition mooncake_doPrefill (req : RequestContext) (p : LLMInstance) : gprog (RequestContext * option gerror) :=
  c ← lift (lr_CompletionRequest (req_LLM req));
  r ← doRequest (backend_url p) (mooncake_buildPrefillRequestData c);
  Ret (match r with
       | GErr e => (req, Some e)
       | GOk (_, GErr e) => (req, Some e)
       | GOk (_, GOk text) =>
           match Unmarshal_completion text with
           | None => (req, Some (errorf "failed to unmarshal completion response"))
           | Some resp => (put_request (set_kv (rs_KvTransferParams resp) c) req, None)
           end
       end).

Definition mooncake_doDecode (req : RequestContext) (d : LLMInstance) : forwarded :=
  c ← lift (lr_CompletionRequest (req_LLM req)); chunks_of req (streamBackendResponse c d).

Definition mooncake_batch (req : RequestContext) : forwarded :=
  with_pair req (fun p d =>
    '(req, err) ← mooncake_doPrefill req p;
    match err with Some e => failed req e | None => mooncake_doDecode req d end).

Definition mooncake_Forward (cb : Balancer) (mode : SchedulingMode) (req : RequestContext) : forwarded :=
  if bool_decide (mode = SchedulingModePDBatch) then mooncake_batch req
  else if bool_decide (mode = SchedulingModePDStaged)
  then stagedSchedulingForward cb req mooncake_doPrefill (fun req _ d => mooncake_doDecode req d)
  else Ret (req, GErr (errorf ("[" +:+ req_Id req +:+ "] unsupported scheduling mode: " +:+ mode))).

(** *** pd_sgl_mooncake_forwarder.go *)

(** The room number is rounded down to the data-parallel size and its rank is added; a size
    of zero is a division by zero. *)
Definition bootstrapRoom (r dpSize dpRank : Z) : option Z :=
  if bool_decide (dpSize = 0) then None else Some (int64 (int64 (Z.quot r dpSize * dpSize) + dpRank)).

Definition sgl_buildRequestData (req : RequestContext) (p d : LLMInstance) : gprog (CompletionRequest) :=
  r ← perform (RandIntn (2 ^ 63 - 1));
  room ← lift (bootstrapRoom r (DPSize d) (DPRank d));
  c ← lift (lr_CompletionRequest (req_LLM req));
  Ret (set_bootstrap (req_Id req) (Host (InstEndpoint p)) (Itoa room) c).

(** Both engines get the request at the same time; of two errors the first one counts. *)
Definition parallelRequestAndStream (body : CompletionRequest) (p d : LLMInstance) : gprog (list StreamChunk) :=
  rp ← doRequest (backend_url p) body;
  rd ← doRequest (backend_url d) body;
  match rp, rd with
  | GOk _, GOk (stream, _) => Ret (stream_chunks stream)
  | GErr e, GOk _ | GOk _, GErr e => Ret [mkChunk (Some e) ""]
  | GErr e, GErr e' => first ← perform FirstFails; Ret [mkChunk (Some (if first : bool then e else e')) ""]
  end.

Definition sgl_Forward (req : RequestContext) : forwarded :=
  with_pair req (fun p d =>
    c ← sgl_buildRequestData req p d;
    chunks_of (put_request c req) (parallelRequestAndStream c p d)).

Definition Forward (f : Forwarder) (cb : Balancer) (req : RequestContext) : forwarded :=
  match f with
  | NeutralForwarder => neutral_Forward req
  | PDDisaggVllmKvtForwarder mode => kvt_Forward cb mode req
  | PDDisaggVllmMoonCakeForwarder mode => mooncake_Forward cb mode req
  | PDDisaggSglMoonCakeForwarder _ => sgl_Forward req
  end.
End mooncake.

(** ** The stream arrives whole *)

Definition end_chunk (e : gerror) : list StreamChunk := if bool_decide (e = EOF) then [] else [mkChunk (Some e) ""].

Definition fits (ev : sse_event) : Prop := ev_length ev <= MaxEventSize.

(** How reading ends after [k] of the events [evs], beginning with the read [n]. *)
Definition stops (s : sse_stream) (evs : list sse_event) (n k : nat) (last : list StreamChunk) : Prop :=
  (k = length evs /\ last = match stream_end s with Some e => end_chunk e | None => [] end) \/
  (exists ev, evs !! k = Some ev /\ ~ fits ev /\ last = end_chunk (too_long s)) \/
  (exists m e, (n + k <= m)%nat /\ interrupted s m = Some e /\ (forall m', (n <= m' < m)%nat -> interrupted s m' = None) /\ last = end_chunk e).

Definition read_chunks (r : list StreamChunk * option gerror) : list StreamChunk := r.1 ++ match r.2 with Some e => [mkChunk (Some e) ""] | None => [] end.

Lemma read_error e : read_chunks (if bool_decide (e = EOF) then ([], None) else ([], Some e)) = end_chunk e.
Proof. unfold read_chunks, end_chunk. by case_bool_decide. Qed.

Lemma read_more data r : read_chunks (let '(chunks, e) := r in (mkChunk None data :: chunks, e)) = mkChunk None data :: read_chunks r.
Proof. by destruct r. Qed.

(** One event more. *)
Lemma stops_cons s ev evs n n' k last : fits ev -> (n < n')%nat -> (forall m, (n <= m < n')%nat -> interrupted s m = None) ->
  stops s evs n' k last -> stops s (ev :: evs) n (S k) last.
Proof.
  intros Hf Hn Hi [[-> ->]|[H|(m & e & Hm & He & Hb & ->)]]; [by left|by right; left|right; right]. exists m, e. split_and!; try done; [lia|].
  intros m' Hm'. destruct (decide (m' < n')%nat); [apply Hi; lia|apply Hb; lia].
Qed.

Lemma streamRead_stops s evs fuel n size : (2 * length evs + 1 < fuel)%nat ->
  exists k last, (k <= length evs)%nat /\ Forall fits (take k evs) /\ stops s evs n k last /\
    read_chunks (streamRead fuel (interrupted s) n size (mkSSEReader (processEvents s evs) None)) = (mkChunk None <$> (ev_data <$> take k evs)) ++ last.
Proof.
  revert fuel n size. induction evs as [|ev evs IH]; intros fuel n size Hf; destruct fuel as [|fuel]; try (cbn in Hf; lia); cbn [streamRead]; unfold TimeoutReader_Read.
  all: destruct (interrupted s n) as [e|] eqn:Ei; [exists 0%nat, (end_chunk e); rewrite read_error; split; [lia|]; split; [done|]; split; [|done]; right; right; exists n, e; split_and!; try done; lia|].
  - exists 0%nat. unfold SSEReader_Read. cbn [pending resultCh processEvents length take]. destruct (stream_end s) as [e|] eqn:Ee.
    + exists (end_chunk e). rewrite read_error. split_and!; try done. left. by rewrite Ee.
    + exists []. rewrite bool_decide_true by done. split_and!; try done. left. by rewrite Ee.
  - unfold SSEReader_Read. cbn [pending resultCh processEvents]. case_bool_decide as Hs.
    { exists 0%nat, (end_chunk (too_long s)). rewrite read_error. split; [lia|]. split; [done|]. split; [|done]. right. left. exists ev. split_and!; try done. unfold fits. lia. }
    assert (Hfit : fits ev) by (unfold fits; lia). unfold read_event. cbn [resultCh pending].
    assert (Hone : forall m, (n <= m < S n)%nat -> interrupted s m = None) by (intros m Hm; by replace m with n by lia).
    case_bool_decide as Hd.
    + destruct fuel as [|fuel]; [cbn in Hf; lia|]. cbn [streamRead]. unfold TimeoutReader_Read. destruct (interrupted s (S n)) as [e|] eqn:Ei2.
      { exists 0%nat, (end_chunk e). rewrite read_error. split; [lia|]. split; [done|]. split; [|done]. right. right. exists (S n), e. split; [lia|]. split; [done|]. split; [|done]. intros m' Hm'. apply Hone. lia. }
      unfold SSEReader_Read, read_event. cbn [pending resultCh]. rewrite bool_decide_eq_false_2 by lia. rewrite read_more.
      destruct (IH fuel (S (S n)) (String.length (ev_data ev))) as (k & last & H1 & H2 & H3 & H4); [cbn in Hf; lia|]. exists (S k), last.
      split; [cbn; lia|]. split; [by apply Forall_cons_2|]. split; [|by rewrite H4]. apply (stops_cons s ev evs n (S (S n)) k last Hfit ltac:(lia)); [|exact H3]. intros m Hm. destruct (decide (m = S n)) as [->|]; [done|apply Hone; lia].
    + rewrite read_more. destruct (IH fuel (S n) size) as (k & last & H1 & H2 & H3 & H4); [cbn in Hf; lia|]. exists (S k), last.
      split; [cbn; lia|]. split; [by apply Forall_cons_2|]. split; [|by rewrite H4]. exact (stops_cons s ev evs n (S n) k last Hfit ltac:(lia) Hone H3).
Qed.

(** C40. What reaches the handler of the stream of an engine is the data of its events, each
    once and in order, however large an event is compared with the read buffer: of all of them,
    followed by the error that ended the stream unless it is its proper end; or of those before
    the first event beyond the limit of 1 MB, followed by the library's error; or of those before
    the first read that the request's context or the read timeout interrupted, followed by that
    error. *)
Theorem stream_delivered s : exists k last,
  (k <= length (events s))%nat /\ Forall fits (take k (events s)) /\ stops s (events s) 0 k last /\
  stream_chunks s = (mkChunk None <$> (ev_data <$> take k (events s))) ++ last.
Proof.
  destruct (streamRead_stops s (events s) (read_fuel s) 0 ReadBufferSize) as (k & last & H1 & H2 & H3 & H4); [unfold read_fuel; lia|]. exists k, last. split_and!; try done.
  rewrite <- H4. unfold stream_chunks, newSSEReader, read_chunks. by destruct (streamRead _ _ _ _ _).
Qed.
