(* ===== verification/Handler.v ===== *)
(** * The OpenAI handler

    [pkg/gateway/handler/openai_handler.go]: parses a request, forwards it, and turns the
    chunks that come back into responses for the client, which go to the response channel.
    The hooks of a request are a record of operations, as the source's interface is; JSON
    decoding of the two kinds of requests is the class [RequestJson]. *)

From Stdlib Require Import Ascii.
From stdpp Require Import base gmap list strings numbers.
From S2P Require Import Prelude GoStrings Types Programs GatewayErrors LrsClient Protocol Processor GatewayEffects Balancer Forwarder.

Local Open Scope Z_scope.

Class RequestJson := {
  Unmarshal_chat_request : string -> option ChatCompletionRequest;
  Unmarshal_completion_request : string -> option CompletionRequest
}.

Record RequestStateManagementHooks := mkHooks {
  OnPostPrefill : RequestContext -> gprog RequestContext;
  OnPostRequest : RequestContext -> gprog RequestContext;
  OnPostDecodeFirstStreamResponse : RequestContext -> gprog RequestContext;
  OnPostDecodeEachStreamResponse : RequestContext -> gprog RequestContext
}.

Definition noopHooks : RequestStateManagementHooks := mkHooks Ret Ret Ret Ret.

Record OpenAIHandler := mkHandler { h_processor : ResponseChunkProcessor; h_forwarder : Forwarder }.

(** [newOpenAIHandler]: the forwarder that the configuration names. *)
Definition newOpenAIHandler (rp : ResponseChunkProcessor) (pdDisaggProtocol : string) (separatePDScheduling : bool) : result OpenAIHandler :=
  let name := if bool_decide (pdDisaggProtocol = "") then ForwarderTypeNeutral else pdDisaggProtocol in
  let mode := if separatePDScheduling then SchedulingModePDStaged else SchedulingModePDBatch in
  match BuildForwarder name mode with Ok f => Ok (mkHandler rp f) | Err e => Err e end.

Section handler.
Context `{SG : Sglang, RJ : RequestJson, EJ : EngineJson}.

(** ** Parsing a request *)

Definition set_parsed (model data : string) (p : ProtocolType) (chat : option ChatCompletionRequest) (cmpl : option CompletionRequest) (r : LLMRequest) : LLMRequest :=
  mkLLMRequest model data p (ClientStream r) chat (lr_ChatResponse r) (lr_ChatStreamResponse r) cmpl (lr_CompletionResponse r)
    (lr_ReasoningParser r) (lr_ToolParser r) (BufferChatResp r) (LastChatStreamResp r) (BufferCompletionResponse r).

Definition set_raw (data : string) (r : LLMRequest) : LLMRequest :=
  set_parsed (lr_Model r) data (Protocol r) (lr_ChatRequest r) (lr_CompletionRequest r) r.

(** [body] is [None] when it cannot be read. *)
Definition UnmarshalRequest (path : string) (body : option string) (req : RequestContext) : RequestContext * option gerror :=
  match body with
  | None => (req, Some (errorf "read request failed"))
  | Some data =>
      let req := upd_llm (set_raw data) req in
      if IsChatCompletionsURL path then
        match Unmarshal_chat_request data with
        | None => (req, Some (errorf "Invalid ChatCompletionRequest format"))
        | Some c => (upd_llm (fun r => set_parsed (cc_Model c) data OpenAIChatCompletion (Some c) (lr_CompletionRequest r) r) req, None)
        end
      else if IsCompletionsURL path then
        match Unmarshal_completion_request data with
        | None => (req, Some (errorf "Invalid CompletionRequest format"))
        | Some c => (upd_llm (fun r => set_parsed (cr_Model c) data OpenAICompletion (lr_ChatRequest r) (Some c) r) req, None)
        end
      else (req, Some (errorf "Invalid ChatCompletionRequest format"))
  end.

Definition ParseRequest (path : string) (body : option string) (req : RequestContext) : option (RequestContext * option gerror) :=
  match UnmarshalRequest path body req with
  | (req, Some e) => Some (req, Some e)
  | (req, None) => Process [PreProcess] req
  end.

(** ** Responses *)

(** The error [EOF] stands for the end marker. *)
Definition parseResponse (data : string) (req : RequestContext) : RequestContext * option gerror :=
  if bool_decide (data = "[DONE]") then (req, Some EOF)
  else match Unmarshal_completion data with
       | None => (req, Some (errorf "failed to unmarshal response"))
       | Some r => (upd_llm (set_cmpl_response (Some r)) req, None)
       end.

Definition marshalResponse (req : RequestContext) : RequestContext * gresult (option payload) :=
  let r := req_LLM req in
  match Protocol r with
  | OpenAIChatCompletion =>
      if ClientStream r then (upd_llm (set_stream_response None) req, GOk (PChatStream <$> lr_ChatStreamResponse r))
      else (upd_llm (set_chat_response None) req, GOk (PChat <$> lr_ChatResponse r))
  | OpenAICompletion => (upd_llm (set_cmpl_response None) req, GOk (PCompletion <$> lr_CompletionResponse r))
  | ProtocolOther _ => (req, GErr (errorf "unsupported protocol: unknown"))
  end.

Definition upd_times (f : RequestTimes -> RequestTimes) (s : RequestStats) : RequestStats :=
  mkStats (f (times s)) (InputTokensLen s) (OutputTokensLen s) (ReasoningTokensLen s) (MaxTokensLimit s) (HasToolCalls s) (FallbackAttempt s)
    (RetryCount s) (FailedInstances s).
Definition add_post_cost (d : Z) (m : RequestTimes) : RequestTimes :=
  mkTimes (HandleTime m) (EnQueueTime m) (DeQueueTime m) (BalanceTime m) (PrefillTime m) (DecodeBalanceTime m) (FirstTime m) (ProcessTime m)
    (PreprocessCost m) (int64 (PostprocessCost m + d)) (ITLs m).
Definition set_first_time (t : Z) (m : RequestTimes) : RequestTimes :=
  mkTimes (HandleTime m) (EnQueueTime m) (DeQueueTime m) (BalanceTime m) (PrefillTime m) (DecodeBalanceTime m) (Some t) (ProcessTime m)
    (PreprocessCost m) (PostprocessCost m) (ITLs m).
Definition add_itl (ms : Z) (m : RequestTimes) : RequestTimes :=
  mkTimes (HandleTime m) (EnQueueTime m) (DeQueueTime m) (BalanceTime m) (PrefillTime m) (DecodeBalanceTime m) (FirstTime m) (ProcessTime m)
    (PreprocessCost m) (PostprocessCost m) (ITLs m ++ [ms]).

Definition writeErrorResponse (e : gerror) : gprog unit := perform (Send (mkMsg (Some e) (PText ""))).
Definition writeResponse (p : payload) : gprog unit := perform (Send (mkMsg None p)).

Definition processAndWriteChunk (h : OpenAIHandler) (done : bool) (req : RequestContext) : gprog (RequestContext * option gerror) :=
  tStart ← perform Now;
  '(req, err) ← lift (Process [PostProcess (h_processor h) done] req);
  match err with
  | Some e => Ret (req, Some (Wrapped "post-processor failed: " e))
  | None =>
      tEnd ← perform Now;
      let req := upd_stats (upd_times (add_post_cost (tEnd - tStart))) req in
      let '(req, data) := marshalResponse req in
      match data with
      | GErr e => Ret (req, Some (Wrapped "marshal response failed: " e))
      | GOk data =>
          _ ← match data with Some p => writeResponse p | None => Ret tt end;
          _ ← (if done then writeResponse PDone else Ret tt);
          Ret (req, None)
      end
  end.

(** ** The loop over the chunks *)

(** The bookkeeping of a chunk: the first one, the first after it, or another. *)
Inductive position := FirstChunk | SecondChunk | LaterChunk.

Definition record_chunk (hooks : RequestStateManagementHooks) (pos : position) (lastTime : Z) (req : RequestContext) : gprog (RequestContext * Z) :=
  match pos with
  | FirstChunk =>
      t ← perform Now;
      req ← OnPostPrefill hooks (upd_stats (upd_times (set_first_time t)) req);
      Ret (req, t)
  | SecondChunk | LaterChunk =>
      t ← perform Now;
      let req := upd_stats (upd_times (add_itl (Milliseconds (Sub t lastTime)))) req in
      t ← perform Now;
      req ← match pos with SecondChunk => OnPostDecodeFirstStreamResponse hooks req | _ => Ret req end;
      Ret (req, t)
  end.

Definition next_position (pos : position) : position := match pos with FirstChunk => SecondChunk | _ => LaterChunk end.

(** The error is sent to the client and the request counts as handled. *)
Definition report_error (req : RequestContext) (e : gerror) : gprog (RequestContext * option gerror) := _ ← writeErrorResponse e; Ret (req, None).

Definition final_chunk (h : OpenAIHandler) (data : string) (req : RequestContext) : gprog (RequestContext * option gerror) :=
  if bool_decide (data = "") then Ret (req, None) else
  let '(req, err) := parseResponse data req in
  match err with
  | Some e => if bool_decide (e = EOF)
              then '(req, err) ← processAndWriteChunk h true req; match err with Some e => report_error req e | None => Ret (req, None) end
              else report_error req e
  | None => '(req, err) ← processAndWriteChunk h true req; match err with Some e => report_error req e | None => Ret (req, None) end
  end.

Fixpoint chunk_loop (h : OpenAIHandler) (hooks : RequestStateManagementHooks) (chunks : list StreamChunk) (pos : position) (lastTime : Z) (req : RequestContext)
    : gprog (RequestContext * option gerror) :=
  match chunks with
  | [] => Ret (req, None)
  | chunk :: chunks =>
      '(req, lastTime) ← record_chunk hooks pos lastTime req;
      match chunk_Err chunk with
      | Some e =>
          if bool_decide (e = EOF) then final_chunk h (chunk_Data chunk) req
          else responded ← perform HeaderResponded; if negb responded then Ret (req, Some e) else report_error req e
      | None =>
          let '(req, err) := parseResponse (chunk_Data chunk) req in
          let isStreamEnd := bool_decide (err = Some EOF) in
          match (if isStreamEnd then None else err) with
          | Some e => report_error req e
          | None =>
              req ← (if bool_decide (ITLs (times (req_Stats req)) <> []) then OnPostDecodeEachStreamResponse hooks req else Ret req);
              '(req, err) ← processAndWriteChunk h isStreamEnd req;
              match err with
              | Some e => report_error req e
              | None =>
                  if OutputExceedMaxTokens (req_Stats req) then '(req, _) ← processAndWriteChunk h true req; Ret (req, None)
                  else chunk_loop h hooks chunks (next_position pos) lastTime req
              end
          end
      end
  end.

Definition Handle (h : OpenAIHandler) (cb : Balancer) (hooks : RequestStateManagementHooks) (req : RequestContext) : gprog (RequestContext * option gerror) :=
  '(req, r) ← Forward (h_forwarder h) cb req;
  match r with
  | GErr e => Ret (req, Some e)
  | GOk chunks => chunk_loop h hooks chunks FirstChunk 0 req
  end.
End handler.
