(* ===== verification/Gateway.v ===== *)
(** * The gateway service

    [pkg/gateway/service/gateway_service.go]: a request is parsed, waits in the buffer
    queue, is routed to the cluster or to an external service, retried, sent to fallback
    endpoints, and its responses are written to the client. The program of a request,
    [dispatchRequest], runs in a worker and in the goroutine that the worker starts; the
    response channel carries its messages to the HTTP handler, [writeResponseUntilDone].

    A panic in the request's goroutine ends the process. Metrics and log lines are left
    out. *)

From Stdlib Require Import Ascii.
From stdpp Require Import base gmap list strings numbers.
From S2P Require Import Prelude GoStrings Types Programs GatewayErrors LrsClient Router WorkerPool Protocol Processor GatewayEffects Balancer Forwarder Handler.

Local Open Scope Z_scope.

(** ** Configuration *)

Record GatewayConfig := mkGatewayConfig {
  RetryMaxCount : Z;
  RequestStateReportInterval : Z;
  gw_EnableFullModeScheduling : bool;
  PDDisaggProtocol : string;
  SeparatePDScheduling : bool;
  FallbackRetryQueueEnabled : bool
}.

Definition EnableRequestStateTracking (c : GatewayConfig) : bool :=
  bool_decide (0 < RequestStateReportInterval c) && negb (gw_EnableFullModeScheduling c).
Definition IsPDDisagg (c : GatewayConfig) : bool := bool_decide (PDDisaggProtocol c <> "").

Definition schedulingMode (c : GatewayConfig) : SchedulingMode :=
  if negb (IsPDDisagg c) then SchedulingModeNeutral
  else if SeparatePDScheduling c then SchedulingModePDStaged else SchedulingModePDBatch.

Record LlmGatewayService := mkGateway {
  config : GatewayConfig;
  reqHandler : OpenAIHandler;
  balancer : Balancer;
  router : ServiceRouter;
  retryQueue : RateLimitRetryQueue nat;
  retry_fuel : nat
}.

(** ** The text of a response *)

(** Outer [None]: a nil pointer; inner [None]: no usage in the response. *)
Definition GetResponseUsage (r : LLMRequest) : option (option Usage) :=
  match Protocol r with
  | OpenAIChatCompletion => if ClientStream r then st_Usage <$> lr_ChatStreamResponse r else cp_Usage <$> lr_ChatResponse r
  | OpenAICompletion => rs_Usage <$> lr_CompletionResponse r
  | ProtocolOther _ => Some None
  end.

Definition GetChatCompletionStreamText (r : option ChatCompletionStreamResponse) : string :=
  match r with
  | Some r => match st_Choices r with
              | c :: _ => if bool_decide (sc_ReasoningContent c <> "") then sc_ReasoningContent c else sc_Content c
              | [] => ""
              end
  | None => ""
  end.
Definition GetChatCompletionText (r : option ChatCompletionResponse) : string :=
  match r with
  | Some r => if bool_decide (cp_ReasoningContent r <> "") then cp_ReasoningContent r else cp_Content r
  | None => ""
  end.
Definition GetCompletionText (r : option CompletionResponse) : string :=
  match r with Some r => match rs_Choices r with c :: _ => ch_Text c | [] => "" end | None => "" end.

Definition GetResponseText (r : LLMRequest) : string :=
  match Protocol r with
  | OpenAIChatCompletion => if ClientStream r then GetChatCompletionStreamText (lr_ChatStreamResponse r) else GetChatCompletionText (lr_ChatResponse r)
  | OpenAICompletion => GetCompletionText (lr_CompletionResponse r)
  | ProtocolOther _ => ""
  end.

(** ** Hooks *)

Definition release_opt (b : Balancer) (req : RequestContext) (w : option LLMInstance) : gprog unit :=
  match w with Some w => Release b req w | None => Ret tt end.

Fixpoint release_all (b : Balancer) (req : RequestContext) (ws : list LLMInstance) : gprog unit :=
  match ws with [] => Ret tt | w :: ws => _ ← Release b req w; release_all b req ws end.

Section gateway.
Context (gw : LlmGatewayService).

Definition instance_of (req : RequestContext) (t : InferType) : option LLMInstance := GetInstanceByInferType (SchedulingResults (req_Sched req)) t.

Definition hook_OnPostPrefill (req : RequestContext) : gprog RequestContext :=
  if EnableRequestStateTracking (config gw) then
    _ ← perform (TrackerReport (ReportPrefillComplete (req_Id req) (lr_Model (req_LLM req)) (sx_GatewayId (req_Sched req)) (SchedulingResults (req_Sched req))));
    _ ← release_opt (balancer gw) req (instance_of req InferTypePrefill);
    Ret (upd_sched (set_stage SchedulingStageDecode) req)
  else Ret req.

Definition hook_OnPostRequest (req : RequestContext) : gprog RequestContext :=
  if EnableRequestStateTracking (config gw) then
    _ ← perform (TrackerDelete (req_Id req));
    _ ← release_opt (balancer gw) req (instance_of req InferTypeNeutral);
    _ ← release_opt (balancer gw) req (instance_of req InferTypeDecode);
    Ret req
  else if gw_EnableFullModeScheduling (config gw) && negb (ForwardSucceeded req) then
    _ ← release_all (balancer gw) req (SchedulingResults (req_Sched req)); Ret req
  else Ret req.

(** [NewRequestTokenState] is nil without token ids, and [AddRequestState] reads it. *)
Definition hook_OnPostDecodeFirstStreamResponse (req : RequestContext) : gprog RequestContext :=
  if EnableRequestStateTracking (config gw) && ClientStream (req_LLM req) then
    let '(inferType, instanceID) :=
      match instance_of req InferTypeDecode with
      | Some w => (InferTypeDecode, (LLMInstance_Id w).1)
      | None => match instance_of req InferTypeNeutral with Some w => (InferTypeNeutral, (LLMInstance_Id w).1) | None => (""%string, ""%string) end
      end in
    rs ← lift (NewRequestTokenState (req_Id req) (lr_Model (req_LLM req)) (GetPromptTokens (req_LLM req)) (lr_Model (req_LLM req)) inferType instanceID
                 (sx_GatewayId (req_Sched req)));
    _ ← perform (TrackerAdd rs);
    Ret (set_token_state (Some rs) req)
  else Ret req.

Definition hook_OnPostDecodeEachStreamResponse (req : RequestContext) : gprog RequestContext :=
  if EnableRequestStateTracking (config gw) && ClientStream (req_LLM req) then
    usage ← lift (GetResponseUsage (req_LLM req));
    rs ← lift (req_TokenState req);
    _ ← match usage with
        | Some u => perform (TokensTotal (ts_req rs) (TotalTokens u))
        | None => perform (TokensText (ts_req rs) (GetResponseText (req_LLM req)))
        end;
    Ret req
  else Ret req.

Definition hooks : RequestStateManagementHooks :=
  mkHooks hook_OnPostPrefill hook_OnPostRequest hook_OnPostDecodeFirstStreamResponse hook_OnPostDecodeEachStreamResponse.

(** ** External services *)

(** Copying the body to the client; the header comes first. *)
Fixpoint copy_body (pieces : list string) : gprog unit :=
  match pieces with [] => Ret tt | p :: pieces => _ ← perform (ClientWrite p); copy_body pieces end.

(** [path] is the address of the client's request. *)
Definition proxyToExternal (path : string) (req : RequestContext) (dst : RouteEndpoint) : gprog (option gerror) :=
  let url := JoinURL dst path in
  a ← perform (ExternalDo url (re_APIKey dst) (RawData (req_LLM req)));
  match a with
  | ExternalError e => Ret (Some (NetworkError url (Some e) ""))
  | ExternalResponse status body =>
      if bool_decide (400 <= status) then Ret (Some (UpstreamError status (Join body "") url "")) else
      done ← perform CtxErr;
      match done with
      | Some e => Ret (Some (NetworkError url (Some e) ""))
      | None =>
          _ ← perform (ClientHeader status);
          _ ← copy_body body;
          _ ← perform SetHeaderResponded;
          Ret None
      end
  end.

(** [time.Duration(10*(1<<attempt)) * time.Millisecond], at most 100 ms, in ns. *)
Definition backoff (attempt : Z) : Z :=
  let d := int64 (int64 (10 * int64 (Z.shiftl 1 attempt)) * 1000000) in
  if bool_decide (100000000 < d) then 100000000 else d.

Definition set_fallback_attempt (n : Z) (s : RequestStats) : RequestStats :=
  mkStats (times s) (InputTokensLen s) (OutputTokensLen s) (ReasoningTokensLen s) (MaxTokensLimit s) (HasToolCalls s) n (RetryCount s) (FailedInstances s).

(** The retries of a fallback that answered 429, in the retry queue; [RetryAbandoned] is
    the end of the context while the result is awaited. *)
Definition await_retries (path : string) (req : RequestContext) (dst : RouteEndpoint) : gprog (option gerror + unit) :=
  r ← retryLoop (fun d => perform (PauseOrDone d)) (perform RetryQueueStarted) (perform CtxErr) (proxyToExternal path req dst) (retry_fuel gw) (retryQueue gw) 0;
  abandoned ← perform RetryAbandoned;
  Ret (if abandoned : bool then inr tt else inl r).

(** [Enqueue] also refuses without asking the pool when it has no retries to give. *)
Definition enqueue_retry : gprog bool :=
  if bool_decide (maxRetries (retryQueue gw) = 0) then Ret false else perform EnqueueRetry.

(** The pause after a failed fallback, then the rest of the loop. *)
Definition fallback_pause (req : RequestContext) (k : gprog (RequestContext * option gerror)) : gprog (RequestContext * option gerror) :=
  d ← perform (PauseOrDone (backoff (FallbackAttempt (req_Stats req) - 1)));
  match d with Some e => Ret (req, Some e) | None => k end.

(** [fuel] bounds the turns: each takes the next fallback endpoint. *)
Fixpoint fallback_loop (fuel : nat) (path : string) (skip : list string) (req : RequestContext) (err : option gerror) : gprog (RequestContext * option gerror) :=
  match fuel with
  | O => Hang
  | S fuel =>
      if negb (CanFallback (FallbackAttempt (req_Stats req)) (router gw)) then
        Ret (req, Some match err with
                       | Some e => Wrapped ("request " +:+ req_Id req +:+ " all fallback attempts failed: ") e
                       | None => errorf ("no fallback endpoints available for request " +:+ req_Id req)
                       end)
      else
      responded ← perform HeaderResponded;
      if responded : bool then Ret (req, None) else
      f ← lift (Fallback (FallbackAttempt (req_Stats req)) (router gw));
      match f with
      | GErr _ => Ret (req, Some (errorf ("all fallback attempts failed for request " +:+ req_Id req)))
      | GOk (dst, n) =>
          let req := upd_stats (set_fallback_attempt n) req in
          if bool_decide (re_URL dst ∈ skip) then fallback_loop fuel path skip req err else
          r ← proxyToExternal path req dst;
          match r with
          | None => Ret (req, None)
          | Some e =>
              if IsRateLimitError e && FallbackRetryQueueEnabled (config gw) then
                enqueued ← enqueue_retry;
                if enqueued : bool then
                  r ← await_retries path req dst;
                  match r with
                  | inr _ => Ret (req, Some ContextCanceled)
                  | inl None => Ret (req, None)
                  | inl (Some e) => fallback_loop fuel path skip req (Some e)
                  end
                else fallback_pause req (fallback_loop fuel path skip req (Some e))
              else fallback_pause req (fallback_loop fuel path skip req (Some e))
          end
      end
  end.

Definition tryFallback (path : string) (skip : list string) (req : RequestContext) : gprog (RequestContext * option gerror) :=
  fallback_loop (S (length (fallbackConfigs (router gw)))) path skip req None.

(** The message beside an error is read by nobody. *)
Definition send_error (e : gerror) : gprog unit := perform (Send (mkMsg (Some e) (PText ""))).

Definition externalRouteRequest (path : string) (dst : RouteEndpoint) (req : RequestContext) : gprog RequestContext :=
  err ← proxyToExternal path req dst;
  req ← match err with
        | None => Ret req
        | Some e =>
            if negb (CanFallback (FallbackAttempt (req_Stats req)) (router gw)) then _ ← send_error e; Ret req
            else '(req, ferr) ← tryFallback path [re_URL dst] req;
                 match ferr with Some _ => _ ← send_error e; Ret req | None => Ret req end
        end;
  _ ← perform CloseChan;
  Ret req.

(** A fallback whose error goes to the client. *)
Definition fallback_or_error (path : string) (req : RequestContext) : gprog RequestContext :=
  '(req, err) ← tryFallback path [] req;
  match err with Some e => _ ← send_error e; Ret req | None => Ret req end.

Definition unknownRouteRequest (path : string) (req : RequestContext) : gprog RequestContext :=
  req ← fallback_or_error path req; _ ← perform CloseChan; Ret req.

(** ** Internal routing *)

Section handling.
Context `{SG : Sglang, EJ : EngineJson}.

Definition set_sched_results (l : SchedulingResult) (req : RequestContext) : RequestContext := upd_sched (set_results l) req.

Definition fallback_or (path : string) (req : RequestContext) (e : gerror) : gprog RequestContext :=
  if CanFallback (FallbackAttempt (req_Stats req)) (router gw) then fallback_or_error path req else _ ← send_error e; Ret req.

(** Before another attempt: the previous instances are given back and new ones asked for.
    The boolean says whether the attempt takes place. *)
Definition reschedule (path : string) (originErr : gerror) (req : RequestContext) : gprog (RequestContext * bool) :=
  done ← perform CtxErr;
  match done with
  | Some e => _ ← send_error e; Ret (req, false)
  | None =>
      _ ← release_all (balancer gw) req (SchedulingResults (req_Sched req));
      let req := set_sched_results [] req in
      '(r, req) ← Get (balancer gw) req;
      match r with
      | GErr _ => req ← fallback_or path req originErr; Ret (req, false)
      | GOk res => Ret (set_sched_results res req, true)
      end
  end.

Definition count_retry (e : gerror) (s : RequestStats) : RequestStats :=
  let id := match as_retryable e with Some e => FailedInstanceID e | None => "" end in
  let s := if bool_decide (id <> "") then RecordFailedInstance id s else s in
  mkStats (times s) (InputTokensLen s) (OutputTokensLen s) (ReasoningTokensLen s) (MaxTokensLimit s) (HasToolCalls s) (FallbackAttempt s)
    (int64 (RetryCount s + 1)) (FailedInstances s).

(** The attempts [attempt .. RetryMaxCount], of which [k] are left; [originErr] is the error
    of the attempt before. *)
Fixpoint route_attempts (k : nat) (attempt : Z) (path : string) (originErr : option gerror) (req : RequestContext) : gprog RequestContext :=
  match k with
  | O => Ret req
  | S k =>
      '(req, go) ← match originErr with
                   | None => Ret (req, true)
                   | Some e => reschedule path e req
                   end;
      if negb go then Ret req else
      '(req, err) ← Handle (reqHandler gw) (balancer gw) hooks req;
      match err with
      | None => Ret (set_succeeded req)
      | Some e =>
          if negb (retryable e) then _ ← send_error e; Ret req else
          responded ← perform HeaderResponded;
          if responded : bool then Ret req else
          if bool_decide (attempt = RetryMaxCount (config gw)) then fallback_or path req e else
          let req := upd_stats (count_retry e) req in
          d ← perform (PauseOrDone (backoff attempt));
          match d with
          | Some c => _ ← send_error c; Ret req
          | None => route_attempts k (attempt + 1) path (Some e) req
          end
      end
  end.

Definition internalRouteRequest (path : string) (req : RequestContext) : gprog RequestContext :=
  req ← route_attempts (Z.to_nat (RetryMaxCount (config gw) + 1)) 0 path None req;
  _ ← perform CloseChan;
  OnPostRequest hooks req.

(** ** Dispatch *)

Definition route (req : RequestContext) : gprog (option RouteEndpoint * RouteType) :=
  let total := totalWeight (routingConfigs (router gw)) in
  r ← (if bool_decide (routingPolicy (router gw) = RoutePolicyWeight) && bool_decide (0 < total) then perform (RandIntn total) else Ret 0);
  lift (Route (fun _ => r) (lr_Model (req_LLM req)) (router gw)).

Definition dispatchRequest (path : string) (req : RequestContext) : gprog RequestContext :=
  '(dst, rType) ← route req;
  match rType, dst with
  | RouteInternal, _ =>
      '(r, req) ← Get (balancer gw) req;
      match r with
      | GErr e => req ← fallback_or path req e; _ ← perform CloseChan; Ret req
      | GOk res => internalRouteRequest path (set_sched_results res req)
      end
  | RouteExternal, Some dst => externalRouteRequest path dst req
  | RouteExternal, None => Panic
  | RouteUnknown, _ => unknownRouteRequest path req
  end.
End handling.

(** The request context of a new request ([HandleOpenAIRequest]). *)
Definition new_request (header_id uuid : string) (now : Z) : RequestContext :=
  upd_sched (fun s => mkSchedulingContext (SchedulingResults s) (schedulingMode (config gw)) SchedulingStagePrefill (sx_GatewayId s) (NotNeedScheduling s))
    (NewRequestContext header_id uuid now).
End gateway.

(** ** Writing to the client *)

Definition StatusOK : Z := 200.
Definition StatusBadRequest : Z := 400.

(** The text of an error, where the modelled code prints it. *)
Class ErrorText := { Error : gerror -> string }.

Section writer.
Context `{ErrorText}.

(** The JSON text of an error. *)
Definition quoted (s : string) : string := String "034" (s +:+ String "034" "").
Definition json_error (code : Z) (message : string) : string :=
  "{" +:+ quoted "error" +:+ ": {" +:+ quoted "code" +:+ ": " +:+ Itoa code +:+ ", " +:+ quoted "message" +:+ ": " +:+ quoted message +:+ "}}".

(** [convertErrorResponse] of an error. No code of the repository makes the error
    [ErrorBackendBadRequest], whose branch decodes the message. *)
Definition convertErrorResponse (e : gerror) : Z * string :=
  match as_upstream e with
  | Some (c, b) => (c, b)
  | None =>
      if bool_decide (e = Sentinel ErrorNoAvailableEndpoint) then (503, json_error 503 "no available inference worker")
      else if bool_decide (e = Sentinel ErrorEndpointNotFound) then (404, json_error 404 "no inference instance found")
      else if bool_decide (e = Sentinel ErrorRateLimitExceeded) then (429, json_error 429 "rate limit exceeded")
      else (StatusBadRequest, Error e)
  end.

(** What the client receives: status lines, and bodies. *)
Inductive client_event := Status (code : Z) | Body (p : payload) | ErrorBody (s : string).

Record HttpRequest := mkHttpRequest { StatusCode : Z; hr_HeaderResponded : bool }.

Definition writeResponse (m : ResponseMsg) : Z * list client_event :=
  match msg_Err m with
  | None => (StatusOK, [Status StatusOK; Body (msg_Message m)])
  | Some e => let '(code, body) := convertErrorResponse e in (code, [Status code; ErrorBody body])
  end.

(** The new status code, what is written, and whether to close the connection. *)
Definition writeStreamResponse (m : ResponseMsg) (h : HttpRequest) : Z * list client_event * bool :=
  match msg_Err m with
  | Some e =>
      if hr_HeaderResponded h then (StatusCode h, [], true)
      else let '(code, body) := convertErrorResponse e in (code, [Status code; ErrorBody body], true)
  | None => (if hr_HeaderResponded h then StatusCode h else StatusOK, (if hr_HeaderResponded h then [] else [Status StatusOK]) ++ [Body (msg_Message m)], false)
  end.

(** One turn of [writeResponseUntilDone] on a message; the boolean says whether it returns. *)
Definition write_message (stream : bool) (m : ResponseMsg) (h : HttpRequest) : HttpRequest * list client_event * bool :=
  if stream then let '(code, out, close) := writeStreamResponse m h in (mkHttpRequest code true, out, close)
  else let '(code, out) := writeResponse m in (mkHttpRequest code (hr_HeaderResponded h), out, true).

(** The turn on the closed channel, and the one on the end of the context. *)
Definition write_closed (h : HttpRequest) : list client_event := if hr_HeaderResponded h then [] else [Status StatusBadRequest].
Definition write_done (h : HttpRequest) : HttpRequest := mkHttpRequest 499 (hr_HeaderResponded h).
End writer.

(** ** An example

    A gateway in lite mode; its engine fails once with status 503 and then streams one
    chunk. JSON and tokens are read in the simplest way. *)

Definition example_sglang : Sglang := {|
  Encode s _ := Ok (repeat 0 (String.length s));
  Decode _ := Ok ""%string;
  PreProcessChatRequest s := Ok (repeat 0 (String.length s), Z.of_nat (String.length s));
  ModelMaxLen := 4096;
  NewToolParser _ := Ok tt;
  ParseStreamIncremental _ _ c _ := Ok (Some (mkToolResult c []));
  MarshalTools _ := Ok ""%string
|}.
Definition example_json : EngineJson := {|
  Unmarshal_completion s := Some (mkCompletionResponse "cmpl-1" "text_completion" 0 "m" [mkChoice s 0 ""] None None "")
|}.

Definition example_instance (name : string) : LLMInstance := mkLLMInstance 0 name "m" InferTypeNeutral (mkEndpoint name 8000) "" 0 0 1.

Definition example_world : Handler geff nat := fun X e n =>
  match e in geff X return X * nat with
  | RemoteReady | PostRelease _ _ => (true, n)
  | LocalEndpoint => ("gw:1"%string, n)
  | PostSchedule _ q =>
      (SchedulerResponse 200 (Some (mkSchedulingRequest (sr_Id q) (sr_Model q) "" "" "" 0 [] [example_instance (if bool_decide (n = 0)%nat then "a" else "b")])), n)
  | EngineDo _ _ => (if bool_decide (n = 0)%nat then EngineResponse 503 (calm_stream []) (GOk ""%string) else EngineResponse 200 (calm_stream ["hi"; "[DONE]"]%string) (GOk ""%string), S n)
  | e => (no_answer _ e, n)
  end.

Definition example_config : GatewayConfig := mkGatewayConfig 3 1 false "" false false.
Definition example_handler : OpenAIHandler := mkHandler (mkChunkProcessor "" "") NeutralForwarder.
Definition example_balancer : CompositeBalancer := mkComposite RemoteBalancer (mkClientConfig true 5000 1000) 7.
Definition example_gateway : LlmGatewayService :=
  mkGateway example_config example_handler (NewBalancer example_balancer) (mkRouter "" [] []) (NewRateLimitRetryQueue 8 1 3 100 1000) 3.

Definition example_completion (stream : bool) : RequestContext :=
  upd_llm (fun r => set_client_stream stream (mkLLMRequest "m" "" OpenAICompletion stream None None None
      (Some (mkCompletionRequest "r1" "" "m" (PromptUint32s [1; 2]) 0 None 1 0 None [] true None None 0 "" None "" "")) None None None None None None))
    (new_request example_gateway "r1" "" 0).

Definition example_program : gprog RequestContext :=
  dispatchRequest (SG := example_sglang) (EJ := example_json) example_gateway "/v1/completions" (example_completion false).
Definition example_log := run_log example_world example_program 0%nat.
Definition example_result : RequestContext := match (run example_world example_program 0%nat).1 with Done r => r | _ => example_completion false end.

Lemma example_done : (run example_world example_program 0%nat).1 = Done example_result.
Proof. vm_compute. reflexivity. Qed.
