(* ===== verification/ProcessorSpec.v ===== *)
(** * What the processors promise

    Every request that passes the request processor is one the engines accept: a streaming
    completion on token ids. A client that streams a chat and one that does not get the
    same text of the same engine output. *)

From Stdlib Require Import Ascii.
From stdpp Require Import base gmap list strings numbers.
From S2P Require Import Prelude GoStrings Types Programs GatewayErrors Reasoning LrsClient Protocol Processor GatewayEffects Forwarder Handler Gateway.

Local Open Scope Z_scope.

(** ** Prompts *)

Definition is_uint32 (z : Z) : Prop := 0 <= z < 2 ^ 32.

Definition prompt_ok (p : PromptValue) : Prop :=
  match p with
  | PromptUint32s l => Forall is_uint32 l
  | PromptMatrix l => Forall (Forall is_uint32) l
  | PromptNil | PromptString _ | PromptStrings _ => True
  end.

(** A prompt without text. *)
Definition on_tokens (p : PromptValue) : Prop :=
  match p with PromptString _ | PromptStrings _ => False | _ => prompt_ok p end.

Lemma as_uint32_ok j z : as_uint32 j = Some z -> is_uint32 z.
Proof. destruct j; cbn; try done; [intros [= <-]; by split|]. case_bool_decide; [by intros [= <-]|done]. Qed.

Lemma as_slice_ok {A} (f : json -> option A) (P : A -> Prop) j l :
  (forall j a, f j = Some a -> P a) -> as_slice f j = Some l -> Forall P l.
Proof.
  intros Hf. destruct j; cbn; try done; [intros [= <-]; constructor|]. revert l.
  rename l0 into js. induction js as [|j js IH]; cbn; intros l; [intros [= <-]; constructor|].
  destruct (f j) as [a|] eqn:E; cbn; [|done]. destruct (mapM f js) as [as_|] eqn:E2; cbn; [|done].
  intros [= <-]. constructor; [by eapply Hf|by apply IH].
Qed.

Lemma unmarshal_ok j p : PromptValue_UnmarshalJSON j = Ok p -> prompt_ok p.
Proof.
  unfold PromptValue_UnmarshalJSON. destruct j as [| | | |s|js|]; try discriminate; [by intros [= <-]|].
  destruct (as_slice as_uint32 _) as [l|] eqn:E; [intros [= <-]; by apply (as_slice_ok _ _ _ _ as_uint32_ok E)|].
  destruct (as_slice as_string _); [by intros [= <-]|].
  destruct (as_slice (as_slice _) _) as [l|] eqn:E2; [intros [= <-]|done].
  apply (as_slice_ok _ _ _ _ (fun j l => as_slice_ok _ _ j l as_uint32_ok) E2).
Qed.

Lemma mapM_marshal {A} (f : json -> option A) (g : A -> json) l : Forall (fun a => f (g a) = Some a) l -> mapM f (g <$> l) = Some l.
Proof. induction 1 as [|a l H _ IH]; cbn; [done|]. by rewrite H, IH. Qed.

Lemma uint32_marshal z : is_uint32 z -> as_uint32 (JInt z) = Some z.
Proof. unfold is_uint32. intros H. cbn. by rewrite bool_decide_eq_true_2. Qed.

(** A prompt survives the wire: what the gateway sends to an engine is read back as the same prompt, whatever its form; an empty array of texts or of
    prompts is the one form that is read as another. *)
Theorem prompt_roundtrip p :
  prompt_ok p -> p <> PromptNil -> p <> PromptStrings [] -> p <> PromptMatrix [] ->
  PromptValue_UnmarshalJSON (PromptValue_MarshalJSON p) = Ok p.
Proof.
  destruct p as [|s|l|l|l]; cbn [prompt_ok]; intros Hp Hn Hs Hm; [done|done|..]; cbn -[as_uint32].
  - destruct l as [|s l]; [done|]. cbn -[mapM fmap]. rewrite (mapM_marshal as_string JString (s :: l)); [done|]. by apply Forall_forall.
  - rewrite (mapM_marshal as_uint32 JInt l); [done|]. eapply Forall_impl; [exact uint32_marshal|done].
  - destruct l as [|s l]; [done|]. cbn -[mapM fmap].
    rewrite (mapM_marshal (as_slice as_uint32) (fun l => JArr (JInt <$> l)) (s :: l)); [done|].
    eapply Forall_impl; [|exact Hp]. intros a Ha. cbn. apply mapM_marshal. eapply Forall_impl; [exact uint32_marshal|done].
Qed.

(** ** Requests *)

(** What the tokenizer and the JSON decoder return, by their types. *)
Class TypedSglang `{SG : Sglang} := {
  Encode_uint32 : forall s b ids, Encode s b = Ok ids -> Forall is_uint32 ids;
  PreProcessChatRequest_uint32 : forall s ids n, PreProcessChatRequest s = Ok (ids, n) -> Forall is_uint32 ids
}.
Class TypedJson `{RJ : RequestJson} :=
  Unmarshal_prompt : forall data c, Unmarshal_completion_request data = Some c ->
    cr_Prompt c = PromptNil \/ exists j, PromptValue_UnmarshalJSON j = Ok (cr_Prompt c).

(** A request that an engine can be sent. *)
Definition engine_request (req : RequestContext) : Prop :=
  exists c, lr_CompletionRequest (req_LLM req) = Some c /\ cr_Id c = req_Id req /\ cr_Stream c = true /\ on_tokens (cr_Prompt c) /\
    0 <= InputTokensLen (req_Stats req) < 2 ^ 64.

Lemma uint64_range z : 0 <= uint64 z < 2 ^ 64.
Proof. unfold uint64. by apply Z.mod_pos_bound. Qed.

Section typed.
Context `{SG : Sglang, RJ : RequestJson, TS : !TypedSglang, TJ : !TypedJson}.

Lemma encode_all_ok prompts s r s' :
  0 <= InputTokensLen s < 2 ^ 64 -> encode_all prompts s = (r, s') ->
  0 <= InputTokensLen s' < 2 ^ 64 /\ (forall l, r = Some l -> Forall (Forall is_uint32) l).
Proof.
  revert s r. induction prompts as [|p prompts IH]; intros s r Hs; cbn [encode_all]; [intros [= <- <-]; split; [done|intros l [= <-]; constructor]|].
  destruct (Encode p true) as [ids|] eqn:E; [|intros [= <- <-]; by split].
  destruct (encode_all prompts _) as [r1 s1] eqn:E1. intros [= <- <-].
  apply IH in E1 as [H1 H2]; [|apply uint64_range]. split; [done|]. destruct r1 as [l1|]; cbn; [|done].
  intros l [= <-]. constructor; [by eapply Encode_uint32|by apply H2].
Qed.

Lemma completion_ok c req req' :
  prompt_ok (cr_Prompt c) -> 0 <= InputTokensLen (req_Stats req) < 2 ^ 64 -> PreProcess_completion c req = (req', None) -> engine_request req'.
Proof.
  intros Hc Hs. unfold PreProcess_completion. cbn [set_stream_id cr_Prompt].
  assert (forall p, cr_Prompt (set_prompt p (set_stream_id (req_Id req) c)) = p) as Hp by done.
  destruct (cr_Prompt c) as [|s|l|l|l] eqn:E; cbn in Hc.
  - intros [= <-]. eexists. repeat split; try done; cbn; [by rewrite E|lia..].
  - destruct (Encode s true) as [ids|] eqn:Ee; [|done]. intros [= <-]. eexists. repeat split; try done; [by eapply Encode_uint32|apply uint64_range..].
  - destruct (encode_all l _) as [[ids|] s'] eqn:Ee; [|done]. intros [= <-]. apply encode_all_ok in Ee as [H1 H2]; [|done].
    eexists. repeat split; try done; [by apply H2|cbn; lia..].
  - intros [= <-]. eexists. repeat split; try done; [cbn; by rewrite E|apply uint64_range..].
  - intros [= <-]. eexists. repeat split; try done; cbn; [by rewrite E|lia..].
Qed.

Lemma chat_ok c req req' : PreProcess_chat c req = (req', None) -> engine_request req'.
Proof.
  unfold PreProcess_chat. destruct (PreProcessChatRequest _) as [[ids n]|] eqn:E; [|done]. cbn. intros [= <-].
  eexists. repeat split; try done; [by eapply PreProcessChatRequest_uint32|apply uint64_range..].
Qed.

Lemma unmarshal_typed path body req req' :
  UnmarshalRequest path body req = (req', None) ->
  req_Stats req' = req_Stats req /\
  ((Protocol (req_LLM req') = OpenAIChatCompletion /\ exists c, lr_ChatRequest (req_LLM req') = Some c) \/
   (Protocol (req_LLM req') = OpenAICompletion /\ exists c, lr_CompletionRequest (req_LLM req') = Some c /\ prompt_ok (cr_Prompt c))).
Proof.
  unfold UnmarshalRequest. destruct body as [data|]; [|done].
  destruct (IsChatCompletionsURL path); [destruct (Unmarshal_chat_request data) as [c|]; [|done]; intros [= <-]; split; [done|]; left; eauto|].
  destruct (IsCompletionsURL path); [|done]. destruct (Unmarshal_completion_request data) as [c|] eqn:E; [|done].
  intros [= <-]. split; [done|]. right. split; [done|]. exists c. split; [done|].
  destruct (Unmarshal_prompt _ _ E) as [-> | [j Hj]]; [done|by eapply unmarshal_ok].
Qed.

(** C30. Parsing a request never dereferences nil and, when it accepts the request, leaves a
    streaming completion request with the request's own id, with a prompt that is 32-bit token ids
    or missing but never text, and with a 64-bit token count. *)
Theorem parsed_request_typed path body req :
  0 <= InputTokensLen (req_Stats req) < 2 ^ 64 ->
  exists req' err, ParseRequest path body req = Some (req', err) /\ (err = None -> engine_request req').
Proof.
  intros Hs. unfold ParseRequest. destruct (UnmarshalRequest path body req) as [req1 [e|]] eqn:E; [by exists req1, (Some e)|].
  apply unmarshal_typed in E as [Hst [[Hp [c Hc]] | [Hp (c & Hc & Hok)]]]; cbn; unfold PreProcess; rewrite Hp, Hc; cbn.
  - destruct (PreProcess_chat c req1) as [req2 [e|]] eqn:E2; [by exists req2, (Some e)|]. exists req2, None. split; [done|]. intros _. by eapply chat_ok.
  - destruct (PreProcess_completion c req1) as [req2 [e|]] eqn:E2; [by exists req2, (Some e)|]. exists req2, None. split; [done|]. intros _.
    eapply completion_ok; [exact Hok|by rewrite Hst|done].
Qed.
End typed.

(** ** Streamed and buffered chats *)

Section chat.
Context `{SG : Sglang} (rp : ResponseChunkProcessor).

(** One turn of the handler on a response chunk: what it writes, and the request after it.
    [None] is an error or a panic. *)
Definition turn (done : bool) (req : RequestContext) : option (list payload * RequestContext) :=
  r ← PostProcess rp done req;
  match r with
  | (_, Some _) => None
  | (req, None) => match marshalResponse req with (req, GOk p) => Some (option_list p, req) | (_, GErr _) => None end
  end.

Fixpoint turns (cs : list CompletionResponse) (req : RequestContext) : option (list payload * RequestContext) :=
  match cs with
  | [] => Some ([], req)
  | c :: cs =>
      '(out, req) ← turn false (upd_llm (set_cmpl_response (Some c)) req);
      '(outs, req) ← turns cs req; Some (out ++ outs, req)
  end.

(** The deltas of a stream put together. *)
Definition deltas (p : payload) : list ChatCompletionStreamChoice := match p with PChatStream s => st_Choices s | _ => [] end.
Definition streamed_content (outs : list payload) : string := concat_text (sc_Content <$> (outs ≫= deltas)).
Definition streamed_reasoning (outs : list payload) : string := concat_text (sc_ReasoningContent <$> (outs ≫= deltas)).
Definition merged_calls (calls : list ToolCall) (outs : list payload) : list ToolCall :=
  fold_left (fun calls d => mergeToolCalls calls (sc_ToolCalls d)) (outs ≫= deltas) calls.

(** The calls that a client makes of the deltas: a delta with a name begins a call, and the
    arguments of the deltas after it, up to the next name, are appended to its own. *)
Definition with_arguments (args : string) (t : ToolCall) : ToolCall := mkToolCall (tc_Index t) (tc_ID t) (tc_Type t) (tc_Name t) (tc_Arguments t +:+ args).
Fixpoint assemble (current : option ToolCall) (ds : list ToolCall) : list ToolCall :=
  match ds with
  | [] => option_list current
  | d :: ds =>
      if bool_decide (tc_Name d <> "") then option_list current ++ assemble (Some d) ds
      else assemble (with_arguments (tc_Arguments d) <$> current) ds
  end.
Definition streamed_calls (outs : list payload) : list ToolCall := assemble None ((outs ≫= deltas) ≫= sc_ToolCalls).

(** A delta brings the name of a call or arguments, not both. *)
Definition split_delta (d : ToolCall) : Prop := tc_Name d = ""%string \/ tc_Arguments d = ""%string.

Definition without_arguments (t : ToolCall) : option Z * string * string * string := (tc_Index t, tc_ID t, tc_Type t, tc_Name t).

(** What the parsers of a request see. *)
Definition same_view (r1 r2 : RequestContext) : Prop :=
  lr_ReasoningParser (req_LLM r1) = lr_ReasoningParser (req_LLM r2) /\ lr_ToolParser (req_LLM r1) = lr_ToolParser (req_LLM r2) /\
  lr_ChatRequest (req_LLM r1) = lr_ChatRequest (req_LLM r2) /\ lr_CompletionResponse (req_LLM r1) = lr_CompletionResponse (req_LLM r2) /\
  InputTokensLen (req_Stats r1) = InputTokensLen (req_Stats r2) /\ OutputTokensLen (req_Stats r1) = OutputTokensLen (req_Stats r2) /\
  ReasoningTokensLen (req_Stats r1) = ReasoningTokensLen (req_Stats r2).

(** What the parsers leave alone. *)
Definition same_rest (r1 r2 : RequestContext) : Prop :=
  Protocol (req_LLM r1) = Protocol (req_LLM r2) /\ ClientStream (req_LLM r1) = ClientStream (req_LLM r2) /\
  lr_ChatResponse (req_LLM r1) = lr_ChatResponse (req_LLM r2) /\ lr_ChatStreamResponse (req_LLM r1) = lr_ChatStreamResponse (req_LLM r2) /\
  lr_CompletionResponse (req_LLM r1) = lr_CompletionResponse (req_LLM r2) /\ BufferChatResp (req_LLM r1) = BufferChatResp (req_LLM r2).

Ltac same := unfold same_view, same_rest in *; cbn in *; intuition congruence.

Lemma set_parsers_view s b s1 :
  same_view s b -> trySetParser rp s = (s1, None) ->
  exists b1, trySetParser rp b = (b1, None) /\ same_view s1 b1 /\ same_rest s s1 /\ same_rest b b1.
Proof.
  intros Hv. unfold trySetParser. assert (lr_ReasoningParser (req_LLM s) = lr_ReasoningParser (req_LLM b)) as <- by same.
  destruct (lr_ReasoningParser (req_LLM s)); [intros [= <-]; exists b; by same|].
  destruct (NewReasoningParser _ _ _) as [p|]; [|done]. intros [= <-]. eexists. split; [done|]. same.
Qed.

Lemma set_tools_view s b s1 :
  same_view s b -> trySetToolParser rp s = (s1, None) ->
  exists b1, trySetToolParser rp b = (b1, None) /\ same_view s1 b1 /\ same_rest s s1 /\ same_rest b b1.
Proof.
  intros Hv. unfold trySetToolParser. assert (lr_ToolParser (req_LLM s) = lr_ToolParser (req_LLM b)) as <- by same.
  destruct (lr_ToolParser (req_LLM s)); [intros [= <-]; exists b; by same|].
  destruct (NewToolParser _) as [p|]; [|done]. intros [= <-]. eexists. split; [done|]. same.
Qed.

Lemma parse_view s b choice s1 x :
  same_view s b -> parse_choice rp true choice s = Some (s1, GOk x) ->
  exists b1, parse_choice rp false choice b = Some (b1, GOk x) /\ same_view s1 b1 /\ same_rest s s1 /\ same_rest b b1.
Proof.
  intros Hv. unfold parse_choice. case_bool_decide; [|intros [= <- <-]; exists b; by same].
  unfold parse_text. assert (lr_ReasoningParser (req_LLM s) = lr_ReasoningParser (req_LLM b)) as <- by same.
  destruct (lr_ReasoningParser (req_LLM s)) as [d|]; cbn -[ParseStreamChunk getToolString]; [|done].
  destruct (ParseStreamChunk _ d) as [[reasoning content] d1].
  assert (forall f, getToolString (set_parsers (Some f) (lr_ToolParser (req_LLM s)) (req_LLM s)) = getToolString (set_parsers (Some f) (lr_ToolParser (req_LLM b)) (req_LLM b))) as Ht.
  { intros f. unfold getToolString. cbn. by replace (lr_ChatRequest (req_LLM b)) with (lr_ChatRequest (req_LLM s)) by same. }
  cbn -[getToolString]. rewrite Ht. assert (lr_ToolParser (req_LLM s) = lr_ToolParser (req_LLM b)) as <- by same.
  destruct (lr_ToolParser (req_LLM s)) as [hist|]; [|intros [= <- <-]; eexists; split; [done|]; same].
  destruct (bool_decide (content <> "")); [|intros [= <- <-]; eexists; split; [done|]; same].
  destruct (ParseStreamIncremental _ _ _ _) as [[r|]|]; [|done..]. intros [= <- <-]. eexists. split; [done|]. same.
Qed.

(** The text that is buffered for the response. *)
Definition buffered (req : RequestContext) : string * string * list ToolCall :=
  match BufferChatResp (req_LLM req) with Some r => (cp_Content r, cp_ReasoningContent r, cp_ToolCalls r) | None => ("", "", [])%string end.
Definition extend (b : string * string * list ToolCall) (outs : list payload) : string * string * list ToolCall :=
  (b.1.1 +:+ streamed_content outs, b.1.2 +:+ streamed_reasoning outs, merged_calls b.2 outs).

(** A streamed chat next to a buffered one. *)
Definition twins (s b : RequestContext) : Prop :=
  same_view s b /\ Protocol (req_LLM s) = OpenAIChatCompletion /\ Protocol (req_LLM b) = OpenAIChatCompletion /\
  ClientStream (req_LLM s) = true /\ ClientStream (req_LLM b) = false /\
  lr_ChatStreamResponse (req_LLM s) = None /\ lr_ChatResponse (req_LLM b) = None.

Lemma extend_nil b : extend b [] = b.
Proof. destruct b as [[c r] t]. unfold extend, streamed_content, streamed_reasoning, merged_calls. cbn. by rewrite !sapp_nil_r. Qed.

Lemma extend_app b o1 o2 : extend b (o1 ++ o2) = extend (extend b o1) o2.
Proof.
  destruct b as [[c r] t]. unfold extend, streamed_content, streamed_reasoning, merged_calls. cbn.
  by rewrite !bind_app, !fmap_app, !concat_text_app, !sapp_assoc, fold_left_app.
Qed.

Lemma append_extend r reasoning pr finish u cmpl choice usage :
  sc_Content choice = NormalText pr -> sc_ReasoningContent choice = reasoning -> sc_ToolCalls choice = ToolCalls pr ->
  let r' := append_chat r reasoning pr finish u in
  (cp_Content r', cp_ReasoningContent r', cp_ToolCalls r') = extend (cp_Content r, cp_ReasoningContent r, cp_ToolCalls r) [PChatStream (stream_response cmpl choice usage)].
Proof.
  intros H1 H2 H3. unfold extend, streamed_content, streamed_reasoning, merged_calls. cbn. rewrite H1, H2, H3, !sapp_nil_r.
  case_bool_decide as Ht; [done|]. by destruct (ToolCalls pr).
Qed.

(** The processing of a chunk that both clients get. *)
Lemma chunk_twins s b out s1 c :
  twins s b -> lr_CompletionResponse (req_LLM s) = Some c -> ChatCompletionStreamProcess rp false s = Some (s1, None) ->
  exists b1, ChatCompletionProcess rp false b = Some (b1, None) /\ same_view s1 b1 /\ Protocol (req_LLM s1) = OpenAIChatCompletion /\ Protocol (req_LLM b1) = OpenAIChatCompletion /\
    ClientStream (req_LLM s1) = true /\ ClientStream (req_LLM b1) = false /\ lr_ChatResponse (req_LLM b1) = None /\ lr_CompletionResponse (req_LLM b1) = Some c /\
    (out = option_list (PChatStream <$> lr_ChatStreamResponse (req_LLM s1)) -> buffered b1 = extend (buffered b) out /\ BufferChatResp (req_LLM b1) <> None).
Proof.
  intros (Hv & Hs & Hb & Hcs & Hcb & Hns & Hnb) Hc. unfold ChatCompletionStreamProcess, ChatCompletionProcess. rewrite Hc. cbn -[parse_choice getTokenLen].
  replace (lr_CompletionResponse (req_LLM b)) with (Some c) by same. cbn -[parse_choice getTokenLen].
  set (b0 := default (new_chat_buffer c) (BufferChatResp (req_LLM b))).
  assert (buffered b = (cp_Content b0, cp_ReasoningContent b0, cp_ToolCalls b0)) as Hb0 by (unfold buffered, b0; by destruct (BufferChatResp _)).
  destruct (rs_Choices c) as [|choice cs].
  { intros [= <-]. eexists. split; [done|]. rewrite Hns. cbn. do 7 (split; [same|]). intros ->. rewrite extend_nil, Hb0. done. }
  destruct (parse_choice rp true choice _) as [[s2 [[reasoning pr]|]]|] eqn:Ep; cbn -[parse_choice getTokenLen]; [|done..].
  set (b2 := upd_stats (add_output_tokens (getTokenLen (ch_Text choice))) (upd_llm (set_chat_buffer b0) b)).
  assert (same_view (upd_stats (add_output_tokens (getTokenLen (ch_Text choice))) s) b2) as Hv1 by (unfold b2; same).
  destruct (parse_view _ _ _ _ _ Hv1 Ep) as (b3 & -> & Hv2 & Hr & Hr2). cbn -[getTokenLen].
  assert (BufferChatResp (req_LLM b3) = Some b0) as Hb3 by (unfold b2 in Hr2; same).
  unfold b2 in Hr2. destruct (buffering choice reasoning pr).
  - intros [= <-]. exists b3. do 8 (split; [same|]). replace (lr_ChatStreamResponse (req_LLM s2)) with (@None ChatCompletionStreamResponse) by same.
    intros ->. unfold buffered. cbn. rewrite Hb3, extend_nil. fold (buffered b). by rewrite Hb0.
  - intros [= <-]. eexists. split; [done|]. unfold chat_stream_chunk. set (split := bool_decide (ch_FinishReason choice <> "") && _).
    do 7 (split; [destruct (bool_decide (ToolCalls pr <> [])), split; same|]).
    destruct split; cbn -[append_chat]; intros ->; (split; [|done]); rewrite Hb0; by apply append_extend.
Qed.

Lemma parsers_twins s b s1 s2 :
  twins s b -> trySetParser rp s = (s1, None) -> trySetToolParser rp s1 = (s2, None) ->
  exists b1 b2, trySetParser rp b = (b1, None) /\ trySetToolParser rp b1 = (b2, None) /\ twins s2 b2 /\
    lr_CompletionResponse (req_LLM s2) = lr_CompletionResponse (req_LLM s) /\ buffered b2 = buffered b.
Proof.
  unfold twins. intros (Hv & Ht) H1 H2. destruct (set_parsers_view _ _ _ Hv H1) as (b1 & E1 & Hv1 & Hs1 & Hb1).
  destruct (set_tools_view _ _ _ Hv1 H2) as (b2 & E2 & Hv2 & Hs2 & Hb2). exists b1, b2.
  split; [done|]. split; [done|]. split; [same|]. split; [same|]. unfold buffered. by replace (BufferChatResp (req_LLM b2)) with (BufferChatResp (req_LLM b)) by same.
Qed.

(** A request whose parsers are there and whose last chunk was processed. *)
Definition parsed (req : RequestContext) : Prop := lr_ReasoningParser (req_LLM req) <> None /\ lr_ToolParser (req_LLM req) <> None.
Definition ready (req : RequestContext) : Prop :=
  parsed req /\ exists c, lr_CompletionResponse (req_LLM req) = Some c /\ (length (rs_Choices c) <= 1)%nat.

Lemma try_parsed b b1 b2 : trySetParser rp b = (b1, None) -> trySetToolParser rp b1 = (b2, None) -> parsed b2.
Proof.
  unfold trySetParser, trySetToolParser, parsed. intros H1.
  assert (lr_ReasoningParser (req_LLM b1) <> None) as Hr.
  { destruct (lr_ReasoningParser (req_LLM b)) eqn:E; [injection H1 as <-; by rewrite E|]. destruct (NewReasoningParser _ _ _); [|done]. by injection H1 as <-. }
  destruct (lr_ToolParser (req_LLM b1)) eqn:E; [intros [= <-]; by rewrite E|]. destruct (NewToolParser _); [|done]. by intros [= <-].
Qed.

Lemma choice_parsed strict choice b b1 x : parsed b -> parse_choice rp strict choice b = Some (b1, x) -> parsed b1.
Proof.
  unfold parse_choice, parse_text, parsed. intros [H1 H2]. case_bool_decide; [|by intros [= <- <-]].
  destruct (lr_ReasoningParser (req_LLM b)); [|done]. cbn -[ParseStreamChunk getToolString]. destruct (ParseStreamChunk _ _) as [[reasoning content] d1].
  cbn -[getToolString]. destruct (lr_ToolParser (req_LLM b)) eqn:Et; [|done]. destruct (bool_decide _); [|intros [= <- <-]; cbn; by rewrite Et].
  destruct (ParseStreamIncremental _ _ _ _) as [[r|]|]; [by intros [= <- <-]| |by intros [= <- <-]]. destruct strict; [by intros [= <- <-]|done].
Qed.

Lemma process_parsed b b1 e : parsed b -> ChatCompletionProcess rp false b = Some (b1, e) -> parsed b1.
Proof.
  intros Hp. unfold ChatCompletionProcess. destruct (lr_CompletionResponse _) as [c|]; cbn -[parse_choice getTokenLen]; [|done].
  destruct (rs_Choices c) as [|choice cs]; [by intros [= <- <-]|].
  destruct (parse_choice _ _ _ _) as [[b2 [[reasoning pr]|]]|] eqn:E; cbn -[getTokenLen]; [|apply choice_parsed in E; [by intros [= <- <-]|done]|done].
  apply choice_parsed in E; [|done]. destruct (buffering _ _ _); by intros [= <- <-].
Qed.

(** The last turn hands out the buffer. *)
Lemma final_turn b r :
  Protocol (req_LLM b) = OpenAIChatCompletion -> ClientStream (req_LLM b) = false -> ready b -> BufferChatResp (req_LLM b) = Some r ->
  exists b', turn true b = Some ([PChat r], b').
Proof.
  intros Hp Hc [[H1 H2] (c & Hr & Hl)] Hb. unfold turn, PostProcess. rewrite Hp, Hc, Hr, bool_decide_eq_false_2 by lia.
  unfold trySetParser. destruct (lr_ReasoningParser (req_LLM b)); [|done]. unfold trySetToolParser. destruct (lr_ToolParser (req_LLM b)); [|done].
  unfold ChatCompletionProcess. cbn -[marshalResponse]. unfold marshalResponse. cbn. rewrite Hp, Hc, Hb. by eexists.
Qed.
Lemma turn_twins s b c out s' :
  twins s b -> lr_CompletionResponse (req_LLM s) = Some c -> turn false s = Some (out, s') ->
  exists b', turn false b = Some ([], b') /\ twins s' b' /\ buffered b' = extend (buffered b) out /\ BufferChatResp (req_LLM b') <> None /\ ready b'.
Proof.
  intros Ht Hc. pose proof Ht as (Hv & Hs & Hb & Hcs & Hcb & _). assert (lr_CompletionResponse (req_LLM b) = Some c) as Hc' by same.
  unfold turn, PostProcess. rewrite Hs, Hb, Hc, Hc', Hcs, Hcb. destruct (bool_decide (1 < _)%nat) eqn:Hl; [done|]. apply bool_decide_eq_false_1 in Hl.
  destruct (trySetParser rp s) as [s1 [e|]] eqn:E1; [done|]. destruct (trySetToolParser rp s1) as [s2 [e|]] eqn:E2; [done|].
  destruct (parsers_twins _ _ _ _ Ht E1 E2) as (b1 & b2 & Eb1 & Eb2 & Ht2 & Hc2 & Hb2). rewrite Eb1, Eb2. pose proof (try_parsed _ _ _ Eb1 Eb2) as Hp.
  destruct (ChatCompletionStreamProcess rp false s2) as [[s3 [e|]]|] eqn:E3; cbn -[ChatCompletionProcess marshalResponse]; [done| |done].
  destruct (chunk_twins s2 b2 out s3 c Ht2 ltac:(congruence) E3) as (b3 & E4 & H1 & H2 & H3 & H4 & H5 & H6 & H7 & H8).
  rewrite E4. apply process_parsed in E4; [|done].
  cbn -[marshalResponse]. unfold marshalResponse. rewrite H2, H3, H4, H5, H6. intros [= <- <-]. cbn. eexists. split; [done|].
  destruct (H8 eq_refl) as [H9 H10]. split; [unfold twins; same|]. split; [by rewrite <- Hb2|]. split; [done|].
  split; [done|]. exists c. split; [done|lia].
Qed.

Lemma turns_twins cs s b outs s' :
  twins s b -> turns cs s = Some (outs, s') ->
  exists b', turns cs b = Some ([], b') /\ twins s' b' /\ buffered b' = extend (buffered b) outs /\
    (cs <> [] -> BufferChatResp (req_LLM b') <> None /\ ready b').
Proof.
  revert s b outs. induction cs as [|c cs IH]; intros s b outs Ht; cbn [turns]; [intros [= <- <-]; exists b; by rewrite extend_nil|].
  assert (twins (upd_llm (set_cmpl_response (Some c)) s) (upd_llm (set_cmpl_response (Some c)) b)) as Ht0 by (clear IH; unfold twins in *; same).
  destruct (turn false (upd_llm (set_cmpl_response (Some c)) s)) as [[out s1]|] eqn:E; cbn; [|done].
  destruct (turns cs s1) as [[outs1 s2]|] eqn:E2; cbn; [|done]. intros [= <- <-].
  destruct (turn_twins _ (upd_llm (set_cmpl_response (Some c)) b) c _ _ Ht0 eq_refl E) as (b1 & -> & Ht1 & Hb1 & Hn1 & Hc1).
  destruct (IH _ _ _ Ht1 E2) as (b2 & Hb2 & Ht2 & Hx & Hn). cbn. rewrite Hb2. exists b2. split; [done|]. split; [done|].
  split; [by rewrite Hx, Hb1, extend_app|]. intros _. destruct cs; [|by apply Hn]. cbn in Hb2. by injection Hb2 as <-.
Qed.

Definition named (d : ToolCall) : bool := bool_decide (tc_Name d <> "").

Lemma add_arguments_last args pre t : add_arguments args (pre ++ [t]) = pre ++ [with_arguments args t].
Proof.
  unfold add_arguments. rewrite length_app. cbn [length]. replace (length pre + 1 - 1)%nat with (length pre + 0)%nat by lia.
  by rewrite alter_app_r.
Qed.

Lemma with_no_arguments t : with_arguments "" t = t.
Proof. destruct t. unfold with_arguments. cbn. by rewrite sapp_nil_r. Qed.

Lemma merged_flat outs : merged_calls [] outs = mergeToolCalls [] ((outs ≫= deltas) ≫= sc_ToolCalls).
Proof.
  unfold merged_calls. generalize (@nil ToolCall) as calls. induction (outs ≫= deltas) as [|d ds IH]; intros calls; cbn; [done|].
  rewrite IH. unfold mergeToolCalls. by rewrite fold_left_app.
Qed.

Lemma merge_cons calls d ds : mergeToolCalls calls (d :: ds) = mergeToolCalls (mergeToolCalls calls [d]) ds.
Proof. done. Qed.

Lemma merge_name calls d : tc_Name d <> ""%string -> tc_Arguments d = ""%string -> mergeToolCalls calls [d] = calls ++ [d].
Proof. intros Hn Ha. unfold mergeToolCalls. cbn [fold_left]. by rewrite Ha, (bool_decide_eq_true_2 _ Hn). Qed.

Lemma merge_arguments pre t d : tc_Name d = ""%string -> mergeToolCalls (pre ++ [t]) [d] = pre ++ [with_arguments (tc_Arguments d) t].
Proof.
  intros Hn. unfold mergeToolCalls. cbn [fold_left]. rewrite Hn, (bool_decide_eq_false_2 (""%string <> ""%string)) by tauto.
  destruct (decide (tc_Arguments d = ""%string)) as [Ha|Ha]; [by rewrite Ha, with_no_arguments|].
  rewrite !bool_decide_eq_true_2; [apply add_arguments_last|rewrite length_app; cbn; lia|done].
Qed.

Lemma merge_stray d : tc_Name d = ""%string -> mergeToolCalls [] [d] = [].
Proof. intros Hn. unfold mergeToolCalls. cbn [fold_left]. rewrite Hn. by destruct (bool_decide _). Qed.

(** The code's merge is the client's assembly of split deltas. *)
Lemma merge_assemble ds : forall pre current,
  Forall split_delta ds -> (current = None -> pre = []) -> mergeToolCalls (pre ++ option_list current) ds = pre ++ assemble current ds.
Proof.
  induction ds as [|d ds IH]; intros pre current Hs Hc; [done|]. apply Forall_cons_iff in Hs as [Hd Hs].
  rewrite merge_cons. cbn [assemble]. case_bool_decide as Hn.
  - destruct Hd as [?|Ha]; [done|]. rewrite (merge_name _ _ Hn Ha), app_assoc. by apply (IH (pre ++ option_list current) (Some d) Hs).
  - destruct current as [t|]; cbn [option_list fmap option_fmap option_map].
    + change (option_list (Some t)) with [t]. rewrite merge_arguments by done. by apply (IH pre (Some _) Hs).
    + rewrite (Hc eq_refl). change (option_list (@None ToolCall)) with (@nil ToolCall); cbn [app]. rewrite merge_stray by done. by apply (IH [] None Hs).
Qed.

(** Both begin the same calls, whatever the deltas bring. *)
Lemma assemble_calls ds : forall current,
  without_arguments <$> assemble current ds = (without_arguments <$> option_list current) ++ (without_arguments <$> filter named ds).
Proof.
  induction ds as [|d ds IH]; intros current; cbn [assemble]; [by rewrite app_nil_r|].
  rewrite list.filter_cons. change (bool_decide (tc_Name d <> ""%string)) with (named d). destruct (named d); cbn [Is_true].
  - rewrite decide_True by done. by rewrite fmap_app, IH.
  - rewrite decide_False by (by intros []). rewrite IH. by destruct current.
Qed.

Lemma add_arguments_keeps args calls : without_arguments <$> add_arguments args calls = without_arguments <$> calls.
Proof. destruct calls as [|t pre _] using rev_ind; [done|]. by rewrite add_arguments_last, !fmap_app. Qed.

Lemma merge_keeps_calls ds : forall calls,
  without_arguments <$> mergeToolCalls calls ds = (without_arguments <$> calls) ++ (without_arguments <$> filter named ds).
Proof.
  induction ds as [|d ds IH]; intros calls; [cbn; by rewrite app_nil_r|].
  rewrite merge_cons, IH, list.filter_cons. unfold mergeToolCalls at 1. cbn [fold_left].
  transitivity ((without_arguments <$> (if named d then calls ++ [d] else calls)) ++ (without_arguments <$> filter named ds)).
  - f_equal. unfold named. case_match; [apply add_arguments_keeps|done].
  - destruct (named d); [rewrite decide_True by done|rewrite decide_False by (by intros []); done]. by rewrite fmap_app, <- app_assoc.
Qed.

(** A delta that brings a name and arguments at once gets its arguments twice. *)
Theorem merged_arguments_twice calls d :
  tc_Name d <> ""%string -> tc_Arguments d <> ""%string -> mergeToolCalls calls [d] = calls ++ [with_arguments (tc_Arguments d) d].
Proof.
  intros Hn Ha. unfold mergeToolCalls. cbn [fold_left]. rewrite (bool_decide_eq_true_2 _ Hn), (bool_decide_eq_true_2 _ Ha).
  rewrite bool_decide_eq_true_2 by (rewrite length_app; cbn; lia). apply add_arguments_last.
Qed.

(** C24. Streaming does not change an answer: when the engine's chunks are processed for a client that streams a chat, the same chunks of the same request
    without streaming give exactly one response at the end. Its text and its reasoning are the streamed deltas put together and the tokens that are counted
    are the same; its tool calls are those that the deltas begin, and their arguments too are what a client puts together of the deltas when no delta
    brings a name and arguments at once. *)
Theorem stream_matches_buffered cs s outs s' :
  cs <> [] -> Protocol (req_LLM s) = OpenAIChatCompletion -> ClientStream (req_LLM s) = true ->
  lr_ChatStreamResponse (req_LLM s) = None -> lr_ChatResponse (req_LLM s) = None -> BufferChatResp (req_LLM s) = None ->
  turns cs s = Some (outs, s') ->
  exists b' r b'', turns cs (upd_llm (set_client_stream false) s) = Some ([], b') /\ turn true b' = Some ([PChat r], b'') /\
    cp_Content r = streamed_content outs /\ cp_ReasoningContent r = streamed_reasoning outs /\
    without_arguments <$> cp_ToolCalls r = without_arguments <$> streamed_calls outs /\
    (Forall split_delta ((outs ≫= deltas) ≫= sc_ToolCalls) -> cp_ToolCalls r = streamed_calls outs) /\
    OutputTokensLen (req_Stats b') = OutputTokensLen (req_Stats s') /\ ReasoningTokensLen (req_Stats b') = ReasoningTokensLen (req_Stats s').
Proof.
  intros Hcs Hp Hc Hn1 Hn2 Hn3 E. set (b := upd_llm (set_client_stream false) s).
  assert (twins s b) as Ht by (unfold twins, b; same). destruct (turns_twins _ _ _ _ _ Ht E) as (b' & Eb & (Hv & Ht') & Hx & Hr).
  destruct (Hr Hcs) as [Hb Hready]. destruct (BufferChatResp (req_LLM b')) as [r|] eqn:Er; [|done].
  destruct (final_turn b' r) as [b'' Eb'']; [same..|done|done|]. exists b', r, b''. split; [done|]. split; [done|].
  unfold buffered in Hx at 1. rewrite Er in Hx. unfold buffered, b in Hx. cbn in Hx. rewrite Hn3 in Hx. unfold extend in Hx. cbn in Hx. injection Hx as H1 H2 H3.
  rewrite sapp_nil_l in H1. rewrite sapp_nil_l in H2. rewrite merged_flat in H3. do 2 (split; [done|]).
  split; [rewrite H3; unfold streamed_calls; by rewrite merge_keeps_calls, assemble_calls|].
  split; [intros Hd; rewrite H3; exact (merge_assemble _ [] None Hd (fun _ => eq_refl))|]. same.
Qed.

End chat.

(** ** Examples *)

Definition example_requests : RequestJson := {|
  Unmarshal_chat_request d := Some (mkChatRequest "m" 0 None 0 1 true [] 0 None 0 "" []);
  Unmarshal_completion_request d := Some (mkCompletionRequest "" "" "m" (PromptString d) 0 None 1 0 None [] false None None 0 "" None "" "")
|}.

Definition example_typed_sglang : @TypedSglang example_sglang.
Proof.
  split; cbn; [intros s b ids [= <-]|intros s ids n [= <- _]]; apply Forall_forall; intros z Hz; apply repeat_spec in Hz; subst; by split.
Defined.
Definition example_typed_json : @TypedJson example_requests.
Proof. intros d c [= <-]. right. exists (JString d). reflexivity. Defined.

Lemma prompt_roundtrip_witness :
  PromptValue_UnmarshalJSON (JArr [JArr [JInt 1; JInt 2]; JArr [JInt 3]]) = Ok (PromptMatrix [[1; 2]; [3]]).
Proof. apply (prompt_roundtrip (PromptMatrix [[1; 2]; [3]])); [|discriminate..]. repeat constructor; lia. Defined.

Lemma parsed_request_typed_witness :
  exists req' err, @ParseRequest example_sglang example_requests "/v1/completions" (Some "hello"%string) (new_request example_gateway "r1" "" 0) = Some (req', err) /\
    (err = None -> engine_request req').
Proof.
  apply (parsed_request_typed (SG := example_sglang) (RJ := example_requests) (TS := example_typed_sglang) (TJ := example_typed_json)). cbn. lia.
Defined.

Definition example_chunk (text finish : string) : CompletionResponse :=
  mkCompletionResponse "cmpl-1" "text_completion" 0 "m" [mkChoice text 0 finish] None None "".
Definition example_chunks : list CompletionResponse :=
  [example_chunk "<think>hm" ""; example_chunk "</think>4" ""; example_chunk "2" ""; example_chunk "call" ""; example_chunk "{}" ""; example_chunk "" "tool_calls"].
(** A tool parser that takes one text for the beginning of a call and one for its arguments. *)
Definition example_tool_parser : Sglang := {|
  Encode s _ := Ok (repeat 0 (String.length s));
  Decode _ := Ok ""%string;
  PreProcessChatRequest s := Ok (repeat 0 (String.length s), Z.of_nat (String.length s));
  ModelMaxLen := 4096;
  NewToolParser _ := Ok tt;
  ParseStreamIncremental _ _ c _ :=
    Ok (Some (if bool_decide (c = "call") then mkToolResult "" [mkToolCall (Some 0) "call-1" "function" "f" ""]
              else if bool_decide (c = "{}") then mkToolResult "" [mkToolCall (Some 0) "" "" "" "{}"] else mkToolResult c []));
  MarshalTools _ := Ok ""%string
|}.
Definition example_chat_request : RequestContext :=
  upd_llm (fun r => set_client_stream true r) (new_request example_gateway "r1" "" 0).
Definition example_streamed : list payload * RequestContext :=
  default ([], example_chat_request) (turns (SG := example_tool_parser) (mkChunkProcessor "qwen3" "") example_chunks example_chat_request).

Lemma stream_matches_buffered_witness :
  streamed_content example_streamed.1 = "42"%string /\ streamed_calls example_streamed.1 = [mkToolCall (Some 0) "call-1" "function" "f" "{}"] /\
  exists b' r b'', turns (SG := example_tool_parser) (mkChunkProcessor "qwen3" "") example_chunks (upd_llm (set_client_stream false) example_chat_request) = Some ([], b') /\
    turn (SG := example_tool_parser) (mkChunkProcessor "qwen3" "") true b' = Some ([PChat r], b'') /\
    cp_Content r = streamed_content example_streamed.1 /\ cp_ReasoningContent r = streamed_reasoning example_streamed.1 /\
    without_arguments <$> cp_ToolCalls r = without_arguments <$> streamed_calls example_streamed.1 /\
    (Forall split_delta ((example_streamed.1 ≫= deltas) ≫= sc_ToolCalls) -> cp_ToolCalls r = streamed_calls example_streamed.1) /\
    OutputTokensLen (req_Stats b') = OutputTokensLen (req_Stats example_streamed.2) /\
    ReasoningTokensLen (req_Stats b') = ReasoningTokensLen (req_Stats example_streamed.2).
Proof.
  split; [vm_compute; reflexivity|]. split; [vm_compute; reflexivity|].
  apply (stream_matches_buffered (SG := example_tool_parser) (mkChunkProcessor "qwen3" "") example_chunks example_chat_request _ _);
    [discriminate|reflexivity|reflexivity|reflexivity|reflexivity|reflexivity|vm_compute; reflexivity].
Defined.
