(* ===== verification/GatewaySpec.v ===== *)
(** * What the gateway does to a request

    Theorems about every run of [dispatchRequest], for all answers of the engines, the
    scheduler, external services, the context and the clock: how the response channel is
    used, how often engines are called, and which scheduled instances are released. The
    balancer is any balancer that keeps the laws of its interface. *)

From Stdlib Require Import Ascii.
From stdpp Require Import base gmap list strings numbers.
From S2P Require Import Prelude GoStrings Types Programs GatewayErrors LrsClient Router WorkerPool Protocol Processor GatewayEffects Balancer Forwarder Handler Gateway.

Local Open Scope Z_scope.

(** ** Programs that make only some calls *)

(** [calls_only H P p]: [p] makes only calls in [P], and hangs only if [H]. *)
Fixpoint calls_only {A} (H : Prop) (P : forall X, geff X -> Prop) (p : gprog A) : Prop :=
  match p with
  | Ret _ | Panic => True
  | Hang => H
  | Do e k => P _ e /\ forall x, calls_only H P (k x)
  end.

Lemma calls_only_bind {A B} H P (p : gprog A) (f : A -> gprog B) : calls_only H P p -> (forall a, calls_only H P (f a)) -> calls_only H P (p ≫= f).
Proof.
  intros Hp Hf. change (calls_only H P (prog_bind f p)). induction p as [a| | |X e k IH]; cbn in *; [done..|]. destruct Hp as [He Hk]. split; [done|]. intros x. by apply IH.
Qed.

(** The calls that a balancer makes. *)
Definition balancer_call (X : Type) (e : geff X) : Prop :=
  match e with
  | Now | Sleep _ | RemoteReady | LocalEndpoint | RemoteEndpoint | PostSchedule _ _ | PostRelease _ _ | RoundRobin _ => True
  | _ => False
  end.

(** The interface: a balancer makes only its own calls, and hangs only if [H]. *)
Class BalancerCalls (H : Prop) (b : Balancer) := {
  get_calls : forall req, calls_only H balancer_call (Get b req);
  release_calls : forall req w, calls_only H balancer_call (Release b req w)
}.

(** ** The channel and the engines *)

Record usage_state := mkUsageState { closed : bool; engine_calls : nat }.

(** Nothing is sent on a closed channel and it is not closed twice: both would panic. *)
Definition channel_monitor (H : Prop) : Monitor geff usage_state := mkMonitor
  (fun X e g => match e with Send _ | CloseChan => closed g = false | _ => True end)
  (fun _ _ _ => True)
  (fun X e _ g => match e with
                  | CloseChan => mkUsageState true (engine_calls g)
                  | EngineDo _ _ => mkUsageState (closed g) (S (engine_calls g))
                  | _ => g
                  end)
  (fun _ => True) (fun _ => H).

Section channel.
Context (H : Prop).
Abbreviation M := (channel_monitor H).

(** [adds n p]: on an open channel, [p] leaves it open and calls engines at most [n] times. *)
Definition adds {A} (n : nat) (p : gprog A) : Prop :=
  forall g, closed g = false -> mwp M p (fun _ g' => closed g' = false /\ (engine_calls g' <= engine_calls g + n)%nat) g.

Lemma adds_ret {A} (a : A) n : adds n (Ret a).
Proof. intros g Hg. cbn. split; [done|lia]. Qed.
Lemma adds_panic {A} n : adds n (@Panic geff A).
Proof. intros g Hg. done. Qed.
Lemma adds_hang {A} n : H -> adds n (@Hang geff A).
Proof. intros HH g Hg. done. Qed.
Lemma adds_le {A} n n' (p : gprog A) : adds n p -> (n <= n')%nat -> adds n' p.
Proof. intros Hp Hn g Hg. eapply mwp_mono; [by apply Hp|]. cbn. intros _ g' [H1 H2]. split; [done|lia]. Qed.

Lemma adds_bind {A B} n n' (p : gprog A) (f : A -> gprog B) : adds n p -> (forall a, adds n' (f a)) -> adds (n + n') (p ≫= f).
Proof.
  intros Hp Hf g Hg. apply mwp_bind. eapply mwp_mono; [by apply Hp|]. cbn. intros a g1 [H1 H2].
  eapply mwp_mono; [by apply Hf|]. cbn. intros _ g2 [H3 H4]. split; [done|lia].
Qed.

(** Sequencing with a program that calls no engine, and after which none is called. *)
Lemma adds_bind0 {A B} n (p : gprog A) (f : A -> gprog B) : adds 0 p -> (forall a, adds n (f a)) -> adds n (p ≫= f).
Proof. apply (adds_bind 0). Qed.

Definition no_engine {X} (e : geff X) : Prop := match e with EngineDo _ _ | CloseChan => False | _ => True end.

Lemma adds_perform {X} (e : geff X) : no_engine e -> adds 0 (perform e).
Proof. intros He g Hg. destruct e; try done; cbn; (split; [done|]); intros; (split; [done|lia]). Qed.

Lemma adds_calls {A} (p : gprog A) : calls_only H balancer_call p -> adds 0 p.
Proof.
  intros Hp. induction p as [a| | |X e k IH]; cbn in Hp; [apply adds_ret|apply adds_panic|by apply adds_hang|].
  destruct Hp as [He Hk]. intros g Hg. cbn [mwp]. split; [by destruct e|]. intros x _. specialize (IH x (Hk x)).
  assert (observe M e x g = g) as -> by by destruct e. by apply IH.
Qed.

Lemma adds_lift {A} (o : option A) n : adds n (lift o).
Proof. destruct o; [apply adds_ret|apply adds_panic]. Qed.

End channel.

Create HintDb adds.
#[export] Hint Resolve adds_ret adds_panic adds_lift : adds.
#[export] Hint Extern 1 (adds _ _ (perform _)) => (apply adds_perform; exact I) : adds.

Ltac adds_step :=
  match goal with
  | |- adds _ _ (mbind _ _) => apply adds_bind0; [|intros ?]
  | |- adds _ _ (match ?x with _ => _ end) => destruct x
  | |- adds _ _ (let '(_, _) := ?x in _) => destruct x
  | |- adds _ _ _ => solve [eauto with adds]
  end.
Ltac adds_auto := repeat (cbn beta iota; adds_step).

Section bounds.
Context (H : Prop).

Lemma adds_match_pair {A B C} n (p : A * B) (f : A -> B -> gprog C) : (forall a b, adds H n (f a b)) -> adds H n (let '(a, b) := p in f a b).
Proof. destruct p. auto. Qed.

(** *** The handler *)

Lemma adds_engine url body : adds H 1 (perform (EngineDo url body)).
Proof. intros g Hg. cbn. split; [done|]. intros x _. cbn. split; [done|lia]. Qed.

Lemma adds_do_attempts k url body : adds H (S k) (do_attempts k url body).
Proof.
  induction k as [|k IH]; cbn [do_attempts]; (eapply (adds_le H (1 + _)); [apply adds_bind; [apply adds_engine|intros a]|]).
  - instantiate (1 := 0%nat). adds_auto.
  - lia.
  - instantiate (1 := S k). destruct a as [e []|]; adds_auto. 
  - lia.
Qed.

Lemma adds_doRequest url body : adds H 3 (doRequest url body).
Proof. unfold doRequest. apply (adds_bind H 3 0); [apply adds_do_attempts|]. intros. adds_auto. Qed.

Lemma adds_streamBackendResponse c w : adds H 3 (streamBackendResponse c w).
Proof. unfold streamBackendResponse. apply (adds_bind H 3 0); [apply adds_doRequest|]. intros. adds_auto. Qed.
End bounds.
#[export] Hint Resolve adds_doRequest adds_streamBackendResponse : adds.

Section handling_bounds.
Context (H : Prop) (b : Balancer) `{!BalancerCalls H b}.

Lemma adds_get req n : adds H n (Get b req).
Proof. eapply adds_le; [apply adds_calls, get_calls|lia]. Qed.
Lemma adds_release req w n : adds H n (Release b req w).
Proof. eapply adds_le; [apply adds_calls, release_calls|lia]. Qed.
#[local] Hint Resolve adds_get adds_release : adds.

Lemma adds_chunks_of req p n : adds H n p -> adds H n (chunks_of req p).
Proof. intros Hp. unfold chunks_of. rewrite <- (Nat.add_0_r n). apply adds_bind; [done|]. intros. adds_auto. Qed.

Lemma adds_with_pair req k n : (forall p d, adds H n (k p d)) -> adds H n (with_pair req k).
Proof. intros Hk. unfold with_pair. repeat case_match; adds_auto. Qed.

Lemma adds_ScheduleDecode req n : adds H n (ScheduleDecode b req).
Proof.
  eapply (adds_le H 0); [|lia]. unfold ScheduleDecode. case_bool_decide; [adds_auto|]. apply adds_bind0; [apply adds_get|]. intros [r req']. destruct r; adds_auto.
Qed.

Lemma adds_staged req doP doD n n' :
  (forall req p, adds H n (doP req p)) -> (forall req p d, adds H n' (doD req p d)) -> adds H (n + n') (stagedSchedulingForward b req doP doD).
Proof.
  intros HP HD. unfold stagedSchedulingForward. case_match; [|adds_auto]. apply adds_bind; [done|]. intros [req1 [e|]]; [adds_auto|].
  apply adds_bind0; [apply adds_ScheduleDecode|]. intros [[res|e] req2]; [|adds_auto]. case_match; adds_auto.
Qed.

Lemma adds_doPrefill_kvt req p : adds H 3 (kvt_doPrefill req p).
Proof.
  unfold kvt_doPrefill. apply adds_bind0; [adds_auto|]. intros c. destruct (kvt_buildPrefillRequestData c) as [data c'].
  apply (adds_bind H 3 0); [apply adds_doRequest|]. intros. adds_auto.
Qed.

Lemma adds_doDecode_kvt req p d : adds H 3 (kvt_doDecode req p d).
Proof. unfold kvt_doDecode. apply adds_bind0; [adds_auto|]. intros. apply adds_chunks_of, adds_streamBackendResponse. Qed.

Context `{EngineJson}.

Lemma adds_doPrefill_mooncake req p : adds H 3 (mooncake_doPrefill req p).
Proof. unfold mooncake_doPrefill. apply adds_bind0; [adds_auto|]. intros c. apply (adds_bind H 3 0); [apply adds_doRequest|]. intros. adds_auto. Qed.

Lemma adds_doDecode_mooncake req d : adds H 3 (mooncake_doDecode req d).
Proof. unfold mooncake_doDecode. apply adds_bind0; [adds_auto|]. intros. apply adds_chunks_of, adds_streamBackendResponse. Qed.

(** One attempt calls an engine at most six times: a prefill and a decode instance, three times each. *)
Lemma adds_Forward f req : adds H 6 (Forward f b req).
Proof.
  destruct f as [|mode|mode|mode]; cbn [Forward].
  - unfold neutral_Forward. case_match; [|adds_auto]. apply adds_bind0; [adds_auto|]. intros. eapply adds_le; [apply adds_chunks_of, adds_streamBackendResponse|lia].
  - unfold kvt_Forward. repeat case_bool_decide; [| |adds_auto].
    + apply adds_with_pair. intros p d. apply adds_bind0; [adds_auto|]. intros. eapply adds_le; [apply adds_chunks_of, adds_streamBackendResponse|lia].
    + apply (adds_staged req _ _ 3 3); [apply adds_doPrefill_kvt|apply adds_doDecode_kvt].
  - unfold mooncake_Forward. repeat case_bool_decide; [| |adds_auto].
    + apply adds_with_pair. intros p d. apply (adds_bind H 3 3); [apply adds_doPrefill_mooncake|]. intros [req1 [e|]]; [adds_auto|apply adds_doDecode_mooncake].
    + apply (adds_staged req _ _ 3 3); [apply adds_doPrefill_mooncake|intros; apply adds_doDecode_mooncake].
  - apply adds_with_pair. intros p d. unfold sgl_buildRequestData. apply adds_bind0; [adds_auto|]. intros c. apply adds_chunks_of. unfold parallelRequestAndStream.
    apply (adds_bind H 3 3); [apply adds_doRequest|]. intros rp. apply (adds_bind H 3 0); [apply adds_doRequest|]. intros rd. repeat case_match; adds_auto.
Qed.

Context `{Sglang} (hk : RequestStateManagementHooks).
Context (hk_prefill : forall req, adds H 0 (OnPostPrefill hk req)) (hk_first : forall req, adds H 0 (OnPostDecodeFirstStreamResponse hk req))
  (hk_each : forall req, adds H 0 (OnPostDecodeEachStreamResponse hk req)).

Lemma adds_processAndWriteChunk h done req : adds H 0 (processAndWriteChunk h done req).
Proof.
  unfold processAndWriteChunk. apply adds_bind0; [adds_auto|]. intros t. apply adds_bind0; [adds_auto|]. intros [req1 [e|]]; [adds_auto|].
  apply adds_bind0; [adds_auto|]. intros t'. destruct (marshalResponse _) as [req2 [data|e]]; [|adds_auto]. unfold Handler.writeResponse. adds_auto.
Qed.

Lemma adds_report_error req e : adds H 0 (report_error req e).
Proof. unfold report_error, writeErrorResponse. adds_auto. Qed.

Lemma adds_final_chunk h data req : adds H 0 (final_chunk h data req).
Proof.
  unfold final_chunk. case_bool_decide; [adds_auto|]. destruct (parseResponse data req) as [req1 [e|]]; [case_bool_decide; [|apply adds_report_error]|];
    (apply adds_bind0; [apply adds_processAndWriteChunk|]; intros [req2 [e'|]]; [apply adds_report_error|adds_auto]).
Qed.

Lemma adds_record_chunk pos t req : adds H 0 (record_chunk hk pos t req).
Proof.
  destruct pos; cbn [record_chunk]; (apply adds_bind0; [adds_auto|]); intros t1.
  - apply adds_bind0; [apply hk_prefill|]. intros. adds_auto.
  - apply adds_bind0; [adds_auto|]. intros t2. apply adds_bind0; [apply hk_first|]. intros. adds_auto.
  - apply adds_bind0; [adds_auto|]. intros t2. adds_auto.
Qed.

Lemma adds_chunk_loop h chunks pos t req : adds H 0 (chunk_loop h hk chunks pos t req).
Proof.
  revert pos t req. induction chunks as [|c chunks IH]; intros pos t req; cbn [chunk_loop]; [adds_auto|].
  apply adds_bind0; [apply adds_record_chunk|]. intros [req1 t1]. destruct (chunk_Err c) as [e|].
  - case_bool_decide; [apply adds_final_chunk|]. apply adds_bind0; [adds_auto|]. intros r. destruct (negb r); [adds_auto|apply adds_report_error].
  - destruct (parseResponse _ _) as [req2 err]. destruct (if bool_decide (err = Some EOF) then None else err) as [e|]; [apply adds_report_error|].
    apply adds_bind0; [case_bool_decide; [apply hk_each|adds_auto]|]. intros req3. apply adds_bind0; [apply adds_processAndWriteChunk|].
    intros [req4 [e|]]; [apply adds_report_error|]. destruct (OutputExceedMaxTokens _); [|apply IH]. apply adds_bind0; [apply adds_processAndWriteChunk|]. intros [req5 e]. adds_auto.
Qed.

Lemma adds_Handle h req : adds H 6 (Handle h b hk req).
Proof. unfold Handle. apply (adds_bind H 6 0); [apply adds_Forward|]. intros [req1 [chunks|e]]; [apply adds_chunk_loop|adds_auto]. Qed.
End handling_bounds.

(** ** The request *)

Section request.
Context (H : Prop) (gw : LlmGatewayService) `{!BalancerCalls H (balancer gw)}.

(** The rate-limit retries end: they are limited, and the model's bound is no smaller; and
    a slice of fallback endpoints has a length. *)
Record gateway_fits : Prop := mkFits {
  fits_retries : H \/ maxRetries (retryQueue gw) = 0 \/ 0 < maxRetries (retryQueue gw) <= Z.of_nat (retry_fuel gw);
  fits_fallbacks : Z.of_nat (length (fallbackConfigs (router gw))) <= MaxInt64
}.
Context (Hfits : gateway_fits).

#[local] Hint Extern 1 (adds _ _ (Get _ _)) => (apply adds_get; exact _) : adds.
#[local] Hint Extern 1 (adds _ _ (Release _ _ _)) => (apply adds_release; exact _) : adds.

Lemma adds_release_opt req w : adds H 0 (release_opt (balancer gw) req w).
Proof. destruct w; cbn; adds_auto. Qed.
Lemma adds_release_all req ws : adds H 0 (release_all (balancer gw) req ws).
Proof. induction ws as [|w ws IH]; cbn; adds_auto. Qed.
#[local] Hint Resolve adds_release_opt adds_release_all : adds.

Lemma adds_hook_prefill req : adds H 0 (hook_OnPostPrefill gw req).
Proof. unfold hook_OnPostPrefill. adds_auto. Qed.
Lemma adds_hook_first req : adds H 0 (hook_OnPostDecodeFirstStreamResponse gw req).
Proof. unfold hook_OnPostDecodeFirstStreamResponse. adds_auto. Qed.
Lemma adds_hook_each req : adds H 0 (hook_OnPostDecodeEachStreamResponse gw req).
Proof. unfold hook_OnPostDecodeEachStreamResponse. adds_auto. Qed.

Lemma adds_copy_body l : adds H 0 (copy_body l).
Proof. induction l as [|s l IH]; cbn [copy_body]; adds_auto. Qed.
#[local] Hint Resolve adds_copy_body : adds.

Lemma adds_proxy path req dst : adds H 0 (proxyToExternal path req dst).
Proof. unfold proxyToExternal. adds_auto. Qed.
#[local] Hint Resolve adds_proxy : adds.

Lemma adds_retryLoop fuel q i path req dst :
  H \/ (0 < maxRetries q <= Z.of_nat (fuel + i) /\ (0 < fuel)%nat) ->
  adds H 0 (retryLoop (fun d => perform (PauseOrDone d)) (perform RetryQueueStarted) (perform CtxErr) (proxyToExternal path req dst) fuel (q : RateLimitRetryQueue nat) i).
Proof.
  revert i. induction fuel as [|fuel IH]; intros i Hq; cbn [retryLoop]; [apply adds_hang; destruct Hq as [?|[_ ?]]; [done|lia]|].
  apply adds_bind0; [adds_auto|]. intros [e|]; [adds_auto|]. apply adds_bind0; [adds_auto|]. intros st. destruct (negb st); [adds_auto|].
  apply adds_bind0; [adds_auto|]. intros [e|]; [adds_auto|]. apply adds_bind0; [adds_auto|]. intros [e|]; [|adds_auto].
  destruct (negb _); [adds_auto|]. destruct (_ && _) eqn:E; [adds_auto|]. apply IH. destruct Hq as [?|[Hm Hf]]; [by left|right].
  rewrite bool_decide_eq_true_2 in E by lia. apply bool_decide_eq_false in E. lia.
Qed.

Lemma adds_await path req dst : maxRetries (retryQueue gw) <> 0 -> adds H 0 (await_retries gw path req dst).
Proof.
  intros Hne. unfold await_retries. apply adds_bind0; [|intros; adds_auto]. apply adds_retryLoop. destruct (fits_retries Hfits) as [?|[?|?]]; [by left|done|right; lia].
Qed.

Lemma Fallback_next a sr dst n :
  Fallback a sr = Some (GOk (dst, n)) -> Z.of_nat (length (fallbackConfigs sr)) <= MaxInt64 -> n = a + 1 /\ 0 <= a < Z.of_nat (length (fallbackConfigs sr)).
Proof.
  unfold Fallback. intros E Hl. destruct (_ || _) eqn:E1; [done|]. apply orb_false_iff in E1 as [_ E1%bool_decide_eq_false]. case_bool_decide; [done|].
  destruct (_ !! _); cbn in E; simplify_eq. rewrite int64_small by (unfold MinInt64, MaxInt64 in *; lia). lia.
Qed.

Lemma adds_fallback_loop fuel path skip req err :
  (0 < fuel)%nat -> FallbackAttempt (req_Stats req) < 0 \/ Z.of_nat (length (fallbackConfigs (router gw))) < FallbackAttempt (req_Stats req) + Z.of_nat fuel ->
  adds H 0 (fallback_loop gw fuel path skip req err).
Proof.
  revert req err. induction fuel as [|fuel IH]; intros req err H0 Hf; cbn [fallback_loop]; [lia|].
  destruct (negb _); [adds_auto|]. apply adds_bind0; [adds_auto|]. intros r. destruct r; [adds_auto|].
  destruct (Fallback _ _) as [[[dst n]|e]|] eqn:E; cbn [lift]; [|rewrite bind_ret; adds_auto|apply adds_panic].
  destruct (Fallback_next _ _ _ _ E (fits_fallbacks Hfits)) as [-> Ha]. rewrite bind_ret.
  set (req' := upd_stats _ req). assert (forall err, adds H 0 (fallback_loop gw fuel path skip req' err)) as IH' by (intros; apply IH; cbn; lia).
  case_bool_decide; [apply IH'|]. apply adds_bind0; [adds_auto|]. intros [e|]; [|adds_auto]. unfold fallback_pause.
  destruct (_ && _); [|adds_auto]. unfold enqueue_retry. case_bool_decide as Hm; [rewrite bind_ret; adds_auto|].
  apply adds_bind0; [adds_auto|]. intros enq. destruct enq; [|adds_auto]. apply adds_bind0; [by apply adds_await|]. intros [[e'|]|]; adds_auto.
Qed.

Lemma adds_tryFallback path skip req : adds H 0 (tryFallback gw path skip req).
Proof. apply adds_fallback_loop; lia. Qed.
#[local] Hint Resolve adds_tryFallback : adds.

Lemma adds_fallback_or_error path req : adds H 0 (fallback_or_error gw path req).
Proof. unfold fallback_or_error, send_error. adds_auto. Qed.
#[local] Hint Resolve adds_fallback_or_error : adds.

Lemma adds_fallback_or path req e : adds H 0 (fallback_or gw path req e).
Proof. unfold fallback_or, send_error. adds_auto. Qed.
#[local] Hint Resolve adds_fallback_or : adds.

Lemma adds_reschedule path e req : adds H 0 (reschedule gw path e req).
Proof. unfold reschedule, send_error. adds_auto. Qed.

Context `{SG : Sglang, EJ : EngineJson}.

Lemma adds_handle req : adds H 6 (Handle (reqHandler gw) (balancer gw) (hooks gw) req).
Proof. apply adds_Handle; [exact _|apply adds_hook_prefill|apply adds_hook_first|apply adds_hook_each]. Qed.

Lemma adds_attempts k attempt path e req : adds H (6 * k) (route_attempts gw k attempt path e req).
Proof.
  revert attempt e req. induction k as [|k IH]; intros attempt e req; cbn [route_attempts]; [adds_auto|]. replace (6 * S k)%nat with (6 + 6 * k)%nat by lia.
  apply adds_bind0; [destruct e; [apply adds_reschedule|adds_auto]|]. intros [req1 go]. destruct (negb go); [adds_auto|].
  apply adds_bind; [apply adds_handle|]. intros [req2 [e'|]]; [|adds_auto].
  destruct (negb _); [unfold send_error; adds_auto|]. apply adds_bind0; [adds_auto|]. intros r. destruct r; [adds_auto|].
  case_bool_decide; [eapply adds_le; [apply adds_fallback_or|lia]|]. apply adds_bind0; [adds_auto|]. intros [c|]; [unfold send_error; adds_auto|apply IH].
Qed.

(** *** Closing the channel *)

Definition silent_call (X : Type) (e : geff X) : Prop := match e with Send _ | CloseChan | EngineDo _ _ => False | _ => True end.

Lemma silent_mwp {A} (p : gprog A) g : calls_only H silent_call p -> mwp (channel_monitor H) p (fun _ g' => g' = g) g.
Proof.
  intros Hp. induction p as [a| | |X e k IH]; cbn in Hp; [done..|]. destruct Hp as [He Hk]. cbn [mwp]. split; [by destruct e|]. intros x _.
  assert (observe (channel_monitor H) e x g = g) as -> by by destruct e. by apply IH.
Qed.

Lemma silent_balancer {A} (p : gprog A) : calls_only H balancer_call p -> calls_only H silent_call p.
Proof. induction p as [a| | |X e k IH]; cbn; [done..|]. intros [He Hk]. split; [by destruct e|]. intros x. by apply IH. Qed.

Lemma silent_release req w : calls_only H silent_call (Release (balancer gw) req w).
Proof. apply silent_balancer, release_calls. Qed.

Lemma silent_OnPostRequest req : calls_only H silent_call (hook_OnPostRequest gw req).
Proof.
  unfold hook_OnPostRequest. assert (forall w, calls_only H silent_call (release_opt (balancer gw) req w)) as Ho by (intros [w|]; [apply silent_release|done]).
  assert (forall ws, calls_only H silent_call (release_all (balancer gw) req ws)) as Ha.
  { induction ws as [|w ws IH]; cbn; [done|]. apply calls_only_bind; [apply silent_release|done]. }
  repeat case_match; [|by apply calls_only_bind; [apply Ha|]|done].
  apply calls_only_bind; [done|]. intros _. apply calls_only_bind; [apply Ho|]. intros _. by apply calls_only_bind; [apply Ho|].
Qed.

(** What a run leaves: the channel closed, after at most [n] calls of engines. *)
Definition closes (n : nat) (p : gprog RequestContext) : Prop :=
  forall g, closed g = false -> mwp (channel_monitor H) p (fun _ g' => closed g' = true /\ (engine_calls g' <= engine_calls g + n)%nat) g.

Lemma closes_after n (p : gprog RequestContext) f : adds H n p -> (forall req, calls_only H silent_call (f req)) ->
  closes n (req ← p; _ ← perform CloseChan; f req).
Proof.
  intros Hp Hf g Hg. apply mwp_bind. eapply mwp_mono; [by apply Hp|]. cbn beta. intros req g1 [H1 H2]. apply mwp_bind, mwp_perform; [done|]. intros [] _.
  eapply mwp_mono; [by apply silent_mwp|]. cbn. by intros _ g2 ->.
Qed.

Lemma closes_bind0 {A} n (p : gprog A) f : adds H 0 p -> (forall a, closes n (f a)) -> closes n (p ≫= f).
Proof.
  intros Hp Hf g Hg. apply mwp_bind. eapply mwp_mono; [by apply Hp|]. cbn. intros a g1 [H1 H2]. eapply mwp_mono; [by apply Hf|]. cbn. intros _ g2 [H3 H4]. split; [done|lia].
Qed.

Lemma closes_dispatch path req : closes (6 * Z.to_nat (RetryMaxCount (config gw) + 1)) (dispatchRequest gw path req).
Proof.
  unfold dispatchRequest. apply closes_bind0; [unfold route; adds_auto|]. intros [dst rt]. destruct rt, dst as [dst|].
  1, 2: unfold unknownRouteRequest; apply closes_after; [eapply adds_le; [apply adds_fallback_or_error|lia]|done].
  1, 2: apply closes_bind0; [adds_auto|]; intros [[res|e] req1];
    [apply closes_after; [apply adds_attempts|apply silent_OnPostRequest]|apply closes_after; [eapply adds_le; [apply adds_fallback_or|lia]|done]].
  - unfold externalRouteRequest. apply closes_bind0; [adds_auto|]. intros err. apply closes_after; [|done]. unfold send_error. eapply (adds_le H 0); [adds_auto|lia].
  - by intros g Hg.
Qed.
End request.

(** *** The balancers keep the interface *)

Ltac calls_auto := repeat first
  [ exact I
  | apply calls_only_bind; [|intros ?]
  | match goal with |- calls_only _ _ (match ?x with _ => _ end) => destruct x end
  | (split; [exact I|]); intros ?; cbn beta iota
  | done ].

Lemma rr_get_calls H pool : calls_only H balancer_call (rr_get pool).
Proof. unfold rr_get. calls_auto. Qed.

Lemma pdDisaggLocalGet_calls H req : calls_only H balancer_call (pdDisaggLocalGet req).
Proof.
  unfold pdDisaggLocalGet. repeat case_bool_decide; [apply rr_get_calls..|done|]. apply calls_only_bind; [apply rr_get_calls|]. intros [p|e]; [|done].
  apply calls_only_bind; [apply rr_get_calls|]. by intros [].
Qed.

Lemma localGet_calls H cb req : calls_only H balancer_call (localGet cb req).
Proof. unfold localGet. destruct (cb_mode cb); [apply rr_get_calls|apply pdDisaggLocalGet_calls|apply rr_get_calls|apply pdDisaggLocalGet_calls]. Qed.

Lemma schedule_loop_calls fuel cfg t req : calls_only True balancer_call (schedule_loop fuel cfg t req).
Proof.
  revert req. induction fuel as [|fuel IH]; intros req; cbn [schedule_loop]; [done|]. apply calls_only_bind.
  - unfold doSchedule, createSchedulingRequest. calls_auto.
  - intros [[res|e] req1]; [done|]. destruct (errors_Is _ _); [|done]. apply calls_only_bind; [by split|]. intros now. case_bool_decide; [done|].
    apply calls_only_bind; [by split|]. intros _. apply IH.
Qed.

Lemma release_retry_calls H n url q : calls_only H balancer_call (release_retry n url q).
Proof.
  induction n as [|n IH]; cbn [release_retry]; [done|]. apply calls_only_bind; [by split|]. intros ok. destruct ok; [done|]. destruct n; [done|].
  apply calls_only_bind; [by split|]. done.
Qed.

Lemma Balancer_Release_calls H cb req w : calls_only H balancer_call (Balancer_Release cb req w).
Proof.
  unfold Balancer_Release, SchedulerClient_Release. destruct (cb_mode cb); try done.
  all: do 2 (apply calls_only_bind; [by split|]; intros ?); case_match; [done|]; do 2 (apply calls_only_bind; [by split|]; intros ?); apply release_retry_calls.
Qed.

Lemma getWithFallback_calls cb req : calls_only True balancer_call (getWithFallback cb req).
Proof.
  unfold getWithFallback. apply calls_only_bind.
  - unfold SchedulerClient_Get. do 2 (apply calls_only_bind; [by split|]; intros ?). case_match; [done|apply schedule_loop_calls].
  - intros [[res|e] req1]; [done|]. case_match; [|done]. destruct (cb_mode cb); [done|done|..]; (apply calls_only_bind; [|done]); [apply rr_get_calls|apply pdDisaggLocalGet_calls].
Qed.

(** The balancer of the gateway; with round robin it never hangs. *)
#[export] Instance composite_calls cb : BalancerCalls True (NewBalancer cb).
Proof.
  split; [|apply Balancer_Release_calls]. intros req. cbn. unfold Balancer_Get.
  case_match; [by apply calls_only_bind; [apply localGet_calls|]|].
  destruct (cb_mode cb); [| |apply getWithFallback_calls..]; (apply calls_only_bind; [|done]); [apply rr_get_calls|apply pdDisaggLocalGet_calls].
Qed.

Definition is_local (m : balanceMode) : bool := match m with LocalBalancer | PDLocalBalancer => true | _ => false end.

Lemma local_calls cb : is_local (cb_mode cb) = true -> BalancerCalls False (NewBalancer cb).
Proof.
  intros Hl. split; [|apply Balancer_Release_calls]. intros req. cbn. unfold Balancer_Get.
  case_match; [by apply calls_only_bind; [apply localGet_calls|]|].
  destruct (cb_mode cb); [| |done..]; (apply calls_only_bind; [|done]); [apply rr_get_calls|apply pdDisaggLocalGet_calls].
Qed.

(** C7. The response channel of a request is used safely on every path, of routing, retries, fallbacks, errors and cancellation, whatever the other services
    answer: nothing is sent after it is closed, it is not closed twice, a run that ends has closed it, and engines are called at most six times per attempt,
    of which there are at most [RetryMaxCount + 1]. A run hangs only where the balancer may. *)
Theorem request_channel_protocol (H : Prop) gw path req l o `{SG : Sglang, EJ : EngineJson} :
  BalancerCalls H (balancer gw) -> gateway_fits H gw -> trace (dispatchRequest gw path req) l o ->
  let g := observed (channel_monitor H) l (mkUsageState false 0) in
  permitted (channel_monitor H) l (mkUsageState false 0) /\
  (forall req', o = Done req' -> closed g = true /\ Z.of_nat (engine_calls g) <= 6 * Z.max 0 (RetryMaxCount (config gw) + 1)) /\
  (o = Hung -> H).
Proof.
  intros Hb Hf Ht g. destruct (mwp_trace _ _ _ _ _ _ (closes_dispatch H gw Hf path req (mkUsageState false 0) eq_refl) Ht (expected_any (channel_monitor H) l (fun _ _ _ => I))) as [Hp Ho].
  split; [done|]. split; [|by intros ->]. intros req' ->. destruct Ho as [H1 H2]. split; [done|]. cbn in H2. fold g in H2. lia.
Qed.

Lemma example_fits : gateway_fits True example_gateway.
Proof. split; [by left|vm_compute; congruence]. Qed.

Lemma request_channel_protocol_witness :
  let g := observed (channel_monitor True) example_log (mkUsageState false 0) in
  engine_calls g = 2%nat /\ permitted (channel_monitor True) example_log (mkUsageState false 0) /\
  (forall req', Done example_result = Done req' -> closed g = true /\ Z.of_nat (engine_calls g) <= 6 * Z.max 0 (3 + 1)) /\
  (Done example_result = Hung -> True).
Proof.
  split; [vm_compute; reflexivity|].
  exact (request_channel_protocol True example_gateway "/v1/completions" (example_completion false) example_log (Done example_result) (SG := example_sglang) (EJ := example_json)
    (composite_calls example_balancer) example_fits (run_trace_done example_world example_program 0%nat example_result example_done)).
Defined.

(** ** Streams in lite mode

    The hook that counts the tokens of a streamed chat response reads the response of the
    chunk before it, which is gone once it was marshalled. *)

Section crash.
Context (gw : LlmGatewayService) `{SG : Sglang, EJ : EngineJson}.

Definition streams_chat (req : RequestContext) : Prop :=
  ClientStream (req_LLM req) = true /\ Protocol (req_LLM req) = OpenAIChatCompletion /\ lr_ChatStreamResponse (req_LLM req) = None.

Lemma each_hook_panics req :
  EnableRequestStateTracking (config gw) = true -> streams_chat req -> hook_OnPostDecodeEachStreamResponse gw req = Panic.
Proof. intros Ht (Hs & Hp & Hn). unfold hook_OnPostDecodeEachStreamResponse, GetResponseUsage. by rewrite Ht, Hs, Hp, Hn. Qed.

Definition only_panics : Monitor geff unit := mkMonitor (fun _ _ _ => True) (fun _ _ _ => True) (fun _ _ _ g => g) (fun _ => True) (fun _ => False).

Lemma each_chunk_panics h chunk chunks pos t req :
  EnableRequestStateTracking (config gw) = true -> streams_chat req -> pos <> FirstChunk -> chunk_Err chunk = None ->
  (chunk_Data chunk = "[DONE]" \/ Unmarshal_completion (chunk_Data chunk) <> None) ->
  mwp only_panics (chunk_loop h (hooks gw) (chunk :: chunks) pos t req) (fun _ _ => False) tt.
Proof.
  intros Ht Hs Hpos He Hd. cbn [chunk_loop]. apply mwp_bind.
  eapply (mwp_mono _ _ (fun r _ => streams_chat r.1 /\ ITLs (times (req_Stats r.1)) <> [])).
  { assert (forall r, streams_chat r -> ITLs (times (req_Stats r)) <> [] ->
      mwp only_panics (hook_OnPostDecodeFirstStreamResponse gw r) (fun r' _ => streams_chat r' /\ ITLs (times (req_Stats r')) <> []) tt) as Hf.
    { intros r H1 H2. unfold hook_OnPostDecodeFirstStreamResponse. destruct (_ && _); [|by split]. destruct (match instance_of r InferTypeDecode with Some _ => _ | None => _ end) as [it id].
      destruct (NewRequestTokenState _ _ _ _ _ _ _); by cbn. }
    destruct pos; [done|..]; cbn; (split; [done|]); intros t1 _; (split; [done|]); intros t2 _.
    - apply mwp_bind. eapply mwp_mono; [apply Hf; [done|cbn; by destruct (ITLs _)]|done].
    - split; [done|]. cbn. by destruct (ITLs _). }
  intros [req1 t1] [] [H1 H2]. cbn in H1, H2. rewrite He.
  assert (exists req2 err, parseResponse (chunk_Data chunk) req1 = (req2, err) /\ (err = None \/ err = Some EOF) /\ streams_chat req2 /\ req_Stats req2 = req_Stats req1) as (req2 & err & -> & Herr & H3 & H4).
  { unfold parseResponse. case_bool_decide; [by eauto 10|]. destruct (Unmarshal_completion _); [|naive_solver]. eexists _, _. split; [done|]. split; [by left|done]. }
  replace (if bool_decide (err = Some EOF) then None else err) with (@None gerror) by (by destruct Herr as [-> | ->]).
  rewrite (bool_decide_eq_true_2 (ITLs _ <> [])) by (by rewrite H4). cbn [hooks OnPostDecodeEachStreamResponse]. by rewrite each_hook_panics.
Qed.
End crash.

(** With request tracking on, a streamed chat response crashes the gateway at its second chunk: once a chunk was written, the response that the token
    hook reads is nil, so every run that meets another chunk or the end marker panics. *)
Theorem lite_stream_crashes gw h chunk chunks pos t req l o `{SG : Sglang, EJ : EngineJson} :
  EnableRequestStateTracking (config gw) = true -> streams_chat req -> pos <> FirstChunk -> chunk_Err chunk = None ->
  (chunk_Data chunk = "[DONE]" \/ Unmarshal_completion (chunk_Data chunk) <> None) ->
  trace (chunk_loop h (hooks gw) (chunk :: chunks) pos t req) l o -> o = Panicked.
Proof.
  intros Ht Hs Hpos He Hd Htr. destruct (mwp_trace _ _ _ _ _ _ (each_chunk_panics gw h chunk chunks pos t req Ht Hs Hpos He Hd) Htr (expected_any only_panics l (fun _ _ _ => I))) as [_ Ho].
  by destruct o.
Qed.

(** After a chunk was written the nil pointer is there. *)
Lemma marshal_clears req : ClientStream (req_LLM req) = true -> Protocol (req_LLM req) = OpenAIChatCompletion -> streams_chat (marshalResponse req).1.
Proof. intros Hc Hp. unfold marshalResponse. rewrite Hp, Hc. by split. Qed.

Definition example_chat : RequestContext :=
  upd_llm (fun r => mkLLMRequest "m" "" OpenAIChatCompletion true (Some (mkChatRequest "m" 0 None 0 1 true [] 0 None 0 "" [])) None None
      (Some (mkCompletionRequest "r1" "" "m" (PromptUint32s [1; 2]) 0 None 1 0 None [] true None None 0 "" None "" "")) None None None None None None)
    (new_request example_gateway "r1" "" 0).

Definition crash_world : Handler geff nat := fun X e n =>
  match e in geff X return X * nat with
  | EngineDo _ _ => (EngineResponse 200 (calm_stream ["hi"; "there"; "[DONE]"]%string) (GOk ""%string), n)
  | e => example_world _ e n
  end.

(** The whole request: scheduled, forwarded, and lost with the process. *)
Lemma example_chat_crashes :
  (run crash_world (dispatchRequest (SG := example_sglang) (EJ := example_json) example_gateway "/v1/chat/completions" example_chat) 0%nat).1 = Panicked.
Proof. vm_compute. reflexivity. Qed.

Definition crash_loop : gprog (RequestContext * option gerror) :=
  chunk_loop (SG := example_sglang) (EJ := example_json) example_handler (hooks example_gateway) [mkChunk None "there"] SecondChunk 0 example_chat.

Lemma lite_stream_crashes_witness : (run crash_world crash_loop 0%nat).1 = Panicked.
Proof.
  refine (lite_stream_crashes example_gateway example_handler (mkChunk None "there") [] SecondChunk 0 example_chat (run_log crash_world crash_loop 0%nat) _
    (SG := example_sglang) (EJ := example_json) eq_refl _ _ eq_refl _ (run_trace crash_world crash_loop 0%nat)); [by repeat split|discriminate|by right].
Defined.
