(* ===== verification/GatewayLife.v ===== *)
(** * The life of a request in the gateway

    [HandleOpenAIRequest] of [pkg/gateway/service/gateway_service.go]: the request is parsed
    and queued; a worker starts [dispatchRequest], the producer of responses, which continues
    in a goroutine of its own, while the handler's goroutine writes to the client
    ([writeResponseUntilDone]). The two share the response channel, the flag that says
    whether the header was sent, and the client's connection. [life_step] interleaves them. *)

From Stdlib Require Import Ascii.
From stdpp Require Import base gmap list strings numbers relations.
From S2P Require Import Prelude GoStrings Types Programs GatewayErrors LrsClient Router WorkerPool Protocol Processor GatewayEffects Balancer Forwarder Handler Gateway GatewaySpec.

Local Open Scope Z_scope.

Definition chan_capacity : nat := 100.

Record life := mkLife {
  producer : gprog RequestContext;
  chan : list ResponseMsg;
  chan_closed : bool;
  http : HttpRequest;
  received : list client_event;
  writing : bool;
  cancelled : bool
}.

Definition with_producer (p : gprog RequestContext) (s : life) : life := mkLife p (chan s) (chan_closed s) (http s) (received s) (writing s) (cancelled s).
Definition emit (l : list client_event) (s : life) : life := mkLife (producer s) (chan s) (chan_closed s) (http s) (received s ++ l) (writing s) (cancelled s).
Definition set_responded (s : life) : life :=
  mkLife (producer s) (chan s) (chan_closed s) (mkHttpRequest (StatusCode (http s)) true) (received s) (writing s) (cancelled s).
Definition set_chan (c : list ResponseMsg) (closed : bool) (s : life) : life := mkLife (producer s) c closed (http s) (received s) (writing s) (cancelled s).

(** What a call of the producer does to what it shares with the writer; [None] when it
    cannot be made now, or not with this answer. A send waits for room in the channel. *)
Definition call {X} (e : geff X) : X -> life -> option life :=
  match e in geff X return X -> life -> option life with
  | Send m => fun _ s => if bool_decide (chan_closed s = false /\ (length (chan s) < chan_capacity)%nat) then Some (set_chan (chan s ++ [m]) false s) else None
  | CloseChan => fun _ s => if chan_closed s then None else Some (set_chan (chan s) true s)
  | HeaderResponded => fun x s => if bool_decide (x = hr_HeaderResponded (http s)) then Some s else None
  | SetHeaderResponded => fun _ s => Some (set_responded s)
  | ClientHeader status => fun _ s => Some (emit [Status status] s)
  | ClientWrite text => fun _ s => Some (emit [Body (PText text)] s)
  | _ => fun _ s => Some s
  end.

(** ** The handlers *)

(** The stream of an engine breaks off with an error of the transport, the context or the
    timer: never with one of the gateway's own errors that stand for a failed request. *)
Definition answer_ok {X} (e : geff X) : X -> Prop :=
  match e in geff X return X -> Prop with
  | EngineDo _ _ => fun a => match a with EngineResponse _ s _ => (forall err, stream_end s = Some err -> retryable err = false) /\ retryable (too_long s) = false /\ (forall n err, interrupted s n = Some err -> retryable err = false) | EngineError _ _ => True end
  | _ => fun _ => True
  end.

Definition start (p : gprog RequestContext) : life := mkLife p [] false (mkHttpRequest 0 false) [] true false.

Section life.
Context `{ErrorText}.

(** A turn of [writeResponseUntilDone] on a message. *)
Definition written (stream : bool) (m : ResponseMsg) (c : list ResponseMsg) (s : life) : life :=
  let '(h, out, stop) := write_message stream m (http s) in
  mkLife (producer s) c (chan_closed s) h (received s ++ out) (negb stop) (cancelled s).

Inductive life_step (stream : bool) : life -> life -> Prop :=
  | StepCall {X} (e : geff X) k x s s' : producer s = Do e k -> answer_ok e x -> call e x s = Some s' -> life_step stream s (with_producer (k x) s')
  | StepWrite m c s : writing s = true -> chan s = m :: c -> life_step stream s (written stream m c s)
  | StepClosed s : writing s = true -> chan s = [] -> chan_closed s = true ->
      life_step stream s (mkLife (producer s) [] true (http s) (received s ++ write_closed (http s)) false (cancelled s))
  | StepDone s : writing s = true ->
      life_step stream s (mkLife (producer s) (chan s) (chan_closed s) (write_done (http s)) (received s) false true).
End life.

(** [HandleOpenAIRequest] up to the start of the two goroutines: what is written at once
    when the request is refused, or the life of the request. [None] is a panic. *)
Definition HandleOpenAIRequest `{Sglang, RequestJson, EngineJson} (gw : LlmGatewayService) (path header_id uuid : string) (now : Z) (body : option string)
    : option (list client_event + life) :=
  r ← ParseRequest path body (new_request gw header_id uuid now);
  match r with
  | (_, Some _) => Some (inl [Status StatusBadRequest; ErrorBody "Invalid OpenAI request"])
  | (req, None) => Some (inr (start (dispatchRequest gw path req)))
  end.

(** [http.Error]. *)
Definition http_Error (text : string) (code : Z) : gprog unit := _ ← perform (ClientHeader code); perform (ClientWrite text).

(** [valid] says whether the address can be parsed. *)
Definition SimpleHTTPProxy (valid : bool) (url body : string) : gprog unit :=
  if negb valid then http_Error "failed to create proxy request" 500 else
  a ← perform (ExternalDo url "" body);
  match a with
  | ExternalError _ => http_Error "failed to forward request" 502
  | ExternalResponse status pieces => _ ← perform (ClientHeader status); copy_body pieces
  end.

Definition HandleSimpleRequest (gw : LlmGatewayService) (valid : bool) (path rawQuery body header_id uuid : string) (now : Z) : gprog unit :=
  '(r, _) ← Get (balancer gw) (upd_sched (fun s => mkSchedulingContext (SchedulingResults s) (sx_Mode s) (sx_Stage s) (sx_GatewayId s) true) (NewRequestContext header_id uuid now));
  match r with
  | GErr _ | GOk [] => http_Error "failed to get endpoint" 503
  | GOk (w :: _) =>
      let url := "http://" +:+ Endpoint_String (InstEndpoint w) +:+ path in
      SimpleHTTPProxy valid (if bool_decide (rawQuery <> "") then url +:+ "?" +:+ rawQuery else url) body
  end.

(** ** Who answers the client

    Either nobody yet, or the channel's messages, or the producer itself, which writes the
    answer of an external service directly to the client and then says so. *)

Inductive responder := Nobody | ByChannel | Direct | DirectDone.
Record answer_state := mkAnswer { r_closed : bool; r_by : responder }.

Definition answer_monitor : Monitor geff answer_state := mkMonitor
  (fun X e g => match e with
                | Send _ => r_closed g = false /\ (r_by g = Nobody \/ r_by g = ByChannel)
                | CloseChan => r_closed g = false /\ r_by g <> Direct
                | ClientHeader _ => r_closed g = false /\ r_by g = Nobody
                | ClientWrite _ | SetHeaderResponded => r_by g = Direct
                | _ => True
                end)
  (fun X e x => answer_ok e x)
  (fun X e _ g => match e with
                  | Send _ => mkAnswer (r_closed g) ByChannel
                  | CloseChan => mkAnswer true (r_by g)
                  | ClientHeader _ => mkAnswer (r_closed g) Direct
                  | SetHeaderResponded => mkAnswer (r_closed g) DirectDone
                  | _ => g
                  end)
  (fun _ => True) (fun _ => True).

(** [p] lets one party answer, and leaves the channel closed. *)
Definition answers_once (p : gprog RequestContext) (g : answer_state) : Prop := mwp answer_monitor p (fun _ g => r_closed g = true) g.

Fixpoint statuses (l : list client_event) : nat := match l with [] => 0 | Status _ :: l => S (statuses l) | _ :: l => statuses l end.

Lemma statuses_app l1 l2 : statuses (l1 ++ l2) = (statuses l1 + statuses l2)%nat.
Proof. induction l1 as [|[] l1 IH]; cbn; [done|by rewrite IH..]. Qed.

Section once.
Context `{ErrorText} (stream : bool).

Definition answered (by_ : responder) (s : life) : Prop :=
  let n := statuses (received s) in let hr := hr_HeaderResponded (http s) in
  match by_ with
  | Nobody => chan s = [] /\ hr = false /\ (if writing s then n = 0%nat else (cancelled s = true /\ n = 0%nat) \/ (chan_closed s = true /\ n = 1%nat))
  | ByChannel => if writing s then n = (if hr then 1 else 0)%nat /\ (stream = false -> hr = false) else (n <= 1)%nat /\ (cancelled s = false -> n = 1%nat)
  | Direct => chan s = [] /\ chan_closed s = false /\ n = 1%nat /\ hr = false /\ (writing s = false -> cancelled s = true)
  | DirectDone => chan s = [] /\ n = 1%nat /\ hr = true
  end.

Definition life_inv (s : life) : Prop := exists by_, answers_once (producer s) (mkAnswer (chan_closed s) by_) /\ answered by_ s.

Lemma write_message_once m h h' out stop :
  write_message stream m h = (h', out, stop) -> (stream = false -> hr_HeaderResponded h = false) ->
  (statuses out + (if hr_HeaderResponded h then 1 else 0) = 1)%nat /\ (stop = false -> hr_HeaderResponded h' = true /\ stream = true).
Proof.
  unfold write_message, writeStreamResponse, writeResponse. destruct stream, (msg_Err m) as [e|].
  - destruct (hr_HeaderResponded h); [by intros [= <- <- <-]|]. destruct (convertErrorResponse e). by intros [= <- <- <-].
  - destruct (hr_HeaderResponded h); by intros [= <- <- <-].
  - destruct (convertErrorResponse e). intros [= <- <- <-] Hh. by rewrite Hh.
  - intros [= <- <- <-] Hh. by rewrite Hh.
Qed.

Lemma call_inv {X} (e : geff X) x s s' by_ :
  call e x s = Some s' -> permits answer_monitor e (mkAnswer (chan_closed s) by_) -> answered by_ s ->
  exists by', observe answer_monitor e x (mkAnswer (chan_closed s) by_) = mkAnswer (chan_closed s') by' /\ answered by' s'.
Proof.
  destruct e; cbn; try (intros [= <-] _ Ha; by exists by_).
  - case_bool_decide as Hc; [|done]. intros [= <-] [Hp Hb] Ha. exists ByChannel. cbn. rewrite Hp. split; [done|]. unfold answered in *. cbn.
    destruct Hb as [-> | ->]; [|done]. destruct Ha as (H1 & H2 & H3). destruct (writing s); [by rewrite H2|].
    destruct H3 as [[H3 ->] | [H3 _]]; [|congruence]. split; [lia|congruence].
  - destruct (chan_closed s) eqn:Hc; [done|]. intros [= <-] [_ Hb] Ha. exists by_. cbn. split; [done|]. unfold answered in *. cbn. rewrite Hc in Ha.
    destruct by_; [|done|done|done]. destruct (writing s); [done|]. naive_solver.
  - case_bool_decide; [|done]. intros [= <-] _ Ha. by exists by_.
  - intros [= <-] -> Ha. exists DirectDone. cbn. split; [done|]. unfold answered in *. cbn. tauto.
  - intros [= <-] [Hc ->] Ha. exists Direct. cbn in *. split; [done|]. unfold answered in *. cbn. rewrite statuses_app. cbn.
    destruct Ha as (H1 & H2 & H3). repeat split; try done; destruct (writing s); [lia| |done|]; destruct H3 as [[H3 H4] | [H3 H4]]; [lia|congruence|done|congruence].
  - intros [= <-] -> Ha. exists Direct. cbn in *. split; [done|]. unfold answered in *. cbn. rewrite statuses_app. cbn. by rewrite Nat.add_0_r.
Qed.

Lemma answered_once by_ s : answered by_ s -> (statuses (received s) <= 1)%nat.
Proof.
  unfold answered. destruct by_; destruct (writing s); try (intros; lia).
  all: try (intros (_ & _ & [[_ ->]|[_ ->]]); lia). all: try (intros [-> _]; destruct (hr_HeaderResponded _); lia).
Qed.

Lemma life_step_inv s s' : life_inv s -> life_step stream s s' -> life_inv s'.
Proof.
  intros (by_ & Hm & Ha) Hs. destruct Hs as [X e k x s s' Hp Hx Hc|m c s Hw Hc|s Hw Hc Hcl|s Hw].
  - rewrite Hp in Hm. destruct Hm as [Hperm Hk]. destruct (call_inv e x s s' by_ Hc Hperm Ha) as (by' & Ho & Ha'). exists by'. cbn.
    split; [|done]. rewrite <- Ho. by apply Hk.
  - exists by_. unfold written. destruct (write_message stream m (http s)) as [[h' out] stop] eqn:E. split; [exact Hm|].
    unfold answered in *. cbn. rewrite Hw, Hc in Ha. destruct by_; [by destruct Ha| |by destruct Ha..]. destruct Ha as [Hn Hhr].
    destruct (write_message_once _ _ _ _ _ E Hhr) as [H1 H2]. rewrite statuses_app, Hn. destruct stop; cbn; [lia|]. destruct (H2 eq_refl) as [-> ->]. split; [lia|done].
  - exists by_. rewrite <- Hcl. split; [exact Hm|]. unfold answered, write_closed in *. cbn. rewrite Hw in Ha. rewrite statuses_app.
    destruct by_; [| |destruct Ha as (_ & Ha & _); congruence|].
    + destruct Ha as (_ & Hhr & ->). rewrite Hhr. cbn. by split; [|split; [|right]].
    + destruct Ha as [-> _]. destruct (hr_HeaderResponded (http s)); cbn; lia.
    + destruct Ha as (_ & -> & ->). cbn. done.
  - exists by_. split; [exact Hm|]. unfold answered in *. cbn. rewrite Hw in Ha. destruct by_; [by destruct Ha as (? & ? & ?); split; [|split; [|left]]| |by destruct Ha as (? & ? & ? & ? & _)|done].
    destruct Ha as [-> _]. destruct (hr_HeaderResponded (http s)); (split; [lia|done]).
Qed.
End once.

(** ** Programs that do not answer

    [quiet R p]: [p] leaves the channel and the client alone, and its result satisfies [R]. *)

Definition quiet {A} (R : A -> Prop) (p : gprog A) : Prop := forall g, mwp answer_monitor p (fun a g' => g' = g /\ R a) g.

Lemma quiet_ret {A} (R : A -> Prop) a : R a -> quiet R (Ret a).
Proof. intros Ha g. done. Qed.
Lemma quiet_panic {A} (R : A -> Prop) : quiet R Panic.
Proof. intros g. done. Qed.
Lemma quiet_lift {A} (o : option A) : quiet (fun _ => True) (lift o).
Proof. intros g. by destruct o. Qed.
Lemma quiet_bind {A B} (R : A -> Prop) (R' : B -> Prop) p f : quiet R p -> (forall a, R a -> quiet R' (f a)) -> quiet R' (p ≫= f).
Proof. intros Hp Hf g. apply mwp_bind. eapply mwp_mono; [apply Hp|]. cbn. intros a g' [-> Ha]. by apply Hf. Qed.
Lemma quiet_bind_any {A B} (R' : B -> Prop) p (f : A -> gprog B) : quiet (fun _ => True) p -> (forall a, quiet R' (f a)) -> quiet R' (p ≫= f).
Proof. intros Hp Hf. eapply quiet_bind; [exact Hp|auto]. Qed.

Definition quiet_call {X} (e : geff X) : Prop := match e with Send _ | CloseChan | ClientHeader _ | ClientWrite _ | SetHeaderResponded => False | _ => True end.

Lemma quiet_perform {X} (e : geff X) : quiet_call e -> quiet (answer_ok e) (perform e).
Proof. intros He g. by destruct e. Qed.
Lemma quiet_perform_any {X} (e : geff X) : quiet_call e -> quiet (fun _ => True) (perform e).
Proof. intros He g. by destruct e. Qed.
Lemma quiet_calls {A} H (p : gprog A) : calls_only H balancer_call p -> quiet (fun _ => True) p.
Proof.
  intros Hp g. induction p as [a| | |X e k IH]; cbn in Hp; [done..|]. destruct Hp as [He Hk]. cbn [mwp]. split; [by destruct e|]. intros x _.
  replace (observe answer_monitor e x g) with g by by destruct e. by apply IH.
Qed.

Create HintDb quiet.
#[export] Hint Resolve quiet_panic quiet_lift : quiet.
#[export] Hint Extern 1 (quiet _ (Ret _)) => (apply quiet_ret; done) : quiet.
#[export] Hint Extern 1 (quiet _ (perform _)) => (apply quiet_perform_any; exact I) : quiet.

Ltac quiet_step :=
  match goal with
  | |- quiet _ (mbind _ _) => apply quiet_bind_any; [|intros ?]
  | |- quiet _ (match ?x with _ => _ end) => destruct x
  | |- quiet _ _ => solve [eauto with quiet]
  end.
Ltac quiet_auto := repeat (cbn beta iota; quiet_step).

(** *** The engines' streams *)

(** Only the first chunk can carry an error that is worth another attempt. *)
Definition plain (c : StreamChunk) : Prop := forall e, chunk_Err c = Some e -> retryable e = false.
Definition late_plain (l : list StreamChunk) : Prop := Forall plain (tail l).

Definition stream_plain (s : sse_stream) : Prop :=
  (forall err, stream_end s = Some err -> retryable err = false) /\ retryable (too_long s) = false /\ (forall n err, interrupted s n = Some err -> retryable err = false).

Lemma plain_chunks s : stream_plain s -> Forall plain (stream_chunks s).
Proof.
  intros (He & Ht & Hi). destruct (stream_delivered s) as (k & last & _ & _ & Hs & ->).
  assert (Hend : forall e, retryable e = false -> Forall plain (end_chunk e)) by (intros e H; unfold end_chunk; case_bool_decide; repeat constructor; by intros ? [= <-]).
  apply Forall_app. split; [apply Forall_fmap, Forall_forall; by intros data _|].
  destruct Hs as [[_ ->]|[(ev & _ & _ & ->)|(m & e & _ & Hm & _ & ->)]]; [|by apply Hend|by eapply Hend, Hi].
  destruct (stream_end s); [by apply Hend, He|constructor].
Qed.

Lemma plain_late l : Forall plain l -> late_plain l.
Proof. destruct l; [done|]. by intros [_ H]%Forall_cons_iff. Qed.

Lemma late_plain_one c : late_plain [c].
Proof. unfold late_plain. cbn. constructor. Qed.

Definition plain_answer (r : gresult (sse_stream * gresult string)) : Prop := forall s t, r = GOk (s, t) -> stream_plain s.
Definition plain_forwarded (r : RequestContext * gresult (list StreamChunk)) : Prop := forall l, r.2 = GOk l -> late_plain l.

Lemma quiet_do_attempts k url body : quiet (fun r => forall c s t, r = GOk (c, s, t) -> stream_plain s) (do_attempts k url body).
Proof.
  induction k as [|k IH]; cbn [do_attempts]; (eapply quiet_bind; [by apply quiet_perform|]); intros [e timeout|status s text] Ha.
  - destruct timeout; by apply quiet_ret.
  - apply quiet_ret. by intros c s' t [= <- <- <-].
  - destruct timeout; [by apply quiet_ret|]. by apply quiet_bind_any; [apply quiet_perform_any|].
  - apply quiet_ret. by intros c s' t [= <- <- <-].
Qed.

Lemma quiet_doRequest url body : quiet plain_answer (doRequest url body).
Proof.
  eapply quiet_bind; [apply quiet_do_attempts|]. cbn. intros [[[c s] t]|e] Hr; apply quiet_ret; [|by intros ? ?]. case_bool_decide; [|by intros ? ?]. intros s' t' [= <- <-]. by eapply Hr.
Qed.

Lemma quiet_streamBackendResponse c w : quiet late_plain (streamBackendResponse c w).
Proof.
  eapply quiet_bind; [apply quiet_doRequest|]. intros [[s t]|e] Hr; apply quiet_ret; [|apply late_plain_one]. by eapply plain_late, plain_chunks, Hr.
Qed.

Lemma quiet_chunks_of req p : quiet late_plain p -> quiet plain_forwarded (chunks_of req p).
Proof. intros Hp. eapply quiet_bind; [exact Hp|]. intros l Hl. apply quiet_ret. by intros l' [= <-]. Qed.

Lemma quiet_failed req e : quiet plain_forwarded (failed req e).
Proof. apply quiet_ret. intros l [= <-]. apply late_plain_one. Qed.

Lemma quiet_refused req e : quiet plain_forwarded (Ret (req, GErr e)).
Proof. apply quiet_ret. by intros l. Qed.

Lemma quiet_request {A} (p : gprog (gresult (sse_stream * gresult string))) (f : _ -> A) : quiet plain_answer p -> quiet (fun _ => True) (r ← p; Ret (f r)).
Proof. intros Hp. eapply quiet_bind; [exact Hp|]. intros. by apply quiet_ret. Qed.
#[export] Hint Resolve quiet_failed quiet_refused : quiet.

Section forwarding.
Context (b : Balancer) (H : Prop) `{!BalancerCalls H b, EJ : EngineJson}.

Lemma quiet_get req : quiet (fun _ => True) (Get b req).
Proof. eapply quiet_calls, get_calls. Qed.
Lemma quiet_release req w : quiet (fun _ => True) (Release b req w).
Proof. eapply quiet_calls, release_calls. Qed.

Lemma quiet_with_pair req k : (forall p d, quiet plain_forwarded (k p d)) -> quiet plain_forwarded (with_pair req k).
Proof. intros Hk. unfold with_pair. quiet_auto. Qed.

Lemma quiet_staged req doP doD :
  (forall req p, quiet (fun _ => True) (doP req p)) -> (forall req p d, quiet plain_forwarded (doD req p d)) ->
  quiet plain_forwarded (stagedSchedulingForward b req doP doD).
Proof.
  intros HP HD. unfold stagedSchedulingForward. case_match; [|quiet_auto]. apply quiet_bind_any; [done|]. intros [req1 [e|]]; [quiet_auto|].
  apply quiet_bind_any.
  - unfold ScheduleDecode. case_bool_decide; [by apply quiet_ret|]. apply quiet_bind_any; [apply quiet_get|]. intros [[r|e] req2]; by apply quiet_ret.
  - intros [[res|e] req2]; quiet_auto.
Qed.

Lemma quiet_kvt_prefill req p : quiet (fun _ => True) (kvt_doPrefill req p).
Proof. unfold kvt_doPrefill. apply quiet_bind_any; [quiet_auto|]. intros c. destruct (kvt_buildPrefillRequestData c). apply quiet_request, quiet_doRequest. Qed.
Lemma quiet_mooncake_prefill req p : quiet (fun _ => True) (mooncake_doPrefill req p).
Proof. unfold mooncake_doPrefill. apply quiet_bind_any; [quiet_auto|]. intros c. apply quiet_request, quiet_doRequest. Qed.

#[local] Hint Resolve quiet_chunks_of quiet_streamBackendResponse quiet_kvt_prefill quiet_mooncake_prefill : quiet.

Lemma quiet_mooncake_decode req d : quiet plain_forwarded (mooncake_doDecode req d).
Proof. unfold mooncake_doDecode. quiet_auto. Qed.
#[local] Hint Resolve quiet_mooncake_decode : quiet.

Lemma quiet_Forward f req : quiet plain_forwarded (Forward f b req).
Proof.
  destruct f as [|mode|mode|mode]; cbn [Forward].
  - unfold neutral_Forward. quiet_auto.
  - unfold kvt_Forward, kvt_batch. repeat case_bool_decide; [apply quiet_with_pair; intros; quiet_auto| |quiet_auto].
    apply quiet_staged; [apply quiet_kvt_prefill|]. intros. unfold kvt_doDecode. quiet_auto.
  - unfold mooncake_Forward, mooncake_batch. repeat case_bool_decide; [apply quiet_with_pair; intros| |quiet_auto].
    + apply quiet_bind_any; [quiet_auto|]. intros [req1 [e|]]; quiet_auto.
    + apply quiet_staged; [apply quiet_mooncake_prefill|]. intros. quiet_auto.
  - apply quiet_with_pair. intros p d. unfold sgl_buildRequestData. apply quiet_bind_any; [quiet_auto|]. intros c. apply quiet_chunks_of. unfold parallelRequestAndStream.
    eapply quiet_bind; [apply quiet_doRequest|]. intros rp _. eapply quiet_bind; [apply quiet_doRequest|]. intros rd Hd.
    destruct rp as [[s1 t1]|], rd as [[s2 t2]|]; try (apply quiet_ret, late_plain_one); [apply quiet_ret; by eapply plain_late, plain_chunks, Hd|].
    apply quiet_bind_any; [quiet_auto|]. intros. apply quiet_ret, late_plain_one.
Qed.
End forwarding.

(** *** Programs that answer on the channel *)

Abbreviation nobody := (mkAnswer false Nobody).
Definition open_answer (g : answer_state) : Prop := r_closed g = false /\ (r_by g = Nobody \/ r_by g = ByChannel).
Definition talks {A} (p : gprog A) : Prop := forall g, open_answer g -> mwp answer_monitor p (fun _ g' => open_answer g') g.

Lemma talks_quiet {A} (R : A -> Prop) p : quiet R p -> talks p.
Proof. intros Hp g Hg. eapply mwp_mono; [apply Hp|]. by intros a g' [-> _]. Qed.
Lemma talks_bind {A B} (p : gprog A) (f : A -> gprog B) : talks p -> (forall a, talks (f a)) -> talks (p ≫= f).
Proof. intros Hp Hf g Hg. apply mwp_bind. eapply mwp_mono; [by apply Hp|]. intros a g' Hg'. by apply Hf. Qed.
Lemma talks_send m : talks (perform (Send m)).
Proof. intros g [Hc Hb]. cbn. split; [done|]. intros [] _. split; [done|by right]. Qed.
Lemma talks_ret {A} (a : A) : talks (Ret a).
Proof. by intros g Hg. Qed.
Lemma talks_panic {A} : talks (@Panic geff A).
Proof. by intros g Hg. Qed.
#[export] Hint Resolve talks_ret talks_panic talks_send : quiet.
#[export] Hint Extern 2 (talks _) => (eapply talks_quiet; solve [eauto with quiet]) : quiet.

Ltac talks_step :=
  match goal with
  | |- talks (mbind _ _) => apply talks_bind; [|intros ?]
  | |- talks (match ?x with _ => _ end) => destruct x
  | |- talks _ => solve [eauto with quiet]
  end.
Ltac talks_auto := repeat (cbn beta iota; talks_step).

(** After an attempt: an error that is worth another attempt means that nothing was sent. *)
Definition spoken (r : RequestContext * option gerror) (g : answer_state) : Prop :=
  open_answer g /\ forall e, r.2 = Some e -> retryable e = true -> g = nobody.

Section handling.
Context `{SG : Sglang, EJ : EngineJson} (hk : RequestStateManagementHooks).
Context (hk_prefill : forall req, quiet (fun _ => True) (OnPostPrefill hk req)) (hk_first : forall req, quiet (fun _ => True) (OnPostDecodeFirstStreamResponse hk req))
  (hk_each : forall req, quiet (fun _ => True) (OnPostDecodeEachStreamResponse hk req)).

Lemma talks_processAndWriteChunk h done req : talks (processAndWriteChunk h done req).
Proof.
  unfold processAndWriteChunk. apply talks_bind; [talks_auto|]. intros t. apply talks_bind; [talks_auto|]. intros [req1 [e|]]; [talks_auto|].
  apply talks_bind; [talks_auto|]. intros t'. destruct (marshalResponse _) as [req2 [data|e]]; [|talks_auto]. unfold Handler.writeResponse. talks_auto.
Qed.

Lemma spoken_none (p : gprog (RequestContext * option gerror)) g :
  (forall g, open_answer g -> mwp answer_monitor p (fun r g' => r.2 = None /\ open_answer g') g) -> open_answer g -> mwp answer_monitor p spoken g.
Proof. intros Hp Hg. eapply mwp_mono; [by apply Hp|]. intros r g' [Hr Hg']. split; [done|]. by rewrite Hr. Qed.

Lemma spoken_report req e g : open_answer g -> mwp answer_monitor (report_error req e) spoken g.
Proof. apply spoken_none. intros g' [Hc Hb]. cbn. split; [done|]. intros [] _. by repeat split; [|right]. Qed.

Lemma spoken_ret req g : open_answer g -> mwp answer_monitor (Ret (req, None)) spoken g.
Proof. intros Hg. split; [done|]. by cbn. Qed.

(** A program that talks, then a match on its error. *)
Lemma spoken_bind {A} (p : gprog A) f g : talks p -> open_answer g -> (forall a g, open_answer g -> mwp answer_monitor (f a) spoken g) -> mwp answer_monitor (p ≫= f) spoken g.
Proof. intros Hp Hg Hf. apply mwp_bind. eapply mwp_mono; [by apply Hp|]. intros a g' Hg'. by apply Hf. Qed.

Lemma spoken_final h data req g : open_answer g -> mwp answer_monitor (final_chunk h data req) spoken g.
Proof.
  intros Hg. unfold final_chunk. case_bool_decide; [by apply spoken_ret|]. destruct (parseResponse data req) as [req1 [e|]]; [case_bool_decide; [|by apply spoken_report]|];
    (apply spoken_bind; [apply talks_processAndWriteChunk|done|]; intros [req2 [e'|]] g' Hg'; [by apply spoken_report|by apply spoken_ret]).
Qed.

Lemma quiet_record_chunk pos t req : quiet (fun _ => True) (record_chunk hk pos t req).
Proof. destruct pos; cbn [record_chunk]; quiet_auto. Qed.

Lemma spoken_loop h chunks pos t req g :
  (g = nobody /\ late_plain chunks) \/ (open_answer g /\ Forall plain chunks) -> mwp answer_monitor (chunk_loop h hk chunks pos t req) spoken g.
Proof.
  revert pos t req g. induction chunks as [|c chunks IH]; intros pos t req g Hg; cbn [chunk_loop].
  { apply spoken_ret. destruct Hg as [[-> _]|[? _]]; [|done]. by split; [|left]. }
  assert (open_answer g) as Ho by (destruct Hg as [[-> _]|[? _]]; [by split; [|left]|done]).
  assert (Forall plain chunks) as Hl by (destruct Hg as [[_ ?]|[_ [_ ?]%Forall_cons_iff]]; done).
  apply mwp_bind. eapply mwp_mono; [apply quiet_record_chunk|]. intros [req1 t1] g' [-> _]. destruct (chunk_Err c) as [e|] eqn:Ee.
  - case_bool_decide; [by apply spoken_final|]. apply mwp_bind, mwp_perform; [done|]. intros r _. change (observe answer_monitor HeaderResponded r g) with g.
    destruct (negb r); [|by apply spoken_report]. split; [done|]. cbn. intros e' [= <-] Hr.
    destruct Hg as [[-> _]|[_ [Hp _]%Forall_cons_iff]]; [done|]. rewrite (Hp _ Ee) in Hr. done.
  - destruct (parseResponse _ _) as [req2 err]. destruct (if bool_decide (err = Some EOF) then None else err) as [e|]; [by apply spoken_report|].
    apply spoken_bind; [case_bool_decide; [eapply talks_quiet, hk_each|talks_auto]|done|]. intros req3 g3 Hg3.
    apply spoken_bind; [apply talks_processAndWriteChunk|done|]. intros [req4 [e|]] g4 Hg4; [by apply spoken_report|].
    destruct (OutputExceedMaxTokens _); [|apply IH; by right]. apply spoken_bind; [apply talks_processAndWriteChunk|done|]. intros [req5 e] g5 Hg5. by apply spoken_ret.
Qed.

Lemma spoken_Handle (b : Balancer) H `{!BalancerCalls H b} h req : mwp answer_monitor (Handle h b hk req) spoken nobody.
Proof.
  unfold Handle. apply mwp_bind. eapply mwp_mono; [by eapply quiet_Forward|]. intros [req1 [chunks|e]] g [-> Hf]; [apply spoken_loop; left; split; [done|by apply Hf]|].
  split; [by split; [|left]|done].
Qed.
End handling.

(** ** The routes *)

(** At most one of the engines and the external services answers a request, unless the
    retry queue retries a fallback behind the back of a request that gave up. *)
Definition single_answer (gw : LlmGatewayService) : Prop := FallbackRetryQueueEnabled (config gw) = false \/ fallbackConfigs (router gw) = [].

(** What a program leaves that may write an external answer: without an error somebody
    answered or nobody will, with an error nobody did. *)
Definition offered (err : option gerror) (g : answer_state) : Prop :=
  r_closed g = false /\ (r_by g = Nobody \/ r_by g = DirectDone) /\ (err <> None -> r_by g = Nobody).

Lemma offered_copy l g : r_by g = Direct -> mwp answer_monitor (copy_body l) (fun _ g' => g' = g) g.
Proof. intros Hg. induction l as [|s l IH]; cbn; [done|]. by split. Qed.

Lemma offered_proxy path req dst : mwp answer_monitor (proxyToExternal path req dst) offered nobody.
Proof.
  unfold proxyToExternal. cbn -[copy_body]. split; [done|]. intros [e|status body] _; cbn -[copy_body]; [by split; [|split; [left|]]|].
  case_bool_decide; cbn -[copy_body]; [by split; [|split; [left|]]|]. split; [done|]. intros [e|] _; cbn -[copy_body]; [by split; [|split; [left|]]|].
  split; [done|]. intros [] _. apply mwp_bind. eapply mwp_mono; [by apply offered_copy|]. cbn. intros _ g ->. split; [done|]. intros [] _. by split; [|split; [right|]].
Qed.

(** What a route leaves before it closes the channel. *)
Definition settled (g : answer_state) : Prop := r_closed g = false /\ r_by g <> Direct.

Lemma open_settled g : open_answer g -> settled g.
Proof. intros [Hc Hb]. split; [done|]. by destruct Hb as [-> | ->]. Qed.

Lemma offered_nobody e g : offered (Some e) g -> g = nobody.
Proof. destruct g, 1 as (Hc & _ & Hb). cbn in *. by rewrite Hc, Hb. Qed.

Lemma settled_send {A} (a : A) e : mwp answer_monitor (_ ← send_error e; Ret a) (fun _ g => settled g) nobody.
Proof. cbn. split; [by split; [|left]|]. by intros [] _. Qed.

Lemma settled_offered {A} err e (a : A) g : offered err g -> mwp answer_monitor (match err with Some _ => _ ← send_error e; Ret a | None => Ret a end) (fun _ g => settled g) g.
Proof.
  intros Hg. destruct err as [e'|]; [rewrite (offered_nobody _ _ Hg); apply settled_send|]. destruct Hg as (Hc & Hb & _). split; [done|]. by destruct Hb as [-> | ->].
Qed.

Section routes.
Context (gw : LlmGatewayService) (Hsingle : single_answer gw) (H : Prop) `{!BalancerCalls H (balancer gw)}.

Lemma offered_loop fuel path skip req err : mwp answer_monitor (fallback_loop gw fuel path skip req err) (fun r => offered r.2) nobody.
Proof.
  revert req err. induction fuel as [|fuel IH]; intros req err; cbn [fallback_loop]; [done|].
  assert (forall r, mwp answer_monitor (Ret r) (fun r : RequestContext * option gerror => offered r.2) nobody) as Hret by (intros r; by split; [|split; [left|]]).
  destruct (negb _) eqn:Hcan; [apply Hret|]. apply mwp_bind, mwp_perform; [done|]. intros r _. destruct r; [apply Hret|].
  destruct (Fallback _ _) as [[[dst n]|e]|]; cbn [lift]; [|apply Hret|done]. rewrite bind_ret. set (req' := upd_stats _ req).
  case_bool_decide; [apply IH|]. apply mwp_bind. eapply mwp_mono; [apply offered_proxy|]. intros [e|] g Hg; [|exact Hg]. rewrite (offered_nobody _ _ Hg).
  destruct Hsingle as [Hq|Hn]; [|apply negb_false_iff in Hcan; unfold CanFallback in Hcan; by rewrite Hn in Hcan].
  rewrite Hq, andb_false_r. unfold fallback_pause. apply mwp_bind, mwp_perform; [done|]. intros [d|] _; [apply Hret|apply IH].
Qed.

Lemma settled_fallback_or_error path req : mwp answer_monitor (fallback_or_error gw path req) (fun _ g => settled g) nobody.
Proof.
  unfold fallback_or_error. apply mwp_bind. eapply mwp_mono; [apply offered_loop|]. intros [req1 err] g Hg. 
  destruct err as [e|]; [exact (settled_offered (Some e) e req1 g Hg)|exact (settled_offered None EOF req1 g Hg)].
Qed.

Lemma settled_fallback_or path req e : mwp answer_monitor (fallback_or gw path req e) (fun _ g => settled g) nobody.
Proof. unfold fallback_or. destruct (CanFallback _ _); [apply settled_fallback_or_error|apply settled_send]. Qed.

Lemma quiet_release_opt req w : quiet (fun _ => True) (release_opt (balancer gw) req w).
Proof. destruct w; [by eapply quiet_release|by apply quiet_ret]. Qed.
Lemma quiet_release_all req ws : quiet (fun _ => True) (release_all (balancer gw) req ws).
Proof. induction ws as [|w ws IH]; cbn [release_all]; [by apply quiet_ret|]. apply quiet_bind_any; [by eapply quiet_release|done]. Qed.
#[local] Hint Resolve quiet_release_opt quiet_release_all : quiet.

Lemma quiet_hook_prefill req : quiet (fun _ => True) (hook_OnPostPrefill gw req).
Proof. unfold hook_OnPostPrefill. quiet_auto. Qed.
Lemma quiet_hook_first req : quiet (fun _ => True) (hook_OnPostDecodeFirstStreamResponse gw req).
Proof. unfold hook_OnPostDecodeFirstStreamResponse. quiet_auto. Qed.
Lemma quiet_hook_each req : quiet (fun _ => True) (hook_OnPostDecodeEachStreamResponse gw req).
Proof. unfold hook_OnPostDecodeEachStreamResponse. quiet_auto. Qed.
Lemma quiet_hook_request req : quiet (fun _ => True) (hook_OnPostRequest gw req).
Proof. unfold hook_OnPostRequest. quiet_auto. Qed.

Context `{SG : Sglang, EJ : EngineJson}.

(** Before another attempt nothing was sent; one that does not take place is settled. *)
Lemma settled_reschedule path e req :
  mwp answer_monitor (reschedule gw path e req) (fun r g => if r.2 then g = nobody else settled g) nobody.
Proof.
  unfold reschedule. apply mwp_bind, mwp_perform; [done|]. intros [c|] _; [cbn; split; [by split; [|left]|]; by intros [] _|].
  apply mwp_bind. eapply mwp_mono; [apply quiet_release_all|]. intros _ g [-> _].
  apply mwp_bind. eapply mwp_mono; [by eapply quiet_get|]. intros [[res|e'] req1] g [-> _]; [done|].
  apply mwp_bind. eapply mwp_mono; [apply settled_fallback_or|]. by cbn.
Qed.

Lemma settled_attempts k attempt path e req : mwp answer_monitor (route_attempts gw k attempt path e req) (fun _ g => settled g) nobody.
Proof.
  revert attempt e req. induction k as [|k IH]; intros attempt e req; cbn [route_attempts]; [done|].
  apply mwp_bind. eapply (mwp_mono _ _ (fun (r : RequestContext * bool) g => if r.2 then g = nobody else settled g)); [destruct e; [apply settled_reschedule|done]|].
  intros [req1 go] g Hg. destruct go; cbn [negb]; [|done]. cbn in Hg. subst g.
  apply mwp_bind. eapply mwp_mono.
  { eapply spoken_Handle; [apply quiet_hook_prefill|apply quiet_hook_first|apply quiet_hook_each|exact _]. }
  intros [req2 [e'|]] g [Ho He]; [|by apply open_settled].
  destruct (retryable e') eqn:Hr; cbn [negb]; [|cbn; split; [done|]; intros [] _; by apply open_settled; split; [apply Ho|right]].
  rewrite (He e' eq_refl Hr). apply mwp_bind, mwp_perform; [done|]. intros r _. destruct r; [done|].
  case_bool_decide; [apply settled_fallback_or|]. apply mwp_bind, mwp_perform; [done|]. intros [c|] _; [apply settled_send|apply IH].
Qed.

(** Closing the channel when the request is settled, and quiet work after it. *)
Lemma settled_close (p : gprog RequestContext) f g :
  mwp answer_monitor p (fun _ g => settled g) g -> (forall req, quiet (fun _ => True) (f req)) -> answers_once (req ← p; _ ← perform CloseChan; f req) g.
Proof.
  intros Hp Hf. unfold answers_once. apply mwp_bind. eapply mwp_mono; [exact Hp|]. intros req g' [Hc Hb].
  apply mwp_bind, mwp_perform; [done|]. intros [] _. eapply mwp_mono; [apply Hf|]. by intros a g2 [-> _].
Qed.

Lemma quiet_ret_any {A} (a : A) : quiet (fun _ => True) (Ret a).
Proof. by apply quiet_ret. Qed.

Lemma settled_external path dst req (err : option gerror) g : offered err g ->
  mwp answer_monitor (match err with
    | None => Ret req
    | Some e =>
        if negb (CanFallback (FallbackAttempt (req_Stats req)) (router gw)) then _ ← send_error e; Ret req
        else '(req, ferr) ← tryFallback gw path [re_URL dst] req; match ferr with Some _ => _ ← send_error e; Ret req | None => Ret req end
    end) (fun _ g => settled g) g.
Proof.
  intros Hg. destruct err as [e|]; [|exact (settled_offered None EOF req g Hg)].
  rewrite (offered_nobody _ _ Hg). destruct (negb _); [apply settled_send|]. apply mwp_bind. eapply mwp_mono; [apply offered_loop|].
  intros [req1 err] g1 Hg1. exact (settled_offered err e req1 g1 Hg1).
Qed.

Lemma quiet_route req : quiet (fun _ => True) (route gw req).
Proof. unfold route. quiet_auto. Qed.

Lemma dispatch_answers_once path req : answers_once (dispatchRequest gw path req) nobody.
Proof.
  unfold dispatchRequest, answers_once. apply mwp_bind. eapply mwp_mono; [apply quiet_route|]. intros [dst rt] g [-> _]. destruct rt.
  - apply settled_close; [apply settled_fallback_or_error|apply quiet_ret_any].
  - apply mwp_bind. eapply mwp_mono; [by eapply quiet_get|]. intros [[res|e] req1] g [-> _].
    + apply settled_close; [apply settled_attempts|apply quiet_hook_request].
    + apply settled_close; [apply settled_fallback_or|apply quiet_ret_any].
  - destruct dst as [dst|]; [|done]. unfold externalRouteRequest. apply mwp_bind. eapply mwp_mono; [apply offered_proxy|]. intros err g Hg.
    apply settled_close; [by apply settled_external|apply quiet_ret_any].
Qed.
End routes.

(** C5. However the goroutine that serves a request and the one that writes to the client interleave
    and whatever the other services answer, the client never gets two status lines, and exactly one
    when both are done and it has stayed. It takes a balancer that makes only its own calls, a
    gateway without fallback services or without the background retry of fallbacks, and streams of
    engines that break off with errors that are not among the gateway's own retryable ones. *)
Theorem one_status_line (H : Prop) gw path req stream s `{SG : Sglang, EJ : EngineJson, ET : ErrorText} :
  BalancerCalls H (balancer gw) -> single_answer gw -> rtc (life_step stream) (start (dispatchRequest gw path req)) s ->
  (statuses (received s) <= 1)%nat /\
  (forall req', producer s = Ret req' -> chan_closed s = true /\ (writing s = true -> exists s', life_step stream s s') /\
    (writing s = false -> cancelled s = false -> statuses (received s) = 1%nat)).
Proof.
  intros Hb Hs Hr. assert (life_inv stream s) as (by_ & Hm & Ha).
  { eapply (rtc_ind_r (life_inv stream)); [|intros ? ? _ Hst Hi; by eapply life_step_inv|exact Hr]. exists Nobody. split; [|done]. by eapply dispatch_answers_once. }
  split; [by eapply answered_once|]. intros req' Hp. rewrite Hp in Hm. cbn in Hm. split; [done|]. split.
  - intros Hw. destruct (chan s) as [|m c] eqn:Ec; eexists; [by apply StepClosed|by apply StepWrite].
  - intros Hw Hc. unfold answered in Ha. rewrite Hw in Ha. destruct by_; [|by apply Ha..]. destruct Ha as (_ & _ & [[Hx _]|[_ Hx]]); [congruence|done].
Qed.

(** ** Runs

    A run that is given by a schedule and the answers of the environment. *)

Inductive play_turn := Produce | Write | Cancel.

Section play.
Context `{ErrorText} {S : Type} (stream : bool) (w : Handler geff S).

Definition reply {X} (e : geff X) (s : life) (st : S) : X * S :=
  match e in geff X return X * S -> X * S with
  | HeaderResponded => fun _ => (hr_HeaderResponded (http s), st)
  | _ => fun r => r
  end (w _ e st).

Definition play1 (t : play_turn) (s : life) (st : S) : life * S :=
  match t with
  | Produce =>
      match producer s with
      | Do e k => let '(x, st') := reply e s st in match call e x s with Some s' => (with_producer (k x) s', st') | None => (s, st) end
      | _ => (s, st)
      end
  | Write =>
      if writing s then
        match chan s with
        | m :: c => (written stream m c s, st)
        | [] => if chan_closed s then (mkLife (producer s) [] true (http s) (received s ++ write_closed (http s)) false (cancelled s), st) else (s, st)
        end
      else (s, st)
  | Cancel => if writing s then (mkLife (producer s) (chan s) (chan_closed s) (write_done (http s)) (received s) false true, st) else (s, st)
  end.

Fixpoint play (l : list play_turn) (s : life) (st : S) : life :=
  match l with [] => s | t :: l => let '(s, st) := play1 t s st in play l s st end.

Context (w_ok : forall X (e : geff X) st, answer_ok e (w X e st).1).

Lemma reply_ok {X} (e : geff X) s st : answer_ok e (reply e s st).1.
Proof. pose proof (w_ok X e st) as Hw. by destruct e. Qed.

Lemma play1_rtc t s st : rtc (life_step stream) s (play1 t s st).1.
Proof.
  destruct t; cbn.
  - destruct (producer s) as [| | |X e k] eqn:E; try apply rtc_refl. pose proof (reply_ok e s st) as Hx. destruct (reply e s st) as [x st'].
    destruct (call e x s) as [s'|] eqn:Ec; [|apply rtc_refl]. by eapply rtc_once, StepCall.
  - destruct (writing s) eqn:Ew; [|apply rtc_refl]. destruct (chan s) as [|m c] eqn:Ec; [|by apply rtc_once, StepWrite].
    destruct (chan_closed s) eqn:Ecl; [|apply rtc_refl]. by apply rtc_once, StepClosed.
  - destruct (writing s) eqn:Ew; [|apply rtc_refl]. by apply rtc_once, StepDone.
Qed.

Lemma play_rtc l s st : rtc (life_step stream) s (play l s st).
Proof.
  revert s st. induction l as [|t l IH]; intros s st; cbn [play]; [apply rtc_refl|].
  pose proof (play1_rtc t s st) as Ht. destruct (play1 t s st) as [s1 st1]. etransitivity; [exact Ht|apply IH].
Qed.
End play.

Definition example_text : ErrorText := {| Error _ := "error"%string |}.

(** The example of [Gateway.v]: the engine fails once, the retry streams one chunk. *)
Lemma example_world_ok X (e : geff X) st : answer_ok e (example_world X e st).1.
Proof. destruct e; cbn; try done. by case_bool_decide. Qed.

Definition example_life : life :=
  play (H := example_text) false example_world (replicate 60 Produce ++ replicate 3 Write) (start example_program) 0%nat.

Lemma one_status_line_witness :
  (statuses (received example_life) <= 1)%nat /\
  (forall req', producer example_life = Ret req' -> chan_closed example_life = true /\
    (writing example_life = true -> exists s', life_step (H := example_text) false example_life s') /\
    (writing example_life = false -> cancelled example_life = false -> statuses (received example_life) = 1%nat)).
Proof.
  apply (one_status_line True example_gateway "/v1/completions" (example_completion false) false example_life (SG := example_sglang) (EJ := example_json) (ET := example_text)
    (composite_calls example_balancer)); [by left|]. apply (play_rtc (H := example_text) false example_world example_world_ok).
Defined.

Lemma example_answered : received example_life <> [] /\ writing example_life = false /\ chan_closed example_life = true.
Proof. vm_compute. done. Qed.

(** ** A client that leaves

    The producer's sends do not look at the context. *)

(** An engine that streams 101 chunks. *)
Definition long_world : Handler geff nat := fun X e n =>
  match e in geff X return X * nat with
  | EngineDo _ _ => (EngineResponse 200 (calm_stream (replicate 101 "hi"%string)) (GOk ""%string), n)
  | e => example_world _ e n
  end.

Lemma long_world_ok X (e : geff X) st : answer_ok e (long_world X e st).1.
Proof. pose proof (example_world_ok X e st) as He. by destruct e. Qed.

(** Without request tracking, which would crash the gateway at the end of the stream. *)
Definition quiet_gateway : LlmGatewayService :=
  mkGateway (mkGatewayConfig 0 0 false "" false false) example_handler (NewBalancer example_balancer) (mkRouter "" [] []) (NewRateLimitRetryQueue 8 1 3 100 1000) 3.
Definition long_program : gprog RequestContext :=
  dispatchRequest (SG := example_sglang) (EJ := example_json) quiet_gateway "/v1/completions" (example_completion true).
Definition abandoned_life : life := play (H := example_text) true long_world (Cancel :: replicate 1000 Produce) (start long_program) 0%nat.

Definition blocked (s : life) : bool :=
  negb (writing s) && bool_decide (length (chan s) = chan_capacity) && match producer s with Do (Send _) _ => true | _ => false end.

Lemma blocked_stuck `{ErrorText} stream s s' : blocked s = true -> ~ life_step stream s s'.
Proof.
  unfold blocked. rewrite !andb_true_iff, negb_true_iff, bool_decide_eq_true. intros [[Hw Hl] Hp] Hs. destruct Hs as [X e k x s s' He _ Hc|m c s Hw'|s Hw'|s Hw']; try congruence.
  rewrite He in Hp. destruct e; try done. cbn in Hc. rewrite bool_decide_eq_false_2 in Hc; [done|]. intros [_ Hlt]. lia.
Qed.

(** A client that leaves can leak its request: when the writing goroutine has returned at the end of the context and a hundred messages are
    undelivered, the goroutine that serves the request waits in a send that nothing will ever receive; the channel stays open and the request's instances
    are never released. *)
Theorem abandoned_client_leaks_request :
  rtc (life_step (H := example_text) true) (start long_program) abandoned_life /\ chan_closed abandoned_life = false /\
  forall s', ~ life_step (H := example_text) true abandoned_life s'.
Proof.
  split; [apply (play_rtc (H := example_text) true long_world long_world_ok)|]. split; [vm_compute; reflexivity|]. intros s'. apply blocked_stuck. vm_compute. reflexivity.
Qed.
