(* ===== verification/GatewayRelease.v ===== *)
(** * Scheduled instances are given back

    In lite mode the scheduler counts the requests on every instance from its own decisions
    and from the gateway's releases ([Lrs]), so each instance that it hands out for a request
    has to be released exactly once. This file watches the scheduler's side of every run of
    [dispatchRequest]. *)

From Stdlib Require Import Ascii.
From stdpp Require Import base gmap list strings numbers.
From S2P Require Import Prelude GoStrings Types Programs GatewayErrors LrsClient Router WorkerPool Reasoning Protocol Processor GatewayEffects Balancer Forwarder Handler Gateway.

Local Open Scope Z_scope.

(** ** The scheduler's ledger *)

Record ledger := mkLedger { acquired : list LLMInstance; released : list LLMInstance }.

Definition is_neutral (w : LLMInstance) : Prop := InstInferType w = InferTypeNeutral.

(** A scheduler that stays reachable from the gateway at [ep], answers with one neutral
    instance or that all are busy, and takes every release. *)
Definition reliable (ep : string) (X : Type) (e : geff X) : X -> Prop :=
  match e in geff X return X -> Prop with
  | RemoteReady => fun b => b = true
  | LocalEndpoint => fun s => s = ep
  | PostRelease _ _ => fun b => b = true
  | PostSchedule _ _ => fun a =>
      match a with
      | SchedulerResponse status (Some q) => status = 429 \/ (status = 200 /\ exists w, sr_SchedulingResult q = [w] /\ is_neutral w)
      | SchedulerResponse status None => status = 429
      | SchedulerError | SchedulerBodyError => False
      end
  | _ => fun _ => True
  end.

Definition book (X : Type) (e : geff X) : X -> ledger -> ledger :=
  match e in geff X return X -> ledger -> ledger with
  | PostSchedule _ _ => fun a g =>
      match a with
      | SchedulerResponse status (Some q) => if bool_decide (status = 200) then mkLedger (acquired g ++ sr_SchedulingResult q) (released g) else g
      | _ => g
      end
  | PostRelease _ q => fun _ g => mkLedger (acquired g) (released g ++ sr_SchedulingResult q)
  | _ => fun _ g => g
  end.

Definition ledger_monitor (ep : string) : Monitor geff ledger := mkMonitor (fun _ _ _ => True) (reliable ep) book (fun _ => True) (fun _ => True).

Section release.
Context (ep : string).
Abbreviation M := (ledger_monitor ep).

(** ** The balancer *)

(** Two contexts with the same scheduling results, borrowing gateway and need of scheduling. *)
Definition same_sched (r r' : RequestContext) : Prop :=
  SchedulingResults (req_Sched r') = SchedulingResults (req_Sched r) /\ sx_GatewayId (req_Sched r') = sx_GatewayId (req_Sched r) /\
  NotNeedScheduling (req_Sched r') = NotNeedScheduling (req_Sched r).

Lemma same_refl r : same_sched r r.
Proof. done. Qed.
Lemma same_trans r1 r2 r3 : same_sched r1 r2 -> same_sched r2 r3 -> same_sched r1 r3.
Proof. intros (A1 & A2 & A3) (B1 & B2 & B3). unfold same_sched. by rewrite B1, B2, B3, A1, A2, A3. Qed.

(** What [Get] does: on success one more neutral instance is borrowed, in the name of [ep]. *)
Definition got (req : RequestContext) (g : ledger) (r : gresult SchedulingResult * RequestContext) (g' : ledger) : Prop :=
  SchedulingResults (req_Sched r.2) = SchedulingResults (req_Sched req) /\ NotNeedScheduling (req_Sched r.2) = NotNeedScheduling (req_Sched req) /\
  match r.1 with
  | GOk res => (exists w, res = [w] /\ is_neutral w) /\ sx_GatewayId (req_Sched r.2) = ep /\ g' = mkLedger (acquired g ++ res) (released g)
  | GErr _ => g' = g
  end.

Lemma doSchedule_got cfg req g :
  mwp M (doSchedule cfg req) (fun r g' => got req g r g' /\ (forall e, r.1 = GErr e -> e = Sentinel ErrorNoAvailableEndpoint)) g.
Proof.
  unfold doSchedule, createSchedulingRequest. cbn. split; [done|]. intros ready ->. cbn. split; [done|]. intros local ->. cbn. split; [done|]. intros remote _. cbn. split; [done|].
  intros [| |status [q|]] Hx; try done; cbn.
  - destruct Hx as [-> | [-> (w & Hq & Hw)]]; cbn.
    + split; [done|]. by intros e [= <-].
    + unfold handleResponse. rewrite Hq. cbn. split; [|done]. split; [done|]. split; [done|]. cbn. split; [by exists w|]. split; [done|]. done.
  - subst status. cbn. split; [done|]. by intros e [= <-].
Qed.

Lemma schedule_loop_got fuel cfg t req g :
  mwp M (schedule_loop fuel cfg t req) (fun r g' => got req g r g' /\ (forall e, r.1 = GErr e -> e = Sentinel ErrorNoAvailableEndpoint)) g.
Proof.
  revert req. induction fuel as [|fuel IH]; intros req; cbn [schedule_loop]; [done|]. apply mwp_bind. eapply mwp_mono; [apply doSchedule_got|].
  cbn. intros [[res|e] req1] g1 [(H1 & H2 & H3) He]; cbn in *; [done|]. subst g1. rewrite (He e eq_refl). cbn. split; [done|]. intros now _.
  case_bool_decide; cbn; [by split; [split|intros e' [= <-]]|]. split; [done|]. intros _ _. eapply mwp_mono; [apply IH|].
  intros [r req2] g2 [(A1 & A2 & A3) HA]. split; [|done]. unfold got in *. cbn in *. by rewrite A1, A2, H1, H2.
Qed.

Lemma Get_got cb req g : cb_mode cb = RemoteBalancer -> NotNeedScheduling (req_Sched req) = false -> mwp M (Balancer_Get cb req) (got req g) g.
Proof.
  intros Hm Hn. unfold Balancer_Get. rewrite Hn, Hm. unfold getWithFallback, SchedulerClient_Get. apply mwp_bind. cbn. split; [done|]. intros t _. cbn. split; [done|]. intros ready ->. cbn.
  eapply mwp_mono; [apply schedule_loop_got|]. intros [[res|e] req1] g1 [Hg He]; cbn in *; [done|]. by rewrite (He e eq_refl).
Qed.

Lemma Release_books cb req w g : cb_mode cb = RemoteBalancer -> sx_GatewayId (req_Sched req) = ep ->
  mwp M (Balancer_Release cb req w) (fun _ g' => g' = mkLedger (acquired g) (released g ++ [w])) g.
Proof.
  intros Hm Hid. unfold Balancer_Release, SchedulerClient_Release. rewrite Hm. cbn. split; [done|]. intros local ->. cbn. split; [done|]. intros ready ->. cbn.
  rewrite Hid, bool_decide_eq_false_2 by (by intros []). cbn. split; [done|]. intros local ->. cbn. split; [done|]. intros remote _. cbn. split; [done|]. by intros ok ->.
Qed.

(** ** Programs that leave the scheduling alone *)

Definition keeps {A} (ctx : A -> RequestContext) (req : RequestContext) (p : gprog A) : Prop :=
  forall g, mwp M p (fun a g' => same_sched req (ctx a) /\ g' = g) g.

Lemma keeps_ret {A} (ctx : A -> RequestContext) req a : same_sched req (ctx a) -> keeps ctx req (Ret a).
Proof. by intros Hs g. Qed.
Lemma keeps_panic {A} (ctx : A -> RequestContext) req : keeps ctx req Panic.
Proof. by intros g. Qed.
Lemma keeps_hang {A} (ctx : A -> RequestContext) req : keeps ctx req Hang.
Proof. by intros g. Qed.

Lemma keeps_sched_bind {A B} (ctx : A -> RequestContext) (ctx' : B -> RequestContext) req (p : gprog A) (f : A -> gprog B) :
  keeps ctx req p -> (forall a, same_sched req (ctx a) -> keeps ctx' req (f a)) -> keeps ctx' req (p ≫= f).
Proof. intros Hp Hf g. apply mwp_bind. eapply mwp_mono; [apply Hp|]. cbn. intros a g1 [H1 ->]. by apply Hf. Qed.

(** A program without a context in its result. *)
Lemma keeps_then {A B} (ctx : B -> RequestContext) req (p : gprog A) (f : A -> gprog B) :
  keeps (fun _ => req) req p -> (forall a, keeps ctx req (f a)) -> keeps ctx req (p ≫= f).
Proof. intros Hp Hf. apply (keeps_sched_bind (fun _ => req)); [done|]. intros a _. apply Hf. Qed.

Lemma keeps_from {A} (ctx : A -> RequestContext) req req' (p : gprog A) : same_sched req req' -> keeps ctx req' p -> keeps ctx req p.
Proof. intros Hs Hp g. eapply mwp_mono; [apply Hp|]. cbn. intros a g' [H1 H2]. split; [by eapply same_trans|done]. Qed.

Definition unscheduled {X} (e : geff X) : Prop := match e with PostSchedule _ _ | PostRelease _ _ => False | _ => True end.

Lemma keeps_perform {X} (e : geff X) req : unscheduled e -> keeps (fun _ => req) req (perform e).
Proof. intros He g. destruct e; try done; cbn; (split; [done|]); intros; by split. Qed.

Lemma keeps_lift {A} (o : option A) (ctx : A -> RequestContext) req : (forall a, o = Some a -> same_sched req (ctx a)) -> keeps ctx req (lift o).
Proof. destruct o; [|intros; apply keeps_panic]. intros Hs. apply keeps_ret. by apply Hs. Qed.
End release.

Create HintDb keeps.
#[export] Hint Resolve keeps_panic keeps_hang same_refl : keeps.
#[export] Hint Extern 1 (keeps _ _ _ (Ret _)) => (apply keeps_ret; first [assumption|repeat split; reflexivity]) : keeps.
#[export] Hint Extern 1 (keeps _ _ _ (perform _)) => (apply keeps_perform; exact I) : keeps.
#[export] Hint Extern 2 (keeps _ _ _ (lift _)) => (apply keeps_lift; intros; repeat split; reflexivity) : keeps.

Ltac keeps_step :=
  match goal with
  | |- keeps _ _ _ (mbind _ _) => apply keeps_then; [|intros ?]
  | |- keeps _ _ _ (match ?x with _ => _ end) => destruct x
  | |- keeps _ _ _ _ => solve [eauto with keeps]
  end.
Ltac keeps_auto := repeat (intros; cbn beta iota; keeps_step).

Section request.
Context (ep : string).
Abbreviation keeps := (keeps ep).

(** *** Engines *)

Lemma keeps_do_attempts k url body req : keeps (fun _ => req) req (do_attempts k url body).
Proof.
  induction k as [|k IH]; cbn [do_attempts]; (apply keeps_then; [by apply keeps_perform|]); intros [e t|]; keeps_auto.
Qed.

Lemma keeps_stream c w req : keeps (fun _ => req) req (streamBackendResponse c w).
Proof. unfold streamBackendResponse, doRequest. apply keeps_then; [apply keeps_then; [apply keeps_do_attempts|]; keeps_auto|]. keeps_auto. Qed.

Lemma keeps_neutral req : keeps fst req (neutral_Forward req).
Proof.
  unfold neutral_Forward, chunks_of. case_match; [|keeps_auto]. apply keeps_then; [by apply keeps_lift|]. intros c. apply keeps_then; [apply keeps_stream|]. keeps_auto.
Qed.

(** *** Responses *)

Context `{SG : Sglang, EJ : EngineJson}.

Lemma parse_text_sched rp strict text req req' r : parse_text rp strict text req = Some (req', r) -> req_Sched req' = req_Sched req.
Proof.
  unfold parse_text. destruct (lr_ReasoningParser _); cbn; [|done]. destruct (ParseStreamChunk _ _) as [[reasoning content] d]. cbn.
  intros H. repeat case_match; simplify_eq; done.
Qed.

Lemma parse_choice_sched rp strict c req req' r : parse_choice rp strict c req = Some (req', r) -> req_Sched req' = req_Sched req.
Proof. unfold parse_choice. case_bool_decide; [apply parse_text_sched|]. by intros [= <- _]. Qed.

Lemma chunk_sched cmpl choice reasoning pr req : req_Sched (chat_stream_chunk cmpl choice reasoning pr req) = req_Sched req.
Proof. unfold chat_stream_chunk. cbn. by destruct (bool_decide (ch_FinishReason choice <> "") && bool_decide (ch_Text choice <> "")). Qed.

Lemma stream_process_sched rp done req req' e : ChatCompletionStreamProcess rp done req = Some (req', e) -> req_Sched req' = req_Sched req.
Proof.
  unfold ChatCompletionStreamProcess. case_match; [by intros [= <- _]|]. destruct (lr_CompletionResponse _) as [c|]; cbn; [|done].
  destruct (rs_Choices c) as [|ch l]; [by intros [= <- _]|]. destruct (parse_choice _ _ _ _) as [[req1 [[rs pr]|e1]]|] eqn:E; cbn; [|intros [= <- _]|done]; apply parse_choice_sched in E; [|done].
  destruct (buffering _ _ _); intros E2; injection E2 as <- _; [done|]. by rewrite chunk_sched.
Qed.

Lemma chat_process_sched rp done req req' e : ChatCompletionProcess rp done req = Some (req', e) -> req_Sched req' = req_Sched req.
Proof.
  unfold ChatCompletionProcess. destruct done; [by intros [= <- _]|]. destruct (lr_CompletionResponse _) as [c|]; cbn; [|done].
  destruct (rs_Choices c) as [|ch l]; [by intros [= <- _]|]. destruct (parse_choice _ _ _ _) as [[req1 [[rs pr]|e1]]|] eqn:E; cbn; [|intros [= <- _]|done]; apply parse_choice_sched in E; [|done].
  case_match; by intros [= <- _].
Qed.

Lemma PostProcess_sched rp done req req' e : PostProcess rp done req = Some (req', e) -> req_Sched req' = req_Sched req.
Proof.
  unfold PostProcess. destruct (Protocol _); [| |by intros [= <- _]].
  - destruct (lr_CompletionResponse _) as [c|]; [|by intros [= <- _]]. case_bool_decide; [by intros [= <- _]|].
    destruct (trySetParser rp req) as [req1 e1] eqn:E1. assert (req_Sched req1 = req_Sched req) as H1.
    { revert E1. unfold trySetParser. by repeat case_match; intros [= <- _]. }
    destruct e1 as [e1|]; [by intros [= <- _]|]. destruct (trySetToolParser rp req1) as [req2 e2] eqn:E2. assert (req_Sched req2 = req_Sched req1) as H2.
    { revert E2. unfold trySetToolParser. by repeat case_match; intros [= <- _]. }
    destruct e2 as [e2|]; [intros [= <- _]; congruence|].
    case_match; [intros E%stream_process_sched|intros E%chat_process_sched]; congruence.
  - case_match; unfold completionStreamProcess, completionProcess; repeat case_match; by intros [= <- _].
Qed.

Lemma sched_same req req' : req_Sched req' = req_Sched req -> same_sched req req'.
Proof. intros E. unfold same_sched. by rewrite E. Qed.

Lemma keeps_processAndWriteChunk h done req : keeps fst req (processAndWriteChunk h done req).
Proof.
  unfold processAndWriteChunk. apply keeps_then; [by apply keeps_perform|]. intros t. apply (keeps_sched_bind _ fst).
  { apply keeps_lift. cbn. intros [req1 e] E. apply sched_same. revert E. destruct (PostProcess _ _ _) as [[req2 [e2|]]|] eqn:E; cbn; [|..|done]; intros [= <- _]; by eapply PostProcess_sched. }
  intros [req1 [e|]] Hs; cbn in Hs; [keeps_auto|]. apply keeps_then; [by apply keeps_perform|]. intros t'.
  destruct (marshalResponse _) as [req2 data] eqn:E. assert (same_sched req req2) as Hs2.
  { eapply same_trans; [exact Hs|]. apply sched_same. revert E. unfold marshalResponse. by repeat case_match; intros [= <- _]. }
  unfold Handler.writeResponse. destruct data as [data|e]; keeps_auto.
Qed.
End request.

(** ** The request *)

Section gateway.
Context (ep : string) (gw : LlmGatewayService) (cb : CompositeBalancer) `{SG : Sglang, EJ : EngineJson}.
Abbreviation keeps := (keeps ep).
Abbreviation M := (ledger_monitor ep).

(** The lite mode without separate prefill and decode instances: the scheduler decides,
    and the gateway tracks the state of requests. *)
Record lite_mode : Prop := mkLite {
  lite_balancer : balancer gw = NewBalancer cb;
  lite_remote : cb_mode cb = RemoteBalancer;
  lite_tracking : EnableRequestStateTracking (config gw) = true;
  lite_forwarder : h_forwarder (reqHandler gw) = NeutralForwarder
}.
Context (Hlite : lite_mode).

Definition neutral_results (req : RequestContext) : Prop := Forall is_neutral (SchedulingResults (req_Sched req)).

Lemma neutral_same req req' : same_sched req req' -> neutral_results req -> neutral_results req'.
Proof. intros (E & _) Hn. unfold neutral_results. by rewrite E. Qed.

Lemma neutral_other req t : neutral_results req -> t <> InferTypeNeutral -> instance_of req t = None.
Proof.
  intros Hn Ht. unfold instance_of, GetInstanceByInferType. induction Hn as [|w l Hw Hl IH]; [done|]. cbn. rewrite bool_decide_eq_false_2 by (rewrite Hw; congruence). apply IH.
Qed.

Lemma keeps_prefill req : neutral_results req -> keeps id req (hook_OnPostPrefill gw req).
Proof. intros Hn. unfold hook_OnPostPrefill. rewrite (lite_tracking Hlite), (neutral_other _ InferTypePrefill Hn) by done. cbn [release_opt]. keeps_auto. Qed.
Lemma keeps_first req : keeps id req (hook_OnPostDecodeFirstStreamResponse gw req).
Proof.
  unfold hook_OnPostDecodeFirstStreamResponse. destruct (_ && _); [|keeps_auto]. case_match. apply keeps_then; [by apply keeps_lift|]. keeps_auto.
Qed.
Lemma keeps_each req : keeps id req (hook_OnPostDecodeEachStreamResponse gw req).
Proof.
  unfold hook_OnPostDecodeEachStreamResponse. destruct (_ && _); [|keeps_auto]. apply keeps_then; [by apply keeps_lift|]. intros u. apply keeps_then; [by apply keeps_lift|]. keeps_auto.
Qed.

Lemma keeps_record pos t req : neutral_results req -> keeps fst req (record_chunk (hooks gw) pos t req).
Proof.
  intros Hn. destruct pos; cbn [record_chunk]; (apply keeps_then; [by apply keeps_perform|]); intros t1.
  - apply (keeps_sched_bind _ id); [by eapply (keeps_from _ _ _ (upd_stats _ req)); [|apply keeps_prefill]|]. intros req1 Hs. keeps_auto.
  - apply keeps_then; [by apply keeps_perform|]. intros t2. apply (keeps_sched_bind _ id); [by eapply (keeps_from _ _ _ (upd_stats _ req)); [|apply keeps_first]|]. intros req1 Hs. keeps_auto.
  - apply keeps_then; [by apply keeps_perform|]. intros t2. rewrite bind_ret. by apply keeps_ret.
Qed.

Lemma keeps_report_error req req' e : same_sched req req' -> keeps fst req (report_error req' e).
Proof. intros Hs. unfold report_error, writeErrorResponse. keeps_auto. Qed.

Lemma parseResponse_sched data req : req_Sched (parseResponse data req).1 = req_Sched req.
Proof. unfold parseResponse. by repeat case_match. Qed.

Lemma keeps_process_or_error h req req' :
  same_sched req req' -> keeps fst req ('(req, err) ← processAndWriteChunk h true req'; match err with Some e => report_error req e | None => Ret (req, None) end).
Proof.
  intros Hs. apply (keeps_sched_bind _ fst); [by eapply keeps_from; [|apply keeps_processAndWriteChunk]|]. intros [req1 [e|]] Hs1; [by apply keeps_report_error|keeps_auto].
Qed.

Lemma keeps_final h data req req' : same_sched req req' -> keeps fst req (final_chunk h data req').
Proof.
  intros Hs. unfold final_chunk. case_bool_decide; [keeps_auto|]. pose proof (parseResponse_sched data req') as E. destruct (parseResponse data req') as [req1 e]. cbn in E.
  assert (same_sched req req1) by by eapply same_trans; [|apply sched_same].
  destruct e as [e|]; [case_bool_decide|]; [by apply keeps_process_or_error|by apply keeps_report_error|by apply keeps_process_or_error].
Qed.

Lemma keeps_chunk_loop h chunks pos t req : neutral_results req -> keeps fst req (chunk_loop h (hooks gw) chunks pos t req).
Proof.
  revert pos t req. induction chunks as [|c chunks IH]; intros pos t req Hn; cbn [chunk_loop]; [keeps_auto|].
  apply (keeps_sched_bind _ fst); [by apply keeps_record|]. intros [req1 t1] Hs1. cbn in Hs1. destruct (chunk_Err c) as [e|].
  - case_bool_decide; [by apply keeps_final|]. apply keeps_then; [by apply keeps_perform|]. intros r. destruct (negb r); [keeps_auto|by apply keeps_report_error].
  - pose proof (parseResponse_sched (chunk_Data c) req1) as E. destruct (parseResponse _ req1) as [req2 err]. cbn in E.
    assert (same_sched req req2) as Hs2 by by eapply same_trans; [|apply sched_same].
    destruct (if bool_decide (err = Some EOF) then None else err) as [e|]; [by apply keeps_report_error|].
    apply (keeps_sched_bind _ id); [case_bool_decide; [by eapply keeps_from; [|apply keeps_each]|keeps_auto]|]. intros req3 Hs3. cbn in Hs3.
    apply (keeps_sched_bind _ fst); [by eapply keeps_from; [|apply keeps_processAndWriteChunk]|]. intros [req4 [e|]] Hs4; cbn in Hs4; [by apply keeps_report_error|].
    destruct (OutputExceedMaxTokens _).
    + apply (keeps_sched_bind _ fst); [by eapply keeps_from; [|apply keeps_processAndWriteChunk]|]. intros [req5 e] Hs5. keeps_auto.
    + eapply keeps_from; [exact Hs4|]. apply IH. by eapply neutral_same.
Qed.

Lemma keeps_Handle req : neutral_results req -> keeps fst req (Handle (reqHandler gw) (balancer gw) (hooks gw) req).
Proof.
  intros Hn. unfold Handle. rewrite (lite_forwarder Hlite). cbn [Forward]. apply (keeps_sched_bind _ fst); [apply keeps_neutral|]. intros [req1 [chunks|e]] Hs; cbn in Hs; [|keeps_auto].
  eapply keeps_from; [exact Hs|]. apply keeps_chunk_loop. by eapply neutral_same.
Qed.

(** *** Fallbacks *)

Lemma keeps_copy l req : keeps (fun _ => req) req (copy_body l).
Proof. induction l as [|x l IH]; cbn [copy_body]; keeps_auto. Qed.

Lemma keeps_proxy path r dst req : keeps (fun _ => req) req (proxyToExternal path r dst).
Proof.
  unfold proxyToExternal. apply keeps_then; [by apply keeps_perform|]. intros [e|status body]; [keeps_auto|]. case_bool_decide; [keeps_auto|].
  apply keeps_then; [by apply keeps_perform|]. intros [e|]; [keeps_auto|]. apply keeps_then; [by apply keeps_perform|]. intros _. apply keeps_then; [apply keeps_copy|]. keeps_auto.
Qed.

Lemma keeps_retry fuel q i path r dst req :
  keeps (fun _ => req) req (retryLoop (fun d => perform (PauseOrDone d)) (perform RetryQueueStarted) (perform CtxErr) (proxyToExternal path r dst) fuel (q : RateLimitRetryQueue nat) i).
Proof.
  revert i. induction fuel as [|fuel IH]; intros i; cbn [retryLoop]; [apply keeps_hang|]. apply keeps_then; [keeps_auto|]. intros [e|]; [keeps_auto|].
  apply keeps_then; [by apply keeps_perform|]. intros st. destruct (negb st); [keeps_auto|]. apply keeps_then; [by apply keeps_perform|]. intros [e|]; [keeps_auto|].
  apply keeps_then; [apply keeps_proxy|]. intros [e|]; [|keeps_auto]. destruct (negb _); [keeps_auto|]. destruct (_ && _); [keeps_auto|apply IH].
Qed.

Lemma keeps_fallback_loop fuel path skip req req' err : same_sched req req' -> keeps fst req (fallback_loop gw fuel path skip req' err).
Proof.
  revert req' err. induction fuel as [|fuel IH]; intros req' err Hs; cbn [fallback_loop]; [apply keeps_hang|].
  destruct (negb _); [keeps_auto|]. apply keeps_then; [by apply keeps_perform|]. intros r. destruct r; [keeps_auto|].
  destruct (Fallback _ _) as [[[dst n]|e]|]; cbn [lift]; [rewrite bind_ret|rewrite bind_ret; keeps_auto|apply keeps_panic].
  set (req1 := upd_stats _ req'). assert (same_sched req req1) as Hs1 by (eapply same_trans; [exact Hs|done]). case_bool_decide; [by apply IH|].
  assert (forall e, keeps fst req (fallback_pause req1 (fallback_loop gw fuel path skip req1 (Some e)))) as Hp.
  { intros e. unfold fallback_pause. apply keeps_then; [by apply keeps_perform|]. intros [d|]; [keeps_auto|by apply IH]. }
  apply keeps_then; [apply keeps_proxy|]. intros [e|]; [|keeps_auto]. destruct (_ && _); [|apply Hp].
  apply keeps_then; [unfold enqueue_retry; keeps_auto|]. intros enq. destruct enq; [|apply Hp].
  apply keeps_then; [unfold await_retries; apply keeps_then; [apply keeps_retry|]; keeps_auto|]. intros [[e'|]|]; [by apply IH|keeps_auto..].
Qed.

Lemma keeps_fallback_or_error path req : keeps id req (fallback_or_error gw path req).
Proof.
  unfold fallback_or_error, tryFallback, send_error. apply (keeps_sched_bind _ fst); [by apply keeps_fallback_loop|]. intros [req1 [e|]] Hs; keeps_auto.
Qed.

Lemma keeps_fallback_or path req e : keeps id req (fallback_or gw path req e).
Proof. unfold fallback_or, send_error. case_match; [apply keeps_fallback_or_error|keeps_auto]. Qed.

(** *** Balance *)

(** Of what was borrowed, all is given back but what the request still holds: nothing, or
    one neutral instance that was borrowed in the name of this gateway. *)
Record held (req : RequestContext) (g : ledger) : Prop := mkHeld {
  held_need : NotNeedScheduling (req_Sched req) = false;
  held_one : SchedulingResults (req_Sched req) = [] \/ exists w, SchedulingResults (req_Sched req) = [w] /\ is_neutral w /\ sx_GatewayId (req_Sched req) = ep;
  held_balance : released g ++ SchedulingResults (req_Sched req) ≡ₚ acquired g
}.

Lemma request_held_same req req' g : same_sched req req' -> held req g -> held req' g.
Proof. intros (E1 & E2 & E3) [H1 H2 H3]. split; by rewrite ?E1, ?E2, ?E3. Qed.

Lemma held_neutral req g : held req g -> neutral_results req.
Proof. intros [_ H _]. unfold neutral_results. destruct H as [-> | (w & -> & Hw & _)]; by repeat constructor. Qed.

Lemma held_keeps {A} (ctx : A -> RequestContext) req (p : gprog A) g : keeps ctx req p -> held req g -> mwp M p (fun a g' => held (ctx a) g') g.
Proof. intros Hp Hh. eapply mwp_mono; [apply Hp|]. cbn. intros a g' [Hs ->]. by eapply request_held_same. Qed.

(** Giving back all that is held. *)
Lemma release_held req g : held req g ->
  mwp M (release_all (balancer gw) req (SchedulingResults (req_Sched req))) (fun _ g' => released g' ≡ₚ acquired g') g.
Proof.
  intros [_ Ho Hb]. rewrite (lite_balancer Hlite). destruct Ho as [E | (w & E & Hw & Hid)]; rewrite E in *; cbn [release_all].
  - cbn. by rewrite app_nil_r in Hb.
  - apply mwp_bind. cbn [NewBalancer Release]. eapply mwp_mono; [by apply Release_books; [apply (lite_remote Hlite)|]|]. by cbn; intros _ g' ->.
Qed.

Lemma Get_held req g : NotNeedScheduling (req_Sched req) = false -> SchedulingResults (req_Sched req) = [] -> released g ≡ₚ acquired g ->
  mwp M (Get (balancer gw) req) (fun r g' => match r.1 with GOk res => held (set_sched_results res r.2) g' | GErr _ => held r.2 g' /\ released g' ≡ₚ acquired g' end) g.
Proof.
  intros Hn He Hb. rewrite (lite_balancer Hlite). cbn [NewBalancer Get]. eapply mwp_mono; [by apply Get_got; [apply (lite_remote Hlite)|]|].
  intros [[res|e] req1] g' (H1 & H2 & H3); cbn in *.
  - destruct H3 as ((w & -> & Hw) & Hid & ->). split; cbn; [congruence|right; by exists w|by rewrite Hb].
  - subst g'. split; [|done]. split; [congruence|left; congruence|]. by rewrite H1, He, app_nil_r.
Qed.

Lemma reschedule_held path e req g : held req g -> mwp M (reschedule gw path e req) (fun r g' => held r.1 g') g.
Proof.
  intros Hh. unfold reschedule. apply mwp_bind, mwp_perform; [done|]. intros [c|] _.
  - apply mwp_bind, mwp_perform; [done|]. by intros [] _.
  - apply mwp_bind. eapply mwp_mono; [by apply release_held|]. cbn beta. intros _ g1 Hb. apply mwp_bind.
    eapply mwp_mono; [by apply Get_held; [apply (held_need _ _ Hh)|done|]|]. intros [[res|e'] req1] g2 H2; cbn in H2; [done|]. destruct H2 as [H2 _].
    apply mwp_bind. eapply mwp_mono; [by apply (held_keeps id req1); [apply keeps_fallback_or|]|]. done.
Qed.

Lemma attempts_held k attempt path e req g : held req g -> mwp M (route_attempts gw k attempt path e req) held g.
Proof.
  revert attempt e req g. induction k as [|k IH]; intros attempt e req g Hh; cbn [route_attempts]; [done|]. apply mwp_bind.
  eapply (mwp_mono _ _ (fun r g' => held r.1 g')); [destruct e; [by apply reschedule_held|done]|]. intros [req1 go] g1 H1. cbn in H1. destruct (negb go); [done|].
  apply mwp_bind. eapply mwp_mono; [by apply (held_keeps fst req1); [apply keeps_Handle; by eapply held_neutral|]|]. intros [req2 [e'|]] g2 H2; cbn in H2; [|by apply (request_held_same req2)].
  assert (forall c, mwp M (_ ← send_error c; Ret req2) held g2) as Hsend by (intros c; apply mwp_bind, mwp_perform; [done|]; by intros [] _).
  destruct (negb _); [apply Hsend|]. apply mwp_bind, mwp_perform; [done|]. intros r _. destruct r; [done|].
  case_bool_decide; [by apply (held_keeps id req2); [apply keeps_fallback_or|]|]. apply mwp_bind, mwp_perform; [done|]. intros [c|] _.
  - apply mwp_bind, mwp_perform; [done|]. intros [] _. by apply (request_held_same req2).
  - apply IH. by apply (request_held_same req2).
Qed.

Lemma instance_of_one req w : SchedulingResults (req_Sched req) = [w] -> is_neutral w -> instance_of req InferTypeNeutral = Some w.
Proof. intros E Hw. unfold instance_of, GetInstanceByInferType. rewrite E. cbn. by rewrite bool_decide_eq_true_2. Qed.

Lemma OnPostRequest_balance req g : held req g -> mwp M (hook_OnPostRequest gw req) (fun _ g' => released g' ≡ₚ acquired g') g.
Proof.
  intros Hh. unfold hook_OnPostRequest. rewrite (lite_tracking Hlite). rewrite (neutral_other req InferTypeDecode) by (done || by eapply held_neutral).
  apply mwp_bind, mwp_perform; [done|]. intros [] _. destruct Hh as [_ [E | (w & E & Hw & Hid)] Hb]; rewrite E in Hb.
  - assert (instance_of req InferTypeNeutral = None) as -> by (unfold instance_of; by rewrite E). cbn. by rewrite app_nil_r in Hb.
  - rewrite (instance_of_one _ _ E Hw), (lite_balancer Hlite). cbn [release_opt NewBalancer Release]. apply mwp_bind.
    eapply mwp_mono; [by apply Release_books; [apply (lite_remote Hlite)|]|]. by cbn; intros _ g' ->.
Qed.

Lemma keeps_route req : keeps (fun _ => req) req (route gw req).
Proof. unfold route. apply keeps_then; [keeps_auto|]. intros r. by apply keeps_lift. Qed.

Lemma keeps_external path dst req : keeps id req (externalRouteRequest gw path dst req).
Proof.
  unfold externalRouteRequest, send_error, tryFallback. apply keeps_then; [apply keeps_proxy|]. intros err. apply (keeps_sched_bind _ id).
  - destruct err as [e|]; [|keeps_auto]. destruct (negb _); [keeps_auto|]. apply (keeps_sched_bind _ fst); [by apply keeps_fallback_loop|]. intros [req1 [e1|]] Hs; keeps_auto.
  - intros req1 Hs. keeps_auto.
Qed.

(** Closing the channel on a path where nothing is held. *)
Lemma balance_close req (p : gprog RequestContext) g :
  keeps id req p -> released g ≡ₚ acquired g -> mwp M (req ← p; _ ← perform CloseChan; Ret req) (fun _ g' => released g' ≡ₚ acquired g') g.
Proof. intros Hp Hb. apply mwp_bind. eapply mwp_mono; [apply Hp|]. cbn. intros a g' [_ ->]. by split. Qed.

Lemma dispatch_balance path req g :
  NotNeedScheduling (req_Sched req) = false -> SchedulingResults (req_Sched req) = [] -> released g ≡ₚ acquired g ->
  mwp M (dispatchRequest gw path req) (fun _ g' => released g' ≡ₚ acquired g') g.
Proof.
  intros Hn He Hb. unfold dispatchRequest. apply mwp_bind. eapply mwp_mono; [apply keeps_route|]. cbn. intros [dst rt] g1 [_ ->].
  assert (forall dst : option RouteEndpoint, mwp M ('(r, req1) ← Get (balancer gw) req;
    match r with GErr e => req2 ← fallback_or gw path req1 e; _ ← perform CloseChan; Ret req2 | GOk res => internalRouteRequest gw path (set_sched_results res req1) end)
    (fun _ g' => released g' ≡ₚ acquired g') g) as Hi.
  { intros _. apply mwp_bind. eapply mwp_mono; [by apply Get_held|]. intros [[res|e] req1] g1 H1; cbn in H1.
    - unfold internalRouteRequest. apply mwp_bind. eapply mwp_mono; [by apply attempts_held|]. intros req2 g2 H2. apply mwp_bind, mwp_perform; [done|].
      intros [] _. by apply OnPostRequest_balance.
    - destruct H1 as [_ H1]. apply (balance_close req1); [apply keeps_fallback_or|done]. }
  destruct rt; [|by apply Hi|destruct dst as [dst|]; [|done]].
  - apply (balance_close req); [apply keeps_fallback_or_error|done].
  - eapply mwp_mono; [apply keeps_external|]. by cbn; intros a g' [_ ->].
Qed.
End gateway.


Lemma example_lite : lite_mode example_gateway example_balancer.
Proof. by split. Qed.

Lemma example_expected : expected (ledger_monitor "gw:1") example_log.
Proof. vm_compute. repeat split; (right; split; [reflexivity|]; eexists; split; reflexivity). Qed.

