(* ===== verification/Resolver.v ===== *)
(** * Service discovery: the resolvers

    [pkg/resolver]: the resolvers that turn what the pods registered in Redis or in etcd
    (or a static list of endpoints) into the list of instances, the difference between two
    such lists that observers are told about, and the registry of builders. The client
    libraries of Redis and etcd and the protobuf codec are not part of the sources: what a
    query returned is an argument, and the codec is the class [PodCodec]. *)

From stdpp Require Import base gmap list strings numbers.
From S2P Require Import Prelude GoStrings GoFloat Types.

Local Open Scope Z_scope.

(** ** pkg/resolver/proto/redis_discovery.proto *)

Record InstanceDiscoveryInfo := mkInstanceInfo {
  InstanceType : string;
  EntrypointIp : string;
  EntrypointPort : Z;
  KvTransferIp : string;
  KvTransferPort : Z;
  DpRank : Z;
  DpSize : Z;
  info_Model : string;
  info_Version : Z
}.

Record PodDiscoveryInfo := mkPodInfo {
  PodName : string;
  TimestampMs : Z;
  Instances : list InstanceDiscoveryInfo
}.

#[export] Instance InstanceDiscoveryInfo_eq_dec : EqDecision InstanceDiscoveryInfo.
Proof. solve_decision. Defined.
#[export] Instance PodDiscoveryInfo_eq_dec : EqDecision PodDiscoveryInfo.
Proof. solve_decision. Defined.

(** The ranges of the [int32] and [int64] fields. *)
Definition instance_info_ok (i : InstanceDiscoveryInfo) : bool :=
  forallb (fun z => bool_decide (MinInt32 <= z <= MaxInt32)) [EntrypointPort i; KvTransferPort i; DpRank i; DpSize i]
  && bool_decide (MinInt64 <= info_Version i <= MaxInt64).

Definition pod_info_ok (p : PodDiscoveryInfo) : bool :=
  bool_decide (MinInt64 <= TimestampMs p <= MaxInt64) && forallb instance_info_ok (Instances p).

(** The protobuf codec, shared by the Go resolver and the Python registrar: a message
    whose fields are in range comes back from its serialized form. *)
Class PodCodec (bytes : Type) := {
  Marshal : PodDiscoveryInfo -> bytes;
  Unmarshal : bytes -> option PodDiscoveryInfo;
  Unmarshal_Marshal p : pod_info_ok p = true -> Unmarshal (Marshal p) = Some p
}.

(** ** pkg/resolver/utils.go: [DiffSets] *)

Section DiffSets.
Context {T : Type} (keyFunc : T -> string).

Definition oldMap (old : list T) : gmap string T :=
  fold_left (fun m item => <[keyFunc item := item]> m) old ∅.

Fixpoint mark_existing (new : list T) (m : gmap string T) : list T * gmap string T :=
  match new with
  | [] => ([], m)
  | item :: new =>
      let key := keyFunc item in
      match m !! key with
      | Some _ => mark_existing new (delete key m)
      | None => let '(added, m) := mark_existing new m in (item :: added, m)
      end
  end.

Definition DiffSets (order : key_order) (old new : list T) : list T * list T :=
  let '(added, m) := mark_existing new (oldMap old) in
  (added, omap (fun key => m !! key) (order (dom m))).

End DiffSets.

(** ** The instances of a pod

    The body of the inner loop of [buildInstanceList] and of the Redis [refresh]. *)

Definition InferTypeAll : InferType := "all".

Definition instance_id (podName : string) (rank : Z) : string := podName +:+ "_dp" +:+ Itoa rank.

Definition wanted (inferType : InferType) (i : InstanceDiscoveryInfo) : bool :=
  negb (bool_decide (InstanceType i <> inferType) && bool_decide (inferType <> InferTypeAll)).

Definition to_instance (podName : string) (i : InstanceDiscoveryInfo) : LLMInstance :=
  mkLLMInstance (info_Version i) (instance_id podName (DpRank i)) (info_Model i) (InstanceType i)
    (mkEndpoint (EntrypointIp i) (EntrypointPort i)) (KvTransferIp i) (KvTransferPort i) (DpRank i) (DpSize i).

Definition pod_instances (inferType : InferType) (p : PodDiscoveryInfo) : list LLMInstance :=
  map (to_instance (PodName p)) (List.filter (wanted inferType) (Instances p)).

(** A registration older than the time to live is ignored. *)
Definition expired (now ttlMs : Z) (p : PodDiscoveryInfo) : bool := bool_decide (TimestampMs p < int64 (now - ttlMs)).

Definition Id (w : LLMInstance) : string := (LLMInstance_Id w).1.

(** What [refresh] and [handleWatchResponse] tell the observers; nothing when both
    lists are empty. *)
Abbreviation notification := (option (list LLMInstance * list LLMInstance)) (only parsing).

Definition notify_diff (added removed : list LLMInstance) : notification :=
  match added, removed with [], [] => None | _, _ => Some (added, removed) end.

(** The state of a resolver. *)
Record ResolverState := mkResolver {
  r_inferType : InferType;
  r_ttlMs : Z;
  r_instances : list LLMInstance;
  podDiscoveryInfos : gmap string PodDiscoveryInfo
}.

Definition GetLLMInstances (r : ResolverState) : list LLMInstance := r_instances r.

Section resolvers.
Context {bytes : Type} `{PodCodec bytes}.

(** ** pkg/resolver/etcd_resolver.go *)

Definition EtcdDiscoveryPrefix : string := "llumnix/discovery/".

Inductive Event :=
  | EventPut (key : string) (value : bytes)
  | EventDelete (key : string).

Definition apply_event (now : Z) (r : ResolverState) (pods : gmap string PodDiscoveryInfo) (ev : Event) : gmap string PodDiscoveryInfo :=
  match ev with
  | EventPut key value =>
      match Unmarshal value with
      | None => pods
      | Some podInfo => if expired now (r_ttlMs r) podInfo then pods else <[PodName podInfo := podInfo]> pods
      end
  | EventDelete key => delete (TrimPrefix key EtcdDiscoveryPrefix) pods
  end.

Definition buildInstanceList (order : key_order) (inferType : InferType) (pods : gmap string PodDiscoveryInfo) : list LLMInstance :=
  flat_map (fun k => match pods !! k with Some p => pod_instances inferType p | None => [] end) (order (dom pods)).

(** Both paths end by replacing the state and computing the difference. *)
Definition replace_state (order : key_order) (instances : list LLMInstance) (pods : gmap string PodDiscoveryInfo) (r : ResolverState) : ResolverState * notification :=
  let '(added, removed) := DiffSets Id order (r_instances r) instances in
  (mkResolver (r_inferType r) (r_ttlMs r) instances pods, notify_diff added removed).

Definition handleWatchResponse (order : key_order) (now : Z) (events : list Event) (r : ResolverState) : ResolverState * notification :=
  if bool_decide (length events = 0%nat) then (r, None) else
  let pods := fold_left (apply_event now r) events (podDiscoveryInfos r) in
  replace_state order (buildInstanceList order (r_inferType r) pods) pods r.

(** One entry of the answer of [GetWithPrefix]. *)
Definition load_pod (now ttlMs : Z) (data : option bytes) : option PodDiscoveryInfo :=
  match data with
  | None => None
  | Some data =>
      match Unmarshal data with
      | None => None
      | Some podInfo =>
          if expired now ttlMs podInfo then None
          else if bool_decide (0 < Z.of_nat (length (Instances podInfo))) then Some podInfo else None
      end
  end.

Definition load_pods (order : key_order) (now ttlMs : Z) (podData : gmap string (option bytes)) : gmap string PodDiscoveryInfo :=
  fold_left (fun pods key =>
    match podData !! key ≫= load_pod now ttlMs with
    | Some podInfo => <[PodName podInfo := podInfo]> pods
    | None => pods
    end) (order (dom podData)) ∅.

(** [podData] is [None] when the query failed. *)
Definition etcd_refresh (order : key_order) (now : Z) (podData : option (gmap string (option bytes))) (r : ResolverState) : ResolverState * notification :=
  match podData with
  | None => (r, None)
  | Some podData =>
      let pods := load_pods order now (r_ttlMs r) podData in
      replace_state order (buildInstanceList order (r_inferType r) pods) pods r
  end.

(** [newEtcdResolver] after the client connected; [leaseTTL] is in seconds. *)
Definition new_etcd_state (inferType : InferType) (leaseTTL : Z) : ResolverState :=
  mkResolver inferType (int64 (leaseTTL * 1000)) [] ∅.

(** What the loop of [watchLoop] receives, one turn each. *)
Inductive EtcdTurn :=
  | TurnRefresh (podData : option (gmap string (option bytes)))
  | TurnClosed (podData : option (gmap string (option bytes)))
  | TurnCanceled (podData : option (gmap string (option bytes)))
  | TurnEvents (events : list Event).

Definition watch_turn (order : key_order) (now : Z) (t : EtcdTurn) (r : ResolverState) : ResolverState * notification :=
  match t with
  | TurnRefresh d | TurnClosed d | TurnCanceled d => etcd_refresh order now d r
  | TurnEvents events => handleWatchResponse order now events r
  end.

(** ** pkg/resolver/redis_resolver.go *)

Definition LlumnixDiscovery : string := "llumnix:discovery:".

(** One turn of the loop: the instances and the pods so far, and the keys deleted. *)
Definition redis_entry (now : Z) (r : ResolverState) (acc : list LLMInstance * gmap string PodDiscoveryInfo * list string) (entry : string * option bytes)
    : list LLMInstance * gmap string PodDiscoveryInfo * list string :=
  let '(instances, pods, deleted) := acc in
  let '(key, data) := entry in
  match data with
  | None => acc
  | Some data =>
      match Unmarshal data with
      | None => acc
      | Some podInfo =>
          if expired now (r_ttlMs r) podInfo then (instances, pods, deleted ++ [key]) else
          let filtered := List.filter (wanted (r_inferType r)) (Instances podInfo) in
          (instances ++ map (to_instance (PodName podInfo)) filtered,
           if bool_decide (0 < Z.of_nat (length filtered))
           then <[PodName podInfo := mkPodInfo (PodName podInfo) (TimestampMs podInfo) filtered]> pods else pods,
           deleted)
      end
  end.

(** [None] when [klog.Fatalf] ends the process. The result lists the keys that were
    deleted because they expired. *)
Definition redis_refresh (order : key_order) (now : Z) (keys : option (list string)) (values : option (list (option bytes))) (r : ResolverState)
    : option (ResolverState * notification * list string) :=
  match keys, values with
  | Some keys, Some values =>
      let '(instances, pods, deleted) := fold_left (redis_entry now r) (zip keys values) ([], ∅, []) in
      let '(r, n) := replace_state order instances pods r in
      Some (r, n, deleted)
  | _, _ => None
  end.

Definition new_redis_state (inferType : InferType) (statusTTLMs : Z) : ResolverState := mkResolver inferType statusTTLMs [] ∅.

End resolvers.
Arguments Event : clear implicits.
Arguments EtcdTurn : clear implicits.

(** ** pkg/resolver/endpoints_resolver.go *)

Definition EndpointsUriPrefix : string := "endpoints://".
Definition EndpointsLlmUriPrefix : string := "llm+endpoints://".

Record EndpointsResolver := mkEndpointsResolver { er_inferType : InferType; er_endpoints : list Endpoint }.

Definition parseEndpoint (endpointStr : string) : result Endpoint :=
  if Contains endpointStr ":" then NewEndpoint endpointStr else Ok (mkEndpoint endpointStr 80).

Fixpoint parse_endpoints (strs : list string) : result (list Endpoint) :=
  match strs with
  | [] => Ok []
  | s :: strs =>
      let s := TrimSpace s in
      if bool_decide (s = "") then parse_endpoints strs else
      match parseEndpoint s with
      | Err _ => Err (ErrorOther ("invalid endpoint: " +:+ s))
      | Ok ep => match parse_endpoints strs with Ok eps => Ok (ep :: eps) | Err e => Err e end
      end
  end.

Definition newEndpointsResolver (uri : string) (inferType : InferType) : result EndpointsResolver :=
  match parse_endpoints (Split uri ",") with
  | Err e => Err e
  | Ok [] => Err (ErrorOther "no valid endpoints found in URI")
  | Ok endpoints => Ok (mkEndpointsResolver inferType endpoints)
  end.

Definition er_GetEndpoints (er : EndpointsResolver) : list Endpoint := er_endpoints er.

Definition er_GetLLMInstances (er : EndpointsResolver) : list LLMInstance :=
  map (fun ep => mkLLMInstance 0 "" "" (er_inferType er) ep (Host ep) (20000 + Port ep) 0 0) (er_endpoints er).

Definition EndpointsResolverBuilder_Build (uri : string) : result EndpointsResolver :=
  if bool_decide (uri = "") then Err (ErrorOther "missing or invalid 'uri' argument")
  else if negb (HasPrefix uri EndpointsUriPrefix) then Err (ErrorOther "invalid endpoints URI format")
  else newEndpointsResolver (TrimPrefix uri EndpointsUriPrefix) InferTypeNeutral.

(** ** The builders of LLM resolvers and their registry: [resolver.go]

    A build argument is a Go [interface{}]; a type assertion on one of another type
    fails. *)

Inductive BuildArg := ArgString (s : string) | ArgInt (z : Z) | ArgFloat (f : float).
Abbreviation BuildArgs := (gmap string BuildArg) (only parsing).

Definition arg_string (args : BuildArgs) (k : string) : option string :=
  match args !! k with Some (ArgString s) => Some s | _ => None end.
Definition arg_int (args : BuildArgs) (k : string) : option Z :=
  match args !! k with Some (ArgInt z) => Some z | _ => None end.
Definition arg_float (args : BuildArgs) (k : string) : option float :=
  match args !! k with Some (ArgFloat f) => Some f | _ => None end.

Definition instance_type_arg (args : BuildArgs) : option InferType :=
  match arg_string args "instance_type" with
  | Some s => if bool_decide (s = "") then None else Some s
  | None => None
  end.

Record EtcdParams := mkEtcdParams {
  ep_inferType : InferType;
  ep_endpoints : list string;
  ep_username : string;
  ep_password : string;
  ep_dialTimeout : float;
  ep_leaseTTL : Z;
  ep_refreshIntervalSec : Z
}.

Record RedisParams := mkRedisParams {
  rp_inferType : InferType;
  rp_host : string;
  rp_port : string;
  rp_username : string;
  rp_password : string;
  rp_socketTimeout : float;
  rp_retryTimes : Z;
  rp_refreshIntervalMs : Z;
  rp_statusTTLMs : Z
}.

(** What a builder hands to the constructor of its resolver. *)
Inductive LLMResolver :=
  | LLMEndpoints (er : EndpointsResolver)
  | LLMEtcd (p : EtcdParams)
  | LLMRedis (p : RedisParams).

Definition EndpointsLlmResolverBuilder_Build (uri : string) (args : BuildArgs) : result LLMResolver :=
  if bool_decide (uri = "") then Err (ErrorOther "missing or invalid 'uri' argument")
  else if negb (HasPrefix uri EndpointsLlmUriPrefix) then Err (ErrorOther "invalid endpoints URI format")
  else
    let uri := TrimPrefix uri EndpointsLlmUriPrefix in
    match instance_type_arg args with
    | None => Err (ErrorOther "missing instance_type or invalid instance_type build args")
    | Some t => match newEndpointsResolver uri t with Ok er => Ok (LLMEndpoints er) | Err e => Err e end
    end.

Definition EtcdUriPrefix : string := "etcd://".

Definition normalize_etcd_endpoint (ep : string) : string :=
  let ep := TrimSpace ep in
  if negb (HasPrefix ep "http://") && negb (HasPrefix ep "https://") then "http://" +:+ ep else ep.

Definition EtcdResolverBuilder_Build (uri : string) (args : BuildArgs) : result LLMResolver :=
  if bool_decide (uri = "") then Err (ErrorOther "missing or invalid 'uri' argument")
  else if negb (HasPrefix uri EtcdUriPrefix) then Err (ErrorOther "invalid URI format")
  else
    let endpoints := map normalize_etcd_endpoint (Split (TrimPrefix uri EtcdUriPrefix) ",") in
    match instance_type_arg args with
    | None => Err (ErrorOther "missing instance_type or invalid instance_type build args")
    | Some t =>
        Ok (LLMEtcd (mkEtcdParams t endpoints (default "" (arg_string args "etcd_username")) (default "" (arg_string args "etcd_password"))
                       (default (f64_of_Z 5) (arg_float args "etcd_dial_timeout"))
                       (default 60 (arg_int args "etcd_lease_ttl"))
                       (default 3600 (arg_int args "etcd_refresh_interval_sec"))))
    end.

Definition RedisUriPrefix : string := "redis://".

Definition need {A} (what : string) (o : option A) : result A :=
  match o with Some a => Ok a | None => Err (ErrorOther ("missing " +:+ what +:+ " or invalid build args")) end.

Definition RedisResolverBuilder_Build (uri : string) (args : BuildArgs) : result LLMResolver :=
  if bool_decide (uri = "") then Err (ErrorOther "missing or invalid 'uri' argument")
  else if negb (HasPrefix uri RedisUriPrefix) then Err (ErrorOther "invalid URI format")
  else
    match Split (TrimPrefix uri RedisUriPrefix) ":" with
    | [host; port] =>
        t ← need "instance_type" (instance_type_arg args);
        username ← need "username" (arg_string args "redis_username");
        password ← need "password" (arg_string args "redis_password");
        socketTimeout ← need "socketTimeout" (arg_float args "redis_socketTimeout");
        retryTimes ← need "retryTimes" (arg_int args "redis_retryTimes");
        refreshIntervalMs ← need "refreshIntervalMs" (arg_int args "redis_discovery_refresh_interval_ms");
        statusTTLMs ← need "statusTTLMs" (arg_int args "redis_discovery_status_ttl");
        Ok (LLMRedis (mkRedisParams t host port username password socketTimeout retryTimes refreshIntervalMs statusTTLMs))
    | _ => Err (ErrorOther "invalid URI format: expected host:port")
    end.

(** The registry maps a schema to its builder; a schema that is taken keeps its first
    builder. *)
Section registry.
Context {B : Type}.

Definition Register (schema : string) (builder : B) (builders : gmap string B) : gmap string B :=
  match builders !! schema with Some _ => builders | None => <[schema := builder]> builders end.

Definition getBuilder (schema : string) (builders : gmap string B) : option B := builders !! schema.

Definition ListSchemas (order : key_order) (builders : gmap string B) : list string := order (dom builders).

End registry.

Abbreviation LLMBuilder := (string -> BuildArgs -> result LLMResolver) (only parsing).

(** The builders the package's [init] functions register. *)
Definition resolverBuilders : gmap string (string -> result EndpointsResolver) :=
  Register "endpoints" EndpointsResolverBuilder_Build ∅.

Definition llmResolverBuilders : gmap string LLMBuilder :=
  Register "redis" RedisResolverBuilder_Build
    (Register "etcd" EtcdResolverBuilder_Build (Register "llm+endpoints" EndpointsLlmResolverBuilder_Build ∅)).

Definition BuildResolver (uri : string) : result EndpointsResolver :=
  match SplitN2 uri "://" with
  | [schema; _] =>
      match getBuilder schema resolverBuilders with
      | Some build => build uri
      | None => Err (ErrorOther ("no resolver builder registered for schema: " +:+ schema))
      end
  | _ => Err (ErrorOther ("resolver uri is not correct: " +:+ uri))
  end.

Definition BuildLlmResolver (uri : string) (args : BuildArgs) : result LLMResolver :=
  match SplitN2 uri "://" with
  | [schema; _] =>
      match getBuilder schema llmResolverBuilders with
      | Some build => build uri args
      | None => Err (ErrorOther ("no llm resolver builder registered for schema: " +:+ schema))
      end
  | _ => Err (ErrorOther ("llm resolver uri is not correct: " +:+ uri))
  end.

(** ** The resolvers of a configuration: [utils.go]

    [None] where the code ends the process ([klog.Fatalf] or [panic]). *)

Record DiscoveryConfig := mkDiscoveryConfig {
  LLMBackendDiscovery : string;
  SchedulerDiscovery : string;
  DiscoveryEtcdEndpoints : string;
  DiscoveryEtcdUsername : string;
  DiscoveryEtcdPassword : string;
  DiscoveryEtcdDialTimeout : float;
  DiscoveryEtcdLeaseTTL : Z;
  DiscoveryEtcdRefreshIntervalSec : Z;
  LLMBackendEndpoints : string;
  SchedulerEndpoints : string;
  DiscoveryRedisHost : string;
  DiscoveryRedisPort : Z;
  DiscoveryRedisUsername : string;
  DiscoveryRedisPassword : string;
  DiscoveryRedisSocketTimeout : float;
  DiscoveryRedisRetryTimes : Z;
  DiscoveryRedisRefreshIntervalMs : Z;
  DiscoveryRedisStatusTTLMs : Z
}.

Definition result_option {A} (r : result A) : option A := match r with Ok a => Some a | Err _ => None end.

Definition CreateSchedulerResolver (c : DiscoveryConfig) : option EndpointsResolver :=
  if bool_decide (SchedulerDiscovery c = "endpoints")
  then result_option (BuildResolver ("endpoints://" +:+ SchedulerEndpoints c)) else None.

Definition redis_args (c : DiscoveryConfig) (inferType : InferType) : BuildArgs :=
  <["instance_type" := ArgString inferType]> (<["redis_username" := ArgString (DiscoveryRedisUsername c)]>
  (<["redis_password" := ArgString (DiscoveryRedisPassword c)]> (<["redis_socketTimeout" := ArgFloat (DiscoveryRedisSocketTimeout c)]>
  (<["redis_retryTimes" := ArgInt (DiscoveryRedisRetryTimes c)]> (<["redis_discovery_refresh_interval_ms" := ArgInt (DiscoveryRedisRefreshIntervalMs c)]>
  (<["redis_discovery_status_ttl" := ArgInt (DiscoveryRedisStatusTTLMs c)]> ∅)))))).

Definition etcd_args (c : DiscoveryConfig) (inferType : InferType) : BuildArgs :=
  <["instance_type" := ArgString inferType]> (<["etcd_username" := ArgString (DiscoveryEtcdUsername c)]>
  (<["etcd_password" := ArgString (DiscoveryEtcdPassword c)]> (<["etcd_dial_timeout" := ArgFloat (DiscoveryEtcdDialTimeout c)]>
  (<["etcd_lease_ttl" := ArgInt (DiscoveryEtcdLeaseTTL c)]> (<["etcd_refresh_interval_sec" := ArgInt (DiscoveryEtcdRefreshIntervalSec c)]> ∅))))).

Definition CreateBackendServiceResolver (c : DiscoveryConfig) (inferType : InferType) : option LLMResolver :=
  if bool_decide (LLMBackendDiscovery c = "redis") then
    result_option (BuildLlmResolver (RedisUriPrefix +:+ DiscoveryRedisHost c +:+ ":" +:+ Itoa (DiscoveryRedisPort c)) (redis_args c inferType))
  else if bool_decide (LLMBackendDiscovery c = "etcd") then
    result_option (BuildLlmResolver (EtcdUriPrefix +:+ DiscoveryEtcdEndpoints c) (etcd_args c inferType))
  else if bool_decide (LLMBackendDiscovery c = "endpoints") then
    result_option (BuildLlmResolver (EndpointsLlmUriPrefix +:+ "://" +:+ LLMBackendEndpoints c) {["instance_type" := ArgString inferType]})
  else None.
