(* ===== verification/Watcher.v ===== *)
(** * Service discovery: observers, and the balancer that follows a resolver

    [pkg/resolver/watcher.go] and the goroutine of [NewRoundRobinBalancer]: a resolver
    tells its observers what was added and what was removed over two buffered channels,
    and the balancer applies what it receives, choosing freely between the two channels. *)

From stdpp Require Import base gmap list strings numbers relations.
From S2P Require Import Prelude GoStrings Types Resolver Balancer.

(** ** The observers *)

Abbreviation slice := (list LLMInstance) (only parsing).

(** The two channels of an observer, each a queue of at most [buffer] messages. *)
Record observerPair := mkPair { o_added : list slice; o_removed : list slice }.

Definition buffer : nat := 50.

(** A send that does not block: the message is dropped when the channel is full, and an
    empty list is not sent. *)
Definition try_send (l : slice) (q : list slice) : list slice :=
  if bool_decide (l = []) then q else if bool_decide (length q < buffer) then q ++ [l] else q.

Definition notify_pair (added removed : slice) (p : observerPair) : observerPair :=
  mkPair (try_send added (o_added p)) (try_send removed (o_removed p)).

(** The registered observers, and the pairs whose channels are closed. *)
Record Watcher := mkWatcher { observers : gmap nat observerPair; closed_pairs : gset nat }.

Definition NewWatcher : Watcher := mkWatcher ∅ ∅.

(** [Watch] registers a new pair and leaves a goroutine to send the current list when it
    is not empty and could be read. *)
Definition Watch (pair : nat) (current : option slice) (w : Watcher) : Watcher * option slice :=
  (mkWatcher (<[pair := mkPair [] []]> (observers w)) (closed_pairs w),
   match current with Some (x :: l) => Some (x :: l) | _ => None end).

(** [None]: closing a closed channel panics. *)
Definition removeObserver (pair : nat) (w : Watcher) : option Watcher :=
  if bool_decide (pair ∈ closed_pairs w) then None
  else Some (mkWatcher (delete pair (observers w)) ({[pair]} ∪ closed_pairs w)).

Definition notifyObservers (added removed : slice) (w : Watcher) : Watcher :=
  mkWatcher (notify_pair added removed <$> observers w) (closed_pairs w).

(** The goroutine that [Watch] starts for the initial list, when it finds its context
    cancelled, and the one that waits for the cancellation. *)
Inductive Goroutine := InitialSender | CancelWaiter.

Definition on_cancel (g : Goroutine) (pair : nat) (w : Watcher) : option Watcher :=
  match g with InitialSender | CancelWaiter => removeObserver pair w end.

(** ** A resolver, its observer and the balancer *)

Record Feed := mkFeed {
  fd_resolver : ResolverState;
  fd_flight : notification;
  fd_initial : option slice;
  fd_pair : observerPair;
  fd_balancer : RoundRobinBalancer
}.

(** What the resolver's own goroutine does in one turn. *)
Inductive resolver_turn {bytes} `{PodCodec bytes} (r : ResolverState) : ResolverState -> notification -> Prop :=
  | etcd_turn order now t r' n : visits_once order -> watch_turn order now t r = (r', n) -> resolver_turn r r' n
  | redis_turn order now keys values r' n deleted :
      visits_once order -> redis_refresh order now keys values r = Some (r', n, deleted) -> resolver_turn r r' n.

Definition take_added (s : Feed) : Feed :=
  match o_added (fd_pair s) with
  | [] => s
  | l :: q => mkFeed (fd_resolver s) (fd_flight s) (fd_initial s) (mkPair q (o_removed (fd_pair s))) (rr_add l (fd_balancer s))
  end.

Definition take_removed (s : Feed) : Feed :=
  match o_removed (fd_pair s) with
  | [] => s
  | l :: q => mkFeed (fd_resolver s) (fd_flight s) (fd_initial s) (mkPair (o_added (fd_pair s)) q) (rr_del l (fd_balancer s))
  end.

Definition fits (l : slice) (q : list slice) : Prop := l = [] \/ length q < buffer.

(** A turn of the resolver. It starts its next turn only after it notified the observers
    of the last. The lists it reports have distinct identifiers. *)
Inductive turn {bytes} `{PodCodec bytes} : Feed -> Feed -> Prop :=
  | feed_turn r r' n i p b :
      resolver_turn r r' n -> NoDup (Id <$> r_instances r') -> turn (mkFeed r None i p b) (mkFeed r' n i p b).

(** The steps that carry a notification to the balancer, when none is dropped, and the
    requests it serves. *)
Inductive deliver : Feed -> Feed -> Prop :=
  | feed_notify r added removed i p b :
      fits added (o_added p) -> fits removed (o_removed p) ->
      deliver (mkFeed r (Some (added, removed)) i p b) (mkFeed r None i (notify_pair added removed p) b)
  | feed_initial r n l p b :
      length (o_added p) < buffer ->
      deliver (mkFeed r n (Some l) p b) (mkFeed r n None (mkPair (o_added p ++ [l]) (o_removed p)) b)
  | feed_added s : o_added (fd_pair s) <> [] -> deliver s (take_added s)
  | feed_removed s : o_removed (fd_pair s) <> [] -> deliver s (take_removed s)
  | feed_get s : deliver s (mkFeed (fd_resolver s) (fd_flight s) (fd_initial s) (fd_pair s) (rr_Get (fd_balancer s)).2).

(** The balancer as [NewRoundRobinBalancer] leaves it: it has just called [Watch]. *)
Definition feed_start (r : ResolverState) : Feed :=
  let '(w, init) := Watch 0 (Some (GetLLMInstances r)) NewWatcher in
  mkFeed r None init (default (mkPair [] []) (observers w !! 0)) NewRoundRobinBalancer.

(** Nothing is on its way to the balancer. *)
Definition drained (s : Feed) : Prop :=
  fd_flight s = None /\ fd_initial s = None /\ o_added (fd_pair s) = [] /\ o_removed (fd_pair s) = [].

Definition feed_step {bytes} `{PodCodec bytes} (s s' : Feed) : Prop := turn s s' \/ deliver s s'.

(** The balancer keeps up: the resolver changes its list only when everything before has
    arrived. *)
Definition paced_step {bytes} `{PodCodec bytes} (s s' : Feed) : Prop := (turn s s' /\ drained s) \/ deliver s s'.

(** ** Counting identifiers *)

Fixpoint count_id (id : string) (l : slice) : nat :=
  match l with [] => 0 | w :: l => (if decide (Id w = id) then 1 else 0) + count_id id l end.

Lemma count_id_app id l1 l2 : count_id id (l1 ++ l2) = count_id id l1 + count_id id l2.
Proof. induction l1 as [|w l1 IH]; cbn; [done|]. rewrite IH. lia. Qed.

Lemma count_id_cons id w l : count_id id (w :: l) = (if decide (Id w = id) then 1 else 0) + count_id id l.
Proof. done. Qed.

Lemma count_id_perm id l1 l2 : l1 ≡ₚ l2 -> count_id id l1 = count_id id l2.
Proof. induction 1; cbn; lia. Qed.

Lemma count_id_elem id l : 0 < count_id id l <-> id ∈ (Id <$> l).
Proof.
  induction l as [|w l IH]; [split; [cbn; lia|by intros ?%elem_of_nil]|].
  rewrite count_id_cons, fmap_cons, elem_of_cons, <- IH. case_decide; split; intros; intuition (subst; try lia; try congruence).
Qed.

Lemma count_id_nodup id l : NoDup (Id <$> l) -> count_id id l <= 1.
Proof.
  induction l as [|w l IH]; [cbn; lia|]. rewrite fmap_cons, count_id_cons. intros [Hn Hl]%list.NoDup_cons.
  specialize (IH Hl). case_decide; [subst|lia]. rewrite <- count_id_elem in Hn. lia.
Qed.

Lemma count_remove_first id id' l : count_id id (remove_first id' l) = count_id id l - (if decide (id' = id) then 1 else 0).
Proof.
  induction l as [|w l IH]; [cbn; lia|]. cbn [remove_first]. fold (Id w). rewrite count_id_cons.
  case_bool_decide as Hw; [|rewrite count_id_cons, IH]; repeat case_decide; subst; try congruence; lia.
Qed.

Lemma count_rr_del id l b : count_id id (instances (rr_del l b)) = count_id id (instances b) - count_id id l.
Proof.
  unfold rr_del. cbn [instances]. generalize (instances b) as ws. induction l as [|w l IH]; intros ws; cbn [fold_left]; [cbn; lia|].
  rewrite IH, count_remove_first, count_id_cons. fold (Id w). lia.
Qed.

Lemma count_rr_add id l b : count_id id (instances (rr_add l b)) = count_id id (instances b) + count_id id l.
Proof. apply count_id_app. Qed.

Lemma rr_Get_instances b : instances (rr_Get b).2 = instances b.
Proof. unfold rr_Get. case_bool_decide; [done|]. by destruct (_ !! _). Qed.

(** ** The difference of two lists, counted *)

Lemma oldMap_lookup (l : slice) (m : gmap string LLMInstance) id :
  match fold_left (fun m w => <[Id w := w]> m) l m !! id with
  | Some w => (Id w = id /\ 0 < count_id id l) \/ (m !! id = Some w /\ count_id id l = 0)
  | None => m !! id = None /\ count_id id l = 0
  end.
Proof.
  revert m. induction l as [|w l IH]; intros m; cbn [fold_left].
  - destruct (m !! id) eqn:E; [right|]; done.
  - specialize (IH (<[Id w := w]> m)). rewrite count_id_cons, lookup_insert in *.
    destruct (fold_left _ l _ !! id) as [w'|] eqn:E; repeat case_decide; naive_solver lia.
Qed.

Lemma oldMap_spec (l : slice) id :
  match oldMap Id l !! id with
  | Some w => Id w = id /\ 0 < count_id id l
  | None => count_id id l = 0
  end.
Proof.
  pose proof (oldMap_lookup l ∅ id) as Hl. unfold oldMap. destruct (_ !! id); rewrite lookup_empty in Hl; naive_solver.
Qed.

Lemma mark_existing_spec new (m : gmap string LLMInstance) id :
  let '(added, m') := mark_existing Id new m in
  match m !! id with
  | Some w => count_id id added = count_id id new - 1 /\ m' !! id = (if decide (count_id id new = 0) then Some w else None)
  | None => count_id id added = count_id id new /\ m' !! id = None
  end.
Proof.
  revert m. induction new as [|w new IH]; intros m; cbn [mark_existing]; [by destruct (m !! id)|].
  destruct (m !! Id w) as [w0|] eqn:Hw.
  - specialize (IH (delete (Id w) m)). destruct (mark_existing Id new _) as [added m'].
    rewrite lookup_delete, count_id_cons in *. destruct (decide (Id w = id)) as [<-|Hne]; [|done].
    rewrite Hw. destruct IH as [-> ->]. split; [lia|by rewrite decide_False by lia].
  - specialize (IH m). destruct (mark_existing Id new m) as [added m']. rewrite !count_id_cons.
    destruct (decide (Id w = id)) as [<-|Hne]; [|exact IH]. rewrite Hw in *. destruct IH as [-> ->]. done.
Qed.

Lemma count_omap_lookup (m : gmap string LLMInstance) keys id :
  NoDup keys -> (forall k w, m !! k = Some w -> Id w = k) ->
  count_id id (omap (fun k => m !! k) keys) = if decide (id ∈ keys /\ is_Some (m !! id)) then 1 else 0.
Proof.
  intros Hnd Hm. induction keys as [|k keys IH]; cbn [omap list_omap].
  - rewrite decide_False; [done|]. intros [[]%elem_of_nil _].
  - apply list.NoDup_cons in Hnd as [Hk Hnd]. specialize (IH Hnd).
    destruct (m !! k) as [w|] eqn:E; rewrite ?count_id_cons, IH.
    + rewrite (Hm k w E). destruct (decide (k = id)) as [->|Hne].
      * rewrite (decide_False (P := id ∈ keys /\ _)) by naive_solver. rewrite decide_True; [done|]. rewrite E. split; [left|eauto].
      * apply decide_ext. rewrite elem_of_cons. naive_solver.
    + apply decide_ext. rewrite elem_of_cons. split; [naive_solver|]. intros [[->|] Hs]; [|done]. rewrite E in Hs. by destruct Hs.
Qed.

(** What [DiffSets] reports of an identifier, duplicates included. *)
Lemma DiffSets_counts order old new id :
  visits_once order ->
  let '(added, removed) := DiffSets Id order old new in
  count_id id added = count_id id new - (if decide (count_id id old = 0) then 0 else 1) /\
  count_id id removed = if decide (count_id id new = 0 /\ count_id id old <> 0) then 1 else 0.
Proof.
  intros Ho. unfold DiffSets. pose proof (mark_existing_spec new (oldMap Id old)) as Hm.
  destruct (mark_existing Id new (oldMap Id old)) as [added m'] eqn:E.
  assert (Hid : forall k w, m' !! k = Some w -> Id w = k).
  { intros k w Hk. specialize (Hm k). pose proof (oldMap_spec old k) as Hold.
    destruct (oldMap Id old !! k); destruct Hm as [_ Hm]; rewrite Hm in Hk; [case_decide|]; naive_solver. }
  rewrite (count_omap_lookup m' _ id (NoDup_order _ _ Ho) Hid).
  assert (Hdom : id ∈ order (dom m') <-> is_Some (m' !! id)) by (rewrite (elem_of_order _ _ _ Ho); apply elem_of_dom).
  specialize (Hm id). pose proof (oldMap_spec old id) as Hold.
  destruct (oldMap Id old !! id) as [w|]; destruct Hm as [-> Hm]; rewrite Hm in *.
  - rewrite (decide_False (P := count_id id old = 0)) by lia. split; [done|]. apply decide_ext. rewrite Hdom.
    destruct (decide (count_id id new = 0)); split; intros [H1 H2]; split; eauto; (lia || by destruct H2).
  - rewrite (decide_True (P := count_id id old = 0)) by done. split; [lia|].
    rewrite !decide_False; [done|lia|by intros [_ []]].
Qed.

(** ** What a turn of the resolver reports *)

Definition n_added (n : notification) : slice := match n with Some (added, _) => added | None => [] end.
Definition n_removed (n : notification) : slice := match n with Some (_, removed) => removed | None => [] end.

Lemma notify_diff_added a d : n_added (notify_diff a d) = a.
Proof. by destruct a, d. Qed.
Lemma notify_diff_removed a d : n_removed (notify_diff a d) = d.
Proof. by destruct a, d. Qed.

(** The counts before and after a turn. *)
Definition accounts (old new : slice) (n : notification) : Prop :=
  forall id, count_id id new + count_id id (n_removed n) = count_id id old + count_id id (n_added n)
             /\ count_id id (n_removed n) <= count_id id old.

Lemma accounts_same l : accounts l l None.
Proof. intros id. cbn. lia. Qed.

Lemma replace_state_accounts order new pods r :
  visits_once order -> NoDup (Id <$> r_instances r) -> NoDup (Id <$> new) ->
  accounts (r_instances r) new (replace_state order new pods r).2.
Proof.
  intros Ho Hold Hnew id. pose proof (DiffSets_counts order (r_instances r) new id Ho) as Hd.
  pose proof (count_id_nodup id _ Hold). pose proof (count_id_nodup id _ Hnew).
  unfold replace_state. destruct (DiffSets Id order _ new) as [added removed]. cbn [snd].
  rewrite notify_diff_added, notify_diff_removed. destruct Hd as [-> ->]. repeat case_decide; lia.
Qed.

Lemma turn_accounts {bytes} `{PodCodec bytes} r r' n :
  resolver_turn r r' n -> NoDup (Id <$> r_instances r) -> NoDup (Id <$> r_instances r') ->
  accounts (r_instances r) (r_instances r') n.
Proof.
  assert (Hgen : forall r' n order new pods, visits_once order -> replace_state order new pods r = (r', n) ->
            NoDup (Id <$> r_instances r) -> NoDup (Id <$> r_instances r') -> accounts (r_instances r) (r_instances r') n).
  { clear. intros r' n order new pods Ho E Hold Hnew. pose proof (replace_state_accounts order new pods r Ho Hold) as Ha.
    unfold replace_state in *. destruct (DiffSets Id order (r_instances r) new). injection E as <- <-. by apply Ha. }
  intros [order now t r0 n0 Ho E|order now keys values r0 n0 deleted Ho E].
  - assert (Hw : (r, None) = (r0, n0) \/ exists new pods, replace_state order new pods r = (r0, n0)).
    { destruct t as [[d|]|[d|]|[d|]|events]; cbn [watch_turn etcd_refresh] in E; eauto.
      unfold handleWatchResponse in E. destruct (bool_decide _); eauto. }
    destruct Hw as [[= <- <-]|(new & pods & Hr)]; [intros; apply accounts_same|eauto].
  - destruct keys as [keys|], values as [values|]; cbn [redis_refresh] in E; try done.
    destruct (fold_left _ _ _) as [[new pods] del].
    destruct (replace_state order new pods r) as [r1 n1] eqn:Er. injection E as <- <- <-. eauto.
Qed.

(** ** Invariants of the composed system *)

Definition coming (id : string) (s : Feed) : nat :=
  count_id id (concat (o_added (fd_pair s))) + count_id id (default [] (fd_initial s)) + count_id id (n_added (fd_flight s)).
Definition leaving (id : string) (s : Feed) : nat :=
  count_id id (concat (o_removed (fd_pair s))) + count_id id (n_removed (fd_flight s)).
Definition held (id : string) (s : Feed) : nat := count_id id (instances (fd_balancer s)).
Definition live (id : string) (s : Feed) : nat := count_id id (r_instances (fd_resolver s)).

Definition feed_inv (s : Feed) : Prop :=
  NoDup (Id <$> r_instances (fd_resolver s)) /\ forall id, live id s + leaving id s <= held id s + coming id s.

Definition paced_inv (s : Feed) : Prop :=
  NoDup (Id <$> r_instances (fd_resolver s)) /\
  forall id, live id s + leaving id s = held id s + coming id s /\ leaving id s <= held id s.

Lemma try_send_count id l q : fits l q -> count_id id (concat (try_send l q)) = count_id id (concat q) + count_id id l.
Proof.
  unfold fits, try_send. intros Hf. case_bool_decide; [subst; cbn; lia|]. rewrite bool_decide_true by tauto.
  rewrite concat_app, count_id_app. cbn. by rewrite app_nil_r.
Qed.

(** How a delivery changes the counts: a message moves towards the balancer, and what is
    removed is taken from what the balancer holds. *)
Lemma deliver_counts s s' id :
  deliver s s' ->
  fd_resolver s' = fd_resolver s /\
  exists a d, held id s' = held id s + a - d /\ coming id s = coming id s' + a /\ leaving id s = leaving id s' + d /\ (a = 0 \/ d = 0).
Proof.
  intros [r added removed i p b Ha Hr|r n l p b Hl|[r n i [qa qd] b] Hq|[r n i [qa qd] b] Hq|s0].
  - split; [done|]. exists 0, 0. unfold held, coming, leaving, notify_pair. cbn. rewrite !try_send_count by done. cbn. lia.
  - split; [done|]. exists 0, 0. unfold held, coming, leaving. cbn. rewrite concat_app, count_id_app. cbn. rewrite app_nil_r. lia.
  - destruct qa as [|l qa]; [done|]. split; [done|]. exists (count_id id l), 0. unfold held, coming, leaving, take_added.
    cbn [fd_pair o_added fd_balancer fd_initial fd_flight o_removed concat]. rewrite count_rr_add, count_id_app. lia.
  - destruct qd as [|l qd]; [done|]. split; [done|]. exists 0, (count_id id l). unfold held, coming, leaving, take_removed.
    cbn [fd_pair o_added fd_balancer fd_initial fd_flight o_removed concat]. rewrite count_rr_del, count_id_app. lia.
  - split; [done|]. exists 0, 0. unfold held, coming, leaving. cbn. rewrite rr_Get_instances. lia.
Qed.

Lemma feed_start_inv r : NoDup (Id <$> r_instances r) -> paced_inv (feed_start r).
Proof.
  intros Hnd. split; [done|]. intros id. unfold feed_start, live, leaving, held, coming. cbn.
  rewrite !lookup_insert_eq. unfold GetLLMInstances. destruct (r_instances r); cbn; lia.
Qed.

Lemma paced_feed s : paced_inv s -> feed_inv s.
Proof. intros [Hnd Hs]. split; [done|]. intros id. destruct (Hs id). lia. Qed.

Lemma feed_step_inv {bytes} `{PodCodec bytes} s s' : feed_step s s' -> feed_inv s -> feed_inv s'.
Proof.
  intros [Ht|Hd] [Hnd Hs].
  - destruct Ht as [r r' n i p b Hr Hnd']. split; [done|]. intros id. specialize (Hs id).
    destruct (turn_accounts _ _ _ Hr Hnd Hnd' id). unfold live, leaving, held, coming in *. cbn in *. lia.
  - split; [by destruct (deliver_counts s s' "" Hd) as [-> _]|]. intros id.
    destruct (deliver_counts s s' id Hd) as (Er & a & d & ? & ? & ? & ?). specialize (Hs id). unfold live in *. rewrite Er. lia.
Qed.

Lemma paced_step_inv {bytes} `{PodCodec bytes} s s' : paced_step s s' -> paced_inv s -> paced_inv s'.
Proof.
  intros [[Ht Hdr]|Hd] [Hnd Hs].
  - destruct Ht as [r r' n i p b Hr Hnd']. split; [done|]. intros id. specialize (Hs id).
    destruct (turn_accounts _ _ _ Hr Hnd Hnd' id). destruct Hdr as (_ & Hi & Ha & Hd). unfold live, leaving, held, coming in *.
    cbn in *. rewrite Hi, Ha, Hd in *. cbn in *. lia.
  - split; [by destruct (deliver_counts s s' "" Hd) as [-> _]|]. intros id.
    destruct (deliver_counts s s' id Hd) as (Er & a & d & ? & ? & ? & ?). specialize (Hs id). unfold live in *. rewrite Er. lia.
Qed.

(** ** Theorems *)

Lemma drained_counts s id : drained s -> coming id s = 0 /\ leaving id s = 0.
Proof. intros (Hn & Hi & Ha & Hd). unfold coming, leaving. by rewrite Hn, Hi, Ha, Hd. Qed.

Lemma count_id_occ id l : count_id id l = count_occ String.string_dec (map Id l) id.
Proof. induction l as [|w l IH]; [done|]. cbn. rewrite IH. by destruct (decide _), (String.string_dec _ _). Qed.

Lemma count_id_ids l1 l2 : (forall id, count_id id l1 = count_id id l2) -> Id <$> l1 ≡ₚ Id <$> l2.
Proof. intros Hc. apply (Permutation_count_occ String.string_dec). intros id. specialize (Hc id). by rewrite !count_id_occ in Hc. Qed.

Section theorems.
Context {bytes : Type} `{PodCodec bytes}.

(** The balancer loses no instance, whatever the interleaving of the resolver's turns,
    the notifications and the two channels, as long as no channel overflows: once
    everything that was sent has arrived, every instance that the resolver lists is among
    those the balancer chooses from. *)
Theorem balancer_keeps_instances r s w :
  NoDup (Id <$> r_instances r) -> rtc feed_step (feed_start r) s -> drained s ->
  w ∈ GetLLMInstances (fd_resolver s) -> Id w ∈ Id <$> instances (fd_balancer s).
Proof.
  intros Hr Hs Hd Hw.
  assert (Hinv : feed_inv s).
  { eapply (rtc_ind_r feed_inv); [|intros ? ? _ Hst Hi; by eapply feed_step_inv|exact Hs]. apply paced_feed, feed_start_inv, Hr. }
  destruct Hinv as [_ Hinv]. specialize (Hinv (Id w)). destruct (drained_counts s (Id w) Hd) as [Hc Hl].
  assert (0 < live (Id w) s) by (apply count_id_elem; apply list_elem_of_fmap; eauto).
  apply count_id_elem. unfold held in Hinv. lia.
Qed.


End theorems.
