(* ===== verification/ResolverSpec.v ===== *)
(** * Service discovery: what the resolvers list

    The identifiers of instances are distinct, following the events of etcd gives the same
    list as reading everything again, and the endpoints of a static list survive printing
    and parsing. *)

From Stdlib Require Import Ascii.
From stdpp Require Import base gmap list strings pretty numbers.
From S2P Require Import Prelude GoStrings GoFloat Types Resolver.

Local Open Scope Z_scope.

(** ** Identifiers *)

Lemma sapp_inj_char c s1 s2 t1 t2 :
  sNotIn c t1 -> sNotIn c t2 -> s1 +:+ String c t1 = s2 +:+ String c t2 -> s1 = s2 /\ t1 = t2.
Proof.
  intros H1 H2 E. pose proof (LastIndex_char_app c s1 t1 H1) as E1. rewrite E, (LastIndex_char_app c s2 t2 H2) in E1.
  injection E1 as El. pose proof (stake_app s1 (String c t1)) as T1. rewrite E, <- El, stake_app in T1.
  pose proof (sdrop_app s1 (String c t1)) as D1. rewrite E, <- El, sdrop_app in D1. split; congruence.
Qed.

Lemma prefix_inj p s t : p +:+ s = p +:+ t -> s = t.
Proof. intros E. pose proof (sdrop_app p s) as Hs. by rewrite E, sdrop_app in Hs. Qed.

Lemma instance_id_inj n1 n2 r1 r2 : instance_id n1 r1 = instance_id n2 r2 -> n1 = n2 /\ r1 = r2.
Proof.
  unfold instance_id. intros E. change ("_dp" +:+ ?x) with (String "_" ("dp" +:+ x)) in E.
  apply sapp_inj_char in E as [-> E].
  - split; [done|]. apply (prefix_inj "dp"), (inj pretty) in E. done.
  - apply sNotIn_app. split; [cbn; intuition congruence|]. apply Itoa_sNotIn; done.
  - apply sNotIn_app. split; [cbn; intuition congruence|]. apply Itoa_sNotIn; done.
Qed.

Lemma Id_to_instance name i : Id (to_instance name i) = instance_id name (DpRank i).
Proof.
  unfold Id, LLMInstance_Id. rewrite bool_decide_false; [done|]. cbn. unfold instance_id. by destruct name.
Qed.

Lemma pod_instances_nodup t p : NoDup (map DpRank (Instances p)) -> NoDup (map Id (pod_instances t p)).
Proof.
  intros Hnd. unfold pod_instances. rewrite map_map. induction (Instances p) as [|i l IH]; [constructor|].
  cbn in Hnd. apply list.NoDup_cons in Hnd as [Hi Hnd]. specialize (IH Hnd). cbn [List.filter].
  destruct (wanted t i); [|done]. cbn [map]. apply list.NoDup_cons. split; [|done].
  intros Hin. apply Hi. apply list_elem_of_In, in_map_iff in Hin as (j & Hj & Hin).
  rewrite !Id_to_instance in Hj. apply instance_id_inj in Hj as [_ Hj]. apply filter_In in Hin as [Hin _].
  apply list_elem_of_In, in_map_iff. eauto.
Qed.

Lemma elem_of_pod_instances t p id : id ∈ map Id (pod_instances t p) -> exists k, id = instance_id (PodName p) k.
Proof.
  unfold pod_instances. rewrite map_map, list_elem_of_In, in_map_iff. intros (i & <- & _). rewrite Id_to_instance. eauto.
Qed.

(** The pods a resolver keeps, under their own names, with distinct ranks. *)
Definition pods_ok (pods : gmap string PodDiscoveryInfo) : Prop :=
  forall k p, pods !! k = Some p -> PodName p = k /\ NoDup (map DpRank (Instances p)).

(** Lists of instances that name their pods. *)
Lemma flat_map_ids_nodup (g : string -> list LLMInstance) names :
  NoDup names -> (forall name, NoDup (map Id (g name))) ->
  (forall name id, id ∈ map Id (g name) -> exists k, id = instance_id name k) -> NoDup (map Id (flat_map g names)).
Proof.
  intros Hnd Hg Hid. induction names as [|name names IH]; [constructor|]. apply list.NoDup_cons in Hnd as [Hn Hnd].
  cbn [flat_map]. rewrite map_app. apply list.NoDup_app. split; [apply Hg|]. split; [|by apply IH].
  intros id [r ->]%Hid Hin. apply list_elem_of_In, in_map_iff in Hin as (w & Hw & (name' & Hn' & Hin)%in_flat_map).
  assert (He : Id w ∈ map Id (g name')) by (apply list_elem_of_In, in_map, Hin).
  apply Hid in He as [r' He]. rewrite Hw in He. apply instance_id_inj in He as [-> _]. apply Hn. by apply list_elem_of_In.
Qed.

Lemma buildInstanceList_nodup order t pods :
  visits_once order -> pods_ok pods -> NoDup (Id <$> buildInstanceList order t pods).
Proof.
  intros Ho Hok. apply flat_map_ids_nodup; [by apply NoDup_order| |]; intros name; destruct (pods !! name) as [p|] eqn:E.
  - by apply pod_instances_nodup, (Hok name p).
  - constructor.
  - apply (Hok name p) in E as [<- _]. apply elem_of_pod_instances.
  - by intros id ?%elem_of_nil.
Qed.

Lemma buildInstanceList_order order order' t pods :
  visits_once order -> visits_once order' -> buildInstanceList order t pods ≡ₚ buildInstanceList order' t pods.
Proof. intros H1 H2. apply flat_map_perm. by rewrite (H1 _), (H2 _). Qed.

(** ** Following etcd *)

Section etcd.
Context {bytes : Type} `{PodCodec bytes}.

(** The keys of etcd under the prefix, and the effect of an event. *)
Definition store_event (st : gmap string bytes) (ev : Event bytes) : gmap string bytes :=
  match ev with EventPut k v => <[k := v]> st | EventDelete k => delete k st end.

(** An entry as the registrar writes it: a pod with an instance, under its own name. *)
Definition entry_ok (now ttlMs : Z) (k : string) (v : bytes) : bool :=
  match Unmarshal v with
  | None => false
  | Some p =>
      bool_decide (k = EtcdDiscoveryPrefix +:+ PodName p) && negb (expired now ttlMs p)
      && bool_decide (Instances p <> [])
  end.

Definition event_ok (now ttlMs : Z) (ev : Event bytes) : bool :=
  match ev with EventPut k v => entry_ok now ttlMs k v | EventDelete k => HasPrefix k EtcdDiscoveryPrefix end.

Definition entries_ok (now ttlMs : Z) (st : gmap string bytes) : Prop := map_Forall (fun k v => entry_ok now ttlMs k v = true) st.

(** The pods that the entries stand for. *)
Definition mirrors (st : gmap string bytes) (pods : gmap string PodDiscoveryInfo) : Prop :=
  (forall name, pods !! name = st !! (EtcdDiscoveryPrefix +:+ name) ≫= Unmarshal) /\
  (forall k v, st !! k = Some v -> exists p, Unmarshal v = Some p /\ k = EtcdDiscoveryPrefix +:+ PodName p).

Lemma entry_ok_inv now ttlMs k v :
  entry_ok now ttlMs k v = true ->
  exists p, Unmarshal v = Some p /\ k = EtcdDiscoveryPrefix +:+ PodName p /\ expired now ttlMs p = false /\ Instances p <> [].
Proof.
  unfold entry_ok. destruct (Unmarshal v) as [p|]; [|done].
  intros [[Hk%bool_decide_eq_true He%negb_true_iff]%andb_prop Hi%bool_decide_eq_true]%andb_prop. eauto.
Qed.

Lemma mirrors_event now r st pods ev :
  mirrors st pods -> event_ok now (r_ttlMs r) ev = true -> mirrors (store_event st ev) (apply_event now r pods ev).
Proof.
  intros [Hl Hk] Hev. destruct ev as [k v|k]; cbn [event_ok store_event apply_event] in *.
  - apply entry_ok_inv in Hev as (p & Hp & -> & He & _). rewrite Hp, He. split.
    + intros name. destruct (decide (PodName p = name)) as [<-|Hne]; [by rewrite !lookup_insert_eq|].
      rewrite !lookup_insert_ne by (done || intros E%prefix_inj; done). apply Hl.
    + intros k v'. rewrite lookup_insert_Some. intros [[<- <-]|[_ Hv]]; eauto.
  - apply prefix_true in Hev. rewrite Hev. fold (TrimPrefix (EtcdDiscoveryPrefix +:+ sdrop (String.length EtcdDiscoveryPrefix) k) EtcdDiscoveryPrefix).
    rewrite TrimPrefix_app. set (n := sdrop _ k). split.
    + intros name. destruct (decide (n = name)) as [<-|Hne]; [by rewrite !lookup_delete_eq|].
      rewrite !lookup_delete_ne by (done || intros E%prefix_inj; done). apply Hl.
    + intros k' v'. rewrite lookup_delete_Some. intros [_ Hv]. eauto.
Qed.

Lemma mirrors_events now r st pods events :
  mirrors st pods -> forallb (event_ok now (r_ttlMs r)) events = true ->
  mirrors (fold_left store_event events st) (fold_left (apply_event now r) events pods).
Proof.
  revert st pods. induction events as [|ev events IH]; intros st pods Hm; [done|].
  intros [He Hs]%andb_prop. cbn. apply IH; [|done]. by apply mirrors_event.
Qed.

Lemma mirrors_unique st pods pods' : mirrors st pods -> mirrors st pods' -> pods = pods'.
Proof. intros [H1 _] [H2 _]. apply map_eq. intros name. by rewrite H1, H2. Qed.

Lemma mirrors_load order now ttlMs st :
  visits_once order -> entries_ok now ttlMs st -> mirrors st (load_pods order now ttlMs (Some <$> st)).
Proof.
  intros Ho Hok. split; [|intros k v (p & ? & ? & _)%Hok%entry_ok_inv; eauto]. intros name. unfold load_pods.
  assert (Hgen : forall keys (m : gmap string PodDiscoveryInfo), NoDup keys ->
    fold_left (fun pods key => match (Some <$> st) !! key ≫= load_pod now ttlMs with Some p => <[PodName p := p]> pods | None => pods end) keys m !! name
    = if decide (EtcdDiscoveryPrefix +:+ name ∈ keys) then
        match st !! (EtcdDiscoveryPrefix +:+ name) with Some v => Unmarshal v | None => m !! name end
      else m !! name).
  { induction keys as [|k keys IH]; intros m Hnd; [done|]. apply list.NoDup_cons in Hnd as [Hk Hnd]. cbn [fold_left].
    rewrite IH by done. clear IH. rewrite lookup_fmap. destruct (st !! k) as [v|] eqn:E; cbn.
    - destruct (entry_ok_inv _ _ _ _ (Hok k v E)) as (p & Hp & -> & He & Hi).
      rewrite Hp, He, bool_decide_true by (destruct (Instances p); [done|cbn; lia]).
      destruct (decide (PodName p = name)) as [<-|Hne].
      + rewrite (decide_False (P := _ ∈ keys)) by done. rewrite decide_True by left. by rewrite lookup_insert_eq, E.
      + rewrite lookup_insert_ne by done. apply decide_ext. rewrite elem_of_cons. split; [tauto|]. intros [E'%prefix_inj|]; [done|tauto].
    - destruct (decide (EtcdDiscoveryPrefix +:+ name = k)) as [->|Hne].
      + rewrite (decide_False (P := _ ∈ keys)) by done. rewrite decide_True by left. by rewrite E.
      + apply decide_ext. rewrite elem_of_cons. tauto. }
  rewrite Hgen by by apply NoDup_order. destruct (st !! _) as [v|] eqn:E.
  - rewrite decide_True; [done|]. apply (elem_of_order _ _ _ Ho), elem_of_dom. by rewrite lookup_fmap, E.
  - by destruct (decide _).
Qed.

(** A resolver that loaded [st] and then handled batches of events, each with the clock
    and the iteration order of its call. *)
Definition follow (batches : list (Z * key_order * list (Event bytes))) (r : ResolverState) : ResolverState :=
  fold_left (fun r b => (handleWatchResponse b.1.2 b.1.1 b.2 r).1) batches r.

Definition batch_ok (ttlMs : Z) (b : Z * key_order * list (Event bytes)) : Prop :=
  visits_once b.1.2 /\ forallb (event_ok b.1.1 ttlMs) b.2 = true.

(** The state agrees with the store. *)
Definition in_sync (st : gmap string bytes) (r : ResolverState) : Prop :=
  mirrors st (podDiscoveryInfos r) /\
  forall order, visits_once order -> r_instances r ≡ₚ buildInstanceList order (r_inferType r) (podDiscoveryInfos r).

Lemma replace_state_fields order new pods r :
  let r' := (replace_state order new pods r).1 in
  r_inferType r' = r_inferType r /\ r_ttlMs r' = r_ttlMs r /\ r_instances r' = new /\ podDiscoveryInfos r' = pods.
Proof. unfold replace_state. by destruct (DiffSets Id order (r_instances r) new). Qed.

Lemma handle_in_sync order now events st r :
  visits_once order -> in_sync st r -> forallb (event_ok now (r_ttlMs r)) events = true ->
  let r' := (handleWatchResponse order now events r).1 in
  in_sync (fold_left store_event events st) r' /\ r_ttlMs r' = r_ttlMs r /\ r_inferType r' = r_inferType r.
Proof.
  intros Ho [Hm Hi] Hev. unfold handleWatchResponse. case_bool_decide as He.
  - apply length_zero_iff_nil in He. by subst.
  - match goal with |- context [replace_state ?o ?n ?p r] => destruct (replace_state_fields o n p r) as (Ht & Hl & Hn & Hp) end.
    cbn zeta. rewrite Ht, Hl. split; [|done]. split; rewrite Hp; [by apply mirrors_events|].
    intros order' Ho'. rewrite Ht, Hn. by apply buildInstanceList_order.
Qed.

Lemma refresh_in_sync order now st r :
  visits_once order -> entries_ok now (r_ttlMs r) st ->
  let r' := (etcd_refresh order now (Some (Some <$> st)) r).1 in
  in_sync st r' /\ r_ttlMs r' = r_ttlMs r /\ r_inferType r' = r_inferType r.
Proof.
  intros Ho Hok. cbn [etcd_refresh]. cbn zeta.
  match goal with |- context [replace_state ?o ?n ?p r] => destruct (replace_state_fields o n p r) as (Ht & Hl & Hn & Hp) end.
  rewrite Ht, Hl. split; [|done]. split; rewrite Hp; [by apply mirrors_load|].
  intros order' Ho'. rewrite Ht, Hn. by apply buildInstanceList_order.
Qed.

Lemma follow_in_sync batches st r :
  in_sync st r -> Forall (batch_ok (r_ttlMs r)) batches ->
  in_sync (fold_left store_event (flat_map snd batches) st) (follow batches r)
  /\ r_ttlMs (follow batches r) = r_ttlMs r /\ r_inferType (follow batches r) = r_inferType r.
Proof.
  revert st r. induction batches as [|[[now order] events] batches IH]; intros st r Hs Hb; [done|].
  apply Forall_cons_iff in Hb as [[Ho Hev] Hb]. cbn in Ho, Hev. cbn [flat_map snd follow fold_left]. rewrite fold_left_app.
  destruct (handle_in_sync order now events st r Ho Hs Hev) as (Hs' & Ht & Hi).
  destruct (IH _ _ Hs') as (H1 & H2 & H3); [by rewrite Ht|]. split; [exact H1|]. by rewrite <- Ht, <- Hi.
Qed.

(** C12. A resolver that loaded the entries of etcd once and then applied every batch of put and
    delete events lists the same instances as one that loads the entries that those events leave.
    Every entry, at the load and in a put, must be a readable pod with at least one instance, under
    the pod's own key and not expired when it is read, at the end again; deletes are of keys under
    the discovery prefix. *)
Theorem watch_equals_refresh t leaseTTL order0 now0 order now st batches :
  visits_once order0 -> visits_once order ->
  let r0 := new_etcd_state t leaseTTL in
  let st' := fold_left store_event (flat_map snd batches) st in
  entries_ok now0 (r_ttlMs r0) st -> Forall (batch_ok (r_ttlMs r0)) batches -> entries_ok now (r_ttlMs r0) st' ->
  GetLLMInstances (follow batches (etcd_refresh order0 now0 (Some (Some <$> st)) r0).1)
  ≡ₚ GetLLMInstances (etcd_refresh order now (Some (Some <$> st')) r0).1.
Proof.
  intros Ho0 Ho r0 st' H0 Hb Hend.
  destruct (refresh_in_sync order0 now0 st r0 Ho0 H0) as (Hs & Ht & Hi).
  destruct (follow_in_sync batches st _ Hs) as ([Hm Hf] & _ & Hif); [by rewrite Ht|].
  destruct (refresh_in_sync order now st' r0 Ho Hend) as ([Hm' Hf'] & _ & Hi').
  unfold GetLLMInstances. rewrite (Hf order Ho), (Hf' order Ho), Hif, Hi, Hi'.
  by rewrite (mirrors_unique _ _ _ Hm Hm').
Qed.

End etcd.

(** ** The identifiers that a resolver on etcd lists *)

Section etcd_ids.
Context {bytes : Type} `{PodCodec bytes}.

(** The values decode to pods whose ranks are distinct. *)
Definition ranks_ok (v : bytes) : Prop := forall p, Unmarshal v = Some p -> NoDup (map DpRank (Instances p)).

Definition turn_ranks_ok (t : EtcdTurn bytes) : Prop :=
  match t with
  | TurnRefresh d | TurnClosed d | TurnCanceled d => forall st k v, d = Some st -> st !! k = Some (Some v) -> ranks_ok v
  | TurnEvents events => Forall (fun ev => match ev with EventPut _ v => ranks_ok v | EventDelete _ => True end) events
  end.

Lemma apply_event_ok now r pods ev :
  pods_ok pods -> (match ev with EventPut _ v => ranks_ok v | EventDelete _ => True end) -> pods_ok (apply_event now r pods ev).
Proof.
  intros Hok Hev. destruct ev as [k v|k]; cbn [apply_event].
  - destruct (Unmarshal v) as [p|] eqn:E; [|done]. destruct (expired _ _ p); [done|].
    intros k' p' [[<- <-]|[_ Hp]]%lookup_insert_Some; [split; [done|by apply Hev]|by apply Hok].
  - intros k' p' [_ Hp]%lookup_delete_Some. by apply Hok.
Qed.

Lemma load_pods_ok order now ttlMs (st : gmap string (option bytes)) :
  (forall k v, st !! k = Some (Some v) -> ranks_ok v) -> pods_ok (load_pods order now ttlMs st).
Proof.
  intros Hst. unfold load_pods. assert (Hgen : forall keys pods, pods_ok pods ->
    pods_ok (fold_left (fun pods key => match st !! key ≫= load_pod now ttlMs with Some p => <[PodName p := p]> pods | None => pods end) keys pods)).
  { induction keys as [|k keys IH]; intros pods Hok; cbn [fold_left]; [done|]. apply IH.
    destruct (st !! k) as [[v|]|] eqn:E; cbn [mbind option_bind load_pod]; [|done|done].
    destruct (Unmarshal v) as [p|] eqn:Ep; [|done]. destruct (expired _ _ p); [done|]. case_bool_decide; [|done].
    intros k' p' [[<- <-]|[_ Hp]]%lookup_insert_Some; [split; [done|by eapply Hst]|by apply Hok]. }
  apply Hgen. intros k p Hp. by rewrite lookup_empty in Hp.
Qed.

(** A resolver on etcd keeps its pods under their names, and the identifiers it lists are
    distinct, as long as no registration gives one rank to two instances. *)
Theorem watch_turn_ids order now t r :
  visits_once order -> turn_ranks_ok t -> pods_ok (podDiscoveryInfos r) -> NoDup (Id <$> r_instances r) ->
  let r' := (watch_turn order now t r).1 in pods_ok (podDiscoveryInfos r') /\ NoDup (Id <$> r_instances r').
Proof.
  intros Ho Ht Hok Hnd.
  assert (Hgen : forall pods, pods_ok pods -> let r' := (replace_state order (buildInstanceList order (r_inferType r) pods) pods r).1 in
            pods_ok (podDiscoveryInfos r') /\ NoDup (Id <$> r_instances r')).
  { intros pods Hp. destruct (replace_state_fields order (buildInstanceList order (r_inferType r) pods) pods r) as (_ & _ & Hi & Hpods).
    cbn zeta in *. rewrite Hi, Hpods. split; [done|]. by apply buildInstanceList_nodup. }
  assert (Hrefresh : forall d, (forall st k v, d = Some st -> st !! k = Some (Some v) -> ranks_ok v) ->
            let r' := (etcd_refresh order now d r).1 in pods_ok (podDiscoveryInfos r') /\ NoDup (Id <$> r_instances r')).
  { intros [st|] Hd; [|done]. apply Hgen, load_pods_ok. eauto. }
  destruct t as [d|d|d|events]; [by apply Hrefresh..|]. cbn [watch_turn]. unfold handleWatchResponse.
  destruct (bool_decide _); [done|]. apply Hgen. cbn in Ht.
  assert (Hev : forall pods, pods_ok pods -> pods_ok (fold_left (apply_event now r) events pods)); [|by apply Hev].
  induction Ht as [|ev events Hev _ IH]; intros pods Hp; [done|]. cbn. by apply IH, apply_event_ok.
Qed.

End etcd_ids.

(** ** Reading Redis *)

Section redis.
Context {bytes : Type} `{PodCodec bytes}.

(** What one entry contributes. *)
Definition entry_instances (now : Z) (r : ResolverState) (v : option bytes) : list LLMInstance :=
  match v ≫= Unmarshal with
  | Some p => if expired now (r_ttlMs r) p then [] else pod_instances (r_inferType r) p
  | None => []
  end.

Definition entry_expired (now : Z) (r : ResolverState) (v : option bytes) : bool :=
  match v ≫= Unmarshal with Some p => expired now (r_ttlMs r) p | None => false end.

Lemma redis_entry_spec now r instances pods deleted k v :
  exists pods', redis_entry now r (instances, pods, deleted) (k, v)
    = (instances ++ entry_instances now r v, pods', deleted ++ (if entry_expired now r v then [k] else [])).
Proof.
  unfold redis_entry, entry_instances, entry_expired. destruct v as [v|]; cbn; [|rewrite !app_nil_r; eauto].
  destruct (Unmarshal v) as [p|]; cbn; [|rewrite !app_nil_r; eauto].
  destruct (expired now (r_ttlMs r) p); [rewrite app_nil_r; eauto|]. rewrite (app_nil_r deleted). eauto.
Qed.

Lemma redis_entries now r entries instances pods deleted :
  let '(instances', _, deleted') := fold_left (redis_entry now r) entries (instances, pods, deleted) in
  instances' = instances ++ flat_map (fun e => entry_instances now r e.2) entries /\
  deleted' = deleted ++ flat_map (fun e => if entry_expired now r e.2 then [e.1] else []) entries.
Proof.
  revert instances pods deleted. induction entries as [|[k v] entries IH]; intros instances pods deleted;
    cbn [fold_left flat_map fst snd]; [by rewrite !app_nil_r|].
  destruct (redis_entry_spec now r instances pods deleted k v) as [pods' ->].
  specialize (IH (instances ++ entry_instances now r v) pods' (deleted ++ (if entry_expired now r v then [k] else []))).
  destruct (fold_left _ _ _) as [[i' p'] d']. destruct IH as [-> ->]. by rewrite <- !app_assoc.
Qed.

(** A refresh lists exactly what the entries that have not expired register for the
    resolver's type, in the order of the keys, and deletes the keys that have. *)
Theorem redis_refresh_exact order now keys values r :
  exists r' n,
    redis_refresh order now (Some keys) (Some values) r
      = Some (r', n, flat_map (fun e => if entry_expired now r e.2 then [e.1] else []) (zip keys values))
    /\ GetLLMInstances r' = flat_map (fun e => entry_instances now r e.2) (zip keys values)
    /\ r_inferType r' = r_inferType r /\ r_ttlMs r' = r_ttlMs r.
Proof.
  unfold redis_refresh. pose proof (redis_entries now r (zip keys values) [] ∅ []) as He.
  destruct (fold_left _ _ _) as [[new pods] deleted]. destruct He as [-> ->].
  match goal with |- context [replace_state ?o ?n ?p r] => destruct (replace_state_fields o n p r) as (Ht & Hl & Hn & _); destruct (replace_state o n p r) as [r' nn] end.
  exists r', nn. done.
Qed.

End redis.

(** ** Static endpoints

    [CreateBackendServiceResolver] joins a prefix that already ends in "://" with another
    "://": the first endpoint then begins with "://", which no endpoint may. *)

Lemma split_fuel_cons n s sep : exists p l, split_fuel n s sep = p :: l.
Proof. destruct n; cbn; [eauto|]. destruct (Index s sep); eauto. Qed.

Lemma NewEndpoint_colon s : exists e, NewEndpoint (String ":" (String "/" s)) = Err e.
Proof.
  unfold NewEndpoint, Split. cbn [String.length split_fuel].
  assert (Index (String ":" (String "/" s)) ":" = Some 0%nat) as -> by (cbn; by destruct s).
  cbn [stake sdrop Nat.add String.length]. cbn [Index String.prefix].
  destruct (Ascii.ascii_dec ":" "/") as [|_]; [done|]. destruct (Index s ":") as [i|]; [|by exists (ErrorOther "invalid port")].
  cbn [fmap option_fmap option_map].
  match goal with |- context [split_fuel ?n ?x ":"] => destruct (split_fuel_cons n x ":") as (p & l & ->) end.
  by exists (ErrorOther "invalid endpoint format").
Qed.

Lemma TrimSpace_scheme s : TrimSpace (String ":" (String "/" s)) = String ":" (String "/" (TrimRight s)).
Proof. unfold TrimSpace. cbn. by destruct (TrimRight s). Qed.

Lemma parse_scheme s strs : exists e, parse_endpoints (String ":" (String "/" s) :: strs) = Err e.
Proof.
  cbn [parse_endpoints]. rewrite TrimSpace_scheme. cbn [bool_decide]. rewrite bool_decide_false by done. unfold parseEndpoint.
  assert (Contains (String ":" (String "/" (TrimRight s))) ":" = true) as ->.
  { unfold Contains. cbn. by destruct (TrimRight s). }
  destruct (NewEndpoint_colon (TrimRight s)) as [e ->]. eauto.
Qed.

Lemma Split_scheme s : exists s' strs, Split (String ":" (String "/" s)) "," = String ":" (String "/" s') :: strs.
Proof.
  unfold Split. cbn [String.length split_fuel]. cbn [Index String.prefix].
  destruct (Ascii.ascii_dec "," ":") as [|_]; [done|]. destruct (Ascii.ascii_dec "," "/") as [|_]; [done|].
  destruct (Index s ","); cbn [stake]; eauto.
Qed.

(** A gateway or scheduler that is configured with a static list of backends never starts:
    whatever the list is, no resolver is built for it. *)
Theorem static_backends_rejected c t :
  LLMBackendDiscovery c = "endpoints" -> CreateBackendServiceResolver c t = None.
Proof.
  intros Hc. unfold CreateBackendServiceResolver. rewrite Hc. cbn [bool_decide]. rewrite !bool_decide_false by done. rewrite bool_decide_true by done.
  unfold BuildLlmResolver.
  assert (SplitN2 (EndpointsLlmUriPrefix +:+ "://" +:+ LLMBackendEndpoints c) "://" = ["llm+endpoints"; "://" +:+ LLMBackendEndpoints c]) as -> by (by destruct (LLMBackendEndpoints c)).
  assert (getBuilder "llm+endpoints" llmResolverBuilders = Some EndpointsLlmResolverBuilder_Build) as -> by reflexivity.
  unfold EndpointsLlmResolverBuilder_Build. rewrite bool_decide_false by done. rewrite HasPrefix_app. cbn [negb]. rewrite TrimPrefix_app.
  destruct (instance_type_arg _) as [ty|]; [|done]. unfold newEndpointsResolver.
  change ("://" +:+ LLMBackendEndpoints c) with (String ":" (String "/" (String "/" (LLMBackendEndpoints c)))).
  destruct (Split_scheme (String "/" (LLMBackendEndpoints c))) as (s' & strs & ->). by destruct (parse_scheme s' strs) as [e ->].
Qed.

(** The printed list of endpoints is read back as it was, by the resolver of the scheduler
    and by the resolver of backends alike. *)

Definition plain_host (h : string) : Prop := sNotIn ":" h /\ sNotIn "," h /\ forall c, is_space c = true -> sNotIn c h.

Lemma TrimLeft_plain s : (forall c, is_space c = true -> sNotIn c s) -> TrimLeft s = s.
Proof. destruct s as [|c s]; [done|]. intros Hs. cbn. destruct (is_space c) eqn:E; [|done]. by destruct (Hs c E). Qed.

Lemma TrimRight_plain s : (forall c, is_space c = true -> sNotIn c s) -> TrimRight s = s.
Proof.
  induction s as [|c s IH]; [done|]. intros Hs. cbn. rewrite IH by (intros d Hd; by destruct (Hs d Hd)).
  destruct s; [|done]. destruct (is_space c) eqn:E; [|done]. by destruct (Hs c E).
Qed.

Lemma Endpoint_String_plain ep c :
  sNotIn c (Host ep) -> c <> ":"%char -> digit_of c = None -> c <> "-"%char -> sNotIn c (Endpoint_String ep).
Proof.
  intros Hh Hc Hd Hm. unfold Endpoint_String. apply sNotIn_app. split; [done|]. apply sNotIn_app.
  split; [cbn; intuition congruence|]. by apply Itoa_sNotIn.
Qed.

Lemma is_space_not_digit c : is_space c = true -> digit_of c = None /\ c <> ":"%char /\ c <> "-"%char.
Proof. destruct c as [[] [] [] [] [] [] [] []]; try done; intros _; (split_and!; [reflexivity|congruence|congruence]). Qed.

Lemma parse_printed eps :
  Forall (fun ep => plain_host (Host ep) /\ MinInt64 <= Port ep <= MaxInt64) eps -> parse_endpoints (map Endpoint_String eps) = Ok eps.
Proof.
  induction 1 as [|ep eps [(Hc & _ & Hs) Hp] _ IH]; [done|]. cbn [map parse_endpoints].
  assert (Hplain : forall c, is_space c = true -> sNotIn c (Endpoint_String ep)).
  { intros c E. destruct (is_space_not_digit c E) as (? & ? & ?). apply Endpoint_String_plain; auto. }
  unfold TrimSpace. rewrite TrimLeft_plain, TrimRight_plain by done.
  assert (Endpoint_String ep <> "") as Hne by (unfold Endpoint_String; by destruct (Host ep)).
  rewrite bool_decide_false by done. unfold parseEndpoint.
  assert (Contains (Endpoint_String ep) ":" = true) as ->.
  { unfold Contains, Endpoint_String. change (":" +:+ Itoa (Port ep)) with (String ":" (Itoa (Port ep))). by rewrite Index_char_app. }
  by rewrite NewEndpoint_String, IH.
Qed.

Theorem endpoints_roundtrip eps :
  eps <> [] -> Forall (fun ep => plain_host (Host ep) /\ MinInt64 <= Port ep <= MaxInt64) eps ->
  BuildResolver (EndpointsUriPrefix +:+ Join (map Endpoint_String eps) ",") = Ok (mkEndpointsResolver InferTypeNeutral eps).
Proof.
  intros Hne Hok. unfold BuildResolver. set (l := Join _ ",").
  assert (SplitN2 (EndpointsUriPrefix +:+ l) "://" = ["endpoints"; l]) as -> by (by destruct l).
  assert (getBuilder "endpoints" resolverBuilders = Some EndpointsResolverBuilder_Build) as -> by reflexivity.
  unfold EndpointsResolverBuilder_Build. rewrite bool_decide_false by done. rewrite HasPrefix_app. cbn [negb].
  rewrite TrimPrefix_app. unfold newEndpointsResolver, l. rewrite Split_Join.
  - rewrite parse_printed by done. by destruct eps.
  - by destruct eps.
  - apply Forall_map. eapply Forall_impl; [|exact Hok]. intros ep [(_ & Hc & _) _]. by apply Endpoint_String_plain.
Qed.
