(* ===== verification/Discovery.v ===== *)
(** * Service discovery: the registrar beside an engine

    [python/discovery]: the heartbeat that probes the engine's ports, and the service that
    after every round writes the healthy instances of its pod to the discovery backend. An
    attempt to reach a port is given by its outcome; clocks are arguments. *)

From stdpp Require Import base gmap list strings pretty numbers.
From S2P Require Import Prelude GoStrings Types Resolver.

Local Open Scope Z_scope.

(** ** heartbeat.py *)

Inductive HealthStatus := HEALTHY | UNHEALTHY | UNKNOWN.

#[export] Instance HealthStatus_eq_dec : EqDecision HealthStatus.
Proof. solve_decision. Defined.

Record HeartbeatConfig := mkHeartbeatConfig {
  interval : Z;
  timeout : Z;
  retry_times : Z;
  retry_interval : Z;
  health_path : string;
  expected_status : Z;
  max_consecutive_failures : Z
}.

(** The response time is in hundredths of a millisecond, to which the code rounds it. *)
Record EndpointStatus := mkEndpointStatus {
  host : string;
  port : Z;
  status : HealthStatus;
  last_check_time : option Z;
  response_time : option Z;
  consecutive_failures : Z;
  consecutive_successes : Z;
  total_checks : Z;
  successful_checks : Z;
  error_message : option string
}.

Definition new_endpoint (h : string) (p : Z) : EndpointStatus := mkEndpointStatus h p UNKNOWN None None 0 0 0 0 None.

(** The dictionary of endpoints, in insertion order. *)
Record Heartbeat := mkHeartbeat { hb_config : HeartbeatConfig; endpoints : list (string * EndpointStatus); hb_running : bool }.

Definition new_heartbeat (c : HeartbeatConfig) : Heartbeat := mkHeartbeat c [] false.

Definition endpoint_key (h : string) (p : Z) : string := h +:+ ":" +:+ Itoa p.

Definition dict_get {A} (key : string) (d : list (string * A)) : option A := snd <$> List.find (fun e => bool_decide (e.1 = key)) d.

Definition get_status (h : string) (p : Z) (hb : Heartbeat) : option EndpointStatus := dict_get (endpoint_key h p) (endpoints hb).

Definition add_endpoint (h : string) (p : Z) (hb : Heartbeat) : Heartbeat :=
  match get_status h p hb with
  | Some _ => hb
  | None => mkHeartbeat (hb_config hb) (endpoints hb ++ [(endpoint_key h p, new_endpoint h p)]) (hb_running hb)
  end.

Definition add_endpoints (l : list (string * Z)) (hb : Heartbeat) : Heartbeat :=
  fold_left (fun hb e => add_endpoint e.1 e.2 hb) l hb.

Definition remove_endpoint (h : string) (p : Z) (hb : Heartbeat) : Heartbeat :=
  mkHeartbeat (hb_config hb) (List.filter (fun e => bool_decide (e.1 <> endpoint_key h p)) (endpoints hb)) (hb_running hb).

(** One [GET] of the health path. *)
Inductive Attempt :=
  | Responded (code : Z) (elapsed : Z)
  | TimedOut
  | ConnectionError (e : string)
  | UnknownError (e : string).

Definition set_error (msg : option string) (rt : option Z) (ep : EndpointStatus) : EndpointStatus :=
  mkEndpointStatus (host ep) (port ep) (status ep) (last_check_time ep) rt (consecutive_failures ep) (consecutive_successes ep)
    (total_checks ep) (successful_checks ep) msg.

(** The loop of [_check_endpoint] from [attempt] on, with [n] attempts left. *)
Fixpoint check_loop (c : HeartbeatConfig) (attempts : nat -> Attempt) (attempt n : nat) (ep : EndpointStatus) : bool * EndpointStatus :=
  match n with
  | O => (false, ep)
  | S n =>
      match attempts attempt with
      | Responded code elapsed =>
          if bool_decide (code = expected_status c) then (true, set_error None (Some elapsed) ep)
          else check_loop c attempts (S attempt) n (set_error (Some ("Unexpected status code: " +:+ Itoa code)) (response_time ep) ep)
      | TimedOut => check_loop c attempts (S attempt) n (set_error (Some ("Timeout after " +:+ Itoa (timeout c) +:+ "s")) (response_time ep) ep)
      | ConnectionError e => check_loop c attempts (S attempt) n (set_error (Some ("Connection error: " +:+ e)) (response_time ep) ep)
      | UnknownError e => check_loop c attempts (S attempt) n (set_error (Some ("Unknown error: " +:+ e)) (response_time ep) ep)
      end
  end.

Definition check_endpoint (c : HeartbeatConfig) (attempts : nat -> Attempt) (ep : EndpointStatus) : bool * EndpointStatus :=
  check_loop c attempts 0 (Z.to_nat (retry_times c)) ep.

(** The counters and the status after a check. *)
Definition record_check (c : HeartbeatConfig) (now : Z) (is_healthy : bool) (ep : EndpointStatus) : EndpointStatus :=
  if is_healthy then
    mkEndpointStatus (host ep) (port ep) HEALTHY (Some now) (response_time ep) 0 (consecutive_successes ep + 1)
      (total_checks ep + 1) (successful_checks ep + 1) (error_message ep)
  else
    let failures := consecutive_failures ep + 1 in
    mkEndpointStatus (host ep) (port ep) (if bool_decide (max_consecutive_failures c <= failures) then UNHEALTHY else status ep)
      (Some now) (response_time ep) failures 0 (total_checks ep + 1) (successful_checks ep) (error_message ep).

(** [_update_endpoint_status]: the endpoint after the check, and the change of status that
    the callbacks are told. *)
Definition update_endpoint_status (c : HeartbeatConfig) (now : Z) (attempts : nat -> Attempt) (ep : EndpointStatus)
    : EndpointStatus * option (HealthStatus * HealthStatus) :=
  let '(is_healthy, ep') := check_endpoint c attempts ep in
  let ep' := record_check c now is_healthy ep' in
  (ep', if bool_decide (status ep <> status ep') then Some (status ep, status ep') else None).

(** A round of [_heartbeat_loop] up to the loop callbacks: every endpoint is checked by a
    task of its own, and all tasks are awaited. [probe] gives the attempts of an endpoint. *)
Definition heartbeat_round (now : Z) (probe : string -> nat -> Attempt) (hb : Heartbeat) : Heartbeat :=
  mkHeartbeat (hb_config hb) (map (fun e => (e.1, (update_endpoint_status (hb_config hb) now (probe e.1) e.2).1)) (endpoints hb)) (hb_running hb).

Definition hb_start (hb : Heartbeat) : Heartbeat := mkHeartbeat (hb_config hb) (endpoints hb) true.
Definition hb_stop (hb : Heartbeat) : Heartbeat := mkHeartbeat (hb_config hb) (endpoints hb) false.

Definition endpoints_with (s : HealthStatus) (hb : Heartbeat) : list (string * Z) :=
  map (fun e => (host e.2, port e.2)) (List.filter (fun e => bool_decide (status e.2 = s)) (endpoints hb)).

Definition get_healthy_endpoints (hb : Heartbeat) : list (string * Z) := endpoints_with HEALTHY hb.
Definition get_unhealthy_endpoints (hb : Heartbeat) : list (string * Z) := endpoints_with UNHEALTHY hb.

(** ** discovery.py: [ServiceDiscovery] *)

Definition REDIS_DISCOVERY_PREFIX : string := "llumnix:discovery:".
Definition ETCD_DISCOVERY_PREFIX : string := "llumnix/discovery/".

Inductive BackendKind := RedisBackend | EtcdBackend.

Record ServiceDiscovery := mkServiceDiscovery {
  pod_name : string;
  dp_size_local : Z;
  discovery_key : string;
  heartbeat : Heartbeat;
  instance_infos : list InstanceDiscoveryInfo
}.

Record DiscoveryArgs := mkDiscoveryArgs {
  a_pod_name : string;
  a_entrypoint_ip : string;
  a_entrypoint_port : Z;
  a_kv_transfer_ip : string;
  a_kv_transfer_port : Z;
  a_instance_type : string;
  a_dp_size_local : Z;
  a_model : string;
  a_version : Z;
  a_ports : option (list Z)
}.

Definition discovery_prefix (k : BackendKind) : string := match k with EtcdBackend => ETCD_DISCOVERY_PREFIX | RedisBackend => REDIS_DISCOVERY_PREFIX end.

Definition make_infos (a : DiscoveryArgs) (ports : list Z) : list InstanceDiscoveryInfo :=
  imap (fun i p => mkInstanceInfo (a_instance_type a) (a_entrypoint_ip a) p (a_kv_transfer_ip a) (a_kv_transfer_port a)
                     (Z.of_nat i) (a_dp_size_local a) (a_model a) (a_version a)) ports.

(** [None] when the constructor raises: a list of ports of another length, or a number that
    does not fit its field of the message. *)
Definition new_service_discovery (k : BackendKind) (c : HeartbeatConfig) (a : DiscoveryArgs) : option ServiceDiscovery :=
  let ports := match a_ports a with
               | Some ports => if bool_decide (Z.of_nat (length ports) <> a_dp_size_local a) then None else Some ports
               | None => Some (map (fun i => a_entrypoint_port a + Z.of_nat i) (seq 0 (Z.to_nat (a_dp_size_local a))))
               end in
  match ports with
  | None => None
  | Some ports =>
      let infos := make_infos a ports in
      if forallb instance_info_ok infos then
        Some (mkServiceDiscovery (a_pod_name a) (a_dp_size_local a) (discovery_prefix k +:+ a_pod_name a)
                (add_endpoints (map (fun p => (a_entrypoint_ip a, p)) ports) (new_heartbeat c)) infos)
      else None
  end.

Definition is_healthy (hb : Heartbeat) (i : InstanceDiscoveryInfo) : bool :=
  match get_status (EntrypointIp i) (EntrypointPort i) hb with
  | Some s => bool_decide (status s = HEALTHY)
  | None => false
  end.

Section backend.
Context {bytes : Type} `{PodCodec bytes}.

(** [_update_backend]: the key and the value it puts; nothing without a healthy
    instance. *)
Definition update_backend (now : Z) (sd : ServiceDiscovery) : option (string * bytes) :=
  let healthy_instances := List.filter (is_healthy (heartbeat sd)) (instance_infos sd) in
  match healthy_instances with
  | [] => None
  | _ => Some (discovery_key sd, Marshal (mkPodInfo (pod_name sd) now healthy_instances))
  end.

(** [RedisDiscoveryBackend]. *)
Definition redis_put (key : string) (value : bytes) (st : gmap string bytes) : gmap string bytes := <[key := value]> st.
Definition redis_delete (key : string) (st : gmap string bytes) : gmap string bytes := delete key st.
Definition redis_get (key : string) (st : gmap string bytes) : option bytes := st !! key.

(** [get_pod_info]; [nonempty] is the truth value of the bytes. *)
Definition get_pod_info (nonempty : bytes -> bool) (get : string -> option bytes) (sd : ServiceDiscovery) : option PodDiscoveryInfo :=
  match get (discovery_key sd) with
  | Some data => if nonempty data then Unmarshal data else None
  | None => None
  end.

(** One turn of the registrar: a round of the heartbeat, then the callback, whose [put]
    may raise. *)
Definition registrar_turn (check_time now : Z) (probe : string -> nat -> Attempt) (put_ok : bool) (sd : ServiceDiscovery) (st : gmap string bytes)
    : ServiceDiscovery * gmap string bytes :=
  let sd := mkServiceDiscovery (pod_name sd) (dp_size_local sd) (discovery_key sd) (heartbeat_round check_time probe (heartbeat sd)) (instance_infos sd) in
  (sd, match update_backend now sd with
       | Some (key, value) => if put_ok then redis_put key value st else st
       | None => st
       end).

End backend.

(** ** What a status means *)

Fixpoint trailing (b : bool) (results : list bool) : Z :=
  match results with
  | r :: results => if bool_decide (r = b) then 1 + trailing b results else 0
  | [] => 0
  end.

(** The status that the results of the checks give, the latest first. *)
Definition status_of (c : HeartbeatConfig) (results : list bool) : HealthStatus :=
  if bool_decide (0 < trailing false results) && bool_decide (max_consecutive_failures c <= trailing false results) then UNHEALTHY
  else if bool_decide (true ∈ results) then HEALTHY else UNKNOWN.

Lemma trailing_nonneg b results : 0 <= trailing b results.
Proof. induction results as [|r results IH]; cbn; [lia|]. case_bool_decide; lia. Qed.

(** A check succeeds when one of the attempts that the configuration allows is answered
    with the expected status. *)
Definition attempt_ok (c : HeartbeatConfig) (a : Attempt) : bool :=
  match a with Responded code _ => bool_decide (code = expected_status c) | _ => false end.

Definition check_ok (c : HeartbeatConfig) (attempts : nat -> Attempt) : bool :=
  existsb (fun k => attempt_ok c (attempts k)) (seq 0 (Z.to_nat (retry_times c))).

(** The fields that a check leaves alone. *)
Definition same_record (ep ep' : EndpointStatus) : Prop :=
  host ep' = host ep /\ port ep' = port ep /\ status ep' = status ep /\ consecutive_failures ep' = consecutive_failures ep /\
  consecutive_successes ep' = consecutive_successes ep /\ total_checks ep' = total_checks ep /\ successful_checks ep' = successful_checks ep.

Lemma check_loop_spec c attempts k n ep :
  (check_loop c attempts k n ep).1 = existsb (fun k => attempt_ok c (attempts k)) (seq k n) /\ same_record ep (check_loop c attempts k n ep).2.
Proof.
  revert k ep. induction n as [|n IH]; intros k ep; cbn [check_loop seq existsb]; [done|].
  destruct (attempts k) as [code elapsed| |e|e]; cbn [attempt_ok].
  - destruct (bool_decide (code = expected_status c)); [done|]. apply (IH (S k) (set_error _ _ ep)).
  - apply (IH (S k) (set_error _ _ ep)).
  - apply (IH (S k) (set_error _ _ ep)).
  - apply (IH (S k) (set_error _ _ ep)).
Qed.

(** The checks of an endpoint, the latest first: the clock and the attempts of each. *)
Fixpoint checked (c : HeartbeatConfig) (checks : list (Z * (nat -> Attempt))) (ep : EndpointStatus) : EndpointStatus :=
  match checks with
  | [] => ep
  | (now, attempts) :: checks => (update_endpoint_status c now attempts (checked c checks ep)).1
  end.

Definition results_of (c : HeartbeatConfig) (checks : list (Z * (nat -> Attempt))) : list bool := map (fun ch => check_ok c ch.2) checks.

(** The status of an endpoint says what its checks did: it is unhealthy after the
    configured number of failures in a row, otherwise healthy once a check succeeded, and
    unknown before; the counters count the checks, the successes, and the successes and
    failures since the result last changed. A check succeeds exactly when one of its
    attempts is answered with the expected status. *)
Theorem heartbeat_exact c h p checks :
  let ep := checked c checks (new_endpoint h p) in
  let results := results_of c checks in
  status ep = status_of c results /\
  consecutive_failures ep = trailing false results /\
  consecutive_successes ep = trailing true results /\
  total_checks ep = Z.of_nat (length checks) /\
  successful_checks ep = Z.of_nat (length (List.filter id results)).
Proof.
  cbn zeta. induction checks as [|[now attempts] checks IH]; [done|]. cbn [checked results_of map]. fold (results_of c checks).
  set (results := results_of c checks) in *. set (ep := checked c checks _) in *. destruct IH as (Hs & Hf & Hc & Ht & Hk).
  unfold update_endpoint_status, check_endpoint.
  destruct (check_loop_spec c attempts 0 (Z.to_nat (retry_times c)) ep) as [Hres (_ & _ & Es & Ef & Ec & Et & Ek)].
  destruct (check_loop _ _ _ _ ep) as [ok ep']. cbn [fst snd] in *. fold (check_ok c attempts) in Hres. rewrite Hres.
  pose proof (trailing_nonneg false results) as Hpos.
  assert (Hlen : length ((now, attempts) :: checks) = S (length checks)) by done. rewrite Hlen, Nat2Z.inj_succ.
  destruct (check_ok c attempts); cbn [record_check status consecutive_failures consecutive_successes total_checks successful_checks List.filter id length];
    unfold status_of; cbn [trailing]; rewrite ?Es, ?Ef, ?Ec, ?Et, ?Ek, ?Hs, ?Hf, ?Hc, ?Ht, ?Hk.
  - rewrite (bool_decide_true (true ∈ _)) by left. rewrite (bool_decide_false (true = false)), (bool_decide_true (true = true)) by done.
    repeat split; try done; lia.
  - rewrite (bool_decide_true (false = false)), (bool_decide_false (false = true)) by done. rewrite (bool_decide_true (0 < 1 + _)) by lia. cbn [andb]. repeat split; try done; try lia.
    rewrite (Z.add_comm 1). case_bool_decide as Hm; [done|]. unfold status_of.
    rewrite (bool_decide_false (max_consecutive_failures c <= trailing false results)) by lia. rewrite andb_false_r.
    assert (Hiff : true ∈ false :: results <-> true ∈ results) by (rewrite elem_of_cons; naive_solver).
    by rewrite (bool_decide_ext _ _ Hiff).
Qed.
