(* ===== verification/DiscoverySpec.v ===== *)
(** * Service discovery, end to end

    Pods that probe their engines and register them in Redis, and resolvers of gateways that
    read the registrations. A refresh of a resolver is several calls of Redis: it scans the
    keys, reads their values, and deletes what it finds expired, one key at a time; pods and
    other resolvers go on in between. *)

From stdpp Require Import base gmap list strings pretty numbers.
From S2P Require Import Prelude GoStrings Types Resolver ResolverSpec Discovery.

Local Open Scope Z_scope.

Section discovery.
Context {bytes : Type} `{PodCodec bytes}.

(** What a refresh goes by: the keys that were in Redis all the time from the begin of its scan to
    the reading of the values, the store when the values were read, and the entries it has
    handled, with the time. *)
Record Basis := mkBasis { b_steady : gset string; b_read : gmap string bytes; b_done : list (string * option bytes * Z) }.

(** Where a refresh is. [steady]: the keys that have been in Redis since the scan began. *)
Inductive RefreshPhase :=
  | Idle
  | Scanning (steady : gset string)
  | Scanned (steady : gset string) (keys : list string)
  | Working (b : Basis) (todo : list (string * option bytes)) (acc : list LLMInstance * gmap string PodDiscoveryInfo * list string).

(** [t_basis]: what the last refresh that ended went by. *)
Record ResolverTask := mkTask { t_state : ResolverState; t_phase : RefreshPhase; t_basis : option Basis }.

Record World := mkWorld {
  w_pods : gmap string ServiceDiscovery;
  w_store : gmap string bytes;
  w_tasks : gmap nat ResolverTask
}.

(** A turn of the registrar of a pod, where [stored] says whether Redis took the value; the
    begin and the end of the scan of the resolver [i], the reading of the values, the handling
    of the next entry at the time [now], and the end of the refresh. *)
Inductive DiscoveryEvent :=
  | PodTurn (name : string) (check_time now : Z) (probe : string -> nat -> Attempt) (stored : bool)
  | ScanStarts (i : nat)
  | ScanEnds (i : nat) (keys : list string)
  | ValuesRead (i : nat)
  | EntryDone (i : nat) (now : Z)
  | RefreshEnds (i : nat) (order : key_order).

Definition forget_key (k : string) (t : ResolverTask) : ResolverTask :=
  match t_phase t with
  | Scanning steady => mkTask (t_state t) (Scanning (steady ∖ {[k]})) (t_basis t)
  | Scanned steady keys => mkTask (t_state t) (Scanned (steady ∖ {[k]}) keys) (t_basis t)
  | _ => t
  end.

Definition delete_key (k : string) (w : World) : World := mkWorld (w_pods w) (redis_delete k (w_store w)) (forget_key k <$> w_tasks w).

Definition set_task (i : nat) (t : ResolverTask) (w : World) : World := mkWorld (w_pods w) (w_store w) (<[i := t]> (w_tasks w)).

(** A step of the resolver [i]. Redis promises that a scan returns the keys that are there from
    its begin to its end, once or more often, and may return others. *)
Definition resolver_event (i : nat) (ev : DiscoveryEvent) (t : ResolverTask) (w : World) : World :=
  match ev, t_phase t with
  | ScanStarts _, Idle => set_task i (mkTask (t_state t) (Scanning (dom (w_store w))) (t_basis t)) w
  | ScanEnds _ keys, Scanning steady =>
      if bool_decide (steady ⊆ list_to_set keys) then set_task i (mkTask (t_state t) (Scanned steady keys) (t_basis t)) w else w
  | ValuesRead _, Scanned steady keys =>
      set_task i (mkTask (t_state t) (Working (mkBasis steady (w_store w) []) (map (fun k => (k, w_store w !! k)) keys) ([], ∅, [])) (t_basis t)) w
  | EntryDone _ now, Working b ((k, v) :: todo) acc =>
      let t' := mkTask (t_state t) (Working (mkBasis (b_steady b) (b_read b) (b_done b ++ [(k, v, now)])) todo (redis_entry now (t_state t) acc (k, v))) (t_basis t) in
      let w := set_task i t' w in
      if entry_expired now (t_state t) v then delete_key k w else w
  | RefreshEnds _ order, Working b [] (instances, pods, _) =>
      set_task i (mkTask (replace_state order instances pods (t_state t)).1 Idle (Some b)) w
  | _, _ => w
  end.

Definition event_task (ev : DiscoveryEvent) : option nat :=
  match ev with PodTurn _ _ _ _ _ => None | ScanStarts i | ScanEnds i _ | ValuesRead i | EntryDone i _ | RefreshEnds i _ => Some i end.

Definition world_event (w : World) (ev : DiscoveryEvent) : World :=
  match ev with
  | PodTurn name check_time now probe stored =>
      match w_pods w !! name with
      | Some sd =>
          let '(sd, st) := registrar_turn check_time now probe stored sd (w_store w) in
          mkWorld (<[name := sd]> (w_pods w)) st (w_tasks w)
      | None => w
      end
  | _ =>
      match event_task ev with
      | Some i => match w_tasks w !! i with Some t => resolver_event i ev t w | None => w end
      | None => w
      end
  end.

Definition world_run (events : list DiscoveryEvent) (w : World) : World := fold_left world_event events w.

(** When nothing happens in between and the clock stands still, the steps after the reading are
    [redis_refresh]. *)
Lemma undisturbed_refresh order now keys values r r' n deleted :
  redis_refresh order now (Some keys) (Some values) r = Some (r', n, deleted) ->
  let '(instances, pods, _) := fold_left (redis_entry now r) (zip keys values) ([], ∅, []) in (replace_state order instances pods r).1 = r'.
Proof. unfold redis_refresh. destruct (fold_left _ _ _) as [[instances pods] d]. destruct (replace_state _ _ _ _) as [r1 n1]. by intros [= <- _ _]. Qed.

(** ** What a pod registered

    The registrar of [name] alone: its state, and the time and the healthy instances of its
    last registration. *)

Definition Registration : Type := Z * list InstanceDiscoveryInfo.

Definition pod_event (name : string) (acc : ServiceDiscovery * option Registration) (ev : DiscoveryEvent) : ServiceDiscovery * option Registration :=
  match ev with
  | PodTurn name' check_time now probe stored =>
      if bool_decide (name' = name) then
        let '(sd, reg) := acc in
        let hb := heartbeat_round check_time probe (heartbeat sd) in
        let healthy := List.filter (is_healthy hb) (instance_infos sd) in
        (mkServiceDiscovery (pod_name sd) (dp_size_local sd) (discovery_key sd) hb (instance_infos sd),
         if stored && bool_decide (healthy <> []) then Some (now, healthy) else reg)
      else acc
  | _ => acc
  end.

Definition pod_run (name : string) (events : list DiscoveryEvent) (sd : ServiceDiscovery) : ServiceDiscovery * option Registration :=
  fold_left (pod_event name) events (sd, None).

(** ** Conditions *)

Definition pod_ok (name : string) (sd : ServiceDiscovery) : Prop :=
  pod_name sd = name /\ discovery_key sd = LlumnixDiscovery +:+ name /\ forallb instance_info_ok (instance_infos sd) = true.

(** A time in milliseconds. *)
Definition time_ok (z : Z) : Prop := 0 <= z <= 2 ^ 62.

Definition event_valid (ev : DiscoveryEvent) : Prop :=
  match ev with PodTurn _ _ now _ _ | EntryDone _ now => time_ok now | _ => True end.

(** The registrar that the constructor makes meets the conditions. *)
Lemma new_service_discovery_ok c a sd : new_service_discovery RedisBackend c a = Some sd -> pod_ok (a_pod_name a) sd.
Proof.
  unfold new_service_discovery. destruct (match a_ports a with Some _ => _ | None => _ end) as [ports|]; [|done].
  destruct (forallb _ _) eqn:Hok; [|done]. by intros [= <-].
Qed.

(** ** The registrations in Redis *)

Section run.
Context (ttlMs : Z) (Httl : time_ok ttlMs) (pods : gmap string ServiceDiscovery) (types : gmap nat InferType) (Hpods : map_Forall pod_ok pods).

Definition start_world : World := mkWorld pods ∅ ((fun t => mkTask (new_redis_state t ttlMs) Idle None) <$> types).

Definition after (events : list DiscoveryEvent) : World := world_run events start_world.

Lemma after_snoc events ev : after (events ++ [ev]) = world_event (after events) ev.
Proof. unfold after, world_run. by rewrite fold_left_app. Qed.

Lemma pod_run_snoc name events ev sd : pod_run name (events ++ [ev]) sd = pod_event name (pod_run name events sd) ev.
Proof. unfold pod_run. by rewrite fold_left_app. Qed.

(** The value [v] under the key [k] is what a pod has registered last. *)
Definition registered_as (events : list DiscoveryEvent) (k : string) (v : bytes) : Prop :=
  exists name sd time infos, k = LlumnixDiscovery +:+ name /\ pods !! name = Some sd /\ (pod_run name events sd).2 = Some (time, infos) /\
    v = Marshal (mkPodInfo name time infos) /\ pod_info_ok (mkPodInfo name time infos) = true.

Record pods_inv (events : list DiscoveryEvent) (w : World) : Prop := {
  pi_pods : forall name, w_pods w !! name = (fun sd => (pod_run name events sd).1) <$> pods !! name;
  pi_ok : forall name sd, pods !! name = Some sd -> pod_ok name (pod_run name events sd).1;
  pi_store : forall k v, w_store w !! k = Some v -> registered_as events k v
}.

Lemma resolver_event_frame i ev t w : w_pods (resolver_event i ev t w) = w_pods w /\ (forall k v, w_store (resolver_event i ev t w) !! k = Some v -> w_store w !! k = Some v).
Proof.
  unfold resolver_event. destruct ev, (t_phase t) as [|steady|steady keys'|b [|[k v] todo] [[l p] d]]; try done.
  - by case_bool_decide.
  - destruct (entry_expired _ _ _); [|done]. split; [done|]. cbn. unfold redis_delete. by intros k' v' [_ ?]%lookup_delete_Some.
Qed.

Lemma frame_pods_inv events ev i w w' : event_task ev = Some i -> w_pods w' = w_pods w -> (forall k v, w_store w' !! k = Some v -> w_store w !! k = Some v) ->
  pods_inv events w -> pods_inv (events ++ [ev]) w'.
Proof.
  intros He Hp Hs [H1 H2 H3].
  assert (Hrun : forall name sd, pod_run name (events ++ [ev]) sd = pod_run name events sd) by (intros name sd; rewrite pod_run_snoc; by destruct ev).
  split.
  - intros name. rewrite Hp, H1. destruct (pods !! name); cbn; [by rewrite Hrun|done].
  - intros name sd Hsd. rewrite Hrun. by apply H2.
  - intros k v Hk. destruct (H3 k v (Hs k v Hk)) as (name & sd & time & infos & Hr). exists name, sd, time, infos. by rewrite Hrun.
Qed.

Lemma pod_turn_inv events w name check_time now probe stored : time_ok now -> pods_inv events w ->
  let ev := PodTurn name check_time now probe stored in pods_inv (events ++ [ev]) (world_event w ev).
Proof.
  intros Hnow [H1 H2 H3] ev. cbn [world_event ev].
  assert (Hother : forall name' sd, name' <> name -> pod_run name' (events ++ [ev]) sd = pod_run name' events sd).
  { intros name' sd Hne. rewrite pod_run_snoc. unfold ev. cbn [pod_event]. by rewrite bool_decide_false. }
  destruct (w_pods w !! name) as [sd|] eqn:Esd; rewrite H1 in Esd; destruct (pods !! name) as [sd0|] eqn:Esd0; try done.
  2: { assert (Hsame : forall name' sd', pods !! name' = Some sd' -> pod_run name' (events ++ [ev]) sd' = pod_run name' events sd')
         by (intros name' sd' Hsd'; apply Hother; intros ->; congruence).
       split; [intros name'; rewrite H1; destruct (pods !! name') eqn:E; cbn; [by rewrite (Hsame _ _ E)|done]|intros name' sd' Hsd'; rewrite (Hsame _ _ Hsd'); by apply H2|].
       intros k v Hk. destruct (H3 k v Hk) as (n & s & t & l & E1 & E2 & E3). exists n, s, t, l. by rewrite (Hsame _ _ E2). }
  injection Esd as Esd. destruct (H2 name sd0 Esd0) as (Hn & Hkey & Hok). rewrite Esd in Hn, Hkey, Hok.
  unfold registrar_turn, update_backend. cbn [heartbeat instance_infos pod_name discovery_key].
  set (hb := heartbeat_round check_time probe (heartbeat sd)). set (healthy := List.filter (is_healthy hb) (instance_infos sd)).
  set (sd2 := mkServiceDiscovery _ _ _ hb _).
  assert (Hstep : pod_run name (events ++ [ev]) sd0 = (sd2, if stored && bool_decide (healthy <> []) then Some (now, healthy) else (pod_run name events sd0).2)).
  { rewrite pod_run_snoc. destruct (pod_run name events sd0) as [sd1 reg]. cbn in Esd. subst sd1. unfold ev. cbn [pod_event]. by rewrite bool_decide_true. }
  set (st := match _ with Some _ => _ | None => _ end).
  assert (Hst : st = if stored && bool_decide (healthy <> []) then <[LlumnixDiscovery +:+ name := Marshal (mkPodInfo name now healthy)]> (w_store w) else w_store w).
  { unfold st. destruct healthy; cbn; [by rewrite andb_false_r|]. rewrite Hn, Hkey. by destruct stored. }
  clearbody st. subst st. split; cbn [w_pods w_store].
  - intros name'. destruct (decide (name' = name)) as [->|Hne]; [by rewrite lookup_insert_eq, Esd0; cbn; rewrite Hstep|].
    rewrite lookup_insert_ne, H1 by done. destruct (pods !! name'); cbn; [by rewrite Hother|done].
  - intros name' sd' Hsd'. destruct (decide (name' = name)) as [->|Hne]; [|rewrite Hother by done; by apply H2].
    rewrite Esd0 in Hsd'. injection Hsd' as <-. by rewrite Hstep.
  - intros k v Hk. assert (Hold : stored && bool_decide (healthy <> []) = false \/ k <> LlumnixDiscovery +:+ name -> w_store w !! k = Some v -> registered_as (events ++ [ev]) k v).
    { intros Hor Hk'. destruct (H3 k v Hk') as (n & s & t & l & -> & E2 & E3). exists n, s, t, l. split; [done|]. split; [done|].
      destruct (decide (n = name)) as [->|Hne]; [|by rewrite Hother]. rewrite Esd0 in E2. injection E2 as <-. rewrite Hstep. by destruct Hor as [->|]. }
    destruct (stored && _) eqn:Ep; [|by apply Hold; [left|]]. apply lookup_insert_Some in Hk as [[<- <-]|[Hne Hk]]; [|apply Hold; [by right|done]].
    exists name, sd0, now, healthy. rewrite Hstep. split_and!; try done. apply andb_true_intro. cbn [TimestampMs Instances]. split; [|by apply forallb_filter].
    apply bool_decide_true. unfold time_ok, MinInt64, MaxInt64 in *. lia.
Qed.

Lemma event_pods_inv events ev w : event_valid ev -> pods_inv events w -> pods_inv (events ++ [ev]) (world_event w ev).
Proof.
  intros Hv Hw. destruct (event_task ev) as [i|] eqn:E.
  - assert (Hstep : world_event w ev = match w_tasks w !! i with Some t => resolver_event i ev t w | None => w end) by (destruct ev; try done; by injection E as <-).
    rewrite Hstep. destruct (w_tasks w !! i) as [t|]; [|by eapply frame_pods_inv]. by eapply frame_pods_inv; [exact E|apply resolver_event_frame..|].
  - destruct ev; try done. by apply pod_turn_inv.
Qed.

Lemma after_pods_inv events : Forall event_valid events -> pods_inv events (after events).
Proof.
  induction events as [|ev events IH] using rev_ind; intros Hv.
  - split; cbn; [intros name; by destruct (pods !! name)|intros name sd Hsd; by apply Hpods|intros k v; by rewrite lookup_empty].
  - apply Forall_app in Hv as [Hv [He _]%Forall_cons_iff]. rewrite after_snoc. by apply event_pods_inv, IH.
Qed.

(** ** The refreshes *)

(** The key [k] is in Redis after [before] and after every step of [l]. *)
Definition present_since (before l : list DiscoveryEvent) (k : string) : Prop :=
  forall l1 l2, l = l1 ++ l2 -> is_Some (w_store (after (before ++ l1)) !! k).

(** [b] goes by the scan that began after [e0] and the values read after [e1]. *)
Definition basis_of (e0 e1 : list DiscoveryEvent) (b : Basis) : Prop :=
  b_read b = w_store (after (e0 ++ e1)) /\ forall k, present_since e0 e1 k -> k ∈ b_steady b.

(** The entries of a refresh: all keys that were there all the time, with the values read. *)
Definition covers (b : Basis) (entries : list (string * option bytes)) : Prop :=
  (forall k, k ∈ b_steady b -> k ∈ entries.*1) /\ forall k v, (k, v) ∈ entries -> v = b_read b !! k.

Definition listed (r : ResolverState) (l : list (string * option bytes * Z)) : list LLMInstance :=
  flat_map (fun e => entry_instances e.2 r e.1.2) l.

Definition phase_inv (events : list DiscoveryEvent) (r : ResolverState) (p : RefreshPhase) : Prop :=
  match p with
  | Idle => True
  | Scanning steady => exists e0 e1, events = e0 ++ e1 /\ forall k, present_since e0 e1 k -> k ∈ steady
  | Scanned steady keys => exists e0 e1, events = e0 ++ e1 /\ (forall k, present_since e0 e1 k -> k ∈ steady) /\ (forall k, k ∈ steady -> k ∈ keys)
  | Working b todo acc => exists e0 e1 e2, events = e0 ++ e1 ++ e2 /\ basis_of e0 e1 b /\ covers b ((b_done b).*1 ++ todo) /\ acc.1.1 = listed r (b_done b)
  end.

Record task_inv (events : list DiscoveryEvent) (type : InferType) (t : ResolverTask) : Prop := {
  ti_type : r_inferType (t_state t) = type;
  ti_ttl : r_ttlMs (t_state t) = ttlMs;
  ti_phase : phase_inv events (t_state t) (t_phase t);
  ti_basis : forall b, t_basis t = Some b -> exists e0 e1 e2, events = e0 ++ e1 ++ e2 /\ basis_of e0 e1 b /\ covers b (b_done b).*1 /\
    exists r, r_inferType r = type /\ r_ttlMs r = ttlMs /\ GetLLMInstances (t_state t) = listed r (b_done b)
}.

Lemma present_snoc e0 e1 ev k : present_since e0 (e1 ++ [ev]) k -> present_since e0 e1 k /\ is_Some (w_store (after ((e0 ++ e1) ++ [ev])) !! k).
Proof.
  intros H0. split.
  - intros l1 l2 ->. apply (H0 l1 (l2 ++ [ev])). by rewrite app_assoc.
  - rewrite <- app_assoc. apply (H0 _ []). by rewrite app_nil_r.
Qed.

(** Another step of the run, which may have deleted keys that are forgotten. *)
Lemma task_inv_snoc events ev type t steps :
  (forall k, k ∈ steps -> w_store (after (events ++ [ev])) !! k = None) ->
  task_inv events type t -> task_inv (events ++ [ev]) type (fold_left (fun t k => forget_key k t) steps t).
Proof.
  intros Hgone Ht.
  assert (Hnil : task_inv (events ++ [ev]) type t).
  { destruct Ht as [H1 H2 H3 H4]. split; try done.
    - destruct (t_phase t) as [|steady|steady keys|b todo acc]; cbn in *; [done|..].
      + destruct H3 as (e0 & e1 & -> & Hs). exists e0, (e1 ++ [ev]). rewrite app_assoc. split; [done|]. intros k [Hk _]%present_snoc. by apply Hs.
      + destruct H3 as (e0 & e1 & -> & Hs & Hk). exists e0, (e1 ++ [ev]). rewrite app_assoc. split; [done|]. split; [|done]. intros k [Hp _]%present_snoc. by apply Hs.
      + destruct H3 as (e0 & e1 & e2 & -> & Hr). exists e0, e1, (e2 ++ [ev]). by rewrite !app_assoc.
    - intros b Hb. destruct (H4 b Hb) as (e0 & e1 & e2 & -> & Hr). exists e0, e1, (e2 ++ [ev]). by rewrite !app_assoc. }
  clear Ht. revert t Hnil. induction steps as [|k steps IH]; intros t Ht; [done|]. cbn [fold_left]. apply IH; [intros k' Hk'; apply Hgone; by right|].
  specialize (Hgone k ltac:(by left)). clear IH. destruct Ht as [H1 H2 H3 H4]. unfold forget_key. destruct (t_phase t) as [|steady|steady keys|b todo acc] eqn:E; split; try done; cbn in *; try (by rewrite E).
  - destruct H3 as (e0 & e1 & He & Hs). exists e0, e1. split; [done|]. intros k' Hp. apply elem_of_difference. split; [by apply Hs|].
    intros ->%elem_of_singleton. specialize (Hp e1 [] ltac:(by rewrite app_nil_r)). rewrite <- He, Hgone in Hp. by destruct Hp.
  - destruct H3 as (e0 & e1 & He & Hs & Hk). exists e0, e1. split; [done|]. split; [|intros k' [? _]%elem_of_difference; by apply Hk]. intros k' Hp. apply elem_of_difference. split; [by apply Hs|].
    intros ->%elem_of_singleton. specialize (Hp e1 [] ltac:(by rewrite app_nil_r)). rewrite <- He, Hgone in Hp. by destruct Hp.
Qed.

Definition tasks_inv (events : list DiscoveryEvent) : Prop := forall i t, w_tasks (after events) !! i = Some t -> exists type, types !! i = Some type /\ task_inv events type t.

Lemma task_inv_same events ev type t : task_inv events type t -> task_inv (events ++ [ev]) type t.
Proof. intros Ht. by apply (task_inv_snoc events ev type t []); [intros k ?%elem_of_nil|]. Qed.

(** A new phase for a task. *)
Lemma set_task_inv events ev i t' type : tasks_inv events -> types !! i = Some type -> after (events ++ [ev]) = set_task i t' (after events) ->
  task_inv (events ++ [ev]) type t' -> tasks_inv (events ++ [ev]).
Proof.
  intros Hts Hty E Ht j t. rewrite E. cbn. intros [[<- <-]|[_ Hj]]%lookup_insert_Some; [by exists type|].
  destruct (Hts j t Hj) as (type' & H1 & H2). exists type'. split; [done|]. by apply task_inv_same.
Qed.

Lemma scan_starts_inv events i t type : task_inv events type t -> w_store (after (events ++ [ScanStarts i])) = w_store (after events) ->
  task_inv (events ++ [ScanStarts i]) type (mkTask (t_state t) (Scanning (dom (w_store (after events)))) (t_basis t)).
Proof.
  intros Ht Hst. apply (task_inv_same _ (ScanStarts i)) in Ht as [H1 H2 _ H4]. split; try done. exists (events ++ [ScanStarts i]), []. split; [by rewrite app_nil_r|].
  intros k Hp. apply elem_of_dom. specialize (Hp [] [] eq_refl). by rewrite app_nil_r, Hst in Hp.
Qed.

Lemma values_read_inv events i t type steady keys : t_phase t = Scanned steady keys -> task_inv events type t ->
  task_inv (events ++ [ValuesRead i]) type
    (mkTask (t_state t) (Working (mkBasis steady (w_store (after events)) []) (map (fun k => (k, w_store (after events) !! k)) keys) ([], ∅, [])) (t_basis t)).
Proof.
  intros Hp Ht. pose proof (ti_phase _ _ _ Ht) as H3. rewrite Hp in H3. destruct H3 as (e0 & e1 & He & Hs & Hk).
  apply (task_inv_same _ (ValuesRead i)) in Ht as [H1 H2 _ H4]. split; try done. exists e0, e1, [ValuesRead i]. split; [by rewrite He, app_assoc|].
  split; [split; [by rewrite He|exact Hs]|]. split; [|done]. cbn. split.
  - intros k Hks. change (map ?f keys) with (f <$> keys). rewrite <- list_fmap_compose. apply Hk in Hks. apply list_elem_of_fmap. by exists k.
  - intros k v Hin. apply list_elem_of_In, in_map_iff in Hin as (k' & [= <- <-] & _). done.
Qed.

Lemma entry_done_inv events i now t type b k v todo acc : t_phase t = Working b ((k, v) :: todo) acc -> task_inv events type t ->
  task_inv (events ++ [EntryDone i now]) type
    (mkTask (t_state t) (Working (mkBasis (b_steady b) (b_read b) (b_done b ++ [(k, v, now)])) todo (redis_entry now (t_state t) acc (k, v))) (t_basis t)).
Proof.
  intros Hp Ht. pose proof (ti_phase _ _ _ Ht) as H3. rewrite Hp in H3. destruct H3 as (e0 & e1 & e2 & He & Hb & Hc & Ha).
  apply (task_inv_same _ (EntryDone i now)) in Ht as [H1 H2 _ H4]. split; try done. exists e0, e1, (e2 ++ [EntryDone i now]). split; [by rewrite He, !app_assoc|].
  split; [exact Hb|]. cbn [b_done b_steady b_read]. split.
  - rewrite fmap_app, <- app_assoc. exact Hc.
  - destruct acc as [[l p] d]. destruct (redis_entry_spec now (t_state t) l p d k v) as [p' ->]. cbn in Ha |- *. rewrite Ha. unfold listed. rewrite flat_map_app. cbn. by rewrite app_nil_r.
Qed.

Lemma refresh_ends_inv events i order t type b acc : t_phase t = Working b [] acc -> task_inv events type t ->
  task_inv (events ++ [RefreshEnds i order]) type (mkTask (replace_state order acc.1.1 acc.1.2 (t_state t)).1 Idle (Some b)).
Proof.
  intros Hp Ht. pose proof (ti_phase _ _ _ Ht) as H3. rewrite Hp in H3. destruct H3 as (e0 & e1 & e2 & He & Hb & Hc & Ha).
  destruct Ht as [H1 H2 _ _]. destruct (replace_state_fields order acc.1.1 acc.1.2 (t_state t)) as (Hty & Httl' & Hl & _). split; cbn [t_state t_phase t_basis]; [congruence|congruence|done|].
  intros b' [= <-]. exists e0, e1, (e2 ++ [RefreshEnds i order]). split; [by rewrite He, !app_assoc|]. rewrite app_nil_r in Hc. split; [done|]. split; [done|].
  exists (t_state t). split; [done|]. split; [done|]. unfold GetLLMInstances. by rewrite Hl, Ha.
Qed.

Lemma resolver_event_inv events i ev t type : tasks_inv events -> types !! i = Some type -> task_inv events type t -> event_task ev = Some i ->
  after (events ++ [ev]) = resolver_event i ev t (after events) -> tasks_inv (events ++ [ev]).
Proof.
  intros Hts Hty Ht Hev E.
  assert (Hid : after (events ++ [ev]) = after events -> tasks_inv (events ++ [ev])).
  { intros E' j t'. rewrite E'. intros Hj. destruct (Hts j t' Hj) as (type' & H1 & H2). exists type'. split; [done|]. by apply task_inv_same. }
  unfold resolver_event in E. destruct ev as [| |i' keys| |i' now|i' order], (t_phase t) as [|steady|steady keys'|b [|[k v] todo] acc] eqn:Ep; try (by apply Hid); try done; injection Hev as ->.
  - eapply set_task_inv; [done..|]. apply scan_starts_inv; [done|]. by rewrite E.
  - case_bool_decide as Hs; [|by apply Hid]. eapply set_task_inv; [done..|].
    apply (task_inv_same _ (ScanEnds i keys)) in Ht as [H1 H2 H3 H4]. split; try done. rewrite Ep in H3. destruct H3 as (e0 & e1 & He & Hst). exists e0, e1. split_and!; try done.
    intros k Hk. specialize (Hs k Hk). by apply elem_of_list_to_set in Hs.
  - eapply set_task_inv; [done..|]. by apply values_read_inv.
  - pose proof (entry_done_inv events i now t type b k v todo acc Ep Ht) as Ht'. destruct (entry_expired now (t_state t) v); [|by eapply set_task_inv].
    intros j tj. rewrite E. cbn [delete_key set_task w_tasks]. rewrite lookup_fmap. intros (tj0 & Hj & ->)%fmap_Some.
    assert (Hgone : forall k0, k0 ∈ [k] -> w_store (after (events ++ [EntryDone i now])) !! k0 = None).
    { intros k0 ->%list_elem_of_singleton. rewrite E. cbn. unfold redis_delete. apply lookup_delete_eq. }
    apply lookup_insert_Some in Hj as [[<- <-]|[_ Hj]]; [by exists type|]. destruct (Hts j tj0 Hj) as (type' & H1 & H2). exists type'. split; [done|].
    exact (task_inv_snoc events (EntryDone i now) type' tj0 [k] Hgone H2).
  - destruct acc as [[l p] d]. eapply set_task_inv; [done..|]. exact (refresh_ends_inv events i order t type b (l, p, d) Ep Ht).
Qed.

Lemma after_tasks_inv events : tasks_inv events.
Proof.
  induction events as [|ev events IH] using rev_ind.
  - intros i t. cbn. rewrite lookup_fmap. intros (type & Hty & ->)%fmap_Some. exists type. by split.
  - destruct (event_task ev) as [i|] eqn:Eev.
    + assert (Hstep : after (events ++ [ev]) = match w_tasks (after events) !! i with Some t => resolver_event i ev t (after events) | None => after events end)
        by (rewrite after_snoc; destruct ev; try done; by injection Eev as <-).
      destruct (w_tasks (after events) !! i) as [t|] eqn:Et.
      * destruct (IH i t Et) as (type & Hty & Ht). by eapply resolver_event_inv.
      * intros j t. rewrite Hstep. intros Hj. destruct (IH j t Hj) as (type' & H1 & H2). exists type'. split; [done|]. by apply task_inv_same.
    + destruct ev; try done. intros j t Hj. assert (Hj' : w_tasks (after events) !! j = Some t).
      { rewrite after_snoc in Hj. cbn in Hj. by destruct (w_pods (after events) !! name). }
      destruct (IH j t Hj') as (type' & H1 & H2). exists type'. split; [done|]. by apply task_inv_same.
Qed.

(** ** What a resolver lists *)

Lemma expired_small now p : time_ok now -> expired now ttlMs p = bool_decide (TimestampMs p < now - ttlMs).
Proof. intros Hn. unfold expired. rewrite int64_small; [done|]. unfold time_ok, MinInt64, MaxInt64 in *. lia. Qed.

(** The entries of a refresh were handled at the times of the run. *)
Definition times_ok (t : ResolverTask) : Prop :=
  match t_phase t with Working b _ _ => Forall time_ok (b_done b).*2 | _ => True end /\ match t_basis t with Some b => Forall time_ok (b_done b).*2 | None => True end.

Lemma forget_times k t : times_ok t -> times_ok (forget_key k t).
Proof. unfold times_ok, forget_key. by destruct (t_phase t) eqn:E; cbn; rewrite ?E. Qed.

Lemma event_times ev w : event_valid ev -> map_Forall (fun _ => times_ok) (w_tasks w) -> map_Forall (fun _ => times_ok) (w_tasks (world_event w ev)).
Proof.
  intros Hv Hw. assert (Hset : forall i t, times_ok t -> map_Forall (fun _ => times_ok) (w_tasks (set_task i t w))) by (intros; by apply map_Forall_insert_2).
  destruct (event_task ev) as [i|] eqn:Eev; [|destruct ev; try done; cbn; by destruct (w_pods w !! name)].
  assert (Hstep : world_event w ev = match w_tasks w !! i with Some t => resolver_event i ev t w | None => w end) by (destruct ev; try done; by injection Eev as <-).
  rewrite Hstep. destruct (w_tasks w !! i) as [t|] eqn:Et; [|done]. destruct (Hw i t Et) as [H1 H2]. unfold resolver_event.
  destruct ev as [| |i' keys| |i' now|i' order], (t_phase t) as [|steady|steady keys'|b [|[k v] todo] [[l p] d]] eqn:Ep; try done; try (by apply Hset).
  - case_bool_decide; [by apply Hset|done].
  - apply Hset. split; [constructor|done].
  - match goal with |- context [set_task i ?t' w] => set (tt' := t') end.
    assert (Ht' : times_ok tt') by (split; [cbn; rewrite fmap_app; apply Forall_app; split; [exact H1|by apply Forall_cons_2]|done]).
    destruct (entry_expired _ _ _); [|by apply Hset]. intros j t''. cbn [delete_key set_task w_tasks]. rewrite lookup_fmap. intros (t0 & Hj & ->)%fmap_Some.
    apply forget_times. by apply (Hset i tt' Ht' j).
Qed.

Lemma after_times events : Forall event_valid events -> map_Forall (fun _ => times_ok) (w_tasks (after events)).
Proof.
  induction events as [|ev events IH] using rev_ind; intros Hv.
  - intros i t. cbn. rewrite lookup_fmap. by intros (type & _ & ->)%fmap_Some.
  - apply Forall_app in Hv as [Hv [He _]%Forall_cons_iff]. rewrite after_snoc. by apply event_times, IH.
Qed.

(** What an entry with a registration contributes. *)
Lemma registered_entry events now r type k v : r_inferType r = type -> r_ttlMs r = ttlMs -> time_ok now -> registered_as events k v ->
  exists name sd time infos, k = LlumnixDiscovery +:+ name /\ pods !! name = Some sd /\ (pod_run name events sd).2 = Some (time, infos) /\
    entry_instances now r (Some v) = if bool_decide (time < now - ttlMs) then [] else map (to_instance name) (List.filter (wanted type) infos).
Proof.
  intros Hty Htt Hnow (name & sd & time & infos & Hk & Hsd & Hr & -> & Hok). exists name, sd, time, infos. split_and!; try done.
  unfold entry_instances. cbn. rewrite Unmarshal_Marshal, Htt by done. rewrite expired_small by done. cbn. unfold pod_instances. by rewrite Hty.
Qed.


(** A key leaves Redis only when a resolver handles an entry for it that has expired: the
    registration that this resolver read, at an earlier point of the run. *)
Theorem keys_leave_expired events ev k :
  Forall event_valid (events ++ [ev]) -> is_Some (w_store (after events) !! k) -> w_store (after (events ++ [ev])) !! k = None ->
  exists i now e0 e1 name sd time infos, ev = EntryDone i now /\ events = e0 ++ e1 /\ k = LlumnixDiscovery +:+ name /\
    pods !! name = Some sd /\ (pod_run name e0 sd).2 = Some (time, infos) /\ time < now - ttlMs.
Proof.
  intros [Hv [Hev _]%Forall_cons_iff]%Forall_app [v0 Hk] Hgone. rewrite after_snoc in Hgone.
  destruct (event_task ev) as [i|] eqn:Eev.
  2: { destruct ev; try done. cbn in Hgone. destruct (w_pods (after events) !! name) as [sd|]; [|congruence]. unfold registrar_turn in Hgone. cbn in Hgone.
       destruct (update_backend _ _) as [[key value]|]; [|congruence]. destruct stored; [|congruence]. unfold redis_put in Hgone. apply lookup_insert_None in Hgone as [? _]. congruence. }
  assert (Hstep : world_event (after events) ev = match w_tasks (after events) !! i with Some t => resolver_event i ev t (after events) | None => after events end)
    by (destruct ev; try done; by injection Eev as <-).
  rewrite Hstep in Hgone. destruct (w_tasks (after events) !! i) as [t|] eqn:Et; [|congruence]. destruct (after_tasks_inv events i t Et) as (type & _ & Hi).
  unfold resolver_event in Hgone. destruct ev as [| |i' keys| |i' now|i' order], (t_phase t) as [|steady|steady keys'|b [|[k' v] todo] acc] eqn:Ep; try (cbn in Hgone; congruence); try done.
  - case_bool_decide; cbn in Hgone; congruence.
  - destruct (entry_expired now (t_state t) v) eqn:Ex; cbn in Hgone; [|congruence]. unfold redis_delete in Hgone. apply lookup_delete_None in Hgone as [<-|?]; [|congruence].
    pose proof (ti_phase _ _ _ Hi) as Hph. rewrite Ep in Hph. destruct Hph as (e0 & e1 & e2 & He & [Hread _] & [_ Hval] & _).
    specialize (Hval k' v ltac:(apply elem_of_app; right; by left)). rewrite Hread in Hval. subst v. unfold entry_expired in Ex.
    destruct (w_store (after (e0 ++ e1)) !! k') as [v|] eqn:Ek; [|done].
    assert (Hp : pods_inv (e0 ++ e1) (after (e0 ++ e1))) by (apply after_pods_inv; rewrite He, app_assoc in Hv; by apply Forall_app in Hv as [? _]).
    destruct (pi_store _ _ Hp k' v Ek) as (name & sd & time & infos & -> & Hsd & Hreg & -> & Hok). cbn in Ex. rewrite Unmarshal_Marshal, (ti_ttl _ _ _ Hi), expired_small in Ex by done.
    apply bool_decide_eq_true in Ex. exists i', now, (e0 ++ e1), e2, name, sd, time, infos. rewrite He, app_assoc. done.
  - by destruct acc as [[? ?] ?]; cbn in Hgone; congruence.
Qed.

End run.
End discovery.

(** ** The codec can be what the theorems ask of it, and an example *)

#[export] Instance example_codec : PodCodec PodDiscoveryInfo := {|
  Marshal p := p;
  Unmarshal p := Some p;
  Unmarshal_Marshal p _ := eq_refl
|}.

Definition example_config : HeartbeatConfig := mkHeartbeatConfig 30 3 1 1 "/health" 200 1.

Definition example_pod (name ip : string) : option ServiceDiscovery :=
  new_service_discovery RedisBackend example_config (mkDiscoveryArgs name ip 8000 ip 9000 "decode" 2 "m" 1 None).

Definition example_pods : gmap string ServiceDiscovery :=
  match example_pod "a" "10.0.0.1", example_pod "b" "10.0.0.2" with
  | Some a, Some b => <["a" := a]> {["b" := b]}
  | _, _ => ∅
  end.

Lemma example_pods_ok : map_Forall pod_ok example_pods.
Proof.
  intros name sd. unfold example_pods. destruct (example_pod "a" "10.0.0.1") as [a|] eqn:Ea; [|done].
  destruct (example_pod "b" "10.0.0.2") as [b|] eqn:Eb; [|done].
  intros [[<- <-]|[_ [<- <-]%lookup_singleton_Some]]%lookup_insert_Some.
  - by apply new_service_discovery_ok in Ea.
  - by apply new_service_discovery_ok in Eb.
Qed.

(** Pod [a] answers on its first port only, pod [b] on both; [b] registers at time 1000 and
    [a] at 50000. The scan returns the key of [a] twice. *)
Definition example_probe (key : string) (attempt : nat) : Attempt :=
  if bool_decide (key = "10.0.0.1:8001") then TimedOut else Responded 200 120.

Definition example_scan : list DiscoveryEvent :=
  [PodTurn "b" 0 1000 example_probe true; PodTurn "a" 0 50000 example_probe true; ScanStarts 0;
   ScanEnds 0 ["llumnix:discovery:a"; "llumnix:discovery:b"; "llumnix:discovery:a"]; ValuesRead 0].

Definition example_events : list DiscoveryEvent :=
  example_scan ++ [EntryDone 0 61001; EntryDone 0 61001; EntryDone 0 61002; RefreshEnds 0 elements].

Definition example_types : gmap nat InferType := {[0%nat := "decode"]}.

Definition example_after (events : list DiscoveryEvent) : World (bytes := PodDiscoveryInfo) := after 60000 example_pods example_types events.

Definition example_listed (w : World (bytes := PodDiscoveryInfo)) : list string :=
  match w_tasks w !! 0%nat with Some t => map Id (GetLLMInstances (t_state t)) | None => [] end.

Definition example_task : ResolverTask (bytes := PodDiscoveryInfo) := default (mkTask (new_redis_state "" 0) Idle None) (w_tasks (example_after example_events) !! 0%nat).


(** A pod renews its registration between the reading of the values and the handling of its
    entry: the new registration is deleted, and no resolver lists the pod until its next one. *)
Theorem renewed_registration_deleted :
  let w := example_after (example_scan ++ [PodTurn "b" 0 61000 example_probe true; EntryDone 0 61001; EntryDone 0 61001]) in
  w_store w !! "llumnix:discovery:b" = None.
Proof. vm_compute. reflexivity. Qed.
