(* ===== verification/DiscoveryExamples.v ===== *)
(** * Service discovery: examples

    Concrete runs of the theorems on discovery, and the cases they leave out: a channel
    read out of order, a key listed twice, an instance that moves, and a cancelled
    observer. *)

From stdpp Require Import base gmap list strings pretty numbers relations.
From S2P Require Import Prelude GoStrings Types Resolver ResolverSpec Balancer Watcher Discovery DiscoverySpec.

Local Open Scope Z_scope.

(** ** A balancer that follows Redis *)

Definition pod_value (name ip : string) (ranks : list Z) (now : Z) : PodDiscoveryInfo :=
  mkPodInfo name now (map (fun k => mkInstanceInfo "decode" ip (8000 + k) ip 9000 k 2 "m" 1) ranks).

Definition example_entry (now : Z) (l : list (string * PodDiscoveryInfo)) (r : ResolverState) : ResolverState * notification :=
  match redis_refresh elements now (Some (map fst l)) (Some (map (fun e => Some e.2) l)) r with
  | Some (r', n, _) => (r', n)
  | None => (r, None)
  end.

Lemma elements_once : visits_once elements.
Proof. by intros s. Qed.

Lemma example_turn now l r i p b :
  NoDup (Id <$> r_instances (example_entry now l r).1) ->
  turn (mkFeed r None i p b) (mkFeed (example_entry now l r).1 (example_entry now l r).2 i p b).
Proof.
  intros Hnd. constructor; [|done]. unfold example_entry in *.
  destruct (redis_refresh elements now _ _ r) as [[[r' n] deleted]|] eqn:E; [|cbn in E; by destruct (fold_left _ _ _) as [[? ?] ?]; destruct (replace_state _ _ _ _)].
  eapply (redis_turn r elements); [apply elements_once|exact E].
Qed.

Definition entry_a : string * PodDiscoveryInfo := ("llumnix:discovery:a", pod_value "a" "10.0.0.1" [0; 1] 1000).
Definition entry_b : string * PodDiscoveryInfo := ("llumnix:discovery:b", pod_value "b" "10.0.0.2" [0] 1000).

Definition feed0 : Feed := feed_start (new_redis_state "decode" 60000).

Definition after_turn (now : Z) (l : list (string * PodDiscoveryInfo)) (s : Feed) : Feed :=
  mkFeed (example_entry now l (fd_resolver s)).1 (example_entry now l (fd_resolver s)).2 (fd_initial s) (fd_pair s) (fd_balancer s).

Definition after_notify (s : Feed) : Feed :=
  mkFeed (fd_resolver s) None (fd_initial s) (notify_pair (n_added (fd_flight s)) (n_removed (fd_flight s)) (fd_pair s)) (fd_balancer s).

(** [a] and [b] appear, then [a] goes away. *)
Definition feed1 : Feed := take_added (after_notify (after_turn 2000 [entry_a; entry_b] feed0)).
Definition feed2 : Feed := take_removed (after_notify (after_turn 3000 [entry_b] feed1)).

Lemma step_turn now l s :
  fd_flight s = None -> NoDup (Id <$> r_instances (example_entry now l (fd_resolver s)).1) -> turn s (after_turn now l s).
Proof. destruct s as [r n i p b]. intros Hn Hnd. cbn in Hn. subst n. by apply example_turn. Qed.

Lemma step_notify s a d : fd_flight s = Some (a, d) -> fits a (o_added (fd_pair s)) -> fits d (o_removed (fd_pair s)) -> deliver s (after_notify s).
Proof. destruct s as [r n i p b]. cbn. intros -> Ha Hd. by apply (feed_notify r a d i p b). Qed.

Ltac example_step :=
  first [ eapply step_notify; [vm_compute; reflexivity | right; vm_compute; lia | right; vm_compute; lia]
        | apply feed_added; vm_compute; discriminate
        | apply feed_removed; vm_compute; discriminate ].

Lemma example_paced : rtc paced_step feed0 feed2.
Proof.
  unfold feed2, feed1.
  eapply rtc_l; [left; split; [apply (step_turn 2000 [entry_a; entry_b]); [done|apply (bool_decide_unpack _); vm_compute; exact I]|by vm_compute]|].
  eapply rtc_l; [right; example_step|]. eapply rtc_l; [right; apply feed_added; vm_compute; discriminate|].
  eapply rtc_l; [left; split; [apply (step_turn 3000 [entry_b]); [vm_compute; reflexivity|apply (bool_decide_unpack _); vm_compute; exact I]|by vm_compute]|].
  eapply rtc_l; [right; example_step|]. eapply rtc_l; [right; apply feed_removed; vm_compute; discriminate|]. apply rtc_refl.
Qed.

Lemma paced_is_feed s s' : paced_step (bytes := PodDiscoveryInfo) s s' -> feed_step s s'.
Proof. intros [[Ht _]|Hd]; [by left|by right]. Qed.


Lemma balancer_keeps_instances_witness :
  "b_dp0" ∈ Id <$> instances (fd_balancer feed2).
Proof.
  apply (balancer_keeps_instances (new_redis_state "decode" 60000) feed2 (to_instance "b" (mkInstanceInfo "decode" "10.0.0.2" 8000 "10.0.0.2" 9000 0 2 "m" 1)));
    [constructor|eapply rtc_subrel; [apply paced_is_feed|exact example_paced]|by vm_compute|by vm_compute; left].
Defined.

(** ** What goes wrong when the channels are read out of order

    Two notifications are waiting: [a] was added, and then removed. The balancer may take
    the removal first: [a] then stays for good, although nothing is on its way. *)

Definition ghost : Feed :=
  take_added (take_removed (after_notify (after_turn 3000 [] (after_notify (after_turn 2000 [entry_a] feed0))))).

Theorem removal_overtakes_addition :
  rtc feed_step feed0 ghost /\ drained ghost /\ GetLLMInstances (fd_resolver ghost) = [] /\
  Id <$> instances (fd_balancer ghost) = ["a_dp0"; "a_dp1"].
Proof.
  split; [|by vm_compute]. unfold ghost.
  eapply rtc_l; [left; apply (step_turn 2000 [entry_a]); [done|apply (bool_decide_unpack _); vm_compute; exact I]|].
  eapply rtc_l; [right; example_step|].
  eapply rtc_l; [left; apply (step_turn 3000 []); [vm_compute; reflexivity|apply (bool_decide_unpack _); vm_compute; exact I]|].
  eapply rtc_l; [right; example_step|]. eapply rtc_l; [right; apply feed_removed; vm_compute; discriminate|].
  eapply rtc_l; [right; apply feed_added; vm_compute; discriminate|]. apply rtc_refl.
Qed.

(** A key that the scan of Redis returns twice: the second copy is reported as added, and
    when the pod goes away only one copy is reported as removed. *)
Theorem repeated_key_stays :
  let s1 := take_added (after_notify (after_turn 2000 [entry_b] feed0)) in
  let s2 := take_added (after_notify (after_turn 3000 [entry_b; entry_b] s1)) in
  let s3 := take_removed (after_notify (after_turn 4000 [] s2)) in
  drained s3 /\ GetLLMInstances (fd_resolver s3) = [] /\ Id <$> instances (fd_balancer s3) = ["b_dp0"].
Proof. by vm_compute. Qed.

(** A pod that comes back under its name at another address is not reported: the balancer
    keeps the old address. *)
Theorem moved_instance_not_reported :
  let s1 := take_added (after_notify (after_turn 2000 [entry_b] feed0)) in
  let s2 := after_turn 3000 [("llumnix:discovery:b", pod_value "b" "10.0.0.9" [0] 2500)] s1 in
  drained s2 /\ map InstEndpoint (GetLLMInstances (fd_resolver s2)) = [mkEndpoint "10.0.0.9" 8000] /\
  map InstEndpoint (instances (fd_balancer s2)) = [mkEndpoint "10.0.0.2" 8000].
Proof. by vm_compute. Qed.

(** A context that is cancelled before the initial list was sent: both goroutines of
    [Watch] remove the observer, and the second one panics. *)
Theorem cancelled_watch_panics pair w w' g g' : on_cancel g pair w = Some w' -> on_cancel g' pair w' = None.
Proof.
  intros E. assert (Hr : removeObserver pair w = Some w') by (by destruct g). unfold removeObserver in Hr.
  case_bool_decide; [done|]. injection Hr as <-. assert (Hg : forall w, on_cancel g' pair w = removeObserver pair w) by (by destruct g').
  rewrite Hg. unfold removeObserver. cbn [closed_pairs]. rewrite bool_decide_true by set_solver. done.
Qed.

(** ** Following etcd *)

Definition etcd_store : gmap string PodDiscoveryInfo := {["llumnix/discovery/a" := pod_value "a" "10.0.0.1" [0; 1] 1000]}.

Definition etcd_batches : list (Z * key_order * list (Event PodDiscoveryInfo)) :=
  [(2000, elements, [EventPut "llumnix/discovery/b" (pod_value "b" "10.0.0.2" [0] 2000)]); (3000, elements, [EventDelete "llumnix/discovery/a"])].

Lemma watch_equals_refresh_witness :
  GetLLMInstances (follow etcd_batches (etcd_refresh elements 1000 (Some (Some <$> etcd_store)) (new_etcd_state "all" 60)).1)
  ≡ₚ GetLLMInstances (etcd_refresh elements 4000 (Some (Some <$> fold_left store_event (flat_map snd etcd_batches) etcd_store)) (new_etcd_state "all" 60)).1.
Proof.
  apply (watch_equals_refresh "all" 60 elements 1000 elements 4000 etcd_store etcd_batches elements_once elements_once).
  - unfold etcd_store. intros k v [<- <-]%lookup_singleton_Some. vm_compute. reflexivity.
  - repeat constructor; apply elements_once || (vm_compute; reflexivity).
  - unfold etcd_store. intros k v. cbn [fold_left flat_map snd app etcd_batches store_event]. intros [_ Hv]%lookup_delete_Some.
    apply lookup_insert_Some in Hv as [[<- <-]|[_ [<- <-]%lookup_singleton_Some]]; vm_compute; reflexivity.
Defined.
