(* ===== verification/EtcdBackend.v ===== *)
(** * Service discovery: the registrar's etcd backend

    [EtcdDiscoveryBackend] of [python/discovery/discovery/discovery.py]: registrations in
    etcd under a lease per key, over the HTTP gateway of etcd, with failover between the
    endpoints, the refreshing of the leases, and their recovery. A method is a program over
    HTTP requests whose answers are left open, and over the fields of the backend, which the
    registrar's calls and the keepalive loop share: they interleave at every step. An exception
    is a value. *)

From Stdlib Require Import Ascii.
From stdpp Require Import base gmap sets list strings numbers.
From S2P Require Import Prelude GoStrings Types Programs.

Local Open Scope Z_scope.

Section etcd_backend.
Context {bytes : Type}.

(** ** Requests and answers *)

(** The answer to a keepalive has the time to live that is left, and none when the lease has
    expired. *)
Inductive etcd_request : Type -> Type :=
  | LeaseGrant (ttl : Z) : etcd_request Z
  | LeaseKeepAlive (id : Z) : etcd_request (option Z)
  | LeaseRevoke (id : Z) : etcd_request unit
  | KvPut (key : string) (value : bytes) (lease : Z) : etcd_request unit
  | KvDeleteRange (key : string) : etcd_request unit
  | KvRange (key : string) : etcd_request (list bytes)
  | MaintenanceStatus : etcd_request unit.

(** A connection error leads to the next endpoint; every other error is raised. *)
Inductive http_result (A : Type) :=
  | HttpOk (a : A)
  | ClientConnectionError (e : string)
  | HttpError (e : string).
Arguments HttpOk {A} a.
Arguments ClientConnectionError {A} e.
Arguments HttpError {A} e.

(** [HttpPost] ends with the status of the answer, [ReadBody] reads and decodes its body. The
    other calls read or change a field of the backend. [StaleValues] and [StaleKeys] are what is
    left of an iteration over a dictionary that was changed, but has its old size. *)
Inductive eeff : Type -> Type :=
  | HttpPost {A : Type} (endpoint : string) (q : etcd_request A) : eeff (http_result unit)
  | ReadBody {A : Type} (q : etcd_request A) : eeff (http_result A)
  | SleepSeconds (n : Z) : eeff unit
  | OpenSession : eeff unit
  | CloseSession : eeff unit
  | StartLoop : eeff unit
  | CancelLoop : eeff unit
  | HasSession : eeff bool
  | GetActive : eeff (option string)
  | SetActive (e : string) : eeff unit
  | GetLease (key : string) : eeff (option Z)
  | SetLease (key : string) (id : Z) : eeff unit
  | PopLease (key : string) : eeff (option Z)
  | GetLeases : eeff (gmap string Z)
  | SetLeases (m : gmap string Z) : eeff unit
  | StaleValues : eeff (list Z)
  | StaleKeys : eeff (list string)
  | GetFailures : eeff Z
  | SetFailures (n : Z) : eeff unit.

Inductive py (A : Type) :=
  | Value (a : A)
  | Raise (e : string).
Arguments Value {A} a.
Arguments Raise {A} e.

Abbreviation eprog A := (Prog eeff A) (only parsing).

(** ** The state of the backend *)

Record EtcdDiscoveryBackend := mkEtcdBackend {
  has_session : bool;
  active_endpoint : option string;
  leases : gmap string Z;
  keepalive_running : bool;
  consecutive_keepalive_failures : Z
}.

Fixpoint rstrip_slash (s : string) : string :=
  match s with
  | EmptyString => ""
  | String c s' =>
      match rstrip_slash s' with
      | EmptyString => if bool_decide (c = "/"%char) then "" else String c ""
      | t => String c t
      end
  end.

Definition normalize_endpoint (endpoint : string) : string :=
  let e := TrimSpace endpoint in
  rstrip_slash (if negb (HasPrefix e "http://") && negb (HasPrefix e "https://") then "http://" +:+ e else e).

Definition new_etcd_backend : EtcdDiscoveryBackend := mkEtcdBackend false None ∅ false 0.

(** What the fields answer, and how a call changes them. *)
Definition field_answer {X} (e : eeff X) (x : X) (b : EtcdDiscoveryBackend) : Prop :=
  match e in eeff X return X -> Prop with
  | HasSession => fun x => x = has_session b
  | GetActive => fun x => x = active_endpoint b
  | GetLease key | PopLease key => fun x => x = leases b !! key
  | GetLeases => fun x => x = leases b
  | GetFailures => fun x => x = consecutive_keepalive_failures b
  | _ => fun _ => True
  end x.

Definition field_after {X} (e : eeff X) (b : EtcdDiscoveryBackend) : EtcdDiscoveryBackend :=
  let '(mkEtcdBackend s a l r f) := b in
  match e with
  | OpenSession => mkEtcdBackend true a l r f
  | CloseSession => mkEtcdBackend false a l r f
  | StartLoop => mkEtcdBackend s a l true f
  | CancelLoop => mkEtcdBackend s a l false f
  | SetActive e => mkEtcdBackend s (Some e) l r f
  | SetLease key id => mkEtcdBackend s a (<[key := id]> l) r f
  | PopLease key => mkEtcdBackend s a (delete key l) r f
  | SetLeases m => mkEtcdBackend s a m r f
  | SetFailures n => mkEtcdBackend s a l r n
  | _ => b
  end.

Section backend.
Context (lease_ttl : Z) (configured : list string).

Definition eb_endpoints : list string := map normalize_endpoint configured.
Definition keepalive_interval : Z := Z.max 1 (lease_ttl / 3).

(** ** [_post] *)

(** The active endpoint is set before the body of the answer is read. *)
Fixpoint failover {A} (endpoints : list string) (q : etcd_request A) (last_error : option string) : eprog (py A) :=
  match endpoints with
  | [] => Ret (Raise (default "All etcd endpoints unreachable" last_error))
  | endpoint :: endpoints =>
      active ← perform GetActive;
      if bool_decide (Some endpoint = active) then failover endpoints q last_error else
      r ← perform (HttpPost endpoint q);
      match r with
      | ClientConnectionError e | HttpError e => failover endpoints q (Some e)
      | HttpOk _ =>
          _ ← perform (SetActive endpoint);
          body ← perform (ReadBody q);
          match body with
          | HttpOk a => Ret (Value a)
          | ClientConnectionError e | HttpError e => failover endpoints q (Some e)
          end
      end
  end.

(** An active endpoint of [None] is printed into the address, which then reaches nothing:
    its request fails like any other. *)
Definition post {A} (q : etcd_request A) : eprog (py A) :=
  active ← perform GetActive;
  r ← perform (HttpPost (default "None" active) q);
  body ← (match r with
          | HttpOk _ => perform (ReadBody q)
          | ClientConnectionError e => Ret (ClientConnectionError e)
          | HttpError e => Ret (HttpError e)
          end);
  match body with
  | HttpOk a => Ret (Value a)
  | HttpError e => Ret (Raise e)
  | ClientConnectionError _ => failover eb_endpoints q None
  end.

(** ** [start] *)

Definition MAX_CONNECT_RETRIES : nat := 5.
Definition CONNECT_RETRY_INTERVAL : Z := 3.
Definition MAX_KEEPALIVE_FAILURES : Z := 3.

Fixpoint try_endpoints (endpoints : list string) (last_error : option string) : eprog (option string) :=
  match endpoints with
  | [] => Ret last_error
  | endpoint :: endpoints =>
      r ← perform (HttpPost endpoint MaintenanceStatus);
      match r with
      | HttpOk _ => _ ← perform (SetActive endpoint); Ret last_error
      | ClientConnectionError e | HttpError e => try_endpoints endpoints (Some e)
      end
  end.

(** The endpoint of an earlier start also ends the attempts. *)
Fixpoint connect (attempts : nat) (last_error : option string) : eprog (option string) :=
  match attempts with
  | O => Ret last_error
  | S attempts =>
      last_error ← try_endpoints eb_endpoints last_error;
      active ← perform GetActive;
      match active, attempts with
      | Some _, _ | None, O => Ret last_error
      | None, S _ => _ ← perform (SleepSeconds CONNECT_RETRY_INTERVAL); connect attempts last_error
      end
  end.

Definition eb_start : eprog (py unit) :=
  _ ← perform OpenSession;
  last_error ← connect MAX_CONNECT_RETRIES None;
  active ← perform GetActive;
  match active with
  | Some _ => _ ← perform (SetFailures 0); _ ← perform StartLoop; Ret (Value tt)
  | None => _ ← perform CloseSession; Ret (Raise ("Failed to connect to etcd: " +:+ default "None" last_error))
  end.

(** ** Leases *)

Definition grant_lease (key : string) : eprog (py Z) :=
  r ← post (LeaseGrant lease_ttl);
  match r with
  | Value id => _ ← perform (SetLease key id); Ret (Value id)
  | Raise e => Ret (Raise e)
  end.

Definition size_changed : string := "dictionary changed size during iteration".

(** The leases are refreshed one after the other; the first error ends it. Whenever the loop
    comes back from a request it goes on with the dictionary [m] as that is now. *)
Fixpoint refresh_stale (m : gmap string Z) (ids : list Z) : eprog (py unit) :=
  match ids with
  | [] => Ret (Value tt)
  | id :: ids =>
      r ← post (LeaseKeepAlive id);
      match r with
      | Raise e => Ret (Raise e)
      | Value _ =>
          m' ← perform GetLeases;
          if bool_decide (size m' <> size m) then Ret (Raise size_changed) else refresh_stale m ids
      end
  end.

Fixpoint refresh_leases (m : gmap string Z) (ids : list Z) : eprog (py unit) :=
  match ids with
  | [] => Ret (Value tt)
  | id :: ids =>
      r ← post (LeaseKeepAlive id);
      match r with
      | Raise e => Ret (Raise e)
      | Value _ =>
          m' ← perform GetLeases;
          if bool_decide (size m' <> size m) then Ret (Raise size_changed)
          else if bool_decide (m' = m) then refresh_leases m ids
          else rest ← perform StaleValues; refresh_stale m rest
      end
  end.

Fixpoint grant_stale (m : gmap string Z) (keys : list string) (new : gmap string Z) : eprog (py (gmap string Z)) :=
  match keys with
  | [] => Ret (Value new)
  | key :: keys =>
      r ← post (LeaseGrant lease_ttl);
      match r with
      | Raise e => Ret (Raise e)
      | Value id =>
          m' ← perform GetLeases;
          if bool_decide (size m' <> size m) then Ret (Raise size_changed) else grant_stale m keys (<[key := id]> new)
      end
  end.

Fixpoint grant_all (m : gmap string Z) (keys : list string) (new : gmap string Z) : eprog (py (gmap string Z)) :=
  match keys with
  | [] => Ret (Value new)
  | key :: keys =>
      r ← post (LeaseGrant lease_ttl);
      match r with
      | Raise e => Ret (Raise e)
      | Value id =>
          m' ← perform GetLeases;
          if bool_decide (size m' <> size m) then Ret (Raise size_changed)
          else if bool_decide (m' = m) then grant_all m keys (<[key := id]> new)
          else rest ← perform StaleKeys; grant_stale m rest (<[key := id]> new)
      end
  end.

Definition recover_leases (order : key_order) : eprog unit :=
  m ← perform GetLeases;
  r ← grant_all m (order (dom m)) ∅;
  match r with
  | Value new => _ ← perform (SetLeases new); perform (SetFailures 0)
  | Raise _ => Ret tt
  end.

(** One turn of [_keepalive_loop]; [order] is the order of the dictionary. *)
Definition keepalive_turn (order : key_order) : eprog unit :=
  _ ← perform (SleepSeconds keepalive_interval);
  m ← perform GetLeases;
  if bool_decide (m = ∅) then Ret tt else
  r ← refresh_leases m (omap (fun k => m !! k) (order (dom m)));
  match r with
  | Value _ => perform (SetFailures 0)
  | Raise _ =>
      n ← perform GetFailures;
      _ ← perform (SetFailures (n + 1));
      if bool_decide (MAX_KEEPALIVE_FAILURES <= n + 1) then recover_leases order else Ret tt
  end.

Fixpoint keepalive_loop (order : key_order) (fuel : nat) : eprog unit :=
  match fuel with
  | O => Hang
  | S fuel => _ ← keepalive_turn order; keepalive_loop order fuel
  end.

(** ** [put], [delete], [get] and [close] *)

Definition started : eprog bool :=
  s ← perform HasSession;
  active ← perform GetActive;
  Ret (s && bool_decide (is_Some active)).

Definition put_retry (key : string) (value : bytes) (lease : Z) : eprog (py unit) :=
  _ ← perform (PopLease key);
  _ ← post (LeaseRevoke lease);
  r ← grant_lease key;
  match r with
  | Raise e => Ret (Raise e)
  | Value lease => post (KvPut key value lease)
  end.

Definition eb_put (key : string) (value : bytes) : eprog (py unit) :=
  ok ← started;
  if negb ok then Ret (Raise "EtcdDiscoveryBackend.start() must be called before put()") else
  known ← perform (GetLease key);
  r ← (match known with Some lease => Ret (Value lease) | None => grant_lease key end);
  match r with
  | Raise e => Ret (Raise e)
  | Value lease =>
      r ← post (KvPut key value lease);
      match r with
      | Value _ => Ret (Value tt)
      | Raise _ => put_retry key value lease
      end
  end.

Definition eb_delete (key : string) : eprog (py unit) :=
  ok ← started;
  if negb ok then Ret (Value tt) else
  known ← perform (PopLease key);
  _ ← (match known with
       | Some lease => _ ← post (LeaseRevoke lease); Ret tt
       | None => Ret tt
       end);
  post (KvDeleteRange key).

Definition eb_get (key : string) : eprog (py (option bytes)) :=
  ok ← started;
  if negb ok then Ret (Value None) else
  r ← post (KvRange key);
  Ret (match r with Value kvs => Value (head kvs) | Raise e => Raise e end).

Fixpoint revoke_all (ids : list Z) : eprog unit :=
  match ids with
  | [] => Ret tt
  | id :: ids => _ ← post (LeaseRevoke id); revoke_all ids
  end.

(** Nothing else runs on the backend when it is closed. *)
Definition eb_close (order : key_order) : eprog unit :=
  _ ← perform CancelLoop;
  m ← perform GetLeases;
  _ ← revoke_all (omap (fun k => m !! k) (order (dom m)));
  _ ← perform (SetLeases ∅);
  s ← perform HasSession;
  if s : bool then perform CloseSession else Ret tt.

(** ** The registrar's calls beside the keepalive loop

    The registrar puts and deletes the key of its pod, one call at a time, and the loop runs
    beside it. [rg_result] is the last call that returned. *)

Context (order : key_order) (key : string).

Inductive ecall := CallPut (value : bytes) | CallDelete.

Definition call_program (c : ecall) : eprog (py unit) := match c with CallPut value => eb_put key value | CallDelete => eb_delete key end.

Record registrar := mkRegistrar {
  rg_backend : EtcdDiscoveryBackend;
  rg_call : option (ecall * eprog (py unit));
  rg_result : option (ecall * py unit);
  rg_loop : eprog unit;
  rg_log : list (bool * event eeff)
}.

Inductive registrar_step : registrar -> registrar -> Prop :=
  | call_begins c b r p l : registrar_step (mkRegistrar b None r p l) (mkRegistrar b (Some (c, call_program c)) r p l)
  | call_acts X (e : eeff X) k x c b r p l : field_answer e x b ->
      registrar_step (mkRegistrar b (Some (c, Do e k)) r p l) (mkRegistrar (field_after e b) (Some (c, k x)) r p (l ++ [(false, Ev e x)]))
  | call_returns c v b r p l : registrar_step (mkRegistrar b (Some (c, Ret v)) r p l) (mkRegistrar b None (Some (c, v)) p l)
  | loop_acts X (e : eeff X) k x b c r l : field_answer e x b ->
      registrar_step (mkRegistrar b c r (Do e k) l) (mkRegistrar (field_after e b) c r (k x) (l ++ [(true, Ev e x)])).

Definition new_registrar (b : EtcdDiscoveryBackend) (fuel : nat) : registrar := mkRegistrar b None None (keepalive_loop order fuel) [].

Definition loop_events (l : list (bool * event eeff)) : list (event eeff) := (filter (fun e => e.1 = true) l).*2.
Definition call_events (l : list (bool * event eeff)) : list (event eeff) := (filter (fun e => e.1 = false) l).*2.

(** ** What etcd acknowledged

    An answer with a good status acknowledges the request. [kept]: the lease that the calls have
    read or put last for the key; [stored_under]: the value and the lease of the key by the
    acknowledged requests; [agrees]: no read gave another lease than the calls put there. *)

Record acks := mkAcks { kept : option Z; stored_under : option (bytes * Z); agrees : bool }.

Definition ack_of {A} (q : etcd_request A) (g : acks) : acks :=
  match q with
  | KvPut k v l => mkAcks (kept g) (if bool_decide (k = key) then Some (v, l) else stored_under g) (agrees g)
  | KvDeleteRange k => mkAcks (kept g) (if bool_decide (k = key) then None else stored_under g) (agrees g)
  | LeaseRevoke l => mkAcks (kept g) (match stored_under g with Some (v, l') => if bool_decide (l = l') then None else Some (v, l') | None => None end) (agrees g)
  | _ => g
  end.

Definition observe_ack (X : Type) (e : eeff X) (x : X) (g : acks) : acks :=
  match e in eeff X return X -> acks with
  | HttpPost _ q => fun x => match x with HttpOk _ => ack_of q g | _ => g end
  | GetLease k => fun x => if bool_decide (k = key) then mkAcks (kept g) (stored_under g) (agrees g && bool_decide (x = kept g)) else g
  | PopLease k => fun x => if bool_decide (k = key) then mkAcks None (stored_under g) (agrees g && bool_decide (x = kept g)) else g
  | SetLease k id => fun _ => if bool_decide (k = key) then mkAcks (Some id) (stored_under g) (agrees g) else g
  | _ => fun _ => g
  end x.

(** The calls do not replace the dictionary. *)
Definition ack_monitor : Monitor eeff acks :=
  mkMonitor (fun X e _ => match e with SetLeases _ | OpenSession | CloseSession | StartLoop | CancelLoop | SetFailures _ => False | _ => True end)
    (fun _ _ _ => True) observe_ack (fun _ => False) (fun _ => False).

Abbreviation awp p Q g := (mwp ack_monitor p Q g) (only parsing).

(** A request that returns has been acknowledged last of all; one that raises may have been
    acknowledged all the same. *)
Lemma failover_acks {A} endpoints (q : etcd_request A) err g (Q : py A -> acks -> Prop) :
  (forall a g', g' = g \/ g' = ack_of q g -> Q (Value a) (ack_of q g')) -> (forall e g', g' = g \/ g' = ack_of q g -> Q (Raise e) g') ->
  (forall g', g' = g \/ g' = ack_of q g -> ack_of q g' = ack_of q g) ->
  forall g', g' = g \/ g' = ack_of q g -> awp (failover endpoints q err) Q g'.
Proof.
  intros Hv Hr Hid. revert err. induction endpoints as [|endpoint endpoints IH]; intros err g' Hg; cbn [failover]; [by apply Hr|].
  apply mwp_bind, mwp_perform; [done|]. intros active _. cbn [observe ack_monitor observe_ack]. case_bool_decide; [by apply IH|].
  apply mwp_bind, mwp_perform; [done|]. intros [[]|e|e] _; cbn [observe ack_monitor observe_ack]; [|by apply IH..].
  apply mwp_bind, mwp_perform; [done|]. intros [] _. apply mwp_bind, mwp_perform; [done|]. cbn [observe ack_monitor observe_ack].
  intros [a|e|e] _; cbn [observe ack_monitor observe_ack]; [by apply Hv|apply IH; right; by apply Hid..].
Qed.

Lemma ack_twice {A} (q : etcd_request A) g : ack_of q (ack_of q g) = ack_of q g.
Proof. destruct q, g as [k s ok]; cbn; try done; repeat case_bool_decide; try done. by destruct s as [[v l']|]; repeat (case_bool_decide; cbn). Qed.

Lemma post_acks {A} (q : etcd_request A) g (Q : py A -> acks -> Prop) :
  (forall a, Q (Value a) (ack_of q g)) -> (forall e g', g' = g \/ g' = ack_of q g -> Q (Raise e) g') -> awp (post q) Q g.
Proof.
  intros Hv Hr. assert (Hid : forall g', g' = g \/ g' = ack_of q g -> ack_of q g' = ack_of q g) by (intros g' [->| ->]; [done|apply ack_twice]).
  assert (Hf : forall g', g' = g \/ g' = ack_of q g -> awp (failover eb_endpoints q None) Q g').
  { apply failover_acks; [|done|done]. intros a g' Hg. rewrite (Hid g' Hg). apply Hv. }
  unfold post. apply mwp_bind, mwp_perform; [done|]. intros active _. apply mwp_bind, mwp_perform; [done|]. cbn [observe ack_monitor observe_ack].
  intros [[]|e|e] _; apply mwp_bind; cbn; [|by apply Hf; left|by apply Hr; left].
  split; [done|]. intros [a|e|e] _; [apply Hv|by apply Hf; right|by apply Hr; right].
Qed.

(** The key is stored with its value under the lease that is kept for it. *)
Definition tracked (value : bytes) (g : acks) : Prop := exists lease, kept g = Some lease /\ stored_under g = Some (value, lease).

Definition put_ok (value : bytes) (r : py unit) (g : acks) : Prop := match r with Value _ => agrees g = true -> tracked value g | Raise _ => True end.

Lemma grant_acks g (Q : py Z -> acks -> Prop) :
  (forall id, Q (Value id) (mkAcks (Some id) (stored_under g) (agrees g))) -> (forall e, Q (Raise e) g) -> awp (grant_lease key) Q g.
Proof.
  intros Hv Hr. unfold grant_lease. apply mwp_bind, post_acks.
  - intros id. apply mwp_bind, mwp_perform; [done|]. intros [] _. cbn. rewrite bool_decide_true by done. apply Hv.
  - intros e g' [->| ->]; apply Hr.
Qed.

Lemma put_tracked value lease g : kept g = Some lease -> awp (post (KvPut key value lease)) (put_ok value) g.
Proof. intros Hk. apply post_acks; [|done]. intros a _. exists lease. cbn. by rewrite bool_decide_true. Qed.

Lemma put_retry_tracked value lease g : awp (put_retry key value lease) (put_ok value) g.
Proof.
  unfold put_retry. apply mwp_bind, mwp_perform; [done|]. intros x _. generalize (observe ack_monitor (PopLease key) x g) as g1. intros g1.
  assert (Hg : forall g2, awp (r ← grant_lease key; match r with Raise e => Ret (Raise e) | Value lease => post (KvPut key value lease) end) (put_ok value) g2)
    by (intros g2; apply mwp_bind, grant_acks; [intros id; by apply put_tracked|done]).
  apply mwp_bind, post_acks; intros; apply Hg.
Qed.

Lemma started_acks g (Q : bool -> acks -> Prop) : (forall b, Q b g) -> awp started Q g.
Proof. intros HQ. unfold started. apply mwp_bind, mwp_perform; [done|]. intros s _. apply mwp_bind, mwp_perform; [done|]. intros active _. apply HQ. Qed.

Lemma put_acks value g : awp (eb_put key value) (put_ok value) g.
Proof.
  assert (Hput : forall lease g, (agrees g = true -> kept g = Some lease) ->
    awp (r ← post (KvPut key value lease); match r with Value _ => Ret (Value tt) | Raise _ => put_retry key value lease end) (put_ok value) g).
  { clear. intros lease g Hk. apply mwp_bind, post_acks; [|intros; apply put_retry_tracked]. intros a Ha. exists lease. cbn in *. rewrite bool_decide_true by done. auto. }
  unfold eb_put. apply mwp_bind, started_acks. intros [|]; cbn [negb]; [|done]. apply mwp_bind, mwp_perform; [done|]. intros x _. cbv beta.
  assert (Hx : agrees (observe ack_monitor (GetLease key) x g) = true -> kept (observe ack_monitor (GetLease key) x g) = x).
  { cbn. rewrite bool_decide_true by done. cbn. intros [_ Ha%bool_decide_eq_true]%andb_true_iff. done. }
  revert Hx. generalize (observe ack_monitor (GetLease key) x g) as g1. intros g1 Hx. apply mwp_bind. destruct x as [lease|].
  - by apply Hput.
  - apply grant_acks; [|done]. intros id. by apply Hput.
Qed.

Lemma delete_acks g : awp (eb_delete key) (fun _ _ => True) g.
Proof.
  unfold eb_delete. apply mwp_bind, started_acks. intros [|]; cbn [negb]; [|done]. apply mwp_bind, mwp_perform; [done|]. intros x _. cbv beta.
  generalize (observe ack_monitor (PopLease key) x g) as g1. intros g1. apply mwp_bind. destruct x as [lease|].
  - apply mwp_bind, post_acks; intros; by apply post_acks.
  - by apply post_acks.
Qed.

(** ** A turn of the loop

    [turn_leases]: the dictionary at the turn's first look at it, unless it was another one at a
    later look. [refreshed]: the leases whose keepalive was acknowledged in the turn. [renewed]: the
    loop has taken new leases. *)

Record turn_view := mkTurnView { turn_leases : option (option (gmap string Z)); refreshed : gset Z; renewed : bool }.

Definition refresh_of {A} (q : etcd_request A) (g : turn_view) : turn_view :=
  match q with LeaseKeepAlive l => mkTurnView (turn_leases g) ({[l]} ∪ refreshed g) (renewed g) | _ => g end.

Definition observe_turn (X : Type) (e : eeff X) (x : X) (g : turn_view) : turn_view :=
  match e in eeff X return X -> turn_view with
  | SleepSeconds _ => fun _ => mkTurnView None ∅ false
  | HttpPost _ q => fun x => match x with HttpOk _ => refresh_of q g | _ => g end
  | GetLeases => fun m => mkTurnView (Some (match turn_leases g with
                                            | None => Some m
                                            | Some (Some m') => if bool_decide (m' = m) then Some m else None
                                            | Some None => None
                                            end)) (refreshed g) (renewed g)
  | SetLeases _ => fun _ => mkTurnView (turn_leases g) (refreshed g) true
  | _ => fun _ => g
  end x.

(** The loop leaves the entries of the dictionary and the keys in etcd alone; it takes new
    leases only after failures, and forgets its failures only when it has taken new leases or
    refreshed every lease of a dictionary that did not change. *)
Definition turn_permits (X : Type) (e : eeff X) (g : turn_view) : Prop :=
  match e with
  | HttpPost _ q => match q with KvPut _ _ _ | KvDeleteRange _ | LeaseRevoke _ => False | _ => True end
  | SetLease _ _ | PopLease _ | OpenSession | CloseSession | StartLoop | CancelLoop => False
  | SetFailures n => 0 <= n /\ (n = 0 -> renewed g = true \/ match turn_leases g with Some (Some m) => forall k l, m !! k = Some l -> l ∈ refreshed g | Some None => True | None => False end)
  | _ => True
  end.

Definition turn_monitor : Monitor eeff turn_view :=
  mkMonitor turn_permits (fun X e => match e in eeff X return X -> Prop with GetFailures => fun n => 0 <= n | _ => fun _ => True end) observe_turn (fun _ => False) (fun _ => True).

Abbreviation twp p Q g := (mwp turn_monitor p Q g) (only parsing).

Definition from_loop {A} (q : etcd_request A) : Prop := match q with LeaseGrant _ | LeaseKeepAlive _ => True | _ => False end.

Lemma refresh_twice {A} (q : etcd_request A) g : refresh_of q (refresh_of q g) = refresh_of q g.
Proof. destruct q; try done. unfold refresh_of. cbn. f_equal. set_solver. Qed.

Lemma post_turn {A} (q : etcd_request A) g (Q : py A -> turn_view -> Prop) : from_loop q ->
  (forall a, Q (Value a) (refresh_of q g)) -> (forall e g', g' = g \/ g' = refresh_of q g -> Q (Raise e) g') -> twp (post q) Q g.
Proof.
  intros Hq Hv Hr. assert (Hp : forall endpoint g', permits turn_monitor (HttpPost endpoint q) g') by (by destruct q).
  assert (Hid : forall g', g' = g \/ g' = refresh_of q g -> refresh_of q g' = refresh_of q g) by (intros g' [->| ->]; [done|apply refresh_twice]).
  assert (Hf : forall endpoints err g', g' = g \/ g' = refresh_of q g -> twp (failover endpoints q err) Q g').
  { induction endpoints as [|endpoint endpoints IH]; intros err g' Hg; cbn [failover]; [by apply Hr|].
    apply mwp_bind, mwp_perform; [done|]. intros active _. cbn [observe turn_monitor observe_turn]. case_bool_decide; [by apply IH|].
    apply mwp_bind, mwp_perform; [apply Hp|]. intros [[]|e|e] _; cbn [observe turn_monitor observe_turn]; [|by apply IH..].
    apply mwp_bind, mwp_perform; [done|]. intros [] _. apply mwp_bind, mwp_perform; [done|]. cbn [observe turn_monitor observe_turn].
    rewrite (Hid g' Hg). intros [a|e|e] _; cbn [observe turn_monitor observe_turn]; [apply Hv|by apply IH; right..]. }
  unfold post. apply mwp_bind, mwp_perform; [done|]. intros active _. apply mwp_bind, mwp_perform; [apply Hp|]. cbn [observe turn_monitor observe_turn].
  intros [[]|e|e] _; apply mwp_bind; cbn; [|by apply Hf; left|by apply Hr; left].
  split; [done|]. intros [a|e|e] _; [apply Hv|by apply Hf; right|by apply Hr; right].
Qed.

Lemma refresh_stale_spec m ids g : turn_leases g = Some None -> twp (refresh_stale m ids) (fun _ g' => turn_leases g' = Some None) g.
Proof.
  revert g. induction ids as [|id ids IH]; intros g Hg; [done|]. cbn [refresh_stale]. apply mwp_bind, post_turn; [done| |by intros e g' [->| ->]].
  intros ttl. apply mwp_bind, mwp_perform; [done|]. intros m' _. cbn. rewrite Hg. case_bool_decide; [done|]. by apply IH.
Qed.

(** Every lease that was to be refreshed has been, or the dictionary was changed meanwhile. *)
Lemma refresh_leases_spec m ids g : turn_leases g = Some (Some m) ->
  twp (refresh_leases m ids) (fun r g' => match r with
    | Value _ => turn_leases g' = Some None \/ (turn_leases g' = Some (Some m) /\ refreshed g ⊆ refreshed g' /\ forall l, l ∈ ids -> l ∈ refreshed g')
    | Raise _ => True
    end) g.
Proof.
  revert g. induction ids as [|id ids IH]; intros g Hg; [right; split_and!; [done|done|by intros l ?%elem_of_nil]|]. cbn [refresh_leases].
  apply mwp_bind, post_turn; [done| |done]. intros ttl. apply mwp_bind, mwp_perform; [done|]. intros m' _. cbn. rewrite Hg.
  case_bool_decide as Hsz; [done|]. case_bool_decide as Hm; [|rewrite bool_decide_false by (by intros ->)].
  - subst m'. rewrite bool_decide_true by done. eapply mwp_mono; [by apply IH|]. intros [[]|e] g'; [|done]. cbn. intros [Hg'|(H1 & H2 & H3)]; [by left|right].
    split_and!; [done|set_solver|]. intros l [->|Hl]%elem_of_cons; [set_solver|by apply H3].
  - split; [done|]. intros rest _. eapply mwp_mono; [by apply refresh_stale_spec|]. intros [[]|e] g' Hg'; [by left|done].
Qed.

Lemma grant_stale_spec m keys new g : twp (grant_stale m keys new) (fun _ _ => True) g.
Proof.
  revert new g. induction keys as [|k keys IH]; intros new g; [done|]. cbn [grant_stale]. apply mwp_bind, post_turn; [done| |done].
  intros id. apply mwp_bind, mwp_perform; [done|]. intros m' _. case_bool_decide; [done|]. apply IH.
Qed.

Lemma grant_all_spec m keys new g : twp (grant_all m keys new) (fun _ _ => True) g.
Proof.
  revert new g. induction keys as [|k keys IH]; intros new g; [done|]. cbn [grant_all]. apply mwp_bind, post_turn; [done| |done].
  intros id. apply mwp_bind, mwp_perform; [done|]. intros m' _. case_bool_decide; [done|]. case_bool_decide; [apply IH|].
  apply mwp_bind, mwp_perform; [done|]. intros rest _. apply grant_stale_spec.
Qed.

Lemma recover_spec g : twp (recover_leases order) (fun _ _ => True) g.
Proof.
  unfold recover_leases. apply mwp_bind, mwp_perform; [done|]. intros m _. apply mwp_bind. eapply mwp_mono; [apply grant_all_spec|].
  intros [new|e] g' _; [|done]. apply mwp_bind, mwp_perform; [done|]. intros [] _. apply mwp_perform; [|done]. split; [done|]. intros _. by left.
Qed.

Lemma turn_spec g : visits_once order -> twp (keepalive_turn order) (fun _ _ => True) g.
Proof.
  intros Ho. unfold keepalive_turn. apply mwp_bind, mwp_perform; [done|]. intros [] _. apply mwp_bind, mwp_perform; [done|]. intros m _.
  case_bool_decide as Hm; [done|]. apply mwp_bind. cbn [observe turn_monitor observe_turn]. eapply mwp_mono; [by apply refresh_leases_spec|].
  intros [[]|e] g' H.
  - apply mwp_perform; [|done]. split; [done|]. intros _. right. destruct H as [->|(-> & _ & Hl)]; [done|]. intros k l Hk. apply Hl, list_elem_of_omap. exists k.
    split; [apply (elem_of_order _ _ _ Ho), elem_of_dom; eauto|done].
  - apply mwp_bind, mwp_perform; [done|]. intros n Hn. cbn in Hn. apply mwp_bind, mwp_perform; [split; lia|]. intros [] _. case_bool_decide; [apply recover_spec|done].
Qed.

Lemma keepalive_loop_spec fuel g : visits_once order -> twp (keepalive_loop order fuel) (fun _ _ => True) g.
Proof.
  intros Ho. revert g. induction fuel as [|fuel IH]; intros g; [done|]. cbn [keepalive_loop]. apply mwp_bind. eapply mwp_mono; [by apply turn_spec|]. intros [] g' _. apply IH.
Qed.

(** ** Every interleaving *)

Definition is_renewal (ev : event eeff) : Prop := match ev with Ev (SetLeases _) _ => True | _ => False end.
Definition no_renewal (l : list (bool * event eeff)) : Prop := Forall (fun ev => ~ is_renewal ev) (loop_events l).

Definition turn_start : turn_view := mkTurnView None ∅ false.
Definition acks_start (b : EtcdDiscoveryBackend) : acks := mkAcks (leases b !! key) None true.

Definition call_ok (c : ecall) (r : py unit) (g : acks) : Prop := match c with CallPut value => put_ok value r g | CallDelete => True end.

Lemma call_spec c g : awp (call_program c) (call_ok c) g.
Proof. destruct c; [apply put_acks|]. eapply mwp_mono; [apply delete_acks|done]. Qed.

Section run.
Context (Horder : visits_once order) (b0 : EtcdDiscoveryBackend).

Abbreviation acked l := (observed ack_monitor (call_events l) (acks_start b0)).
Abbreviation turned l := (observed turn_monitor (loop_events l) turn_start).

Record registrar_inv (s : registrar) : Prop := {
  ri_permitted : permitted turn_monitor (loop_events (rg_log s)) turn_start;
  ri_loop : twp (rg_loop s) (fun _ _ => True) (turned (rg_log s));
  ri_failures : 0 <= consecutive_keepalive_failures (rg_backend s);
  ri_call : match rg_call s with
            | Some (c, p) => awp p (call_ok c) (acked (rg_log s))
            | None => match rg_result s with Some (c, r) => call_ok c r (acked (rg_log s)) | None => True end
            end;
  ri_kept : no_renewal (rg_log s) -> agrees (acked (rg_log s)) = true /\ kept (acked (rg_log s)) = leases (rg_backend s) !! key
}.

Lemma loop_events_snoc l w ev : loop_events (l ++ [(w, ev)]) = if w : bool then loop_events l ++ [ev] else loop_events l.
Proof. unfold loop_events. rewrite list.filter_app, fmap_app, filter_cons. destruct w; cbn; [done|apply app_nil_r]. Qed.

Lemma call_events_snoc l w ev : call_events (l ++ [(w, ev)]) = if w : bool then call_events l else call_events l ++ [ev].
Proof. unfold call_events. rewrite list.filter_app, fmap_app, filter_cons. destruct w; cbn; [apply app_nil_r|done]. Qed.

Lemma turn_permitted_snoc l X (e : eeff X) x g :
  permitted turn_monitor (l ++ [Ev e x]) g <-> permitted turn_monitor l g /\ turn_permits X e (observed turn_monitor l g).
Proof. revert g. induction l as [|[Y e' y] l IH]; intros g; cbn; [tauto|]. rewrite IH. cbn. tauto. Qed.

(** A call of the registrar knows its key's entry. *)
Lemma call_keeps X (e : eeff X) x b g :
  permits ack_monitor e g -> field_answer e x b -> agrees g = true -> kept g = leases b !! key ->
  agrees (observe_ack X e x g) = true /\ kept (observe_ack X e x g) = leases (field_after e b) !! key /\
  consecutive_keepalive_failures (field_after e b) = consecutive_keepalive_failures b.
Proof.
  intros Hp Hx Ha Hk. destruct b as [s a l r f], g as [kg sg ag]. cbn in Ha, Hk. subst ag kg.
  destruct e; try done; cbn in *; try (destruct x; by try destruct q); case_bool_decide as Hkey; try done; subst; cbn; rewrite ?bool_decide_true by done; try done.
  - by rewrite lookup_insert_eq.
  - by rewrite lookup_insert_ne.
  - by rewrite lookup_delete_eq.
  - by rewrite lookup_delete_ne.
Qed.

(** The loop leaves it alone, unless it takes new leases. *)
Lemma loop_keeps X (e : eeff X) b g : turn_permits X e g ->
  ((match e with SetLeases _ => True | _ => False end) \/ leases (field_after e b) = leases b) /\
  (0 <= consecutive_keepalive_failures b -> 0 <= consecutive_keepalive_failures (field_after e b)).
Proof. destruct b as [s a l r f]. destruct e; cbn; try tauto. Qed.

Lemma failures_kept X (e : eeff X) b : (forall g, permits ack_monitor e g) -> consecutive_keepalive_failures (field_after e b) = consecutive_keepalive_failures b.
Proof. intros H. specialize (H (mkAcks None None true)). destruct b. by destruct e. Qed.

Lemma registrar_inv_step s s' : registrar_inv s -> registrar_step s s' -> registrar_inv s'.
Proof.
  intros [H1 H2 H3 H4 H5] Hs. destruct Hs as [c b r p l|X e k x c b r p l Hx|c v b r p l|X e k x b c r l Hx]; cbn in *.
  - split; cbn; try done. apply call_spec.
  - destruct H4 as [Hp Hk]. specialize (Hk x I).
    assert (Hf : consecutive_keepalive_failures (field_after e b) = consecutive_keepalive_failures b) by (apply failures_kept; by destruct e).
    split; cbn [rg_log rg_loop rg_backend rg_call rg_result]; rewrite ?loop_events_snoc, ?call_events_snoc; try done.
    + by rewrite Hf.
    + unfold observed. rewrite fold_left_app. exact Hk.
    + unfold no_renewal. rewrite loop_events_snoc. intros Hn. destruct (H5 Hn) as [Ha Hkey]. unfold observed. rewrite fold_left_app.
      destruct (call_keeps X e x b _ Hp Hx Ha Hkey) as (A1 & A2 & _). by split.
  - split; cbn; try done.
  - destruct H2 as [Hp Hk]. destruct (loop_keeps X e b _ Hp) as [Hl Hf].
    assert (He : expects turn_monitor e x) by (destruct e; try done; cbn in *; by subst).
    split; cbn [rg_log rg_loop rg_backend rg_call rg_result]; rewrite ?loop_events_snoc, ?call_events_snoc; try done.
    + by apply turn_permitted_snoc.
    + unfold observed. rewrite fold_left_app. exact (Hk x He).
    + by apply Hf.
    + unfold no_renewal. rewrite loop_events_snoc. intros [Hn [Hev _]%Forall_cons_iff]%Forall_app. destruct (H5 Hn) as [Ha Hkey]. split; [done|].
      destruct Hl as [Hl| ->]; [|done]. destruct Hev. by destruct e.
Qed.

(** C14. In every interleaving of the registrar's calls, one at a time, with the keepalive loop,
    whatever the endpoints answer and however often the backend fails over: when the last call was
    a put that returned without an exception, and the loop has not replaced the leases by new ones,
    the last request about the key that etcd acknowledged stored this value under the lease that
    the dictionary has for the key. And the loop forgets its failures only when it has taken new
    leases, or when the dictionary has changed during the turn, or when a keepalive of every lease
    of the dictionary was answered with a good status in that turn. *)
Theorem registration_stays_leased fuel s :
  0 <= consecutive_keepalive_failures b0 -> rtc registrar_step (new_registrar b0 fuel) s ->
  (forall value, rg_call s = None -> rg_result s = Some (CallPut value, Value tt) -> no_renewal (rg_log s) ->
     exists lease, leases (rg_backend s) !! key = Some lease /\ stored_under (acked (rg_log s)) = Some (value, lease)) /\
  permitted turn_monitor (loop_events (rg_log s)) turn_start.
Proof.
  intros H0 H. assert (Hi : registrar_inv s).
  { eapply (rtc_ind_r registrar_inv); [|intros ? ? _ Hst Hi; by eapply registrar_inv_step|exact H]. split; try done. by apply keepalive_loop_spec. }
  destruct Hi as [H1 _ _ H4 H5]. split; [|exact H1]. intros value Hc Hr Hn. rewrite Hc, Hr in H4. destruct (H5 Hn) as [Ha Hk].
  destruct (H4 Ha) as (lease & Hl & Hs). exists lease. split; [congruence|exact Hs].
Qed.

(** [_recover_leases] takes new leases and puts no key under them: what is stored stays
    under the old ones, which are refreshed no more. *)
Theorem recovery_leaves_keys l o g : trace (recover_leases order) l o -> expected turn_monitor l -> permitted turn_monitor l g.
Proof. intros Ht Hl. by apply (mwp_trace turn_monitor _ (fun _ _ => True) g l o (recover_spec g) Ht Hl). Qed.

End run.
End backend.
End etcd_backend.
Arguments HttpOk {A} a.
Arguments ClientConnectionError {A} e.
Arguments HttpError {A} e.
Arguments Value {A} a.
Arguments Raise {A} e.

(** ** A registration with a failover *)

Definition example_backend : EtcdDiscoveryBackend := mkEtcdBackend true (Some "http://etcd-0:2379") ∅ true 0.
Definition example_endpoints : list string := ["etcd-0:2379"; "etcd-1:2379"].
Abbreviation example_step := (registrar_step (bytes := string) 60 example_endpoints "llumnix/discovery/a").
Abbreviation example_registrar := (new_registrar (bytes := string) 60 example_endpoints elements example_backend 1).

Ltac client_gets v := eapply rtc_l; [eapply call_acts with (x := v); reflexivity|].
Ltac loop_gets v := eapply rtc_l; [eapply loop_acts with (x := v); reflexivity|].

Definition example_leases : gmap string Z := {["llumnix/discovery/a" := 7]}.

Lemma example_dict : bool_decide (example_leases = ∅) = false /\ omap (fun k => example_leases !! k) (elements (dom example_leases)) = [7] /\
  bool_decide (size example_leases <> size example_leases) = false /\ bool_decide (example_leases = example_leases) = true.
Proof. vm_compute. done. Qed.

(** The first endpoint cannot be reached; the loop refreshes the lease after the put. *)
Lemma registration_stays_leased_witness : exists s, rtc example_step example_registrar s /\
  consecutive_keepalive_failures (rg_backend s) = 0 /\ active_endpoint (rg_backend s) = Some "http://etcd-1:2379" /\
  exists lease, leases (rg_backend s) !! "llumnix/discovery/a" = Some lease /\
    stored_under (observed (ack_monitor "llumnix/discovery/a") (call_events (rg_log s)) (acks_start "llumnix/discovery/a" example_backend)) = Some ("value", lease).
Proof.
  assert (Hr : exists s, rtc example_step example_registrar s /\ consecutive_keepalive_failures (rg_backend s) = 0 /\
    active_endpoint (rg_backend s) = Some "http://etcd-1:2379" /\ rg_call s = None /\ rg_result s = Some (CallPut "value", Value tt) /\
    no_renewal (rg_log s)).
  { eexists. split.
    { eapply rtc_l; [apply (call_begins 60 example_endpoints "llumnix/discovery/a" (CallPut "value"))|].
      client_gets true. client_gets (Some "http://etcd-0:2379"). client_gets (None (A := Z)). client_gets (Some "http://etcd-0:2379").
      client_gets (ClientConnectionError (A := unit) "refused"). client_gets (Some "http://etcd-0:2379"). client_gets (Some "http://etcd-0:2379").
      client_gets (HttpOk tt). client_gets tt. client_gets (HttpOk 7). client_gets tt. client_gets (Some "http://etcd-1:2379"). client_gets (HttpOk tt). client_gets (HttpOk tt).
      eapply rtc_l; [apply call_returns|].
      loop_gets tt. loop_gets example_leases. cbn [prog_bind]. rewrite (proj1 example_dict), (proj1 (proj2 example_dict)).
      loop_gets (Some "http://etcd-1:2379"). loop_gets (HttpOk tt). loop_gets (HttpOk (Some 60)). loop_gets example_leases.
      cbn [prog_bind]. rewrite (proj1 (proj2 (proj2 example_dict))), (proj2 (proj2 (proj2 example_dict))). loop_gets tt. apply rtc_refl. }
    split_and!; try reflexivity. repeat apply Forall_cons_2; try apply Forall_nil_2; intros []. }
  destruct Hr as (s & Hr & H1 & H2 & H3 & H4 & H5). exists s. split; [exact Hr|]. split; [exact H1|]. split; [exact H2|].
  assert (Ho : visits_once elements) by (by intros t).
  exact (proj1 (registration_stays_leased 60 example_endpoints elements "llumnix/discovery/a" Ho example_backend 1 s ltac:(done) Hr) "value" H3 H4 H5).
Defined.
