(* ===== verification/Sha256.v ===== *)
(** * SHA-256 and hexadecimal

    [crypto/sha256] and [encoding/hex] as the hasher uses them. Bytes are integers in
    [[0, 256)] and words integers in [[0, 2^32)]. *)

From Stdlib Require Import Ascii.
From stdpp Require Import base list strings numbers.
From S2P Require Import Prelude GoStrings.

Local Open Scope Z_scope.

Definition word (z : Z) : Z := z mod 2 ^ 32.
Definition byte_ok (z : Z) : bool := bool_decide (0 <= z < 256).

Definition rotr (n x : Z) : Z := Z.lor (Z.shiftr x n) (word (Z.shiftl x (32 - n))).
Definition wnot (x : Z) : Z := Z.lxor x (2 ^ 32 - 1).

Definition Ch (x y z : Z) : Z := Z.lxor (Z.land x y) (Z.land (wnot x) z).
Definition Maj (x y z : Z) : Z := Z.lxor (Z.lxor (Z.land x y) (Z.land x z)) (Z.land y z).
Definition Sigma0 (x : Z) : Z := Z.lxor (Z.lxor (rotr 2 x) (rotr 13 x)) (rotr 22 x).
Definition Sigma1 (x : Z) : Z := Z.lxor (Z.lxor (rotr 6 x) (rotr 11 x)) (rotr 25 x).
Definition sigma0 (x : Z) : Z := Z.lxor (Z.lxor (rotr 7 x) (rotr 18 x)) (Z.shiftr x 3).
Definition sigma1 (x : Z) : Z := Z.lxor (Z.lxor (rotr 17 x) (rotr 19 x)) (Z.shiftr x 10).

(** The constants of the standard: the first 32 bits of the fractional parts of the square roots
    of the first eight primes, and of the cube roots of the first 64. *)
Definition is_prime (n : Z) : bool := forallb (fun d => negb (bool_decide (n mod Z.of_nat d = 0))) (seq 2 (Z.to_nat n - 2)).
Definition primes (bound : nat) : list Z := List.filter is_prime (map Z.of_nat (seq 2 (bound - 2))).

(** The integer part of the cube root of [n], of which [r] is a lower bound, bit by bit. *)
Fixpoint cube_root (bits : nat) (n r : Z) : Z :=
  match bits with
  | O => r
  | S bits => let r' := r + 2 ^ Z.of_nat bits in cube_root bits n (if r' * r' * r' <=? n then r' else r)
  end.

Definition K256 : list Z := Eval vm_compute in map (fun p => word (cube_root 36 (p * 2 ^ 96) 0)) (primes 312).
Definition H256 : list Z := Eval vm_compute in map (fun p => word (Z.sqrt (p * 2 ^ 64))) (primes 20).

Record sha_state := mkSha { sa : Z; sb : Z; sc : Z; sd : Z; se : Z; sf : Z; sg : Z; sh : Z }.

Definition sha_init : sha_state :=
  let h i := nth i H256 0 in mkSha (h 0%nat) (h 1%nat) (h 2%nat) (h 3%nat) (h 4%nat) (h 5%nat) (h 6%nat) (h 7%nat).

Definition sha_round (s : sha_state) (kw : Z * Z) : sha_state :=
  let t1 := word (sh s + Sigma1 (se s) + Ch (se s) (sf s) (sg s) + kw.1 + kw.2) in
  let t2 := word (Sigma0 (sa s) + Maj (sa s) (sb s) (sc s)) in
  mkSha (word (t1 + t2)) (sa s) (sb s) (sc s) (word (sd s + t1)) (se s) (sf s) (sg s).

(** The message schedule: [w] holds the words so far, the latest first. *)
Fixpoint schedule_words (n : nat) (w : list Z) : list Z :=
  match n with
  | O => w
  | S n => schedule_words n (word (sigma1 (nth 1 w 0) + nth 6 w 0 + sigma0 (nth 14 w 0) + nth 15 w 0) :: w)
  end.

Fixpoint be_words (l : list Z) : list Z :=
  match l with
  | a :: b :: c :: d :: l => (a * 2 ^ 24 + b * 2 ^ 16 + c * 2 ^ 8 + d) :: be_words l
  | _ => []
  end.

Definition sha_block (s : sha_state) (block : list Z) : sha_state :=
  let w := rev (schedule_words 48 (rev (be_words block))) in
  let r := fold_left sha_round (zip K256 w) s in
  mkSha (word (sa s + sa r)) (word (sb s + sb r)) (word (sc s + sc r)) (word (sd s + sd r))
        (word (se s + se r)) (word (sf s + sf r)) (word (sg s + sg r)) (word (sh s + sh r)).

Definition be_bytes (n : nat) (z : Z) : list Z := map (fun i => Z.shiftr z (8 * Z.of_nat i) mod 256) (rev (seq 0 n)).

Definition sha_pad (msg : list Z) : list Z :=
  let n := length msg in
  let zeros := Z.to_nat ((55 - Z.of_nat n) mod 64) in
  msg ++ [128] ++ repeat 0 zeros ++ be_bytes 8 (8 * Z.of_nat n).

Fixpoint sha_blocks (n : nat) (s : sha_state) (msg : list Z) : sha_state :=
  match n with
  | O => s
  | S n => sha_blocks n (sha_block s (take 64 msg)) (drop 64 msg)
  end.

Definition Sum256 (msg : list Z) : list Z :=
  let m := sha_pad msg in
  let s := sha_blocks (length m / 64)%nat sha_init m in
  concat (map (be_bytes 4) [sa s; sb s; sc s; sd s; se s; sf s; sg s; sh s]).

Lemma be_bytes_length n z : length (be_bytes n z) = n.
Proof. unfold be_bytes. by rewrite length_map, length_rev, length_seq. Qed.

Lemma be_bytes_ok n z : Forall (fun b => byte_ok b = true) (be_bytes n z).
Proof.
  unfold be_bytes. apply Forall_forall. intros b Hb. apply in_map_iff in Hb as (i & <- & _).
  apply bool_decide_eq_true. apply Z.mod_pos_bound. lia.
Qed.

Lemma Sum256_length msg : length (Sum256 msg) = 32%nat.
Proof. unfold Sum256. cbn [map concat]. rewrite !length_app, !be_bytes_length. done. Qed.

Lemma Sum256_ok msg : Forall (fun b => byte_ok b = true) (Sum256 msg).
Proof. unfold Sum256. cbn [map concat]. repeat (apply Forall_app; split; [apply be_bytes_ok|]). constructor. Qed.

(** ** encoding/hex *)

Definition hex_digit (n : Z) : ascii := ascii_of_nat (Z.to_nat (if bool_decide (n < 10) then 48 + n else 87 + n)).

Definition from_hex_digit (c : ascii) : option Z :=
  let n := Z.of_nat (nat_of_ascii c) in
  if bool_decide (48 <= n <= 57) then Some (n - 48)
  else if bool_decide (97 <= n <= 102) then Some (n - 87)
  else if bool_decide (65 <= n <= 70) then Some (n - 55) else None.

Fixpoint EncodeToString (l : list Z) : string :=
  match l with
  | [] => ""
  | b :: l => String (hex_digit (b / 16)) (String (hex_digit (b mod 16)) (EncodeToString l))
  end.

(** [None] for an odd length or a character that is no digit. *)
Fixpoint DecodeString (s : string) : option (list Z) :=
  match s with
  | EmptyString => Some []
  | String c (String d s) => x ← from_hex_digit c; y ← from_hex_digit d; l ← DecodeString s; Some (16 * x + y :: l)
  | String _ EmptyString => None
  end.

Lemma from_hex_digit_hex n : 0 <= n < 16 -> from_hex_digit (hex_digit n) = Some n.
Proof.
  intros Hn. assert (Hall : forallb (fun k => bool_decide (from_hex_digit (hex_digit (Z.of_nat k)) = Some (Z.of_nat k))) (seq 0 16) = true) by reflexivity.
  rewrite forallb_forall in Hall. specialize (Hall (Z.to_nat n)). rewrite Z2Nat.id in Hall by lia.
  eapply bool_decide_eq_true, Hall, in_seq. lia.
Qed.

Lemma Decode_Encode l : Forall (fun b => byte_ok b = true) l -> DecodeString (EncodeToString l) = Some l.
Proof.
  induction 1 as [|b l Hb _ IH]; [done|]. apply bool_decide_eq_true in Hb. cbn [EncodeToString DecodeString].
  rewrite !from_hex_digit_hex by (split; [apply Z.div_pos || apply Z.mod_pos_bound|apply Z.div_lt_upper_bound || apply Z.mod_pos_bound]; lia).
  cbn. rewrite IH. cbn. f_equal. f_equal. pose proof (Z.div_mod b 16). lia.
Qed.

(** The digest of three bytes that the standard gives. *)
Example Sum256_abc :
  EncodeToString (Sum256 [97; 98; 99]) = "ba7816bf8f01cfea414140de5dae2223b00361a396177a9cb410ff61f20015ad".
Proof. vm_compute. reflexivity. Qed.

Example Sum256_two_blocks :
  EncodeToString (Sum256 (repeat 97 64)) = "ffe054fe7ae0cb6dc65c3af9b61d5209f439851db43d0ba5997337df154668eb".
Proof. vm_compute. reflexivity. Qed.
