(* ===== verification/Hasher.v ===== *)
(** * Hashing the blocks of a prompt

    [pkg/scheduler/hasher]: the keys under which the KV store keeps the blocks of a prompt.
    Each key depends on its block and on all blocks before it. CBOR and xxHash come from
    libraries and are arguments. *)

From stdpp Require Import base gmap list strings pretty numbers.
From S2P Require Import Prelude GoStrings Types Sha256.

Local Open Scope Z_scope.

(** ** hash_func.go *)

Definition le_bytes (n : nat) (z : Z) : list Z := map (fun i => Z.shiftr z (8 * Z.of_nat i) mod 256) (seq 0 n).

Definition in_uint32 (t : Z) : bool := bool_decide (0 <= t <= 2 ^ 32 - 1).

(** The bytes a block adds to the hash. *)
Definition token_bytes (tokens : list Z) : list Z := flat_map (le_bytes 4) tokens.

Definition prior_bytes (priorHex : string) : result (list Z) :=
  if bool_decide (priorHex = "") then Ok [] else
  match DecodeString priorHex with
  | None => Err (ErrorOther "invalid prior_hash hex")
  | Some bytes => if bool_decide (length bytes = 32%nat) then Ok bytes else Err (ErrorOther "prior_hash must decode to 32 bytes")
  end.

Definition HashBlockSha256Hex (tokens : list Z) (priorHex : string) : result string :=
  match prior_bytes priorHex with
  | Err e => Err e
  | Ok prior =>
      if forallb in_uint32 tokens then Ok (EncodeToString (Sum256 (prior ++ token_bytes tokens)))
      else Err (ErrorOther "token out of uint32 range")
  end.

(** What [Sha256CBOR] is given: the seed, or the list of the prior hash, a block and nil. *)
Inductive cbor_value := CborSeed (s : string) | CborBlock (prior : list Z) (tokens : list Z).

Section hasher.
Context (cbor_Marshal : cbor_value -> option (list Z)) (xxhash64 : list Z -> Z).

Definition Sha256CBOR (v : cbor_value) : result (list Z) :=
  match cbor_Marshal v with Some b => Ok (Sum256 b) | None => Err (ErrorOther "cbor") end.

Definition chunk_at (tokens : list Z) (chunkSize i : nat) : list Z := take chunkSize (drop (i * chunkSize) tokens).

(** The bytes that are written to the xxHash state by [tokens], as [int64]s. *)
Definition int64_bytes (tokens : list Z) : list Z := flat_map (le_bytes 8) tokens.

(** The state keeps all bytes written; [Sum64] hashes them. *)
Definition HashTokensXxhash (tokens : list Z) (chunkSize : Z) (saveUnfullChunk : bool) : list Z :=
  if bool_decide (tokens = []) || bool_decide (chunkSize <= 0) then [] else
  let c := Z.to_nat chunkSize in
  let numCompleteBlocks := (length tokens / c)%nat in
  let remainder := (length tokens mod c)%nat in
  let '(written, blockHashes) :=
    fold_left (fun '(written, hashes) i =>
      let written := written ++ int64_bytes (chunk_at tokens c i) in (written, hashes ++ [xxhash64 written]))
      (seq 0 numCompleteBlocks) ([], []) in
  if saveUnfullChunk && bool_decide (0 < remainder)%nat then
    let written := written ++ int64_bytes (drop (numCompleteBlocks * c) tokens) ++ int64_bytes (repeat 0 (c - remainder)) in
    blockHashes ++ [xxhash64 written]
  else blockHashes.

(** ** token_hasher.go *)

Inductive hashAlgo := Sha256Hex | Sha256Cbor | Xxhash.

Definition NewTokenHasher (algo : string) : result hashAlgo :=
  if bool_decide (algo = "sha256_hex") then Ok Sha256Hex
  else if bool_decide (algo = "sha256_cbor") then Ok Sha256Cbor
  else if bool_decide (algo = "xxhash") then Ok Xxhash
  else Err (ErrorOther ("unsupported hash algorithm: " +:+ algo)).

(** A loop over blocks that carries the hash of the prefix: the keys of blocks [i] to
    [i + n - 1], and the last hash. *)
Fixpoint block_loop {P} (step : list Z -> P -> result (string * P)) (tokens : list Z) (c i n : nat) (prefix : P) : result (list string * P) :=
  match n with
  | O => Ok ([], prefix)
  | S n =>
      match step (chunk_at tokens c i) prefix with
      | Err e => Err e
      | Ok (key, prefix) =>
          match block_loop step tokens c (S i) n prefix with
          | Err e => Err e
          | Ok (keys, prefix) => Ok (key :: keys, prefix)
          end
      end
  end.

Definition hex_step (chunk : list Z) (prefixHash : string) : result (string * string) :=
  match HashBlockSha256Hex chunk prefixHash with Ok h => Ok (h, h) | Err e => Err e end.

Definition hashTokensSha256Hex (tokens : list Z) (c : nat) (saveUnfullChunk : bool) : result (list string) :=
  let numCompleteBlocks := (length tokens / c)%nat in
  let remainder := (length tokens mod c)%nat in
  match block_loop hex_step tokens c 0 numCompleteBlocks "" with
  | Err e => Err e
  | Ok (blockHashes, prefixHash) =>
      if saveUnfullChunk && bool_decide (0 < remainder)%nat then
        match HashBlockSha256Hex (drop (numCompleteBlocks * c) tokens) prefixHash with
        | Err e => Err e
        | Ok h => Ok (blockHashes ++ [h +:+ "_0"])
        end
      else Ok blockHashes
  end.

Definition cbor_step (chunk : list Z) (prefixHash : list Z) : result (string * list Z) :=
  match Sha256CBOR (CborBlock prefixHash chunk) with Ok d => Ok (EncodeToString d +:+ "_0", d) | Err e => Err e end.

(** [seed] is the environment variable [GO_HASH_SEED]. *)
Definition hashTokensSha256CBOR (seed : option string) (tokens : list Z) (c : nat) (saveUnfullChunk : bool) : result (list string) :=
  let numCompleteBlocks := (length tokens / c)%nat in
  let remainder := (length tokens mod c)%nat in
  let totalBlocks := if bool_decide (0 < remainder)%nat && saveUnfullChunk then S numCompleteBlocks else numCompleteBlocks in
  if bool_decide (totalBlocks = 0%nat) then Ok [] else
  let seed := match seed with Some s => if bool_decide (s = "") then "0" else s | None => "0" end in
  match Sha256CBOR (CborSeed seed) with
  | Err e => Err e
  | Ok prefixHash =>
      match block_loop cbor_step tokens c 0 totalBlocks prefixHash with
      | Err e => Err e
      | Ok (keys, _) => Ok keys
      end
  end.

Definition buildBlockName (irisMetaPrefix vLLMBlockPrefix : string) (hash : Z) : string := irisMetaPrefix +:+ vLLMBlockPrefix +:+ Itoa hash.

Definition HashTokens (h : hashAlgo) (seed : option string) (tokens : list Z) (chunkSize : Z) (saveUnfullChunk : bool) (irisMetaPrefix vLLMBlockPrefix : string)
    : result (list string) :=
  if bool_decide (tokens = []) || bool_decide (chunkSize <= 0) then Err (ErrorOther "invalid hash input") else
  let c := Z.to_nat chunkSize in
  match h with
  | Sha256Hex => hashTokensSha256Hex tokens c saveUnfullChunk
  | Sha256Cbor => hashTokensSha256CBOR seed tokens c saveUnfullChunk
  | Xxhash => Ok (map (buildBlockName irisMetaPrefix vLLMBlockPrefix) (HashTokensXxhash tokens chunkSize saveUnfullChunk))
  end.

(** ** Blocks *)

Definition full_blocks (tokens : list Z) (c : nat) : list (list Z) := map (chunk_at tokens c) (seq 0 (length tokens / c)).

Lemma chunk_at_app pre x c i k : length pre = (k * c)%nat -> (i < k)%nat -> chunk_at (pre ++ x) c i = chunk_at pre c i.
Proof.
  intros Hl Hi. unfold chunk_at. assert ((i * c + c <= k * c)%nat) by nia.
  rewrite drop_app_le by lia. rewrite take_app_le; [done|]. rewrite length_drop. lia.
Qed.

(** Two loops that read the same blocks give the same keys. *)
Lemma block_loop_prefix {P} (step : list Z -> P -> result (string * P)) t1 t2 c i k n1 n2 p keys1 keys2 p1 p2 :
  (forall j, (i <= j < i + k)%nat -> chunk_at t1 c j = chunk_at t2 c j) ->
  block_loop step t1 c i (k + n1) p = Ok (keys1, p1) -> block_loop step t2 c i (k + n2) p = Ok (keys2, p2) ->
  take k keys1 = take k keys2.
Proof.
  revert i p keys1 keys2 p1 p2. induction k as [|k IH]; intros i p keys1 keys2 p1 p2 Hc; [done|]. cbn [Nat.add block_loop].
  rewrite (Hc i) by lia. destruct (step (chunk_at t2 c i) p) as [[key p']|]; [|done].
  destruct (block_loop step t1 c (S i) (k + n1) p') as [[k1 q1]|] eqn:E1; [|done].
  destruct (block_loop step t2 c (S i) (k + n2) p') as [[k2 q2]|] eqn:E2; [|done].
  intros [= <- _] [= <- _]. cbn. f_equal. eapply (IH (S i)); [|exact E1|exact E2]. intros j Hj. apply Hc. lia.
Qed.

Lemma block_loop_length {P} (step : list Z -> P -> result (string * P)) t c i n p keys p' :
  block_loop step t c i n p = Ok (keys, p') -> length keys = n.
Proof.
  revert i p keys p'. induction n as [|n IH]; intros i p keys p'; cbn [block_loop]; [by intros [= <- _]|].
  destruct (step _ _) as [[key q]|]; [|done]. destruct (block_loop step t c (S i) n q) as [[ks q']|] eqn:E; [|done].
  intros [= <- _]. cbn. f_equal. by eapply IH.
Qed.

(** The bytes of the first blocks. *)
Definition written_up_to (tokens : list Z) (c n : nat) : list Z := flat_map (fun i => int64_bytes (chunk_at tokens c i)) (seq 0 n).

Lemma xxhash_fold tokens c n :
  fold_left (fun '(written, hashes) i =>
      let written := written ++ int64_bytes (chunk_at tokens c i) in (written, hashes ++ [xxhash64 written])) (seq 0 n) ([], [])
  = (written_up_to tokens c n, map (fun j => xxhash64 (written_up_to tokens c (S j))) (seq 0 n)).
Proof.
  induction n as [|n IH]; [done|]. rewrite seq_S, fold_left_app, IH, map_app. cbn [fold_left Nat.add map].
  assert (written_up_to tokens c (S n) = written_up_to tokens c n ++ int64_bytes (chunk_at tokens c n)) as ->; [|done].
  unfold written_up_to. rewrite seq_S, flat_map_app. cbn. by rewrite app_nil_r.
Qed.

Lemma take_map_seq {A} (f : nat -> A) k n : (k <= n)%nat -> take k (map f (seq 0 n)) = map f (seq 0 k).
Proof.
  intros Hk. replace n with (k + (n - k))%nat by lia. rewrite seq_app, map_app.
  rewrite take_app_le by (rewrite length_map, length_seq; lia). rewrite take_ge; [done|]. rewrite length_map, length_seq. lia.
Qed.

Lemma xxhash_prefix pre x c k save :
  (0 < c)%nat -> length pre = (k * c)%nat -> (0 < k)%nat ->
  take k (HashTokensXxhash (pre ++ x) (Z.of_nat c) save) = map (fun j => xxhash64 (written_up_to pre c (S j))) (seq 0 k).
Proof.
  intros Hc Hl Hk. unfold HashTokensXxhash. rewrite Nat2Z.id. assert (Hpre : pre <> []) by (intros ->; cbn in Hl; nia).
  rewrite !bool_decide_false by (lia || by intros [? _]%app_nil). cbn [orb]. rewrite xxhash_fold.
  assert (Hn : (k <= length (pre ++ x) / c)%nat) by (apply Nat.div_le_lower_bound; [lia|]; rewrite length_app; lia).
  set (n := (length (pre ++ x) / c)%nat) in *. set (l := map _ (seq 0 n)).
  assert (Hlen : length l = n) by (unfold l; by rewrite length_map, length_seq).
  transitivity (take k l).
  { destruct (_ && _); [|done]. apply take_app_le. lia. }
  unfold l. rewrite take_map_seq by done. apply map_ext_in. intros j Hj%in_seq. f_equal. unfold written_up_to.
  apply flat_map_ext_elem. intros i Hi%list_elem_of_In%in_seq. f_equal. eapply chunk_at_app; [exact Hl|lia].
Qed.

Lemma hex_prefix t1 t2 c k m1 m2 save1 save2 keys1 keys2 :
  (length t1 / c = k + m1)%nat -> (length t2 / c = k + m2)%nat ->
  (forall j, (0 <= j < 0 + k)%nat -> chunk_at t1 c j = chunk_at t2 c j) ->
  hashTokensSha256Hex t1 c save1 = Ok keys1 -> hashTokensSha256Hex t2 c save2 = Ok keys2 -> take k keys1 = take k keys2.
Proof.
  intros E1 E2 Hsame H1 H2.
  assert (Hloop : forall t m save keys, (length t / c = k + m)%nat -> hashTokensSha256Hex t c save = Ok keys ->
            exists l p, block_loop hex_step t c 0 (k + m) "" = Ok (l, p) /\ take k keys = take k l).
  { intros t m save keys E Hh. unfold hashTokensSha256Hex in Hh. rewrite E in Hh.
    destruct (block_loop hex_step t c 0 (k + m) "") as [[l p]|] eqn:L; [|done]. exists l, p. split; [done|].
    apply block_loop_length in L. destruct (save && _); [|by injection Hh as <-].
    destruct (HashBlockSha256Hex _ _); [|done]. injection Hh as <-. apply take_app_le. lia. }
  destruct (Hloop t1 m1 save1 keys1 E1 H1) as (l1 & p1 & L1 & ->), (Hloop t2 m2 save2 keys2 E2 H2) as (l2 & p2 & L2 & ->).
  exact (block_loop_prefix _ _ _ _ _ _ _ _ _ _ _ _ _ Hsame L1 L2).
Qed.

Lemma cbor_prefix seed t1 t2 c k m1 m2 save1 save2 keys1 keys2 :
  (0 < k)%nat -> (length t1 / c = k + m1)%nat -> (length t2 / c = k + m2)%nat ->
  (forall j, (0 <= j < 0 + k)%nat -> chunk_at t1 c j = chunk_at t2 c j) ->
  hashTokensSha256CBOR seed t1 c save1 = Ok keys1 -> hashTokensSha256CBOR seed t2 c save2 = Ok keys2 -> take k keys1 = take k keys2.
Proof.
  intros Hk E1 E2 Hsame H1 H2. unfold hashTokensSha256CBOR in H1, H2. set (s := match seed with Some _ => _ | None => _ end) in *.
  assert (Hloop : forall t m (save : bool) keys, (length t / c = k + m)%nat ->
    (let totalBlocks := if bool_decide (0 < length t mod c)%nat && save then S (length t / c) else (length t / c)%nat in
     if bool_decide (totalBlocks = 0%nat) then Ok [] else
     match Sha256CBOR (CborSeed s) with
     | Ok p => match block_loop cbor_step t c 0 totalBlocks p with Ok (keys, _) => Ok keys | Err e => Err e end
     | Err e => Err e
     end) = Ok keys ->
    exists d p d', Sha256CBOR (CborSeed s) = Ok p /\ block_loop cbor_step t c 0 (k + d) p = Ok (keys, d')).
  { intros t m save keys E Hh. cbn zeta in Hh. rewrite E in Hh.
    assert (exists d, (if bool_decide (0 < length t mod c)%nat && save then S (k + m) else (k + m)%nat) = (k + d)%nat) as [d Ed]
      by (destruct (bool_decide (0 < length t mod c)%nat && save); [exists (S m)|exists m]; lia).
    rewrite Ed in Hh. rewrite bool_decide_false in Hh by lia. destruct (Sha256CBOR _) as [p|]; [|done].
    destruct (block_loop cbor_step t c 0 (k + d) p) as [[l p']|] eqn:L; [|done]. injection Hh as <-. eauto 6. }
  destruct (Hloop t1 m1 save1 keys1 E1 H1) as (d1 & p1 & d1' & P1 & L1), (Hloop t2 m2 save2 keys2 E2 H2) as (d2 & p2 & d2' & P2 & L2).
  rewrite P1 in P2. injection P2 as <-. exact (block_loop_prefix _ _ _ _ _ _ _ _ _ _ _ _ _ Hsame L1 L2).
Qed.

(** Prompts that begin alike have the same first keys: when two prompts share their
    first [k] blocks, the first [k] keys agree, for every algorithm, with and without a
    key for the incomplete block at the end. *)
Theorem shared_prefix_shared_keys h seed pre x y c k save1 save2 iris vllm keys1 keys2 :
  (0 < c)%nat -> length pre = (k * c)%nat ->
  HashTokens h seed (pre ++ x) (Z.of_nat c) save1 iris vllm = Ok keys1 ->
  HashTokens h seed (pre ++ y) (Z.of_nat c) save2 iris vllm = Ok keys2 ->
  take k keys1 = take k keys2.
Proof.
  intros Hc Hl H1 H2. destruct (decide (k = 0%nat)) as [->|Hk]; [done|].
  assert (Hne : pre <> []) by (intros ->; cbn in Hl; nia).
  unfold HashTokens in H1, H2. rewrite !bool_decide_false in H1, H2 by (lia || by intros [? _]%app_nil). cbn [orb] in H1, H2.
  rewrite Nat2Z.id in *.
  assert (Hn : forall z, exists m, (length (pre ++ z) / c = k + m)%nat).
  { intros z. exists (length (pre ++ z) / c - k)%nat. assert ((k <= length (pre ++ z) / c)%nat); [|lia].
    apply Nat.div_le_lower_bound; [lia|]. rewrite length_app. lia. }
  assert (Hsame : forall j, (0 <= j < 0 + k)%nat -> chunk_at (pre ++ x) c j = chunk_at (pre ++ y) c j).
  { intros j Hj. by rewrite !(chunk_at_app pre _ c j k) by (done || lia). }
  destruct (Hn x) as [m1 E1], (Hn y) as [m2 E2]. destruct h.
  - exact (hex_prefix _ _ _ _ _ _ _ _ _ _ E1 E2 Hsame H1 H2).
  - exact (cbor_prefix seed _ _ c k _ _ _ _ _ _ ltac:(lia) E1 E2 Hsame H1 H2).
  - injection H1 as <-. injection H2 as <-. rewrite !firstn_map. by rewrite !xxhash_prefix by lia.
Qed.

End hasher.
