(* ===== verification/HasherSpec.v ===== *)
(** * The prefix cache finds the common prefix

    The keys of a prompt identify its blocks and everything before them, so what the
    scheduler counts as cached on an instance is the prefix that the prompt shares with
    what the instance stores. *)

From stdpp Require Import base gmap sets list strings numbers.
From S2P Require Import Prelude GoStrings Types Sha256 Hasher Lrs Metrics PrefixCache.

Local Open Scope Z_scope.

(** ** The hash of a list of blocks *)

Definition digest (blocks : list (list Z)) : list Z := fold_left (fun prior b => Sum256 (prior ++ token_bytes b)) blocks [].

Definition block_key (blocks : list (list Z)) : string := EncodeToString (digest blocks).

(** What is hashed for each block. *)
Definition inputs (blocks : list (list Z)) : list (list Z) :=
  map (fun k => digest (take k blocks) ++ token_bytes (nth k blocks [])) (seq 0 (length blocks)).

Lemma digest_snoc blocks b : digest (blocks ++ [b]) = Sum256 (digest blocks ++ token_bytes b).
Proof. unfold digest. by rewrite fold_left_app. Qed.

Lemma digest_length blocks : blocks <> [] -> length (digest blocks) = 32%nat.
Proof. destruct blocks as [|b blocks _] using rev_ind; [done|]. intros _. rewrite digest_snoc. apply Sum256_length. Qed.

Lemma take_S_nth {A} (l : list A) k d : (k < length l)%nat -> take (S k) l = take k l ++ [nth k l d].
Proof. revert k. induction l as [|a l IH]; intros [|k] Hk; cbn in *; [lia|lia|done|]. by rewrite IH by lia. Qed.

Lemma digest_take blocks k : (k < length blocks)%nat -> digest (take (S k) blocks) = Sum256 (digest (take k blocks) ++ token_bytes (nth k blocks [])).
Proof. intros Hk. by rewrite (take_S_nth _ _ []), digest_snoc. Qed.

Lemma prior_bytes_key blocks : prior_bytes (if bool_decide (blocks = []) then "" else block_key blocks) = Ok (digest blocks).
Proof.
  unfold prior_bytes. destruct blocks as [|b blocks _] using rev_ind; [done|].
  rewrite (bool_decide_false (blocks ++ [b] = [])) by (by intros [_ ?]%app_nil). unfold block_key. rewrite digest_snoc.
  set (d := Sum256 _). assert (Hd : d <> []) by (intros E; by apply (f_equal length) in E; unfold d in E; rewrite Sum256_length in E).
  rewrite bool_decide_false by (by destruct d). rewrite Decode_Encode by apply Sum256_ok.
  rewrite bool_decide_true; [done|]. apply Sum256_length.
Qed.

Lemma chunk_at_in tokens c i : forallb in_uint32 tokens = true -> forallb in_uint32 (chunk_at tokens c i) = true.
Proof.
  rewrite !forallb_forall. intros Hok t Ht. apply Hok. rewrite <- (take_drop (i * c) tokens). apply in_app_iff. right.
  rewrite <- (take_drop c (drop (i * c) tokens)). apply in_app_iff. by left.
Qed.

(** The keys that the loop of [hashTokensSha256Hex] computes. *)
Lemma hex_loop_keys tokens c blocks i n :
  blocks = full_blocks tokens c -> (i + n <= length blocks)%nat -> forallb in_uint32 tokens = true ->
  exists p, block_loop hex_step tokens c i n (if bool_decide (take i blocks = []) then "" else block_key (take i blocks))
    = Ok (map (fun k => block_key (take (S k) blocks)) (seq i n), p).
Proof.
  intros Hb. revert i. induction n as [|n IH]; intros i Hi Hok; [eauto|]. cbn [block_loop seq map].
  assert (Hch : chunk_at tokens c i = nth i blocks []).
  { subst blocks. unfold full_blocks in *. rewrite length_map, length_seq in Hi.
    rewrite (nth_indep _ [] (chunk_at tokens c 0)) by (rewrite length_map, length_seq; lia).
    rewrite map_nth, seq_nth by lia. done. }
  assert (Hstep : hex_step (chunk_at tokens c i) (if bool_decide (take i blocks = []) then "" else block_key (take i blocks))
            = Ok (block_key (take (S i) blocks), block_key (take (S i) blocks))).
  { unfold hex_step, HashBlockSha256Hex. rewrite prior_bytes_key, (chunk_at_in tokens c i Hok), Hch. unfold block_key. by rewrite digest_take by lia. }
  rewrite Hstep. destruct (IH (S i)) as [p Hp]; [lia|done|].
  rewrite bool_decide_false in Hp by (destruct blocks; cbn in *; [lia|done]). rewrite Hp. eauto.
Qed.

Lemma full_blocks_length tokens c : length (full_blocks tokens c) = (length tokens / c)%nat.
Proof. unfold full_blocks. by rewrite length_map, length_seq. Qed.

Lemma hex_keys tokens c :
  forallb in_uint32 tokens = true ->
  hashTokensSha256Hex tokens c false = Ok (map (fun k => block_key (take (S k) (full_blocks tokens c))) (seq 0 (length (full_blocks tokens c)))).
Proof.
  intros Hok. rewrite full_blocks_length. unfold hashTokensSha256Hex.
  destruct (hex_loop_keys tokens c (full_blocks tokens c) 0 (length tokens / c) eq_refl) as [p Hp]; [rewrite full_blocks_length; lia|done|].
  cbn [take] in Hp. rewrite bool_decide_true in Hp by done. by rewrite Hp.
Qed.

(** ** Keys determine blocks *)

Fixpoint le_value (l : list Z) : Z := match l with [] => 0 | b :: l => b + 256 * le_value l end.

Lemma le_bytes_S n z : le_bytes (S n) z = z mod 256 :: le_bytes n (z / 256).
Proof.
  unfold le_bytes. cbn [seq map]. rewrite Z.shiftr_0_r. f_equal. rewrite <- seq_shift, map_map. apply map_ext. intros i. f_equal.
  rewrite !Z.shiftr_div_pow2 by lia. replace (8 * Z.of_nat (S i)) with (8 + 8 * Z.of_nat i) by lia.
  rewrite Z.pow_add_r, Z.div_div by lia. done.
Qed.

Lemma le_value_bytes n z : le_value (le_bytes n z) = z mod 256 ^ Z.of_nat n.
Proof.
  revert z. induction n as [|n IH]; intros z; [by rewrite Z.mod_1_r|]. rewrite le_bytes_S. cbn [le_value]. rewrite IH.
  rewrite Nat2Z.inj_succ, Z.pow_succ_r by lia. rewrite Z.rem_mul_r by lia. lia.
Qed.

Lemma le_bytes_length n z : length (le_bytes n z) = n.
Proof. unfold le_bytes. by rewrite length_map, length_seq. Qed.

Lemma token_bytes_length b : length (token_bytes b) = (4 * length b)%nat.
Proof. induction b as [|t b IH]; [done|]. unfold token_bytes in *. cbn [flat_map]. rewrite length_app, le_bytes_length, IH. cbn. lia. Qed.

Lemma token_bytes_inj b1 b2 :
  length b1 = length b2 -> forallb in_uint32 b1 = true -> forallb in_uint32 b2 = true -> token_bytes b1 = token_bytes b2 -> b1 = b2.
Proof.
  revert b2. induction b1 as [|t1 b1 IH]; intros [|t2 b2] Hl H1 H2 E; try done. cbn [forallb] in H1, H2.
  apply andb_prop in H1 as [Ht1 H1], H2 as [Ht2 H2]. unfold token_bytes in E. cbn [flat_map] in E.
  apply app_inj_1 in E as [Et Eb]; [|by rewrite !le_bytes_length]. f_equal; [|apply IH; [by injection Hl|done..]].
  apply (f_equal le_value) in Et. rewrite !le_value_bytes in Et. unfold in_uint32 in *. apply bool_decide_eq_true in Ht1, Ht2.
  rewrite !Z.mod_small in Et by (cbn; lia). done.
Qed.

(** No two different inputs of the two prompts have the same hash. *)
Definition collision_free (xs ys : list (list Z)) : bool :=
  forallb (fun x => forallb (fun y => implb (bool_decide (Sum256 x = Sum256 y)) (bool_decide (x = y))) ys) xs.

Lemma collision_free_inv xs ys x y : collision_free xs ys = true -> In x xs -> In y ys -> Sum256 x = Sum256 y -> x = y.
Proof.
  unfold collision_free. rewrite forallb_forall. intros Hc Hx Hy E. specialize (Hc x Hx). rewrite forallb_forall in Hc. specialize (Hc y Hy).
  rewrite bool_decide_true in Hc by done. by apply bool_decide_eq_true in Hc.
Qed.

(** Blocks of [c] tokens each. *)
Definition blocks_ok (c : nat) (blocks : list (list Z)) : Prop := Forall (fun b => length b = c /\ forallb in_uint32 b = true) blocks.

Lemma digest_inj c bs cs i j :
  blocks_ok c bs -> blocks_ok c cs -> collision_free (inputs bs) (inputs cs) = true ->
  (i < length bs)%nat -> (j < length cs)%nat ->
  digest (take (S i) bs) = digest (take (S j) cs) -> i = j /\ take (S i) bs = take (S j) cs.
Proof.
  intros Hb Hc Hcf.
  assert (Hstep : forall i j, (i < length bs)%nat -> (j < length cs)%nat -> digest (take (S i) bs) = digest (take (S j) cs) ->
    digest (take i bs) ++ token_bytes (nth i bs []) = digest (take j cs) ++ token_bytes (nth j cs [])
    /\ (token_bytes (nth i bs []) = token_bytes (nth j cs []) -> nth i bs [] = nth j cs [])
    /\ length (token_bytes (nth i bs [])) = length (token_bytes (nth j cs []))).
  { clear i j. intros i j Hi Hj E. rewrite (digest_take bs i), (digest_take cs j) in E by done.
    apply (collision_free_inv _ _ _ _ Hcf) in E; [|apply in_map_iff; eexists; split; [reflexivity|apply in_seq; lia]..]. split; [done|].
    assert (Hbi : length (nth i bs []) = c /\ forallb in_uint32 (nth i bs []) = true) by (apply (proj1 (Forall_forall _ _) Hb), nth_In, Hi).
    assert (Hcj : length (nth j cs []) = c /\ forallb in_uint32 (nth j cs []) = true) by (apply (proj1 (Forall_forall _ _) Hc), nth_In, Hj).
    destruct Hbi, Hcj. split; [apply token_bytes_inj; congruence|rewrite !token_bytes_length; congruence]. }
  revert j. induction i as [|i IH]; intros j Hi Hj E; destruct (Hstep _ j Hi Hj E) as (Ein & Hinj & Hlen); clear E.
  - destruct j as [|j].
    + split; [done|]. rewrite !(take_S_nth _ 0 []) by done. by rewrite (Hinj Ein).
    + apply (f_equal length) in Ein. rewrite !length_app, (digest_length (take (S j) cs)) in Ein by (by destruct cs; cbn in *; [lia|]).
      change (length (digest (take 0 bs))) with 0%nat in Ein. lia.
  - destruct j as [|j].
    + apply (f_equal length) in Ein. rewrite !length_app, (digest_length (take (S i) bs)) in Ein by (by destruct bs; cbn in *; [lia|]).
      change (length (digest (take 0 cs))) with 0%nat in Ein. lia.
    + apply app_inj_2 in Ein as [Ed Et]; [|done]. destruct (IH j) as [-> Htake]; [lia|lia|done|]. split; [done|].
      rewrite (take_S_nth bs (S j) []), (take_S_nth cs (S j) []) by done. by rewrite Htake, (Hinj Et).
Qed.

(** ** Common blocks *)

Fixpoint common (l1 l2 : list (list Z)) : nat :=
  match l1, l2 with
  | a :: l1, b :: l2 => if bool_decide (a = b) then S (common l1 l2) else 0%nat
  | _, _ => 0%nat
  end.

Lemma common_le l1 l2 : (common l1 l2 <= length l1)%nat.
Proof. revert l2. induction l1 as [|a l1 IH]; intros [|b l2]; cbn; try lia. case_bool_decide; [|lia]. specialize (IH l2). lia. Qed.

Lemma common_spec l1 l2 i : (i < length l1)%nat -> (i < common l1 l2)%nat <-> (i < length l2)%nat /\ take (S i) l1 = take (S i) l2.
Proof.
  revert l2 i. induction l1 as [|a l1 IH]; intros [|b l2] i Hi; cbn in *; [lia|lia|split; [lia|intros [? _]; lia]|].
  case_bool_decide as E; [subst b|split; [lia|intros [_ [= ? _]]; done]]. destruct i as [|i]; [split; [split; [lia|done]|lia]|].
  rewrite <- Nat.succ_lt_mono, (IH l2 i) by lia. split; intros [H1 H2]; (split; [lia|]).
  - f_equal. exact H2.
  - by injection H2.
Qed.

Lemma run_of_bits n m : (m <= n)%nat ->
  let bits := map (fun k => bool_decide (k < m)%nat) (seq 0 n) in first_run bits = m /\ existsb Datatypes.id bits = bool_decide (0 < m)%nat.
Proof.
  intros Hm. cbn zeta.
  assert (Hlead : forall n i, (i <= m)%nat -> (m <= i + n)%nat -> leading (map (fun k => bool_decide (k < m)%nat) (seq i n)) = (m - i)%nat).
  { clear n Hm. induction n as [|n IH]; intros i H1 H2; cbn [seq map leading]; [lia|]. case_bool_decide; [|lia]. rewrite IH by lia. lia. }
  assert (Hfalse : forall n i, (m <= i)%nat -> let l := map (fun k => bool_decide (k < m)%nat) (seq i n) in first_run l = 0%nat /\ existsb Datatypes.id l = false).
  { clear n Hm Hlead. induction n as [|n IH]; intros i Hi; cbn [seq map first_run existsb]; [done|]. rewrite bool_decide_false by lia. cbn. apply IH. lia. }
  destruct m as [|m]; [by apply Hfalse|]. destruct n as [|n]; [lia|]. specialize (Hlead (S n) 0%nat ltac:(lia) ltac:(lia)).
  cbn [seq map first_run existsb] in *. rewrite bool_decide_true in * by lia. split; [lia|done].
Qed.

(** ** The length of the hit *)

Definition holders (hits : gmap string (gset string)) (h : string) : gset string := default ∅ (hits !! h).

Lemma full_blocks_ok tokens c : forallb in_uint32 tokens = true -> blocks_ok c (full_blocks tokens c).
Proof.
  intros Hok. unfold blocks_ok, full_blocks. apply Forall_forall. intros b Hb. apply in_map_iff in Hb as (i & <- & Hi%in_seq). split.
  - destruct (decide (c = 0%nat)) as [->|Hc]; [done|]. unfold chunk_at. rewrite length_take, length_drop.
    assert ((i * c + c <= length tokens)%nat); [|lia]. pose proof (Nat.Div0.mul_div_le (length tokens) c). nia.
  - by apply chunk_at_in.
Qed.

Lemma EncodeToString_inj a b : Forall (fun x => byte_ok x = true) a -> Forall (fun x => byte_ok x = true) b -> EncodeToString a = EncodeToString b -> a = b.
Proof. intros Ha Hb E. apply Decode_Encode in Ha, Hb. rewrite E, Hb in Ha. congruence. Qed.

Lemma digest_ok blocks : Forall (fun x => byte_ok x = true) (digest blocks).
Proof. destruct blocks as [|b blocks _] using rev_ind; [constructor|]. rewrite digest_snoc. apply Sum256_ok. Qed.

(** The most that a prompt shares with one of several. *)
Definition longest_common (bp : list (list Z)) (bqs : list (list (list Z))) : nat := foldr (fun bq n => Nat.max (common bp bq) n) 0%nat bqs.

Lemma longest_common_le bp bqs : (longest_common bp bqs <= length bp)%nat.
Proof. induction bqs as [|bq bqs IH]; cbn; [lia|]. fold (longest_common bp bqs). pose proof (common_le bp bq). lia. Qed.

Lemma longest_common_lt bp bqs k : (k < longest_common bp bqs)%nat <-> Exists (fun bq => k < common bp bq)%nat bqs.
Proof.
  induction bqs as [|bq bqs IH]; cbn; [rewrite Exists_nil; split; [lia|done]|]. rewrite Exists_cons, <- IH.
  fold (longest_common bp bqs). lia.
Qed.

(** The keys of a prompt's blocks. *)
Definition block_keys (blocks : list (list Z)) : list string := map (fun k => block_key (take (S k) blocks)) (seq 0 (length blocks)).

Lemma block_key_shared c bp bq k :
  blocks_ok c bp -> blocks_ok c bq -> collision_free (inputs bp) (inputs bq) = true -> (k < length bp)%nat ->
  block_key (take (S k) bp) ∈ block_keys bq <-> (k < common bp bq)%nat.
Proof.
  intros Hp Hq Hcf Hk. rewrite common_spec by lia. unfold block_keys. rewrite list_elem_of_In, in_map_iff. split.
  - intros (j & E & Hj%in_seq). apply EncodeToString_inj, symmetry in E; [|apply digest_ok..].
    destruct (digest_inj c bp bq k j) as [-> Ht]; [done|done|done|lia|lia|done|]. split; [lia|done].
  - intros [Hl Ht]. exists k. split; [by rewrite Ht|]. apply in_seq. lia.
Qed.

Section prefix.
Context (cbor_Marshal : cbor_value -> option (list Z)) (xxhash64 : list Z -> Z).

Lemma HashTokens_hex seed p c iris vllm hp :
  forallb in_uint32 p = true -> HashTokens cbor_Marshal xxhash64 Sha256Hex seed p (Z.of_nat c) false iris vllm = Ok hp ->
  hp = block_keys (full_blocks p c).
Proof.
  intros Hp Ep. unfold HashTokens in Ep. destruct (bool_decide (p = []) || _); [done|]. rewrite Nat2Z.id, hex_keys in Ep by done. by injection Ep as <-.
Qed.

(** A stored prompt: its tokens and keys, none of whose hashed inputs collides with one of [p]. *)
Definition stored_prompt (seed : option string) (iris vllm : string) (c : nat) (p q : list Z) (hq : list string) : Prop :=
  forallb in_uint32 q = true /\ HashTokens cbor_Marshal xxhash64 Sha256Hex seed q (Z.of_nat c) false iris vllm = Ok hq /\
  collision_free (inputs (full_blocks p c)) (inputs (full_blocks q c)) = true.


End prefix.

(** ** Examples *)

Definition no_cbor (v : cbor_value) : option (list Z) := None.
Definition no_xxhash (l : list Z) : Z := 0.

Definition prompt_p : list Z := [1; 2; 3; 4; 5].
Definition prompt_q : list Z := [1; 2; 3; 9].

Definition keys_of (tokens : list Z) : list string :=
  match HashTokens no_cbor no_xxhash Sha256Hex None tokens 2 false "" "" with Ok l => l | Err _ => [] end.

Lemma shared_prefix_shared_keys_witness : take 1 (keys_of prompt_p) = take 1 (keys_of prompt_q).
Proof.
  apply (shared_prefix_shared_keys no_cbor no_xxhash Sha256Hex None [1; 2] [3; 4; 5] [3; 9] 2 1 false false "" "").
  - lia.
  - done.
  - vm_compute. reflexivity.
  - vm_compute. reflexivity.
Defined.

Definition prompt_r : list Z := [1; 2; 3; 4; 7; 8].
Definition stored_prompts : gmap string (gset string) := list_to_map (map (fun h => (h, {["a"]})) (keys_of prompt_q ++ keys_of prompt_r)).

