(* ===== verification/KvClients.v ===== *)
(** * Clients of the KV store's metadata service

    [pkg/scheduler/kvs/v6d] and [pkg/scheduler/kvs/mooncake]: which instances hold which
    blocks. The first asks a Redis cluster for sorted sets, in batches of which a bounded
    number runs at a time; the second asks an HTTP service. What Redis and the service
    answer are arguments. *)

From Stdlib Require Import Ascii.
From stdpp Require Import base gmap sets list strings numbers relations.
From S2P Require Import Prelude GoStrings GoFloat Types Sha256.

(** ** v6d/metadata_service_client.go: batches *)

Record ZMember := mkZMember { Member : string; Score : float }.

(** [fuel] bounds the turns of the loop, which does not end for a batch size of 0. *)
Fixpoint split_loop {A} (fuel : nat) (items : list A) (batchSize i : nat) : option (list (list A)) :=
  match fuel with
  | O => None
  | S fuel =>
      if bool_decide (i < length items) then
        rest ← split_loop fuel items batchSize (i + batchSize);
        Some (take (Nat.min (i + batchSize) (length items) - i) (drop i items) :: rest)
      else Some []
  end.

Definition splitIntoBatches {A} (items : list A) (batchSize : nat) : option (list (list A)) := split_loop (S (length items)) items batchSize 0.

(** ** Running batches, a bounded number at a time

    The skeleton that [safeBatchZReadRange], [safeBatchZWriteWithTTL], [safeBatchZDelete]
    and [safeBatchDelete] share. The loop looks at the context, waits for a slot of the
    semaphore and starts the goroutine of the next batch; a goroutine that fails cancels
    the context and leaves its error in a channel of [slots] places. *)

Section batches.
Context {A : Type} (n slots : nat) (work : nat -> result A) (merge : A -> A -> A).

Inductive loop_pc := AtCheck (i : nat) | AtSlot (i : nat) | AfterLoop.

Record Batches := mkBatches {
  pc : loop_pc;
  running : gset nat;
  cancelled : bool;
  errors : list error;
  merged : A;
  done : list nat
}.

Definition batches_start (empty : A) : Batches := mkBatches (AtCheck 0) ∅ false [] empty [].

Definition finish_batch (i : nat) (s : Batches) : Batches :=
  match work i with
  | Ok a => mkBatches (pc s) (running s ∖ {[i]}) (cancelled s) (errors s) (merge a (merged s)) (done s ++ [i])
  | Err e => mkBatches (pc s) (running s ∖ {[i]}) true (if bool_decide (length (errors s) < slots) then errors s ++ [e] else errors s) (merged s) (done s)
  end.

Inductive batch_step : Batches -> Batches -> Prop :=
  | step_check i r c e m d :
      i < n -> batch_step (mkBatches (AtCheck i) r c e m d) (mkBatches (if c then AfterLoop else AtSlot i) r c e m d)
  | step_last r c e m d : batch_step (mkBatches (AtCheck n) r c e m d) (mkBatches AfterLoop r c e m d)
  | step_slot i r c e m d :
      size r < slots -> batch_step (mkBatches (AtSlot i) r c e m d) (mkBatches (AtCheck (S i)) ({[i]} ∪ r) c e m d)
  | step_finish i s : i ∈ running s -> batch_step s (finish_batch i s).

(** After the loop the first error is returned as soon as there is one, and the result
    when every goroutine has ended without one. *)
Inductive batch_return : Batches -> result A -> Prop :=
  | return_error s e es : pc s = AfterLoop -> errors s = e :: es -> batch_return s (Err e)
  | return_ok s : pc s = AfterLoop -> errors s = [] -> running s = ∅ -> batch_return s (Ok (merged s)).

(** ** What every execution keeps *)

Definition next_batch (p : loop_pc) : nat := match p with AtCheck i => i | AtSlot i => i | AfterLoop => n end.

Definition results (l : list nat) : list A := omap (fun i => match work i with Ok a => Some a | Err _ => None end) l.

Definition batches_inv (empty : A) (s : Batches) : Prop :=
  size (running s) <= slots /\ next_batch (pc s) <= n /\
  (match pc s with AtSlot i => i < n | _ => True end) /\
  NoDup (done s) /\ (forall i, i ∈ done s -> i < n /\ (i ∉ running s)) /\ (forall i, i ∈ running s -> i < n) /\
  (pc s <> AfterLoop -> forall i, (i ∈ running s \/ i ∈ done s) -> i < next_batch (pc s)) /\
  merged s = foldr merge empty (reverse (results (done s))) /\
  Forall (fun e => exists i, i < n /\ work i = Err e) (errors s) /\
  (errors s = [] -> cancelled s = false /\ forall i, i < next_batch (pc s) -> i ∈ running s \/ (i ∈ done s /\ exists a, work i = Ok a)).

Lemma results_snoc l i a : work i = Ok a -> results (l ++ [i]) = results l ++ [a].
Proof. intros Hw. unfold results. rewrite omap_app. cbn. by rewrite Hw. Qed.

Lemma results_reverse l : reverse (results l) = results (reverse l).
Proof.
  unfold results. induction l as [|i l IH]; [done|]. rewrite reverse_cons, omap_app, <- IH. cbn [omap list_omap].
  destruct (work i); [by rewrite reverse_cons|by rewrite app_nil_r].
Qed.

Lemma start_inv empty : batches_inv empty (batches_start empty).
Proof. unfold batches_inv, batches_start. cbn. rewrite size_empty. split_and!; try done; try lia; try constructor; try set_solver. intros; lia. Qed.

Lemma finish_inv empty i s : 0 < slots -> i ∈ running s -> batches_inv empty s -> batches_inv empty (finish_batch i s).
Proof.
  intros Hs Hi (I1 & I2 & I3 & I4 & I5 & I6 & I7 & I8 & I9 & I10). unfold finish_batch.
  assert (Hsize : size (running s ∖ {[i]}) <= slots) by (pose proof (subseteq_size (running s ∖ {[i]}) (running s) ltac:(set_solver)); lia).
  destruct (work i) as [a|e] eqn:Hw; unfold batches_inv; cbn [pc running cancelled errors merged done].
  - split_and!; try done.
    + apply list.NoDup_app. split; [done|]. split; [|apply NoDup_singleton]. intros j Hj ->%list_elem_of_singleton. by apply I5 in Hj as [_ ?].
    + intros j [Hj| ->%list_elem_of_singleton]%elem_of_app; [destruct (I5 j Hj); set_solver|]. split; [by apply I6|set_solver].
    + set_solver.
    + intros Hpc j [Hj|[Hj| ->%list_elem_of_singleton]%elem_of_app]; (apply I7; [done|set_solver]).
    + rewrite (results_snoc _ _ _ Hw), reverse_snoc. cbn. by rewrite I8.
    + intros He. destruct (I10 He) as [Hc Hall]. split; [done|]. intros j Hj. destruct (decide (j = i)) as [->|Hne].
      * right. split; [apply elem_of_app; right; by left|eauto].
      * destruct (Hall j Hj) as [?|[? ?]]; [left; set_solver|right; split; [apply elem_of_app; by left|done]].
  - split_and!; try done; [set_solver|set_solver| | |].
    + intros Hpc j [Hj|Hj]; (apply I7; [done|set_solver]).
    + case_bool_decide; [|done]. apply Forall_app. split; [done|]. repeat constructor. eauto.
    + case_bool_decide as Hl; [by intros [_ ?]%app_nil|]. intros He. rewrite He in Hl. cbn in Hl. lia.
Qed.

Lemma batch_step_inv empty s s' : 0 < slots -> batch_step s s' -> batches_inv empty s -> batches_inv empty s'.
Proof.
  intros Hs Hst Hinv. destruct Hst as [i r c e m d Hi|r c e m d|i r c e m d Hr|i s Hi]; [| | |by apply finish_inv];
    destruct Hinv as (I1 & I2 & I3 & I4 & I5 & I6 & I7 & I8 & I9 & I10); cbn in *.
  - destruct c; unfold batches_inv; cbn.
    + split_and!; try done; try lia. intros He. destruct (I10 He) as [? _]. done.
    + split_and!; try done; try lia. intros _. by apply I7.
  - split_and!; try done; try lia.
  - unfold batches_inv. cbn. assert (Hnew : (i ∉ r) /\ (i ∉ d)) by (split; intros Hin; specialize (I7 ltac:(done) i ltac:(auto)); lia).
    assert (size ({[i]} ∪ r) = S (size r)) by (rewrite size_union by set_solver; by rewrite size_singleton).
    split_and!; try done; try lia.
    + intros j Hj. destruct (I5 j Hj). split; [done|]. set_solver.
    + intros j [ ->%elem_of_singleton|Hj]%elem_of_union; [done|by apply I6].
    + intros _ j [[ ->%elem_of_singleton|Hj]%elem_of_union|Hj]; [lia| |]; specialize (I7 ltac:(done) j ltac:(auto)); lia.
    + intros He. destruct (I10 He) as [? Hall]. split; [done|]. intros j Hj. destruct (decide (j = i)) as [->|Hne]; [left; set_solver|].
      destruct (Hall j ltac:(lia)) as [?|?]; [left; set_solver|by right].
Qed.

(** ** Every execution ends, with a result for every batch or an error *)

Definition fuel_left (s : Batches) : nat :=
  3 * (match pc s with AtCheck i => S n - i | AtSlot i => n - i | AfterLoop => 0 end) + (match pc s with AtSlot _ => 2 | _ => 0 end) + size (running s).

Lemma batch_step_decreases empty s s' : 0 < slots -> batches_inv empty s -> batch_step s s' -> fuel_left s' < fuel_left s.
Proof.
  intros Hs (I1 & I2 & I3 & _ & _ & _ & I7 & _) Hst. destruct Hst as [i r c e m d Hi|r c e m d|i r c e m d Hr|i s Hi]; unfold fuel_left in *; cbn in *.
  - destruct c; cbn; lia.
  - lia.
  - assert (i ∉ r) by (intros Hin; specialize (I7 ltac:(done) i ltac:(auto)); lia). rewrite size_union by set_solver. rewrite size_singleton. lia.
  - unfold finish_batch. assert (Hsz : size (running s ∖ {[i]}) = size (running s) - 1).
    { rewrite size_difference by set_solver. by rewrite size_singleton. }
    assert (size (running s) <> 0) by (intros E%size_empty_inv; set_solver).
    destruct (work i); cbn; rewrite Hsz; lia.
Qed.

(** An execution that has not returned can go on. *)
Lemma batches_progress empty s : 0 < slots -> batches_inv empty s -> (exists s', batch_step s s') \/ (exists r, batch_return s r).
Proof.
  intros Hs (I1 & I2 & I3 & I4 & I5 & I6 & I7 & I8 & I9 & I10). destruct s as [[i|i|] r c e m d]; cbn in *.
  - destruct (decide (i = n)) as [->|Hne]; left; eexists; [apply step_last|apply step_check; lia].
  - destruct (decide (size r < slots)) as [Hlt|Hge]; [left; eexists; by apply step_slot|]. left.
    destruct (set_choose_or_empty r) as [[j Hj]|He]; [eexists; apply (step_finish j); done|].
    apply leibniz_equiv in He. subst r. rewrite size_empty in Hge. lia.
  - destruct e as [|e es]; [|right; eexists; by eapply return_error]. destruct (set_choose_or_empty r) as [[j Hj]|He].
    + left. eexists. by apply (step_finish j).
    + right. eexists. apply return_ok; [done|done|]. by apply leibniz_equiv.
Qed.

Lemma batches_reachable empty s : 0 < slots -> rtc batch_step (batches_start empty) s -> batches_inv empty s.
Proof.
  intros Hs Hr. eapply (rtc_ind_r (batches_inv empty)); [apply start_inv|intros ? ? _ Hst Hi; by eapply batch_step_inv|exact Hr].
Qed.

(** No execution goes on forever. *)
Lemma batches_end empty s : 0 < slots -> rtc batch_step (batches_start empty) s -> Acc (fun s' s => batch_step s s') s.
Proof.
  intros Hs. remember (fuel_left s) as f eqn:Ef. revert s Ef. induction (lt_wf f) as [f _ IH]. intros s -> Hr. constructor.
  intros s' Hst. apply (IH (fuel_left s')); [|done|by eapply rtc_r].
  eapply batch_step_decreases; [exact Hs|by eapply batches_reachable|exact Hst].
Qed.

(** Every execution returns: from every state that can be reached, the steps lead to a
    state that returns, whichever are taken. *)
Lemma batches_return empty s : 0 < slots -> rtc batch_step (batches_start empty) s -> exists s' r, rtc batch_step s s' /\ batch_return s' r.
Proof.
  intros Hs. remember (fuel_left s) as f eqn:Ef. revert s Ef. induction (lt_wf f) as [f _ IH]. intros s -> Hr.
  pose proof (batches_reachable empty s Hs Hr) as Hinv.
  destruct (batches_progress empty s Hs Hinv) as [[s' Hst]|[r Hret]]; [|exists s, r; split; [apply rtc_refl|done]].
  destruct (IH (fuel_left s') ltac:(by eapply batch_step_decreases) s' eq_refl) as (s2 & r & H1 & H2); [by eapply rtc_r|].
  exists s2, r. split; [by eapply rtc_l|done].
Qed.

(** What is returned: the results of all batches, in some order, when all succeed, and the
    error of one that failed otherwise. *)
Lemma batches_exact empty s r :
  0 < slots -> rtc batch_step (batches_start empty) s -> batch_return s r ->
  match r with
  | Ok a => exists order, order ≡ₚ seq 0 n /\ (forall i, i < n -> exists b, work i = Ok b) /\ a = foldr merge empty (reverse (results order))
  | Err e => exists i, i < n /\ work i = Err e
  end.
Proof.
  intros Hs Hr Hret. destruct (batches_reachable empty s Hs Hr) as (I1 & I2 & I3 & I4 & I5 & I6 & I7 & I8 & I9 & I10).
  destruct Hret as [s e es Hpc He|s Hpc He Hrun].
  - rewrite He in I9. by apply Forall_cons_iff in I9 as [? _].
  - destruct (I10 He) as [_ Hall]. rewrite Hpc in Hall. cbn in Hall. exists (done s). split_and!; [|intros i Hi|done].
    + apply list.NoDup_Permutation; [done|apply NoDup_seq|]. intros i. rewrite elem_of_seq. split.
      * intros Hi%I5. lia.
      * intros [_ Hi]. destruct (Hall i Hi) as [Hin|[? _]]; [rewrite Hrun in Hin; set_solver|done].
    + destruct (Hall i Hi) as [Hin|[_ Ha]]; [rewrite Hrun in Hin; set_solver|done].
Qed.

End batches.

(** ** v6d/metadata_service_client.go: requests *)

Abbreviation Zint := Z (only parsing).

(** The commands of a pipeline. *)
Inductive redis_cmd :=
  | ZRangeWithScores (key : string) (start stop : Zint)
  | ZRevRangeWithScores (key : string) (start stop : Zint)
  | ZAdd (key : string) (score : float) (member : string)
  | Expire (key : string) (ttl : Zint)
  | SAdd (set key : string)
  | ZRem (key member : string)
  | Del (key : string).

Definition range_cmd (topN : Zint) (key : string) : redis_cmd :=
  if bool_decide (0 < topN)%Z then ZRevRangeWithScores key 0 (topN - 1)%Z else ZRangeWithScores key 0 (-1)%Z.

(** What Redis answers: [exec] whether the pipeline ran, [answer] the members of a range
    ([None] for [redis.Nil]). *)
Section redis.
Context (exec : list redis_cmd -> result unit) (answer : redis_cmd -> option (list ZMember)).

Definition zReadRange (zsetKey : string) (topN : Zint) : result (list ZMember) :=
  let cmd := range_cmd topN zsetKey in
  match exec [cmd] with
  | Ok _ => Ok (default [] (answer cmd))
  | Err e => Err (ErrorOther "failed to read zset")
  end.

Definition batchZReadRange (topN : Zint) (zsetKeys : list string) : result (gmap string (list ZMember)) :=
  match zsetKeys with
  | [] => Ok ∅
  | _ =>
      match exec (map (range_cmd topN) zsetKeys) with
      | Ok _ => Ok (list_to_map (map (fun key => (key, default [] (answer (range_cmd topN key)))) zsetKeys))
      | Err e => Err (ErrorOther "failed to batch read zset")
      end
  end.

Definition zWriteWithTTL (zsetKey member : string) (score : float) (withSetName : string) (ttl : Zint) : result unit :=
  match exec [ZAdd zsetKey score member] with
  | Err e => Err (ErrorOther "failed to add member")
  | Ok _ =>
      match (if bool_decide (0 < ttl)%Z then exec [Expire zsetKey ttl] else Ok tt) with
      | Err e => Err (ErrorOther "failed to set TTL")
      | Ok _ => if bool_decide (withSetName <> "") then exec [SAdd withSetName zsetKey] else Ok tt
      end
  end.

Definition zWrite (zsetKey member : string) (score : float) (withSetName : string) : result unit := zWriteWithTTL zsetKey member score withSetName 0.

Definition write_cmds (ttl : Zint) (e : string * string * float) : list redis_cmd :=
  ZAdd e.1.1 e.2 e.1.2 :: (if bool_decide (0 < ttl)%Z then [Expire e.1.1 ttl] else []).

Definition batchZWriteWithTTL (zsetKeys members : list string) (scores : list float) (ttl : Zint) : result unit :=
  match zsetKeys with
  | [] => Ok tt
  | _ =>
      if bool_decide (length zsetKeys <> length members) || bool_decide (length members <> length scores)
      then Err (ErrorOther "zsetKeys, members and scores length mismatch")
      else exec (flat_map (write_cmds ttl) (zip (zip zsetKeys members) scores))
  end.

Definition zDelete (zsetKey member : string) : result unit := exec [ZRem zsetKey member].

Definition batchZDelete (zsetKeys members : list string) : result unit :=
  match zsetKeys with
  | [] => Ok tt
  | _ =>
      if bool_decide (length zsetKeys <> length members) then Err (ErrorOther "length mismatch")
      else exec (map (fun e => ZRem e.1 e.2) (zip zsetKeys members))
  end.

Definition batchDelete (keys : list string) : result unit :=
  match keys with [] => Ok tt | _ => exec (map Del keys) end.

(** ** The safe variants

    [None]: the batches cannot be formed; otherwise the results a caller can get. *)

Definition batch_of {A} (batches : list (list A)) (i : nat) : list A := nth i batches [].

Definition first_wins (a m : gmap string (list ZMember)) : gmap string (list ZMember) := a ∪ m.

Definition safeBatchZReadRange (maxBatch slots : nat) (zsetKeys : list string) (topN : Zint) (r : result (gmap string (list ZMember))) : Prop :=
  match zsetKeys with
  | [] => r = Ok ∅
  | _ =>
      exists batches s, splitIntoBatches zsetKeys maxBatch = Some batches /\
        rtc (batch_step (length batches) slots (fun i => batchZReadRange topN (batch_of batches i)) first_wins) (batches_start ∅) s /\
        batch_return s r
  end.

(** The variants that write return nothing but the error. *)
Definition safe_unit (maxBatch slots : nat) {A} (items : list A) (work : list A -> result unit) (r : result unit) : Prop :=
  exists batches s, splitIntoBatches items maxBatch = Some batches /\
    rtc (batch_step (length batches) slots (fun i => work (batch_of batches i)) (fun _ _ => tt)) (batches_start tt) s /\
    batch_return s r.

Definition safeBatchZWriteWithTTL (maxBatch slots : nat) (zsetKeys members : list string) (scores : list float) (ttl : Zint) (r : result unit) : Prop :=
  match zsetKeys with
  | [] => r = Ok tt
  | _ =>
      if bool_decide (length zsetKeys <> length members) || bool_decide (length members <> length scores)
      then r = Err (ErrorOther "zsetKeys, members and scores length mismatch")
      else safe_unit maxBatch slots (zip (zip zsetKeys members) scores)
             (fun b => batchZWriteWithTTL (map (fun e => e.1.1) b) (map (fun e => e.1.2) b) (map snd b) ttl) r
  end.

Definition safeBatchZDelete (maxBatch slots : nat) (zsetKeys members : list string) (r : result unit) : Prop :=
  match zsetKeys with
  | [] => r = Ok tt
  | _ =>
      if bool_decide (length zsetKeys <> length members) then r = Err (ErrorOther "length mismatch")
      else safe_unit maxBatch slots (zip zsetKeys members) (fun b => batchZDelete (map fst b) (map snd b)) r
  end.

Definition safeBatchDelete (maxBatch slots : nat) (keys : list string) (r : result unit) : Prop :=
  match keys with [] => r = Ok tt | _ => safe_unit maxBatch slots keys batchDelete r end.

(** The part of an address before the port. *)
Definition parseToKVSInstanceIp (kvsInstance : string) : string := default "" (head (Split kvsInstance ":")).

Definition parseResultsToHitMap (results : gmap string (list ZMember)) : gmap string (list string) :=
  (fun l => map (fun item => parseToKVSInstanceIp (Member item)) l) <$> results.

Definition v6d_BatchQueryPrefixHashHitKVSInstances (maxBatch slots : nat) (hashKeys : list string) (r : result (gmap string (list string))) : Prop :=
  exists res, safeBatchZReadRange maxBatch slots hashKeys 0 res /\
    r = match res with Ok m => Ok (parseResultsToHitMap m) | Err e => Err (ErrorOther "failed to query hit kvs instances") end.

Definition QueryPrefixHashHitKVSInstances (hashKey : string) : result (list string) :=
  match zReadRange hashKey 0 with
  | Ok l => Ok (map (fun item => parseToKVSInstanceIp (Member item)) l)
  | Err e => Err (ErrorOther "failed to query hit kvs instances")
  end.

Definition InsertPrefixHashHitKVSInstance (hashKey kvsInstance : string) : result unit := zWrite hashKey kvsInstance f_zero "".

(** ** Theorems *)

Lemma split_loop_spec {A} (items : list A) b i fuel :
  0 < b -> length items - i < fuel ->
  exists batches, split_loop fuel items b i = Some batches /\ concat batches = drop i items /\ Forall (fun l => 0 < length l <= b) batches.
Proof.
  intros Hb. revert i. induction fuel as [|fuel IH]; intros i Hf; [lia|]. cbn [split_loop]. case_bool_decide as Hi.
  - destruct (IH (i + b)) as (rest & -> & Hc & Hl); [lia|]. cbn. eexists. split; [done|]. cbn. rewrite Hc.
    set (k := Nat.min (i + b) (length items) - i). split.
    + rewrite <- (take_drop k (drop i items)) at 2. f_equal. rewrite drop_drop. destruct (decide (i + b <= length items)) as [Hle|Hgt].
      * f_equal. unfold k. lia.
      * rewrite !drop_ge by (unfold k; lia). done.
    + constructor; [|done]. rewrite length_take, length_drop. unfold k. lia.
  - exists []. split_and!; [done|by rewrite drop_ge by lia|constructor].
Qed.

Lemma splitIntoBatches_spec {A} (items : list A) b :
  0 < b -> exists batches, splitIntoBatches items b = Some batches /\ concat batches = items /\ Forall (fun l => 0 < length l <= b) batches.
Proof. intros Hb. apply (split_loop_spec items b 0 (S (length items))); lia. Qed.

(** A batch size of 0, which a configuration file that leaves it out gives, never ends. *)
Theorem split_zero_never_ends {A} (items : list A) fuel : items <> [] -> split_loop fuel items 0 0 = None.
Proof.
  intros Hne. induction fuel as [|fuel IH]; [done|]. cbn. rewrite bool_decide_true by (destruct items; cbn; [done|lia]). by rewrite IH.
Qed.

(** What one key reads. *)
Definition members_of (topN : Zint) (key : string) : list ZMember := default [] (answer (range_cmd topN key)).

Lemma batch_read_lookup topN keys m k : batchZReadRange topN keys = Ok m -> m !! k = if decide (k ∈ keys) then Some (members_of topN k) else None.
Proof.
  intros Hm. assert (m = list_to_map (map (fun key => (key, members_of topN key)) keys)) as ->.
  { unfold batchZReadRange in Hm. destruct keys as [|k0 keys]; [by injection Hm as <-|]. destruct (exec _); [by injection Hm as <-|done]. }
  clear Hm. induction keys as [|k0 keys IH]; [done|]. cbn [map]. rewrite list_to_map_cons, lookup_insert, IH.
  destruct (decide (k0 = k)) as [->|Hne]; [by rewrite decide_True by left|]. apply decide_ext. rewrite elem_of_cons. naive_solver.
Qed.

Lemma merged_lookup topN (batches : list (list string)) l k :
  (forall i, i ∈ l -> exists m, batchZReadRange topN (batch_of batches i) = Ok m) ->
  foldr first_wins ∅ (results (fun i => batchZReadRange topN (batch_of batches i)) l) !! k
  = if decide (k ∈ flat_map (batch_of batches) l) then Some (members_of topN k) else None.
Proof.
  intros Hok. induction l as [|i l IH]; [done|].
  destruct (Hok i) as [m Hm]; [left|]. unfold results in *. cbn [omap list_omap flat_map]. rewrite Hm. cbn [foldr]. unfold first_wins at 1.
  rewrite lookup_union, (batch_read_lookup _ _ _ k Hm), IH by (intros j Hj; apply Hok; by right).
  repeat case_decide; try done; set_solver.
Qed.

Lemma map_batch_of {A} (batches : list (list A)) : map (batch_of batches) (seq 0 (length batches)) = batches.
Proof.
  induction batches as [|b batches IH]; [done|]. cbn [length seq map]. f_equal. rewrite <- seq_shift, map_map. exact IH.
Qed.

Lemma flat_map_batches {A} (batches : list (list A)) l k :
  l ≡ₚ seq 0 (length batches) -> k ∈ flat_map (batch_of batches) l <-> k ∈ concat batches.
Proof. intros Hl. rewrite (flat_map_perm _ _ _ Hl), flat_map_concat_map, map_batch_of. done. Qed.

(** C35. Reading in batches is reading: however the goroutines of the batches interleave, the
    call ends, never with more than the configured number of batches at work; when it
    returns a result, every batch was read without an error and the result holds the members of every key
    that was asked for and of no other; and it returns an error only when a batch failed. *)
Theorem batched_read_exact maxBatch slots zsetKeys topN :
  0 < maxBatch -> 0 < slots -> zsetKeys <> [] ->
  exists batches, splitIntoBatches zsetKeys maxBatch = Some batches /\
  let step := batch_step (length batches) slots (fun i => batchZReadRange topN (batch_of batches i)) first_wins in
  (exists r, safeBatchZReadRange maxBatch slots zsetKeys topN r) /\
  (forall s, rtc step (batches_start ∅) s -> Acc (fun s' s => step s s') s /\ size (running s) <= slots) /\
  (forall r, safeBatchZReadRange maxBatch slots zsetKeys topN r ->
     match r with
     | Ok m =>
         (forall batch, batch ∈ batches -> exists part, batchZReadRange topN batch = Ok part) /\
         (forall k, m !! k = if decide (k ∈ zsetKeys) then Some (members_of topN k) else None)
     | Err e => exists batch, batch ∈ batches /\ batchZReadRange topN batch = Err e
     end).
Proof.
  intros Hb Hs Hne. destruct (splitIntoBatches_spec zsetKeys maxBatch Hb) as (batches & Hsplit & Hconcat & _).
  exists batches. split; [done|]. cbn zeta. set (work := fun i => batchZReadRange topN (batch_of batches i)).
  assert (Hsafe : forall r, safeBatchZReadRange maxBatch slots zsetKeys topN r <->
            exists s, rtc (batch_step (length batches) slots work first_wins) (batches_start ∅) s /\ batch_return s r).
  { intros r. unfold safeBatchZReadRange. destruct zsetKeys as [|k0 ks]; [done|]. rewrite Hsplit. split.
    - intros (? & s & [= <-] & Hr & Hret). eauto.
    - intros (s & Hr & Hret). eauto. }
  split_and!.
  - destruct (batches_return (length batches) slots work first_wins ∅ (batches_start ∅) Hs (rtc_refl _ _)) as (s & r & H1 & H2).
    exists r. apply Hsafe. eauto.
  - intros s Hr. split; [|by destruct (batches_reachable _ _ _ _ ∅ s Hs Hr)].
    exact (batches_end _ _ _ _ ∅ s Hs Hr).
  - intros r (s & Hr & Hret)%Hsafe. pose proof (batches_exact _ _ _ _ ∅ s r Hs Hr Hret) as Hex. destruct r as [m|e].
    + destruct Hex as (order & Ho & Hall & ->). split; [intros batch (i & Hi)%list_elem_of_lookup|].
      { destruct (Hall i (lookup_lt_Some _ _ _ Hi)) as [part Hpart]. exists part. rewrite <- Hpart. unfold work, batch_of. by rewrite (nth_lookup_Some _ _ _ _ Hi). }
      intros k. unfold work. rewrite results_reverse, merged_lookup.
      * apply decide_ext. rewrite <- Hconcat, <- (flat_map_batches batches (reverse order)); [|by rewrite reverse_Permutation].
        done.
      * intros i Hi. rewrite elem_of_reverse, Ho, elem_of_seq in Hi. apply Hall. lia.
    + destruct Hex as (i & Hi & Hw). exists (batch_of batches i). split; [|done]. apply list_elem_of_In, nth_In, Hi.
Qed.

End redis.

(** An example: three keys in batches of two. *)
Definition example_zset (c : redis_cmd) : option (list ZMember) :=
  match c with
  | ZRangeWithScores "h1" _ _ => Some [mkZMember "10.0.0.1:9600" f_zero]
  | ZRangeWithScores "h3" _ _ => Some [mkZMember "10.0.0.2:9600" f_zero]
  | _ => None
  end.

Lemma batched_read_exact_witness :
  exists batches, splitIntoBatches ["h1"; "h2"; "h3"] 2 = Some batches /\
  let step := batch_step (length batches) 10 (fun i => batchZReadRange (fun _ => Ok tt) example_zset 0 (batch_of batches i)) first_wins in
  (exists r, safeBatchZReadRange (fun _ => Ok tt) example_zset 2 10 ["h1"; "h2"; "h3"] 0 r) /\
  (forall s, rtc step (batches_start ∅) s -> Acc (fun s' s => step s s') s /\ size (running s) <= 10) /\
  (forall r, safeBatchZReadRange (fun _ => Ok tt) example_zset 2 10 ["h1"; "h2"; "h3"] 0 r ->
     match r with
     | Ok m =>
         (forall batch, batch ∈ batches -> exists part, batchZReadRange (fun _ => Ok tt) example_zset 0 batch = Ok part) /\
         (forall k, m !! k = if decide (k ∈ ["h1"; "h2"; "h3"]) then Some (members_of example_zset 0 k) else None)
     | Err e => exists batch, batch ∈ batches /\ batchZReadRange (fun _ => Ok tt) example_zset 0 batch = Err e
     end).
Proof. apply (batched_read_exact (fun _ => Ok tt) example_zset 2 10 ["h1"; "h2"; "h3"] 0); [lia|lia|discriminate]. Defined.

Local Open Scope Z_scope.

(** ** pkg/redis/cluster_client.go: the configuration of the cluster *)

Record RedisClusterConfig := mkClusterConfig {
  Hosts : list string;
  MaxBatchSize : Z;
  MaxConcurrentBatches : Z;
  QueryTimeout : Z
}.

(** [file] is the parsed configuration file, [None] when it cannot be read. *)
Definition cluster_config (configPath redisClusterHosts redisClusterPassword : string) (file : option RedisClusterConfig) : result RedisClusterConfig :=
  if bool_decide (configPath <> "") then
    match file with Some c => Ok c | None => Err (ErrorOther "read json file failed") end
  else if bool_decide (redisClusterHosts <> "") && bool_decide (redisClusterPassword <> "") then
    Ok (mkClusterConfig (Split redisClusterHosts ",") 500 10 (5 * 10 ^ 9))
  else Err (ErrorOther "neither config path nor config args provided").

(** The timeout of a query in nanoseconds: [c.config.RedisCluster.QueryTimeout*time.Second]. *)
Definition query_timeout (c : RedisClusterConfig) : Z := int64 (QueryTimeout c * 10 ^ 9).

(** The configuration file gives the timeout in seconds, but the built-in configuration
    gives it as a duration, which is multiplied by a second once more: a query may then
    take a hundred years. *)
Theorem default_timeout_is_endless hosts password c :
  hosts <> "" -> password <> "" -> cluster_config "" hosts password None = Ok c -> query_timeout c > 100 * 365 * 24 * 3600 * 10 ^ 9.
Proof.
  intros Hh Hp. unfold cluster_config. rewrite bool_decide_false by (intros H; by apply H). rewrite !bool_decide_true by done. cbn [andb].
  intros [= <-]. vm_compute. reflexivity.
Qed.

(** ** mooncake/metadata_service_client.go *)

(** [url.QueryEscape]. *)
Definition unreserved (c : ascii) : bool :=
  let n := Z.of_nat (nat_of_ascii c) in
  bool_decide (48 <= n <= 57) || bool_decide (65 <= n <= 90) || bool_decide (97 <= n <= 122)
  || bool_decide (n = 45) || bool_decide (n = 95) || bool_decide (n = 46) || bool_decide (n = 126).

Definition upper_hex (n : Z) : ascii := ascii_of_nat (Z.to_nat (if bool_decide (n < 10) then 48 + n else 55 + n)).

Fixpoint QueryEscape (s : string) : string :=
  match s with
  | EmptyString => ""
  | String c s =>
      let n := Z.of_nat (nat_of_ascii c) in
      if unreserved c then String c (QueryEscape s)
      else if bool_decide (n = 32) then String "+" (QueryEscape s)
      else String "%" (String (upper_hex (n / 16)) (String (upper_hex (n mod 16)) (QueryEscape s)))
  end.

Definition query_url (endpoint : Endpoint) (keys : list string) : string :=
  "http://" +:+ Endpoint_String endpoint +:+ "/batch_query_keys?keys=" +:+ Join (map QueryEscape keys) ",".

(** An attempt at the request: the request cannot be built, the transport fails (and
    whether by a timeout), or the status and the body. *)
Inductive http_attempt :=
  | BadRequest (e : string)
  | TransportError (timeout : bool) (e : string)
  | HttpResponse (status : Z) (body : string).

(** [doHttpRequest] with [retries] retries left. *)
Fixpoint doHttpRequest (attempts : nat -> http_attempt) (nRetry retries : nat) : result (Z * string) :=
  match attempts nRetry with
  | BadRequest e => Err (ErrorOther e)
  | HttpResponse status body => Ok (status, body)
  | TransportError timeout e =>
      if timeout then Err (ErrorOther e)
      else match retries with O => Err (ErrorOther e) | S retries => doHttpRequest attempts (S nRetry) retries end
  end.

Definition batchQueryKeys (attempts : nat -> http_attempt) : result string :=
  match doHttpRequest attempts 0 3 with
  | Err _ => Err (ErrorOther "batch query keys request failed")
  | Ok (status, body) => if bool_decide (status = 200) then Ok body else Err (ErrorOther "batch query keys failed")
  end.

(** The decoded body: whether it succeeded and, per key, the transport endpoints. *)
Record BatchQueryKeysResponse := mkQueryResponse { Success : bool; Data : gmap string (bool * list string) }.

Definition parseResponseToHitMap (decode : string -> option BatchQueryKeysResponse) (body : string) : result (gmap string (list string)) :=
  match decode body with
  | None => Err (ErrorOther "decode")
  | Some decoded =>
      if negb (Success decoded) then Err (ErrorOther "batch query keys parse response failed")
      else Ok ((fun item => map parseToKVSInstanceIp (List.filter (fun e => bool_decide (e <> "")) item.2)) <$> Data decoded)
  end.

Definition mooncake_BatchQueryPrefixHashHitKVSInstances (decode : string -> option BatchQueryKeysResponse) (attempts : nat -> http_attempt) : result (gmap string (list string)) :=
  match batchQueryKeys attempts with
  | Err _ => Err (ErrorOther "failed to query hit kvs instances")
  | Ok body => match parseResponseToHitMap decode body with Ok m => Ok m | Err _ => Err (ErrorOther "batch query keys parse response failed") end
  end.

(** A request is made at most four times, and not again after a timeout: what comes after
    the first answer, or after a timeout, or after the fourth attempt, is not asked for. *)
Theorem http_attempts_bounded attempts attempts' :
  (forall i, (i <= 3)%nat -> attempts i = attempts' i) -> doHttpRequest attempts 0 3 = doHttpRequest attempts' 0 3.
Proof.
  intros H. assert (Hgen : forall n i, (i + n = 3)%nat -> doHttpRequest attempts i n = doHttpRequest attempts' i n); [|by apply Hgen].
  induction n as [|n IH]; intros i Hi; cbn [doHttpRequest]; rewrite (H i) by lia; [done|]. destruct (attempts' i) as [|[]|]; try done.
  apply IH. lia.
Qed.
