(* ===== verification/Keepalive.v ===== *)
(** * The connection between a gateway and the scheduler

    [pkg/keepalive] and [handleKeepalive] of the scheduler: a gateway holds a web socket to
    the scheduler open; the scheduler learns the gateway's address over it, and drops the
    state of the gateway's requests when the connection is lost. Both ends are programs over
    the socket; what arrives on it is left open. *)

From stdpp Require Import base gmap sets list strings numbers.
From S2P Require Import Prelude GoStrings Types Programs.

Local Open Scope Z_scope.

(** ** keepalive_server.go

    [SNext] is what the [select] of [checkPingPongLoop] takes next, or a pong, which the
    handler of the reading goroutine counts. A ping reports whether it was written, and
    whether a pong was counted before the loop counts the ping. *)

Inductive server_event :=
  | EvMessage (data : string) (needClose : bool)
  | EvTick
  | EvPong.

Inductive seff : Type -> Type :=
  | SReadMessage : seff (result string)
  | SWriteText (data : string) : seff bool
  | SPing : seff (bool * bool)
  | SNext : seff server_event
  | SClose : seff unit
  | SAddGateway (ep : Endpoint) : seff unit
  | SRemoveGateway (ep : Endpoint) : seff unit.

(** [fuel] bounds the turns; the loop of a connection that stays healthy does not end. *)
Fixpoint checkPingPongLoop (fuel : nat) (missedPongs : Z) : Prog seff unit :=
  match fuel with
  | O => Hang
  | S fuel =>
      e ← perform SNext;
      match e with
      | EvPong => checkPingPongLoop fuel 0
      | EvMessage data needClose =>
          ok ← perform (SWriteText data);
          if negb ok || needClose then perform SClose else checkPingPongLoop fuel missedPongs
      | EvTick =>
          if bool_decide (2 <= missedPongs) then perform SClose
          else
            '(ok, pong) ← perform SPing;
            if negb ok then perform SClose else checkPingPongLoop fuel (if pong : bool then 1 else missedPongs + 1)
      end
  end.

Section server.
Context (unmarshal : string -> option Endpoint).

(** [HandShake]; the goroutine it starts only turns a broken connection into a closing
    message for the loop. *)
Definition HandShake : Prog seff (result Endpoint) :=
  r ← perform SReadMessage;
  match r with
  | Err e => Ret (Err e)
  | Ok data =>
      match unmarshal data with
      | None => Ret (Err (ErrorOther "could not get remote endpoint"))
      | Some ep => ok ← perform (SWriteText "ok"); Ret (if ok : bool then Ok ep else Err (ErrorOther "write response"))
      end
  end.

Definition StartKeepAlive (fuel : nat) (callback : Prog seff unit) : Prog seff unit :=
  _ ← checkPingPongLoop fuel 0; callback.

(** [handleKeepalive] after the upgrade; [track] is [EnableRequestStateTracking]. The two
    calls on the gateway are [keepalive_connected] and [keepalive_lost] of the scheduler
    service. *)
Definition handleKeepalive (fuel : nat) (track : bool) : Prog seff unit :=
  r ← HandShake;
  match r with
  | Err _ => perform SClose
  | Ok remote =>
      _ ← (if track then perform (SAddGateway remote) else Ret tt);
      _ ← StartKeepAlive fuel (if track then perform (SRemoveGateway remote) else Ret tt);
      perform SClose
  end.

(** The monitor of a connection: the gateway that is registered, whether one was before,
    and the ticks since the last pong. *)
Record server_view := mkServerView { registered_gw : option Endpoint; was_registered : bool; silent_ticks : Z; ended : bool }.

Definition server_observe (X : Type) (e : seff X) (x : X) (g : server_view) : server_view :=
  match e in seff X return X -> server_view with
  | SNext => fun x => match x with
                      | EvPong => mkServerView (registered_gw g) (was_registered g) 0 (ended g)
                      | EvTick => mkServerView (registered_gw g) (was_registered g) (silent_ticks g + 1) (ended g)
                      | EvMessage _ close => mkServerView (registered_gw g) (was_registered g) (silent_ticks g) (ended g || close)
                      end
  | SPing => fun '(ok, pong) => mkServerView (registered_gw g) (was_registered g) (if pong : bool then 1 else silent_ticks g) (ended g || negb ok)
  | SWriteText _ => fun ok => mkServerView (registered_gw g) (was_registered g) (silent_ticks g) (ended g || negb ok)
  | SAddGateway ep => fun _ => mkServerView (Some ep) true (silent_ticks g) (ended g)
  | SRemoveGateway _ => fun _ => mkServerView None (was_registered g) (silent_ticks g) (ended g)
  | _ => fun _ => g
  end x.

(** A gateway is registered once, and removed only while it is; while one is registered,
    the loop waits for more only as long as at most two ticks have gone by in silence. *)
Definition server_permits (X : Type) (e : seff X) (g : server_view) : Prop :=
  match e with
  | SAddGateway _ => was_registered g = false
  | SRemoveGateway ep => registered_gw g = Some ep /\ (ended g = true \/ 3 <= silent_ticks g)
  | SNext => silent_ticks g <= 2 /\ ended g = false
  | _ => True
  end.

(** A program that hangs is one whose loop is still at work. *)
Definition server_monitor : Monitor seff server_view :=
  mkMonitor server_permits (fun _ _ _ => True) server_observe (fun _ => False) (fun g => ended g = false /\ silent_ticks g <= 2).

Lemma loop_spec fuel missed g (Q : unit -> server_view -> Prop) :
  missed = silent_ticks g -> missed <= 2 -> ended g = false ->
  (forall g', registered_gw g' = registered_gw g -> was_registered g' = was_registered g -> (ended g' = true \/ 3 <= silent_ticks g') -> Q tt g') ->
  mwp server_monitor (checkPingPongLoop fuel missed) Q g.
Proof.
  revert missed g. induction fuel as [|fuel IH]; intros missed g Hm Hle He HQ; cbn [checkPingPongLoop]; [split; [done|lia]|].
  apply mwp_bind, mwp_perform; [split; [lia|done]|]. intros [data close| |] _; cbn [observe server_monitor server_observe].
  - apply mwp_bind, mwp_perform; [done|]. intros ok _. cbn [observe server_monitor server_observe registered_gw was_registered silent_ticks ended].
    destruct (negb ok || close) eqn:Hend.
    + apply mwp_perform; [done|]. intros [] _. apply HQ; [done|done|]. left. cbn. destruct ok, close, (ended g); done.
    + apply orb_false_iff in Hend as [-> ->]. apply IH; [done|done|cbn; by rewrite He|]. intros g' H1 H2 H3. by apply HQ.
  - case_bool_decide as H2.
    + apply mwp_perform; [done|]. intros [] _. apply HQ; [done|done|]. right. cbn. lia.
    + apply mwp_bind, mwp_perform; [done|]. intros [ok pong] _. cbn [observe server_monitor server_observe registered_gw was_registered silent_ticks ended].
      destruct ok; cbn [negb].
      * apply IH; [destruct pong; cbn; lia|destruct pong; lia|cbn; by rewrite He|]. intros g' H3 H4 H5. by apply HQ.
      * apply mwp_perform; [done|]. intros [] _. apply HQ; [done|done|]. left. cbn. apply orb_true_r.
  - apply IH; [done|lia|done|]. intros g' H3 H4 H5. by apply HQ.
Qed.

Definition fresh_view : server_view := mkServerView None false 0 false.

(** C8. A gateway that connects is registered at most once and, when the connection ends, is
    removed exactly when it was registered; the scheduler gives up on a gateway that is
    silent at the third tick, gives up only for that or for a broken connection, and a
    connection that stays healthy is kept. *)
Theorem keepalive_balanced fuel track l o :
  trace (handleKeepalive fuel track) l o ->
  permitted server_monitor l fresh_view /\
  match o with
  | Done _ => registered_gw (observed server_monitor l fresh_view) = None
  | Hung => ended (observed server_monitor l fresh_view) = false /\ silent_ticks (observed server_monitor l fresh_view) <= 2
  | Panicked => False
  end.
Proof.
  intros Ht.
  assert (Hw : mwp server_monitor (handleKeepalive fuel track) (fun _ g => registered_gw g = None) fresh_view).
  { unfold handleKeepalive, HandShake. apply mwp_bind, mwp_bind, mwp_perform; [done|]. intros [data|e] _; [|by apply mwp_perform].
    cbn [observe server_monitor server_observe]. destruct (unmarshal data) as [ep|]; [|by apply mwp_perform].
    apply mwp_bind, mwp_perform; [done|]. intros ok _. destruct ok; [|by apply mwp_perform].
    cbn [observe server_monitor server_observe]. destruct track.
    - apply mwp_bind, mwp_perform; [done|]. intros [] _. cbn [observe server_monitor server_observe].
      apply mwp_bind, mwp_bind, loop_spec; [done|lia|done|]. intros g' Hr _ He. cbn in Hr. apply mwp_perform; [by split|]. intros [] _.
      by apply mwp_perform.
    - apply mwp_bind. cbn [mwp]. apply mwp_bind, mwp_bind, loop_spec; [done|lia|done|]. intros g' Hr _ _. cbn in Hr.
      cbn [mwp]. by apply mwp_perform. }
  destruct (mwp_trace server_monitor _ _ fresh_view l o Hw Ht) as [Hp Ho]; [by apply expected_any|]. split; [done|]. by destruct o.
Qed.

End server.

(** A gateway that answers one ping and then falls silent. *)
Definition silent_world : Handler seff (list server_event) := fun X e s =>
  match e in seff X return X * list server_event with
  | SReadMessage => (Ok "10.0.0.7:41000", s)
  | SWriteText _ => (true, s)
  | SPing => ((true, false), s)
  | SNext => match s with [] => (EvTick, []) | ev :: s => (ev, s) end
  | SClose => (tt, s)
  | SAddGateway _ => (tt, s)
  | SRemoveGateway _ => (tt, s)
  end.

Definition read_endpoint (data : string) : option Endpoint := match NewEndpoint data with Ok ep => Some ep | Err _ => None end.

Lemma keepalive_balanced_witness :
  registered_gw (observed server_monitor (run_log silent_world (handleKeepalive read_endpoint 9 true) [EvTick; EvPong]) fresh_view) = None.
Proof.
  apply (keepalive_balanced read_endpoint 9 true _ (Done tt)). apply run_trace_done. vm_compute. reflexivity.
Defined.

(** ** keepalive_client.go

    A connection is known by its local address. The fields that other goroutines read are
    written by calls. *)

Inductive ceff : Type -> Type :=
  | CGetEndpoints : ceff (list Endpoint)
  | CSetRemoteEndpoint (ep : Endpoint) : ceff unit
  | CMarkRemoteUnready : ceff bool
  | CSetRemoteReady (local : Endpoint) : ceff unit
  | CSleep (seconds : Z) : ceff unit
  | CDial (url : string) (authorization : option string) : ceff (result string)
  | CWriteText (data : string) : ceff bool
  | CReadMessage : ceff (result string)
  | CClose : ceff unit
  | CSignalReady : ceff unit
  | CStartPingCheck : ceff unit
  | CStopPingCheck : ceff unit.

Section client.
Context (marshal : Endpoint -> string) (remoteToken : string).

Definition tryConnect (address accessToken : string) : Prog ceff (result string) :=
  perform (CDial ("ws://" +:+ address +:+ "/keepalive") (if String.eqb accessToken "" then None else Some accessToken)).

(** More than two failures in a row mark the remote side as not ready. *)
Definition mark_if (errCnt : Z) : Prog ceff unit :=
  if bool_decide (2 < errCnt) then _ ← perform CMarkRemoteUnready; Ret tt else Ret tt.

Fixpoint ensureGetRemoteEndpoint (fuel : nat) (errCnt : Z) : Prog ceff Endpoint :=
  match fuel with
  | O => Hang
  | S fuel =>
      endpoints ← perform CGetEndpoints;
      match endpoints with
      | ep :: _ => _ ← perform (CSetRemoteEndpoint ep); Ret ep
      | [] => _ ← mark_if (errCnt + 1); _ ← perform (CSleep 3); ensureGetRemoteEndpoint fuel (errCnt + 1)
      end
  end.

Fixpoint ensureConnected (fuel : nat) (connectErrCnt : Z) : Prog ceff string :=
  match fuel with
  | O => Hang
  | S fuel =>
      remoteEndpoint ← ensureGetRemoteEndpoint fuel 0;
      r ← tryConnect (Endpoint_String remoteEndpoint) remoteToken;
      match r with
      | Ok conn => Ret conn
      | Err _ => _ ← mark_if (connectErrCnt + 1); _ ← perform (CSleep 1); ensureConnected fuel (connectErrCnt + 1)
      end
  end.

(** A reply other than "ok" is logged, and the nil error of the read is returned. *)
Definition handShake (conn : string) : Prog ceff (result Endpoint) :=
  match NewEndpoint conn with
  | Err e => Ret (Err e)
  | Ok localEndpoint =>
      ok ← perform (CWriteText (marshal localEndpoint));
      if negb ok then Ret (Err (ErrorOther "send local endpoint"))
      else
        r ← perform CReadMessage;
        Ret (match r with Ok _ => Ok localEndpoint | Err e => Err e end)
  end.

Fixpoint read_until_error (fuel : nat) : Prog ceff unit :=
  match fuel with
  | O => Hang
  | S fuel => r ← perform CReadMessage; match r with Ok _ => read_until_error fuel | Err _ => perform CStopPingCheck end
  end.

Fixpoint loopCheck (fuel : nat) (conn : option string) (first : bool) : Prog ceff unit :=
  match fuel with
  | O => Hang
  | S fuel =>
      _ ← (match conn with Some _ => perform CClose | None => Ret tt end);
      conn ← ensureConnected fuel 0;
      r ← handShake conn;
      match r with
      | Err _ => loopCheck fuel (Some conn) first
      | Ok localEndpoint =>
          _ ← perform (CSetRemoteReady localEndpoint);
          _ ← (if first then perform CSignalReady else Ret tt);
          _ ← perform CStartPingCheck;
          _ ← read_until_error fuel;
          loopCheck fuel (Some conn) false
      end
  end.

(** The monitor of the client: the failed dials and the empty answers of the resolver in a
    row, the address of the open connection, whether the local endpoint was sent and a
    reply read on it, and the two flags of the client. *)
Record client_view := mkClientView {
  dial_fails : Z; resolve_fails : Z; open_conn : option string; sent : bool; replied : bool; remoteReady : bool; signalled : bool }.

Definition client_observe (X : Type) (e : ceff X) (x : X) (g : client_view) : client_view :=
  let '(mkClientView d f c s p y n) := g in
  match e in ceff X return X -> client_view with
  | CGetEndpoints => fun x => mkClientView d (match x with [] => f + 1 | _ => 0 end) c s p y n
  | CDial _ _ => fun x => match x with Ok c => mkClientView 0 f (Some c) false false y n | Err _ => mkClientView (d + 1) f None false false y n end
  | CWriteText _ => fun ok => mkClientView d f c (s || ok) p y n
  | CReadMessage => fun x => mkClientView d f c s (p || match x with Ok _ => s | Err _ => false end) y n
  | CClose => fun _ => mkClientView d f None false false y n
  | CMarkRemoteUnready => fun _ => mkClientView d f c s p false n
  | CSetRemoteReady _ => fun _ => mkClientView d f c s p true n
  | CSignalReady => fun _ => mkClientView d f c s p y true
  | _ => fun _ => g
  end x.

Definition client_permits (X : Type) (e : ceff X) (g : client_view) : Prop :=
  match e with
  | CSetRemoteReady local => replied g = true /\ exists c, open_conn g = Some c /\ NewEndpoint c = Ok local
  | CMarkRemoteUnready => 3 <= dial_fails g \/ 3 <= resolve_fails g
  | CSleep _ => 3 <= dial_fails g \/ 3 <= resolve_fails g -> remoteReady g = false
  | CSignalReady => remoteReady g = true /\ signalled g = false
  | CDial _ _ => open_conn g = None
  | _ => True
  end.

Definition client_monitor : Monitor ceff client_view :=
  mkMonitor client_permits (fun _ _ _ => True) client_observe (fun _ => False) (fun _ => True).

Definition disconnected (d : Z) (n : bool) (g : client_view) : Prop :=
  dial_fails g = d /\ open_conn g = None /\ signalled g = n /\ (3 <= d -> remoteReady g = false).

Lemma ensure_endpoint_spec fuel errCnt d n g (Q : Endpoint -> client_view -> Prop) :
  disconnected d n g -> resolve_fails g = errCnt -> (3 <= errCnt -> remoteReady g = false) ->
  (forall ep g', disconnected d n g' -> resolve_fails g' = 0 -> Q ep g') ->
  mwp client_monitor (ensureGetRemoteEndpoint fuel errCnt) Q g.
Proof.
  revert errCnt g. induction fuel as [|fuel IH]; intros errCnt g Hg He Hr HQ; [done|]. cbn [ensureGetRemoteEndpoint].
  apply mwp_bind, mwp_perform; [done|]. intros endpoints _. destruct g as [d0 f c s p y n0], Hg as (Hd & Hc & Hn & Hy). cbn in Hd, Hc, Hn, Hy, He, Hr. subst d0 c n0 f.
  destruct endpoints as [|ep eps]; cbn [observe client_monitor client_observe].
  - apply mwp_bind. unfold mark_if. case_bool_decide as H2.
    + apply mwp_bind, mwp_perform; [right; cbn; lia|]. intros r _. cbn [mwp observe client_monitor client_observe].
      apply mwp_bind, mwp_perform; [done|]. intros [] _. apply IH; done.
    + cbn [mwp]. apply mwp_bind, mwp_perform; [cbn; intros [H|H]; [auto|lia]|]. intros [] _. apply IH; [done|done|cbn; lia|done].
  - apply mwp_bind, mwp_perform; [done|]. intros [] _. apply HQ; done.
Qed.

Lemma ensure_connected_spec fuel d n g (Q : string -> client_view -> Prop) :
  disconnected d n g -> resolve_fails g = 0 ->
  (forall c y, Q c (mkClientView 0 0 (Some c) false false y n)) ->
  mwp client_monitor (ensureConnected fuel d) Q g.
Proof.
  revert d g. induction fuel as [|fuel IH]; intros d g Hg Hf HQ; [done|]. cbn [ensureConnected].
  apply mwp_bind, (ensure_endpoint_spec fuel 0 d n); [done|done|lia|]. intros ep [d0 f c s p y n0] (Hd & Hc & Hn & Hy) Hf'. cbn in Hd, Hc, Hn, Hy, Hf'. subst d0 c n0 f.
  apply mwp_bind, mwp_perform; [done|]. intros [conn|e] _; cbn [observe client_monitor client_observe]; [apply HQ|].
  apply mwp_bind. unfold mark_if. case_bool_decide as H2.
  - apply mwp_bind, mwp_perform; [left; cbn; lia|]. intros r _. cbn [mwp observe client_monitor client_observe].
    apply mwp_bind, mwp_perform; [done|]. intros [] _. by apply IH.
  - cbn [mwp]. apply mwp_bind, mwp_perform; [cbn; lia|]. intros [] _. apply IH; [split_and!; cbn; [done|done|done|lia]|done|done].
Qed.

Lemma read_until_error_spec fuel f n c s p y (Q : unit -> client_view -> Prop) :
  (forall p', Q tt (mkClientView 0 f c s p' y n)) -> mwp client_monitor (read_until_error fuel) Q (mkClientView 0 f c s p y n).
Proof.
  intros HQ. revert p. induction fuel as [|fuel IH]; intros p; [done|]. cbn [read_until_error].
  apply mwp_bind, mwp_perform; [done|]. intros [m|e] _; cbn [observe client_monitor client_observe]; [apply IH|].
  apply mwp_perform; [done|]. intros [] _. apply HQ.
Qed.

Definition before_dial (conn : option string) (first : bool) (g : client_view) : Prop :=
  dial_fails g = 0 /\ resolve_fails g = 0 /\ signalled g = negb first /\ (conn = None -> open_conn g = None).

Lemma loop_check_spec fuel conn first g : before_dial conn first g -> mwp client_monitor (loopCheck fuel conn first) (fun _ _ => True) g.
Proof.
  revert conn first g. induction fuel as [|fuel IH]; intros conn first [d f c s p y n] (Hd & Hf & Hn & Hc); [done|]. cbn in Hd, Hf, Hn, Hc. subst d f n.
  cbn [loopCheck]. apply mwp_bind.
  assert (Hnext : forall c s p, c = None -> mwp client_monitor (c ← ensureConnected fuel 0; r ← handShake c;
      match r with
      | Err _ => loopCheck fuel (Some c) first
      | Ok localEndpoint => _ ← perform (CSetRemoteReady localEndpoint); _ ← (if first then perform CSignalReady else Ret tt);
          _ ← perform CStartPingCheck; _ ← read_until_error fuel; loopCheck fuel (Some c) false
      end) (fun _ _ => True) (mkClientView 0 0 c s p y (negb first))).
  { clear c s p Hc. intros c s p ->. apply mwp_bind, (ensure_connected_spec fuel 0 (negb first)); [by split_and!|done|]. intros c y'.
    apply mwp_bind. unfold handShake. destruct (NewEndpoint c) as [local|e] eqn:Hep; [|by apply IH].
    apply mwp_bind, mwp_perform; [done|]. intros ok _. destruct ok; cbn [negb]; [|by apply IH].
    apply mwp_bind, mwp_perform; [done|]. intros [m|e] _; cbn [mwp observe client_monitor client_observe]; [|by apply IH].
    apply mwp_bind, mwp_perform; [split; [done|by exists c]|]. intros [] _. cbn [observe client_monitor client_observe].
    apply mwp_bind. assert (Hrest : mwp client_monitor (_ ← perform CStartPingCheck; _ ← read_until_error fuel; loopCheck fuel (Some c) false)
      (fun _ _ => True) (mkClientView 0 0 (Some c) true true true true)).
    { apply mwp_bind, mwp_perform; [done|]. intros [] _. apply mwp_bind, read_until_error_spec. intros p'. by apply IH. }
    destruct first; [apply mwp_perform; [done|]; intros [] _; exact Hrest|exact Hrest]. }
  destruct conn as [conn|]; [apply mwp_perform; [done|]; intros [] _; by apply Hnext|by apply Hnext, Hc].
Qed.

Definition client_start : client_view := mkClientView 0 0 None false false false false.

(** The gateway holds the scheduler for ready only after its own address was sent on the
    open connection and a reply read on it, and publishes that connection's address; it
    gives readiness up after three failed dials, or three empty answers of the resolver, in
    a row and not before; whoever waits for the first connection is woken exactly once; and
    no connection is opened while another one is. *)
Theorem ready_follows_connection fuel l o :
  trace (loopCheck fuel None true) l o -> permitted client_monitor l client_start /\ o <> Panicked.
Proof.
  intros Ht.
  destruct (mwp_trace client_monitor _ _ client_start l o (loop_check_spec fuel None true client_start ltac:(by split_and!)) Ht) as [Hp Ho]; [by apply expected_any|].
  split; [done|]. by destruct o.
Qed.

End client.

(** Two failed dials, then a connection that breaks. *)
Definition flaky_world : Handler ceff nat := fun X e s =>
  match e in ceff X return X * nat with
  | CGetEndpoints => ([mkEndpoint "10.0.0.1" 8001], s)
  | CMarkRemoteUnready => (true, s)
  | CDial _ _ => ((if bool_decide (s < 2)%nat then Err (ErrorOther "refused") else Ok "10.0.0.7:41000"), S s)
  | CWriteText _ => (true, s)
  | CReadMessage => ((if bool_decide (s < 5)%nat then Ok "ok" else Err (ErrorOther "reset")), S s)
  | CSetRemoteEndpoint _ => (tt, s)
  | CSetRemoteReady _ => (tt, s)
  | CSleep _ => (tt, s)
  | CClose => (tt, s)
  | CSignalReady => (tt, s)
  | CStartPingCheck => (tt, s)
  | CStopPingCheck => (tt, s)
  end.

Lemma ready_follows_connection_witness :
  permitted client_monitor (run_log flaky_world (loopCheck Endpoint_String "token" 7 None true) 0%nat) client_start.
Proof. apply (ready_follows_connection Endpoint_String "token" 7 _ Hung). exact (run_trace flaky_world (loopCheck Endpoint_String "token" 7 None true) 0%nat). Defined.
