(* ===== verification/MigrationFrontend.v ===== *)
(** * Migration in the engine: choosing the requests

    [base_migration_frontend.py] of [python/llumnix/llumnix/migration_frontend/vllm_v1] and
    the migration data of [utils.py] and [rpc_server.py]: the parameters of a migration, and
    the choice of the requests that leave an engine. What the two kinds of frontend define
    (which requests to skip, how to mark one, its cost and its sorting key) is the class
    [Frontend]. *)

From Stdlib Require Import Sorted.
From stdpp Require Import base gmap sets list strings numbers.
From S2P Require Import Prelude GoStrings GoFloat Types Metrics Selectors Rescheduling.

Local Open Scope Z_scope.

(** ** utils.py: the parameters of a migration *)

Definition NUM_REQ : string := "NUM_REQ".
Definition TOKEN : string := "TOKEN".
Definition RATIO : string := "RATIO".

Definition LCR : string := "LCR".
Definition LR : string := "LR".
Definition SR : string := "SR".
Definition FCW : string := "FCW".
Definition FCWSR : string := "FCWSR".

Record MigrationParams := mkMigrationParams {
  migration_type : string;
  mig_req_policy : string;
  num_reqs : Z;
  num_tokens : Z;
  kv_cache_usage_ratio : float;
  mp_trigger_policy : string
}.

(** ** rpc_server.py: the request of the scheduler *)

Definition validate_migration_type (t : string) : bool := bool_decide (t = NUM_REQ) || bool_decide (t = TOKEN) || bool_decide (t = RATIO).

(** [generate_migration_params] after [validate_migration_type]; a [ValueError] is [None].
    The value of the message is a [oneof], so [HasField] looks at its case. *)
Definition generate_migration_params (r : MigrateRequest) : option MigrationParams :=
  let params := mkMigrationParams (MigrationType r) (MigrationReqPolicy r) 1 0 f_zero (mr_TriggerPolicy r) in
  if negb (validate_migration_type (MigrationType r)) then None
  else if bool_decide (MigrationType r = NUM_REQ) then
    match MigrationValue r with NumReqs n => Some (mkMigrationParams (MigrationType r) (MigrationReqPolicy r) n 0 f_zero (mr_TriggerPolicy r)) | _ => None end
  else if bool_decide (MigrationType r = TOKEN) then
    match MigrationValue r with MigrateTokens n => Some (mkMigrationParams (MigrationType r) (MigrationReqPolicy r) 1 n f_zero (mr_TriggerPolicy r)) | _ => None end
  else
    match MigrationValue r with KvCacheUsageRatio x => Some (mkMigrationParams (MigrationType r) (MigrationReqPolicy r) 1 0 (f32_to_f64 x) (mr_TriggerPolicy r)) | _ => None end.

(** ** base_migration_frontend.py *)

Class Frontend (R St : Type) := {
  should_skip_migration : St -> R -> bool -> bool;
  set_migrating_status : R -> St -> St;
  request_tokens : R -> Z;
  sorting_key : R -> Z;
  fr_id : R -> string
}.

(** [sorted]: stable, also with [reverse=True]. *)
Fixpoint insert_before {A} (before : A -> A -> bool) (x : A) (l : list A) : list A :=
  match l with
  | [] => [x]
  | y :: l' => if before x y then x :: y :: l' else y :: insert_before before x l'
  end.

Definition sorted_by {A} (before : A -> A -> bool) (l : list A) : list A := foldr (insert_before before) [] l.

Lemma insert_before_perm {A} before (x : A) l : insert_before before x l ≡ₚ x :: l.
Proof. induction l as [|y l IH]; [done|]. cbn. destruct (before x y); [done|]. rewrite IH. apply Permutation_swap. Qed.

Lemma sorted_by_perm {A} before (l : list A) : sorted_by before l ≡ₚ l.
Proof. induction l as [|x l IH]; [done|]. cbn. rewrite insert_before_perm. by constructor. Qed.

Section frontend.
Context {R St : Type} `{!Frontend R St}.

Definition get_request_cost (r : R) (t : string) : option Z :=
  if bool_decide (t = TOKEN) || bool_decide (t = RATIO) then Some (request_tokens r)
  else if bool_decide (t = NUM_REQ) then Some 1 else None.

Definition key_at (reqs : list R) (i : nat) : Z := match reqs !! i with Some r => sorting_key r | None => 0 end.

Definition get_sorted_indices (policy : string) (reqs : list R) : list nat :=
  let indices := seq 0 (length reqs) in
  if bool_decide (policy = LCR) then reverse indices
  else if bool_decide (policy = SR) || bool_decide (policy = FCWSR) then
    sorted_by (fun i j => bool_decide (key_at reqs i <= key_at reqs j)) indices
  else if bool_decide (policy = LR) then
    sorted_by (fun i j => bool_decide (key_at reqs j <= key_at reqs i)) indices
  else indices.

(** The loop of [_select_requests_from_list]; [None] is an exception, after which the marks
    that were made stay. *)
Fixpoint select_loop (t : string) (is_in_waiting : bool) (budget : Z) (reqs : list R) (accumulated_cost : Z) (s : St) : option (list R * Z) * St :=
  match reqs with
  | [] => (Some ([], accumulated_cost), s)
  | req :: reqs =>
      if bool_decide (budget <= accumulated_cost) then (Some ([], accumulated_cost), s)
      else if should_skip_migration s req is_in_waiting then select_loop t is_in_waiting budget reqs accumulated_cost s
      else match get_request_cost req t with
           | None => (None, s)
           | Some req_cost =>
               if bool_decide (budget < req_cost) then select_loop t is_in_waiting budget reqs accumulated_cost s
               else let '(r, s) := select_loop t is_in_waiting budget reqs (accumulated_cost + req_cost) (set_migrating_status req s) in
                    (prod_map (cons req) id <$> r, s)
           end
  end.

(** The indices are those of the list, so [reqs[i]] does not raise. *)
Definition select_requests_from_list (reqs : list R) (indices : list nat) (budget : Z) (t : string) (is_in_waiting : bool) (s : St) : option (list R * Z) * St :=
  let '(r, s) := select_loop t is_in_waiting budget (omap (fun i => reqs !! i) indices) 0 s in
  ((fun '(selected, accumulated_cost) => (selected, Z.max 0 (budget - accumulated_cost))) <$> r, s).

(** [total_tokens] is the size of the engine's cache. *)
Definition get_budget (total_tokens : Z) (p : MigrationParams) : option Z :=
  if bool_decide (migration_type p = TOKEN) then Some (num_tokens p)
  else if bool_decide (migration_type p = RATIO) then ftrunc (f64_mul (f64_of_Z total_tokens) (kv_cache_usage_ratio p))
  else if bool_decide (migration_type p = NUM_REQ) then Some (num_reqs p)
  else None.

Definition drain (p : MigrationParams) : bool := bool_decide (migration_type p = NUM_REQ) && bool_decide (num_reqs p = -1).

(** [iter] is [iter_scheduler_requests] of the frontend. *)
Definition get_migrated_requests (iter : St -> list R * St) (total_tokens : Z) (p : MigrationParams) (running waiting : list R) (s : St) : list R * St :=
  if drain p then iter s
  else match get_budget total_tokens p with
       | None => ([], s)
       | Some budget =>
           let policy := mig_req_policy p in
           if bool_decide (policy = FCW) || bool_decide (policy = FCWSR) then
             match select_requests_from_list waiting (seq 0 (length waiting)) budget (migration_type p) true s with
             | (None, s) => ([], s)
             | (Some (selected, remaining_budget), s) =>
                 if bool_decide (policy = FCWSR) && bool_decide (0 < remaining_budget) then
                   match select_requests_from_list running (get_sorted_indices policy running) remaining_budget (migration_type p) false s with
                   | (None, s) => ([], s)
                   | (Some (more, _), s) => (selected ++ more, s)
                   end
                 else (selected, s)
             end
           else
             match select_requests_from_list running (get_sorted_indices policy running) budget (migration_type p) false s with
             | (None, s) => ([], s)
             | (Some (selected, _), s) => (selected, s)
             end
       end.

End frontend.

(** Marking a request concerns that request only, and a marked request is skipped. *)
Class FrontendLaws (R St : Type) `{!Frontend R St} := {
  skip_mark_other : forall s r r' w, fr_id r <> fr_id r' -> should_skip_migration (set_migrating_status r s) r' w = should_skip_migration s r' w;
  skip_mark_same : forall s r r' w, fr_id r = fr_id r' -> should_skip_migration (set_migrating_status r s) r' w = true;
  tokens_nonneg : forall r, 0 <= request_tokens r
}.

(** ** What is selected *)

Section selection.
Context {R St : Type} `{!Frontend R St, !FrontendLaws R St}.

Definition mark_all (l : list R) (s : St) : St := fold_left (fun s r => set_migrating_status r s) l s.

Definition cost_of (t : string) (r : R) : Z := default 0 (get_request_cost r t).
Fixpoint total_cost (t : string) (l : list R) : Z :=
  match l with [] => 0 | r :: l => cost_of t r + total_cost t l end.

Lemma cost_nonneg t r : 0 <= cost_of t r.
Proof. unfold cost_of, get_request_cost. pose proof (tokens_nonneg r). destruct (_ || _); [done|]. by destruct (bool_decide (t = NUM_REQ)). Qed.

Lemma total_cost_nonneg t l : 0 <= total_cost t l.
Proof. induction l as [|r l IH]; cbn; [lia|]. pose proof (cost_nonneg t r). lia. Qed.

Lemma total_cost_app t l l' : total_cost t (l ++ l') = total_cost t l + total_cost t l'.
Proof. induction l as [|r l IH]; cbn; [done|]. rewrite IH. lia. Qed.

Lemma skip_mark_mono s r r' w : should_skip_migration s r' w = true -> should_skip_migration (set_migrating_status r s) r' w = true.
Proof. intros H. destruct (decide (fr_id r = fr_id r')); [by apply skip_mark_same|]. by rewrite skip_mark_other. Qed.

(** What a run of the loop selects: requests of the list that were not to be skipped, each
    once, each within the budget, and no further one once the budget is used up. *)
Record picked (t : string) (w : bool) (budget acc : Z) (reqs : list R) (s : St) (l : list R) (acc' : Z) : Prop := {
  picked_sub : l ⊆+ reqs;
  picked_eligible : Forall (fun r => should_skip_migration s r w = false) l;
  picked_once : NoDup (fr_id <$> l);
  picked_cost : Forall (fun r => cost_of t r <= budget) l;
  picked_total : acc' = acc + total_cost t l;
  picked_last : l = [] \/ acc' < 2 * budget
}.

Lemma select_loop_picked t w budget reqs acc s : 0 <= acc ->
  match select_loop t w budget reqs acc s with
  | (Some (l, acc'), s') => picked t w budget acc reqs s l acc' /\ s' = mark_all l s
  | (None, _) => get_budget 0 (mkMigrationParams t "" 0 0 f_zero "") = None
  end.
Proof.
  revert acc s. induction reqs as [|r reqs IH]; intros acc s Hacc; cbn [select_loop].
  { split; [|done]. split; [done|constructor|constructor|constructor|cbn; lia|by left]. }
  assert (Hskip : forall s', match select_loop t w budget reqs acc s' with
    | (Some (l, acc'), s'') => picked t w budget acc (r :: reqs) s' l acc' /\ s'' = mark_all l s'
    | (None, _) => get_budget 0 (mkMigrationParams t "" 0 0 f_zero "") = None end).
  { intros s'. specialize (IH acc s' Hacc). destruct (select_loop _ _ _ _ _ _) as [[[l acc']|] s'']; [|done].
    destruct IH as [[H1 H2 H3 H4 H5 H6] ->]. split; [|done]. split; try done. by apply submseteq_cons. }
  case_bool_decide as Hb.
  { split; [|done]. split; [apply submseteq_nil_l|constructor|constructor|constructor|cbn; lia|by left]. }
  destruct (should_skip_migration s r w) eqn:Hs; [apply Hskip|].
  destruct (get_request_cost r t) as [c|] eqn:Hc.
  2: { unfold get_request_cost in Hc. unfold get_budget. cbn. repeat case_bool_decide; naive_solver. }
  assert (Hcr : cost_of t r = c) by (unfold cost_of; by rewrite Hc). pose proof (cost_nonneg t r) as Hc0.
  case_bool_decide as Hbc; [apply Hskip|].
  specialize (IH (acc + c) (set_migrating_status r s) ltac:(lia)). destruct (select_loop _ _ _ _ _ _) as [[[l acc']|] s'] eqn:Hl; [|done]. cbn.
  destruct IH as [[H1 H2 H3 H4 H5 H6] ->]. split; [|done]. split.
  - by constructor.
  - constructor; [done|]. eapply Forall_impl; [|exact H2]. intros r' Hr'. cbv beta in *.
    destruct (should_skip_migration s r' w) eqn:E; [|done]. pose proof (skip_mark_mono s r r' w E). congruence.
  - cbn. apply list.NoDup_cons. split; [|done]. intros (r' & He & Hr')%list_elem_of_fmap. rewrite list.Forall_forall in H2.
    specialize (H2 r' Hr'). by rewrite skip_mark_same in H2.
  - constructor; [lia|done].
  - cbn. lia.
  - right. destruct H6 as [->|H6]; [cbn in H5; lia|done].
Qed.

Lemma omap_seq_lookup (l : list R) : omap (fun i => l !! i) (seq 0 (length l)) = l.
Proof.
  assert (H : forall pre, omap (fun i => (pre ++ l) !! i) (seq (length pre) (length l)) = l); [|exact (H [])].
  induction l as [|x l IH]; intros pre; [done|]. cbn. rewrite list_lookup_middle by done. cbn. f_equal.
  specialize (IH (pre ++ [x])). rewrite <- app_assoc in IH. cbn in IH. rewrite length_app in IH. cbn in IH.
  replace (S (length pre)) with (length pre + 1)%nat by lia. exact IH.
Qed.

Lemma omap_indices (l : list R) (indices : list nat) : indices ≡ₚ seq 0 (length l) -> omap (fun i => l !! i) indices ≡ₚ l.
Proof. intros ->. by rewrite omap_seq_lookup. Qed.

Lemma sorted_indices_perm policy (reqs : list R) : get_sorted_indices policy reqs ≡ₚ seq 0 (length reqs).
Proof. unfold get_sorted_indices. repeat case_match; rewrite ?sorted_by_perm, ?reverse_Permutation; done. Qed.

Lemma mark_all_mono l s r w : should_skip_migration s r w = true -> should_skip_migration (mark_all l s) r w = true.
Proof. revert s. induction l as [|x l IH]; intros s H; [done|]. by apply IH, skip_mark_mono. Qed.

Lemma mark_all_skips l s r r' w : r ∈ l -> fr_id r = fr_id r' -> should_skip_migration (mark_all l s) r' w = true.
Proof.
  intros Hr He. revert s. induction l as [|x l IH]; intros s; [by apply elem_of_nil in Hr|]. cbn.
  apply elem_of_cons in Hr as [->|Hr]; [|by apply IH]. apply mark_all_mono. by apply skip_mark_same.
Qed.

Lemma select_list_picked t reqs indices b w s :
  get_budget 0 (mkMigrationParams t "" 0 0 f_zero "") <> None -> indices ≡ₚ seq 0 (length reqs) ->
  exists l, select_requests_from_list reqs indices b t w s = (Some (l, Z.max 0 (b - total_cost t l)), mark_all l s) /\
    picked t w b 0 reqs s l (total_cost t l).
Proof.
  intros Ht Hi. unfold select_requests_from_list.
  pose proof (select_loop_picked t w b (omap (fun i => reqs !! i) indices) 0 s ltac:(lia)) as H.
  destruct (select_loop _ _ _ _ _ _) as [[[l acc']|] s']; [|done]. cbn. destruct H as [[H1 H2 H3 H4 H5 H6] ->]. cbn in H5. subst acc'.
  exists l. split; [done|]. split; try done. by rewrite <- (omap_indices reqs indices Hi).
Qed.

Definition eligible (s : St) (running waiting : list R) (r : R) : Prop :=
  (r ∈ waiting /\ should_skip_migration s r true = false) \/ (r ∈ running /\ should_skip_migration s r false = false).

Lemma picked_eligible_in t w b reqs s s0 l acc r : picked t w b 0 reqs (mark_all s0 s) l acc -> r ∈ l -> r ∈ reqs /\ should_skip_migration s r w = false.
Proof.
  intros [H1 H2 _ _ _ _] Hr. split; [by eapply elem_of_submseteq|]. rewrite list.Forall_forall in H2. specialize (H2 r Hr).
  destruct (should_skip_migration s r w) eqn:E; [|done]. by rewrite (mark_all_mono s0 s r w E) in H2.
Qed.

(** Whatever the policy and the kind of budget, the requests chosen for a migration that is
    not a drain are requests of the engine that were not to be skipped, none of them twice,
    none larger than the budget, of less than twice the budget in total; and exactly they
    are marked. *)
Theorem selection_within_budget iter total p running waiting s budget :
  drain p = false -> get_budget total p = Some budget ->
  let '(l, s') := get_migrated_requests iter total p running waiting s in
  NoDup (fr_id <$> l) /\ s' = mark_all l s /\ Forall (eligible s running waiting) l /\
  Forall (fun r => cost_of (migration_type p) r <= budget) l /\
  (l = [] \/ total_cost (migration_type p) l < 2 * budget).
Proof.
  intros Hd Hb. unfold get_migrated_requests. rewrite Hd, Hb.
  assert (Hty : get_budget 0 (mkMigrationParams (migration_type p) "" 0 0 f_zero "") <> None).
  { unfold get_budget in Hb |- *. cbn. by repeat case_bool_decide. }
  set (t := migration_type p) in *.
  destruct (bool_decide (mig_req_policy p = FCW) || _).
  - destruct (select_list_picked t waiting (seq 0 (length waiting)) budget true s Hty) as (l & -> & Hl); [done|].
    assert (HwF : Forall (eligible s running waiting) l) by (apply list.Forall_forall; intros r Hr; left; by apply (picked_eligible_in t true budget waiting s [] l _ r Hl)).
    destruct Hl as [A1 A2 A3 A4 _ A6].
    destruct (bool_decide (mig_req_policy p = FCWSR) && bool_decide (0 < _)) eqn:Hsr; [|done].
    apply andb_true_iff in Hsr as [_ Hrem%bool_decide_eq_true_1]. set (rem := Z.max 0 (budget - total_cost t l)) in *.
    destruct (select_list_picked t running (get_sorted_indices (mig_req_policy p) running) rem false (mark_all l s) Hty) as (l2 & -> & Hl2); [apply sorted_indices_perm|].
    pose proof (total_cost_nonneg t l) as Hn. split_and!.
    + rewrite fmap_app. apply list.NoDup_app. split; [done|]. split; [|by destruct Hl2]. intros i (r & -> & Hr)%list_elem_of_fmap (r2 & He & Hr2)%list_elem_of_fmap.
      destruct (picked_eligible_in t false rem running (mark_all l s) [] l2 _ r2 Hl2 Hr2) as [_ Hs]. by rewrite (mark_all_skips l s r r2 false Hr He) in Hs.
    + unfold mark_all. by rewrite fold_left_app.
    + apply Forall_app. split; [done|]. apply list.Forall_forall. intros r Hr. right. by apply (picked_eligible_in t false rem running s l l2 _ r Hl2).
    + apply Forall_app. split; [done|]. destruct Hl2 as [_ _ _ B4 _ _]. eapply Forall_impl; [|exact B4]. cbn. lia.
    + right. rewrite total_cost_app. destruct Hl2 as [_ _ _ _ _ B6], A6 as [->|A6], B6 as [->|B6]; cbn in *; lia.
  - destruct (select_list_picked t running (get_sorted_indices (mig_req_policy p) running) budget false s Hty) as (l & -> & Hl); [apply sorted_indices_perm|].
    split; [by destruct Hl|]. split; [done|]. split; [|by destruct Hl]. apply list.Forall_forall. intros r Hr. right.
    by apply (picked_eligible_in t false budget running s [] l _ r Hl).
Qed.

(** ** The choice by number of requests *)

Definition unmarked (s : St) (w : bool) (reqs : list R) : list R := List.filter (fun r => negb (should_skip_migration s r w)) reqs.

Definition in_policy_order (policy : string) (reqs : list R) : list R := omap (fun i => reqs !! i) (get_sorted_indices policy reqs).

(** The requests that may leave, in the order of the policy. *)
Definition candidates (policy : string) (s : St) (running waiting : list R) : list R :=
  if bool_decide (policy = FCW) then unmarked s true waiting
  else if bool_decide (policy = FCWSR) then unmarked s true waiting ++ unmarked s false (in_policy_order policy running)
  else unmarked s false (in_policy_order policy running).

Lemma unmarked_other r s w reqs : fr_id r ∉ fr_id <$> reqs -> unmarked (set_migrating_status r s) w reqs = unmarked s w reqs.
Proof.
  unfold unmarked. induction reqs as [|x reqs IH]; [done|]. cbn. intros [Hx Hr]%not_elem_of_cons.
  rewrite skip_mark_other by done. by rewrite IH.
Qed.

Lemma unmarked_all l s w reqs : (forall r, r ∈ l -> fr_id r ∉ fr_id <$> reqs) -> unmarked (mark_all l s) w reqs = unmarked s w reqs.
Proof.
  revert s. induction l as [|r l IH]; intros s H; [done|]. cbn. rewrite IH by (intros; apply H; by right).
  apply unmarked_other, H. by left.
Qed.

Lemma select_loop_count w budget reqs acc s : NoDup (fr_id <$> reqs) -> 1 <= budget -> 0 <= acc ->
  let l := take (Z.to_nat (budget - acc)) (unmarked s w reqs) in
  select_loop NUM_REQ w budget reqs acc s = (Some (l, acc + Z.of_nat (length l)), mark_all l s).
Proof.
  intros Hn Hb. revert acc s. induction reqs as [|r reqs IH]; intros acc s Hacc; cbn [select_loop unmarked List.filter].
  { rewrite take_nil. cbn. by rewrite Z.add_0_r. }
  cbn in Hn. apply list.NoDup_cons in Hn as [Hr Hn]. case_bool_decide as Hfull.
  { replace (Z.to_nat (budget - acc)) with 0%nat by lia. cbn. by rewrite Z.add_0_r. }
  destruct (should_skip_migration s r w); cbn [negb]; [by apply IH|].
  replace (get_request_cost r NUM_REQ) with (Some 1) by done. rewrite (bool_decide_false (budget < 1)) by lia.
  rewrite (IH Hn (acc + 1) _ ltac:(lia)). fold (unmarked (set_migrating_status r s) w reqs) (unmarked s w reqs). rewrite unmarked_other by done.
  replace (Z.to_nat (budget - acc)) with (S (Z.to_nat (budget - (acc + 1)))) by lia. cbn. do 2 f_equal. f_equal. lia.
Qed.

Lemma select_list_count reqs indices budget w s : indices ≡ₚ seq 0 (length reqs) -> NoDup (fr_id <$> reqs) -> 1 <= budget ->
  let l := take (Z.to_nat budget) (unmarked s w (omap (fun i => reqs !! i) indices)) in
  select_requests_from_list reqs indices budget NUM_REQ w s = (Some (l, Z.max 0 (budget - Z.of_nat (length l))), mark_all l s).
Proof.
  intros Hi Hn Hb. unfold select_requests_from_list. rewrite select_loop_count; [|by rewrite (omap_indices _ _ Hi)|done|lia].
  by rewrite Z.sub_0_r.
Qed.

Lemma unmarked_elem s w reqs r : r ∈ unmarked s w reqs -> r ∈ reqs.
Proof. intros [H _]%list_elem_of_In%filter_In. by apply list_elem_of_In. Qed.

(** C32. A migration by number of n requests, n at least one and the requests' ids distinct, takes
    the first n requests in the order of the policy that are not to be skipped: the waiting ones
    before the running ones where the policy says so, and all there are when there are fewer. *)
Theorem selection_by_number_exact iter total p running waiting s :
  migration_type p = NUM_REQ -> 1 <= num_reqs p -> NoDup (fr_id <$> waiting ++ running) ->
  (get_migrated_requests iter total p running waiting s).1 =
  take (Z.to_nat (num_reqs p)) (candidates (mig_req_policy p) s running waiting).
Proof.
  intros Ht Hn Hd. rewrite fmap_app in Hd. apply list.NoDup_app in Hd as (Hw & Hdis & Hr). unfold get_migrated_requests, drain, get_budget, candidates.
  rewrite Ht, (bool_decide_false (num_reqs p = -1)), andb_false_r by lia. set (b := num_reqs p) in *.
  change (bool_decide (NUM_REQ = TOKEN)) with false. change (bool_decide (NUM_REQ = RATIO)) with false. change (bool_decide (NUM_REQ = NUM_REQ)) with true. cbv iota.
  destruct (decide (mig_req_policy p = FCW)) as [->|Hfcw].
  { change (bool_decide (FCW = FCW)) with true. change (bool_decide (FCW = FCWSR)) with false. cbn [orb andb].
    rewrite select_list_count by done. by rewrite omap_seq_lookup. }
  rewrite (bool_decide_false (mig_req_policy p = FCW)) by done. cbn [orb]. case_bool_decide as Hsr.
  - rewrite select_list_count by done. rewrite omap_seq_lookup. cbn [andb]. set (l := take (Z.to_nat b) (unmarked s true waiting)).
    case_bool_decide as Hrem.
    + rewrite select_list_count by (done || apply sorted_indices_perm || lia). cbn [fst]. fold (in_policy_order (mig_req_policy p) running).
      rewrite unmarked_all.
      2: { intros r Hr1 Hr2. apply (Hdis (fr_id r)); [apply list_elem_of_fmap_2|].
           - eapply unmarked_elem, (subseteq_take _ _). exact Hr1.
           - by rewrite <- (omap_indices running (get_sorted_indices (mig_req_policy p) running) (sorted_indices_perm _ _)). }
      assert (Hl : (length l < Z.to_nat b)%nat) by lia. unfold l in Hl |- *. rewrite length_take in Hl.
      rewrite !(take_ge (unmarked s true waiting)) by lia. rewrite take_app_ge by lia. do 2 f_equal. lia.
    + assert (Hl : (Z.to_nat b <= length l)%nat) by lia. cbn [fst]. unfold l in Hl |- *. rewrite length_take in Hl. by rewrite take_app_le by lia.
  - rewrite select_list_count by (done || apply sorted_indices_perm). done.
Qed.

End selection.

(** ** The orders *)

Lemma insert_before_sorted {A} (before : A -> A -> bool) x l :
  (forall a b, before a b = false -> before b a = true) ->
  Sorted (fun a b => before a b = true) l -> Sorted (fun a b => before a b = true) (insert_before before x l).
Proof.
  intros Htot. induction 1 as [|y l Hl IH Hd]; cbn; [by repeat constructor|]. destruct (before x y) eqn:E.
  - constructor; [by constructor|by constructor].
  - constructor; [done|]. apply Htot in E. destruct Hd as [|z l Hz]; cbn; [by constructor|]. destruct (before x z); by constructor.
Qed.

Lemma sorted_by_sorted {A} (before : A -> A -> bool) l : (forall a b, before a b = false -> before b a = true) -> Sorted (fun a b => before a b = true) (sorted_by before l).
Proof. intros Htot. induction l as [|x l IH]; [constructor|]. by apply insert_before_sorted. Qed.

Lemma Sorted_weaken {A} (P Q : A -> A -> Prop) l : (forall a b, P a b -> Q a b) -> Sorted P l -> Sorted Q l.
Proof. intros H. induction 1 as [|x l Hl IH Hd]; constructor; [done|]. destruct Hd; constructor; auto. Qed.

Section orders.
Context {R St : Type} `{!Frontend R St}.

Lemma ordered_by_key (rel : Z -> Z -> bool) (reqs : list R) (indices : list nat) :
  Forall (fun i => (i < length reqs)%nat) indices ->
  Sorted (fun i j => rel (key_at reqs i) (key_at reqs j) = true) indices ->
  Sorted (fun r r' => rel (sorting_key r) (sorting_key r') = true) (omap (fun i => reqs !! i) indices).
Proof.
  intros Hi. induction 1 as [|i l Hl IH Hd]; [constructor|]. apply Forall_cons_iff in Hi as [Hi Hrest]. cbn.
  destruct (lookup_lt_is_Some_2 reqs i Hi) as [r Hr]. rewrite Hr. constructor; [by apply IH|].
  destruct Hd as [|j l Hj]; [constructor|]. apply Forall_cons_iff in Hrest as [Hj' _].
  destruct (lookup_lt_is_Some_2 reqs j Hj') as [r' Hr']. cbn. rewrite Hr'. constructor. unfold key_at in Hj. by rewrite Hr, Hr' in Hj.
Qed.

(** The policies: the last request first, the shortest first, the longest first. *)
Theorem policy_orders (reqs : list R) :
  in_policy_order LCR reqs = reverse reqs /\
  Sorted (fun r r' => sorting_key r <= sorting_key r') (in_policy_order SR reqs) /\
  Sorted (fun r r' => sorting_key r <= sorting_key r') (in_policy_order FCWSR reqs) /\
  Sorted (fun r r' => sorting_key r' <= sorting_key r) (in_policy_order LR reqs).
Proof.
  assert (Hin : forall policy, Forall (fun i => (i < length reqs)%nat) (get_sorted_indices policy reqs)).
  { intros policy. apply list.Forall_forall. intros i Hi. rewrite (sorted_indices_perm (R := R)) in Hi. apply elem_of_seq in Hi. lia. }
  assert (Hsort : forall (rel : Z -> Z -> bool), (forall a b, rel a b = false -> rel b a = true) ->
    Sorted (fun i j => rel (key_at reqs i) (key_at reqs j) = true) (sorted_by (fun i j => rel (key_at reqs i) (key_at reqs j)) (seq 0 (length reqs)))).
  { intros rel Hrel. apply (sorted_by_sorted (fun i j => rel (key_at reqs i) (key_at reqs j))). intros a b. apply Hrel. }
  assert (Hup : Sorted (fun r r' => sorting_key r <= sorting_key r') (omap (fun i => reqs !! i) (sorted_by (fun i j => bool_decide (key_at reqs i <= key_at reqs j)) (seq 0 (length reqs))))).
  { pose proof (ordered_by_key (fun a b => bool_decide (a <= b)) reqs _ (Hin SR) (Hsort (fun a b => bool_decide (a <= b)) ltac:(intros a b H%bool_decide_eq_false_1; apply bool_decide_eq_true_2; lia))) as H.
    eapply Sorted_weaken; [|exact H]. intros a b. apply bool_decide_eq_true_1. }
  split_and!; [|exact Hup|exact Hup|].
  - unfold in_policy_order. change (get_sorted_indices LCR reqs) with (reverse (seq 0 (length reqs))).
    rewrite <- (omap_seq_lookup reqs) at 2. generalize (seq 0 (length reqs)). intros l. induction l as [|i l IH] using rev_ind; [by rewrite !reverse_nil|].
    rewrite reverse_snoc, omap_app, reverse_app, <- IH. cbn. by destruct (reqs !! i).
  - pose proof (ordered_by_key (fun a b => bool_decide (b <= a)) reqs _ (Hin LR) (Hsort (fun a b => bool_decide (b <= a)) ltac:(intros a b H%bool_decide_eq_false_1; apply bool_decide_eq_true_2; lia))) as H.
    eapply Sorted_weaken; [|exact H]. intros a b. apply bool_decide_eq_true_1.
Qed.

End orders.

(** ** The scheduler's requests *)

(** What the value of a request says, for its type. *)
Definition same_value (v : migration_value) (p : MigrationParams) : Prop :=
  match v with
  | NumReqs n => migration_type p = NUM_REQ /\ num_reqs p = n
  | MigrateTokens n => migration_type p = TOKEN /\ num_tokens p = n
  | KvCacheUsageRatio x => migration_type p = RATIO /\ kv_cache_usage_ratio p = f32_to_f64 x
  end.

(** Every migration request that the rescheduler builds passes the checks of the instance's
    server, which reads out of it the type, the order and the value that the scheduler's
    policy chose. *)
Theorem scheduler_requests_understood pair dst r : migrate_request pair dst = Some r ->
  exists p, generate_migration_params r = Some p /\ mig_req_policy p = reqSelectOrder pair /\ same_value (MigrationValue r) p.
Proof.
  unfold migrate_request, generate_migration_params, validate_migration_type. destruct (decide (reqSelectRule pair = _)) as [E|_].
  { intros [= <-]. cbn. rewrite E. by eexists. }
  destruct (decide (reqSelectRule pair = _)) as [E|_].
  { intros [= <-]. cbn. rewrite E. by eexists. }
  destruct (decide (reqSelectRule pair = _)) as [E|_]; [|done].
  intros [= <-]. cbn. rewrite E. by eexists.
Qed.
