(* ===== verification/KvtFrontend.v ===== *)
(** * Migration in the engine: the KVT frontend

    [kvt_migration_frontend.py] of [python/llumnix/llumnix/migration_frontend/vllm_v1]. It works
    on snapshots of the engine's queues that the engine pushes to it, and sends the chosen
    requests itself. A method that awaits is split there: what it does before is one step, what
    it does with the answers another, and what is between two awaits is one step even when
    another thread runs beside it. A migration before a stop that runs into its time limit is
    given up, but the coroutine that sends its requests goes on and its answers come later. *)

From stdpp Require Import base gmap sets list strings numbers.
From S2P Require Import Prelude GoStrings GoFloat Types MigrationFrontend.

Local Open Scope Z_scope.

(** What the frontends read of the engine's requests. *)
Record EngineCoreRequest := mkCoreReq { request_id : string; prompt_len : nat }.
Record EngineRequest := mkEngineReq { er_id : string; er_prompt_len : nat; er_num_output_tokens : nat }.

Abbreviation snap := (EngineCoreRequest * nat)%type (only parsing).

(** ** kvt_migration_frontend.py *)

Record KVT := mkKVT {
  migrating_reqs : gset string;
  enginecore_requests : gmap string EngineCoreRequest;
  migration_finish_event : bool;
  scheduler_state_queue : option (option (list snap) * option (list snap));
  latest_running_snapshot : option (list snap);
  latest_waiting_snapshot : option (list snap);
  g_migrate_out_req_ids : gset string;
  g_migrate_out_req_info : gmap string Z;
  get_detailed_migration_status : bool
}.

Definition kvt_start (detailed : bool) : KVT := mkKVT ∅ ∅ true None None None ∅ ∅ detailed.

Definition set_migrating (m : gset string) (k : KVT) : KVT :=
  mkKVT m (enginecore_requests k) (migration_finish_event k) (scheduler_state_queue k) (latest_running_snapshot k) (latest_waiting_snapshot k)
    (g_migrate_out_req_ids k) (g_migrate_out_req_info k) (get_detailed_migration_status k).
Definition set_finish_event (b : bool) (k : KVT) : KVT :=
  mkKVT (migrating_reqs k) (enginecore_requests k) b (scheduler_state_queue k) (latest_running_snapshot k) (latest_waiting_snapshot k)
    (g_migrate_out_req_ids k) (g_migrate_out_req_info k) (get_detailed_migration_status k).

Definition snap_id (r : snap) : string := request_id r.1.
Definition snap_tokens (r : snap) : Z := Z.of_nat (prompt_len r.1) + Z.of_nat r.2.

#[export] Instance kvt_frontend : Frontend snap KVT := {
  should_skip_migration k r is_in_waiting := (negb is_in_waiting && bool_decide (r.2 < 1)%nat) || bool_decide (snap_id r ∈ migrating_reqs k);
  set_migrating_status r k := set_migrating ({[snap_id r]} ∪ migrating_reqs k) k;
  request_tokens := snap_tokens;
  sorting_key := snap_tokens;
  fr_id := snap_id
}.

#[export] Instance kvt_laws : FrontendLaws snap KVT.
Proof.
  split; cbn.
  - intros k r r' w Hid. f_equal. apply bool_decide_ext. rewrite elem_of_union, elem_of_singleton. naive_solver.
  - intros k r r' w Hid. rewrite (bool_decide_true (snap_id r' ∈ _)); [apply orb_true_r|]. apply elem_of_union_l. by apply elem_of_singleton.
  - intros r. unfold snap_tokens. lia.
Qed.

Lemma not_skipped (k : KVT) (r : snap) w : should_skip_migration k r w = false -> snap_id r ∉ migrating_reqs k.
Proof. intros [_ H]%orb_false_iff. by apply bool_decide_eq_false_1 in H. Qed.

Section kvt.
Context (req2corereq : EngineRequest -> EngineCoreRequest).

Definition get_enginecore_request (r : EngineRequest) (k : KVT) : EngineCoreRequest * KVT :=
  match enginecore_requests k !! er_id r with
  | Some c => (c, k)
  | None =>
      let c := req2corereq r in
      (c, mkKVT (migrating_reqs k) (<[er_id r := c]> (enginecore_requests k)) (migration_finish_event k) (scheduler_state_queue k)
            (latest_running_snapshot k) (latest_waiting_snapshot k) (g_migrate_out_req_ids k) (g_migrate_out_req_info k) (get_detailed_migration_status k))
  end.

Definition count_migrate_out (r : EngineRequest) (k : KVT) : KVT :=
  mkKVT ({[er_id r]} ∪ migrating_reqs k) (enginecore_requests k) (migration_finish_event k) (scheduler_state_queue k)
    (latest_running_snapshot k) (latest_waiting_snapshot k) ({[er_id r]} ∪ g_migrate_out_req_ids k)
    (if get_detailed_migration_status k then <[er_id r := Z.of_nat (er_prompt_len r) + Z.of_nat (er_num_output_tokens r)]> (g_migrate_out_req_info k) else g_migrate_out_req_info k)
    (get_detailed_migration_status k).

(** [reqs] are the waiting and then the running requests of the scheduler. *)
Fixpoint iter_scheduler_requests (reqs : list EngineRequest) (k : KVT) : list snap * KVT :=
  match reqs with
  | [] => ([], k)
  | r :: reqs =>
      if bool_decide (er_id r ∈ migrating_reqs k) then iter_scheduler_requests reqs k
      else
        let '(c, k) := get_enginecore_request r k in
        let '(l, k) := iter_scheduler_requests reqs (count_migrate_out r k) in
        ((c, er_num_output_tokens r) :: l, k)
  end.

Definition cleanup_one (id : string) (k : KVT) : KVT :=
  mkKVT (migrating_reqs k ∖ {[id]}) (enginecore_requests k) (migration_finish_event k) (scheduler_state_queue k)
    (latest_running_snapshot k) (latest_waiting_snapshot k) (g_migrate_out_req_ids k ∖ {[id]})
    (if get_detailed_migration_status k then delete id (g_migrate_out_req_info k) else g_migrate_out_req_info k) (get_detailed_migration_status k).

Definition cleanup_failed_migration (reqs : list snap) (k : KVT) : KVT := fold_left (fun k r => cleanup_one (snap_id r) k) reqs k.

Definition update_req_status (st : option (list snap) * option (list snap)) (k : KVT) : KVT :=
  mkKVT (migrating_reqs k) (enginecore_requests k) (migration_finish_event k) (Some st) (latest_running_snapshot k) (latest_waiting_snapshot k)
    (g_migrate_out_req_ids k) (g_migrate_out_req_info k) (get_detailed_migration_status k).

Definition snap_ids (l : list snap) : gset string := list_to_set (snap_id <$> l).

(** [true] is an exception: the sizes of the two snapshots are logged before they are
    compared with [None]. *)
Definition update_snapshots (k : KVT) : bool * KVT :=
  match scheduler_state_queue k with
  | None => (false, k)
  | Some (r, w) =>
      let k := mkKVT (migrating_reqs k) (enginecore_requests k) (migration_finish_event k) None r w
                 (g_migrate_out_req_ids k) (g_migrate_out_req_info k) (get_detailed_migration_status k) in
      match r, w with
      | Some r, Some w => (false, set_migrating (migrating_reqs k ∩ (snap_ids r ∪ snap_ids w)) k)
      | _, _ => (true, k)
      end
  end.

(** [migrate_out] up to the sending of the requests. *)
Inductive out_start := OutReturn (b : bool) | OutRaise | OutDispatch (reqs : list snap).

Definition dispatch_or_end (reqs : list snap) (k : KVT) : out_start * KVT :=
  if bool_decide (reqs = []) then (OutReturn false, set_finish_event true k) else (OutDispatch reqs, k).

Definition migrate_out (sched : list EngineRequest) (total_tokens : Z) (p : MigrationParams) (k : KVT) : out_start * KVT :=
  if negb (migration_finish_event k) then (OutReturn false, k)
  else
    let '(raised, k) := update_snapshots (set_finish_event false k) in
    if raised : bool then (OutRaise, k)
    else match latest_running_snapshot k, latest_waiting_snapshot k with
         | Some running, Some waiting =>
             let '(reqs, k) := get_migrated_requests (iter_scheduler_requests sched) total_tokens p running waiting k in dispatch_or_end reqs k
         | _, _ => (OutReturn false, set_finish_event true k)
         end.

(** [migrate_out_prestop]; [in_time]: whether a migration in progress ended in time. *)
Definition migrate_out_prestop (is_hybrid in_time : bool) (sched : list EngineRequest) (k : KVT) : out_start * KVT :=
  if is_hybrid then (OutReturn false, k)
  else if negb (migration_finish_event k) && negb in_time then (OutReturn false, k)
  else let '(reqs, k) := iter_scheduler_requests sched (set_finish_event false k) in dispatch_or_end reqs k.

Inductive migrate_result := MigrateOk | MigrateRejected | MigrateException.

#[export] Instance migrate_result_eq_dec : EqDecision migrate_result.
Proof. solve_decision. Defined.

(** [_dispatch_and_collect_tasks] with the answers of the destination, in order. *)
Definition with_result (x : migrate_result) (reqs : list snap) (results : list migrate_result) : list snap :=
  (filter (fun e => e.2 = x) (zip reqs results)).*1.
Definition accepted_of : list snap -> list migrate_result -> list snap := with_result MigrateOk.
Definition not_accepted (reqs : list snap) (results : list migrate_result) : list snap :=
  with_result MigrateException reqs results ++ with_result MigrateRejected reqs results.

Definition dispatch_and_collect_tasks (reqs : list snap) (results : list migrate_result) (k : KVT) : bool * KVT :=
  (negb (bool_decide (accepted_of reqs results = [])), cleanup_failed_migration (not_accepted reqs results) k).

(** The rest of [migrate_out] and of [migrate_out_prestop]; [None] is an exception out of the
    waiting. *)
Definition migrate_out_end (reqs : list snap) (results : option (list migrate_result)) (k : KVT) : bool * KVT :=
  match results with
  | None => (false, set_finish_event true (cleanup_failed_migration reqs k))
  | Some results => let '(res, k) := dispatch_and_collect_tasks reqs results k in (res, set_finish_event true k)
  end.

Definition clear_finished_reqs (sched : list EngineRequest) (k : KVT) : KVT :=
  mkKVT (migrating_reqs k) (filter (fun kv => kv.1 ∈ er_id <$> sched) (enginecore_requests k)) (migration_finish_event k) (scheduler_state_queue k)
    (latest_running_snapshot k) (latest_waiting_snapshot k) (g_migrate_out_req_ids k) (g_migrate_out_req_info k) (get_detailed_migration_status k).

(** ** Runs of the frontend

    [inflight]: the requests that were sent and not answered, and whether that is for a stop.
    [given_up]: the requests of the coroutines that go on after a time limit, and [orphaned] the
    identifiers that ever were among them. [accepted]: the requests that a destination took over
    and that the snapshots still list. *)

Record World := mkWorld {
  wk : KVT;
  inflight : option (bool * list snap);
  given_up : list (list snap);
  orphaned : gset string;
  accepted : gset string
}.

(** What reading the pending snapshots leaves of a set of requests. *)
Definition still_listed (k : KVT) (ids : gset string) : gset string :=
  match migration_finish_event k, scheduler_state_queue k with
  | true, Some (Some r, Some w) => ids ∩ (snap_ids r ∪ snap_ids w)
  | _, _ => ids
  end.

Definition with_frontend (k : KVT) (w : World) : World := mkWorld k (inflight w) (given_up w) (orphaned w) (accepted w).

Definition started_world (for_stop : bool) (w : World) (acc : gset string) (o : out_start * KVT) : World :=
  mkWorld o.2 (match o.1 with OutDispatch reqs => Some (for_stop, reqs) | _ => inflight w end) (given_up w) (orphaned w) acc.

Definition taken_over (reqs : list snap) (results : option (list migrate_result)) : gset string :=
  list_to_set (snap_id <$> default [] (accepted_of reqs <$> results)).

Inductive kvt_step : World -> World -> Prop :=
  | kvt_push running waiting w : kvt_step w (with_frontend (update_req_status (Some running, Some waiting) (wk w)) w)
  | kvt_migrate sched total p w : kvt_step w (started_world false w (still_listed (wk w) (accepted w)) (migrate_out sched total p (wk w)))
  | kvt_prestop hybrid in_time sched w : (in_time = true -> migration_finish_event (wk w) = true) ->
      kvt_step w (started_world true w (accepted w) (migrate_out_prestop hybrid in_time sched (wk w)))
  | kvt_answer for_stop reqs results w : inflight w = Some (for_stop, reqs) ->
      kvt_step w (mkWorld (migrate_out_end reqs results (wk w)).2 None (given_up w) (orphaned w) (taken_over reqs results ∪ accepted w))
  | kvt_time_limit reqs w : inflight w = Some (true, reqs) ->
      kvt_step w (mkWorld (migrate_out_end reqs None (wk w)).2 None (given_up w ++ [reqs]) (snap_ids reqs ∪ orphaned w) (accepted w))
  | kvt_late_answer n reqs results w : given_up w !! n = Some reqs ->
      kvt_step w (mkWorld (dispatch_and_collect_tasks reqs results (wk w)).2 (inflight w) (delete n (given_up w)) (orphaned w)
        (taken_over reqs (Some results) ∪ accepted w))
  | kvt_clear sched w : kvt_step w (with_frontend (clear_finished_reqs sched (wk w)) w).

Definition world_start (detailed : bool) : World := mkWorld (kvt_start detailed) None [] ∅ ∅.

Definition coherent (k : KVT) : Prop := forall id c, enginecore_requests k !! id = Some c -> request_id c = id.

Definition queue_full (k : KVT) : Prop :=
  match scheduler_state_queue k with Some (Some _, Some _) | None => True | _ => False end.

Record kvt_inv (w : World) : Prop := {
  inv_event : migration_finish_event (wk w) = true <-> inflight w = None;
  inv_inflight : forall b reqs, inflight w = Some (b, reqs) ->
    NoDup (snap_id <$> reqs) /\
    (forall r, r ∈ reqs -> snap_id r ∉ orphaned w -> snap_id r ∈ migrating_reqs (wk w) /\ snap_id r ∉ accepted w);
  inv_accepted : forall i, i ∈ accepted w -> i ∉ orphaned w -> i ∈ migrating_reqs (wk w);
  inv_given_up : forall reqs r, reqs ∈ given_up w -> r ∈ reqs -> snap_id r ∈ orphaned w;
  inv_coherent : coherent (wk w);
  inv_queue : queue_full (wk w)
}.

Context (Hreq2core : forall r, request_id (req2corereq r) = er_id r).

(** What sending [l] from the state [k] means for the state after it. *)
Record sends (l : list snap) (k k' : KVT) : Prop := {
  sends_once : NoDup (snap_id <$> l);
  sends_fresh : forall r, r ∈ l -> snap_id r ∉ migrating_reqs k;
  sends_marked : migrating_reqs k' = list_to_set (snap_id <$> l) ∪ migrating_reqs k;
  sends_event : migration_finish_event k' = migration_finish_event k;
  sends_queue : scheduler_state_queue k' = scheduler_state_queue k;
  sends_coherent : coherent k'
}.

Lemma get_enginecore_spec r k : coherent k ->
  exists c k', get_enginecore_request r k = (c, k') /\ request_id c = er_id r /\ coherent k' /\
    migrating_reqs k' = migrating_reqs k /\ migration_finish_event k' = migration_finish_event k /\ scheduler_state_queue k' = scheduler_state_queue k.
Proof.
  intros Hk. unfold get_enginecore_request. destruct (enginecore_requests k !! er_id r) as [c|] eqn:E.
  { exists c, k. split; [done|]. split; [by apply Hk|done]. }
  eexists _, _. split; [done|]. cbn. split; [apply Hreq2core|]. split; [|done].
  intros id c. cbn. destruct (decide (id = er_id r)) as [->|Hne]; [|rewrite lookup_insert_ne by done; apply Hk].
  rewrite lookup_insert_eq. intros [= <-]. apply Hreq2core.
Qed.

Lemma iter_sends reqs k : coherent k -> let '(l, k') := iter_scheduler_requests reqs k in sends l k k'.
Proof.
  revert k. induction reqs as [|r reqs IH]; intros k Hk; cbn [iter_scheduler_requests].
  { split; try done; [constructor|by intros r Hr%elem_of_nil|cbn; set_solver]. }
  case_bool_decide as Hin; [by apply IH|].
  destruct (get_enginecore_spec r k Hk) as (c & k1 & -> & Hc & Hk1 & Hm & He & Hq).
  specialize (IH (count_migrate_out r k1) Hk1). destruct (iter_scheduler_requests reqs _) as [l k']. destruct IH as [A1 A2 A3 A4 A5 A6]. cbn in A2, A3, A4, A5.
  assert (Hid : snap_id (c, er_num_output_tokens r) = er_id r) by done. split.
  - cbn [fmap list_fmap]. apply list.NoDup_cons. split; [|done]. rewrite Hid. intros (x & Hx & Hl)%list_elem_of_fmap. apply (A2 x Hl). rewrite <- Hx. set_solver.
  - intros x [->|Hx]%elem_of_cons; [by rewrite Hid|]. specialize (A2 x Hx). rewrite Hm in A2. set_solver.
  - cbn [fmap list_fmap list_to_set]. rewrite Hid, A3, Hm. set_solver.
  - by rewrite A4.
  - by rewrite A5.
  - done.
Qed.

Lemma mark_all_kvt (l : list snap) (k : KVT) : mark_all l k = set_migrating (list_to_set (snap_id <$> l) ∪ migrating_reqs k) k.
Proof.
  revert k. induction l as [|r l IH]; intros k; cbn [mark_all fold_left].
  - destruct k; cbn. unfold set_migrating. cbn. f_equal. set_solver.
  - fold (mark_all l (set_migrating_status r k)). rewrite IH. cbn. unfold set_migrating. cbn. f_equal. set_solver.
Qed.

Lemma choose_sends sched total p running waiting k : coherent k ->
  let '(l, k') := get_migrated_requests (iter_scheduler_requests sched) total p running waiting k in sends l k k'.
Proof.
  intros Hk. assert (Hnil : sends [] k k) by (split; try done; [constructor|by intros r Hr%elem_of_nil|cbn; set_solver]).
  destruct (drain p) eqn:Hd; [unfold get_migrated_requests; rewrite Hd; by apply iter_sends|].
  destruct (get_budget total p) as [b|] eqn:Hb; [|unfold get_migrated_requests; by rewrite Hd, Hb].
  pose proof (selection_within_budget (iter_scheduler_requests sched) total p running waiting k b Hd Hb) as H.
  destruct (get_migrated_requests _ _ _ _ _ _) as [l k']. destruct H as (H1 & -> & H3 & _). rewrite mark_all_kvt. split; try done.
  intros r Hr. rewrite list.Forall_forall in H3. destruct (H3 r Hr) as [[_ Hs]|[_ Hs]]; by apply not_skipped in Hs.
Qed.

(** The state in which a migration chooses its requests. *)
Definition choosing (k k1 : KVT) : Prop :=
  migrating_reqs k1 = still_listed k (migrating_reqs k) /\ migration_finish_event k1 = false /\ coherent k1 /\ queue_full k1.

Lemma update_snapshots_spec k : migration_finish_event k = true -> coherent k -> queue_full k ->
  exists k1, update_snapshots (set_finish_event false k) = (false, k1) /\ choosing k k1.
Proof.
  intros He Hc Hq. unfold update_snapshots, choosing, still_listed, queue_full in *. rewrite He. cbn.
  destruct (scheduler_state_queue k) as [[[r|] [w|]]|] eqn:E; try done; eexists; (split; [done|]); cbn; [done|]. by rewrite E.
Qed.

(** A migration that begins sends new requests, or leaves the frontend free. *)
Lemma migrate_out_spec sched total p k : migration_finish_event k = true -> coherent k -> queue_full k ->
  exists k1, choosing k k1 /\
  match migrate_out sched total p k with
  | (OutDispatch reqs, k') => reqs <> [] /\ sends reqs k1 k'
  | (OutReturn b, k') => b = false /\ sends [] k1 (set_finish_event false k') /\ migration_finish_event k' = true
  | (OutRaise, _) => False
  end.
Proof.
  intros He Hc Hq. unfold migrate_out. rewrite He. cbn [negb]. destruct (update_snapshots_spec k He Hc Hq) as (k1 & -> & Hk1). exists k1. split; [done|].
  destruct Hk1 as (Hm & Hev & Hc1 & Hq1). cbv iota.
  assert (Hnone : sends [] k1 (set_finish_event false (set_finish_event true k1))).
  { split; try done; [constructor|by intros r Hr%elem_of_nil|cbn; set_solver]. }
  destruct (latest_running_snapshot k1) as [running|]; [|done]. destruct (latest_waiting_snapshot k1) as [waiting|]; [|done].
  pose proof (choose_sends sched total p running waiting k1 Hc1) as Hs.
  destruct (get_migrated_requests _ _ _ _ _ _) as [l k']. unfold dispatch_or_end. case_bool_decide as Hl; [|done].
  subst l. destruct Hs as [A1 A2 A3 A4 A5 A6]. split; [done|]. split; [|done]. split; try done.
Qed.

Lemma prestop_spec hybrid in_time sched k : coherent k -> (in_time = true -> migration_finish_event k = true) ->
  migrate_out_prestop hybrid in_time sched k = (OutReturn false, k) \/
  migration_finish_event k = true /\
  match migrate_out_prestop hybrid in_time sched k with
  | (OutDispatch reqs, k') => reqs <> [] /\ sends reqs (set_finish_event false k) k'
  | (OutReturn b, k') => b = false /\ sends [] (set_finish_event false k) (set_finish_event false k') /\ migration_finish_event k' = true
  | (OutRaise, _) => False
  end.
Proof.
  intros Hc Ht. unfold migrate_out_prestop. destruct hybrid; [by left|].
  destruct (negb (migration_finish_event k) && negb in_time) eqn:E; [by left|]. right.
  assert (He : migration_finish_event k = true) by (destruct (migration_finish_event k), in_time; naive_solver). split; [done|].
  pose proof (iter_sends sched (set_finish_event false k) Hc) as Hs. destruct (iter_scheduler_requests _ _) as [l k'].
  unfold dispatch_or_end. case_bool_decide as Hl; [|done]. subst l. destruct Hs as [A1 A2 A3 A4 A5 A6]. split; [done|]. by split.
Qed.

Lemma cleanup_spec l k : migrating_reqs (cleanup_failed_migration l k) = migrating_reqs k ∖ list_to_set (snap_id <$> l) /\
  migration_finish_event (cleanup_failed_migration l k) = migration_finish_event k /\
  enginecore_requests (cleanup_failed_migration l k) = enginecore_requests k /\
  scheduler_state_queue (cleanup_failed_migration l k) = scheduler_state_queue k.
Proof.
  revert k. induction l as [|r l IH]; intros k; [split; [cbn; set_solver|done]|]. cbn [cleanup_failed_migration fold_left].
  fold (cleanup_failed_migration l (cleanup_one (snap_id r) k)). destruct (IH (cleanup_one (snap_id r) k)) as (-> & -> & -> & ->). cbn.
  split; [set_solver|done].
Qed.

Lemma with_result_sub x reqs results r : r ∈ with_result x reqs results -> r ∈ reqs.
Proof.
  unfold with_result. intros ([r' y] & -> & [_ H]%list_elem_of_filter)%list_elem_of_fmap. by apply elem_of_zip_l in H.
Qed.

Lemma with_result_disjoint x y reqs results i : NoDup (snap_id <$> reqs) -> x <> y ->
  i ∈ snap_id <$> with_result x reqs results -> i ∉ snap_id <$> with_result y reqs results.
Proof.
  unfold with_result. intros Hn Hxy. revert results. induction reqs as [|r reqs IH]; intros [|z results]; try (cbn; by intros ?%elem_of_nil).
  cbn [fmap list_fmap] in Hn. apply list.NoDup_cons in Hn as [Hr Hn].
  assert (Hno : forall u, snap_id r ∉ snap_id <$> (filter (fun e => e.2 = u) (zip reqs results)).*1).
  { intros u (r' & He & Hin)%list_elem_of_fmap. apply Hr. rewrite He. apply list_elem_of_fmap_2. by apply (with_result_sub u reqs results). }
  cbn [zip zip_with]. rewrite !filter_cons. cbn [snd].
  destruct (decide (z = x)), (decide (z = y)); try congruence; cbn; try (by apply IH).
  - intros [->|H]%elem_of_cons; [apply Hno|by apply IH].
  - intros H. apply not_elem_of_cons. split; [|by apply IH]. intros ->. by apply (Hno x).
Qed.

Lemma started_inv b w acc k1 o : kvt_inv w -> inflight w = None ->
  (forall i, i ∈ acc -> i ∉ orphaned w -> i ∈ migrating_reqs k1) -> migration_finish_event k1 = false -> queue_full k1 ->
  match o with
  | (OutDispatch reqs, k') => reqs <> [] /\ sends reqs k1 k'
  | (OutReturn b, k') => b = false /\ sends [] k1 (set_finish_event false k') /\ migration_finish_event k' = true
  | (OutRaise, _) => False
  end -> kvt_inv (started_world b w acc o).
Proof.
  intros Hw Hn Hacc He Hq Ho. pose proof (inv_given_up w Hw) as Hg. destruct o as [[b'| |reqs] k']; unfold started_world; cbn [fst snd]; [|done|].
  - destruct Ho as (_ & [_ _ A3 _ A5 A6] & Hf). cbn in A3, A5, A6. split; cbn; try done.
    + intros c reqs. by rewrite Hn.
    + rewrite A3. set_solver.
    + unfold queue_full. by rewrite A5.
  - destruct Ho as (_ & [A1 A2 A3 A4 A5 A6]). split; cbn; try done.
    + rewrite A4, He. done.
    + intros ? ? [= <- <-]. split; [done|]. intros r Hr Hor. rewrite A3. split; [|intros H; by apply (A2 r Hr), Hacc].
      apply elem_of_union_l, elem_of_list_to_set. by apply list_elem_of_fmap_2.
    + rewrite A3. set_solver.
    + unfold queue_full. by rewrite A5.
Qed.

Lemma still_listed_sub k ids i : i ∈ still_listed k ids -> i ∈ ids.
Proof. unfold still_listed. repeat case_match; set_solver. Qed.

Lemma still_listed_in k ids ids' i : i ∈ still_listed k ids -> i ∈ ids' -> i ∈ still_listed k ids'.
Proof. unfold still_listed. repeat case_match; set_solver. Qed.

(** Clearing the marks of requests leaves those of the other accepted requests. *)
Lemma clean_inv w l k acc : kvt_inv w -> k = cleanup_failed_migration l (wk w) ->
  (forall i, i ∈ acc -> i ∉ orphaned w -> i ∈ migrating_reqs (wk w) /\ i ∉ snap_id <$> l) ->
  forall g, (forall reqs r, reqs ∈ g -> r ∈ reqs -> snap_id r ∈ orphaned w) -> kvt_inv (mkWorld (set_finish_event true k) None g (orphaned w) acc).
Proof.
  intros [_ _ _ _ H5 H6] -> Hacc g Hg. destruct (cleanup_spec l (wk w)) as (B1 & _ & B3 & B4). split; cbn; try done.
  - intros i Hi Ho. destruct (Hacc i Hi Ho). rewrite B1. apply elem_of_difference. by rewrite elem_of_list_to_set.
  - intros id c. cbn. rewrite B3. apply H5.
  - unfold queue_full. cbn. by rewrite B4.
Qed.

Lemma not_accepted_sub reqs results r : r ∈ not_accepted reqs results -> r ∈ reqs.
Proof. unfold not_accepted. intros [H|H]%elem_of_app; by eapply with_result_sub. Qed.

Lemma accepted_not_cleaned reqs results i : NoDup (snap_id <$> reqs) -> i ∈ snap_id <$> accepted_of reqs results -> i ∉ snap_id <$> not_accepted reqs results.
Proof.
  intros Hn Hi. unfold not_accepted. rewrite fmap_app, elem_of_app.
  intros [H|H]; by apply (with_result_disjoint MigrateOk _ reqs results i Hn) in H.
Qed.

Lemma answer_inv w b reqs results : kvt_inv w -> inflight w = Some (b, reqs) ->
  kvt_inv (mkWorld (migrate_out_end reqs results (wk w)).2 None (given_up w) (orphaned w) (taken_over reqs results ∪ accepted w)).
Proof.
  intros Hw Hi. destruct (inv_inflight w Hw b reqs Hi) as [Hn Hin].
  assert (Hold : forall (l : list snap) i, (forall r, r ∈ l -> r ∈ reqs) -> i ∈ accepted w -> i ∉ orphaned w -> i ∈ migrating_reqs (wk w) /\ i ∉ snap_id <$> l).
  { intros l i Hl Ha Ho. split; [by apply (inv_accepted w Hw)|]. intros (r & -> & Hr)%list_elem_of_fmap. by apply (Hin r (Hl r Hr)). }
  destruct results as [results|]; cbn [migrate_out_end dispatch_and_collect_tasks snd].
  - refine (clean_inv w _ _ _ Hw eq_refl _ _ (inv_given_up w Hw)). intros i [Ha|Ha]%elem_of_union Ho; [|by apply Hold; [apply not_accepted_sub|..]].
    apply elem_of_list_to_set in Ha. split; [|by apply accepted_not_cleaned]. apply list_elem_of_fmap in Ha as (r & -> & Hr). apply Hin; [exact (with_result_sub MigrateOk reqs results r Hr)|done].
  - refine (clean_inv w _ _ _ Hw eq_refl _ _ (inv_given_up w Hw)). intros i [Ha|Ha]%elem_of_union Ho; [by apply elem_of_list_to_set, elem_of_nil in Ha|exact (Hold reqs i (fun r Hr => Hr) Ha Ho)].
Qed.

Lemma time_limit_inv w reqs : kvt_inv w -> inflight w = Some (true, reqs) ->
  kvt_inv (mkWorld (migrate_out_end reqs None (wk w)).2 None (given_up w ++ [reqs]) (snap_ids reqs ∪ orphaned w) (accepted w)).
Proof.
  intros [_ _ H3 H4 H5 H6] Hi. destruct (cleanup_spec reqs (wk w)) as (B1 & _ & B3 & B4). split; cbn; try done.
  - intros i Ha Ho. rewrite B1. unfold snap_ids in Ho. apply elem_of_difference. split; [apply H3; [done|set_solver]|set_solver].
  - intros l r [Hl| ->%list_elem_of_singleton]%elem_of_app Hr; [apply elem_of_union_r; by eapply H4|].
    apply elem_of_union_l, elem_of_list_to_set. by apply list_elem_of_fmap_2.
  - intros id c. cbn. rewrite B3. apply H5.
  - unfold queue_full. cbn. by rewrite B4.
Qed.

Lemma late_answer_inv w n reqs results : kvt_inv w -> given_up w !! n = Some reqs ->
  kvt_inv (mkWorld (dispatch_and_collect_tasks reqs results (wk w)).2 (inflight w) (delete n (given_up w)) (orphaned w) (taken_over reqs (Some results) ∪ accepted w)).
Proof.
  intros [H1 H2 H3 H4 H5 H6] Hn. destruct (cleanup_spec (not_accepted reqs results) (wk w)) as (B1 & B2 & B3 & B4).
  assert (Hor : forall r, r ∈ reqs -> snap_id r ∈ orphaned w) by (intros r Hr; eapply H4; [by eapply list_elem_of_lookup_2|done]).
  assert (Hkeep : forall i, i ∉ orphaned w -> i ∈ migrating_reqs (wk w) -> i ∈ migrating_reqs (dispatch_and_collect_tasks reqs results (wk w)).2).
  { intros i Ho Hm. cbn. rewrite B1. apply elem_of_difference. split; [done|]. intros (r & -> & Hr)%elem_of_list_to_set%list_elem_of_fmap. by apply Ho, Hor, (not_accepted_sub reqs results). }
  assert (Hnew : forall i, i ∉ orphaned w -> i ∈ taken_over reqs (Some results) ∪ accepted w -> i ∈ accepted w).
  { intros i Ho [(r & -> & Hr)%elem_of_list_to_set%list_elem_of_fmap|Ha]%elem_of_union; [|done]. destruct Ho; exact (Hor r (with_result_sub MigrateOk reqs results r Hr)). }
  split; cbn [wk inflight given_up orphaned accepted].
  - cbn. by rewrite B2.
  - intros b l Hl. destruct (H2 b l Hl) as [A1 A2]. split; [done|]. intros r Hr Ho. destruct (A2 r Hr Ho). split; [by apply Hkeep|]. by intros ?%Hnew.
  - intros i Ha Ho. apply Hkeep; [done|]. apply H3; [by apply Hnew|done].
  - intros l r Hl. apply H4. apply list_elem_of_lookup in Hl as (m & Hm).
    destruct (decide (m < n)%nat); [rewrite list_lookup_delete_lt in Hm by done|rewrite list_lookup_delete_ge in Hm by lia]; by eapply list_elem_of_lookup_2.
  - intros id c. cbn. rewrite B3. apply H5.
  - unfold queue_full. cbn. by rewrite B4.
Qed.

Lemma kvt_inv_step w w' : kvt_inv w -> kvt_step w w' -> kvt_inv w'.
Proof.
  intros Hw Hs. pose proof Hw as [H1 H2 H3 H4 H5 H6].
  destruct Hs as [running waiting w|sched total p w|hybrid in_time sched w Ht|b reqs results w Hi|reqs w Hi|n reqs results w Hi|sched w].
  - split; try done.
  - destruct (migration_finish_event (wk w)) eqn:He.
    + destruct (migrate_out_spec sched total p (wk w) He H5 H6) as (k1 & (Hm & Hev & Hc & Hq) & Ho).
      apply (started_inv false w _ k1); [done|by apply H1| |done|done|exact Ho].
      intros i Hi Hor. rewrite Hm. eapply still_listed_in; [exact Hi|]. apply H3; [by eapply still_listed_sub|done].
    + unfold migrate_out, still_listed, started_world. rewrite He. by destruct w.
  - destruct (prestop_spec hybrid in_time sched (wk w) H5 Ht) as [->|(He & Ho)]; [by destruct w|].
    apply (started_inv true w _ (set_finish_event false (wk w))); [done|by apply H1|done|done|done|exact Ho].
  - by eapply answer_inv.
  - by apply time_limit_inv.
  - by apply late_answer_inv.
  - split; try done. intros id c. cbn. intros [Hc _]%map_lookup_filter_Some. by apply H5.
Qed.

Lemma kvt_reachable_inv detailed w : rtc kvt_step (world_start detailed) w -> kvt_inv w.
Proof.
  intros H. eapply (rtc_ind_r kvt_inv); [|intros ? ? _ Hst Hi; by eapply kvt_inv_step|exact H]. split; try done. by intros reqs r ?%elem_of_nil.
Qed.

(** C16. Once the engine pushes its queues, in every run of the frontend the frontend is free
    exactly when no migration that it waits for is in progress, so that there is at most one; its
    requests are distinct, and a migration that begins does not fail. A request that was never
    part of a migration given up at its time limit is marked while it is being migrated, and no
    migration sends it once a destination has accepted it and while the engine still lists it. *)
Theorem kvt_migration_safe detailed w : rtc kvt_step (world_start detailed) w ->
  (migration_finish_event (wk w) = true <-> inflight w = None) /\
  (forall b reqs, inflight w = Some (b, reqs) ->
     NoDup (snap_id <$> reqs) /\ forall r, r ∈ reqs -> snap_id r ∉ orphaned w -> snap_id r ∈ migrating_reqs (wk w)) /\
  forall sched total p, match migrate_out sched total p (wk w) with
    | (OutDispatch reqs, k') => inflight w = None /\ reqs <> [] /\
        forall r, r ∈ reqs -> snap_id r ∉ orphaned w -> snap_id r ∉ still_listed (wk w) (accepted w)
    | (OutReturn b, _) => b = false
    | (OutRaise, _) => False
    end.
Proof.
  intros Hr. destruct (kvt_reachable_inv detailed w Hr) as [H1 H2 H3 H4 H5 H6]. split; [done|]. split.
  { intros b reqs Hi. destruct (H2 b reqs Hi) as [Hn Hin]. split; [done|]. intros r Hrr Ho. by apply Hin. }
  intros sched total p. destruct (migration_finish_event (wk w)) eqn:He.
  - destruct (migrate_out_spec sched total p (wk w) He H5 H6) as (k1 & (Hm & _) & Ho). destruct (migrate_out _ _ _ _) as [[b| |reqs] k']; [by destruct Ho|done|].
    destruct Ho as (Hne & [_ A2 _ _ _ _]). split; [by apply H1|]. split; [done|]. intros r Hrr Hor Hin. apply (A2 r Hrr). rewrite Hm.
    eapply still_listed_in; [exact Hin|]. apply H3; [by eapply still_listed_sub|done].
  - unfold migrate_out. by rewrite He.
Qed.

(** A migration that reads the queues' first push, which holds no snapshots, fails with an
    exception and leaves the frontend busy for good: every later migration is refused. *)
Theorem early_migration_wedges detailed sched total p :
  let k := update_req_status (None, None) (kvt_start detailed) in
  exists k', migrate_out sched total p k = (OutRaise, k') /\
    forall w, rtc kvt_step (mkWorld k' None [] ∅ ∅) w ->
      forall sched' total' p', migrate_out sched' total' p' (wk w) = (OutReturn false, wk w).
Proof.
  cbn. eexists. split; [reflexivity|]. intros w Hw.
  assert (H : migration_finish_event (wk w) = false /\ inflight w = None /\ given_up w = []).
  { eapply (rtc_ind_r (fun w => migration_finish_event (wk w) = false /\ inflight w = None /\ given_up w = [])); [| |exact Hw]; [done|]. intros w1 w2 _ Hs (IH1 & IH2 & IH3).
    destruct Hs as [running waiting v|sched1 total1 p1 v|hybrid in_time sched1 v Ht|b reqs results v Hi|reqs v Hi|n reqs results v Hi|sched1 v]; cbn; try done.
    - unfold migrate_out, started_world. by rewrite IH1.
    - unfold migrate_out_prestop, started_world. destruct hybrid; [done|]. rewrite IH1. destruct in_time; [|done]. specialize (Ht eq_refl). congruence.
    - congruence.
    - congruence.
    - by rewrite IH3 in Hi. }
  intros sched' total' p'. unfold migrate_out. by rewrite (proj1 H).
Qed.

End kvt.

Definition example_core (r : EngineRequest) : EngineCoreRequest := mkCoreReq (er_id r) (er_prompt_len r).

Definition example_snaps : list snap := [(mkCoreReq "a" 8, 3%nat); (mkCoreReq "b" 5, 2%nat)].
Definition example_pushed : World := with_frontend (update_req_status (Some example_snaps, Some []) (kvt_start false)) (world_start false).
Definition example_params : MigrationParams := mkMigrationParams NUM_REQ SR 1 0 f_zero "".
Definition example_migrating : World := started_world false example_pushed ∅ (migrate_out example_core [] 0 example_params (wk example_pushed)).

(** The shortest of two running requests is being sent. *)
Lemma kvt_migration_safe_witness :
  inflight example_migrating = Some (false, [(mkCoreReq "b" 5, 2%nat)]) /\ migration_finish_event (wk example_migrating) = false /\
  "b" ∈ migrating_reqs (wk example_migrating).
Proof.
  assert (Hi : inflight example_migrating = Some (false, [(mkCoreReq "b" 5, 2%nat)])) by (vm_compute; reflexivity).
  split; [exact Hi|]. split; [vm_compute; reflexivity|].
  destruct (kvt_migration_safe example_core (fun r => eq_refl) false example_migrating) as (_ & H & _).
  - eapply rtc_l; [apply (kvt_push example_core example_snaps [] (world_start false))|]. eapply rtc_l; [|apply rtc_refl].
    exact (kvt_migrate example_core [] 0 example_params example_pushed).
  - refine (proj2 (H _ _ Hi) _ (list_elem_of_here _ _) _). apply (bool_decide_unpack _). vm_compute. exact I.
Defined.

(** A migration before a stop is given up at its time limit, and its answer comes after that: the
    next migration sends the request to a second destination although the first one has
    accepted it and the engine still lists it. *)
Theorem late_answer_migrates_twice : exists w r,
  rtc (kvt_step example_core) (world_start false) w /\ "b" ∈ still_listed (wk w) (accepted w) /\
  (migrate_out example_core [] 0 example_params (wk w)).1 = OutDispatch [r] /\ snap_id r = "b".
Proof.
  eexists _, _. split.
  - eapply rtc_l; [apply (kvt_push example_core example_snaps [] (world_start false))|].
    eapply rtc_l; [apply (kvt_prestop example_core false true [mkEngineReq "b" 5 2] example_pushed); done|].
    eapply rtc_l; [apply (kvt_time_limit example_core [(mkCoreReq "b" 5, 2%nat)]); vm_compute; reflexivity|].
    eapply rtc_l; [apply (kvt_late_answer example_core 0 [(mkCoreReq "b" 5, 2%nat)] [MigrateOk]); vm_compute; reflexivity|]. apply rtc_refl.
  - split; [apply (bool_decide_unpack _); vm_compute; exact I|]. split; vm_compute; reflexivity.
Qed.

Definition example_waiting : list snap := [(mkCoreReq "c" 4, 0%nat)].

(** Two requests: the waiting one and then the shortest running one. *)
Lemma selection_by_number_exact_witness :
  (get_migrated_requests (iter_scheduler_requests example_core []) 0 (mkMigrationParams NUM_REQ FCWSR 2 0 f_zero "") example_snaps example_waiting (kvt_start false)).1 =
  [(mkCoreReq "c" 4, 0%nat); (mkCoreReq "b" 5, 2%nat)].
Proof.
  rewrite (selection_by_number_exact (iter_scheduler_requests example_core []) 0 (mkMigrationParams NUM_REQ FCWSR 2 0 f_zero "") example_snaps example_waiting (kvt_start false));
    [vm_compute; reflexivity|reflexivity|cbn; lia|]. apply (bool_decide_unpack _). vm_compute. exact I.
Defined.
