(* ===== verification/MooncakeFrontend.v ===== *)
(** * Migration in the engine: the Mooncake frontend

    [mooncake_migration_frontend.py] of [python/llumnix/llumnix/migration_frontend/vllm_v1]:
    the requests are chosen from the engine's queues; the connector moves them, and the
    instance they go to takes them in as far as its limits allow. The frontend's own marks
    (the flag [is_migrating] of a request) are a set of request ids, and the connector's sets
    and counters are part of the state, since the frontend writes them. *)

From stdpp Require Import base gmap sets list strings numbers.
From S2P Require Import Prelude GoStrings GoFloat Types MigrationFrontend.

Local Open Scope Z_scope.

Record MooncakeRequest := mkMooncakeReq {
  mq_id : string;
  mq_num_tokens : nat;
  mq_num_output_tokens : nat;
  mq_waiting_for_remote_kvs : bool
}.

Record Mooncake := mkMooncake {
  mc_migrating : gset string;
  g_migrate_out_reqs : gset string;
  g_migrate_out_tokens : gmap string Z;
  g_migrate_in_reqs : gset string;
  g_migrate_in_tokens : gmap string Z;
  enable_detailed_mig : bool;
  max_req_mig_in : Z;
  max_migrate_in_tokens : Z
}.

Definition set_mc_migrating (m : gset string) (s : Mooncake) : Mooncake :=
  mkMooncake m (g_migrate_out_reqs s) (g_migrate_out_tokens s) (g_migrate_in_reqs s) (g_migrate_in_tokens s)
    (enable_detailed_mig s) (max_req_mig_in s) (max_migrate_in_tokens s).

#[export] Instance mooncake_frontend : Frontend MooncakeRequest Mooncake := {
  should_skip_migration s r is_in_waiting :=
    bool_decide (mq_id r ∈ mc_migrating s) || (is_in_waiting && mq_waiting_for_remote_kvs r) || (negb is_in_waiting && bool_decide (mq_num_output_tokens r < 1)%nat);
  set_migrating_status r s := set_mc_migrating ({[mq_id r]} ∪ mc_migrating s) s;
  request_tokens r := Z.of_nat (mq_num_tokens r);
  sorting_key r := Z.of_nat (mq_num_tokens r) + Z.of_nat (mq_num_output_tokens r);
  fr_id := mq_id
}.

#[export] Instance mooncake_laws : FrontendLaws MooncakeRequest Mooncake.
Proof.
  split; cbn.
  - intros s r r' w Hid. do 2 f_equal. apply bool_decide_ext. rewrite elem_of_union, elem_of_singleton. naive_solver.
  - intros s r r' w Hid. by rewrite (bool_decide_true (mq_id r' ∈ _)) by (apply elem_of_union_l; by apply elem_of_singleton).
  - intros r. lia.
Qed.

(** The frontend's constructor: the tokens that may come in, as a number. *)
Definition migrate_in_token_limit (num_gpu_blocks block_size max_tokens : Z) (max_ratio : float) : option Z :=
  Z.min max_tokens <$> ftrunc (f64_mul (f64_of_Z (num_gpu_blocks * block_size)) max_ratio).

Fixpoint mc_iter (is_in_waiting : bool) (reqs : list MooncakeRequest) (s : Mooncake) : list MooncakeRequest * Mooncake :=
  match reqs with
  | [] => ([], s)
  | r :: reqs =>
      if should_skip_migration s r is_in_waiting then mc_iter is_in_waiting reqs s
      else let '(l, s) := mc_iter is_in_waiting reqs (set_migrating_status r s) in (r :: l, s)
  end.

Definition mc_iter_scheduler_requests (waiting running : list MooncakeRequest) (s : Mooncake) : list MooncakeRequest * Mooncake :=
  let '(l, s) := mc_iter true waiting s in
  let '(l', s) := mc_iter false running s in
  (l ++ l', s).

Definition mc_cleanup (reqs : list MooncakeRequest) (s : Mooncake) : Mooncake :=
  fold_left (fun s r =>
    mkMooncake (mc_migrating s ∖ {[mq_id r]}) (g_migrate_out_reqs s ∖ {[mq_id r]})
      (if enable_detailed_mig s then delete (mq_id r) (g_migrate_out_tokens s) else g_migrate_out_tokens s)
      (g_migrate_in_reqs s) (g_migrate_in_tokens s) (enable_detailed_mig s) (max_req_mig_in s) (max_migrate_in_tokens s)) reqs s.

Definition count_out (s : Mooncake) (r : MooncakeRequest) : Mooncake :=
  mkMooncake (mc_migrating s) ({[mq_id r]} ∪ g_migrate_out_reqs s)
    (if enable_detailed_mig s then <[mq_id r := Z.of_nat (mq_num_tokens r)]> (g_migrate_out_tokens s) else g_migrate_out_tokens s)
    (g_migrate_in_reqs s) (g_migrate_in_tokens s) (enable_detailed_mig s) (max_req_mig_in s) (max_migrate_in_tokens s).

(** [migrate_out]; the list is what goes to the connector. *)
Definition mc_migrate_out (total_tokens : Z) (p : MigrationParams) (waiting running : list MooncakeRequest) (s : Mooncake) : bool * list MooncakeRequest * Mooncake :=
  let '(reqs, s) := get_migrated_requests (mc_iter_scheduler_requests waiting running) total_tokens p running waiting s in
  if bool_decide (reqs = []) then (false, [], s) else (true, reqs, fold_left count_out reqs s).

(** [_execute_remote_migrate_in_task]: only an error of the call is looked at; the answer of
    the destination is not. *)
Definition execute_remote_migrate_in_task (reqs : list MooncakeRequest) (rpc : result bool) (s : Mooncake) : Mooncake :=
  match rpc with Ok _ => s | Err _ => mc_cleanup reqs s end.

Definition total_in (m : gmap string Z) : Z := map_sum (fun n => n) m.

(** The loop stops at the first request that does not fit. *)
Fixpoint tokens_fit (limit total : Z) (reqs : list MooncakeRequest) : bool :=
  match reqs with
  | [] => true
  | r :: reqs => let total := total + Z.of_nat (mq_num_tokens r) in if bool_decide (limit < total) then false else tokens_fit limit total reqs
  end.

Definition has_migrate_in_slots (reqs : list MooncakeRequest) (s : Mooncake) : bool :=
  if bool_decide (max_req_mig_in s < Z.of_nat (size (g_migrate_in_reqs s)) + Z.of_nat (length reqs)) then false
  else if enable_detailed_mig s then tokens_fit (max_migrate_in_tokens s) (total_in (g_migrate_in_tokens s)) reqs
  else true.

Definition count_in (s : Mooncake) (r : MooncakeRequest) : Mooncake :=
  mkMooncake (mc_migrating s) (g_migrate_out_reqs s) (g_migrate_out_tokens s) ({[mq_id r]} ∪ g_migrate_in_reqs s)
    (if enable_detailed_mig s then <[mq_id r := Z.of_nat (mq_num_tokens r)]> (g_migrate_in_tokens s) else g_migrate_in_tokens s)
    (enable_detailed_mig s) (max_req_mig_in s) (max_migrate_in_tokens s).

Definition mc_migrate_in (reqs : list MooncakeRequest) (s : Mooncake) : bool * Mooncake :=
  if has_migrate_in_slots reqs s then (true, fold_left count_in reqs s) else (false, s).

(** [abort_migrate_in_requets]: the frontend has no field [migrate_in_reqs], so the first
    request raises, after the connector was told to abort it. The list is what the
    connector was told. *)
Definition abort_migrate_in_requests (ids : list string) (s : Mooncake) : bool * list string * Mooncake :=
  match ids with [] => (true, [], s) | id :: _ => (false, [id], s) end.

(** ** The limits of what comes in *)

(** The connector takes requests off when they have arrived or failed. *)
Definition clear_migrate_in_req_status (req_ids : gset string) (s : Mooncake) : Mooncake :=
  mkMooncake (mc_migrating s) (g_migrate_out_reqs s) (g_migrate_out_tokens s) (g_migrate_in_reqs s ∖ req_ids)
    (if enable_detailed_mig s then filter (fun kv => kv.1 ∉ req_ids) (g_migrate_in_tokens s) else g_migrate_in_tokens s)
    (enable_detailed_mig s) (max_req_mig_in s) (max_migrate_in_tokens s).

(** What the engine does with the frontend's state: migrations out and in, the answers of
    other instances, aborts, and the connector's bookkeeping. *)
Inductive mc_step : Mooncake -> Mooncake -> Prop :=
  | mc_in reqs s : mc_step s (mc_migrate_in reqs s).2
  | mc_out total p waiting running s : mc_step s (mc_migrate_out total p waiting running s).2
  | mc_answer reqs rpc s : mc_step s (execute_remote_migrate_in_task reqs rpc s)
  | mc_abort ids s : mc_step s (abort_migrate_in_requests ids s).2
  | mc_connector ids s : mc_step s (clear_migrate_in_req_status ids s).

Definition mooncake_start (detailed : bool) (max_reqs max_tokens : Z) : Mooncake := mkMooncake ∅ ∅ ∅ ∅ ∅ detailed max_reqs max_tokens.

Definition amounts (m : gmap string Z) : Prop := map_Forall (fun _ n => 0 <= n) m.

Record mc_inv (detailed : bool) (max_reqs max_tokens : Z) (s : Mooncake) : Prop := {
  mi_config : enable_detailed_mig s = detailed /\ max_req_mig_in s = max_reqs /\ max_migrate_in_tokens s = max_tokens;
  mi_slots : Z.of_nat (size (g_migrate_in_reqs s)) <= max_reqs;
  mi_amounts : amounts (g_migrate_in_tokens s);
  mi_tokens : total_in (g_migrate_in_tokens s) <= max_tokens;
  mi_counted : detailed = true -> dom (g_migrate_in_tokens s) = g_migrate_in_reqs s
}.

Lemma total_in_put k n m : amounts m -> total_in (<[k := n]> m) <= n + total_in m.
Proof.
  intros Hm. unfold total_in. destruct (m !! k) as [o|] eqn:E; [|by rewrite map_sum_insert].
  rewrite (map_sum_update _ m k o n E). specialize (Hm k o E). cbn in Hm. lia.
Qed.

Lemma total_in_filter (P : string * Z -> Prop) `{!forall x, Decision (P x)} m : amounts m -> total_in (filter P m) <= total_in m.
Proof.
  unfold total_in. induction m as [|k n m Hk IH] using map_ind; intros Hm; [by rewrite map_filter_empty|].
  apply map_Forall_insert in Hm as [Hn Hm]; [|done]. rewrite map_sum_insert by done. specialize (IH Hm). destruct (decide (P (k, n))) as [HP|HP].
  - rewrite map_filter_insert_True by done. rewrite map_sum_insert; [lia|]. apply map_lookup_filter_None. by left.
  - rewrite map_filter_insert_False, delete_id by done. lia.
Qed.

Lemma count_in_spec s r : amounts (g_migrate_in_tokens s) ->
  (size (g_migrate_in_reqs (count_in s r)) <= S (size (g_migrate_in_reqs s)))%nat /\ amounts (g_migrate_in_tokens (count_in s r)) /\
  total_in (g_migrate_in_tokens (count_in s r)) <= (if enable_detailed_mig s then Z.of_nat (mq_num_tokens r) else 0) + total_in (g_migrate_in_tokens s).
Proof.
  intros Hm. unfold count_in. cbn [g_migrate_in_reqs g_migrate_in_tokens]. split.
  - pose proof (size_union_alt {[mq_id r]} (g_migrate_in_reqs s)) as H. rewrite size_singleton in H. rewrite H.
    pose proof (subseteq_size (g_migrate_in_reqs s ∖ {[mq_id r]}) (g_migrate_in_reqs s) ltac:(set_solver)). lia.
  - destruct (enable_detailed_mig s); [|split; [done|lia]]. split; [|by apply total_in_put].
    apply map_Forall_insert_2; [lia|done].
Qed.

Lemma count_in_all reqs s : amounts (g_migrate_in_tokens s) ->
  let s' := fold_left count_in reqs s in
  (enable_detailed_mig s' = enable_detailed_mig s /\ max_req_mig_in s' = max_req_mig_in s /\ max_migrate_in_tokens s' = max_migrate_in_tokens s) /\
  (size (g_migrate_in_reqs s') <= length reqs + size (g_migrate_in_reqs s))%nat /\ amounts (g_migrate_in_tokens s') /\
  total_in (g_migrate_in_tokens s') <= (if enable_detailed_mig s then foldr (fun r z => Z.of_nat (mq_num_tokens r) + z) 0 reqs else 0) + total_in (g_migrate_in_tokens s).
Proof.
  revert s. induction reqs as [|r reqs IH]; intros s Hm; cbn [fold_left]; [split_and!; try done; cbn; destruct (enable_detailed_mig s); lia|].
  destruct (count_in_spec s r Hm) as (A1 & A2 & A3). destruct (IH (count_in s r) A2) as (B0 & B1 & B2 & B3). split; [exact B0|].
  cbn [enable_detailed_mig count_in length foldr] in *. split; [lia|]. split; [done|]. destruct (enable_detailed_mig s); lia.
Qed.

Lemma tokens_fit_sum limit total reqs : total <= limit -> tokens_fit limit total reqs = true -> total + foldr (fun r z => Z.of_nat (mq_num_tokens r) + z) 0 reqs <= limit.
Proof.
  revert total. induction reqs as [|r reqs IH]; intros total Ht; cbn [tokens_fit foldr]; [lia|]. case_bool_decide as Hl; [done|].
  intros H%IH; lia.
Qed.

Lemma count_in_dom reqs s :
  enable_detailed_mig s = true -> dom (g_migrate_in_tokens s) = g_migrate_in_reqs s ->
  dom (g_migrate_in_tokens (fold_left count_in reqs s)) = g_migrate_in_reqs (fold_left count_in reqs s).
Proof.
  revert s. induction reqs as [|r reqs IH]; intros s He Hd; cbn [fold_left]; [done|]. apply IH; [done|].
  unfold count_in. cbn. rewrite He. by rewrite dom_insert_L, Hd.
Qed.

Lemma migrate_in_inv detailed max_reqs max_tokens reqs s : mc_inv detailed max_reqs max_tokens s -> mc_inv detailed max_reqs max_tokens (mc_migrate_in reqs s).2.
Proof.
  intros [(Hd & Hr & Ht) H2 H3 H4 H5]. unfold mc_migrate_in. destruct (has_migrate_in_slots reqs s) eqn:E; [|by split].
  unfold has_migrate_in_slots in E. case_bool_decide as Hs; [done|]. destruct (count_in_all reqs s H3) as ((C1 & C2 & C3) & A1 & A2 & A3).
  split; cbn [snd]; [by rewrite C1, C2, C3|lia|done| |intros ->; apply count_in_dom; auto].
  rewrite Hd in A3, E. destruct detailed; [|lia]. rewrite Ht in E. apply tokens_fit_sum in E; lia.
Qed.

Lemma config_mark_all (l : list MooncakeRequest) (s : Mooncake) : exists m, mark_all l s = set_mc_migrating m s.
Proof.
  revert s. induction l as [|r l IH]; intros s; [exists (mc_migrating s); by destruct s|]. cbn. destruct (IH (set_migrating_status r s)) as [m Hm].
  exists m. unfold mark_all in Hm. cbn in Hm. by rewrite Hm.
Qed.

Lemma mc_iter_config w reqs s : exists m, (mc_iter w reqs s).2 = set_mc_migrating m s.
Proof.
  revert s. induction reqs as [|r reqs IH]; intros s; cbn [mc_iter]; [exists (mc_migrating s); by destruct s|].
  destruct (should_skip_migration s r w); [apply IH|]. destruct (IH (set_migrating_status r s)) as [m Hm].
  destruct (mc_iter w reqs _) as [l s']. exists m. exact Hm.
Qed.

(** Choosing requests changes the marks only. *)
Lemma choose_config total p waiting running s :
  exists m, (get_migrated_requests (mc_iter_scheduler_requests waiting running) total p running waiting s).2 = set_mc_migrating m s.
Proof.
  assert (Hsame : exists m, s = set_mc_migrating m s) by (exists (mc_migrating s); by destruct s).
  destruct (drain p) eqn:Hd.
  { unfold get_migrated_requests, mc_iter_scheduler_requests. rewrite Hd. destruct (mc_iter_config true waiting s) as [m Hm].
    destruct (mc_iter true waiting s) as [l s1]. cbn in Hm. subst s1. destruct (mc_iter_config false running (set_mc_migrating m s)) as [m' Hm'].
    destruct (mc_iter false running _) as [l' s2]. exists m'. exact Hm'. }
  destruct (get_budget total p) as [b|] eqn:Hb; [|unfold get_migrated_requests; by rewrite Hd, Hb].
  pose proof (selection_within_budget (mc_iter_scheduler_requests waiting running) total p running waiting s b Hd Hb) as H.
  destruct (get_migrated_requests _ _ _ _ _ _) as [l s']. destruct H as (_ & -> & _). apply config_mark_all.
Qed.

(** The part of the state that what comes in depends on. *)
Definition in_state (s : Mooncake) := (g_migrate_in_reqs s, g_migrate_in_tokens s, enable_detailed_mig s, max_req_mig_in s, max_migrate_in_tokens s).

Lemma in_state_inv detailed max_reqs max_tokens s s' : in_state s = in_state s' -> mc_inv detailed max_reqs max_tokens s -> mc_inv detailed max_reqs max_tokens s'.
Proof. unfold in_state. intros [= E1 E2 E3 E4 E5] [H1 H2 H3 H4 H5]. split; by rewrite <- ?E1, <- ?E2, <- ?E3, <- ?E4, <- ?E5. Qed.

Lemma fold_in_state {A} (f : Mooncake -> A -> Mooncake) l s : (forall s a, in_state (f s a) = in_state s) -> in_state (fold_left f l s) = in_state s.
Proof. intros H. revert s. induction l as [|a l IH]; intros s; [done|]. cbn. by rewrite IH, H. Qed.

Lemma mc_step_inv detailed max_reqs max_tokens s s' : mc_inv detailed max_reqs max_tokens s -> mc_step s s' -> mc_inv detailed max_reqs max_tokens s'.
Proof.
  intros Hs Hst. destruct Hst as [reqs s|total p waiting running s|reqs rpc s|ids s|ids s].
  - by apply migrate_in_inv.
  - eapply in_state_inv; [|exact Hs]. unfold mc_migrate_out. destruct (choose_config total p waiting running s) as [m Hm].
    destruct (get_migrated_requests _ _ _ _ _ _) as [reqs s1]. cbn in Hm. subst s1. case_bool_decide; [done|]. symmetry. cbn [snd]. by rewrite fold_in_state.
  - eapply in_state_inv; [|exact Hs]. destruct rpc; [done|]. symmetry. cbn. unfold mc_cleanup. by rewrite fold_in_state.
  - destruct ids; done.
  - destruct Hs as [(E & H1) H2 H3 H4 H5]. unfold clear_migrate_in_req_status. split; cbn [g_migrate_in_reqs g_migrate_in_tokens]; [done|..].
    + pose proof (subseteq_size (g_migrate_in_reqs s ∖ ids) (g_migrate_in_reqs s) ltac:(set_solver)). lia.
    + destruct (enable_detailed_mig s); [|done]. intros k n [Hk _]%map_lookup_filter_Some. by apply (H3 k n).
    + pose proof (total_in_filter (fun kv => kv.1 ∉ ids) (g_migrate_in_tokens s) H3). destruct (enable_detailed_mig s); lia.
    + intros Hd. rewrite E, Hd, <- (H5 Hd). apply set_eq. intros k. rewrite elem_of_difference, !elem_of_dom.
      destruct (g_migrate_in_tokens s !! k) as [n|] eqn:Ek.
      * destruct (decide (k ∈ ids)); [rewrite (proj2 (map_lookup_filter_None _ _ _)) by naive_solver; split; [by intros []|naive_solver]|].
        rewrite (proj2 (map_lookup_filter_Some _ _ _ n)) by done. split; eauto.
      * rewrite (proj2 (map_lookup_filter_None _ _ _)) by auto. split; [by intros []|by intros [[] _]].
Qed.

(** C28. However migrations out and in, answers, aborts and the connector's own bookkeeping
    follow each other, the requests that are coming in are never more than the configured
    number. With the detailed migration status, after each of these operations, the tokens of every one of them, and of no other
    request, are counted, and they are never more than the configured number either. *)
Theorem migrate_in_within_limits detailed max_reqs max_tokens s : 0 <= max_reqs -> 0 <= max_tokens ->
  rtc mc_step (mooncake_start detailed max_reqs max_tokens) s ->
  Z.of_nat (size (g_migrate_in_reqs s)) <= max_reqs /\
  (detailed = true -> dom (g_migrate_in_tokens s) = g_migrate_in_reqs s /\ total_in (g_migrate_in_tokens s) <= max_tokens).
Proof.
  intros Hr Ht Hs. assert (Hi : mc_inv detailed max_reqs max_tokens s); [|destruct Hi; naive_solver].
  eapply (rtc_ind_r (mc_inv detailed max_reqs max_tokens)); [|intros ? ? _ Hst Hi; by eapply mc_step_inv|exact Hs].
  split; cbn; [done|by rewrite size_empty|apply map_Forall_empty|unfold total_in; by rewrite map_sum_empty|intros _; by rewrite dom_empty_L].
Qed.

Definition example_incoming : list MooncakeRequest := [mkMooncakeReq "a" 40 3 false; mkMooncakeReq "b" 50 2 false].

Lemma migrate_in_within_limits_witness :
  let s := (mc_migrate_in example_incoming (mooncake_start true 2 100)).2 in
  size (g_migrate_in_reqs s) = 2%nat /\ dom (g_migrate_in_tokens s) = g_migrate_in_reqs s /\ total_in (g_migrate_in_tokens s) <= 100.
Proof.
  intros s. split; [vm_compute; reflexivity|]. apply (migrate_in_within_limits true 2 100 s); [lia|lia| |reflexivity].
  eapply rtc_l; [apply (mc_in example_incoming)|]. apply rtc_refl.
Defined.
