(* ===== verification/EngineStatus.v ===== *)
(** * The status of an engine

    [metrics.py] and [status_collector/vllm_v1] of [python/llumnix/llumnix]: what an instance
    reports about its engine. The collectors are registered under the names of the fields
    that they fill in, so the numbers of a status are a map from names to integers. The
    engine's scheduler and its KV connector are third-party code: what the collectors read of
    them is the record [EngineView]. *)

From stdpp Require Import base gmap sets list strings numbers.
From S2P Require Import Prelude GoStrings GoFloat Types CmsTypes LocalAccount Lrs Predictor Metrics.

Local Open Scope Z_scope.

(** ** metrics.py: which fields the metrics need *)

Definition METRIC_STATUSES_REQUIREMENTS : list (string * list string) := [
  ("kv_cache_usage_ratio_projected",
    ["num_used_gpu_tokens"; "num_total_gpu_tokens"; "num_uncomputed_tokens_all_waiting_prefills";
     "num_unallocated_tokens_scheduler_running_prefills"; "num_unallocated_tokens_hybrid_scheduler_waiting_decodes"]);
  ("decode_batch_size",
    ["hybrid_scheduler_waiting_to_decode_requests_num"; "num_loading_requests";
     "scheduler_waiting_to_decode_requests_num"; "scheduler_running_to_decode_requests_num"]);
  ("num_waiting_requests", ["num_waiting_requests"]);
  ("all_prefills_tokens_num", ["num_uncomputed_tokens_all_waiting_prefills"; "num_uncomputed_tokens_scheduler_running_prefills"]);
  ("kv_cache_hit_len", []);
  ("cache_aware_all_prefills_tokens_num", ["num_uncomputed_tokens_all_waiting_prefills"; "num_uncomputed_tokens_scheduler_running_prefills"]);
  ("adaptive_decode_batch_size",
    ["hybrid_scheduler_waiting_to_decode_requests_num"; "num_loading_requests";
     "scheduler_waiting_to_decode_requests_num"; "scheduler_running_to_decode_requests_num"]);
  ("num_requests", ["num_waiting_requests"; "num_loading_requests"; "num_running_requests"]);
  ("all_decodes_tokens_num",
    ["hybrid_scheduler_waiting_to_decode_tokens_num"; "scheduler_waiting_to_decode_tokens_num";
     "scheduler_running_to_decode_tokens_num"; "num_tokens_loading_requests"])].

Definition requirements (metric : string) : option (list string) :=
  snd <$> List.find (fun e => bool_decide (e.1 = metric)) METRIC_STATUSES_REQUIREMENTS.

(** The fields of [InstanceStatus] of [instance_info.py] that hold numbers, with their
    counterparts of the message; its other fields are not masked by a metric. *)
Definition status_fields : list (string * (InstanceStatus -> Z)) := [
  ("hybrid_scheduler_waiting_to_decode_requests_num", HybridSchedulerWaitingToDecodeRequestsNum);
  ("scheduler_waiting_to_decode_requests_num", SchedulerWaitingToDecodeRequestsNum);
  ("num_waiting_requests", NumWaitingRequestsStatus);
  ("scheduler_running_to_decode_requests_num", SchedulerRunningToDecodeRequestsNum);
  ("num_running_requests", NumRunningRequests);
  ("num_loading_requests", NumLoadingRequests);
  ("num_total_gpu_tokens", NumTotalGpuTokens);
  ("num_used_gpu_tokens", NumUsedGpuTokens);
  ("num_uncomputed_tokens_hybrid_scheduler_waiting_prefills", NumUncomputedTokensHybridSchedulerWaitingPrefills);
  ("num_unallocated_tokens_hybrid_scheduler_waiting_decodes", NumUnallocatedTokensHybridSchedulerWaitingDecodes);
  ("hybrid_scheduler_waiting_to_decode_tokens_num", HybridSchedulerWaitingToDecodeTokensNum);
  ("num_uncomputed_tokens_scheduler_waiting_prefills", NumUncomputedTokensSchedulerWaitingPrefills);
  ("scheduler_waiting_to_decode_tokens_num", SchedulerWaitingToDecodeTokensNum);
  ("num_uncomputed_tokens_scheduler_running_prefills", NumUncomputedTokensSchedulerRunningPrefills);
  ("num_unallocated_tokens_scheduler_running_prefills", NumUnallocatedTokensSchedulerRunningPrefills);
  ("scheduler_running_to_decode_tokens_num", SchedulerRunningToDecodeTokensNum);
  ("num_tokens_loading_requests", NumTokensLoadingRequests);
  ("num_uncomputed_tokens_all_waiting_prefills", NumUncomputedTokensAllWaitingPrefills)].

(** The loop over the metrics in use; [None]: all statuses are collected. *)
Fixpoint required_statuses (used_metrics : list string) : option (list string) :=
  match used_metrics with
  | [] => Some []
  | m :: used_metrics => statuses ← requirements m; rest ← required_statuses used_metrics; Some (statuses ++ rest)
  end.

(** The mask, as what [instance_status_mask.get(name, False)] gives for a field. *)
Definition generate_instance_status_mask (used_metrics : list string) (status_name : string) : bool :=
  if bool_decide (used_metrics = ["all"]) then true
  else match required_statuses used_metrics with
       | None => true
       | Some required => bool_decide (status_name ∈ required)
       end.

(** Both separators become commas; blank entries are dropped. *)
Definition parse_used_metrics (metrics_str : string) : list string :=
  filter (fun m => m <> "") (TrimSpace <$> Split (ReplaceAll (ReplaceAll metrics_str "," ",") ";" ",") ",").

Lemma mask_required used m fs f : required_statuses used <> None -> m ∈ used -> requirements m = Some fs -> f ∈ fs -> generate_instance_status_mask used f = true.
Proof.
  intros Hn Hm Hr Hf. unfold generate_instance_status_mask. destruct (bool_decide (used = _)); [done|]. destruct (required_statuses used) as [required|] eqn:E; [|done].
  apply bool_decide_eq_true_2. clear Hn. revert required E. induction used as [|x used IH]; intros required; [by apply elem_of_nil in Hm|]. cbn [required_statuses].
  destruct (requirements x) as [st|] eqn:Hx; [|done]. cbn. destruct (required_statuses used) as [rest|]; [|done]. cbn. intros [= <-].
  apply elem_of_app. apply elem_of_cons in Hm as [->|Hm]; [left; congruence|right; by apply IH].
Qed.

Lemma mask_all used f : required_statuses used = None -> generate_instance_status_mask used f = true.
Proof. intros H. unfold generate_instance_status_mask. rewrite H. by destruct (bool_decide _). Qed.

Lemma mask_metric used m fs f : m ∈ used -> requirements m = Some fs -> f ∈ fs -> generate_instance_status_mask used f = true.
Proof. intros Hm Hr Hf. destruct (required_statuses used) eqn:E; [by eapply mask_required; [rewrite E|exact Hm|exact Hr|exact Hf]|by apply mask_all]. Qed.

(** Two statuses that agree on the fields that are collected. *)
Definition agree (mask : string -> bool) (s1 s2 : InstanceStatus) : Prop :=
  forall f get, (f, get) ∈ status_fields -> mask f = true -> get s1 = get s2.

Ltac in_list := repeat first [apply list_elem_of_here | apply list_elem_of_further].

(** C33. The fields that an instance collects for the metrics in use are all that the scheduler's
    metrics read: for a metric that the instance was told of, two statuses that differ only
    in fields that are not collected give the scheduler the same value. *)
Theorem mask_covers_metrics `{LatencyPredictor} used name c now request iv cv s1 s2 :
  name ∈ used -> requirements name <> None -> agree (generate_instance_status_mask used) s1 s2 ->
  getSchedulingMetric c now request name (with_cms (with_status s1 cv) iv) = getSchedulingMetric c now request name (with_cms (with_status s2 cv) iv).
Proof.
  intros Hu Hr Ha.
  assert (Hget : forall fs f get, requirements name = Some fs -> (f, get) ∈ status_fields -> f ∈ fs -> get s1 = get s2).
  { intros fs f get Hfs Hin Hf. by apply (Ha f get Hin), (mask_metric used name fs). }
  unfold getSchedulingMetric.
  repeat (destruct (decide (name = _)) as [->|_];
    [ try (by destruct Hr); f_equal; unfold kvCacheUsageRatioProjected_Calculate, decodeBatchSize_Calculate, numWaitingRequests_Calculate, CacheAwareAllPrefillsTokensNum_Calculate,
        allPrefillsTokensNum_Calculate, numRequests_Calculate, allDecodesTokensNum_Calculate;
      cbn [cmsView with_cms mbind option_bind cv_Status with_status cv_LocalAccount v_ctx]; 
      repeat match goal with |- context [?get s1] => rewrite (Hget _ _ get eq_refl ltac:(in_list) ltac:(in_list)) end; try reflexivity | ]).
  reflexivity.
Qed.

(** ** status_collector.py: what is read of the engine *)

Record VllmRequest := mkVllmRequest {
  vr_id : string;
  arrival_time : Z;
  vr_num_tokens : Z;
  num_computed_tokens : Z;
  num_prompt_tokens : Z;
  num_output_tokens : Z;
  max_tokens : option Z
}.

(** The answers of a connector's own collector. *)
Record ConnectorView := mkConnectorView {
  connector_waiting_reqs : list VllmRequest;
  connector_waiting_to_decode_reqs_num : Z;
  connector_num_uncomputed_tokens_waiting_prefills : Z;
  connector_num_unallocated_tokens_waiting_decodes : Z;
  connector_waiting_to_decode_tokens_num : Z;
  connector_loading_requests_num : Z;
  connector_num_tokens_loading_requests : Z;
  is_migrating : VllmRequest -> bool
}.

Record EngineView := mkEngineView {
  ev_waiting : list VllmRequest;
  ev_running : list VllmRequest;
  ev_connector : option ConnectorView;
  computed_blocks_tokens : VllmRequest -> Z
}.

Inductive StepPhase := STEP_BEGIN | AFTER_SCHEDULE | AFTER_UPDATE | BEFORE_RETURN | BYPASS_STEP_BEGIN | BYPASS_STEP_END.

#[export] Instance StepPhase_eq_dec : EqDecision StepPhase.
Proof. solve_decision. Defined.

(** What a collector works with besides the engine: the phase of the step, the numbers of
    tokens scheduled in this step and in the one before. *)
Record StepView := mkStepView {
  step_phase : StepPhase;
  num_scheduled_tokens : option (gmap string Z);
  async_scheduling : bool;
  last_num_scheduled_tokens : option (gmap string Z)
}.

(** An accumulating loop over requests. *)
Fixpoint sum_loop {A} (f : A -> Z) (l : list A) (acc : Z) : Z :=
  match l with [] => acc | x :: l => sum_loop f l (acc + f x) end.

Definition samples_more (r : VllmRequest) : bool := match max_tokens r with Some n => bool_decide (1 < n) | None => false end.
Definition waits_for_decode (r : VllmRequest) : bool := samples_more r || bool_decide (vr_num_tokens r - num_computed_tokens r = 1).

Definition hybrid_uncomputed (v : EngineView) : Z :=
  match ev_connector v with Some c => connector_num_uncomputed_tokens_waiting_prefills c | None => 0 end.

Definition scheduler_uncomputed (v : EngineView) : Z :=
  sum_loop (fun r => if bool_decide (1 < vr_num_tokens r - num_computed_tokens r) then vr_num_tokens r - computed_blocks_tokens v r else 0) (ev_waiting v) 0.

(** The tokens of [scheduled] are added back unless the request came with one token only. *)
Definition added_back (scheduled : option (gmap string Z)) (r : VllmRequest) : Z :=
  match m ← scheduled; m !! vr_id r with Some n => if bool_decide (1 < n) then n else 0 | None => 0 end.

Definition running_uncomputed_one (st : StepView) (r : VllmRequest) : Z :=
  if bool_decide (num_computed_tokens r < num_prompt_tokens r) then
    vr_num_tokens r - num_computed_tokens r
    + (if bool_decide (step_phase st = AFTER_SCHEDULE) then added_back (num_scheduled_tokens st) r else 0)
    + (if async_scheduling st then added_back (last_num_scheduled_tokens st) r else 0)
  else 0.

Definition migrating_in (v : EngineView) (r : VllmRequest) : bool := match ev_connector v with Some c => is_migrating c r | None => false end.

(** A field taken over from the connector, when there is one. *)
Definition from_connector (name : string) (f : ConnectorView -> Z) (v : EngineView) : gmap string Z :=
  match ev_connector v with Some c => {[name := f c]} | None => ∅ end.

(** ** The connectors' own collectors

    [hybrid_connector_status_collector.py] reads the queues of vLLM's hybrid connector: a waiting
    request comes with whether its cache is to be loaded and whether it is to be saved. *)
Record HybridSched := mkHybridSched { hs_waiting : list (VllmRequest * bool * bool); hs_loading : list VllmRequest }.

Definition HybridConnectorStatusCollector (computed : VllmRequest -> Z) (migrating : VllmRequest -> bool) (connector : option HybridSched) : ConnectorView :=
  let waiting := match connector with Some s => hs_waiting s | None => [] end in
  let loading := match connector with Some s => hs_loading s | None => [] end in
  mkConnectorView
    (map (fun '(r, _, _) => r) waiting)
    (sum_loop (fun '(_, load, _) => if load : bool then 1 else 0) waiting 0)
    (sum_loop (fun '(r, _, save) => if save : bool then vr_num_tokens r - computed r else 0) waiting 0)
    (sum_loop (fun '(r, load, _) => if load : bool then vr_num_tokens r - computed r else 0) waiting 0)
    (sum_loop (fun '(r, load, _) => if load : bool then vr_num_tokens r else 0) waiting 0)
    (Z.of_nat (length loading))
    (sum_loop vr_num_tokens loading 0)
    migrating.

(** [mooncake_connector_status_collector.py]; the transfer parameters of a request may say that
    it migrates. *)
Definition MooncakeConnectorStatusCollector (transfer_param : VllmRequest -> option bool) : ConnectorView :=
  mkConnectorView [] 0 0 0 0 0 0 (fun r => default false (transfer_param r)).

Inductive ConnectorType := MOONCAKE | HYBRID.

Definition create_connector_status_collector (t : option ConnectorType) (computed : VllmRequest -> Z) (param : VllmRequest -> option bool) (connector : option HybridSched)
    : option ConnectorView :=
  match t with
  | None => None
  | Some MOONCAKE => Some (MooncakeConnectorStatusCollector param)
  | Some HYBRID => Some (HybridConnectorStatusCollector computed (fun r => default false (param r)) connector)
  end.

(** The collectors by name: the fields that each of them writes; [None]: not registered. *)
Definition collect_by_name (v : EngineView) (st : StepView) (all_waitings : list VllmRequest) (name : string) : option (gmap string Z) :=
  if bool_decide (name = "hybrid_scheduler_waiting_to_decode_requests_num") then Some (from_connector name connector_waiting_to_decode_reqs_num v)
  else if bool_decide (name = "num_uncomputed_tokens_hybrid_scheduler_waiting_prefills") then
    Some (from_connector name connector_num_uncomputed_tokens_waiting_prefills v)
  else if bool_decide (name = "num_unallocated_tokens_hybrid_scheduler_waiting_decodes") then Some (from_connector name connector_num_unallocated_tokens_waiting_decodes v)
  else if bool_decide (name = "hybrid_scheduler_waiting_to_decode_tokens_num") then Some (from_connector name connector_waiting_to_decode_tokens_num v)
  else if bool_decide (name = "num_uncomputed_tokens_scheduler_waiting_prefills") then Some {[name := scheduler_uncomputed v]}
  else if bool_decide (name = "scheduler_waiting_to_decode_requests_num") then Some {[name := sum_loop (fun r => if waits_for_decode r then 1 else 0) (ev_waiting v) 0]}
  else if bool_decide (name = "scheduler_waiting_to_decode_tokens_num") then Some {[name := sum_loop (fun r => if waits_for_decode r then vr_num_tokens r else 0) (ev_waiting v) 0]}
  else if bool_decide (name = "num_uncomputed_tokens_all_waiting_prefills") then
    Some (<[name := hybrid_uncomputed v + scheduler_uncomputed v]>
            (<["num_uncomputed_tokens_scheduler_waiting_prefills" := scheduler_uncomputed v]>
              (from_connector "num_uncomputed_tokens_hybrid_scheduler_waiting_prefills" connector_num_uncomputed_tokens_waiting_prefills v)))
  else if bool_decide (name = "num_waiting_requests") then Some {[name := Z.of_nat (length all_waitings)]}
  else if bool_decide (name = "num_uncomputed_tokens_scheduler_running_prefills") then Some {[name := sum_loop (running_uncomputed_one st) (ev_running v) 0]}
  else if bool_decide (name = "num_unallocated_tokens_scheduler_running_prefills") then
    Some {[name := sum_loop (fun r => if bool_decide (num_computed_tokens r < num_prompt_tokens r) then vr_num_tokens r - num_computed_tokens r else 0) (ev_running v) 0]}
  else if bool_decide (name = "scheduler_running_to_decode_requests_num") then
    Some {[name := sum_loop (fun r => if samples_more r && negb (migrating_in v r) then 1 else 0) (ev_running v) 0]}
  else if bool_decide (name = "scheduler_running_to_decode_tokens_num") then
    Some {[name := sum_loop (fun r => if samples_more r && negb (migrating_in v r) then vr_num_tokens r else 0) (ev_running v) 0]}
  else if bool_decide (name = "num_loading_requests") then Some (from_connector name connector_loading_requests_num v)
  else if bool_decide (name = "num_tokens_loading_requests") then Some (from_connector name connector_num_tokens_loading_requests v)
  else if bool_decide (name = "num_running_requests") then Some {[name := Z.of_nat (length (ev_running v))]}
  else None.

Definition collect_one (mask : string -> bool) (v : EngineView) (st : StepView) (all_waitings : list VllmRequest) (fields : gmap string Z) (name : string) : gmap string Z :=
  if mask name then match collect_by_name v st all_waitings name with Some w => w ∪ fields | None => fields end else fields.

(** [get_waiting_status] and [get_running_status]: the names are a set, and are visited in any
    order. *)
Definition get_status (mask : string -> bool) (v : EngineView) (st : StepView) (all_waitings : list VllmRequest) (names : list string) (fields : gmap string Z) : gmap string Z :=
  fold_left (collect_one mask v st all_waitings) names fields.

Definition get_all_waiting_reqs (v : EngineView) : list VllmRequest :=
  ev_waiting v ++ match ev_connector v with Some c => connector_waiting_reqs c | None => [] end.

Definition WAITING_STATUSES : list string := [
  "hybrid_scheduler_waiting_to_decode_requests_num"; "num_unallocated_tokens_hybrid_scheduler_waiting_decodes";
  "hybrid_scheduler_waiting_to_decode_tokens_num"; "scheduler_waiting_to_decode_requests_num"; "scheduler_waiting_to_decode_tokens_num";
  "num_uncomputed_tokens_all_waiting_prefills"; "num_waiting_requests"; "num_loading_requests"; "num_tokens_loading_requests"].

Definition RUNNING_STATUSES : list string := [
  "num_uncomputed_tokens_scheduler_running_prefills"; "num_unallocated_tokens_scheduler_running_prefills";
  "scheduler_running_to_decode_requests_num"; "scheduler_running_to_decode_tokens_num"; "num_running_requests"].

(** ** The collected status is exact *)

Fixpoint zsum {A} (f : A -> Z) (l : list A) : Z := match l with [] => 0 | x :: l => f x + zsum f l end.

Lemma sum_loop_zsum {A} (f : A -> Z) l acc : sum_loop f l acc = acc + zsum f l.
Proof. revert acc. induction l as [|x l IH]; intros acc; cbn; [lia|]. rewrite IH. lia. Qed.

Lemma zsum_count {A} (p : A -> bool) l : zsum (fun x => if p x then 1 else 0) l = Z.of_nat (length (List.filter p l)).
Proof. induction l as [|x l IH]; cbn; [done|]. rewrite IH. destruct (p x); cbn; lia. Qed.

Lemma zsum_filter {A} (p : A -> bool) (f : A -> Z) l : zsum (fun x => if p x then f x else 0) l = zsum f (List.filter p l).
Proof. induction l as [|x l IH]; cbn; [done|]. rewrite IH. destruct (p x); cbn; lia. Qed.

(** The hybrid connector's numbers are those of the requests whose cache is to be loaded, of
    those whose cache is to be saved, and of those being loaded. *)
Theorem hybrid_connector_exact computed migrating s :
  let v := HybridConnectorStatusCollector computed migrating (Some s) in
  let to_load := List.filter (fun '(_, load, _) => load) (hs_waiting s) in
  let to_save := List.filter (fun '(_, _, save) => save) (hs_waiting s) in
  connector_waiting_to_decode_reqs_num v = Z.of_nat (length to_load) /\
  connector_waiting_to_decode_tokens_num v = zsum (fun '(r, _, _) => vr_num_tokens r) to_load /\
  connector_num_unallocated_tokens_waiting_decodes v = zsum (fun '(r, _, _) => vr_num_tokens r - computed r) to_load /\
  connector_num_uncomputed_tokens_waiting_prefills v = zsum (fun '(r, _, _) => vr_num_tokens r - computed r) to_save /\
  connector_num_tokens_loading_requests v = zsum vr_num_tokens (hs_loading s).
Proof.
  cbn. rewrite !sum_loop_zsum, !Z.add_0_l, <- zsum_count, <- !zsum_filter.
  assert (Hext : forall f g : VllmRequest * bool * bool -> Z, (forall x, f x = g x) -> zsum f (hs_waiting s) = zsum g (hs_waiting s)).
  { intros f g H. induction (hs_waiting s) as [|x l IH]; cbn; [done|]. by rewrite H, IH. }
  split_and!; try done; apply Hext; by intros [[r []] []].
Qed.

(** What a field says of the engine: numbers and token sums of sets of its requests. [None]:
    there is nothing to say, and the field stays as it is. *)
Definition status_spec (v : EngineView) (st : StepView) : list (string * option Z) :=
  let con f := f <$> ev_connector v in
  let prefilling := List.filter (fun r => bool_decide (num_computed_tokens r < num_prompt_tokens r)) (ev_running v) in
  let decoding := List.filter (fun r => samples_more r && negb (migrating_in v r)) (ev_running v) in
  let to_decode := List.filter waits_for_decode (ev_waiting v) in
  let to_prefill := List.filter (fun r => bool_decide (1 < vr_num_tokens r - num_computed_tokens r)) (ev_waiting v) in
  [("hybrid_scheduler_waiting_to_decode_requests_num", con connector_waiting_to_decode_reqs_num);
   ("num_unallocated_tokens_hybrid_scheduler_waiting_decodes", con connector_num_unallocated_tokens_waiting_decodes);
   ("hybrid_scheduler_waiting_to_decode_tokens_num", con connector_waiting_to_decode_tokens_num);
   ("scheduler_waiting_to_decode_requests_num", Some (Z.of_nat (length to_decode)));
   ("scheduler_waiting_to_decode_tokens_num", Some (zsum vr_num_tokens to_decode));
   ("num_uncomputed_tokens_all_waiting_prefills", Some (hybrid_uncomputed v + zsum (fun r => vr_num_tokens r - computed_blocks_tokens v r) to_prefill));
   ("num_waiting_requests", Some (Z.of_nat (length (get_all_waiting_reqs v))));
   ("num_loading_requests", con connector_loading_requests_num);
   ("num_tokens_loading_requests", con connector_num_tokens_loading_requests);
   ("num_uncomputed_tokens_scheduler_running_prefills", Some (zsum (running_uncomputed_one st) prefilling));
   ("num_unallocated_tokens_scheduler_running_prefills", Some (zsum (fun r => vr_num_tokens r - num_computed_tokens r) prefilling));
   ("scheduler_running_to_decode_requests_num", Some (Z.of_nat (length decoding)));
   ("scheduler_running_to_decode_tokens_num", Some (zsum vr_num_tokens decoding));
   ("num_running_requests", Some (Z.of_nat (length (ev_running v))))].

Lemma running_uncomputed_filter st l :
  zsum (running_uncomputed_one st) l = zsum (running_uncomputed_one st) (List.filter (fun r => bool_decide (num_computed_tokens r < num_prompt_tokens r)) l).
Proof.
  rewrite <- zsum_filter. induction l as [|r l IH]; cbn [zsum]; [done|].
  rewrite IH. f_equal. unfold running_uncomputed_one. by case_bool_decide.
Qed.

(** A collector writes its own field, and the one of all waiting prefills two more. *)
Lemma writes_own v st all name w k : collect_by_name v st all name = Some w -> is_Some (w !! k) ->
  k = name \/ k = "num_uncomputed_tokens_scheduler_waiting_prefills" \/ k = "num_uncomputed_tokens_hybrid_scheduler_waiting_prefills".
Proof.
  unfold collect_by_name. intros H Hk.
  repeat (case_bool_decide; [injection H as <-; unfold from_connector in Hk; try destruct (ev_connector v); try (by rewrite lookup_empty in Hk; destruct Hk);
    repeat (apply lookup_insert_is_Some in Hk as [->|[_ Hk]]; [by auto|]);
    try (by rewrite lookup_empty in Hk; destruct Hk); apply lookup_singleton_is_Some in Hk as ->; by auto|]).
  done.
Qed.

Lemma own_value v st name x : (name, x) ∈ status_spec v st -> exists w, collect_by_name v st (get_all_waiting_reqs v) name = Some w /\ w !! name = x.
Proof.
  intros H. unfold status_spec in H.
  repeat (apply elem_of_cons in H as [[= -> ->]|H];
    [eexists; split; [reflexivity|]; unfold from_connector; try (destruct (ev_connector v); cbn [fmap option_fmap option_map]; [apply lookup_singleton_eq|apply lookup_empty]);
     rewrite ?lookup_singleton_eq, ?lookup_insert_eq; f_equal; unfold scheduler_uncomputed; rewrite ?sum_loop_zsum, ?Z.add_0_l, ?zsum_count, ?zsum_filter; try reflexivity;
     try apply running_uncomputed_filter|]).
  by apply elem_of_nil in H.
Qed.

Section status_exact.
Context (mask : string -> bool) (v : EngineView) (st : StepView).

Abbreviation collect names fields := (get_status mask v st (get_all_waiting_reqs v) names fields).

Lemma get_status_other names fields k :
  (forall name w, name ∈ names -> collect_by_name v st (get_all_waiting_reqs v) name = Some w -> w !! k = None) -> collect names fields !! k = fields !! k.
Proof.
  revert fields. induction names as [|name names IH]; intros fields H; [done|].
  change (collect (name :: names) fields) with (collect names (collect_one mask v st (get_all_waiting_reqs v) fields name)).
  rewrite IH by (intros n w Hn; apply H; by right). unfold collect_one. destruct (mask name); [|done]. destruct (collect_by_name _ _ _ name) as [w|] eqn:E; [|done].
  rewrite lookup_union, (H name w) by (done || by left). by destruct (fields !! k).
Qed.

Lemma get_status_own names fields k w : NoDup names ->
  k <> "num_uncomputed_tokens_scheduler_waiting_prefills" -> k <> "num_uncomputed_tokens_hybrid_scheduler_waiting_prefills" ->
  k ∈ names -> collect_by_name v st (get_all_waiting_reqs v) k = Some w ->
  collect names fields !! k = if mask k then match w !! k with Some n => Some n | None => fields !! k end else fields !! k.
Proof.
  intros Hn H1 H2 Hk Hw. apply list_elem_of_split in Hk as (l1 & l2 & ->). apply list.NoDup_app in Hn as (_ & Hd & Hn). apply list.NoDup_cons in Hn as [Hl2 _].
  assert (Hother : forall l, k ∉ l -> forall fields, collect l fields !! k = fields !! k).
  { intros l Hl fields0. apply get_status_other. intros name w' Hname E. apply eq_None_not_Some. intros Hs.
    destruct (writes_own v st _ name w' k E Hs) as [->|[?|?]]; [by apply Hl|done..]. }
  assert (Hl1 : k ∉ l1) by (intros Hin; apply (Hd k Hin); by left). pose proof (Hother l1 Hl1 fields) as Ho1.
  replace (collect (l1 ++ k :: l2) fields) with (collect l2 (collect_one mask v st (get_all_waiting_reqs v) (collect l1 fields) k)) by (unfold get_status; by rewrite fold_left_app).
  rewrite (Hother l2 Hl2). unfold collect_one. rewrite Hw. destruct (mask k); [|exact Ho1]. rewrite lookup_union, Ho1. by destruct (w !! k), (fields !! k).
Qed.

Lemma status_names name x : (name, x) ∈ status_spec v st -> name ∈ WAITING_STATUSES ++ RUNNING_STATUSES.
Proof. intros H. replace (WAITING_STATUSES ++ RUNNING_STATUSES) with ((status_spec v st).*1) by done. apply list_elem_of_fmap. by exists (name, x). Qed.

(** In whatever order the collectors run, every field that the mask selects holds exactly what
    it says of the engine (how many requests of each kind there are, and how many tokens they
    have), and a field that the mask leaves out, or that only a connector could fill in, is
    not touched. *)
Theorem status_exact waits runs fields name x :
  waits ≡ₚ WAITING_STATUSES -> runs ≡ₚ RUNNING_STATUSES -> (name, x) ∈ status_spec v st ->
  collect runs (collect waits fields) !! name = if mask name then match x with Some n => Some n | None => fields !! name end else fields !! name.
Proof.
  intros Hw Hr Hx. destruct (own_value v st name x Hx) as (w & Hc & Hv).
  replace (collect runs (collect waits fields)) with (collect (waits ++ runs) fields) by (unfold get_status; by rewrite fold_left_app).
  pose proof (status_names name x Hx) as Hin. assert (Hd : NoDup (WAITING_STATUSES ++ RUNNING_STATUSES)) by (apply (bool_decide_unpack _); vm_compute; exact I).
  rewrite (get_status_own _ _ _ w); [by rewrite Hv|by rewrite Hw, Hr| | |by rewrite Hw, Hr|done].
  - intros ->. revert Hin. apply (bool_decide_unpack _). vm_compute. exact I.
  - intros ->. revert Hin. apply (bool_decide_unpack _). vm_compute. exact I.
Qed.

End status_exact.
