(* ===== verification/StatusUpdater.v ===== *)
(** * The status of an engine: when it is collected

    [status_updater.py] of [python/llumnix/llumnix/status_collector/vllm_v1]: the engine calls
    the updater at several points of each step; it keeps the requests that waited recently,
    collects the status, hands snapshots of the queues to the migration frontend, and passes
    the status on under a lock that it shares with the forwarding thread. *)

From stdpp Require Import base gmap sets list strings numbers.
From S2P Require Import Prelude GoStrings GoFloat Types CmsTypes LocalAccount Metrics Dispatch DispatchSpec MigrationFrontend KvtFrontend EngineStatus.

Local Open Scope Z_scope.

(** ** The requests that waited recently

    A request is known by its id and its arrival; times are in one unit. *)

Definition stale (staleness now : Z) (r : string * Z) : Prop := staleness < now - r.2.
#[export] Instance stale_dec staleness now r : Decision (stale staleness now r).
Proof. unfold stale. apply _. Defined.

Definition request_key (r : VllmRequest) : string * Z := (vr_id r, arrival_time r).

Definition add_waiting (staleness now : Z) (recent : gset (string * Z)) (r : VllmRequest) : gset (string * Z) :=
  let recent := {[request_key r]} ∪ recent in
  if decide (stale staleness now (request_key r)) then recent ∖ {[request_key r]} else recent.

Definition update_recent_waitings (staleness now : Z) (phase : StepPhase) (all_waitings : list VllmRequest) (recent : gset (string * Z)) : gset (string * Z) :=
  let recent := fold_left (add_waiting staleness now) all_waitings recent in
  if bool_decide (phase = STEP_BEGIN) then filter (fun r => ~ stale staleness now r) recent else recent.

(** A turn of the updater: the phase, the time, and the requests that wait. *)
Record turn := mkTurn { t_phase : StepPhase; t_now : Z; t_waitings : list VllmRequest }.

Definition after_turns (staleness : Z) (turns : list turn) (recent : gset (string * Z)) : gset (string * Z) :=
  fold_left (fun recent t => update_recent_waitings staleness (t_now t) (t_phase t) (t_waitings t) recent) turns recent.

Lemma add_waiting_elem staleness now recent r x : x ∈ add_waiting staleness now recent r <->
  (x = request_key r /\ ~ stale staleness now x) \/ (x ∈ recent /\ (x = request_key r -> ~ stale staleness now x)).
Proof.
  unfold add_waiting. destruct (decide (stale staleness now (request_key r))) as [Hs|Hs].
  - rewrite elem_of_difference, elem_of_union, elem_of_singleton. destruct (decide (x = request_key r)) as [->|Hne]; naive_solver.
  - rewrite elem_of_union, elem_of_singleton. destruct (decide (x = request_key r)) as [->|Hne]; naive_solver.
Qed.

Lemma add_waitings_elem staleness now l recent x : ~ stale staleness now x ->
  x ∈ fold_left (add_waiting staleness now) l recent <-> x ∈ recent \/ x ∈ request_key <$> l.
Proof.
  intros Hs. revert recent. induction l as [|r l IH]; intros recent; cbn [fold_left fmap list_fmap]; [set_solver|].
  rewrite IH, add_waiting_elem, elem_of_cons. naive_solver.
Qed.

Lemma add_waitings_sub staleness now l recent x : x ∈ fold_left (add_waiting staleness now) l recent -> x ∈ recent \/ x ∈ request_key <$> l.
Proof.
  revert recent. induction l as [|r l IH]; intros recent; cbn [fold_left fmap list_fmap]; [by left|].
  intros [H%add_waiting_elem|H]%IH; rewrite elem_of_cons; naive_solver.
Qed.

(** The turns up to [now], in time order. *)
Definition ordered_turns (now : Z) (turns : list turn) : Prop := Forall (fun t => t_now t <= now) turns.

Lemma after_turns_sub staleness turns recent x : x ∈ after_turns staleness turns recent ->
  x ∈ recent \/ exists t, t ∈ turns /\ x ∈ request_key <$> t_waitings t.
Proof.
  revert recent. induction turns as [|t turns IH]; intros recent; [by left|]. cbn. intros [H|(t' & Ht' & H)]%IH; [|right; exists t'; split; [by right|done]].
  assert (Hadd : x ∈ fold_left (add_waiting staleness (t_now t)) (t_waitings t) recent).
  { revert H. unfold update_recent_waitings. destruct (bool_decide _); [|done]. by intros [_ H']%elem_of_filter. }
  apply add_waitings_sub in Hadd as [H1|H1]; [by left|]. right. exists t. split; [by left|done].
Qed.

Lemma after_turns_keeps staleness now turns recent x : ordered_turns now turns -> ~ stale staleness now x ->
  x ∈ recent \/ (exists t, t ∈ turns /\ x ∈ request_key <$> t_waitings t) -> x ∈ after_turns staleness turns recent.
Proof.
  intros Ho Hs. revert recent. induction turns as [|t turns IH]; intros recent; cbn.
  { intros [H|(t & Ht & _)]; [done|by apply elem_of_nil in Ht]. }
  apply Forall_cons_iff in Ho as [Ht Ho]. intros H. apply IH; [done|].
  assert (Hs' : ~ stale staleness (t_now t) x) by (unfold stale in *; lia).
  assert (Hin : x ∈ recent \/ x ∈ request_key <$> t_waitings t -> x ∈ update_recent_waitings staleness (t_now t) (t_phase t) (t_waitings t) recent).
  { intros H1%(add_waitings_elem staleness (t_now t) _ _ x Hs'). unfold update_recent_waitings. destruct (bool_decide _); [|done]. by apply elem_of_filter. }
  destruct H as [H|(t' & [->|H1]%elem_of_cons & H2)]; [left; apply Hin; by left|left; apply Hin; by right|right; by exists t'].
Qed.

(** At the beginning of a step, the requests that an instance reports as having waited
    recently are exactly those that it saw waiting at some point and that arrived no longer
    ago than the configured time; so a request is reported from the step in which it is first
    seen until it is that old, whatever happened to it in between. *)
Theorem recent_waitings_exact staleness turns now waitings x : ordered_turns now turns ->
  x ∈ after_turns staleness (turns ++ [mkTurn STEP_BEGIN now waitings]) ∅ <->
  ~ stale staleness now x /\ exists t, t ∈ turns ++ [mkTurn STEP_BEGIN now waitings] /\ x ∈ request_key <$> t_waitings t.
Proof.
  intros Ho. set (last := mkTurn STEP_BEGIN now waitings). split.
  - intros H. split; [|apply after_turns_sub in H as [H|H]; [by apply elem_of_empty in H|done]].
    revert H. unfold after_turns. rewrite fold_left_app. cbn. unfold update_recent_waitings at 1. cbn. by intros [H _]%elem_of_filter.
  - intros [Hs Ht]. apply (after_turns_keeps staleness now); [|done|by right]. apply Forall_app. split; [done|]. constructor; [cbn; lia|constructor].
Qed.

Definition example_request : VllmRequest := mkVllmRequest "r1" 100 12 0 12 0 (Some 8).

(** A request that waited in an earlier step only, and is still young enough. *)
Lemma recent_waitings_exact_witness :
  ("r1", 100) ∈ after_turns 10 ([mkTurn STEP_BEGIN 101 [example_request]] ++ [mkTurn STEP_BEGIN 110 []]) ∅.
Proof.
  apply (recent_waitings_exact 10 [mkTurn STEP_BEGIN 101 [example_request]] 110 [] ("r1", 100)).
  - constructor; [cbn; lia|constructor].
  - split; [unfold stale; cbn; lia|]. exists (mkTurn STEP_BEGIN 101 [example_request]). split; [left|]. apply list_elem_of_fmap. exists example_request. split; [reflexivity|left].
Defined.

(** A request that arrived during a step longer than the configured time is never reported. *)
Theorem late_step_hides_request staleness now r : staleness < now - arrival_time r ->
  request_key r ∉ after_turns staleness [mkTurn STEP_BEGIN now [r]] ∅.
Proof.
  intros Hs Hin. unfold after_turns in Hin. cbn in Hin. unfold update_recent_waitings in Hin. cbn in Hin. apply elem_of_filter in Hin as [H _]. by apply H.
Qed.

(** ** The updater *)

Record UpdaterConfig := mkUpdaterConfig {
  update_freq : Z;
  enable_migration : bool;
  mig_async : bool;
  push_mode : bool;
  staleness_seconds : Z;
  enable_profiling : bool;
  profiling_steps : Z;
  uc_async_scheduling : bool;
  instance_status_mask : string -> bool
}.

(** The status that the updater fills in. *)
Record EngineStatus := mkEngineStatus {
  es_fields : gmap string Z;
  recent_waiting_requests : list string;
  waiting_requests : list string;
  es_step_duration : float
}.

Record Updater := mkUpdater {
  su_step_id : Z;
  su_update_id : Z;
  su_profiling_id : Z;
  recent_waitings_set : gset (string * Z);
  running_ref : option (list snap);
  waiting_ref : option (list snap);
  lock_held : bool;
  su_last_scheduled : option (gmap string Z);
  su_status : EngineStatus
}.

Definition new_updater (total_gpu_tokens : Z) : Updater :=
  mkUpdater 0 0 0 ∅ None None false None (mkEngineStatus {["num_total_gpu_tokens" := total_gpu_tokens]} [] [] f_zero).

(** What the engine passes to a call, and what is read of it. *)
Record UpdateCall := mkUpdateCall {
  uc_phase : StepPhase;
  uc_now : Z;
  uc_view : EngineView;
  uc_has_requests : bool;
  uc_num_scheduled : option (gmap string Z);
  uc_step_duration : option float;
  uc_free_blocks : Z;
  uc_block_size : Z
}.

Definition prefill_tokens (m : gmap string Z) : Z := map_sum (fun n => if bool_decide (1 < n) then n else 0) m.

(** [_update_profiling_status]: the new identifier, and the fields of a valid profile. *)
Definition profile_of (c : UpdaterConfig) (call : UpdateCall) (u : Updater) : option (Z * float) :=
  if negb (enable_profiling c && bool_decide (su_profiling_id u < profiling_steps c)) then None
  else match uc_step_duration call, uc_num_scheduled call with
       | Some d, Some m =>
           if feq d f_zero || negb (bool_decide (0 < map_sum (fun n => n) m)) then None
           else if bool_decide (prefill_tokens m = 0) then None else Some (prefill_tokens m, d)
       | _, _ => None
       end.

Definition update_profiling_status (c : UpdaterConfig) (call : UpdateCall) (u : Updater) : Updater :=
  let s := su_status u in
  match profile_of c call u with
  | None =>
      mkUpdater (su_step_id u) (su_update_id u) (su_profiling_id u) (recent_waitings_set u) (running_ref u) (waiting_ref u) (lock_held u) (su_last_scheduled u)
        (mkEngineStatus (<["profiling_id" := -1]> (es_fields s)) (recent_waiting_requests s) (waiting_requests s) (es_step_duration s))
  | Some (n, d) =>
      let id := su_profiling_id u + 1 in
      mkUpdater (su_step_id u) (su_update_id u) id (recent_waitings_set u) (running_ref u) (waiting_ref u) (lock_held u) (su_last_scheduled u)
        (mkEngineStatus (<["num_scheduled_prefill_tokens" := n]> (<["profiling_id" := id]> (es_fields s))) (recent_waiting_requests s) (waiting_requests s) d)
  end.

Definition engine_snap (core : VllmRequest -> EngineCoreRequest) (outputs : bool) (r : VllmRequest) : snap :=
  (core r, if outputs then Z.to_nat (num_output_tokens r) else 0%nat).

Definition running_snapshot (core : VllmRequest -> EngineCoreRequest) (v : EngineView) : list snap :=
  engine_snap core true <$> filter (fun r => num_prompt_tokens r <= num_computed_tokens r) (ev_running v).

(** The part under the lock: the recent waitings at the beginning of a step; else the status,
    and the snapshots of the previous call for the migration frontend. *)
Definition collect_phase (c : UpdaterConfig) (core : VllmRequest -> EngineCoreRequest) (waits runs : list string) (call : UpdateCall) (u : Updater)
    : option (option (list snap) * option (list snap)) * Updater :=
  let v := uc_view call in let s := su_status u in
  if bool_decide (uc_phase call = STEP_BEGIN) || bool_decide (uc_phase call = BYPASS_STEP_BEGIN) then
    let recent := update_recent_waitings (staleness_seconds c) (uc_now call) (uc_phase call) (get_all_waiting_reqs v) (recent_waitings_set u) in
    (None, mkUpdater (su_step_id u) (su_update_id u) (su_profiling_id u) recent (running_ref u) (waiting_ref u) (lock_held u) (su_last_scheduled u)
             (mkEngineStatus (es_fields s) (elements recent).*1 (waiting_requests s) (es_step_duration s)))
  else
    let snapshots := enable_migration c && mig_async c in
    let pushed := if snapshots then Some (running_ref u, waiting_ref u) else None in
    let total := default 0 (es_fields s !! "num_total_gpu_tokens") in
    let fields := <["num_used_gpu_tokens" := total - uc_free_blocks call * uc_block_size call]> (<["update_id" := su_update_id u]> (<["step_id" := su_step_id u]> (es_fields s))) in
    let st := mkStepView (uc_phase call) (uc_num_scheduled call) (uc_async_scheduling c) (su_last_scheduled u) in
    let fields := get_status (instance_status_mask c) v st (get_all_waiting_reqs v) waits fields in
    let fields := get_status (instance_status_mask c) v st (get_all_waiting_reqs v) runs fields in
    let last := if uc_async_scheduling c && bool_decide (uc_phase call = AFTER_SCHEDULE) && instance_status_mask c "num_uncomputed_tokens_scheduler_running_prefills"
                then match uc_num_scheduled call with Some m => Some m | None => su_last_scheduled u end else su_last_scheduled u in
    (pushed, mkUpdater (su_step_id u) (su_update_id u) (su_profiling_id u) (recent_waitings_set u)
               (if snapshots then Some (running_snapshot core v) else running_ref u)
               (if snapshots then Some (engine_snap core false <$> ev_waiting v) else waiting_ref u) (lock_held u) last
               (mkEngineStatus fields (recent_waiting_requests s) (vr_id <$> get_all_waiting_reqs v) (es_step_duration s))).

Definition set_lock (b : bool) (u : Updater) : Updater :=
  mkUpdater (su_step_id u) (su_update_id u) (su_profiling_id u) (recent_waitings_set u) (running_ref u) (waiting_ref u) b (su_last_scheduled u) (su_status u).

Definition count_call (phase : StepPhase) (u : Updater) : Updater :=
  mkUpdater (if bool_decide (phase = AFTER_UPDATE) then su_step_id u + 1 else su_step_id u) (su_update_id u) (su_profiling_id u)
    (recent_waitings_set u) (running_ref u) (waiting_ref u) (lock_held u) (su_last_scheduled u) (su_status u).

Definition count_update (u : Updater) : Updater :=
  mkUpdater (su_step_id u) (su_update_id u + 1) (su_profiling_id u) (recent_waitings_set u) (running_ref u) (waiting_ref u) (lock_held u) (su_last_scheduled u) (su_status u).

(** [Updated]: the snapshots handed to the migration frontend, and whether the status was
    forwarded. [Failed]: a collection raised, which is caught and logged. [Blocked]: the call
    waits for the lock, for ever when its holder does not release it. *)
Inductive update_result :=
  | Skipped
  | Blocked
  | Failed
  | Updated (pushed : option (option (list snap) * option (list snap))) (forwarded : bool).

(** [update_instance_status]; [raises]: one of the collections raises. *)
Definition update_instance_status (c : UpdaterConfig) (core : VllmRequest -> EngineCoreRequest) (waits runs : list string) (raises : bool) (call : UpdateCall) (u : Updater)
    : update_result * Updater :=
  let u := count_call (uc_phase call) u in
  if negb (bool_decide (su_step_id u mod update_freq c = 0)) then (Skipped, u)
  else
    let u := count_update u in
    let u := if bool_decide (uc_phase call = AFTER_UPDATE) then update_profiling_status c call u else u in
    if bool_decide (uc_phase call = AFTER_UPDATE) && uc_has_requests call then (Skipped, u)
    else if push_mode c && lock_held u then (Blocked, u)
    else
      let u := if push_mode c then set_lock true u else u in
      if raises then (Failed, u)
      else
        let '(pushed, u) := collect_phase c core waits runs call u in
        let forwarded := push_mode c && negb (bool_decide (uc_phase call = STEP_BEGIN) || bool_decide (uc_phase call = BYPASS_STEP_BEGIN)) in
        (Updated pushed forwarded, if push_mode c then set_lock false u else u).

(** ** What a call reports *)

Section updates.
Context (c : UpdaterConfig) (core : VllmRequest -> EngineCoreRequest) (waits runs : list string).
Context (Hwaits : waits ≡ₚ WAITING_STATUSES) (Hruns : runs ≡ₚ RUNNING_STATUSES).

Abbreviation update := (update_instance_status c core waits runs).

Definition begins (phase : StepPhase) : bool := bool_decide (phase = STEP_BEGIN) || bool_decide (phase = BYPASS_STEP_BEGIN).

Lemma count_lock phase u : lock_held (count_call phase u) = lock_held u /\ lock_held (count_update u) = lock_held u.
Proof. done. Qed.

Lemma profiling_keeps call u : let u' := update_profiling_status c call u in
  lock_held u' = lock_held u /\ running_ref u' = running_ref u /\ waiting_ref u' = waiting_ref u /\ su_update_id u' = su_update_id u /\
  su_step_id u' = su_step_id u /\ su_last_scheduled u' = su_last_scheduled u /\
  es_fields (su_status u') !! "num_total_gpu_tokens" = es_fields (su_status u) !! "num_total_gpu_tokens".
Proof.
  unfold update_profiling_status. destruct (profile_of c call u) as [[n d]|]; cbn [lock_held running_ref waiting_ref su_update_id su_step_id su_last_scheduled su_status es_fields];
    split_and!; try done; by rewrite !lookup_insert_ne.
Qed.

(** The state in which a call starts to collect. *)
Definition ready_state (call : UpdateCall) (u : Updater) : Updater :=
  let u := count_update (count_call (uc_phase call) u) in
  let u := if bool_decide (uc_phase call = AFTER_UPDATE) then update_profiling_status c call u else u in
  if push_mode c then set_lock true u else u.

Lemma update_updated call u pushed forwarded u' : update false call u = (Updated pushed forwarded, u') ->
  exists u1, collect_phase c core waits runs call (ready_state call u) = (pushed, u1) /\ u' = (if push_mode c then set_lock false u1 else u1) /\
    forwarded = push_mode c && negb (begins (uc_phase call)).
Proof.
  unfold update_instance_status, ready_state. destruct (negb _); [done|]. destruct (_ && uc_has_requests call); [done|]. destruct (_ && lock_held _); [done|].
  destruct (collect_phase c core waits runs call _) as [p u1]. intros [= <- <- <-]. by exists u1.
Qed.

Lemma ready_keeps call u : running_ref (ready_state call u) = running_ref u /\ waiting_ref (ready_state call u) = waiting_ref u /\
  su_update_id (ready_state call u) = su_update_id u + 1 /\ su_last_scheduled (ready_state call u) = su_last_scheduled u /\
  es_fields (su_status (ready_state call u)) !! "num_total_gpu_tokens" = es_fields (su_status u) !! "num_total_gpu_tokens".
Proof.
  unfold ready_state. destruct (bool_decide (uc_phase call = AFTER_UPDATE)).
  - pose proof (profiling_keeps call (count_update (count_call (uc_phase call) u))) as (_ & H2 & H3 & H4 & _ & H6 & H7).
    destruct (push_mode c); cbn [set_lock running_ref waiting_ref su_update_id su_last_scheduled su_status]; by rewrite H2, H3, H4, H6, H7.
  - by destruct (push_mode c).
Qed.

(** C23. A call after scheduling or at the end of a step that gets to report does so exactly: the
    waiting requests are those of the scheduler and the connector, every field that is
    collected holds the numbers and token sums of the engine's requests, the tokens in use are
    those that are not free, the report has a new number; the migration frontend gets the
    snapshots of the call before, and the lock is free again. *)
Theorem update_exact call u pushed forwarded u' name x :
  begins (uc_phase call) = false -> update false call u = (Updated pushed forwarded, u') ->
  let v := uc_view call in let s := su_status u' in
  waiting_requests s = vr_id <$> get_all_waiting_reqs v /\
  es_fields s !! "num_used_gpu_tokens" = Some (default 0 (es_fields (su_status u) !! "num_total_gpu_tokens") - uc_free_blocks call * uc_block_size call) /\
  es_fields s !! "update_id" = Some (su_update_id u + 1) /\
  ((name, Some x) ∈ status_spec v (mkStepView (uc_phase call) (uc_num_scheduled call) (uc_async_scheduling c) (su_last_scheduled u)) ->
    instance_status_mask c name = true -> es_fields s !! name = Some x) /\
  pushed = (if enable_migration c && mig_async c then Some (running_ref u, waiting_ref u) else None) /\
  forwarded = push_mode c /\ (push_mode c = true -> lock_held u' = false).
Proof.
  intros Hb Hu. apply update_updated in Hu as (u1 & Hc & -> & ->). destruct (ready_keeps call u) as (K1 & K2 & K3 & K4 & K5). rewrite Hb, andb_true_r.
  unfold collect_phase in Hc. unfold begins in Hb. rewrite Hb, K1, K2, K4, K5 in Hc. injection Hc as <- <-. set (r := ready_state call u) in *.
  assert (Hst : forall b u0, su_status (if b : bool then set_lock false u0 else u0) = su_status u0) by by intros [].
  cbv zeta. rewrite Hst. cbn [su_status waiting_requests es_fields].
  assert (Hrest : forall fields k, k ∉ WAITING_STATUSES ++ RUNNING_STATUSES -> k <> "num_uncomputed_tokens_scheduler_waiting_prefills" ->
    k <> "num_uncomputed_tokens_hybrid_scheduler_waiting_prefills" -> forall st,
    get_status (instance_status_mask c) (uc_view call) st (get_all_waiting_reqs (uc_view call)) runs
      (get_status (instance_status_mask c) (uc_view call) st (get_all_waiting_reqs (uc_view call)) waits fields) !! k = fields !! k).
  { intros fields k Hk H1 H2 st. assert (Ho : forall l, l ⊆ WAITING_STATUSES ++ RUNNING_STATUSES -> forall f, get_status (instance_status_mask c) (uc_view call) st (get_all_waiting_reqs (uc_view call)) l f !! k = f !! k).
    { intros l Hl f. apply get_status_other. intros n w Hn E. apply eq_None_not_Some. intros Hs. destruct (writes_own _ _ _ n w k E Hs) as [->|[?|?]]; [by apply Hk, Hl|done..]. }
    rewrite !Ho; [done| |]; intros y Hy; apply elem_of_app; [left; by rewrite <- Hwaits|right; by rewrite <- Hruns]. }
  split; [done|]. split; [|split; [|split; [|split; [done|split; [done|by intros ->]]]]].
  - rewrite Hrest; [|apply (bool_decide_unpack _); vm_compute; exact I|done|done]. by rewrite lookup_insert_eq.
  - rewrite Hrest; [|apply (bool_decide_unpack _); vm_compute; exact I|done|done]. by rewrite lookup_insert_ne, lookup_insert_eq, K3.
  - intros Hin Hm. rewrite (status_exact _ _ _ waits runs _ name (Some x) Hwaits Hruns Hin). by rewrite Hm.
Qed.

(** When a collection raises, the lock is not given back: in every later call the engine either
    has nothing to report or waits for the lock for ever. *)
Theorem failed_collection_blocks call u u' : push_mode c = true -> update true call u = (Failed, u') ->
  forall calls u'', u'' = fold_left (fun u call => (update false call u).2) calls u' ->
  forall call', (update false call' u'').1 = Skipped \/ (update false call' u'').1 = Blocked.
Proof.
  intros Hp Hf. assert (Hl : lock_held u' = true).
  { revert Hf. unfold update_instance_status. destruct (negb _); [done|]. destruct (_ && uc_has_requests call); [done|]. destruct (_ && lock_held _); [done|].
    rewrite Hp. by intros [= <-]. }
  assert (Hstep : forall call0 u0, lock_held u0 = true ->
    lock_held (update false call0 u0).2 = true /\ ((update false call0 u0).1 = Skipped \/ (update false call0 u0).1 = Blocked)).
  { intros call0 u0 H0. unfold update_instance_status. destruct (negb _); [by split; [|left]|].
    set (u1 := if bool_decide (uc_phase call0 = AFTER_UPDATE) then _ else _).
    assert (H1 : lock_held u1 = true) by (unfold u1; destruct (bool_decide _); [rewrite (proj1 (profiling_keeps call0 _))|]; done).
    destruct (_ && uc_has_requests call0); [by split; [|left]|]. rewrite Hp, H1. by split; [|right]. }
  intros calls u'' -> call'. apply Hstep. clear call'. revert Hl. generalize u'. induction calls as [|c0 calls IH]; intros w Hw; [done|]. cbn. by apply IH, Hstep.
Qed.

End updates.

(** The first report of an engine hands the migration frontend no snapshots at all; a migration
    that comes before the second report fails, and every later one is refused. *)
Theorem first_report_wedges_migration c core waits runs req2corereq call total pushed forwarded u' detailed sched tokens p :
  enable_migration c && mig_async c = true -> begins (uc_phase call) = false ->
  update_instance_status c core waits runs false call (new_updater total) = (Updated (Some pushed) forwarded, u') ->
  exists k', migrate_out req2corereq sched tokens p (update_req_status pushed (kvt_start detailed)) = (OutRaise, k') /\
    forall w, rtc (kvt_step req2corereq) (mkWorld k' None [] ∅ ∅) w ->
      forall sched' tokens' p', migrate_out req2corereq sched' tokens' p' (wk w) = (OutReturn false, wk w).
Proof.
  intros Hm Hb Hu. apply update_updated in Hu as (u1 & Hc & _). destruct (ready_keeps c call (new_updater total)) as (K1 & K2 & _).
  unfold collect_phase in Hc. unfold begins in Hb. rewrite Hb, Hm, K1, K2 in Hc. injection Hc as <- _. apply early_migration_wedges.
Qed.

(** ** An example: one request waits, one decodes *)

Definition example_view : EngineView :=
  mkEngineView [example_request] [mkVllmRequest "r0" 90 20 16 16 4 (Some 8)] None (fun _ => 0).
Definition example_call : UpdateCall := mkUpdateCall AFTER_SCHEDULE 105 example_view true (Some {["r0" := 1]}) None 90 16.
Definition example_updater : UpdaterConfig := mkUpdaterConfig 1 true true true 10 false 50 false (generate_instance_status_mask ["decode_batch_size"]).
Definition example_report : update_result * Updater :=
  update_instance_status example_updater (fun r => mkCoreReq (vr_id r) 0) WAITING_STATUSES RUNNING_STATUSES false example_call (new_updater 1600).

Lemma update_exact_witness :
  waiting_requests (su_status example_report.2) = ["r1"] /\
  es_fields (su_status example_report.2) !! "num_used_gpu_tokens" = Some 160 /\
  es_fields (su_status example_report.2) !! "scheduler_running_to_decode_requests_num" = Some 1 /\ lock_held example_report.2 = false.
Proof.
  destruct (update_exact example_updater (fun r => mkCoreReq (vr_id r) 0) WAITING_STATUSES RUNNING_STATUSES (Permutation_refl _) (Permutation_refl _)
    example_call (new_updater 1600) (Some (None, None)) true example_report.2 "scheduler_running_to_decode_requests_num" 1) as (H1 & H2 & _ & H4 & _ & _ & H7).
  - reflexivity.
  - vm_compute. reflexivity.
  - split; [exact H1|]. split; [exact H2|]. split; [|exact (H7 eq_refl)]. apply H4; [|vm_compute; reflexivity].
    unfold status_spec. do 11 apply list_elem_of_further. apply list_elem_of_here.
Defined.

(** ** An example of the mask *)

#[local] Instance example_predictor : LatencyPredictor := { predictTtftLatencyByChunkPrefill _ _ _ _ := None; predictTpotLatency _ _ := None }.

Definition example_status (waiting loading used : Z) : InstanceStatus :=
  mkStatus "i" true 0 0 0 [] [] 0 0 waiting 0 0 loading 0 used 0 0 0 0 0 0 0 0 0 0 0 0 0 0 0 0 0 0 f_zero f_zero f_zero f_zero 0 f_zero 0.

(** An instance that collects for the number of waiting requests may leave the rest at zero. *)
Lemma mask_covers_metrics_witness :
  let c := demo_config "load-balance" false in let iv := of_cms_view (demo_view "i") in let cv := demo_view "i" in
  getSchedulingMetric c 0 None "num_waiting_requests" (with_cms (with_status (example_status 3 5 7) cv) iv) =
  getSchedulingMetric c 0 None "num_waiting_requests" (with_cms (with_status (example_status 3 0 0) cv) iv).
Proof.
  intros c iv cv. apply (mask_covers_metrics ["num_waiting_requests"] "num_waiting_requests" c 0 None iv cv); [left|discriminate|].
  intros f get Hin Hm. apply bool_decide_eq_true_1, list_elem_of_singleton in Hm. subst f.
  repeat (apply elem_of_cons in Hin as [E|Hin]; [injection E; intros; subst; (reflexivity || discriminate)|]). by apply elem_of_nil in Hin.
Defined.

