(* ===== verification/Llumlet.v ===== *)
(** * The instance's agent

    [llumlet.py], [converters.py], [instance_info.py] and [cms/cms_client_async.py] of
    [python/llumnix/llumnix]: the process beside an engine that registers the instance in the
    cluster store, reports the engine's status, and passes migrations and aborts on to the
    engine. A method is a program over what it calls: the engine, the store, the queue of
    pushed statuses, the clock, and the status that the agent holds, which all its coroutines
    share. An exception is a value; times are in milliseconds. The process is the reporting
    loop, the handlers of the RPC server and the shutdown, interleaved at every call. *)

From stdpp Require Import base gmap sets list strings numbers.
From S2P Require Import Prelude GoStrings GoFloat Types CmsTypes Metrics Programs CmsReadClient Selectors Rescheduling MigrationFrontend EngineStatus.

Local Open Scope Z_scope.

(** ** converters.py *)

(** A status as the engine's side keeps it: numbers by name, as in [EngineStatus]. *)
Record PyStatus := mkPyStatus {
  ps_instance_id : string;
  ps_schedulable : bool;
  ps_timestamp_ms : option Z;
  ps_recent_waiting_requests : list string;
  ps_waiting_requests : list string;
  ps_ints : gmap string Z;
  ps_floats : gmap string float
}.

(** A field that is [None] leaves the message's field at its default. *)
Definition to_cms_status (s : PyStatus) : InstanceStatus :=
  let i name := default 0 (ps_ints s !! name) in
  let f name := default f_zero (ps_floats s !! name) in
  mkStatus (ps_instance_id s) (ps_schedulable s) (default 0 (ps_timestamp_ms s)) (i "step_id") (i "update_id")
    (ps_recent_waiting_requests s) (ps_waiting_requests s)
    (i "hybrid_scheduler_waiting_to_decode_requests_num") (i "scheduler_waiting_to_decode_requests_num") (i "num_waiting_requests")
    (i "scheduler_running_to_decode_requests_num") (i "num_running_requests") (i "num_loading_requests")
    (i "num_total_gpu_tokens") (i "num_used_gpu_tokens")
    (i "num_uncomputed_tokens_hybrid_scheduler_waiting_prefills") (i "num_unallocated_tokens_hybrid_scheduler_waiting_decodes")
    (i "hybrid_scheduler_waiting_to_decode_tokens_num") (i "num_uncomputed_tokens_scheduler_waiting_prefills")
    (i "scheduler_waiting_to_decode_tokens_num") (i "num_uncomputed_tokens_scheduler_running_prefills")
    (i "num_unallocated_tokens_scheduler_running_prefills") (i "scheduler_running_to_decode_tokens_num")
    (i "num_tokens_loading_requests") (i "num_uncomputed_tokens_all_waiting_prefills")
    (i "num_migrate_in_reqs") (i "num_migrate_out_reqs") (i "num_available_migrate_in_slots") (i "num_available_migrate_out_slots")
    (i "num_migrate_in_tokens") (i "num_migrate_out_tokens") (i "num_available_migrate_in_tokens") (i "num_available_migrate_out_tokens")
    (f "kv_cache_usage_ratio_migrate_in") (f "kv_cache_usage_ratio_migrate_out")
    (f "available_kv_cache_usage_ratio_migrate_in") (f "available_kv_cache_usage_ratio_migrate_out")
    (i "profiling_id") (f "step_duration") (i "num_scheduled_prefill_tokens").

(** Every number that the scheduler's metrics read is the field of that name. *)
Theorem converted_fields s name get : (name, get) ∈ status_fields -> get (to_cms_status s) = default 0 (ps_ints s !! name).
Proof. unfold status_fields. intros H. repeat (apply elem_of_cons in H as [[= -> ->]|H]; [reflexivity|]). by apply elem_of_nil in H. Qed.

(** [InstanceMetaData]: -1 and the empty string stand for what is not known. *)
Record PyMetadata := mkPyMetadata {
  pm_instance_id : string; pm_instance_type : string; pm_backend_type : string; pm_ip : string; pm_ip_kvs : string;
  pm_api_server_port : Z; pm_llumlet_port : Z; pm_kvt_port : Z; pm_node_id : string;
  pm_data_parallel_size : Z; pm_tensor_parallel_size : Z; pm_unit_id : string; pm_dp_rank : Z; pm_ep_rank : Z; pm_dp_local_rank : Z;
  pm_utc_create : float; pm_utc_update : float; pm_ip_kvt : string; pm_block_size : Z; pm_max_num_batched_tokens : Z
}.

Definition known (n : Z) : Z := if bool_decide (n = -1) then 0 else n.
Definition known_float (x : float) : float := if feq x (f64_of_Z (-1)) then f_zero else x.

Definition to_cms_metadata (m : PyMetadata) : InstanceMetadata :=
  mkMetadata (pm_instance_id m) (pm_instance_type m) (pm_backend_type m) (pm_ip m) (pm_ip_kvs m) (known (pm_api_server_port m)) (known (pm_llumlet_port m))
    (known (pm_kvt_port m)) (pm_node_id m) (known (pm_data_parallel_size m)) (known (pm_tensor_parallel_size m)) (pm_unit_id m) (known (pm_dp_rank m))
    (known (pm_ep_rank m)) (known (pm_dp_local_rank m)) (known_float (pm_utc_create m)) (known_float (pm_utc_update m)) (pm_ip_kvt m)
    (known (pm_block_size m)) (known (pm_max_num_batched_tokens m)).

(** ** What the agent calls *)

Inductive engine_op : Type -> Type :=
  | GetInstanceStatus : engine_op PyStatus
  | MigrateOut (host : string) (port : Z) (p : MigrationParams) : engine_op bool
  | MigClientMigrate (host : string) (port : Z) (p : MigrationParams) : engine_op bool
  | EngineAbort (ids : list string) : engine_op unit
  | EngineMigrateIn (data format : string) : engine_op bool
  | EngineAbortMigrateIn (ids : list string) : engine_op unit.

Inductive call_result (A : Type) := CallOk (a : A) | CallTimeout | CallError (e : string).
Arguments CallOk {A} a.
Arguments CallTimeout {A}.
Arguments CallError {A} e.

(** The status that the agent holds: at first an object of its own, which is not a message and
    cannot be written to the store. *)
Inductive held_status := NotAMessage | Message (s : InstanceStatus).

(** [LSetMetadata] and [LSetStatus] are [CMSWriteClient]'s writes under the instance's keys with
    a time to live in seconds; the answer says whether the store took them. [LHeld] reads the
    status that the agent holds, [LHold] replaces it, and [LMark] changes that object itself, for
    it to say that the instance is not schedulable, and gives it. *)
Inductive leff : Type -> Type :=
  | LNow : leff Z
  | LSleep (ms : Z) : leff unit
  | LEngine {A : Type} (op : engine_op A) (timeout : Z) : leff (call_result A)
  | LSetMetadata (key : string) (m : InstanceMetadata) (ex : Z) : leff bool
  | LSetStatus (key : string) (s : InstanceStatus) (ex : Z) : leff bool
  | LDelete (key : string) : leff bool
  | LQueueGet (timeout : Z) : leff (option InstanceStatus)
  | LQueuePut (s : InstanceStatus) : leff unit
  | LParentAlive : leff bool
  | LHeld : leff held_status
  | LHold (s : InstanceStatus) : leff unit
  | LMark (now : Z) : leff held_status.

Record LlumletConfig := mkLlumletConfig {
  lc_instance_id : string;
  lc_metadata : InstanceMetadata;
  status_push_interval : Z;
  metadata_push_interval : Z;
  expired_time : Z;
  lc_push : bool;
  enable_mig : bool;
  detailed_mig : bool;
  max_req_mig_in : Z; max_req_mig_out : Z; max_token_mig_in : Z; max_token_mig_out : Z; max_ratio_mig_in : float; max_ratio_mig_out : float;
  hybrid_vllm : bool;
  get_status_timeout : Z; migrate_timeout : Z; abort_timeout : Z; migrate_in_timeout : Z
}.

Definition MAX_ENGINE_CLIENT_RETRIES : nat := 3.
Definition ENGINE_CLIENT_RETRY_INTERVAL : Z := 2000.
Definition PRESTOP_MIGRATION_SEND_TIMES : nat := 2.

Definition set_unschedulable (now : Z) (s : InstanceStatus) : InstanceStatus :=
  mkStatus (InstanceId s) false now (StepId s) (UpdateId s) (RecentWaitingRequests s) (WaitingRequests s)
    (HybridSchedulerWaitingToDecodeRequestsNum s) (SchedulerWaitingToDecodeRequestsNum s) (NumWaitingRequestsStatus s) (SchedulerRunningToDecodeRequestsNum s)
    (NumRunningRequests s) (NumLoadingRequests s) (NumTotalGpuTokens s) (NumUsedGpuTokens s)
    (NumUncomputedTokensHybridSchedulerWaitingPrefills s) (NumUnallocatedTokensHybridSchedulerWaitingDecodes s) (HybridSchedulerWaitingToDecodeTokensNum s)
    (NumUncomputedTokensSchedulerWaitingPrefills s) (SchedulerWaitingToDecodeTokensNum s) (NumUncomputedTokensSchedulerRunningPrefills s)
    (NumUnallocatedTokensSchedulerRunningPrefills s) (SchedulerRunningToDecodeTokensNum s) (NumTokensLoadingRequests s) (NumUncomputedTokensAllWaitingPrefills s)
    (NumMigrateInReqs s) (NumMigrateOutReqs s) (NumAvailableMigrateInSlots s) (NumAvailableMigrateOutSlots s)
    (NumMigrateInTokens s) (NumMigrateOutTokens s) (NumAvailableMigrateInTokens s) (NumAvailableMigrateOutTokens s)
    (KvCacheUsageRatioMigrateIn s) (KvCacheUsageRatioMigrateOut s) (AvailableKvCacheUsageRatioMigrateIn s) (AvailableKvCacheUsageRatioMigrateOut s)
    (ProfilingId s) (StepDuration s) (NumScheduledPrefillTokens s).

Definition mark_unschedulable (now : Z) (h : held_status) : held_status :=
  match h with NotAMessage => NotAMessage | Message s => Message (set_unschedulable now s) end.

(** [complete_instance_status]. *)
Definition complete_instance_status (c : LlumletConfig) (now : Z) (s : InstanceStatus) : InstanceStatus :=
  let d := enable_mig c && detailed_mig c in
  mkStatus (lc_instance_id c) (Schedulable s) now (StepId s) (UpdateId s) (RecentWaitingRequests s) (WaitingRequests s)
    (HybridSchedulerWaitingToDecodeRequestsNum s) (SchedulerWaitingToDecodeRequestsNum s) (NumWaitingRequestsStatus s) (SchedulerRunningToDecodeRequestsNum s)
    (NumRunningRequests s) (NumLoadingRequests s) (NumTotalGpuTokens s) (NumUsedGpuTokens s)
    (NumUncomputedTokensHybridSchedulerWaitingPrefills s) (NumUnallocatedTokensHybridSchedulerWaitingDecodes s) (HybridSchedulerWaitingToDecodeTokensNum s)
    (NumUncomputedTokensSchedulerWaitingPrefills s) (SchedulerWaitingToDecodeTokensNum s) (NumUncomputedTokensSchedulerRunningPrefills s)
    (NumUnallocatedTokensSchedulerRunningPrefills s) (SchedulerRunningToDecodeTokensNum s) (NumTokensLoadingRequests s) (NumUncomputedTokensAllWaitingPrefills s)
    (NumMigrateInReqs s) (NumMigrateOutReqs s)
    (if enable_mig c then max_req_mig_in c - NumMigrateInReqs s else NumAvailableMigrateInSlots s)
    (if enable_mig c then max_req_mig_out c - NumMigrateOutReqs s else NumAvailableMigrateOutSlots s)
    (NumMigrateInTokens s) (NumMigrateOutTokens s)
    (if d then max_token_mig_in c - NumMigrateInTokens s else NumAvailableMigrateInTokens s)
    (if d then max_token_mig_out c - NumMigrateOutTokens s else NumAvailableMigrateOutTokens s)
    (KvCacheUsageRatioMigrateIn s) (KvCacheUsageRatioMigrateOut s)
    (if d then f64_sub (max_ratio_mig_in c) (KvCacheUsageRatioMigrateIn s) else AvailableKvCacheUsageRatioMigrateIn s)
    (if d then f64_sub (max_ratio_mig_out c) (KvCacheUsageRatioMigrateOut s) else AvailableKvCacheUsageRatioMigrateOut s)
    (ProfilingId s) (StepDuration s) (NumScheduledPrefillTokens s).

(** ** llumlet.py *)

Section llumlet.
Context (c : LlumletConfig).

Definition metadata_key : string := LlumnixInstanceMetadataPrefix +:+ lc_instance_id c.
Definition status_key : string := LlumnixInstanceStatusPrefix +:+ lc_instance_id c.

(** [report_status_to_cms]: whatever goes wrong is logged. *)
Definition report_status_to_cms (s : held_status) : Prog leff unit :=
  match s with
  | NotAMessage => Ret tt
  | Message s => _ ← perform (LSetStatus status_key s (expired_time c)); Ret tt
  end.

(** [send_unschedulable_status_to_cms]: the held status itself is changed. *)
Definition send_unschedulable_status_to_cms : Prog leff unit :=
  now ← perform LNow;
  s ← perform (LMark now);
  report_status_to_cms s.

(** The attempts of [_execute_with_timeout]; [n] are left. *)
Fixpoint attempts {A} (op : engine_op A) (timeout : Z) (n : nat) : Prog leff (option A) :=
  match n with
  | O => Ret None
  | S n =>
      r ← perform (LEngine op timeout);
      match r with
      | CallOk a => Ret (Some a)
      | _ => _ ← (if bool_decide (n = 0%nat) then Ret tt else perform (LSleep ENGINE_CLIENT_RETRY_INTERVAL)); attempts op timeout n
      end
  end.

Definition execute_with_timeout {A} (op : engine_op A) (timeout : Z) : Prog leff (option A) :=
  r ← attempts op timeout MAX_ENGINE_CLIENT_RETRIES;
  match r with
  | Some a => Ret (Some a)
  | None => _ ← send_unschedulable_status_to_cms; Ret None
  end.

(** [None] is an exception. *)
Definition get_instance_status_from_engine : Prog leff (option InstanceStatus) :=
  r ← execute_with_timeout GetInstanceStatus (get_status_timeout c);
  match r with
  | Some p => now ← perform LNow; Ret (Some (complete_instance_status c now (to_cms_status p)))
  | None => Ret None
  end.

(** [LQueueGet] answers with the last status in the queue, as [_get_instance_status_from_queue]
    takes all of them, or not in time. *)
Definition get_instance_status_from_queue : Prog leff (option InstanceStatus) :=
  q ← perform (LQueueGet (get_status_timeout c));
  match q with
  | Some m => now ← perform LNow; Ret (Some (complete_instance_status c now m))
  | None => get_instance_status_from_engine
  end.

Definition report_metadata_to_cms : Prog leff bool := perform (LSetMetadata metadata_key (lc_metadata c) (expired_time c)).

(** [register_with_cms]; [false] is the exception after the last attempt. *)
Fixpoint register_with_cms (n : nat) : Prog leff bool :=
  match n with
  | O => Ret false
  | S n =>
      ok ← perform (LSetMetadata metadata_key (lc_metadata c) (expired_time c));
      if ok : bool then Ret true else _ ← (if bool_decide (n = 0%nat) then Ret tt else perform (LSleep 5000)); register_with_cms n
  end.

(** The status of one turn, and its report. *)
Definition report_turn : Prog leff unit :=
  r ← (if lc_push c then get_instance_status_from_queue else get_instance_status_from_engine);
  match r with
  | Some m => _ ← perform (LHold m); report_status_to_cms (Message m)
  | None => Ret tt
  end.

(** How [run_busy_loop] ends: with [SystemExit] when the engine's process is gone, or with the
    exception of [register_with_cms]. *)
Inductive loop_end := ParentGone | RegistrationFailed.

(** The loop of [run_busy_loop]. *)
Fixpoint busy_loop (fuel : nat) (last_metadata_report_time : Z) : Prog leff loop_end :=
  match fuel with
  | O => Hang
  | S fuel =>
      start_time ← perform LNow;
      last ← (if bool_decide (metadata_push_interval c <= start_time - last_metadata_report_time) then
                ok ← report_metadata_to_cms; Ret (if ok : bool then start_time else last_metadata_report_time)
              else Ret last_metadata_report_time);
      alive ← perform LParentAlive;
      if negb alive then Ret ParentGone
      else
        _ ← report_turn;
        now ← perform LNow;
        _ ← (if bool_decide (now - start_time < status_push_interval c) then perform (LSleep (status_push_interval c - (now - start_time))) else Ret tt);
        busy_loop fuel last
  end.

Definition run_busy_loop (fuel : nat) : Prog leff loop_end :=
  ok ← register_with_cms 3;
  if ok : bool then now ← perform LNow; busy_loop fuel now else Ret RegistrationFailed.

(** [remove_instance] deletes the two keys one after the other. *)
Definition remove_from_cms : Prog leff unit :=
  ok ← perform (LDelete metadata_key);
  if ok : bool then _ ← perform (LDelete status_key); Ret tt else Ret tt.

(** [migrate]: [None] is an exception, of which [NotEnoughSlotsError] is told apart. *)
Inductive migrate_answer := Migrated (any : bool) | NotEnoughSlots | MigrateFailed.

Fixpoint migrate_out_times (n : nat) (host : string) (port : Z) (p : MigrationParams) (any_req_migrated any_success : bool) : Prog leff (bool * bool) :=
  match n with
  | O => Ret (any_req_migrated, any_success)
  | S n =>
      r ← execute_with_timeout (MigrateOut host port p) (migrate_timeout c);
      match r with
      | Some res => migrate_out_times n host port p (any_req_migrated || res) true
      | None => migrate_out_times n host port p any_req_migrated any_success
      end
  end.

(** The slots of the status that is held; before the first one they are zero. *)
Definition out_slots (s : held_status) : Z * Z * float :=
  match s with
  | NotAMessage => (0, 0, f_zero)
  | Message m => (NumAvailableMigrateOutSlots m, NumAvailableMigrateOutTokens m, AvailableKvCacheUsageRatioMigrateOut m)
  end.

Definition enough_slots (p : MigrationParams) (s : held_status) : bool :=
  let '(slots, tokens, ratio) := out_slots s in
  negb (bool_decide (slots < num_reqs p)) && negb (detailed_mig c && bool_decide (tokens < num_tokens p)) && negb (detailed_mig c && fgt (kv_cache_usage_ratio p) ratio).

Definition migrate (host : string) (port : Z) (p : MigrationParams) : Prog leff migrate_answer :=
  s ← perform LHeld;
  if negb (enough_slots p s) then Ret NotEnoughSlots
  else if negb (hybrid_vllm c) || drain p then
    '(any, success) ← migrate_out_times (if drain p then PRESTOP_MIGRATION_SEND_TIMES else 1%nat) host port p false false;
    Ret (if success : bool then Migrated any else MigrateFailed)
  else
    r ← execute_with_timeout (MigClientMigrate host port p) (migrate_timeout c);
    Ret (match r with Some res => Migrated res | None => MigrateFailed end).

Definition abort (ids : list string) : Prog leff bool :=
  r ← execute_with_timeout (EngineAbort ids) (abort_timeout c); Ret (bool_decide (is_Some r)).

Definition migrate_in (data format : string) : Prog leff (option bool) :=
  execute_with_timeout (EngineMigrateIn data format) (migrate_in_timeout c).

(** [abort_migrate_in] of a vLLM engine. *)
Definition abort_migrate_in (ids : list string) : Prog leff bool :=
  r ← execute_with_timeout (EngineAbortMigrateIn ids) (abort_timeout c); Ret (bool_decide (is_Some r)).

Definition push_instance_status (s : InstanceStatus) : Prog leff unit := perform (LQueuePut s).

(** The calls of the RPC server. *)
Inductive agent_call :=
  | CallMigrate (host : string) (port : Z) (p : MigrationParams)
  | CallAbort (ids : list string)
  | CallMigrateIn (data format : string)
  | CallAbortMigrateIn (ids : list string)
  | CallPushStatus (s : InstanceStatus).

Definition rpc_handler (call : agent_call) : Prog leff unit :=
  match call with
  | CallMigrate host port p => _ ← migrate host port p; Ret tt
  | CallAbort ids => _ ← abort ids; Ret tt
  | CallMigrateIn data format => _ ← migrate_in data format; Ret tt
  | CallAbortMigrateIn ids => _ ← abort_migrate_in ids; Ret tt
  | CallPushStatus s => push_instance_status s
  end.

(** ** The process

    [start_services] runs the RPC server and the reporting loop, and takes the instance out of
    the store when one of them ends with an exception or when a signal comes. An exit, by a signal
    or because the engine's process is gone, cancels every other coroutine, the server's
    acceptance of calls among them; after another exception they go on until
    [start_services] cancels the loop and stops the server, which is after the removal. *)

Inductive who := WLoop | WHandler (n : nat) | WMain.

#[export] Instance who_eq_dec : EqDecision who.
Proof. solve_decision. Defined.

(** [start_services]: waiting, in its [finally] up to the end of the removal, and after it. *)
Inductive main_state := Serving | Stopping (p : Prog leff unit) | Closing | Stopped.

(** [ag_next] numbers the calls. [ag_signalled]: a second signal does nothing.
    [ag_server_failed]: the RPC server ended with an exception. *)
Record agent := mkAgent {
  ag_held : held_status;
  ag_loop : option (Prog leff loop_end);
  ag_handlers : gmap nat (Prog leff unit);
  ag_next : nat;
  ag_accepting : bool;
  ag_main : main_state;
  ag_signalled : bool;
  ag_server_failed : bool;
  ag_log : list (who * event leff)
}.

Definition answers {X} (e : leff X) (x : X) (held : held_status) : Prop :=
  match e in leff X return X -> Prop with
  | LHeld => fun x => x = held
  | LMark now => fun x => x = mark_unschedulable now held
  | _ => fun _ => True
  end x.

Definition held_after {X} (e : leff X) (held : held_status) : held_status :=
  match e with LHold s => Message s | LMark now => mark_unschedulable now held | _ => held end.

Definition set_loop (p : option (Prog leff loop_end)) (a : agent) : agent :=
  mkAgent (ag_held a) p (ag_handlers a) (ag_next a) (ag_accepting a) (ag_main a) (ag_signalled a) (ag_server_failed a) (ag_log a).
Definition set_handlers (h : gmap nat (Prog leff unit)) (a : agent) : agent :=
  mkAgent (ag_held a) (ag_loop a) h (ag_next a) (ag_accepting a) (ag_main a) (ag_signalled a) (ag_server_failed a) (ag_log a).
Definition set_main (m : main_state) (a : agent) : agent :=
  mkAgent (ag_held a) (ag_loop a) (ag_handlers a) (ag_next a) (ag_accepting a) m (ag_signalled a) (ag_server_failed a) (ag_log a).

(** [w] makes the call [e], which is answered with [x]. *)
Definition acted {X} (w : who) (e : leff X) (x : X) (a : agent) : agent :=
  mkAgent (held_after e (ag_held a)) (ag_loop a) (ag_handlers a) (ag_next a) (ag_accepting a) (ag_main a) (ag_signalled a) (ag_server_failed a)
    (ag_log a ++ [(w, Ev e x)]).

Definition start_call (p : Prog leff unit) (a : agent) : agent :=
  mkAgent (ag_held a) (ag_loop a) (<[ag_next a := p]> (ag_handlers a)) (S (ag_next a)) (ag_accepting a) (ag_main a) (ag_signalled a) (ag_server_failed a) (ag_log a).

(** [SystemExit] leaves the event loop: everything else is cancelled, and [start_services] goes
    on with its [finally], or is cancelled in it. *)
Definition system_exit (signalled : bool) (a : agent) : agent :=
  mkAgent (ag_held a) None ∅ (ag_next a) false (match ag_main a with Serving => Stopping remove_from_cms | _ => Stopped end)
    (signalled || ag_signalled a) (ag_server_failed a) (ag_log a).

Definition server_ends (a : agent) : agent :=
  mkAgent (ag_held a) (ag_loop a) (ag_handlers a) (ag_next a) (ag_accepting a) (Stopping remove_from_cms) (ag_signalled a) true (ag_log a).

(** A call ends when it returns, and when its time limit or its caller cancels it. *)
Inductive agent_step : agent -> agent -> Prop :=
  | loop_acts X (e : leff X) k x a : ag_loop a = Some (Do e k) -> answers e x (ag_held a) -> agent_step a (set_loop (Some (k x)) (acted WLoop e x a))
  | handler_acts n X (e : leff X) k x a : ag_handlers a !! n = Some (Do e k) -> answers e x (ag_held a) ->
      agent_step a (set_handlers (<[n := k x]> (ag_handlers a)) (acted (WHandler n) e x a))
  | main_acts X (e : leff X) k x a : ag_main a = Stopping (Do e k) -> answers e x (ag_held a) -> agent_step a (set_main (Stopping (k x)) (acted WMain e x a))
  | call_starts call a : ag_accepting a = true -> agent_step a (start_call (rpc_handler call) a)
  | call_ends n a : agent_step a (set_handlers (delete n (ag_handlers a)) a)
  | parent_gone a : ag_loop a = Some (Ret ParentGone) -> agent_step a (system_exit false a)
  | registration_failed a : ag_loop a = Some (Ret RegistrationFailed) -> ag_main a = Serving ->
      agent_step a (set_main (Stopping remove_from_cms) (set_loop None a))
  | registration_failed_late p a : ag_loop a = Some (Ret RegistrationFailed) -> ag_main a = Stopping p -> agent_step a (set_loop None a)
  | signalled a : ag_signalled a = false -> agent_step a (system_exit true a)
  | server_fails a : ag_main a = Serving -> agent_step a (server_ends a)
  | removed a : ag_main a = Stopping (Ret tt) -> agent_step a (set_main Closing (set_loop None a))
  | process_ends a : ag_main a = Closing -> agent_step a (set_main Stopped (set_handlers ∅ a)).

Definition agent_started (fuel : nat) : agent := mkAgent NotAMessage (Some (run_busy_loop fuel)) ∅ 0 true Serving false false [].

Definition events_of (w : who) (l : list (who * event leff)) : list (event leff) := (filter (fun we => we.1 = w) l).*2.

End llumlet.

(** ** What the coroutines may do *)

(** [fails]: failed attempts in a row. [fresh]: a status came in since the last report.
    [holding]: a status was held. [sent]: the statuses sent to the store, and its answers. *)
Record agent_view := mkAgentView { fails : Z; fresh : bool; holding : bool; sent : list (string * InstanceStatus * Z * bool) }.

Definition is_status_op {A} (op : engine_op A) : bool := match op with GetInstanceStatus => true | _ => false end.

Definition agent_observe (X : Type) (e : leff X) (x : X) (g : agent_view) : agent_view :=
  let '(mkAgentView f r h w) := g in
  match e in leff X return X -> agent_view with
  | LMark _ => fun _ => mkAgentView 0 r h w
  | LEngine op _ => fun x => match x with
                             | CallOk _ => mkAgentView 0 (is_status_op op || r) h w
                             | _ => mkAgentView (f + 1) r h w
                             end
  | LQueueGet _ => fun x => mkAgentView f (match x with Some _ => true | None => r end) h w
  | LSetStatus key s ex => fun x => mkAgentView f false h (w ++ [(key, s, ex, x)])
  | LHold _ => fun _ => mkAgentView f r true w
  | _ => fun _ => g
  end x.

Section run.
Context (c : LlumletConfig).

(** The status is a message of this instance. *)
Definition held_ok (s : held_status) : Prop := match s with NotAMessage => True | Message m => InstanceId m = lc_instance_id c end.

Definition marked (s : held_status) : Prop := match s with NotAMessage => True | Message m => InstanceId m = lc_instance_id c /\ Schedulable m = false end.

(** What each coroutine may do: only the loop writes the registration, and only the shutdown
    deletes. *)
Definition agent_permits (w : who) (X : Type) (e : leff X) (g : agent_view) : Prop :=
  match e with
  | LEngine _ _ => w <> WMain /\ fails g < 3
  | LSetMetadata key m ex => w = WLoop /\ key = metadata_key c /\ m = lc_metadata c /\ ex = expired_time c
  | LSetStatus key s ex => w <> WMain /\ key = status_key c /\ InstanceId s = lc_instance_id c /\ ex = expired_time c /\ (Schedulable s = true -> w = WLoop /\ fresh g = true)
  | LDelete key => w = WMain /\ (key = metadata_key c \/ key = status_key c)
  | LHold s => w = WLoop /\ InstanceId s = lc_instance_id c
  | LQueueGet _ | LParentAlive => w = WLoop
  | _ => True
  end.

Definition agent_expects (X : Type) (e : leff X) (x : X) : Prop :=
  match e in leff X return X -> Prop with LHeld => held_ok | LMark _ => marked | _ => fun _ => True end x.

Definition agent_monitor (w : who) : Monitor leff agent_view :=
  mkMonitor (agent_permits w) agent_expects agent_observe (fun _ => False) (fun _ => True).

Definition agent_start : agent_view := mkAgentView 0 false false [].

Section coroutine.
Context (w : who) (Hw : w <> WMain).

Abbreviation M := (agent_monitor w).

Lemma attempts_spec {A} (op : engine_op A) timeout n f r h l (Q : option A -> agent_view -> Prop) :
  f + Z.of_nat n = 3 ->
  (forall a, Q (Some a) (mkAgentView 0 (is_status_op op || r) h l)) -> Q None (mkAgentView 3 r h l) ->
  mwp M (attempts op timeout n) Q (mkAgentView f r h l).
Proof.
  intros Hf Hs Hn. revert f Hf. induction n as [|n IH]; intros f Hf; [cbn; by replace f with 3 by lia|]. cbn [attempts].
  assert (Hrest : mwp M (_ ← (if bool_decide (n = 0%nat) then Ret tt else perform (LSleep ENGINE_CLIENT_RETRY_INTERVAL)); attempts op timeout n) Q (mkAgentView (f + 1) r h l)).
  { apply mwp_bind. case_bool_decide; [apply IH; lia|]. apply mwp_perform; [done|]. intros [] _. apply IH. lia. }
  apply mwp_bind, mwp_perform; [split; [done|cbn; lia]|]. intros [a| |e] _; cbn [observe agent_monitor agent_observe]; [apply Hs|exact Hrest|exact Hrest].
Qed.

(** The view after a failure has been reported. *)
Definition reported (now : Z) (s : held_status) (r h : bool) l (g : agent_view) : Prop :=
  match s with
  | NotAMessage => g = mkAgentView 0 r h l
  | Message m => exists ok, g = mkAgentView 0 false h (l ++ [(status_key c, m, expired_time c, ok)])
  end.

Lemma unschedulable_spec f r h l (Q : unit -> agent_view -> Prop) :
  (forall now s g, marked s -> reported now s r h l g -> Q tt g) -> mwp M (send_unschedulable_status_to_cms c) Q (mkAgentView f r h l).
Proof.
  intros HQ. unfold send_unschedulable_status_to_cms. apply mwp_bind, mwp_perform; [done|]. intros now _. apply mwp_bind, mwp_perform; [done|]. intros s Hs.
  destruct s as [|m]; [by apply (HQ now NotAMessage)|]. destruct Hs as [Hid Hsch]. apply mwp_bind, mwp_perform; [split_and!; try done; by rewrite Hsch|].
  intros ok _. apply (HQ now (Message m)); [done|]. by exists ok.
Qed.

Lemma execute_spec {A} (op : engine_op A) timeout r h l (Q : option A -> agent_view -> Prop) :
  (forall a, Q (Some a) (mkAgentView 0 (is_status_op op || r) h l)) ->
  (forall now s g, marked s -> reported now s r h l g -> Q None g) ->
  mwp M (execute_with_timeout c op timeout) Q (mkAgentView 0 r h l).
Proof.
  intros Hok Hfail. unfold execute_with_timeout. apply mwp_bind, attempts_spec; [done|intros a; apply Hok|].
  apply mwp_bind, unschedulable_spec. exact Hfail.
Qed.

(** Between its calls of the engine a coroutine is ready for another, and has held a status or
    not as before. *)
Definition steady (h : bool) (g : agent_view) : Prop := fails g = 0 /\ holding g = h.

Lemma reported_steady now s r h l g : reported now s r h l g -> steady h g.
Proof. destruct s; cbn; [by intros ->|by intros [ok ->]]. Qed.

Lemma execute_steady {A} (op : engine_op A) timeout h g : steady h g -> mwp M (execute_with_timeout c op timeout) (fun _ g => steady h g) g.
Proof. destruct g as [f r h' l]. intros [Hf <-]. cbn in Hf. subst f. apply execute_spec; [done|]. intros now s g _ Hr. by eapply reported_steady. Qed.

Lemma migrate_out_times_spec n host port p a b h g : steady h g -> mwp M (migrate_out_times c n host port p a b) (fun _ g => steady h g) g.
Proof.
  revert a b g. induction n as [|n IH]; intros a b g Hg; [done|]. cbn [migrate_out_times]. apply mwp_bind.
  eapply mwp_mono; [by apply execute_steady|]. intros [res|] g' Hg'; by apply IH.
Qed.

Lemma handler_spec call h g : steady h g -> mwp M (rpc_handler c call) (fun _ g => steady h g) g.
Proof.
  intros Hg.
  assert (Hex : forall A B (op : engine_op A) timeout (f : option A -> B), mwp M (r ← execute_with_timeout c op timeout; Ret (f r)) (fun _ g => steady h g) g).
  { intros A B op timeout f. apply mwp_bind. eapply mwp_mono; [by apply execute_steady|done]. }
  destruct call as [host port p|ids|data format|ids|s]; cbn [rpc_handler].
  - apply mwp_bind. unfold migrate. apply mwp_bind, mwp_perform; [done|]. intros s _.
    assert (Hg' : steady h (observe M LHeld s g)) by (by destruct g).
    destruct (negb (enough_slots c p s)); [exact Hg'|]. destruct (negb (hybrid_vllm c) || drain p).
    + apply mwp_bind. eapply mwp_mono; [by apply migrate_out_times_spec|]. by intros [any success] g'.
    + apply mwp_bind. eapply mwp_mono; [by apply execute_steady|done].
  - apply mwp_bind. eapply mwp_mono; [apply Hex|done].
  - apply mwp_bind. eapply mwp_mono; [by apply execute_steady|done].
  - apply mwp_bind. eapply mwp_mono; [apply Hex|done].
  - apply mwp_perform; [done|]. intros [] _. by destruct g.
Qed.

End coroutine.

Lemma report_turn_spec g : fails g = 0 -> mwp (agent_monitor WLoop) (report_turn c) (fun _ g => fails g = 0) g.
Proof.
  destruct g as [f r h l]. intros Hf. cbn in Hf. subst f. unfold report_turn.
  assert (Heng : forall r, mwp (agent_monitor WLoop) (get_instance_status_from_engine c)
    (fun x g' => fails g' = 0 /\ match x with Some m => InstanceId m = lc_instance_id c /\ fresh g' = true | None => True end) (mkAgentView 0 r h l)).
  { intros r0. apply mwp_bind, execute_spec; [done| |].
    - intros a. apply mwp_bind, mwp_perform; [done|]. intros now _. done.
    - intros now s g _ Hr. split; [|done]. apply (reported_steady _ _ _ _ _ _ Hr). }
  apply mwp_bind. eapply mwp_mono with (Q := fun x g' => fails g' = 0 /\ match x with Some m => InstanceId m = lc_instance_id c /\ fresh g' = true | None => True end).
  - destruct (lc_push c); [|apply Heng]. apply mwp_bind, mwp_perform; [done|]. intros [m|] _; [|apply Heng].
    apply mwp_bind, mwp_perform; [done|]. intros now _. done.
  - intros [m|] g' [Hf' Hm]; [|done]. destruct Hm as [Hid Hfr]. destruct g' as [f' r' h' l']. cbn in Hf', Hfr. subst.
    apply mwp_bind, mwp_perform; [done|]. intros [] _. apply mwp_bind, mwp_perform; [by split_and!|]. done.
Qed.

Lemma busy_loop_spec fuel last g : fails g = 0 -> mwp (agent_monitor WLoop) (busy_loop c fuel last) (fun e _ => e = ParentGone) g.
Proof.
  revert last g. induction fuel as [|fuel IH]; intros last g Hg; [done|]. cbn [busy_loop].
  destruct g as [f r h l]. cbn in Hg. subst f.
  apply mwp_bind, mwp_perform; [done|]. intros start _. cbn [observe agent_monitor agent_observe]. apply mwp_bind.
  assert (Hrest : forall last, mwp (agent_monitor WLoop) (alive ← perform LParentAlive; if negb alive then Ret ParentGone else
      _ ← report_turn c; now ← perform LNow;
      _ ← (if bool_decide (now - start < status_push_interval c) then perform (LSleep (status_push_interval c - (now - start))) else Ret tt);
      busy_loop c fuel last) (fun e _ => e = ParentGone) (mkAgentView 0 r h l)).
  { intros last'. apply mwp_bind, mwp_perform; [done|]. intros alive _. destruct alive; cbn [negb]; [|done].
    apply mwp_bind. eapply mwp_mono; [by apply report_turn_spec|]. intros _ [f' r' h' l'] Hf'. cbn in Hf'. subst f'.
    apply mwp_bind, mwp_perform; [done|]. intros now _. apply mwp_bind. case_bool_decide; [apply mwp_perform; [done|]; intros [] _|]; by apply IH. }
  case_bool_decide; [|apply Hrest]. apply mwp_bind, mwp_perform; [by split_and!|]. intros ok _. apply Hrest.
Qed.

Lemma register_spec n g (Q : bool -> agent_view -> Prop) : (forall b, Q b g) -> mwp (agent_monitor WLoop) (register_with_cms c n) Q g.
Proof.
  intros HQ. induction n as [|n IH]; [apply HQ|]. cbn [register_with_cms]. apply mwp_bind, mwp_perform; [by split_and!|]. intros ok _.
  replace (observe (agent_monitor WLoop) (LSetMetadata (metadata_key c) (lc_metadata c) (expired_time c)) ok g) with g by by destruct g.
  destruct ok; [apply HQ|]. apply mwp_bind. case_bool_decide; [exact IH|]. apply mwp_perform; [done|]. intros [] _. by destruct g.
Qed.

Lemma agent_loop_spec fuel : mwp (agent_monitor WLoop) (run_busy_loop c fuel) (fun e g => e = RegistrationFailed -> holding g = false) agent_start.
Proof.
  apply mwp_bind, register_spec. intros [|]; [|done]. apply mwp_bind, mwp_perform; [done|]. intros now _.
  eapply mwp_mono; [by apply busy_loop_spec|]. by intros e g ->.
Qed.

(** As long as no status is held, a call has nothing to report. *)
Definition quiet_monitor : Monitor leff unit :=
  mkMonitor (fun X e _ => match e with LSetMetadata _ _ _ | LSetStatus _ _ _ => False | _ => True end)
    (fun X e => match e in leff X return X -> Prop with LHeld | LMark _ => fun x => x = NotAMessage | _ => fun _ => True end)
    (fun _ _ _ g => g) (fun _ => True) (fun _ => True).

Lemma quiet_attempts {A} (op : engine_op A) timeout n (Q : option A -> unit -> Prop) : (forall r, Q r tt) -> mwp quiet_monitor (attempts op timeout n) Q tt.
Proof.
  intros HQ. induction n as [|n IH]; [apply HQ|]. cbn [attempts]. apply mwp_bind, mwp_perform; [done|].
  assert (Hr : mwp quiet_monitor (_ ← (if bool_decide (n = 0%nat) then Ret tt else perform (LSleep ENGINE_CLIENT_RETRY_INTERVAL)); attempts op timeout n) Q tt).
  { apply mwp_bind. case_bool_decide; [exact IH|]. apply mwp_perform; [done|]. intros [] _. exact IH. }
  intros [a| |e] _; [apply HQ|exact Hr|exact Hr].
Qed.

Lemma quiet_execute {A} (op : engine_op A) timeout (Q : option A -> unit -> Prop) : (forall r, Q r tt) -> mwp quiet_monitor (execute_with_timeout c op timeout) Q tt.
Proof.
  intros HQ. apply mwp_bind, quiet_attempts. intros [a|]; [apply HQ|]. apply mwp_bind, mwp_bind, mwp_perform; [done|]. intros now _.
  apply mwp_bind, mwp_perform; [done|]. intros s ->. apply HQ.
Qed.

Lemma quiet_migrate_out n host port p a b (Q : bool * bool -> unit -> Prop) : (forall r, Q r tt) -> mwp quiet_monitor (migrate_out_times c n host port p a b) Q tt.
Proof. intros HQ. revert a b. induction n as [|n IH]; intros a b; [apply HQ|]. apply mwp_bind, quiet_execute. intros [res|]; apply IH. Qed.

Lemma quiet_handler call : mwp quiet_monitor (rpc_handler c call) (fun _ _ => True) tt.
Proof.
  destruct call as [host port p|ids|data format|ids|s]; cbn [rpc_handler].
  - apply mwp_bind, mwp_bind, mwp_perform; [done|]. intros s _. destruct (negb (enough_slots c p s)); [done|]. destruct (negb (hybrid_vllm c) || drain p).
    + apply mwp_bind, quiet_migrate_out. by intros [any success].
    + by apply mwp_bind, quiet_execute.
  - by apply mwp_bind, mwp_bind, quiet_execute.
  - by apply mwp_bind, quiet_execute.
  - by apply mwp_bind, mwp_bind, quiet_execute.
  - by apply mwp_perform.
Qed.

(** ** Every interleaving *)

Definition log_view (w : who) (a : agent) : agent_view := observed (agent_monitor w) (events_of w (ag_log a)) agent_start.

Definition removal_done (l : list (event leff)) : Prop :=
  l = [Ev (LDelete (metadata_key c)) false] \/ exists b, l = [Ev (LDelete (metadata_key c)) true; Ev (LDelete (status_key c)) b].

(** How far the removal is: it only deletes. *)
Definition removal_monitor : Monitor leff (list (event leff)) :=
  mkMonitor (fun X e _ => match e with LDelete key => key = metadata_key c \/ key = status_key c | _ => False end) (fun _ _ _ => True)
    (fun X e x l => l ++ [Ev e x]) (fun _ => False) (fun _ => False).

Definition removing (m : main_state) (l : list (event leff)) : Prop :=
  match m with
  | Serving => l = []
  | Stopping p => mwp removal_monitor p (fun _ l => removal_done l) l
  | Closing => removal_done l
  | Stopped => True
  end.

Lemma remove_spec : removing (Stopping (remove_from_cms c)) [].
Proof.
  apply mwp_bind, mwp_perform; [by left|]. intros [|] _; [|by left]. apply mwp_bind, mwp_perform; [by right|]. intros b _. right. by exists b.
Qed.

Definition is_write (we : who * event leff) : Prop :=
  match we.2 with Ev (LSetMetadata _ _ _) _ | Ev (LSetStatus _ _ _) _ => True | _ => False end.

Definition quiet (p : Prog leff unit) : Prop := mwp quiet_monitor p (fun _ _ => True) tt.
Definition all_quiet (a : agent) : Prop := ag_held a = NotAMessage /\ map_Forall (fun _ p => quiet p) (ag_handlers a).

(** What holds whoever acts. *)
Record base_inv (a : agent) : Prop := {
  ai_held : held_ok (ag_held a);
  ai_permitted : forall w, permitted (agent_monitor w) (events_of w (ag_log a)) agent_start;
  ai_new : forall n, (ag_next a <= n)%nat -> events_of (WHandler n) (ag_log a) = []
}.

Record agent_inv (a : agent) : Prop := {
  ai_base : base_inv a;
  ai_loop : forall p, ag_loop a = Some p -> mwp (agent_monitor WLoop) p (fun e g => e = RegistrationFailed -> holding g = false) (log_view WLoop a);
  ai_handlers : forall n p, ag_handlers a !! n = Some p -> (n < ag_next a)%nat /\ mwp (agent_monitor (WHandler n)) p (fun _ _ => True) (log_view (WHandler n) a);
  ai_unheld : holding (log_view WLoop a) = false -> all_quiet a;
  ai_main : removing (ag_main a) (events_of WMain (ag_log a));
  ai_stopping : ag_server_failed a = false -> ag_main a <> Serving -> ag_loop a = None /\ ((ag_handlers a = ∅ /\ ag_accepting a = false) \/ all_quiet a);
  ai_phases : ag_server_failed a = false -> exists l1 l2, ag_log a = l1 ++ l2 /\ events_of WMain l1 = [] /\ Forall (fun we => ~ is_write we) l2 /\ (ag_main a = Serving -> l2 = [])
}.

Lemma permitted_snoc w l X (e : leff X) x g :
  permitted (agent_monitor w) (l ++ [Ev e x]) g <-> permitted (agent_monitor w) l g /\ agent_permits w X e (observed (agent_monitor w) l g).
Proof. revert g. induction l as [|[Y e' y] l IH]; intros g; cbn; [tauto|]. rewrite IH. cbn. tauto. Qed.

Lemma events_snoc w w' l ev : events_of w (l ++ [(w', ev)]) = if bool_decide (w' = w) then events_of w l ++ [ev] else events_of w l.
Proof.
  unfold events_of. rewrite list.filter_app, fmap_app, filter_cons. cbn. case_bool_decide; [rewrite decide_True by done; done|rewrite decide_False by done; apply app_nil_r].
Qed.

Lemma view_acted w w' X (e : leff X) x a : log_view w (acted w' e x a) = if bool_decide (w' = w) then agent_observe X e x (log_view w a) else log_view w a.
Proof. unfold log_view. cbn [acted ag_log]. rewrite events_snoc. case_bool_decide; [|done]. unfold observed. by rewrite fold_left_app. Qed.

Lemma view_acted_own w X (e : leff X) x a : log_view w (acted w e x a) = agent_observe X e x (log_view w a).
Proof. by rewrite view_acted, bool_decide_true. Qed.

Lemma view_acted_other w w' X (e : leff X) x a : w' <> w -> log_view w (acted w' e x a) = log_view w a.
Proof. intros H. by rewrite view_acted, bool_decide_false. Qed.

Lemma answers_expected X (e : leff X) x s : held_ok s -> answers e x s -> agent_expects X e x.
Proof. destruct e; cbn; try done; intros Hs ->; [done|]. by destruct s. Qed.

Lemma acted_base w X (e : leff X) x a :
  base_inv a -> agent_permits w X e (log_view w a) -> (forall n, w = WHandler n -> (n < ag_next a)%nat) -> base_inv (acted w e x a).
Proof.
  intros [H1 H2 H3] Hp Hn. split.
  - destruct e; cbn; try done; [by destruct Hp|by destruct (ag_held a)].
  - intros w'. cbn [acted ag_log]. rewrite events_snoc. case_bool_decide; [subst w'; by apply permitted_snoc|apply H2].
  - intros n Hle. cbn [acted ag_log]. rewrite events_snoc, bool_decide_false; [by apply H3|]. intros ->. specialize (Hn n eq_refl). cbn in Hle. lia.
Qed.

Lemma unheld_after w X (e : leff X) s g : s = NotAMessage -> agent_permits w X e g -> w <> WLoop -> held_after e s = NotAMessage.
Proof. intros ->. destruct e; cbn; try done. by intros [-> _]. Qed.

Lemma quiet_step X (e : leff X) k x a : quiet (Do e k) -> ag_held a = NotAMessage -> answers e x (ag_held a) -> quiet (k x) /\ forall w, ~ is_write (w, Ev e x).
Proof.
  intros [Hp Hk] Ha Hx. rewrite Ha in Hx. split; [apply Hk; by destruct e|]. clear Hk. intros w. unfold is_write. cbn. destruct e; cbn in Hp; tauto.
Qed.

(** The log of the phases grows by what is not a write, or before the shutdown. *)
Lemma phases_grow (m m' : main_state) l we :
  (exists l1 l2, l = l1 ++ l2 /\ events_of WMain l1 = [] /\ Forall (fun we => ~ is_write we) l2 /\ (m = Serving -> l2 = [])) ->
  (m = Serving /\ we.1 <> WMain) \/ (~ is_write we /\ m' <> Serving) ->
  exists l1 l2, l ++ [we] = l1 ++ l2 /\ events_of WMain l1 = [] /\ Forall (fun we => ~ is_write we) l2 /\ (m' = Serving -> l2 = []).
Proof.
  intros (l1 & l2 & -> & H1 & H2 & H3) [[Hm Hw]|[Hw Hm]].
  - rewrite (H3 Hm), app_nil_r. exists (l1 ++ [we]), []. rewrite app_nil_r. split_and!; try done. destruct we as [w ev]. by rewrite events_snoc, bool_decide_false.
  - exists l1, (l2 ++ [we]). rewrite app_assoc. split_and!; try done. apply Forall_app. by rewrite Forall_singleton.
Qed.

Lemma loop_acts_inv X (e : leff X) k x a : agent_inv a -> ag_loop a = Some (Do e k) -> answers e x (ag_held a) -> agent_inv (set_loop (Some (k x)) (acted WLoop e x a)).
Proof.
  intros [H0 H1 H2 H3 H4 H5 H6] Hl Hx. destruct (H1 _ Hl) as [Hp Hk].
  assert (Hb : base_inv (acted WLoop e x a)) by (by apply acted_base).
  specialize (Hk x (answers_expected X e x _ (ai_held _ H0) Hx)).
  assert (Hst : ag_server_failed a = false -> ag_main a = Serving).
  { intros Hs. destruct (decide (ag_loop a = None)) as [E|E]; [congruence|]. destruct (ag_main a) eqn:Em; [done|..]; by destruct (H5 Hs) as [E2 _]. }
  split.
  - by destruct Hb.
  - intros p [= <-]. change (log_view WLoop (set_loop _ _)) with (log_view WLoop (acted WLoop e x a)). rewrite view_acted_own. exact Hk.
  - intros n p Hn. change (log_view (WHandler n) (set_loop _ _)) with (log_view (WHandler n) (acted WLoop e x a)). rewrite view_acted_other by done. by apply H2.
  - change (log_view WLoop (set_loop _ _)) with (log_view WLoop (acted WLoop e x a)). rewrite view_acted_own. intros Hh.
    assert (Hh' : holding (log_view WLoop a) = false) by (destruct (log_view WLoop a), e; cbn in *; try done; by destruct x).
    destruct (H3 Hh') as [Hn Hq]. split; [|exact Hq]. cbn. rewrite Hn. destruct e; try done. cbn in Hh. by destruct (log_view WLoop a).
  - cbn [set_loop set_handlers set_main acted ag_log ag_main]. rewrite events_snoc, bool_decide_false by done. exact H4.
  - intros Hs. cbn. by rewrite (Hst Hs).
  - intros Hs. eapply phases_grow; [by apply H6|]. left. by rewrite (Hst Hs).
Qed.

Lemma handler_acts_inv n X (e : leff X) k x a :
  agent_inv a -> ag_handlers a !! n = Some (Do e k) -> answers e x (ag_held a) -> agent_inv (set_handlers (<[n := k x]> (ag_handlers a)) (acted (WHandler n) e x a)).
Proof.
  intros [H0 H1 H2 H3 H4 H5 H6] Hl Hx. destruct (H2 _ _ Hl) as [Hlt [Hp Hk]].
  assert (Hb : base_inv (acted (WHandler n) e x a)) by (apply acted_base; [done..|by intros ? [= ->]]).
  specialize (Hk x (answers_expected X e x _ (ai_held _ H0) Hx)).
  assert (Hq : all_quiet a -> all_quiet (set_handlers (<[n := k x]> (ag_handlers a)) (acted (WHandler n) e x a)) /\ ~ is_write (WHandler n, Ev e x)).
  { intros [Hn Hq]. destruct (quiet_step X e k x a (Hq n _ Hl) Hn Hx) as [Hqk Hw]. split; [|apply Hw].
    split; [exact (unheld_after (WHandler n) X e _ _ Hn Hp ltac:(done))|]. by apply map_Forall_insert_2. }
  split.
  - by destruct Hb.
  - intros p Hlp. change (log_view WLoop (set_handlers _ _)) with (log_view WLoop (acted (WHandler n) e x a)). rewrite view_acted_other by done. by apply H1.
  - intros m p Hm. change (log_view (WHandler m) (set_handlers _ _)) with (log_view (WHandler m) (acted (WHandler n) e x a)).
    cbn in Hm. apply lookup_insert_Some in Hm as [[-> <-]|[Hne Hm]]; [rewrite view_acted_own; by split|]. rewrite view_acted_other by congruence. by apply H2.
  - change (log_view WLoop (set_handlers _ _)) with (log_view WLoop (acted (WHandler n) e x a)). rewrite view_acted_other by done. intros Hh. by apply Hq, H3.
  - cbn [set_loop set_handlers set_main acted ag_log ag_main]. rewrite events_snoc, bool_decide_false by done. exact H4.
  - intros Hs Hm. destruct (H5 Hs Hm) as [E [[E1 E2]|E1]]; [rewrite E1 in Hl; by rewrite lookup_empty in Hl|]. split; [exact E|]. right. by apply Hq.
  - intros Hs. eapply phases_grow; [by apply H6|]. destruct (ag_main a) eqn:Em; [by left|..]; right; (split; [|by cbn; rewrite Em]);
      (destruct (H5 Hs) as [_ [[E1 _]|E1]]; [done|rewrite E1 in Hl; by rewrite lookup_empty in Hl|by apply Hq]).
Qed.

Lemma main_acts_inv X (e : leff X) k x a :
  agent_inv a -> ag_main a = Stopping (Do e k) -> answers e x (ag_held a) -> agent_inv (set_main (Stopping (k x)) (acted WMain e x a)).
Proof.
  intros [H0 H1 H2 H3 H4 H5 H6] Hm Hx. rewrite Hm in H4. destruct H4 as [Hp Hk]. specialize (Hk x I).
  assert (He : agent_permits WMain X e (log_view WMain a) /\ held_after e (ag_held a) = ag_held a /\ ~ is_write (WMain, Ev e x)) by (clear Hk; destruct e; cbn in Hp |- *; tauto).
  destruct He as (Hpm & Hh & Hw).
  assert (Hb : base_inv (acted WMain e x a)) by (by apply acted_base).
  assert (Hq : all_quiet a -> all_quiet (set_main (Stopping (k x)) (acted WMain e x a))) by (intros [E1 E2]; split; [cbn; by rewrite Hh|exact E2]).
  split.
  - by destruct Hb.
  - intros p Hl. change (log_view WLoop (set_main _ _)) with (log_view WLoop (acted WMain e x a)). rewrite view_acted_other by done. by apply H1.
  - intros n p Hn. change (log_view (WHandler n) (set_main _ _)) with (log_view (WHandler n) (acted WMain e x a)). rewrite view_acted_other by done. by apply H2.
  - change (log_view WLoop (set_main _ _)) with (log_view WLoop (acted WMain e x a)). rewrite view_acted_other by done. intros E. by apply Hq, H3.
  - cbn [set_loop set_handlers set_main acted ag_log ag_main]. rewrite events_snoc, bool_decide_true by done. exact Hk.
  - intros Hs _. destruct (H5 Hs) as [E1 E2]; [by rewrite Hm|]. split; [exact E1|]. destruct E2 as [E2|E2]; [by left|right; by apply Hq].
  - intros Hs. eapply phases_grow; [by apply H6|]. right. by split.
Qed.

(** The steps that add nothing to the log: what they may change. *)
Lemma quiet_step_inv a a' :
  agent_inv a -> ag_log a' = ag_log a -> ag_held a' = ag_held a -> (ag_next a <= ag_next a')%nat ->
  (forall p, ag_loop a' = Some p -> ag_loop a = Some p) ->
  (forall n p, ag_handlers a' !! n = Some p -> ag_handlers a !! n = Some p \/ (n = ag_next a /\ (n < ag_next a')%nat /\ ag_accepting a = true /\ exists call, p = rpc_handler c call)) ->
  removing (ag_main a') (events_of WMain (ag_log a)) ->
  (ag_server_failed a' = false -> ag_server_failed a = false) ->
  (ag_main a' = Serving -> ag_main a = Serving) ->
  (ag_server_failed a' = false -> ag_main a' <> Serving -> ag_loop a' = None /\ ((ag_handlers a' = ∅ /\ ag_accepting a' = false) \/ all_quiet a)) ->
  agent_inv a'.
Proof.
  intros [[B1 B2 B3] H1 H2 H3 H4 H5 H6] El Eh En Hl Hh Hm Hf Hsv Hst.
  assert (Hv : forall w, log_view w a' = log_view w a) by (intros w; unfold log_view; by rewrite El).
  assert (Hq : all_quiet a -> all_quiet a').
  { intros [Q1 Q2]. split; [by rewrite Eh|]. intros n p Hn. destruct (Hh n p Hn) as [Hn'|(_ & _ & _ & call & ->)]; [by eapply Q2|apply quiet_handler]. }
  split.
  - split; [by rewrite Eh|intros w; rewrite El; apply B2|intros n Hn; rewrite El; apply B3; lia].
  - intros p Hp. rewrite Hv. by apply H1, Hl.
  - intros n p Hn. rewrite Hv. destruct (Hh n p Hn) as [Hn'|(-> & Hlt & _ & call & ->)]; [destruct (H2 n p Hn'); split; [lia|done]|].
    split; [done|]. eapply mwp_mono; [apply (handler_spec (WHandler (ag_next a)) ltac:(done) call false)|done]. unfold log_view. rewrite (B3 (ag_next a)) by lia. by split.
  - rewrite Hv. intros E. by apply Hq, H3.
  - by rewrite El.
  - intros Hs Hsm. destruct (Hst Hs Hsm) as [E1 [E2|E2]]; (split; [done|]); [by left|right; by apply Hq].
  - intros Hs. rewrite El. destruct (H6 (Hf Hs)) as (l1 & l2 & E1 & E2 & E3 & E4). exists l1, l2. split_and!; try done. intros E. by apply E4, Hsv.
Qed.

Lemma agent_inv_step a a' : agent_inv a -> agent_step c a a' -> agent_inv a'.
Proof.
  intros Ha Hs. pose proof (ai_main a Ha) as Hm. pose proof (ai_stopping a Ha) as Hst.
  destruct Hs as [X e k x a Hl Hx|n X e k x a Hl Hx|X e k x a Hl Hx|call a Hacc|n a|a Hl|a Hl Hsv|p a Hl Hsv|a Hsig|a Hsv|a Hsv|a Hsv].
  - by apply loop_acts_inv.
  - by apply handler_acts_inv.
  - by apply main_acts_inv.
  - apply (quiet_step_inv a); cbn; try done; [lia| |].
    + intros n p [[<- <-]|[_ Hn]]%lookup_insert_Some; [right|by left]. split_and!; [done|lia|done|by exists call].
    + intros Hs Hsm. destruct (Hst Hs Hsm) as [E1 [[_ E2]|E2]]; [congruence|]. split; [done|by right].
  - apply (quiet_step_inv a); cbn; try done.
    + intros m p [_ Hm']%lookup_delete_Some. by left.
    + intros Hs Hsm. destruct (Hst Hs Hsm) as [E1 [[E2 E3]|E2]]; (split; [done|]); [left; by rewrite E2, delete_empty|by right].
  - apply (quiet_step_inv a); cbn; try done; [destruct (ag_main a); cbn; [rewrite Hm; apply remove_spec|done..]|by destruct (ag_main a)|]. intros _ _. split; [done|by left].
  - apply (quiet_step_inv a); cbn; try done; [by left|rewrite Hsv in Hm; rewrite Hm; apply remove_spec|]. intros _ _. split; [done|]. right. apply (ai_unheld a Ha). by apply (ai_loop a Ha _ Hl).
  - apply (quiet_step_inv a); cbn; try done; [by left|]. intros Hs Hsm. destruct (Hst Hs Hsm) as [E1 E2]. congruence.
  - apply (quiet_step_inv a); cbn; try done; [destruct (ag_main a); cbn; [rewrite Hm; apply remove_spec|done..]|by destruct (ag_main a)|]. intros _ _. split; [done|by left].
  - apply (quiet_step_inv a); cbn; try done; [by left|]. rewrite Hsv in Hm. rewrite Hm. apply remove_spec.
  - apply (quiet_step_inv a); cbn; try done; [by left|by rewrite Hsv in Hm|]. intros Hs _. destruct (Hst Hs) as [E1 E2]; [by rewrite Hsv|]. by split.
  - apply (quiet_step_inv a); cbn; try done. intros Hs _. destruct (Hst Hs) as [E1 E2]; [by rewrite Hsv|]. split; [done|]. destruct E2 as [[_ E2]|E2]; [by left|by right].
Qed.

Lemma agent_inv_start fuel : agent_inv (agent_started c fuel).
Proof.
  split.
  - by split.
  - intros p [= <-]. apply agent_loop_spec.
  - intros n p. cbn. by rewrite lookup_empty.
  - intros _. split; [done|]. apply map_Forall_empty.
  - done.
  - done.
  - intros _. by exists [], [].
Qed.

(** C18. In every interleaving of the agent's reporting loop, of the calls of its RPC server and
    of its shutdown, whatever the engine, the queue and the store answer: each coroutine writes
    only under the keys of its instance and with the configured time to live; a status that says
    the instance may be scheduled is written only by the loop, after a status came in from the
    engine since its last report; one call asks the engine at most three times before the instance
    is marked; unless the RPC server has failed, nothing is written once the removal has begun; and
    a removal that comes to its end has deleted the registration and, if the store took that,
    the status. *)
Theorem agent_reports_safely fuel a : rtc (agent_step c) (agent_started c fuel) a ->
  (forall w, permitted (agent_monitor w) (events_of w (ag_log a)) agent_start) /\
  (ag_server_failed a = false -> exists l1 l2, ag_log a = l1 ++ l2 /\ events_of WMain l1 = [] /\ Forall (fun we => ~ is_write we) l2 /\ (ag_main a = Serving -> l2 = [])) /\
  (ag_main a = Closing -> removal_done (events_of WMain (ag_log a))).
Proof.
  intros H. assert (Hi : agent_inv a).
  { eapply (rtc_ind_r agent_inv); [apply agent_inv_start|intros ? ? _ Hst Hi; by eapply agent_inv_step|exact H]. }
  split; [apply (ai_base a Hi)|]. split; [apply (ai_phases a Hi)|]. intros E. pose proof (ai_main a Hi) as Hm. by rewrite E in Hm.
Qed.

Lemma trace_bind_done {A B} (p : Prog leff A) (f : A -> Prog leff B) l b : trace (p ≫= f) l (Done b) ->
  exists l1 l2 x, l = l1 ++ l2 /\ trace p l1 (Done x) /\ trace (f x) l2 (Done b).
Proof.
  change (p ≫= f) with (prog_bind f p). revert l. induction p as [x| | |X e k IH]; intros l Ht; cbn in Ht.
  - exists [], l, x. split; [done|]. split; [constructor|done].
  - by apply trace_inv in Ht as [_ ?].
  - by apply trace_inv in Ht as [_ ?].
  - apply trace_inv in Ht as (y & l' & -> & Ht). destruct (IH y l' Ht) as (l1 & l2 & x & -> & H1 & H2).
    exists (Ev e y :: l1), l2, x. split; [done|]. split; [by constructor|done].
Qed.

Lemma attempts_send_nothing {A} (op : engine_op A) timeout n l r g :
  trace (attempts op timeout n) l (Done r) -> sent (observed (agent_monitor WLoop) l g) = sent g.
Proof.
  revert l g. induction n as [|n IH]; intros l g Ht; [by apply trace_inv in Ht as [-> _]|]. cbn [attempts] in Ht. apply trace_inv in Ht as (x & l' & -> & Ht). change (observed _ (?e :: ?l) g) with (observed (agent_monitor WLoop) l (observe (agent_monitor WLoop) (LEngine op timeout) x g)).
  transitivity (sent (observe (agent_monitor WLoop) (LEngine op timeout) x g)); [|destruct g; by destruct x].
  change (trace (match x with CallOk a => Ret (Some a) | _ => _ ← (if bool_decide (n = 0%nat) then Ret tt else perform (LSleep ENGINE_CLIENT_RETRY_INTERVAL)); attempts op timeout n end) l' (Done r)) in Ht.
  destruct x as [y| |e]; [by apply trace_inv in Ht as [-> _]|..]; apply trace_bind_done in Ht as (l1 & l2 & [] & -> & H1 & H2);
    (case_bool_decide; [apply trace_inv in H1 as [-> _]; by apply IH|]; apply trace_inv in H1 as ([] & l3 & -> & H1); apply trace_inv in H1 as [-> _]; cbn [app];
     etransitivity; [exact (IH l2 _ H2)|]; by destruct g).
Qed.

(** The calls of a failure that is reported. *)
Lemma failed_trace {A} (op : engine_op A) timeout l : trace (execute_with_timeout c op timeout) l (Done None) ->
  exists l1 now x l2, l = l1 ++ Ev LNow now :: Ev (LMark now) x :: l2 /\ trace (report_status_to_cms c x) l2 (Done tt) /\
    sent (observed (agent_monitor WLoop) l1 agent_start) = [].
Proof.
  intros (l1 & l' & [a|] & -> & H1 & H2)%trace_bind_done; [by apply trace_inv in H2 as [_ ?]|].
  apply trace_bind_done in H2 as (l2 & l3 & [] & -> & H2 & H3). apply trace_inv in H3 as [-> _]. rewrite app_nil_r.
  unfold send_unschedulable_status_to_cms in H2. apply trace_inv in H2 as (now & l4 & -> & H2). apply trace_inv in H2 as (x & l5 & -> & H2).
  exists l1, now, x, l5. split; [done|]. split; [exact H2|]. exact (attempts_send_nothing op timeout _ l1 None agent_start H1).
Qed.

Definition answered (held : held_status) (ev : event leff) : Prop := match ev with Ev e x => answers e x held end.

(** C20. When a call of the engine fails for good while the agent holds the status [m], the agent
    sends exactly one status to the store: [m] with the instance marked as not schedulable and with
    the time of the failure. Before its first status it sends nothing. Once the store has taken the
    status and the scheduler reads it, the scheduler holds the instance for not schedulable. *)
Theorem engine_failure_reaches_scheduler `{PC : ProtoCodec} {A} (op : engine_op A) timeout held l :
  trace (execute_with_timeout c op timeout) l (Done None) ->
  Forall (answered held) l ->
  match held with
  | NotAMessage => sent (observed (agent_monitor WLoop) l agent_start) = []
  | Message m => exists now ok,
      sent (observed (agent_monitor WLoop) l agent_start) = [(status_key c, set_unschedulable now m, expired_time c, ok)] /\
      forall order clock cl bytes md v st,
        fst (unmarshalStatus bytes) = set_unschedulable now m ->
        instanceMetadatas cl !! lc_instance_id c = Some md -> instanceViews cl !! lc_instance_id c = Some v -> instanceStatuses cl !! lc_instance_id c = Some st ->
        TimestampMs st < now ->
        exists cl' st', update_status order clock cl (lc_instance_id c, Some bytes) = (cl', false) /\
          instanceStatuses cl' !! lc_instance_id c = Some st' /\ Schedulable st' = false /\ TimestampMs st' = now
  end.
Proof.
  intros (l1 & now & x & l2 & -> & Ht & Hs)%failed_trace Hx. apply Forall_app in Hx as [_ [_ [Hx _]%Forall_cons_iff]%Forall_cons_iff]. cbn in Hx. unfold observed in *. rewrite fold_left_app. cbn [fold_left].
  destruct (fold_left _ l1 agent_start) as [f r h w]. cbn in Hs. subst x w. destruct held as [|m]; cbn [mark_unschedulable report_status_to_cms] in Ht.
  { apply trace_inv in Ht as [-> _]. done. }
  apply trace_inv in Ht as (ok & l3 & -> & Ht). apply trace_inv in Ht as [-> _]. exists now, ok. split; [done|].
  intros order clock cl bytes md v st Hb H1 H2 H3 H4.
  destruct (status_report_exact order clock cl (lc_instance_id c) bytes md v st H1 H2 H3) as (cl' & Hu & _ & Hnew & _). rewrite Hb in Hnew.
  destruct (Hnew H4) as (st' & Hst & Hts & Hsch & _). exists cl', st'. by split_and!.
Qed.

End run.

(** ** An engine that does not answer

    Times pass as the timeouts say; the writes of the metadata are recorded with the time. The
    agent holds [held]. *)
Definition hung_engine (held : held_status) (X : Type) (e : leff X) (s : Z * list Z) : X * (Z * list Z) :=
  let '(now, log) := s in
  match e in leff X return X * (Z * list Z) with
  | LNow => (now, s)
  | LSleep ms => (tt, (now + ms, log))
  | LEngine _ timeout => (CallTimeout, (now + timeout, log))
  | LSetMetadata _ _ _ => (true, (now, log ++ [now]))
  | LSetStatus _ _ _ => (true, s)
  | LDelete _ => (true, s)
  | LQueueGet timeout => (None, (now + timeout, log))
  | LQueuePut _ => (tt, s)
  | LParentAlive => (true, s)
  | LHeld => (held, s)
  | LHold _ => (tt, s)
  | LMark now => (mark_unschedulable now held, s)
  end.

(** The defaults of [envs.py]. *)
Definition default_llumlet : LlumletConfig :=
  mkLlumletConfig "i" zero_Metadata 40 20000 100 true true false 1 1 100000 100000 f_zero f_zero true 30000 5000 5000 5000.

(** With the default settings, an engine that hangs keeps the agent from renewing its registration
    for longer than the registration lives in the store. *)
Theorem hung_engine_lapses_registration :
  let times := (run (hung_engine NotAMessage) (run_busy_loop default_llumlet 2) (0, [])).2.2 in
  times = [0; 124000] /\ expired_time default_llumlet * 1000 < 124000.
Proof. vm_compute. done. Qed.

Definition example_message : InstanceStatus := complete_instance_status default_llumlet 7 (to_cms_status (mkPyStatus "" true None [] [] ∅ ∅)).

(** The agent registers, takes a status from the queue and reports it; a signal comes while a
    call is under way, and the instance is taken out of the store. *)
Lemma agent_reports_safely_witness : exists a, rtc (agent_step default_llumlet) (agent_started default_llumlet 1) a /\
  length (ag_log a) = 11%nat /\ removal_done default_llumlet (events_of WMain (ag_log a)) /\
  permitted (agent_monitor default_llumlet WLoop) (events_of WLoop (ag_log a)) agent_start.
Proof.
  assert (Hr : exists a, rtc (agent_step default_llumlet) (agent_started default_llumlet 1) a /\ length (ag_log a) = 11%nat /\ ag_main a = Closing).
  { eexists. split.
    { eapply rtc_l; [eapply (loop_acts _ _ _ _ true); [reflexivity|exact I]|].
    eapply rtc_l; [eapply (loop_acts _ _ _ _ 0); [reflexivity|exact I]|].
    eapply rtc_l; [eapply (loop_acts _ _ _ _ 0); [reflexivity|exact I]|].
    eapply rtc_l; [eapply (loop_acts _ _ _ _ true); [reflexivity|exact I]|].
    eapply rtc_l; [eapply (call_starts _ (CallAbort ["r"])); reflexivity|].
    eapply rtc_l; [eapply (loop_acts _ _ _ _ (Some example_message)); [reflexivity|exact I]|].
    eapply rtc_l; [eapply (handler_acts _ 0 _ _ _ CallTimeout); [reflexivity|exact I]|].
    eapply rtc_l; [eapply (loop_acts _ _ _ _ 7); [reflexivity|exact I]|].
    eapply rtc_l; [eapply (loop_acts _ _ _ _ tt); [reflexivity|exact I]|].
    eapply rtc_l; [eapply (loop_acts _ _ _ _ true); [reflexivity|exact I]|].
    eapply rtc_l; [eapply signalled; reflexivity|].
    eapply rtc_l; [eapply (main_acts _ _ _ _ true); [reflexivity|exact I]|].
    eapply rtc_l; [eapply (main_acts _ _ _ _ true); [reflexivity|exact I]|].
    eapply rtc_l; [eapply removed; reflexivity|]. apply rtc_refl. }
    split; reflexivity. }
  destruct Hr as (a & Hr & Hl & Hm). exists a. split; [exact Hr|]. split; [exact Hl|].
  destruct (agent_reports_safely default_llumlet 1 a Hr) as (H1 & _ & H3). split; [exact (H3 Hm)|apply H1].
Defined.

Lemma hung_answers held {A} (p : Prog leff A) s : Forall (answered held) (run_log (hung_engine held) p s).
Proof.
  revert s. induction p as [a| | |X e k IH]; intros s; cbn [run_log]; try constructor. destruct (hung_engine held X e s) as [x s'] eqn:E.
  apply Forall_cons_2; [|apply IH]. destruct s as [now log]. destruct e; cbn in *; try done; by injection E as <- _.
Qed.

Definition example_failure := execute_with_timeout default_llumlet (EngineAbort ["r"]) 5000.

(** The scheduler's side: the codec reads "down" as the agent's last status, and the client has
    seen the instance once before. *)
Definition failed_status : InstanceStatus := set_unschedulable 19000 example_message.
Definition failure_codec : ProtoCodec := {|
  unmarshalMetadata := unmarshalMetadata (ProtoCodec := demo_codec);
  unmarshalStatus b := if String.eqb b "down" then (failed_status, true) else unmarshalStatus (ProtoCodec := demo_codec) b
|}.
Definition scheduler_before : CMSReadClient :=
  fst (refreshInstanceStatus (PC := failure_codec) (H := demo_solver) elements (fun _ => 0) (Some [Some "x"])
    (refreshInstanceMetadata (PC := failure_codec) elements (Some ["llumnix:instance_metadata:i"]) (Some [Some "i"]) (NewCMSReadClient demo_options true 10 3))).

Lemma engine_failure_reaches_scheduler_witness :
  sent (observed (agent_monitor default_llumlet WLoop) (run_log (hung_engine (Message example_message)) example_failure (0, [])) agent_start) =
    [("llumnix:instance_status:i", failed_status, 100, true)] /\
  exists cl' st', update_status (PC := failure_codec) elements (fun _ => 0) scheduler_before ("i", Some "down") = (cl', false) /\
    instanceStatuses cl' !! "i" = Some st' /\ Schedulable st' = false.
Proof.
  destruct (engine_failure_reaches_scheduler (PC := failure_codec) default_llumlet (EngineAbort ["r"]) 5000 (Message example_message)
    (run_log (hung_engine (Message example_message)) example_failure (0, []))) as (now & ok & Hs & Hr).
  { apply run_trace_done. vm_compute. reflexivity. }
  { apply hung_answers. }
  assert (E : sent (observed (agent_monitor default_llumlet WLoop) (run_log (hung_engine (Message example_message)) example_failure (0, [])) agent_start) =
    [("llumnix:instance_status:i", failed_status, 100, true)]) by (vm_compute; reflexivity).
  split; [exact E|]. rewrite E in Hs. injection Hs as <- _.
  edestruct (Hr elements (fun _ => 0) scheduler_before "down") as (cl' & st' & Hu & Hst & Hsch & _); [vm_compute; reflexivity..|].
  exists cl', st'. split; [exact Hu|]. split; [exact Hst|exact Hsch].
Defined.
