(* ===== verification/RpcServer.v ===== *)
(** * The gRPC server of the agent

    [AsyncServicer] of [python/llumnix/llumnix/rpc_server.py] and [RpcHandler] of [llumlet.py]:
    the calls of the scheduler, of other instances and of the engine, how each is handed to the
    agent under the server's time limit, and what is answered. *)

From stdpp Require Import base gmap sets list strings numbers.
From S2P Require Import Prelude GoStrings GoFloat Types Programs CmsTypes Metrics Selectors Rescheduling MigrationFrontend Llumlet.

Local Open Scope Z_scope.

(** What [asyncio.wait_for] makes of a call of the agent. *)
Inductive handled (A : Type) := Returned (a : A) | TimedOut | Raised.
Arguments Returned {A} a.
Arguments TimedOut {A}.
Arguments Raised {A}.

Inductive rpc_eff : Type -> Type :=
  | AgentMigrate (host : string) (port : Z) (p : MigrationParams) : rpc_eff (handled migrate_answer)
  | AgentAbort (ids : list string) : rpc_eff (handled unit)
  | AgentMigrateIn (data format : string) : rpc_eff (handled bool)
  | AgentPushStatus (s : InstanceStatus) : rpc_eff (handled unit).

Inductive StatusCode := OK | INVALID_ARGUMENT | DEADLINE_EXCEEDED | RESOURCE_EXHAUSTED | INTERNAL | UNKNOWN.

Record rpc_answer := mkRpcAnswer { code : StatusCode; success : bool }.

(** The port is an integer of the message, so its conversion does not fail. *)
Definition Migrate (request : MigrateRequest) : Prog rpc_eff rpc_answer :=
  match generate_migration_params request with
  | None => Ret (mkRpcAnswer INVALID_ARGUMENT false)
  | Some mig_params =>
      res ← perform (AgentMigrate (DstEngineIp request) (DstEnginePort request) mig_params);
      Ret match res with
          | Returned (Migrated any) => mkRpcAnswer OK any
          | Returned NotEnoughSlots => mkRpcAnswer RESOURCE_EXHAUSTED false
          | Returned MigrateFailed => mkRpcAnswer INTERNAL false
          | TimedOut => mkRpcAnswer DEADLINE_EXCEEDED false
          | Raised => mkRpcAnswer INTERNAL false
          end
  end.

Definition answer_of (res : handled bool) : rpc_answer :=
  match res with
  | Returned b => mkRpcAnswer OK b
  | TimedOut => mkRpcAnswer DEADLINE_EXCEEDED false
  | Raised => mkRpcAnswer INTERNAL false
  end.

Definition done_of (res : handled unit) : handled bool :=
  match res with Returned _ => Returned true | TimedOut => TimedOut | Raised => Raised end.

Definition Abort (request_ids : list string) : Prog rpc_eff rpc_answer :=
  res ← perform (AgentAbort request_ids); Ret (answer_of (done_of res)).

(** [RpcHandler.migrate_in] returns nothing, whatever the agent returns. *)
Definition handler_migrate_in (res : handled bool) : handled bool :=
  match res with Returned _ => Returned false | res => res end.

Definition MigrateIn (serialized_migrate_req serialization_format : string) : Prog rpc_eff rpc_answer :=
  res ← perform (AgentMigrateIn serialized_migrate_req serialization_format); Ret (answer_of (handler_migrate_in res)).

(** Messages have no method [has_field], and nothing catches the exception. *)
Definition AbortMigrateIn (request_ids : list string) : Prog rpc_eff rpc_answer := Ret (mkRpcAnswer UNKNOWN false).

(** [PushInstanceStatus] is under no time limit. *)
Definition PushInstanceStatus (s : InstanceStatus) : Prog rpc_eff rpc_answer :=
  res ← perform (AgentPushStatus s);
  Ret (match res with Returned _ => mkRpcAnswer OK true | _ => mkRpcAnswer INTERNAL false end).

(** A migration that the scheduler asks for reaches the agent of the source once, with the
    destination's address and with the rule, the order and the value of the scheduler's pair;
    the answer is a success exactly when the agent migrated a request, and without an error
    exactly when the agent carried the migration out. *)
Theorem scheduler_migration_served pair dst r l a :
  migrate_request pair dst = Some r -> trace (Migrate r) l (Done a) ->
  exists p x, l = [Ev (AgentMigrate (md_IpKvs dst) (md_KvtPort dst) p) x] /\
    mig_req_policy p = reqSelectOrder pair /\ same_value (MigrationValue r) p /\
    (success a = true <-> x = Returned (Migrated true)) /\ (code a = OK <-> exists any, x = Returned (Migrated any)).
Proof.
  intros Hr Ht. destruct (scheduler_requests_understood pair dst r Hr) as (p & Hp & Hpol & Hv). unfold Migrate in Ht. rewrite Hp in Ht.
  assert (Hdst : DstEngineIp r = md_IpKvs dst /\ DstEnginePort r = md_KvtPort dst).
  { unfold migrate_request in Hr. destruct (if decide _ then _ else _) as [v|]; [|done]. by injection Hr as <-. }
  destruct Hdst as [E1 E2]. rewrite E1, E2 in Ht. apply trace_inv in Ht as (x & l' & -> & Ht). apply trace_inv in Ht as [-> [= ->]].
  exists p, x. split; [done|]. split; [done|]. split; [done|].
  destruct x as [[[]| |]| |]; cbn; split; split; intros H; try done; try (by eexists); destruct H; congruence.
Qed.

(** No answer to [MigrateIn] says success. *)
Theorem migrate_in_never_succeeds data format l a : trace (MigrateIn data format) l (Done a) -> success a = false.
Proof. intros Ht. unfold MigrateIn in Ht. apply trace_inv in Ht as (x & l' & -> & Ht). apply trace_inv in Ht as [-> [= ->]]. by destruct x. Qed.
