(* ===== verification/Outputs.v ===== *)
(** * The way of the outputs from the engine to the API server

    [python/llumnix/llumnix/outputs] and [entrypoints]: [thread_output_forwarder.py] sorts the
    outputs of an engine step by the API server that waits for them, [base_output_forwarder.py]
    and [zmq_client.py] send them, [zmq_server.py] queues them, and [client.py] with
    [base_client.py] hands them to the API server in order. What vLLM, ZeroMQ and gRPC answer
    are arguments. *)

From stdpp Require Import base gmap sets list strings numbers relations.
From S2P Require Import Prelude GoStrings.

Local Open Scope Z_scope.

(** [EngineCoreOutput], as far as the code reads it; [num_output_tokens] is the entry of the
    transfer parameters, with which the output says up to which token of the request it goes. *)
Record CoreOutput := mkCoreOutput {
  co_request_id : string;
  new_token_ids : list Z;
  co_finished : bool;
  num_output_tokens : option Z;
  queue_server_address : option string
}.

Record CoreOutputs := mkCoreOutputs {
  engine_index : Z;
  core_outputs : list CoreOutput;
  finished_requests : option (list string);
  scheduler_stats : option string
}.

(** [request_output.py]. *)
Record LlumnixRequestOutputs := mkLlumnixOutputs {
  lo_instance_id : string;
  lo_llumlet_address : string;
  engine_outputs : CoreOutputs
}.

(** ** thread_output_forwarder.py

    A Python dictionary keeps the order of insertion. *)

Definition server := option string.
Definition bundles := list (server * LlumnixRequestOutputs).

Fixpoint dict_get (d : bundles) (k : server) : option LlumnixRequestOutputs :=
  match d with
  | [] => None
  | (k', v) :: d => if bool_decide (k' = k) then Some v else dict_get d k
  end.

Fixpoint dict_set (d : bundles) (k : server) (v : LlumnixRequestOutputs) : bundles :=
  match d with
  | [] => [(k, v)]
  | (k', v') :: d => if bool_decide (k' = k) then (k, v) :: d else (k', v') :: dict_set d k v
  end.

Definition append_output (o : CoreOutput) (b : LlumnixRequestOutputs) : LlumnixRequestOutputs :=
  let c := engine_outputs b in
  mkLlumnixOutputs (lo_instance_id b) (lo_llumlet_address b)
    (mkCoreOutputs (engine_index c) (core_outputs c ++ [o]) (finished_requests c) (scheduler_stats c)).

Section forwarder.
(** The forwarder's own data; [default_index] is the engine index of a new [EngineCoreOutputs]. *)
Context (instance_id llumlet_address : string) (index default_index : Z).

(** [multi_clients_for_engine_index]: the loop that compares the addresses. *)
Fixpoint multi_clients (previous : server) (outputs : list CoreOutput) : bool :=
  match outputs with
  | [] => false
  | o :: outputs =>
      match previous with
      | None => multi_clients (queue_server_address o) outputs
      | Some a => if bool_decide (queue_server_address o = Some a) then multi_clients previous outputs else true
      end
  end.

Definition bundle (c : CoreOutputs) : LlumnixRequestOutputs := mkLlumnixOutputs instance_id llumlet_address c.

Definition add_output (group : CoreOutputs) (d : bundles) (o : CoreOutput) : bundles :=
  let base := bundle (mkCoreOutputs default_index [] (finished_requests group) (scheduler_stats group)) in
  dict_set d (queue_server_address o) (append_output o (default base (dict_get d (queue_server_address o)))).

(** The body of the loop of [_put_nowait_to_servers] for the outputs of one client index. *)
Definition add_group (d : bundles) (group : CoreOutputs) : bundles :=
  match core_outputs group with
  | [] => d
  | first :: _ =>
      let group := mkCoreOutputs index (core_outputs group) (finished_requests group) (scheduler_stats group) in
      if multi_clients None (core_outputs group) then fold_left (add_output group) (core_outputs group) d
      else dict_set d (queue_server_address first) (bundle group)
  end.

Definition put_nowait_to_servers (outputs : list CoreOutputs) : bundles := fold_left add_group outputs [].

End forwarder.

(** ** zmq_client.py and base_output_forwarder.py *)

Inductive rpc_response := RpcText (s : string) | RpcException | RpcOther.

(** [_send_one_way_rpc_request]: whether it returns, and whether the connection is closed. *)
Definition send_one_way_rpc_request (response : rpc_response) : bool * bool :=
  match response with
  | RpcText s => if bool_decide (s = "SUCCESS"%string) then (true, false) else (false, true)
  | _ => (false, true)
  end.

(** [put_nowait]: whether it returns; without an address it raises. The address is the text
    that the server made of its ip and port, and splitting it gives these back. *)
Definition put_nowait (response : string -> rpc_response) (server_addr : server) : bool :=
  match server_addr with
  | None => false
  | Some a => (send_one_way_rpc_request (response a)).1
  end.

(** [put_nowait_to_servers_func]: the requests to abort, of the servers that could not be
    reached, in the order in which the calls end. *)
Definition put_nowait_to_servers_func (put : server -> bool) (ends : bundles) : list string :=
  flat_map (fun '(addr, b) => if put addr then [] else co_request_id <$> core_outputs (engine_outputs b)) ends.

(** ** connection_pool.py

    The pool of connections, the one used last at the end; a connection is its address and the
    number it was made with. *)
Record LruConnectionPool := mkPool { max_connections : Z; connection_pool : list (string * nat); next_connection : nat }.

Fixpoint pool_find (a : string) (l : list (string * nat)) : option nat :=
  match l with
  | [] => None
  | (a', n) :: l => if bool_decide (a' = a) then Some n else pool_find a l
  end.

Definition pool_remove (a : string) (l : list (string * nat)) : list (string * nat) := filter (fun e => e.1 <> a) l.

Definition get_connection_through_address (a : string) (p : LruConnectionPool) : nat * LruConnectionPool :=
  match pool_find a (connection_pool p) with
  | Some n => (n, mkPool (max_connections p) (pool_remove a (connection_pool p) ++ [(a, n)]) (next_connection p))
  | None =>
      let l := if bool_decide (0 < max_connections p) && bool_decide (max_connections p <= Z.of_nat (length (connection_pool p)))
               then drop 1 (connection_pool p) else connection_pool p in
      (next_connection p, mkPool (max_connections p) (l ++ [(a, next_connection p)]) (S (next_connection p)))
  end.

Definition close_connection (a : string) (p : LruConnectionPool) : LruConnectionPool :=
  mkPool (max_connections p) (pool_remove a (connection_pool p)) (next_connection p).

Definition close_all (p : LruConnectionPool) : LruConnectionPool := mkPool (max_connections p) [] (next_connection p).

(** ** zmq_server.py *)

Section queue.
Context {Item : Type}.

Record ZmqServer := mkZmqServer { maxsize : Z; zs_queue : list Item }.

(** [None]: [RPCQueueFullError] or [RPCQueueEmptyError]. *)
Definition put_nowait_batch (items : list Item) (s : ZmqServer) : option ZmqServer :=
  if bool_decide (0 < maxsize s) && bool_decide (maxsize s < Z.of_nat (length items) + Z.of_nat (length (zs_queue s))) then None
  else Some (mkZmqServer (maxsize s) (zs_queue s ++ items)).

Definition get_nowait_batch (num_items : nat) (s : ZmqServer) : option (list Item * ZmqServer) :=
  if bool_decide (length (zs_queue s) < num_items)%nat then None
  else Some (take num_items (zs_queue s), mkZmqServer (maxsize s) (drop num_items (zs_queue s))).

Inductive RPCRequestType := HANDSHAKE | PUT_NOWAIT (item : Item) | PUT_NOWAIT_BATCH (items : list Item) | UnknownRequest.

(** What the server's loop does with a message: it answers, the task of the message fails
    without an answer, or the loop itself ends with an exception. *)
Inductive served := Answered | NoAnswer | LoopEnds.

Definition make_handler_coro (r : RPCRequestType) (s : ZmqServer) : served * ZmqServer :=
  let put items := match put_nowait_batch items s with Some s => (Answered, s) | None => (NoAnswer, s) end in
  match r with
  | HANDSHAKE => (Answered, s)
  | PUT_NOWAIT item => put [item]
  | PUT_NOWAIT_BATCH items => put items
  | UnknownRequest => (LoopEnds, s)
  end.

End queue.
Arguments ZmqServer : clear implicits.
Arguments RPCRequestType : clear implicits.

(** ** base_client.py and client.py

    [outputs_queue] is the local queue of the API server's client. *)
Record Client := mkClient {
  instance_requests : gmap string (gset string);
  request_instances : gmap string (list string);
  request_num_output_tokens : gmap string (option Z);
  aborted_requests : gset string;
  core_output_stash : gmap string (list CoreOutput);
  outputs_queue : list CoreOutputs
}.

Definition new_client : Client := mkClient ∅ ∅ ∅ ∅ ∅ [].

(** [_clear_client_request_states]. *)
Definition clear_client_request_states (id : string) (c : Client) : Client :=
  mkClient
    (fold_left (fun m i => alter (fun s => s ∖ {[id]}) i m) (default [] (request_instances c !! id)) (instance_requests c))
    (delete id (request_instances c)) (delete id (request_num_output_tokens c)) (aborted_requests c)
    (delete id (core_output_stash c)) (outputs_queue c).

Definition abort_one (c : Client) (id : string) : Client :=
  let c := clear_client_request_states id c in
  mkClient (instance_requests c) (request_instances c) (request_num_output_tokens c) ({[id]} ∪ aborted_requests c) (core_output_stash c) (outputs_queue c).

Definition abort_requests_async (ids : list string) (c : Client) : Client := fold_left abort_one ids c.

(** [_process_output_order]; [None] is a [TypeError]: the position before is not a number. *)
Definition process_output_order (o : CoreOutput) (c : Client) : option (list CoreOutput * Client) :=
  match num_output_tokens o with
  | None => Some ([o], c)
  | Some current_len =>
      if bool_decide (current_len = 0) then Some ([o], c)
      else match default (Some 0) (request_num_output_tokens c !! co_request_id o) with
      | None => None
      | Some prev_len =>
          if bool_decide (prev_len + Z.of_nat (length (new_token_ids o)) < current_len)
          then Some ([], mkClient (instance_requests c) (request_instances c) (request_num_output_tokens c) (aborted_requests c)
                           (<[co_request_id o := default [] (core_output_stash c !! co_request_id o) ++ [o]]> (core_output_stash c)) (outputs_queue c))
          else Some ([o], c)
      end
  end.

Definition set_last (i : string) (l : list string) : list string := take (length l - 1) l ++ [i].

Definition note_instance (i id : string) (c : Client) : Client :=
  mkClient (instance_requests c) (<[id := set_last i (default [] (request_instances c !! id))]> (request_instances c))
    (request_num_output_tokens c) (aborted_requests c) (core_output_stash c) (outputs_queue c).

Definition note_position (o : CoreOutput) (c : Client) : Client :=
  mkClient (instance_requests c) (request_instances c) (<[co_request_id o := num_output_tokens o]> (request_num_output_tokens c))
    (aborted_requests c) (core_output_stash c) (outputs_queue c).

(** The body of the loop over the outputs: what is passed on, and the requests to abort.
    [known] are the requests of vLLM's output processor. *)
Definition take_output (known : gset string) (instance : string) (acc : list CoreOutput * list string * Client) (o : CoreOutput)
    : option (list CoreOutput * list string * Client) :=
  let '(processed, to_abort, c) := acc in
  let id := co_request_id o in
  if bool_decide (id ∈ aborted_requests c) then Some (processed, to_abort ++ [id], c)
  else if bool_decide (id ∉ known) then Some acc
  else
    '(new, c) ← process_output_order o (note_instance instance id c);
    match last new with
    | None => Some (processed, to_abort, c)
    | Some last_output =>
        let c := note_position last_output c in
        Some (processed ++ new, to_abort, if co_finished last_output then clear_client_request_states id c else c)
    end.

Fixpoint take_outputs (known : gset string) (instance : string) (outputs : list CoreOutput) (acc : list CoreOutput * list string * Client)
    : option (list CoreOutput * list string * Client) :=
  match outputs with
  | [] => Some acc
  | o :: outputs => acc ← take_output known instance acc o; take_outputs known instance outputs acc
  end.

Inductive abort_answer := AbortSuccess | AbortRefused | AbortRaises.

Definition is_some {A} (x : option A) : bool := match x with Some _ => true | None => false end.

Definition deliver_outputs (processed : list CoreOutput) (outs : CoreOutputs) (c : Client) : Client :=
  if bool_decide (processed <> []) || is_some (scheduler_stats outs)
  then mkClient (instance_requests c) (request_instances c) (request_num_output_tokens c) (aborted_requests c) (core_output_stash c)
         (outputs_queue c ++ [mkCoreOutputs (engine_index outs) processed (finished_requests outs) (scheduler_stats outs)])
  else c.

(** [_call_llumlet_abort_requests]; an exception of the call is not caught, and a refusal is
    one too, since the answer has no field [msg]. *)
Definition call_llumlet_abort_requests (answer : abort_answer) (ids : list string) (c : Client) : option Client :=
  match answer with
  | AbortSuccess => Some (mkClient (instance_requests c) (request_instances c) (request_num_output_tokens c) (aborted_requests c ∖ list_to_set ids)
                            (core_output_stash c) (outputs_queue c))
  | AbortRefused | AbortRaises => None
  end.

(** One turn of [get_request_outputs_loop]. The second part is the client when an exception has
    ended the loop: what was put into the local queue stays there. *)
Definition get_request_outputs (known : gset string) (answer : abort_answer) (m : LlumnixRequestOutputs) (c : Client) : bool * Client :=
  match take_outputs known (lo_instance_id m) (core_outputs (engine_outputs m)) ([], [], c) with
  | None => (false, c)
  | Some (processed, to_abort, c) =>
      let c := deliver_outputs processed (engine_outputs m) c in
      if bool_decide (to_abort = []) then (true, c)
      else match call_llumlet_abort_requests answer to_abort c with Some c => (true, c) | None => (false, c) end
  end.

(** [cancel_dead_instance_requests] for one instance: what it puts into the server's queue.
    [order] is the order of the set. *)
Definition cancel_dead_instance (order : gset string -> list string) (dead : string) (s : ZmqServer LlumnixRequestOutputs) (c : Client)
    : option (ZmqServer LlumnixRequestOutputs) * Client :=
  let ids := order (default ∅ (instance_requests c !! dead)) in
  let m := mkLlumnixOutputs dead "" (mkCoreOutputs 0 ((fun id => mkCoreOutput id [] true None None) <$> ids) None None) in
  let gone := mkClient (delete dead (instance_requests c)) (request_instances c) (request_num_output_tokens c) (aborted_requests c) (core_output_stash c) (outputs_queue c) in
  if bool_decide (ids = []) then (Some s, gone)
  else match put_nowait_batch [m] s with Some s => (Some s, gone) | None => (None, c) end.

(** ** Each server gets its outputs *)

Definition outs_at (d : bundles) (a : server) : list CoreOutput :=
  match dict_get d a with Some b => core_outputs (engine_outputs b) | None => [] end.

Definition addressed_to (a : server) (l : list CoreOutput) : list CoreOutput := filter (fun o => queue_server_address o = a) l.

Lemma addressed_app a l l' : addressed_to a (l ++ l') = addressed_to a l ++ addressed_to a l'.
Proof. apply filter_app. Qed.

Lemma addressed_none a l : (forall o, o ∈ l -> queue_server_address o <> a) -> addressed_to a l = [].
Proof.
  induction l as [|o l IH]; intros H; [done|]. unfold addressed_to in *. rewrite filter_cons, decide_False by (apply H; by left). apply IH. intros x Hx. apply H. by right.
Qed.

Lemma dict_get_set d k v k' : dict_get (dict_set d k v) k' = if bool_decide (k = k') then Some v else dict_get d k'.
Proof.
  induction d as [|[k1 v1] d IH]; cbn; [done|]. repeat (case_bool_decide; cbn; subst); try done; try congruence; by rewrite IH, ?bool_decide_true, ?bool_decide_false by done.
Qed.

Lemma dict_set_keys d k v : NoDup d.*1 -> NoDup (dict_set d k v).*1.
Proof.
  assert (Hin : forall d' k', k' ∈ (dict_set d' k v).*1 -> k' = k \/ k' ∈ d'.*1).
  { induction d' as [|[k1 v1] d' IH]; cbn; intros k'; [rewrite list_elem_of_singleton; by left|]. case_bool_decide; subst; cbn; rewrite !elem_of_cons; [tauto|].
    intros [->|H2]; [tauto|]. destruct (IH k' H2); tauto. }
  induction d as [|[k1 v1] d IH]; cbn; [intros _; apply NoDup_singleton|]. intros [H1 H2]%list.NoDup_cons. case_bool_decide; subst; cbn; apply list.NoDup_cons; split; try done; [|by apply IH].
  intros [->|?]%Hin; done.
Qed.

Section forwarded.
Context (instance_id llumlet_address : string) (index default_index : Z).

Abbreviation add_output' := (add_output instance_id llumlet_address default_index).
Abbreviation add_group' := (add_group instance_id llumlet_address index default_index).

Lemma add_output_at g d o a : outs_at (add_output' g d o) a = outs_at d a ++ addressed_to a [o].
Proof.
  unfold outs_at, add_output. rewrite dict_get_set.
  case_bool_decide as H; [|by rewrite addressed_none, app_nil_r by (intros x ->%list_elem_of_singleton; done)].
  unfold addressed_to. rewrite filter_cons, decide_True by done. rewrite H. by destruct (dict_get d a).
Qed.

Lemma add_outputs_at g l d a : outs_at (fold_left (add_output' g) l d) a = outs_at d a ++ addressed_to a l.
Proof.
  revert d. induction l as [|o l IH]; intros d; cbn [fold_left]; [by rewrite (addressed_none a []), app_nil_r by (intros o []%elem_of_nil)|].
  rewrite IH, add_output_at, <- app_assoc. by rewrite <- addressed_app.
Qed.

Lemma one_client a l : multi_clients (Some a) l = false -> Forall (fun o => queue_server_address o = Some a) l.
Proof. induction l as [|o l IH]; cbn; [done|]. case_bool_decide; [|done]. intros H1. constructor; [done|by apply IH]. Qed.

Lemma add_group_at d g a : (forall o, o ∈ core_outputs g -> is_Some (queue_server_address o) /\ outs_at d (queue_server_address o) = []) ->
  outs_at (add_group' d g) a = outs_at d a ++ addressed_to a (core_outputs g).
Proof.
  intros Hg. unfold add_group. destruct (core_outputs g) as [|o l] eqn:E; [by rewrite (addressed_none a []), app_nil_r by (intros o []%elem_of_nil)|]. cbn [core_outputs].
  destruct (multi_clients None (o :: l)) eqn:Em; [apply add_outputs_at|]. destruct (Hg o (list_elem_of_here _ _)) as [[x Hx] H0]. cbn in Em. rewrite Hx in Em.
  pose proof (one_client x l Em) as Hl. unfold outs_at. rewrite dict_get_set. cbn [bundle engine_outputs core_outputs].
  assert (Hall : forall y, addressed_to y (o :: l) = if bool_decide (Some x = y) then o :: l else []).
  { intros y. assert (Ho : Forall (fun o => queue_server_address o = Some x) (o :: l)) by (by constructor). clear -Ho. induction Ho as [|z k Hz _ IH]; [by case_bool_decide|].
    unfold addressed_to in *. rewrite filter_cons, IH, Hz. case_bool_decide; [by rewrite decide_True|by rewrite decide_False]. }
  rewrite Hall, Hx. destruct (decide (Some x = a)) as [Ha|Ha]; [rewrite !(bool_decide_true (Some x = a)) by done|by rewrite !(bool_decide_false (Some x = a)), app_nil_r by done].
  subst a. unfold outs_at in H0. rewrite Hx in H0. by rewrite H0.
Qed.

(** A server has one client index ([add_request_async] sets both), so the outputs for it are
    under one key of the engine's dictionary. *)
Definition well_addressed (index_of : string -> nat) (groups : list (nat * CoreOutputs)) : Prop :=
  NoDup groups.*1 /\ forall k g o, (k, g) ∈ groups -> o ∈ core_outputs g -> exists a, queue_server_address o = Some a /\ index_of a = k.

Lemma put_at index_of groups d a : well_addressed index_of groups ->
  (forall k x, k ∈ groups.*1 -> index_of x = k -> outs_at d (Some x) = []) ->
  outs_at (fold_left add_group' groups.*2 d) a = outs_at d a ++ addressed_to a (flat_map core_outputs groups.*2).
Proof.
  revert d. induction groups as [|[k g] groups IH]; intros d [Hn Hw] Hd; cbn [fmap list_fmap fold_left flat_map snd]; [by rewrite (addressed_none a []), app_nil_r by (intros o []%elem_of_nil)|].
  cbn [fmap list_fmap fst] in Hn, Hd. apply list.NoDup_cons in Hn as [Hk Hn].
  assert (Hat : forall y, outs_at (add_group' d g) y = outs_at d y ++ addressed_to y (core_outputs g)).
  { intros y. apply add_group_at. intros o Ho. destruct (Hw k g o (list_elem_of_here _ _) Ho) as (x & Hx & Hi). rewrite Hx. split; [done|]. by apply (Hd k x (list_elem_of_here _ _)). }
  rewrite IH.
  - by rewrite Hat, addressed_app, app_assoc.
  - split; [done|]. intros k' g' o H1. apply Hw. by right.
  - intros k' x Hk' Hx. rewrite Hat, (Hd k' x) by (done || by right). cbn.
    apply addressed_none. intros o Ho Ha. destruct (Hw k g o (list_elem_of_here _ _) Ho) as (x' & Hx' & Hi). rewrite Ha in Hx'. injection Hx' as <-. apply Hk. rewrite <- Hi, Hx. done.
Qed.

End forwarded.

(** ** Outputs in order reach the API server *)

Definition of_request (id : string) (l : list CoreOutput) : list CoreOutput := filter (fun o => co_request_id o = id) l.

Lemma of_request_app id l l' : of_request id (l ++ l') = of_request id l ++ of_request id l'.
Proof. apply filter_app. Qed.

Lemma of_request_one id o : of_request id [o] = if bool_decide (co_request_id o = id) then [o] else [].
Proof. unfold of_request. rewrite filter_cons. by case_bool_decide; [rewrite decide_True|rewrite decide_False]. Qed.

Lemma of_request_cons id o l : of_request id (o :: l) = of_request id [o] ++ of_request id l.
Proof. apply (of_request_app id [o]). Qed.

(** The outputs of a request follow each other: each of them, when they are [numbered], says how
    many tokens of the request there are with it; [reached] are the tokens so far. *)
Definition advance (reached : Z) (o : CoreOutput) : Z := if co_finished o then 0 else reached + Z.of_nat (length (new_token_ids o)).

Fixpoint in_order (numbered : bool) (reached : Z) (l : list CoreOutput) : Prop :=
  match l with
  | [] => True
  | o :: l =>
      num_output_tokens o = (if numbered then Some (reached + Z.of_nat (length (new_token_ids o))) else None) /\
      in_order numbered (advance reached o) l
  end.

Lemma in_order_app numbered r l l' : in_order numbered r (l ++ l') <-> in_order numbered r l /\ in_order numbered (fold_left advance l r) l'.
Proof. revert r. induction l as [|o l IH]; intros r; cbn; [tauto|]. rewrite IH. tauto. Qed.

(** The client knows how far the request [id] is, if it is numbered, and does not abort it. *)
Record follows (id : string) (numbered : bool) (reached : Z) (c : Client) : Prop := {
  knows : numbered = true -> default (Some 0) (request_num_output_tokens c !! id) = Some reached;
  not_aborted : id ∉ aborted_requests c
}.

Lemma follows_state id numbered r c c' :
  request_num_output_tokens c' !! id = request_num_output_tokens c !! id -> aborted_requests c' ⊆ aborted_requests c ->
  follows id numbered r c -> follows id numbered r c'.
Proof. intros H1 H2 [Hk Ha]. split; [by rewrite H1|set_solver]. Qed.

Lemma follows_note (numbered : bool) (r : Z) o c :
  num_output_tokens o = (if numbered then Some (r + Z.of_nat (length (new_token_ids o))) else None) -> follows (co_request_id o) numbered r c ->
  follows (co_request_id o) numbered (advance r o) (if co_finished o then clear_client_request_states (co_request_id o) (note_position o c) else note_position o c).
Proof.
  intros Ho [Hk Ha]. unfold advance. destruct (co_finished o); (split; [|exact Ha]); intros ->; cbn.
  - by rewrite lookup_delete_eq.
  - rewrite lookup_insert_eq. cbn. by rewrite Ho.
Qed.

(** Taking an output of another request. *)
Lemma take_other known inst o id P ab c P' ab' c' :
  co_request_id o <> id -> take_output known inst (P, ab, c) o = Some (P', ab', c') ->
  of_request id P' = of_request id P /\ request_num_output_tokens c' !! id = request_num_output_tokens c !! id /\
  aborted_requests c' = aborted_requests c /\ outputs_queue c' = outputs_queue c.
Proof.
  intros Hid. unfold take_output. case_bool_decide; [by intros [= <- <- <-]|]. case_bool_decide; [by intros [= <- <- <-]|].
  destruct (process_output_order o _) as [[new c1]|] eqn:E; [|done]. cbn [mbind option_bind].
  assert (Hc : request_num_output_tokens c1 = request_num_output_tokens c /\ aborted_requests c1 = aborted_requests c /\ outputs_queue c1 = outputs_queue c /\ (new = [] \/ new = [o])).
  { unfold process_output_order in E. repeat (case_match; try done); injection E as <- <-; auto. }
  destruct Hc as (H1 & H2 & H3 & [->| ->]); cbn [last]; intros [= <- <- <-]; [by rewrite H1|].
  rewrite of_request_app, of_request_one, bool_decide_false, app_nil_r by done.
  destruct (co_finished o); cbn; rewrite ?lookup_delete_ne, lookup_insert_ne, H1 by done; done.
Qed.

(** Taking an output of the request itself, in its turn. *)
Lemma take_own known inst o (numbered : bool) (r : Z) P ab c :
  num_output_tokens o = (if numbered then Some (r + Z.of_nat (length (new_token_ids o))) else None) ->
  co_request_id o ∈ known -> follows (co_request_id o) numbered r c ->
  exists c', take_output known inst (P, ab, c) o = Some (P ++ [o], ab, c') /\ follows (co_request_id o) numbered (advance r o) c' /\ outputs_queue c' = outputs_queue c.
Proof.
  intros Ho Hk Hf. unfold take_output. rewrite bool_decide_false by (by destruct Hf). rewrite bool_decide_false by tauto.
  assert (Hp : process_output_order o (note_instance inst (co_request_id o) c) = Some ([o], note_instance inst (co_request_id o) c)).
  { unfold process_output_order. rewrite Ho. destruct numbered; [|done]. cbn [note_instance request_num_output_tokens].
    rewrite (knows _ _ _ _ Hf eq_refl). case_bool_decide; [done|]. by rewrite bool_decide_false by lia. }
  rewrite Hp. cbn [mbind option_bind last]. eexists. split; [reflexivity|]. split; [|by destruct (co_finished o)].
  apply follows_note; [done|]. by eapply follows_state; [..|exact Hf].
Qed.

Lemma take_in_order id numbered known inst l r P ab c P' ab' c' :
  in_order numbered r (of_request id l) -> id ∈ known -> follows id numbered r c -> take_outputs known inst l (P, ab, c) = Some (P', ab', c') ->
  of_request id P' = of_request id P ++ of_request id l /\ follows id numbered (fold_left advance (of_request id l) r) c' /\ outputs_queue c' = outputs_queue c.
Proof.
  revert r P ab c. induction l as [|o l IH]; intros r P ab c Ho Hk Hf E; [injection E as <- <- <-; by rewrite app_nil_r|].
  cbn [take_outputs] in E. rewrite of_request_cons, of_request_one in *. destruct (decide (co_request_id o = id)) as [Hid|Hid].
  - rewrite bool_decide_true in * by done. destruct Ho as [Ho Hl]. subst id.
    destruct (take_own known inst o numbered r P ab c Ho Hk Hf) as (c1 & E1 & Hf1 & Hq1). rewrite E1 in E. cbn [mbind option_bind] in E.
    destruct (IH _ _ _ _ Hl Hk Hf1 E) as (H1 & H2 & H3). rewrite of_request_app, of_request_one, bool_decide_true in H1 by done.
    rewrite <- app_assoc in H1. split; [exact H1|]. split; [exact H2|congruence].
  - rewrite bool_decide_false in * by done. destruct (take_output known inst (P, ab, c) o) as [[[P1 ab1] c1]|] eqn:E1; [|done]. cbn [mbind option_bind] in E.
    destruct (take_other known inst o id P ab c P1 ab1 c1 Hid E1) as (G1 & G2 & G3 & G4).
    destruct (IH r P1 ab1 c1 Ho Hk) as (H1 & H2 & H3); [by eapply follows_state; [exact G2|rewrite G3|exact Hf]|exact E|]. rewrite G1 in H1. split; [exact H1|]. split; [exact H2|congruence].
Qed.

Definition all_outputs (l : list CoreOutputs) : list CoreOutput := flat_map core_outputs l.

Lemma all_outputs_app l l' : all_outputs (l ++ l') = all_outputs l ++ all_outputs l'.
Proof. apply flat_map_app. Qed.

Lemma deliver_queue P outs c : all_outputs (outputs_queue (deliver_outputs P outs c)) = all_outputs (outputs_queue c) ++ P.
Proof.
  unfold deliver_outputs. destruct (bool_decide _ || _) eqn:E; cbn [outputs_queue].
  - rewrite all_outputs_app. cbn. by rewrite app_nil_r.
  - apply orb_false_iff in E as [E _]. apply bool_decide_eq_false in E. destruct P; [by rewrite app_nil_r|]. by destruct E.
Qed.

Lemma deliver_state P outs c : request_num_output_tokens (deliver_outputs P outs c) = request_num_output_tokens c /\ aborted_requests (deliver_outputs P outs c) = aborted_requests c.
Proof. unfold deliver_outputs. by destruct (bool_decide _ || _). Qed.

(** A turn that goes well passes all outputs of a request on that are in order. *)
Lemma turn_in_order id numbered known answer m r c c' :
  in_order numbered r (of_request id (core_outputs (engine_outputs m))) -> id ∈ known -> follows id numbered r c -> get_request_outputs known answer m c = (true, c') ->
  follows id numbered (fold_left advance (of_request id (core_outputs (engine_outputs m))) r) c' /\
  of_request id (all_outputs (outputs_queue c')) = of_request id (all_outputs (outputs_queue c)) ++ of_request id (core_outputs (engine_outputs m)).
Proof.
  intros Ho Hk Hf. unfold get_request_outputs. destruct (take_outputs _ _ _ _) as [[[P ab] c1]|] eqn:E; [|done].
  destruct (take_in_order id numbered known _ _ r [] [] c P ab c1 Ho Hk Hf E) as (H1 & H2 & H3). cbn [app] in H1.
  destruct (deliver_state P (engine_outputs m) c1) as [D1 D2].
  assert (Hd : follows id numbered (fold_left advance (of_request id (core_outputs (engine_outputs m))) r) (deliver_outputs P (engine_outputs m) c1))
    by (by eapply follows_state; [rewrite D1|rewrite D2|exact H2]).
  assert (Hq : of_request id (all_outputs (outputs_queue (deliver_outputs P (engine_outputs m) c1))) = of_request id (all_outputs (outputs_queue c)) ++ of_request id (core_outputs (engine_outputs m))).
  { by rewrite deliver_queue, of_request_app, H3, H1. }
  case_bool_decide; [by intros [= <-]|]. destruct answer; cbn; [|done..]. intros [= <-]. split; [|exact Hq].
  eapply follows_state; [| |exact Hd]; cbn; [done|set_solver].
Qed.

(** Whether outputs say their position is a matter of the request. *)
Definition uniform (numbered : string -> bool) (l : list CoreOutput) : Prop := forall o, o ∈ l -> is_some (num_output_tokens o) = numbered (co_request_id o).

Definition positions_known (numbered : string -> bool) (c : Client) : Prop := forall id, numbered id = true -> request_num_output_tokens c !! id <> Some None.

Lemma clear_positions numbered id c : positions_known numbered c -> positions_known numbered (clear_client_request_states id c).
Proof. intros H x Hx. cbn. intros [_ Hl]%lookup_delete_Some. by apply (H x Hx). Qed.

Lemma note_positions numbered o c : is_some (num_output_tokens o) = numbered (co_request_id o) -> positions_known numbered c -> positions_known numbered (note_position o c).
Proof.
  intros Ho H id Hid. cbn. intros [[<- Hn]|[_ Hl]]%lookup_insert_Some; [|by apply (H id Hid)]. rewrite Hn, Hid in Ho. done.
Qed.

(** Then no output makes the loop fail. *)
Lemma take_total numbered known inst l acc :
  uniform numbered l -> positions_known numbered acc.2 -> exists acc', take_outputs known inst l acc = Some acc' /\ positions_known numbered acc'.2.
Proof.
  revert acc. induction l as [|o l IH]; intros acc Hu Hp; [by exists acc|]. cbn [take_outputs].
  assert (Ho : is_some (num_output_tokens o) = numbered (co_request_id o)) by (apply Hu; by left).
  assert (H1 : exists acc', take_output known inst acc o = Some acc' /\ positions_known numbered acc'.2).
  { destruct acc as [[P ab] c]. unfold take_output. case_bool_decide; [by eexists|]. case_bool_decide; [by eexists|].
    assert (Hdone : forall c', positions_known numbered c' -> exists acc', Some (P ++ [o], ab, if co_finished o then clear_client_request_states (co_request_id o) (note_position o c') else note_position o c') = Some acc' /\ positions_known numbered acc'.2).
    { intros c' Hc'. eexists. split; [reflexivity|]. cbn. destruct (co_finished o); [apply clear_positions|]; by apply note_positions. }
    unfold process_output_order. destruct (num_output_tokens o) as [p|] eqn:En; [|by apply Hdone].
    case_bool_decide; [by apply Hdone|]. cbn [note_instance request_num_output_tokens].
    destruct (request_num_output_tokens c !! co_request_id o) as [[e|]|] eqn:El; cbn [default option_rect id].
    - case_bool_decide; [by eexists|by apply Hdone].
    - exfalso. exact (Hp _ (eq_sym Ho) El).
    - case_bool_decide; [by eexists|by apply Hdone]. }
  destruct H1 as (acc' & -> & Hp'). cbn [mbind option_bind]. apply IH; [|done]. intros x Hx. apply Hu. by right.
Qed.

Lemma turn_total numbered known m c :
  uniform numbered (core_outputs (engine_outputs m)) -> positions_known numbered c ->
  (get_request_outputs known AbortSuccess m c).1 = true /\ positions_known numbered (get_request_outputs known AbortSuccess m c).2.
Proof.
  intros Hu Hp. unfold get_request_outputs. destruct (take_total numbered known (lo_instance_id m) _ ([], [], c) Hu Hp) as ([[P ab] c'] & -> & Hp').
  assert (Hd : positions_known numbered (deliver_outputs P (engine_outputs m) c')) by (intros id Hid; destruct (deliver_state P (engine_outputs m) c') as [-> _]; by apply Hp').
  case_bool_decide; done.
Qed.

(** ** From the engines to the API server

    Messages are under way from the processes of the engines to the server of the API server;
    they arrive in any order, or are lost. The client takes them from the queue of that server,
    each time with the requests that vLLM's output processor knows, and aborts requests. *)
Inductive output_event :=
  | EngineStep (instance llumlet : string) (index : Z) (groups : list (nat * CoreOutputs))
  | MessageArrives (k : nat)
  | MessageLost (k : nat)
  | ClientTurn (known : gset string) (answer : abort_answer)
  | ClientAborts (ids : list string).

(** [ow_arrived] and [ow_lost] record the outputs of the messages that arrived, and of those lost. *)
Record output_world := mkOutputWorld {
  ow_flight : list LlumnixRequestOutputs;
  ow_server : ZmqServer LlumnixRequestOutputs;
  ow_alive : bool;
  ow_client : Client;
  ow_arrived : list CoreOutput;
  ow_lost : list CoreOutput
}.

Definition new_output_world : output_world := mkOutputWorld [] (mkZmqServer 0 []) true new_client [] [].

Definition message_outputs (m : LlumnixRequestOutputs) : list CoreOutput := core_outputs (engine_outputs m).

Section end_to_end.
Context (default_index : Z) (address : string).

Definition message_of (instance llumlet : string) (index : Z) (groups : list (nat * CoreOutputs)) : option LlumnixRequestOutputs :=
  dict_get (put_nowait_to_servers instance llumlet index default_index groups.*2) (Some address).

Definition output_turn (w : output_world) (e : output_event) : output_world :=
  let '(mkOutputWorld flight server alive client arrived lost) := w in
  match e with
  | EngineStep instance llumlet index groups =>
      mkOutputWorld (flight ++ option_list (message_of instance llumlet index groups)) server alive client arrived lost
  | MessageArrives k =>
      match flight !! k with
      | Some m => mkOutputWorld (delete k flight) (make_handler_coro (PUT_NOWAIT m) server).2 alive client (arrived ++ message_outputs m) lost
      | None => w
      end
  | MessageLost k =>
      match flight !! k with
      | Some m => mkOutputWorld (delete k flight) server alive client arrived (lost ++ message_outputs m)
      | None => w
      end
  | ClientTurn known answer =>
      if alive then
        match get_nowait_batch 1 server with
        | Some ([m], server) =>
            let '(alive, client) := get_request_outputs known answer m client in mkOutputWorld flight server alive client arrived lost
        | _ => w
        end
      else w
  | ClientAborts ids => mkOutputWorld flight server alive (abort_requests_async ids client) arrived lost
  end.

Definition produced (e : output_event) : list CoreOutput :=
  match e with EngineStep _ _ _ groups => addressed_to (Some address) (all_outputs groups.*2) | _ => [] end.

Definition passed_on (w : output_world) : list CoreOutput := all_outputs (outputs_queue (ow_client w)).
Definition waiting_outputs (w : output_world) : list CoreOutput := flat_map message_outputs (zs_queue (ow_server w)).
Definition flying_outputs (w : output_world) : list CoreOutput := flat_map message_outputs (ow_flight w).

Lemma put_unbounded (m : LlumnixRequestOutputs) s : maxsize s = 0 -> (make_handler_coro (PUT_NOWAIT m) s).2 = mkZmqServer 0 (zs_queue s ++ [m]).
Proof. intros H. cbn. unfold put_nowait_batch. by rewrite H. Qed.

Lemma get_one (m : LlumnixRequestOutputs) q s : zs_queue s = m :: q -> get_nowait_batch 1 s = Some ([m], mkZmqServer (maxsize s) q).
Proof. intros H. unfold get_nowait_batch. by rewrite H. Qed.

Lemma step_outputs index_of instance llumlet index groups : well_addressed index_of groups ->
  addressed_to (Some address) (all_outputs groups.*2) = flat_map message_outputs (option_list (message_of instance llumlet index groups)).
Proof.
  intros H. symmetry. transitivity (outs_at (put_nowait_to_servers instance llumlet index default_index groups.*2) (Some address)).
  - unfold outs_at, message_of. destruct (dict_get _ _); [apply app_nil_r|done].
  - apply (put_at instance llumlet index default_index index_of groups [] (Some address) H). done.
Qed.

Lemma flight_split (flight : list LlumnixRequestOutputs) k m : flight !! k = Some m -> flat_map message_outputs flight ≡ₚ flat_map message_outputs (delete k flight) ++ message_outputs m.
Proof. intros H. rewrite (delete_Permutation _ _ _ H) at 1. cbn. apply Permutation_app_comm. Qed.

(** Nothing is made up, and nothing vanishes between the engines and the server. *)
Lemma turn_conserves index_of w e :
  (match e with EngineStep _ _ _ groups => well_addressed index_of groups | _ => True end) ->
  ow_arrived (output_turn w e) ++ flying_outputs (output_turn w e) ++ ow_lost (output_turn w e) ≡ₚ (ow_arrived w ++ flying_outputs w ++ ow_lost w) ++ produced e.
Proof.
  intros He. destruct w as [flight server alive client arrived lost], e as [inst llumlet index groups|k|k|known answer|ids]; unfold flying_outputs; cbn [output_turn produced ow_arrived ow_lost ow_flight].
  - rewrite (step_outputs index_of inst llumlet index groups He), flat_map_app. solve_Permutation.
  - destruct (flight !! k) as [m|] eqn:E; cbn [ow_arrived ow_lost ow_flight]; [rewrite (flight_split _ _ _ E)|]; solve_Permutation.
  - destruct (flight !! k) as [m|] eqn:E; cbn [ow_arrived ow_lost ow_flight]; [rewrite (flight_split _ _ _ E)|]; solve_Permutation.
  - rewrite app_nil_r. destruct alive; [|done]. destruct (get_nowait_batch 1 server) as [[[|m [|]] s]|]; try done. by destruct (get_request_outputs _ _ _ _).
  - by rewrite app_nil_r.
Qed.

(** The state of the world as far as the request [id] is concerned. *)
Definition carries (id : string) (numbered : bool) (w : output_world) : Prop :=
  maxsize (ow_server w) = 0 /\
  (ow_alive w = true -> in_order numbered 0 (of_request id (ow_arrived w)) ->
   of_request id (passed_on w) ++ of_request id (waiting_outputs w) = of_request id (ow_arrived w) /\
   follows id numbered (fold_left advance (of_request id (passed_on w)) 0) (ow_client w)).

Lemma aborts_follow ids id numbered r c : id ∉ ids -> follows id numbered r c -> follows id numbered r (abort_requests_async ids c) /\ outputs_queue (abort_requests_async ids c) = outputs_queue c.
Proof.
  revert c. induction ids as [|x ids IH]; intros c Hid Hf; [done|]. apply not_elem_of_cons in Hid as [Hx Hid].
  apply (IH (abort_one c x) Hid). destruct Hf as [Hk Ha]. split; [cbn; by rewrite lookup_delete_ne|cbn; set_solver].
Qed.

Lemma arrives_carries id numbered flight server alive client arrived lost m flight' :
  carries id numbered (mkOutputWorld flight server alive client arrived lost) ->
  carries id numbered (mkOutputWorld flight' (make_handler_coro (PUT_NOWAIT m) server).2 alive client (arrived ++ message_outputs m) lost).
Proof.
  intros [Hm H]. rewrite (put_unbounded m server Hm). split; [done|]. cbn [ow_alive ow_arrived]. rewrite of_request_app. intros Ha [Ho _]%in_order_app.
  destruct (H Ha Ho) as [H1 H2]. cbn [ow_arrived] in H1. split; [|exact H2]. rewrite <- H1. unfold waiting_outputs, passed_on. cbn [ow_server zs_queue ow_client].
  rewrite flat_map_app, of_request_app. cbn [flat_map]. by rewrite app_nil_r, app_assoc.
Qed.

Lemma client_carries id numbered known answer flight server client arrived lost m q :
  id ∈ known -> zs_queue server = m :: q -> carries id numbered (mkOutputWorld flight server true client arrived lost) ->
  carries id numbered (let '(alive, c) := get_request_outputs known answer m client in mkOutputWorld flight (mkZmqServer (maxsize server) q) alive c arrived lost).
Proof.
  intros Hk Eq [Hm H]. cbn [ow_server ow_alive ow_arrived] in *. destruct (get_request_outputs known answer m client) as [alive c'] eqn:Et. split; [done|]. cbn [ow_alive ow_arrived]. intros -> Ho.
  destruct (H eq_refl Ho) as [H1 H2]. unfold waiting_outputs, passed_on in *. cbn [ow_server ow_client] in *. rewrite Eq in H1. cbn [flat_map zs_queue] in *. rewrite of_request_app in H1.
  rewrite <- H1 in Ho. apply in_order_app in Ho as [_ Ho]. apply in_order_app in Ho as [Ho _].
  destruct (turn_in_order id numbered known answer m _ client c' Ho Hk H2 Et) as [Hf Hq]. fold (message_outputs m) in *.
  rewrite Hq, fold_left_app. split; [|exact Hf]. by rewrite <- app_assoc.
Qed.

Definition leaves_alone (id : string) (e : output_event) : Prop :=
  match e with ClientTurn known _ => id ∈ known | ClientAborts ids => id ∉ ids | _ => True end.

Lemma turn_carries id numbered w e : leaves_alone id e -> carries id numbered w -> carries id numbered (output_turn w e).
Proof.
  intros He H. destruct w as [flight server alive client arrived lost], e as [inst llumlet index groups|k|k|known answer|ids]; cbn [output_turn].
  - exact H.
  - destruct (flight !! k); [by eapply arrives_carries|exact H].
  - destruct (flight !! k); exact H.
  - destruct alive; [|exact H]. destruct (zs_queue server) as [|m q] eqn:Eq; [unfold get_nowait_batch; by rewrite Eq|].
    rewrite (get_one m q server Eq). by eapply client_carries.
  - destruct H as [Hm H]. split; [exact Hm|]. cbn [ow_alive ow_arrived] in *. intros Ha Ho. destruct (H Ha Ho) as [H1 H2].
    unfold passed_on in *. cbn [ow_client] in *. destruct (aborts_follow ids id numbered _ client He H2) as [H3 H4]. by rewrite H4.
Qed.

(** The state of the world in which the client's loop goes on. *)
Definition healthy (numbered : string -> bool) (w : output_world) : Prop :=
  ow_alive w = true /\ maxsize (ow_server w) = 0 /\ positions_known numbered (ow_client w) /\ (forall o, o ∈ waiting_outputs w -> o ∈ ow_arrived w).

Lemma arrived_grows w e o : o ∈ ow_arrived w -> o ∈ ow_arrived (output_turn w e).
Proof.
  destruct w as [flight server alive client arrived lost], e as [inst llumlet index groups|k|k|known answer|ids]; cbn [output_turn ow_arrived]; intros H; try done.
  - destruct (flight !! k); cbn; [apply elem_of_app; by left|done].
  - by destruct (flight !! k).
  - destruct alive; [|done]. destruct (get_nowait_batch 1 server) as [[[|m [|]] s]|]; try done. by destruct (get_request_outputs _ _ _ _).
Qed.

Lemma aborts_positions numbered ids c : positions_known numbered c -> positions_known numbered (abort_requests_async ids c).
Proof. revert c. induction ids as [|x ids IH]; intros c H; [done|]. apply (IH (abort_one c x)). exact (clear_positions numbered x c H). Qed.

Definition aborts_succeed (e : output_event) : Prop := match e with ClientTurn _ answer => answer = AbortSuccess | _ => True end.

Lemma turn_healthy numbered w e :
  aborts_succeed e -> uniform numbered (ow_arrived (output_turn w e)) -> healthy numbered w -> healthy numbered (output_turn w e).
Proof.
  intros He Hu (Ha & Hm & Hp & Hw). destruct w as [flight server alive client arrived lost], e as [inst llumlet index groups|k|k|known answer|ids]; cbn [output_turn ow_alive] in *; subst.
  - done.
  - destruct (flight !! k) as [m|]; [|done]. rewrite (put_unbounded m server Hm). split_and!; try done. unfold waiting_outputs in *. cbn [ow_server zs_queue ow_arrived] in *. intros o.
    rewrite flat_map_app. cbn [flat_map]. rewrite app_nil_r, !elem_of_app. intros [Ho|Ho]; [left; by apply Hw|by right].
  - by destruct (flight !! k).
  - destruct (zs_queue server) as [|m q] eqn:Eq; [unfold get_nowait_batch in *; by rewrite Eq in *|]. rewrite (get_one m q server Eq) in *.
    cbn [aborts_succeed] in He. subst answer. unfold waiting_outputs in Hw. cbn [ow_server ow_arrived] in Hw. rewrite Eq in Hw. cbn [flat_map] in Hw.
    assert (Hum : uniform numbered (core_outputs (engine_outputs m))).
    { intros o Ho. apply Hu. assert (o ∈ arrived) by (apply Hw, elem_of_app; by left). by destruct (get_request_outputs known AbortSuccess m client). }
    destruct (turn_total numbered known m client Hum Hp) as [H1 H2]. destruct (get_request_outputs known AbortSuccess m client) as [alive c']. cbn in H1, H2. subst alive.
    split_and!; try done. intros o Ho. apply Hw, elem_of_app. by right.
  - split_and!; try done. by apply aborts_positions.
Qed.

End end_to_end.

Lemma run_invariant {S E} (step : S -> E -> S) (ok : E -> Prop) (I : S -> Prop) events s :
  (forall s e, ok e -> I s -> I (step s e)) -> Forall ok events -> I s -> I (fold_left step events s).
Proof. intros Hs. revert s. induction events as [|e events IH]; intros s He Hi; [done|]. apply Forall_cons_iff in He as [He Hes]. cbn. apply IH; auto. Qed.

Lemma run_conserves default_index address index_of events w :
  Forall (fun e => match e with EngineStep _ _ _ groups => well_addressed index_of groups | _ => True end) events ->
  let w' := fold_left (output_turn default_index address) events w in
  ow_arrived w' ++ flying_outputs w' ++ ow_lost w' ≡ₚ (ow_arrived w ++ flying_outputs w ++ ow_lost w) ++ flat_map (produced address) events.
Proof.
  revert w. induction events as [|e events IH]; intros w He; cbn; [by rewrite app_nil_r|]. apply Forall_cons_iff in He as [He Hes].
  rewrite (IH _ Hes). rewrite (turn_conserves default_index address index_of w e He). by rewrite <- app_assoc.
Qed.

Lemma run_arrived_grows default_index address events w o : o ∈ ow_arrived w -> o ∈ ow_arrived (fold_left (output_turn default_index address) events w).
Proof. revert w. induction events as [|e events IH]; intros w H; [done|]. apply IH. by apply arrived_grows. Qed.

Lemma run_healthy default_index address numbered events w :
  Forall aborts_succeed events -> uniform numbered (ow_arrived (fold_left (output_turn default_index address) events w)) ->
  healthy numbered w -> healthy numbered (fold_left (output_turn default_index address) events w).
Proof.
  revert w. induction events as [|e events IH]; intros w He Hu H; [done|]. apply Forall_cons_iff in He as [He Hes]. cbn. apply IH; [done..|].
  apply turn_healthy; [done| |done]. intros o Ho. apply Hu. exact (run_arrived_grows _ _ events _ o Ho).
Qed.

(** C11. Engines finish steps, their messages arrive in any order or are lost, and the API
    server's client takes what has arrived, while requests are aborted and vLLM's output
    processor forgets requests. Each output that the engines made for the API server has arrived
    once, or is under way, or was lost. A request whose outputs arrive in order, that is known
    and not aborted, has exactly those outputs passed on, in their order and each of them once, up
    to those that wait in the queue, whatever happens to other requests. And the client's loop
    goes on when each request's outputs say their positions or none does and the engines accept
    the aborts they are asked for. *)
Theorem outputs_end_to_end default_index address index_of events :
  Forall (fun e => match e with EngineStep _ _ _ groups => well_addressed index_of groups | _ => True end) events ->
  let w := fold_left (output_turn default_index address) events new_output_world in
  ow_arrived w ++ flying_outputs w ++ ow_lost w ≡ₚ flat_map (produced address) events /\
  (forall id numbered, Forall (leaves_alone id) events -> in_order numbered 0 (of_request id (ow_arrived w)) -> ow_alive w = true ->
     of_request id (passed_on w) ++ of_request id (waiting_outputs w) = of_request id (ow_arrived w)) /\
  (forall numbered, uniform numbered (ow_arrived w) -> Forall aborts_succeed events -> ow_alive w = true).
Proof.
  intros He w. split; [exact (run_conserves default_index address index_of events new_output_world He)|]. split.
  - intros id numbered Hl Ho Ha. assert (H : carries id numbered w); [|by apply H].
    refine (run_invariant _ _ (carries id numbered) events new_output_world _ Hl _); [intros; by apply turn_carries|].
    split; [done|]. intros _ _. split; [done|]. split; [done|]. cbn. set_solver.
  - intros numbered Hu Hs. assert (H : healthy numbered w); [|by apply H]. apply run_healthy; [done..|]. split_and!; done.
Qed.

Definition example_output (id : string) (token : Z) (position : option Z) (address : string) : CoreOutput := mkCoreOutput id [token] false position (Some address).

(** A request that moves from one engine to another; the message of another request overtakes
    its second one, and a third is lost. *)
Definition example_events : list output_event :=
  [EngineStep "i1" "l1" 1 [(0%nat, mkCoreOutputs 0 [example_output "r" 7 (Some 1) "a:1"; example_output "s" 5 None "b:1"] None None)];
   MessageArrives 0;
   EngineStep "i2" "l2" 2 [(0%nat, mkCoreOutputs 0 [example_output "r" 8 (Some 2) "a:1"] None None)];
   EngineStep "i1" "l1" 1 [(0%nat, mkCoreOutputs 0 [example_output "t" 3 (Some 1) "a:1"] None None)];
   EngineStep "i1" "l1" 1 [(0%nat, mkCoreOutputs 0 [example_output "t" 4 (Some 2) "a:1"] None None)];
   MessageArrives 1; MessageLost 1; ClientTurn {["r"; "t"]} AbortRefused; ClientAborts ["t"]; MessageArrives 0; ClientTurn {["r"]} AbortSuccess].

Lemma well_addressed_one g : Forall (fun o => is_Some (queue_server_address o)) (core_outputs g) -> well_addressed (fun _ => 0%nat) [(0%nat, g)].
Proof.
  intros H. split; [apply NoDup_singleton|]. intros k g' o [= -> ->]%list_elem_of_singleton Ho. rewrite list.Forall_forall in H. destruct (H o Ho) as [a Ha]. by exists a.
Qed.

Lemma outputs_end_to_end_witness :
  let w := fold_left (output_turn 0 "a:1") example_events new_output_world in
  of_request "r" (passed_on w) = [example_output "r" 7 (Some 1) "a:1"] /\
  of_request "r" (passed_on w) ++ of_request "r" (waiting_outputs w) = [example_output "r" 7 (Some 1) "a:1"; example_output "r" 8 (Some 2) "a:1"] /\
  ow_lost w = [example_output "t" 4 (Some 2) "a:1"].
Proof.
  destruct (outputs_end_to_end 0 "a:1" (fun _ => 0%nat) example_events) as (_ & H & _).
  - repeat apply Forall_cons_2; try exact I; try (apply well_addressed_one; apply (bool_decide_unpack _); vm_compute; exact I). apply Forall_nil_2.
  - split; [vm_compute; reflexivity|]. split; [|vm_compute; reflexivity]. rewrite (H "r" true).
    + vm_compute. reflexivity.
    + repeat (apply Forall_cons_2; [cbn [leaves_alone]; first [exact I|set_solver]|]). apply Forall_nil_2.
    + vm_compute. done.
    + vm_compute. reflexivity.
Defined.

(** ** No token is skipped

    The API server's client under messages that arrive in any order, and aborts. *)
Inductive client_event :=
  | Arrives (known : gset string) (answer : abort_answer) (m : LlumnixRequestOutputs)
  | Aborts (ids : list string).

Definition client_turn (s : bool * Client) (e : client_event) : bool * Client :=
  match e with
  | Arrives known answer m => if s.1 then get_request_outputs known answer m s.2 else s
  | Aborts ids => (s.1, abort_requests_async ids s.2)
  end.

(** Up to where the tokens of a request are passed on, and that none was left out. *)
Definition position (o : CoreOutput) : Z := default 0 (num_output_tokens o).
Definition reaches (e : Z) (o : CoreOutput) : Z := if co_finished o then 0 else position o.

Fixpoint no_gap (e : Z) (l : list CoreOutput) : Prop :=
  match l with
  | [] => True
  | o :: l => position o - Z.of_nat (length (new_token_ids o)) <= e /\ no_gap (reaches e o) l
  end.

Lemma no_gap_app e l l' : no_gap e (l ++ l') <-> no_gap e l /\ no_gap (fold_left reaches l e) l'.
Proof. revert e. induction l as [|o l IH]; intros e; cbn; [tauto|]. rewrite IH. tauto. Qed.

Definition says_position (o : CoreOutput) : Prop := exists p, num_output_tokens o = Some p /\ 0 < p.

(** What has been passed on has no gap, and the client's positions are those reached. *)
Definition gapless (delivered : list CoreOutput) (c : Client) : Prop := forall id,
  let l := of_request id delivered in
  no_gap 0 l /\ 0 <= fold_left reaches l 0 /\ match request_num_output_tokens c !! id with None => True | Some p => p = Some (fold_left reaches l 0) end.

Lemma gapless_state delivered c c' : request_num_output_tokens c' = request_num_output_tokens c -> gapless delivered c -> gapless delivered c'.
Proof. intros H Hg id. rewrite H. apply Hg. Qed.

Lemma gapless_clear delivered id c : gapless delivered c -> gapless delivered (clear_client_request_states id c).
Proof.
  intros Hg id'. destruct (Hg id') as (H1 & H2 & H3). split; [done|]. split; [done|]. cbn.
  destruct (decide (id = id')) as [->|Hne]; [by rewrite lookup_delete_eq|by rewrite lookup_delete_ne].
Qed.

Lemma gapless_pass delivered o c :
  says_position o -> gapless delivered c ->
  position o <= default 0 (default (Some 0) (request_num_output_tokens c !! co_request_id o)) + Z.of_nat (length (new_token_ids o)) ->
  gapless (delivered ++ [o]) (if co_finished o then clear_client_request_states (co_request_id o) (note_position o c) else note_position o c).
Proof.
  intros (p & Hp & Hpos) Hg Hle id. cbv zeta. rewrite of_request_app, of_request_one, fold_left_app. destruct (Hg id) as (H1 & H2 & H3).
  case_bool_decide as Hid.
  - subst id. rewrite no_gap_app. cbn [no_gap fold_left]. assert (Hpo : position o = p) by (unfold position; by rewrite Hp).
    split_and!; [done| |done| |].
    + destruct (request_num_output_tokens c !! co_request_id o); [subst|]; cbn in Hle; lia.
    + unfold reaches. destruct (co_finished o); lia.
    + unfold reaches. destruct (co_finished o); cbn; [by rewrite lookup_delete_eq|]. rewrite lookup_insert_eq, Hpo. done.
  - rewrite app_nil_r. cbn [fold_left]. split; [done|]. split; [done|].
    destruct (co_finished o); cbn; rewrite ?lookup_delete_ne, lookup_insert_ne by done; done.
Qed.

Lemma take_gapless known inst l D P ab c :
  Forall says_position l -> gapless (D ++ P) c ->
  exists P' ab' c', take_outputs known inst l (P, ab, c) = Some (P', ab', c') /\ gapless (D ++ P') c' /\ outputs_queue c' = outputs_queue c.
Proof.
  revert P ab c. induction l as [|o l IH]; intros P ab c Hl Hg; [by exists P, ab, c|].
  apply Forall_cons_iff in Hl as [Ho Hl]. cbn [take_outputs]. unfold take_output at 1.
  case_bool_decide; [by apply IH|]. case_bool_decide; [by apply IH|].
  set (c1 := note_instance inst (co_request_id o) c). assert (Hg1 : gapless (D ++ P) c1) by (by eapply gapless_state, Hg).
  pose proof Ho as (p & Hp & Hpos). unfold process_output_order. rewrite Hp. rewrite bool_decide_false by lia.
  destruct (Hg1 (co_request_id o)) as (_ & H2 & H3).
  assert (Hprev : exists e, default (Some 0) (request_num_output_tokens c1 !! co_request_id o) = Some e) by (destruct (request_num_output_tokens c1 !! co_request_id o); subst; by eexists).
  destruct Hprev as [e He]. rewrite He. case_bool_decide as Hle; cbn [mbind option_bind last].
  - destruct (IH P ab (mkClient (instance_requests c1) (request_instances c1) (request_num_output_tokens c1) (aborted_requests c1)
      (<[co_request_id o := default [] (core_output_stash c1 !! co_request_id o) ++ [o]]> (core_output_stash c1)) (outputs_queue c1)) Hl) as (P' & ab' & c' & -> & Hg' & Hq); [by eapply gapless_state, Hg1|].
    by exists P', ab', c'.
  - destruct (IH (P ++ [o]) ab _ Hl ltac:(rewrite app_assoc; apply (gapless_pass (D ++ P) o c1 Ho Hg1); rewrite He; unfold position; rewrite Hp; cbn; lia)) as (P' & ab' & c' & -> & Hg' & Hq).
    exists P', ab', c'. split; [done|]. split; [done|]. rewrite Hq. by destruct (co_finished o).
Qed.

Lemma abort_gapless ids delivered c : gapless delivered c -> gapless delivered (abort_requests_async ids c) /\ outputs_queue (abort_requests_async ids c) = outputs_queue c.
Proof.
  revert c. induction ids as [|id ids IH]; intros c Hg; [done|]. cbn [abort_requests_async fold_left].
  destruct (IH (abort_one c id)) as [H1 H2]; [by eapply gapless_state, (gapless_clear _ id _ Hg)|]. split; [exact H1|exact H2].
Qed.

Lemma client_turn_gapless e s : (match e with Arrives _ _ m => Forall says_position (core_outputs (engine_outputs m)) | Aborts _ => True end) ->
  gapless (all_outputs (outputs_queue s.2)) s.2 -> gapless (all_outputs (outputs_queue (client_turn s e).2)) (client_turn s e).2.
Proof.
  intros He Hg. destruct s as [alive c]. destruct e as [known answer m|ids]; cbn [client_turn fst snd] in *.
  2: { destruct (abort_gapless ids _ c Hg) as [H1 H2]. by rewrite H2. }
  destruct alive; [|done]. unfold get_request_outputs.
  destruct (take_gapless known (lo_instance_id m) _ (all_outputs (outputs_queue c)) [] [] c He) as (P & ab & c' & -> & Hg' & Hq); [by rewrite app_nil_r|].
  set (c2 := deliver_outputs P (engine_outputs m) c').
  assert (H2 : gapless (all_outputs (outputs_queue c2)) c2).
  { unfold c2, deliver_outputs. destruct (bool_decide _ || _) eqn:E.
    - cbn [outputs_queue]. unfold all_outputs. rewrite flat_map_app. cbn [flat_map core_outputs]. rewrite app_nil_r, Hq. by eapply gapless_state, Hg'.
    - apply orb_false_iff in E as [E _]. apply bool_decide_eq_false in E. destruct P; [|by destruct E]. rewrite Hq. by rewrite app_nil_r in Hg'. }
  case_bool_decide; [done|]. destruct answer; cbn; [by eapply gapless_state, H2|done..].
Qed.

(** C21. The API server's client never skips a token: whatever messages arrive, in whatever order
    and with whatever aborts, if each output says its position then the tokens that the client
    passes on for a request have no gap, each output beginning no later than where the one
    before it ended. *)
Theorem outputs_never_skip events :
  Forall (fun e => match e with Arrives _ _ m => Forall says_position (core_outputs (engine_outputs m)) | Aborts _ => True end) events ->
  forall id, no_gap 0 (of_request id (all_outputs (outputs_queue (fold_left client_turn events (true, new_client)).2))).
Proof.
  intros He id. assert (Hg : gapless (all_outputs (outputs_queue (fold_left client_turn events (true, new_client)).2)) (fold_left client_turn events (true, new_client)).2); [|by apply Hg].
  assert (H0 : gapless (all_outputs (outputs_queue (true, new_client).2)) (true, new_client).2) by done.
  revert He H0. generalize (true, new_client) as s. induction events as [|e events IH]; intros s He H0; cbn; [done|].
  apply Forall_cons_iff in He as [He Hes]. apply IH; [done|]. by apply client_turn_gapless.
Qed.

Definition example_message_of (l : list CoreOutput) : LlumnixRequestOutputs := mkLlumnixOutputs "i" "l" (mkCoreOutputs 0 l None None).

(** Three tokens of which the last two arrive in the wrong order: the third is held back. *)
Definition swapped : list client_event :=
  (fun o => Arrives {["r"]} AbortSuccess (example_message_of [o])) <$>
  [example_output "r" 1 (Some 1) "a"; example_output "r" 3 (Some 3) "a"; example_output "r" 2 (Some 2) "a"].

Lemma outputs_never_skip_witness :
  of_request "r" (all_outputs (outputs_queue (fold_left client_turn swapped (true, new_client)).2)) = [example_output "r" 1 (Some 1) "a"; example_output "r" 2 (Some 2) "a"] /\
  no_gap 0 (of_request "r" (all_outputs (outputs_queue (fold_left client_turn swapped (true, new_client)).2))).
Proof.
  split; [vm_compute; reflexivity|]. apply (outputs_never_skip swapped).
  repeat (apply Forall_cons_2; [apply Forall_cons_2; [eexists; split; [reflexivity|lia]|apply Forall_nil_2]|]). apply Forall_nil_2.
Defined.

(** Outputs that are held back are never passed on: when the client is behind the outputs that
    arrive, by a token or more, it passes nothing of the request on any more, although the
    outputs follow each other. *)
Theorem held_back_for_ever known inst id l e q P ab c :
  request_num_output_tokens c !! id = Some (Some e) -> e < q -> aborted_requests c = ∅ ->
  in_order true q l -> Forall (fun o => co_request_id o = id /\ new_token_ids o <> []) l -> (forall o, o ∈ removelast l -> co_finished o = false) ->
  0 <= e -> exists c', take_outputs known inst l (P, ab, c) = Some (P, ab, c') /\ request_num_output_tokens c' !! id = Some (Some e).
Proof.
  revert q c. induction l as [|o l IH]; intros q c Hc Hq Ha Ho Hl Hfin He; [by exists c|].
  apply Forall_cons_iff in Hl as [[Hid Hn] Hl]. destruct Ho as [Ho Hol]. cbn [take_outputs]. unfold take_output at 1. rewrite Ha.
  rewrite bool_decide_false by set_solver. subst id.
  assert (Hlen : (0 < length (new_token_ids o))%nat) by (destruct (new_token_ids o); cbn; [done|lia]).
  assert (Hrest : forall c', request_num_output_tokens c' !! co_request_id o = Some (Some e) -> aborted_requests c' = ∅ ->
    exists c'', take_outputs known inst l (P, ab, c') = Some (P, ab, c'') /\ request_num_output_tokens c'' !! co_request_id o = Some (Some e)).
  { intros c' Hc' Ha'. destruct l as [|o' l]; [by exists c'|].
    assert (Hf : co_finished o = false) by (apply Hfin; cbn; by left). unfold advance in Hol. rewrite Hf in Hol.
    apply (IH (q + Z.of_nat (length (new_token_ids o)))); try done; [lia|]. intros x Hx. apply Hfin. cbn. by right. }
  case_bool_decide; [by apply Hrest|]. unfold process_output_order. rewrite Ho. cbn [note_instance request_num_output_tokens]. rewrite Hc. cbn [default option_rect id].
  rewrite bool_decide_false by lia. rewrite bool_decide_true by lia. cbn [mbind option_bind last]. by apply Hrest.
Qed.

(** An output without a position followed by one with a position ends the client's loop: no
    request of the API server gets another token. *)
Theorem mixed_outputs_end_loop :
  (fold_left client_turn
    ((fun o => Arrives {["r"; "s"]} AbortSuccess (example_message_of [o])) <$>
     [example_output "r" 1 None "a"; example_output "r" 2 (Some 2) "a"; example_output "s" 9 (Some 1) "a"]) (true, new_client)).1 = false.
Proof. vm_compute. reflexivity. Qed.

(** ** The pool of connections keeps its bound *)

Definition pool_wf (p : LruConnectionPool) : Prop :=
  NoDup (connection_pool p).*1 /\ (0 < max_connections p -> Z.of_nat (length (connection_pool p)) <= max_connections p).

Lemma pool_find_in a l : match pool_find a l with Some n => (a, n) ∈ l | None => a ∉ l.*1 end.
Proof.
  induction l as [|[a' n] l IH]; cbn; [by intros ?%elem_of_nil|]. case_bool_decide; [subst; by left|].
  destruct (pool_find a l); [by right|]. intros [->|Hi]%elem_of_cons; done.
Qed.

Lemma pool_remove_spec a l : NoDup l.*1 -> NoDup (pool_remove a l).*1 /\ (a ∉ (pool_remove a l).*1) /\ (length (pool_remove a l) <= length l)%nat /\
  (a ∈ l.*1 -> (length (pool_remove a l) < length l)%nat).
Proof.
  unfold pool_remove. induction l as [|[a' n] l IH]; [intros _; cbn; split_and!; [constructor|by intros ?%elem_of_nil|lia|by intros ?%elem_of_nil]|].
  intros [H1 H2]%list.NoDup_cons. destruct (IH H2) as (A1 & A2 & A3 & A4). rewrite filter_cons. case_decide as Hd; cbn in Hd.
  - cbn. split_and!; [apply list.NoDup_cons; split; [|done]|apply not_elem_of_cons; split; [congruence|done]|lia|intros [Hx|Hx]%elem_of_cons; [by destruct Hd|specialize (A4 Hx); lia]].
    intros (x & Hxa & [_ Hx]%list_elem_of_filter)%list_elem_of_fmap. apply H1. cbn. rewrite Hxa. exact (list_elem_of_fmap_2 fst _ _ Hx).
  - cbn. split_and!; [done..|lia|lia].
Qed.

Lemma one_each (l : list (string * nat)) a n m : NoDup l.*1 -> (a, n) ∈ l -> (a, m) ∈ l -> n = m.
Proof.
  induction l as [|[a' k] l IH]; [by intros _ ?%elem_of_nil|]. intros [H1 H2]%list.NoDup_cons. cbn in H1.
  intros [En|Hn]%elem_of_cons [Em|Hm]%elem_of_cons; simplify_eq; [done| | |by apply IH].
  - destruct H1. exact (list_elem_of_fmap_2 fst _ _ Hm).
  - destruct H1. exact (list_elem_of_fmap_2 fst _ _ Hn).
Qed.

(** Getting a connection gives the one to that address, which is now the last to be dropped,
    and keeps the pool within its bound with one connection for each address. *)
Theorem pool_connection_exact a p : pool_wf p ->
  let '(n, p') := get_connection_through_address a p in
  pool_wf p' /\ last (connection_pool p') = Some (a, n) /\ (forall m, (a, m) ∈ connection_pool p -> n = m).
Proof.
  intros [Hn Hb]. unfold get_connection_through_address. pose proof (pool_find_in a (connection_pool p)) as Hf. destruct (pool_find a (connection_pool p)) as [n|].
  - destruct (pool_remove_spec a (connection_pool p) Hn) as (A1 & A2 & _ & A4). assert (Ha : a ∈ (connection_pool p).*1) by (by apply (list_elem_of_fmap_2 fst _ _ Hf)). specialize (A4 Ha).
    split; [split|]; cbn [connection_pool max_connections].
    + rewrite fmap_app. apply list.NoDup_app. split; [done|]. split; [intros x Hx ->%list_elem_of_singleton; done|apply NoDup_singleton].
    + intros Hp. specialize (Hb Hp). rewrite length_app. cbn. lia.
    + split; [apply last_snoc|]. intros m Hm. exact (one_each _ a n m Hn Hf Hm).
  - set (l := if _ && _ then _ else _). assert (Hl : l `sublist_of` connection_pool p) by (unfold l; destruct (_ && _); [apply sublist_drop|done]).
    split; [split|]; cbn [connection_pool max_connections].
    + rewrite fmap_app. apply list.NoDup_app. split; [exact (sublist_NoDup _ _ Hn (fmap_sublist fst _ _ Hl))|]. split; [|apply NoDup_singleton].
      intros x Hx ->%list_elem_of_singleton. apply Hf. exact (elem_of_sublist _ _ _ Hx (fmap_sublist fst _ _ Hl)).
    + intros Hp. specialize (Hb Hp). rewrite length_app. cbn. unfold l. rewrite bool_decide_true by done. cbn [andb]. case_bool_decide; [rewrite length_drop|]; lia.
    + split; [apply last_snoc|]. intros m Hm. destruct Hf. by apply (list_elem_of_fmap_2 fst _ _ Hm).
Qed.
