(* ===== verification/Mirror.v ===== *)
(** * Traffic mirroring

    [pkg/gateway/property/property_manager.go], which reads the mirror's settings again when
    their file changes, and [pkg/gateway/mirror/mirror.go], which sends a copy of a request to
    another target. The contents of the file and the random number are arguments; so are the
    reading of JSON into the settings and the checksum, of which the watcher needs that it tells
    the contents of the file apart. *)

From stdpp Require Import base gmap sets list strings numbers.
From S2P Require Import Prelude GoStrings GoFloat.

Local Open Scope Z_scope.

Record MirrorConfig := mkMirrorConfig {
  mc_Enable : bool;
  mc_Target : string;
  mc_Ratio : float;
  mc_Timeout : float;
  mc_Authorization : string;
  mc_EnableLog : bool
}.

Definition zero_MirrorConfig : MirrorConfig := mkMirrorConfig false "" f_zero f_zero "" false.

Record configContext := mkConfigContext { cc_path : string; lastContentHash : string }.

Record ConfigManager := mkConfigManager { configs : gmap string configContext; mirrorConfig : MirrorConfig; reload_pending : bool }.

Section manager.
Context (Unmarshal_config : string -> option MirrorConfig) (md5Hex : string -> string).

(** [loadConfigs] over the names in the order of the iteration; the result is whether there was
    no error. A file that cannot be read ends the loop without an error. *)
Fixpoint loadConfigs (readFile : string -> option string) (names : list string) (cm : ConfigManager) : bool * ConfigManager :=
  match names with
  | [] => (true, cm)
  | name :: names =>
      if bool_decide (name <> "mirror") then loadConfigs readFile names cm
      else match configs cm !! name with
      | None => loadConfigs readFile names cm
      | Some ctx =>
          match readFile (cc_path ctx) with
          | None => (true, cm)
          | Some data =>
              match Unmarshal_config data with
              | None => (false, cm)
              | Some tempConfig =>
                  loadConfigs readFile names
                    (mkConfigManager (<[name := mkConfigContext (cc_path ctx) (md5Hex data)]> (configs cm)) tempConfig (reload_pending cm))
              end
          end
      end
  end.

Definition content_changed (readFile : string -> option string) (cm : ConfigManager) (name : string) : bool :=
  match configs cm !! name with
  | None => false
  | Some ctx =>
      match readFile (cc_path ctx) with
      | None => false
      | Some data => bool_decide (md5Hex data <> lastContentHash ctx)
      end
  end.

(** [checkForUpdates]: the two loops over the map may take different orders. *)
Definition checkForUpdates (order order' : key_order) (readFile : string -> option string) (cm : ConfigManager) : ConfigManager :=
  if existsb (content_changed readFile cm) (order (dom (configs cm)))
  then (loadConfigs readFile (order' (dom (configs cm))) cm).2 else cm.

Definition NewConfigManager (order : key_order) (readFile : string -> option string) (configPaths : gmap string string) : ConfigManager :=
  let cm := mkConfigManager ((fun p => mkConfigContext p "") <$> configPaths) zero_MirrorConfig false in
  (loadConfigs readFile (order (dom (configs cm))) cm).2.

(** [ForceReload] puts a signal into a channel of one place; a turn of [watchConfigs] takes it
    or the tick of the clock. *)
Definition ForceReload (cm : ConfigManager) : ConfigManager := mkConfigManager (configs cm) (mirrorConfig cm) true.
Definition watch_turn (by_signal : bool) (order order' : key_order) (readFile : string -> option string) (cm : ConfigManager) : ConfigManager :=
  checkForUpdates order order' readFile (if by_signal then mkConfigManager (configs cm) (mirrorConfig cm) false else cm).

(** ** The settings follow the file *)

(** The last content that could be read, with its settings. *)
Definition step_latest (l : option (string * MirrorConfig)) (content : option string) : option (string * MirrorConfig) :=
  match content with Some d => match Unmarshal_config d with Some c => Some (d, c) | None => l end | None => l end.

Definition latest (contents : list (option string)) : option (string * MirrorConfig) := fold_left step_latest contents None.

Definition manager_of (path : string) (l : option (string * MirrorConfig)) : gmap string configContext * MirrorConfig :=
  match l with
  | None => ({["mirror" := mkConfigContext path ""]}, zero_MirrorConfig)
  | Some (d, c) => ({["mirror" := mkConfigContext path (md5Hex d)]}, c)
  end.

Definition tracks (path : string) (l : option (string * MirrorConfig)) (cm : ConfigManager) : Prop :=
  (configs cm, mirrorConfig cm) = manager_of path l.

Lemma tracks_ctx path l cm : tracks path l cm -> exists h, configs cm = {["mirror" := mkConfigContext path h]} /\
  h = match l with Some (d, _) => md5Hex d | None => ""%string end /\ mirrorConfig cm = match l with Some (_, c) => c | None => zero_MirrorConfig end.
Proof. unfold tracks, manager_of. destruct l as [[d c]|]; intros [= -> ->]; by eexists. Qed.

Lemma order_one (order : key_order) h path : visits_once order -> order (dom ({["mirror" := mkConfigContext path h]} : gmap string configContext)) = ["mirror"].
Proof. intros Ho. apply Permutation_singleton_r. rewrite (Ho _), dom_singleton_L, elements_singleton. done. Qed.

Lemma load_tracks path l content readFile cm : tracks path l cm -> readFile path = content -> tracks path (step_latest l content) (loadConfigs readFile ["mirror"] cm).2.
Proof.
  intros Ht Hr. destruct (tracks_ctx path l cm Ht) as (h & Hc & _). cbn [loadConfigs]. rewrite bool_decide_false by (intros H; by apply H).
  rewrite Hc, lookup_singleton_eq. cbn [cc_path]. rewrite Hr. destruct content as [d|]; [|done]. cbn [step_latest]. destruct (Unmarshal_config d) as [c|]; [|done].
  unfold tracks, manager_of. cbn. by rewrite insert_singleton_eq.
Qed.

Lemma turn_tracks path l content by_signal order order' readFile cm :
  visits_once order -> visits_once order' -> tracks path l cm -> readFile path = content ->
  (forall d, md5Hex d <> "") -> (forall d d' c, l = Some (d', c) -> content = Some d -> md5Hex d = md5Hex d' -> d = d') -> (forall d c, l = Some (d, c) -> Unmarshal_config d = Some c) ->
  tracks path (step_latest l content) (watch_turn by_signal order order' readFile cm).
Proof.
  intros Ho Ho' Ht Hr Hne Hinj Hl. unfold watch_turn. set (cm1 := if by_signal then _ else cm). assert (Ht1 : tracks path l cm1) by (by destruct by_signal).
  clearbody cm1. unfold checkForUpdates. destruct (tracks_ctx path l cm1 Ht1) as (h & Hc & Hh & Hm). rewrite Hc, (order_one order h path Ho), (order_one order' h path Ho').
  destruct (existsb _ _) eqn:E; [by apply load_tracks|].
  cbn [existsb] in E. rewrite orb_false_r in E. unfold content_changed in E. rewrite Hc, lookup_singleton_eq in E. cbn [cc_path lastContentHash] in E. rewrite Hr in E.
  destruct content as [d|]; [|exact Ht1]. apply bool_decide_eq_false, dec_stable in E. cbn [step_latest]. destruct l as [[d' c]|]; [|by destruct (Hne d); rewrite E, Hh].
  rewrite Hh in E. rewrite (Hinj d d' c eq_refl eq_refl E). by rewrite (Hl d' c eq_refl).
Qed.

(** A turn of the watcher: what woke it, the orders of its loops and the file at that time. *)
Record watch_event := mkWatchEvent { by_signal : bool; first_order : key_order; second_order : key_order; content : option string }.

Definition run_turn (cm : ConfigManager) (e : watch_event) : ConfigManager :=
  watch_turn (by_signal e) (first_order e) (second_order e) (fun _ => content e) cm.

Lemma latest_from contents l d c : fold_left step_latest contents l = Some (d, c) -> Some d ∈ contents \/ l = Some (d, c).
Proof.
  revert l. induction contents as [|x contents IH]; intros l H; [by right|]. destruct (IH _ H) as [Hd|Hd]; [left; by right|].
  destruct x as [d'|]; cbn in Hd; [|by right]. destruct (Unmarshal_config d') as [c'|]; [|by right]. injection Hd as -> _. left. by left.
Qed.

Lemma latest_parses contents d c : latest contents = Some (d, c) -> Unmarshal_config d = Some c.
Proof.
  unfold latest. assert (Hn : forall d c, @None (string * MirrorConfig) = Some (d, c) -> Unmarshal_config d = Some c) by done. revert Hn. generalize (@None (string * MirrorConfig)) as l.
  induction contents as [|x contents IH]; intros l Hl H; [by apply Hl|]. apply (IH (step_latest l x)); [|exact H].
  intros d1 c1. destruct x as [d'|]; cbn; [|apply Hl]. destruct (Unmarshal_config d') as [c'|] eqn:E; [|apply Hl]. by intros [= <- <-].
Qed.

(** The settings follow the file: at every time they are those of the last content of the file
    that was there when the watcher looked and that could be read, as long as the checksum
    tells the contents apart; a file that is missing or broken leaves them as they are. *)
Theorem mirror_config_follows_file path order first events :
  visits_once order -> Forall (fun e => visits_once (first_order e) /\ visits_once (second_order e)) events ->
  (forall d, md5Hex d <> "") ->
  (forall d d', Some d ∈ first :: (content <$> events) -> Some d' ∈ first :: (content <$> events) -> md5Hex d = md5Hex d' -> d = d') ->
  mirrorConfig (fold_left run_turn events (NewConfigManager order (fun _ => first) {["mirror" := path]})) =
  match latest (first :: (content <$> events)) with Some (_, c) => c | None => zero_MirrorConfig end.
Proof.
  intros Ho He Hne Hinj. enough (Ht : tracks path (latest (first :: (content <$> events))) (fold_left run_turn events (NewConfigManager order (fun _ => first) {["mirror" := path]}))).
  { by destruct (tracks_ctx _ _ _ Ht) as (_ & _ & _ & ->). }
  induction events as [|e events IH] using rev_ind.
  - cbn [fold_left fmap list_fmap]. unfold NewConfigManager. rewrite map_fmap_singleton. cbn [configs]. rewrite (order_one order "" path Ho). by apply load_tracks.
  - apply Forall_app in He as [He [[Ho1 Ho2] _]%Forall_cons_iff]. rewrite fold_left_app, fmap_app. cbn [fold_left fmap list_fmap].
    change (first :: (content <$> events) ++ [content e]) with ((first :: (content <$> events)) ++ [content e]) in *. unfold latest. rewrite fold_left_app. fold (latest (first :: (content <$> events))).
    rewrite fmap_app in Hinj. cbn [fmap list_fmap] in Hinj.
    assert (Hsub : forall x, x ∈ first :: (content <$> events) -> x ∈ first :: ((content <$> events) ++ [content e])) by (intros x; rewrite !elem_of_cons, elem_of_app; tauto).
    apply turn_tracks; try done.
    + apply IH; [done|]. intros d d' Hd Hd'. apply Hinj; by apply Hsub.
    + intros d d' c Hl Hc. apply Hinj.
      * rewrite elem_of_cons, elem_of_app. right. right. rewrite Hc. by left.
      * apply Hsub. destruct (latest_from _ _ _ _ Hl) as [H|H]; [exact H|done].
    + intros d c. apply latest_parses.
Qed.

End manager.

(** ** mirror.go *)

Definition Enabled (provider : option MirrorConfig) : bool := match provider with Some c => mc_Enable c | None => false end.

Record HttpCopy := mkHttpCopy { hc_method : string; hc_url : string; hc_body : string; hc_header : gmap string (list string); hc_timeout : option Z }.

(** [TryMirror]: the request that is sent, if one is; the time limit in milliseconds. [rnd] is
    the random number. *)
Definition TryMirror (c : MirrorConfig) (rnd : float) (method path data : string) (header : gmap string (list string)) : option HttpCopy :=
  if bool_decide (mc_Target c = "") || fle (mc_Ratio c) f_zero then None
  else if fge (f64_mul rnd (f64_of_Z 100)) (mc_Ratio c) then None
  else
    let header := delete "Content-Length" header in
    let header := if bool_decide (mc_Authorization c <> "") then <["Authorization" := [mc_Authorization c]]> header else header in
    Some (mkHttpCopy method (mc_Target c +:+ path) data header
            (if feq (mc_Timeout c) f_zero then None else Some (default 0 (ftrunc (mc_Timeout c))))).

(** A time limit of less than a millisecond is none at all: the copy is cancelled at once. *)
Theorem short_timeout_cancels : forall c rnd method path data header r,
  mc_Timeout c = f64_div (f64_of_Z 1) (f64_of_Z 2) -> TryMirror c rnd method path data header = Some r -> hc_timeout r = Some 0.
Proof.
  intros c rnd method path data header r Ht. unfold TryMirror. destruct (_ || _); [done|]. destruct (fge _ _); [done|]. intros [= <-]. cbn [hc_timeout]. rewrite Ht. vm_compute. done.
Qed.
